(* ===== verification/_CoqProject ===== *)
-Q . S2P
Prelude.v
Align.v
Mem.v
RingBuffer.v
RingConc.v
Printf.v
PrintfProof.v
FormatType.v
Stdio.v
PageAlloc.v
PageAllocProof.v
LibcString.v
Kmem.v
KmemProof.v
KmemAlloc.v
KmemInit.v
KmemFree.v
KmemTheorems.v
Mmu.v
MmuProof.v
MmuMap.v
MmuTheorems.v
MmuDump.v
Malloc.v
MallocProof.v
MallocHeap.v
MallocAlloc.v
MallocTheorems.v
Inet.v
ArpCache.v
Net.v
NetProof.v
NetSend.v
NetInput.v
NetUdp.v
NetEcho.v
NetTheorems.v
Echod.v
Fdt.v
FdtRo.v
FdtSw.v
FdtRw.v
FdtProof.v
FdtLookup.v
FdtBuild.v
FdtTheorems.v
FdtOverlay.v
FdtEdit.v
FdtMerge.v
FdtPhandle.v
FdtOverlayProof.v
FdtFixup.v
FdtSymbol.v
FdtApply.v
Platform.v
Sched.v
SchedProof.v
Vm.v
VmProof.v
VmTheorems.v
Kernel.v
Process.v
Syscall.v
UserCopy.v
SyscallTheorems.v
Exceptions.v
ExceptionsProof.v
Irq.v
IrqTheorems.v
Switch.v
Boot.v
BootProof.v
Ioport.v
Pci.v
Virtqueue.v
VirtioNet.v
VirtioNetProof.v
PciProof.v
VirtioCard.v
