(* ===== verification/Prelude.v ===== *)
(** * A verification of the Manticore kernel and its user space libraries

    Manticore is a small kernel in C and Rust (mm/, kernel/, arch/x86_64/,
    arch/aarch64/, drivers/), with a C library for its processes (usr/liblinux,
    usr/libmanticore), a UDP echo server (usr/echod) and a copy of libfdt.  This
    library is a shallow embedding of it: C functions and Rust functions are
    Rocq functions over an explicit state, with the names of the source.

    ** How the parts fit together

    The boot loader hands over a description of the memory (a device tree on
    ARM, multiboot tags on x86).  The kernel gives the free part to the page
    allocator, builds its page tables from it, and puts the slab allocator on
    top of both.  Interrupts and exceptions enter through the descriptor table.
    Processes are started from an ELF image, scheduled from a run queue, and
    call the kernel through the syscall instruction; they get memory from their
    address space and packets from a device through ring buffers in shared
    memory.  The network stack that takes these packets apart is in user space.

    ** Conventions

    Memory is a finite map from addresses to bytes (Mem.v), and a struct is the
    offsets of its fields in it.  Machine integers are [Z] with the wrap-around
    written out ([u64], [s32], ...).  What stops a computation is a value: the
    type [outcome] below is a result or a [fault], such as a null dereference,
    an index outside of an array, a failed assertion or a panic.  Loops that are
    not structural take fuel and return [Fault OutOfFuel] without it; the
    theorems give a bound that is enough, in most cases the length of the list,
    string or buffer that the loop walks over, so that none of them is about
    runs that end for lack of fuel, except where they state that a loop never
    ends.  Other bounds: 256 steps for the list of capabilities of a PCI device,
    which has 256 addresses; 2^16 used entries for an interrupt of the network
    card, whose indices have 16 bits; 256 commands for an I/O queue, of which a
    page holds 162; the size of the blob for the loops and for the depth of the
    recursion over a device tree overlay.  Code that is not in the repository is
    a class with its laws or an argument: red-black trees ([SegmentTree],
    [RegionTree]), the reader of ELF files, constants of the headers of the host
    ([HostHeaders]), system calls as their result and the memory they leave.
    Devices are classes too: ports and registers ([Hardware]), the network card
    ([NetCard]), the configuration space ([ConfigSpace]).  The drivers are behind
    the class [DeviceOps], the trait of the source.  Each class with laws has an
    instance, so that the laws can hold.

    ** Files

    - Prelude, Align, Mem: outcomes, integers, alignment, memory.
    - RingBuffer, RingConc: kernel/atomic-ring-buffer.c.  The sequential
      operations implement a bounded queue; producer and consumer that
      interleave at every load and store, as a step relation, lose, repeat and
      reorder nothing.
    - Printf, PrintfProof, Stdio, FormatType: kernel/printf.c and stdio.c of
      liblinux.  What the calls print, what they write to a buffer, and a type
      system for format strings that is exact.
    - LibcString: lib/libc and string functions.
    - PageAlloc, PageAllocProof: kernel/memory.rs.  The arenas own exactly the
      free bytes; interface [PageAllocator], with its laws, for the clients.
    - Kmem and KmemProof to KmemTheorems: mm/kmem.c.  The invariant of the slab
      allocator, fresh and aligned objects, initialisation, freeing, and the
      case in which freeing breaks it.
    - Mmu and MmuProof to MmuDump: mm/mmu.c and arch/x86_64/mmu.c.  Page tables
      as memory, [translate] as the walk of the processor, and what mapping a
      page, a range or a device changes in it.
    - Malloc and MallocProof to MallocTheorems: the allocator of liblinux.
    - Inet, ArpCache, Net and NetProof to NetTheorems: the network stack of
      liblinux: frames that are sent, frames that are taken in, ARP, and a round
      trip of a UDP datagram through the handler of the echo server.
    - Echod: main of usr/echod/echod.c, strerror, and the start of a process
      (internal/setup.c).  A round of the server answers a datagram.
    - Fdt, FdtRo, FdtSw, FdtRw and FdtProof to FdtTheorems, Platform: libfdt and
      its use in arch/aarch64/platform.c.  A tree that was written sequentially
      reads back as the same tree; path and property lookup; the memory found.
    - FdtOverlay: lib/libfdt/fdt_overlay.c.  FdtEdit and FdtMerge are about
      splicing, setting properties, adding nodes and merging a node; FdtPhandle,
      FdtFixup and FdtSymbol about the phandles and references of an overlay;
      FdtOverlayProof about its fragments.  FdtApply puts them together: the base
      blob becomes the flattened form of the merged tree, and a property that was
      set is read back.
    - Sched, SchedProof: kernel/sched.rs and the idle loop, as a refinement of
      two queues, with the theorem that every process gets to run.
    - Vm, VmProof, VmTheorems: kernel/vm.rs over the allocators and page tables.
    - Kernel, Process, Syscall, UserCopy, SyscallTheorems: access to user
      memory, kernel/process.rs, device.rs, event.rs, and the system calls from
      the register moves on. Allocation by a process keeps the invariants of all
      allocators and everybody else's memory.
    - Exceptions, ExceptionsProof, Irq, IrqTheorems: arch/x86_64/exceptions.c,
      entry.S, irq.c, apic.c, i8259.c, task.c, segments, and kernel/panic.c.
      The gates, the registers that survive, the handlers that run, the ports
      that user mode can reach.
    - Switch: the assembly of arch/x86_64/thread.c and ret_to_userspace, and the
      scheduler on top of it: a task that is switched away comes back as it was.
    - Boot, BootProof: arch/x86_64/platform.c, acpi.c and the page
      tables of setup.c.  The memory that the boot loader lists becomes free
      memory once, and is mapped.
    - Ioport, Pci, PciProof: kernel/ioport.rs, arch/x86_64/pci.c and mmio.c,
      drivers/pci/lib.rs.  Capabilities are found where the device has them.
    - Virtqueue, VirtioNet, VirtioNetProof, VirtioCard: drivers/virtio and
      kernel/ioqueue.rs.  The card is started, queued packets are sent as they
      are, received packets reach the process as events.

    Theorems whose name ends in [_defects] evaluate the code on inputs on which
    it misbehaves.

    ** Not modelled

    - start_kernel and initrd_load: the calls, in order, of what is modelled.
    - The switch to long mode, the linker script, and functions that are one
      instruction each; their effect is a recorded operation.
    - The empty functions of the ARM port.
    - The serial port of ARM, the start code of a process (three calls), the
      panic handler and printing macros of Rust, and test programs. *)

From stdpp Require Export base tactics list numbers gmap.
From Stdlib Require Export ZArith Lia.

#[global] Open Scope Z_scope.

(** ** Outcomes of C code *)

(** What can stop a C computation before it returns. *)
Inductive fault :=
  | NullDeref      (* a load or store through a null pointer *)
  | OutOfBounds    (* an access outside the object it is meant for *)
  | BadArg         (* a [va_arg] that does not match the argument list *)
  | AssertFailed   (* a failed [assert] *)
  | Panic          (* the kernel's [panic], a process's [abort] *)
  | DivByZero      (* an integer division or remainder by zero *)
  | OutOfFuel.     (* the recursion bound of the model ran out *)

#[global] Instance fault_eq_dec : EqDecision fault.
Proof. solve_decision. Defined.

Inductive outcome (A : Type) : Type :=
  | Ok (a : A)
  | Fault (f : fault).

Arguments Ok {A} a.
Arguments Fault {A} f.

#[global] Instance outcome_ret : MRet outcome := fun A a => Ok a.
#[global] Instance outcome_bind : MBind outcome := fun A B f o =>
  match o with
  | Ok a => f a
  | Fault e => Fault e
  end.

Declare Scope c_scope.
Delimit Scope c_scope with C.
#[global] Open Scope c_scope.

Notation "'assert!' b ;; k" := (if b then k else Fault AssertFailed)
  (at level 100, b at next level, k at level 200, right associativity) : c_scope.
Notation "'nonnull!' p ;; k" := (if p =? 0 then Fault NullDeref else k)
  (at level 100, p at next level, k at level 200, right associativity) : c_scope.

(** Rewriting steps of a bind; unlike reduction they leave small proof terms. *)
Lemma Ok_bind {A B} (a : A) (f : A -> outcome B) : (Ok a ≫= f) = f a.
Proof. done. Qed.

Lemma Fault_bind {A B} (e : fault) (f : A -> outcome B) : (Fault e ≫= f) = Fault e.
Proof. done. Qed.

Lemma bind_Ok {A B} (o : outcome A) (f : A -> outcome B) (b : B) :
  (o ≫= f) = Ok b <-> exists a, o = Ok a /\ f a = Ok b.
Proof.
  destruct o as [a | e]; simpl; split.
  - intros Hf. by exists a.
  - by intros (a' & [= <-] & Hf).
  - done.
  - by intros (a' & ? & _).
Qed.

(** ** Machine integers: a w-bit word is a [Z], the wrap-around is explicit *)

Definition u8 (z : Z) : Z := z mod 2 ^ 8.
Definition u16 (z : Z) : Z := z mod 2 ^ 16.
Definition u32 (z : Z) : Z := z mod 2 ^ 32.
Definition u64 (z : Z) : Z := z mod 2 ^ 64.

(** Two's complement reading of the low 32 and 64 bits. *)
Definition s32 (z : Z) : Z := if u32 z <? 2 ^ 31 then u32 z else u32 z - 2 ^ 32.
Definition s64 (z : Z) : Z := if u64 z <? 2 ^ 63 then u64 z else u64 z - 2 ^ 64.

Definition is_byte (z : Z) : Prop := 0 <= z < 2 ^ 8.
Definition is_u32 (z : Z) : Prop := 0 <= z < 2 ^ 32.
Definition is_u64 (z : Z) : Prop := 0 <= z < 2 ^ 64.

Create HintDb word.

Lemma u8_range z : 0 <= u8 z < 2 ^ 8.
Proof. apply Z.mod_pos_bound; lia. Qed.
Lemma u16_range z : 0 <= u16 z < 2 ^ 16.
Proof. apply Z.mod_pos_bound; lia. Qed.
Lemma u32_range z : 0 <= u32 z < 2 ^ 32.
Proof. apply Z.mod_pos_bound; lia. Qed.
Lemma u64_range z : 0 <= u64 z < 2 ^ 64.
Proof. apply Z.mod_pos_bound; lia. Qed.

Lemma u8_small z : 0 <= z < 2 ^ 8 -> u8 z = z.
Proof. apply Z.mod_small. Qed.
Lemma u16_small z : 0 <= z < 2 ^ 16 -> u16 z = z.
Proof. apply Z.mod_small. Qed.
Lemma u32_small z : 0 <= z < 2 ^ 32 -> u32 z = z.
Proof. apply Z.mod_small. Qed.
Lemma u64_small z : 0 <= z < 2 ^ 64 -> u64 z = z.
Proof. apply Z.mod_small. Qed.

#[export] Hint Resolve u8_range u16_range u32_range u64_range : word.
#[export] Hint Rewrite u8_small u16_small u32_small u64_small using lia : word.

(** Rewrite every word operation on a value known to be in range. *)
Ltac word_simpl := autorewrite with word in *.

(** Case analysis on the boolean comparisons of a goal or hypothesis. *)
Ltac case_bool :=
  match goal with
  | |- context [?a =? ?b] => destruct (Z.eqb_spec a b)
  | |- context [?a <? ?b] => destruct (Z.ltb_spec a b)
  | |- context [?a <=? ?b] => destruct (Z.leb_spec a b)
  | H : context [?a =? ?b] |- _ => destruct (Z.eqb_spec a b)
  | H : context [?a <? ?b] |- _ => destruct (Z.ltb_spec a b)
  | H : context [?a <=? ?b] |- _ => destruct (Z.leb_spec a b)
  end.

(** Unfold one bind of a successful computation. *)
Ltac inv_bind H :=
  let x := fresh "x" in let E := fresh "E" in
  apply bind_Ok in H as (x & E & H).

(** A multiple of [d] less than [d] above another multiple is that multiple. *)
Lemma mul_squeeze q r d : q * d <= r * d < q * d + d -> r = q.
Proof. intros. assert (0 < d) by lia. nia. Qed.

(** ** Bits of integers *)

Lemma pow2_pos k : 0 <= k -> 0 < 2 ^ k.
Proof. intros. apply Z.pow_pos_nonneg; lia. Qed.

Lemma testbit_small n w i :
  0 <= n < 2 ^ w -> w <= i -> Z.testbit n i = false.
Proof.
  intros [Hn Hw] Hi.
  destruct (decide (0 <= w)) as [Hw0 | Hw0].
  - rewrite <- (Z.mod_small n (2 ^ w)) by lia. by apply Z.mod_pow2_bits_high.
  - rewrite Z.pow_neg_r in Hw by lia. lia.
Qed.

Lemma testbit_mod_pow2 a w i :
  0 <= w -> Z.testbit (a mod 2 ^ w) i = (i <? w) && Z.testbit a i.
Proof.
  intros Hw. destruct (Z.ltb_spec i w); simpl.
  - destruct (decide (0 <= i)).
    + by rewrite Z.mod_pow2_bits_low by lia.
    + rewrite !Z.testbit_neg_r by lia. done.
  - by apply Z.mod_pow2_bits_high.
Qed.

(** A multiple of [2 ^ w] has its low [w] bits clear. *)
Lemma testbit_aligned a w i :
  a mod 2 ^ w = 0 -> i < w -> Z.testbit a i = false.
Proof.
  intros Ha Hi. destruct (decide (0 <= i)) as [Hi0 | Hi0].
  - rewrite <- (Z.mod_pow2_bits_low a w) by lia. rewrite Ha. apply Z.bits_0.
  - apply Z.testbit_neg_r. lia.
Qed.

(** Disjoint bit patterns: the bitwise or is the sum. *)
Lemma lor_add_disjoint a b w :
  0 <= w -> a mod 2 ^ w = 0 -> 0 <= b < 2 ^ w -> Z.lor a b = a + b.
Proof.
  intros Hw Ha Hb.
  assert (Z.land a b = 0) as Hl.
  { apply Z.bits_inj_0. intros i. rewrite Z.land_spec.
    destruct (decide (i < w)).
    - rewrite (testbit_aligned a w i) by done. done.
    - rewrite (testbit_small b w i) by lia. apply andb_false_r. }
  pose proof (Z.add_lor_land a b). lia.
Qed.

(** ** Lists *)

Lemma Forall_firstn_skipn {A} (P : A -> Prop) (n : nat) (l : list A) :
  Forall P l -> Forall P (take n l) /\ Forall P (drop n l).
Proof. intros H. split; [by apply Forall_take | by apply Forall_drop]. Qed.

(** Zero-based addresses [a], [a + d], ..., [n] of them. *)
Fixpoint stride (a d : Z) (n : nat) : list Z :=
  match n with
  | O => []
  | S n => a :: stride (a + d) d n
  end.

Lemma length_stride a d n : length (stride a d n) = n.
Proof. revert a; induction n; intros; simpl; auto. Qed.

Lemma elem_of_stride x a d n :
  x ∈ stride a d n <-> exists k, (k < n)%nat /\ x = a + Z.of_nat k * d.
Proof.
  revert a; induction n as [|n IH]; intros a; simpl.
  - rewrite elem_of_nil. split; [done | intros (k & ? & _); lia].
  - rewrite elem_of_cons, IH. split.
    + intros [-> | (k & Hk & ->)]; [exists O; lia | exists (S k); lia].
    + intros ([|k] & Hk & ->); [left; lia | right; exists k; lia].
Qed.

Lemma stride_app a d n1 n2 :
  stride a d (n1 + n2) = stride a d n1 ++ stride (a + Z.of_nat n1 * d) d n2.
Proof.
  revert a; induction n1 as [|n1 IH]; intros a.
  - simpl. f_equal; lia.
  - cbn [stride Nat.add app]. rewrite IH. do 3 f_equal. lia.
Qed.

Lemma NoDup_stride a d n : 0 < d -> NoDup (stride a d n).
Proof.
  intros Hd; revert a; induction n as [|n IH]; intros a; simpl; constructor; [|done].
  rewrite elem_of_stride. intros (k & _ & Hk). nia.
Qed.
