(* ===== verification/Align.v ===== *)
(** * include/kernel/align.h: alignment of 64-bit sizes and addresses *)

From S2P Require Import Prelude.

(** [is_aligned], [align_down] and [align_up] as in the header: [uint64_t]
    arithmetic, the mask is the complement of [align - 1]. *)
Definition is_aligned (size align : Z) : bool := size mod align =? 0.

Definition align_down (size align : Z) : Z :=
  Z.land size (u64 (Z.lnot (u64 (align - 1)))).

Definition align_up (size align : Z) : Z :=
  align_down (u64 (size + align - 1)) align.

(** [sizeof] constants of include/kernel/page-alloc.h. *)
Definition PAGE_SIZE_SMALL : Z := Z.shiftl 1 12.
Definition PAGE_SIZE_LARGE : Z := Z.shiftl 1 21.

(** ** The mask form is the arithmetic form for powers of two *)

Lemma u64_lnot_mask k i :
  0 <= k <= 64 -> 0 <= i < 64 ->
  Z.testbit (u64 (Z.lnot (u64 (2 ^ k - 1)))) i = (k <=? i).
Proof.
  intros Hk Hi. unfold u64.
  rewrite testbit_mod_pow2, Z.lnot_spec, testbit_mod_pow2 by lia.
  replace (2 ^ k - 1) with (Z.ones k) by (rewrite Z.ones_equiv; lia).
  destruct (Z.ltb_spec i 64); [|lia]. simpl.
  destruct (Z.leb_spec k i).
  - by rewrite Z.ones_spec_high by lia.
  - by rewrite Z.ones_spec_low by lia.
Qed.

Lemma align_down_pow2 size k :
  0 <= size < 2 ^ 64 -> 0 <= k < 64 ->
  align_down size (2 ^ k) = size - size mod 2 ^ k.
Proof.
  intros Hs Hk. unfold align_down.
  assert (size - size mod 2 ^ k = Z.ldiff size (Z.ones k)) as ->.
  { rewrite Z.ldiff_ones_r by lia. rewrite Z.shiftl_mul_pow2, Z.shiftr_div_pow2 by lia.
    pose proof (Z.div_mod size (2 ^ k)). lia. }
  apply Z.bits_inj'. intros i Hi. rewrite Z.land_spec, Z.ldiff_spec.
  destruct (decide (i < 64)).
  - rewrite u64_lnot_mask by lia. f_equal.
    destruct (Z.leb_spec k i).
    + by rewrite Z.ones_spec_high by lia.
    + by rewrite Z.ones_spec_low by lia.
  - by rewrite (testbit_small size 64 i) by lia.
Qed.

Lemma align_up_pow2 size k :
  0 <= size -> 0 <= k < 64 -> size + 2 ^ k - 1 < 2 ^ 64 ->
  align_up size (2 ^ k) = (size + 2 ^ k - 1) / 2 ^ k * 2 ^ k.
Proof.
  intros Hs Hk Ho. assert (0 < 2 ^ k) by (apply pow2_pos; lia).
  unfold align_up. rewrite u64_small by lia.
  rewrite align_down_pow2 by lia.
  pose proof (Z.div_mod (size + 2 ^ k - 1) (2 ^ k)). lia.
Qed.

Lemma align_up_mod size k :
  0 <= size -> 0 <= k < 64 -> size + 2 ^ k - 1 < 2 ^ 64 ->
  align_up size (2 ^ k) mod 2 ^ k = 0.
Proof. intros. rewrite align_up_pow2 by lia. apply Z.mod_mul. pose proof (pow2_pos k). lia. Qed.

Lemma align_up_bounds size k :
  0 <= size -> 0 <= k < 64 -> size + 2 ^ k - 1 < 2 ^ 64 ->
  size <= align_up size (2 ^ k) < size + 2 ^ k.
Proof.
  intros. assert (0 < 2 ^ k) by (apply pow2_pos; lia).
  rewrite align_up_pow2 by lia.
  pose proof (Z.div_mod (size + 2 ^ k - 1) (2 ^ k)).
  pose proof (Z.mod_pos_bound (size + 2 ^ k - 1) (2 ^ k)). lia.
Qed.

Lemma align_up_id size k :
  0 <= k < 64 -> 0 <= size -> size mod 2 ^ k = 0 -> size + 2 ^ k - 1 < 2 ^ 64 ->
  align_up size (2 ^ k) = size.
Proof.
  intros Hk Hs Hm Ho. assert (0 < 2 ^ k) by (apply pow2_pos; lia).
  pose proof (align_up_bounds size k Hs Hk Ho) as Hb.
  pose proof (align_up_mod size k Hs Hk Ho) as Ha.
  apply Z.mod_divide in Hm as [q ->]; [|lia].
  apply Z.mod_divide in Ha as [r Hr]; [|lia]. rewrite Hr in Hb |- *.
  f_equal. by apply mul_squeeze in Hb.
Qed.

Lemma align_down_bounds size k :
  0 <= size < 2 ^ 64 -> 0 <= k < 64 ->
  align_down size (2 ^ k) <= size < align_down size (2 ^ k) + 2 ^ k.
Proof.
  intros. rewrite align_down_pow2 by lia.
  assert (0 < 2 ^ k) by (apply pow2_pos; lia).
  pose proof (Z.mod_pos_bound size (2 ^ k)). lia.
Qed.

Lemma align_down_mod size k :
  0 <= size < 2 ^ 64 -> 0 <= k < 64 -> align_down size (2 ^ k) mod 2 ^ k = 0.
Proof.
  intros. rewrite align_down_pow2 by lia.
  assert (0 < 2 ^ k) by (apply pow2_pos; lia).
  rewrite Zminus_mod_idemp_r, Z.sub_diag. apply Z.mod_0_l. lia.
Qed.

(** The whole pages between [a] and the page boundary [a + s]. *)
Lemma pages_between a s :
  0 <= a -> 0 <= s -> a + s + PAGE_SIZE_SMALL <= 2 ^ 64 -> (PAGE_SIZE_SMALL | a + s) ->
  let start := align_up a PAGE_SIZE_SMALL in
  a <= start /\ (PAGE_SIZE_SMALL | start) /\ 0 <= align_down s PAGE_SIZE_SMALL /\
  (PAGE_SIZE_SMALL | align_down s PAGE_SIZE_SMALL) /\ start + align_down s PAGE_SIZE_SMALL = a + s.
Proof.
  change PAGE_SIZE_SMALL with (2 ^ 12). intros Ha Hs He Hd. cbn zeta.
  pose proof (align_up_bounds a 12 Ha ltac:(lia) ltac:(lia)) as Hu.
  pose proof (align_up_mod a 12 Ha ltac:(lia) ltac:(lia)) as Hum.
  pose proof (align_down_bounds s 12 ltac:(lia) ltac:(lia)) as Hb.
  pose proof (align_down_mod s 12 ltac:(lia) ltac:(lia)) as Hbm.
  apply Z.mod_divide in Hum; [|lia]. apply Z.mod_divide in Hbm; [|lia].
  set (u := align_up a (2 ^ 12)) in *. set (d := align_down s (2 ^ 12)) in *.
  destruct Hum as [ku Hku], Hbm as [kd Hkd], Hd as [ke Hke].
  assert (ku + kd = ke) by lia.
  split_and!; [lia|by exists ku|lia|by exists kd|lia].
Qed.

(** A sum that overflows [uint64_t] makes [align_up] wrap to zero. *)
Lemma align_up_overflow size k :
  0 <= size < 2 ^ 64 -> 0 <= k < 64 -> 2 ^ 64 <= size + 2 ^ k - 1 ->
  align_up size (2 ^ k) = 0.
Proof.
  intros Hs Hk Ho. assert (0 < 2 ^ k) by (apply pow2_pos; lia).
  assert (2 ^ k < 2 ^ 64) by (apply Z.pow_lt_mono_r; lia).
  unfold align_up.
  assert (u64 (size + 2 ^ k - 1) = size + 2 ^ k - 1 - 2 ^ 64) as ->.
  { unfold u64. rewrite <- (Z.mod_small (size + 2 ^ k - 1 - 2 ^ 64) (2 ^ 64)) by lia.
    rewrite <- (Z_mod_plus_full (size + 2 ^ k - 1 - 2 ^ 64) 1 (2 ^ 64)). f_equal. lia. }
  rewrite align_down_pow2 by lia. rewrite Z.mod_small; lia.
Qed.

(** [align_up] with a power-of-two alignment returns the least multiple of
    the alignment that is not below [size], provided [size + align - 1] fits in
    64 bits; when it does not fit, the result is not an upper bound but 0. *)
Theorem align_up_correct size k :
  0 <= size < 2 ^ 64 -> 0 <= k < 64 ->
  (size + 2 ^ k - 1 < 2 ^ 64 ->
     is_aligned (align_up size (2 ^ k)) (2 ^ k) = true /\
     size <= align_up size (2 ^ k) /\
     (forall n, size <= n -> is_aligned n (2 ^ k) = true -> align_up size (2 ^ k) <= n)) /\
  (2 ^ 64 <= size + 2 ^ k - 1 -> align_up size (2 ^ k) = 0).
Proof.
  intros Hs Hk. split; [intros Ho | intros Ho; by apply align_up_overflow].
  assert (0 < 2 ^ k) by (apply pow2_pos; lia).
  pose proof (align_up_bounds size k ltac:(lia) Hk Ho) as Hb.
  pose proof (align_up_mod size k ltac:(lia) Hk Ho) as Hm.
  unfold is_aligned. rewrite Hm. split_and!; [done | lia |].
  intros n Hn Ha%Z.eqb_eq.
  apply Z.mod_divide in Ha as [q ->]; [|lia].
  apply Z.mod_divide in Hm as [r Hr]; [|lia]. rewrite Hr in Hb |- *.
  assert (r < q + 1) by nia. nia.
Qed.

Lemma align_up_correct_witness :
  is_aligned (align_up 5000 (2 ^ 12)) (2 ^ 12) = true /\ align_up (2 ^ 64 - 1) (2 ^ 12) = 0.
Proof.
  split.
  - apply (align_up_correct 5000 12); lia.
  - apply (align_up_correct (2 ^ 64 - 1) 12); lia.
Defined.
