(* ===== verification/Mem.v ===== *)
(** * Byte-addressed memory

    The memory that C pointers range over: a finite map from addresses to
    bytes, zero where nothing was written.  Structures of the source that live
    in memory (page tables, slabs, malloc pages, packet headers, ring buffers)
    are read and written through the little-endian accesses of this file at the
    offsets the x86-64 ABI gives their fields. *)

From S2P Require Import Prelude.

Notation mem := (gmap Z Z).

Definition load8 (m : mem) (a : Z) : Z := u8 (default 0 (m !! a)).
Definition store8 (m : mem) (a v : Z) : mem := <[a := u8 v]> m.

Fixpoint load_bytes (m : mem) (a : Z) (n : nat) : list Z :=
  match n with
  | O => []
  | S n => load8 m a :: load_bytes m (a + 1) n
  end.

Fixpoint store_bytes (m : mem) (a : Z) (bs : list Z) : mem :=
  match bs with
  | [] => m
  | b :: bs => store_bytes (store8 m a b) (a + 1) bs
  end.

(** Little-endian integers. *)
Fixpoint le_join (bs : list Z) : Z :=
  match bs with
  | [] => 0
  | b :: bs => b + 2 ^ 8 * le_join bs
  end.

Fixpoint le_split (n : nat) (v : Z) : list Z :=
  match n with
  | O => []
  | S n => u8 v :: le_split n (v / 2 ^ 8)
  end.

Definition load (n : nat) (m : mem) (a : Z) : Z := le_join (load_bytes m a n).
Definition store (n : nat) (m : mem) (a v : Z) : mem := store_bytes m a (le_split n v).

Definition load16 := load 2.
Definition load32 := load 4.
Definition load64 := load 8.
Definition store16 := store 2.
Definition store32 := store 4.
Definition store64 := store 8.

(** The C library's [memset] and [memcpy], byte by byte in ascending order. *)
Definition memset (m : mem) (a v : Z) (n : nat) : mem := store_bytes m a (replicate n (u8 v)).

Fixpoint memcpy (m : mem) (dest src : Z) (n : nat) : mem :=
  match n with
  | O => m
  | S n => memcpy (store8 m dest (load8 m src)) (dest + 1) (src + 1) n
  end.

(** Two memories that agree outside the addresses [lo <= a < hi]. *)
Definition same_outside (lo hi : Z) (m m' : mem) : Prop :=
  forall a, a < lo \/ hi <= a -> load8 m' a = load8 m a.

(** ** Bytes *)

Lemma load8_range m a : 0 <= load8 m a < 2 ^ 8.
Proof. apply u8_range. Qed.

Lemma load8_store8_eq m a v : load8 (store8 m a v) a = u8 v.
Proof. unfold load8, store8. rewrite lookup_insert_eq. simpl. unfold u8. by rewrite Zmod_mod. Qed.

Lemma load8_store8_ne m a b v : a <> b -> load8 (store8 m a v) b = load8 m b.
Proof. intros. unfold load8, store8. by rewrite lookup_insert_ne. Qed.

Lemma length_load_bytes m a n : length (load_bytes m a n) = n.
Proof. revert a; induction n; intros; simpl; auto. Qed.

Lemma load_bytes_bytes m a n : Forall is_byte (load_bytes m a n).
Proof. revert a; induction n; intros; simpl; constructor; [apply load8_range | auto]. Qed.

Lemma load8_store_bytes_out m a bs x :
  x < a \/ a + Z.of_nat (length bs) <= x -> load8 (store_bytes m a bs) x = load8 m x.
Proof.
  revert m a; induction bs as [|b bs IH]; intros m a Hx; [done |].
  cbn [store_bytes length] in *. rewrite IH by lia. apply load8_store8_ne. lia.
Qed.

Lemma load8_store_bytes_in m a bs (i : nat) b :
  bs !! i = Some b -> load8 (store_bytes m a bs) (a + Z.of_nat i) = u8 b.
Proof.
  revert m a i; induction bs as [|b' bs IH]; intros m a [|i] Hi; simplify_eq/=.
  - rewrite Z.add_0_r, load8_store_bytes_out by lia. apply load8_store8_eq.
  - replace (a + Z.of_nat (S i)) with (a + 1 + Z.of_nat i) by lia. by apply IH.
Qed.

Lemma load_bytes_ext m m' a n :
  (forall x, a <= x < a + Z.of_nat n -> load8 m' x = load8 m x) ->
  load_bytes m' a n = load_bytes m a n.
Proof.
  revert a; induction n as [|n IH]; intros a H; [done |]. cbn [load_bytes].
  f_equal; [apply H; lia | apply IH; intros; apply H; lia].
Qed.

Lemma load8_seqZ m p n : load8 m <$> seqZ p (Z.of_nat n) = load_bytes m p n.
Proof.
  revert p. induction n as [|n IH]; intros p; [done|]. rewrite seqZ_cons by lia. cbn [fmap list_fmap load_bytes].
  f_equal. rewrite <- IH. replace (Z.pred (Z.of_nat (S n))) with (Z.of_nat n) by lia. done.
Qed.

Lemma load_bytes_lookup m a n (i : nat) :
  (i < n)%nat -> load_bytes m a n !! i = Some (load8 m (a + Z.of_nat i)).
Proof.
  revert a i; induction n as [|n IH]; intros a [|i] Hi; [lia | lia | |]; simpl.
  - by rewrite Z.add_0_r.
  - rewrite IH by lia. do 2 f_equal. lia.
Qed.

Lemma load_bytes_store_bytes m a bs :
  Forall is_byte bs -> load_bytes (store_bytes m a bs) a (length bs) = bs.
Proof.
  intros Hb. apply list_eq. intros i.
  destruct (decide (i < length bs)%nat) as [Hi | Hi].
  - rewrite load_bytes_lookup by done.
    destruct (lookup_lt_is_Some_2 bs i Hi) as [b Eb].
    rewrite (load8_store_bytes_in _ _ _ _ b) by done. rewrite Eb. f_equal.
    apply u8_small. by eapply Forall_lookup_1 in Hb.
  - rewrite !(proj2 (lookup_ge_None _ i)); rewrite ?length_load_bytes; auto; lia.
Qed.

Lemma load_bytes_store_bytes_disjoint m a bs b n :
  b + Z.of_nat n <= a \/ a + Z.of_nat (length bs) <= b ->
  load_bytes (store_bytes m a bs) b n = load_bytes m b n.
Proof. intros. apply load_bytes_ext. intros. apply load8_store_bytes_out. lia. Qed.

(** Stores truncate their values to bytes. *)
Lemma store_bytes_u8 m a bs : store_bytes m a (map u8 bs) = store_bytes m a bs.
Proof.
  revert m a; induction bs as [|b bs IH]; intros m a; cbn [map store_bytes]; [done |].
  rewrite IH. f_equal. unfold store8. f_equal. apply u8_small, u8_range.
Qed.

Lemma map_u8_bytes bs : Forall is_byte (map u8 bs).
Proof. induction bs; simpl; constructor; [apply u8_range | auto]. Qed.

Lemma load_bytes_store_any m a bs :
  load_bytes (store_bytes m a bs) a (length bs) = map u8 bs.
Proof.
  rewrite <- store_bytes_u8. rewrite <- (length_map u8).
  apply load_bytes_store_bytes, map_u8_bytes.
Qed.

Lemma store_bytes_same_outside m a bs :
  same_outside a (a + Z.of_nat (length bs)) m (store_bytes m a bs).
Proof. intros x Hx. by apply load8_store_bytes_out. Qed.

Lemma store_bytes_app m a bs bs' :
  store_bytes m a (bs ++ bs') = store_bytes (store_bytes m a bs) (a + Z.of_nat (length bs)) bs'.
Proof.
  revert m a; induction bs as [|b bs IH]; intros m a; cbn [app store_bytes length].
  - by rewrite Z.add_0_r.
  - rewrite IH. f_equal. lia.
Qed.

Lemma load_bytes_app m a n n' :
  load_bytes m a (n + n') = load_bytes m a n ++ load_bytes m (a + Z.of_nat n) n'.
Proof.
  revert a; induction n as [|n IH]; intros a; cbn [Nat.add app load_bytes].
  - by rewrite Z.add_0_r.
  - f_equal. rewrite IH. do 2 f_equal. lia.
Qed.

Lemma take_load_bytes m a n k : (k <= n)%nat -> take k (load_bytes m a n) = load_bytes m a k.
Proof.
  intros Hk. replace n with (k + (n - k))%nat by lia. rewrite load_bytes_app.
  apply take_app_length'. by rewrite length_load_bytes.
Qed.

Lemma load_bytes_snoc m a i :
  load_bytes m a (S i) = load_bytes m a i ++ [load8 m (a + Z.of_nat i)].
Proof. replace (S i) with (i + 1)%nat by lia. by rewrite load_bytes_app. Qed.

(** ** Little-endian words *)

Lemma length_le_split n v : length (le_split n v) = n.
Proof. revert v; induction n; intros; simpl; auto. Qed.

Lemma le_split_bytes n v : Forall is_byte (le_split n v).
Proof. revert v; induction n; intros; simpl; constructor; [apply u8_range | auto]. Qed.

Lemma pow2_bytes n : 2 ^ (8 * Z.of_nat (S n)) = 2 ^ 8 * 2 ^ (8 * Z.of_nat n).
Proof. rewrite <- Z.pow_add_r by lia. f_equal. lia. Qed.

Lemma le_join_split n v : le_join (le_split n v) = v mod 2 ^ (8 * Z.of_nat n).
Proof.
  revert v; induction n as [|n IH]; intros v; cbn [le_split le_join].
  - by rewrite Z.mod_1_r.
  - rewrite IH, pow2_bytes. unfold u8. rewrite Z.rem_mul_r; [done | lia |].
    apply Z.pow_pos_nonneg; lia.
Qed.

Lemma le_join_bound bs :
  Forall is_byte bs -> 0 <= le_join bs < 2 ^ (8 * Z.of_nat (length bs)).
Proof.
  induction 1 as [|b bs Hb _ IH]; [done |].
  cbn [le_join length]. rewrite pow2_bytes. unfold is_byte in Hb. nia.
Qed.

Lemma le_split_join bs : Forall is_byte bs -> le_split (length bs) (le_join bs) = bs.
Proof.
  induction 1 as [|b bs Hb Hbs IH]; [done |]. cbn [le_join length le_split].
  unfold is_byte in Hb. f_equal.
  - unfold u8. rewrite Z.mul_comm, Z_mod_plus_full. by apply Z.mod_small.
  - rewrite Z.mul_comm, Z.div_add, Z.div_small by lia. done.
Qed.

Lemma load_range n m a : 0 <= load n m a < 2 ^ (8 * Z.of_nat n).
Proof.
  unfold load. pose proof (le_join_bound _ (load_bytes_bytes m a n)) as H.
  by rewrite length_load_bytes in H.
Qed.

Lemma load_store_eq n m a v : load n (store n m a v) a = v mod 2 ^ (8 * Z.of_nat n).
Proof.
  unfold load, store. rewrite <- le_join_split. f_equal.
  rewrite <- (length_le_split n v) at 2. apply load_bytes_store_bytes, le_split_bytes.
Qed.

Lemma load_store_ne n n' m a b v :
  b + Z.of_nat n' <= a \/ a + Z.of_nat n <= b ->
  load n' (store n m a v) b = load n' m b.
Proof.
  intros H. unfold load, store. f_equal.
  apply load_bytes_store_bytes_disjoint. by rewrite length_le_split.
Qed.

Lemma load_ext n m m' a :
  (forall x, a <= x < a + Z.of_nat n -> load8 m' x = load8 m x) -> load n m' a = load n m a.
Proof. intros. unfold load. f_equal. by apply load_bytes_ext. Qed.

Lemma load8_store_out n m a v x :
  x < a \/ a + Z.of_nat n <= x -> load8 (store n m a v) x = load8 m x.
Proof. intros. apply load8_store_bytes_out. by rewrite length_le_split. Qed.

Lemma load64_range m a : 0 <= load64 m a < 2 ^ 64.
Proof. apply (load_range 8). Qed.
Lemma load32_range m a : 0 <= load32 m a < 2 ^ 32.
Proof. apply (load_range 4). Qed.
Lemma load16_range m a : 0 <= load16 m a < 2 ^ 16.
Proof. apply (load_range 2). Qed.

Lemma load64_store64_eq m a v : load64 (store64 m a v) a = u64 v.
Proof. apply (load_store_eq 8). Qed.
Lemma load32_store32_eq m a v : load32 (store32 m a v) a = u32 v.
Proof. apply (load_store_eq 4). Qed.
Lemma load16_store16_eq m a v : load16 (store16 m a v) a = u16 v.
Proof. apply (load_store_eq 2). Qed.
Lemma load64_store64_ne m a b v : b + 8 <= a \/ a + 8 <= b -> load64 (store64 m a v) b = load64 m b.
Proof. apply (load_store_ne 8 8). Qed.

(** ** Block operations *)

Lemma load8_memset m a v n x :
  load8 (memset m a v n) x = if (a <=? x) && (x <? a + Z.of_nat n) then u8 v else load8 m x.
Proof.
  unfold memset. destruct (Z.leb_spec a x); [destruct (Z.ltb_spec x (a + Z.of_nat n)) |]; simpl.
  - replace x with (a + Z.of_nat (Z.to_nat (x - a))) by lia.
    rewrite (load8_store_bytes_in _ _ _ _ (u8 v)) by (apply lookup_replicate_2; lia).
    apply u8_small, u8_range.
  - apply load8_store_bytes_out. rewrite length_replicate. lia.
  - apply load8_store_bytes_out. lia.
Qed.

Lemma le_join_zeros n : le_join (replicate n 0) = 0.
Proof. induction n as [|n IH]; [done |]. cbn [replicate le_join]. rewrite IH. lia. Qed.

Lemma load_memset_0 m a n b k :
  a <= b -> b + Z.of_nat k <= a + Z.of_nat n -> load k (memset m a 0 n) b = 0.
Proof.
  intros. unfold load. transitivity (le_join (replicate k 0)); [f_equal | apply le_join_zeros].
  apply list_eq. intros i. destruct (decide (i < k)%nat) as [Hi | Hi].
  - rewrite load_bytes_lookup, load8_memset by done.
    rewrite lookup_replicate_2 by done.
    destruct (Z.leb_spec a (b + Z.of_nat i)); [| lia].
    destruct (Z.ltb_spec (b + Z.of_nat i) (a + Z.of_nat n)); [reflexivity | lia].
  - rewrite !(proj2 (lookup_ge_None _ i)); rewrite ?length_load_bytes, ?length_replicate; auto; lia.
Qed.

Lemma memset_same_outside m a v n : same_outside a (a + Z.of_nat n) m (memset m a v n).
Proof.
  intros x Hx. rewrite load8_memset.
  destruct (Z.leb_spec a x); destruct (Z.ltb_spec x (a + Z.of_nat n)); simpl; auto; lia.
Qed.

Lemma load8_memcpy_out m d s n x :
  x < d \/ d + Z.of_nat n <= x -> load8 (memcpy m d s n) x = load8 m x.
Proof.
  revert m d s; induction n as [|n IH]; intros m d s Hx; [done |]. cbn [memcpy].
  rewrite IH by lia. apply load8_store8_ne. lia.
Qed.

(** [memcpy] between disjoint regions moves the bytes. *)
Lemma load_bytes_memcpy m d s n :
  d + Z.of_nat n <= s \/ s + Z.of_nat n <= d ->
  load_bytes (memcpy m d s n) d n = load_bytes m s n.
Proof.
  revert m d s; induction n as [|n IH]; intros m d s H; [done |].
  cbn [memcpy load_bytes]. f_equal.
  - rewrite load8_memcpy_out by lia. rewrite load8_store8_eq. apply u8_small, load8_range.
  - rewrite IH by lia. apply load_bytes_ext. intros. apply load8_store8_ne. lia.
Qed.

Lemma memcpy_store_bytes m d s n :
  d + Z.of_nat n <= s \/ s + Z.of_nat n <= d ->
  memcpy m d s n = store_bytes m d (load_bytes m s n).
Proof.
  revert m d s; induction n as [|n IH]; intros m d s H; [done |].
  cbn [memcpy load_bytes store_bytes]. rewrite IH by lia. f_equal.
  apply load_bytes_ext. intros. apply load8_store8_ne. lia.
Qed.

Lemma same_outside_refl lo hi m : same_outside lo hi m m.
Proof. done. Qed.

Lemma same_outside_trans lo hi m1 m2 m3 :
  same_outside lo hi m1 m2 -> same_outside lo hi m2 m3 -> same_outside lo hi m1 m3.
Proof. intros H1 H2 a Ha. rewrite H2, H1; done. Qed.

Lemma same_outside_store n lo hi m m' a v :
  same_outside lo hi m m' -> lo <= a -> a + Z.of_nat n <= hi ->
  same_outside lo hi m (store n m' a v).
Proof. intros H ?? x Hx. rewrite load8_store_out by lia. by apply H. Qed.

Lemma load_same_outside n lo hi m m' a :
  same_outside lo hi m m' -> a + Z.of_nat n <= lo \/ hi <= a -> load n m' a = load n m a.
Proof. intros H Ha. apply load_ext. intros x Hx. apply H. lia. Qed.

Lemma load_join n m a : load n m a = le_join (load_bytes m a n).
Proof. done. Qed.

Lemma store_split n m a v : store n m a v = store_bytes m a (le_split n v).
Proof. done. Qed.

#[global] Opaque load store memset memcpy.

(** ** Changes confined to a set of addresses *)

Definition changes (P : Z -> Prop) (m m' : mem) : Prop := forall x, ~ P x -> load8 m' x = load8 m x.

Lemma changes_refl P m : changes P m m.
Proof. by intros x _. Qed.

Lemma changes_trans P m1 m2 m3 : changes P m1 m2 -> changes P m2 m3 -> changes P m1 m3.
Proof. intros H1 H2 x Hx. rewrite H2 by done. by apply H1. Qed.

Lemma changes_mono (P Q : Z -> Prop) m m' : (forall x, P x -> Q x) -> changes P m m' -> changes Q m m'.
Proof. intros HPQ HP x Hx. apply HP. auto. Qed.

Lemma changes_store n (P : Z -> Prop) m a v :
  (forall x, a <= x < a + Z.of_nat n -> P x) -> changes P m (store n m a v).
Proof.
  intros HP x Hx. apply load8_store_out. destruct (decide (a <= x < a + Z.of_nat n)); [| lia].
  exfalso. auto.
Qed.

Lemma load_changes n P m m' a :
  changes P m m' -> (forall x, a <= x < a + Z.of_nat n -> ~ P x) -> load n m' a = load n m a.
Proof. intros Hc HP. apply load_ext. intros x Hx. auto. Qed.

Lemma ranges_disjoint lo n lo' n' :
  0 < n -> 0 < n' -> (forall x, lo <= x < lo + n -> lo' <= x < lo' + n' -> False) ->
  lo + n <= lo' \/ lo' + n' <= lo.
Proof. intros Hn Hn' Hd. specialize (Hd (Z.max lo lo')). lia. Qed.

(** Evaluate loads of a memory after stores to other or equal addresses. *)
Ltac mem_step :=
  first [ rewrite load_store_eq | rewrite load_store_ne by (simpl; lia) ].
Ltac mem_simpl :=
  unfold load64, load32, load16, store64, store32, store16; repeat mem_step.

Lemma changes_store_bytes (P : Z -> Prop) m a bs :
  (forall x, a <= x < a + Z.of_nat (length bs) -> P x) -> changes P m (store_bytes m a bs).
Proof.
  intros HP x Hx. apply load8_store_bytes_out.
  destruct (decide (a <= x < a + Z.of_nat (length bs))); [|lia]. exfalso. auto.
Qed.

Lemma load_bytes_changes n P m m' a :
  changes P m m' -> (forall x, a <= x < a + Z.of_nat n -> ~ P x) -> load_bytes m' a n = load_bytes m a n.
Proof. intros Hc HP. apply load_bytes_ext. intros x Hx. auto. Qed.

(** Overwriting a middle part of a byte string. *)
Lemma load_bytes_patch m a n l1 l2 l2' l3 :
  load_bytes m a n = l1 ++ l2 ++ l3 -> length l2' = length l2 -> Forall is_byte l2' ->
  load_bytes (store_bytes m (a + Z.of_nat (length l1)) l2') a n = l1 ++ l2' ++ l3.
Proof.
  intros Hl Hlen Hb. pose proof (f_equal length Hl) as Hn. rewrite length_load_bytes, !length_app in Hn.
  assert (n = length l1 + (length l2 + length l3))%nat as En by lia. rewrite En in *. clear Hn En.
  rewrite !load_bytes_app in Hl |- *.
  apply app_inj_1 in Hl as [H1 Hl]; [|by rewrite length_load_bytes].
  apply app_inj_1 in Hl as [H2 H3]; [|by rewrite length_load_bytes].
  rewrite load_bytes_store_bytes_disjoint, H1 by lia. f_equal. f_equal.
  - rewrite <- Hlen. by apply load_bytes_store_bytes.
  - rewrite load_bytes_store_bytes_disjoint by lia. done.
Qed.

Lemma load_bytes_part m a n l1 l2 l3 :
  load_bytes m a n = l1 ++ l2 ++ l3 -> load_bytes m (a + Z.of_nat (length l1)) (length l2) = l2.
Proof.
  intros Hl. pose proof (f_equal length Hl) as Hn. rewrite length_load_bytes, !length_app in Hn.
  rewrite Hn, !load_bytes_app in Hl.
  apply app_inj_1 in Hl as [_ Hl]; [|by rewrite length_load_bytes].
  by apply app_inj_1 in Hl as [Hl _]; [|by rewrite length_load_bytes].
Qed.

(** A little-endian field of a byte string. *)
Lemma load_field m a n l1 k v l3 :
  load_bytes m a n = l1 ++ le_split k v ++ l3 ->
  load k m (a + Z.of_nat (length l1)) = v mod 2 ^ (8 * Z.of_nat k).
Proof.
  intros Hl. apply load_bytes_part in Hl. rewrite length_le_split in Hl.
  rewrite load_join, Hl. apply le_join_split.
Qed.

(** ** Separate objects *)

Definition apart (r r' : Z * Z) : bool := (r.1 + r.2 <=? r'.1) || (r'.1 + r'.2 <=? r.1).

Fixpoint separate (rs : list (Z * Z)) : bool :=
  match rs with
  | [] => true
  | r :: rs => forallb (apart r) rs && separate rs
  end.

Lemma separate_lookup rs (i j : nat) r r' :
  separate rs = true -> rs !! i = Some r -> rs !! j = Some r' -> i <> j ->
  r.1 + r.2 <= r'.1 \/ r'.1 + r'.2 <= r.1.
Proof.
  revert i j r r'. induction rs as [|r0 rs IH]; intros i j r r' Hs Hi Hj Hne; [by rewrite lookup_nil in Hi|].
  cbn [separate] in Hs. apply andb_true_iff in Hs as [Hf Hs].
  assert (forall k x, rs !! k = Some x -> apart r0 x = true) as Hap.
  { intros k x Hk. apply (proj1 (forallb_forall _ rs) Hf). apply list_elem_of_In. by eapply list_elem_of_lookup_2. }
  destruct i as [|i], j as [|j]; simplify_eq/=.
  - apply Hap in Hj. unfold apart in Hj. apply orb_true_iff in Hj as [?%Z.leb_le|?%Z.leb_le]; lia.
  - apply Hap in Hi. unfold apart in Hi. apply orb_true_iff in Hi as [?%Z.leb_le|?%Z.leb_le]; lia.
  - eapply (IH i j); eauto.
Qed.

(** Parts of separate objects are separate. *)
Definition within (r' r : Z * Z) : Prop := r.1 <= r'.1 /\ r'.1 + r'.2 <= r.1 + r.2.

Lemma separate_within rs' rs : Forall2 within rs' rs -> separate rs = true -> separate rs' = true.
Proof.
  induction 1 as [|r' r rs' rs Hr Hrs IH]; [done|]. cbn [separate].
  rewrite !andb_true_iff, !forallb_forall. intros [Ha Hs]. split; [|auto].
  intros x' Hx'. apply list_elem_of_In, list_elem_of_lookup in Hx' as [i Hi].
  destruct (Forall2_lookup_l _ _ _ _ _ Hrs Hi) as (x & Hx & Hw).
  specialize (Ha x ltac:(apply list_elem_of_In; by eapply list_elem_of_lookup_2)).
  unfold apart, within in *. rewrite orb_true_iff, !Z.leb_le in *. lia.
Qed.

Lemma separate_app rs1 rs2 : separate (rs1 ++ rs2) = true -> separate rs1 = true /\ separate rs2 = true.
Proof.
  induction rs1 as [|r rs1 IH]; [done|]. cbn [app separate].
  rewrite forallb_app, !andb_true_iff. intros [[??] Hs]. destruct (IH Hs). done.
Qed.

Lemma separate_sublist rs' rs : rs' `sublist_of` rs -> separate rs = true -> separate rs' = true.
Proof.
  induction 1 as [|r rs' rs Hsub IH|r rs' rs Hsub IH]; cbn [separate]; [done|..]; rewrite !andb_true_iff; [|naive_solver].
  intros [Ha Hs]. split; [|auto]. rewrite forallb_forall in *. intros x Hx. apply Ha.
  apply list_elem_of_In. apply list_elem_of_In in Hx. by eapply elem_of_sublist.
Qed.

(** Pose that the objects number [i] and [j] of a separate list are disjoint. *)
Tactic Notation "apart" constr(H) constr(i) constr(j) :=
  let A := fresh "Hap" in
  pose proof (separate_lookup _ i j _ _ H eq_refl eq_refl ltac:(lia)) as A; cbn [fst snd] in A.
