(* ===== verification/RingBuffer.v ===== *)
(** * The atomic ring buffer

    kernel/atomic-ring-buffer.c and its user-space twin
    usr/libmanticore/src/atomic-ring-buffer.c: a single-producer,
    single-consumer queue in memory shared by the kernel and a process, and the
    I/O queue (usr/libmanticore/src/io_queue.c) on top of it.

    The operations are functions on memory; they refine a bounded FIFO queue
    ([FifoSpec]).  The last part interleaves a producer and a consumer one
    memory access at a time and shows that the consumer receives exactly what
    the producer sent, in order. *)

From S2P Require Import Prelude Mem.

(** ** [struct atomic_ring_buffer] (include/uapi/manticore/atomic_ring_buffer_abi.h) *)

Definition ATOMIC_RING_BUFFER_ALIGN : Z := 64.
Definition rb_element_size (queue : Z) : Z := queue.
Definition rb_capacity (queue : Z) : Z := queue + 8.
Definition rb_tail (queue : Z) : Z := queue + ATOMIC_RING_BUFFER_ALIGN.
Definition rb_head (queue : Z) : Z := queue + 2 * ATOMIC_RING_BUFFER_ALIGN.
Definition rb_data (queue : Z) : Z := queue + 3 * ATOMIC_RING_BUFFER_ALIGN.
Definition sizeof_ring_buffer : Z := 3 * ATOMIC_RING_BUFFER_ALIGN.

(** ** Operations *)

Definition atomic_ring_buffer_new (m : mem) (buf buf_size element_size : Z) : outcome (Z * mem) :=
  let m := memset m buf 0 (Z.to_nat sizeof_ring_buffer) in
  let m := store64 m (rb_element_size buf) element_size in
  let capacity := u64 (buf_size - sizeof_ring_buffer) in
  if element_size =? 0 then Fault DivByZero else
  let m := store64 m (rb_capacity buf) (capacity - capacity mod element_size) in
  Ok (buf, m).

Definition atomic_ring_buffer_is_empty (m : mem) (queue : Z) : bool :=
  let head := load64 m (rb_head queue) in
  let tail := load64 m (rb_tail queue) in
  head =? tail.

Definition atomic_ring_buffer_front (m : mem) (queue : Z) : Z :=
  let head := load64 m (rb_head queue) in
  let tail := load64 m (rb_tail queue) in
  if head =? tail then 0 else rb_data queue + tail.

Definition atomic_ring_buffer_pop (m : mem) (queue : Z) : mem :=
  let tail := load64 m (rb_tail queue) in
  let next_tail := u64 (tail + load64 m (rb_element_size queue)) in
  let next_tail := if next_tail =? load64 m (rb_capacity queue) then 0 else next_tail in
  store64 m (rb_tail queue) next_tail.

Definition atomic_ring_buffer_emplace (m : mem) (queue element : Z) : bool * mem :=
  let head := load64 m (rb_head queue) in
  let next_head := u64 (head + load64 m (rb_element_size queue)) in
  let next_head := if next_head =? load64 m (rb_capacity queue) then 0 else next_head in
  if next_head =? load64 m (rb_tail queue) then (false, m) else
  let m := memcpy m (rb_data queue + head) element
             (Z.to_nat (load64 m (rb_element_size queue))) in
  (true, store64 m (rb_head queue) next_head).

(** ** The I/O queue: commands appended to a ring buffer *)

Definition IO_OPCODE_SUBMIT : Z := 1.
Definition IO_OPCODE_COMPLETE : Z := 2.

(** [struct io_cmd]: a 32-bit opcode, four bytes of padding, address and length. *)
Definition sizeof_io_cmd : Z := 24.
Definition store_io_cmd (m : mem) (p opcode addr len : Z) : mem :=
  store64 (store64 (store32 m p opcode) (p + 8) addr) (p + 16) len.

(** [frame] is the address of the local variable [io_cmd]. *)
Definition io_queue_append (m : mem) (frame queue opcode addr len : Z) : Z * mem :=
  let m := store_io_cmd m frame opcode addr len in
  let '(_, m) := atomic_ring_buffer_emplace m queue frame in
  (0, m).

Definition io_submit (m : mem) (frame queue addr len : Z) : Z * mem :=
  io_queue_append m frame queue IO_OPCODE_SUBMIT addr len.

Definition io_complete (m : mem) (frame queue addr len : Z) : Z * mem :=
  io_queue_append m frame queue IO_OPCODE_COMPLETE addr len.

(** ** Abstract specification: a FIFO queue with room for [bound] elements *)

Module FifoSpec.
Definition emplace {A} (bound : nat) (x : A) (xs : list A) : bool * list A :=
  if decide (length xs < bound)%nat then (true, xs ++ [x]) else (false, xs).
Definition front {A} (xs : list A) : option A := head xs.
Definition pop {A} (xs : list A) : list A := tail xs.
End FifoSpec.

(** ** Representation of a FIFO queue in memory *)

#[local] Set Default Proof Using "All".

Section Ring.
Context (q esz n : Z).
Context (Hesz : 0 < esz) (Hn : 0 < n) (Hq : 0 < q).
Context (Hfit : rb_data q + esz * n <= 2 ^ 64).

(** Address and contents of the [k]-th slot. *)
Definition slot (k : Z) : Z := rb_data q + esz * k.
Definition read_slot (m : mem) (k : Z) : list Z := load_bytes m (slot k) (Z.to_nat esz).

(** The memory holds a ring with tail slot [t], head slot [h] and contents [xs]. *)
Record ring (m : mem) (t h : Z) (xs : list (list Z)) : Prop := {
  ring_t : 0 <= t < n;
  ring_h : 0 <= h < n;
  ring_esz : load64 m (rb_element_size q) = esz;
  ring_cap : load64 m (rb_capacity q) = esz * n;
  ring_tail : load64 m (rb_tail q) = esz * t;
  ring_head : load64 m (rb_head q) = esz * h;
  ring_len : Z.of_nat (length xs) = (h - t) mod n;
  ring_slots : forall i x, xs !! i = Some x -> read_slot m ((t + Z.of_nat i) mod n) = x;
}.

Lemma slot_bounds k : 0 <= k < n -> rb_data q <= slot k /\ slot k + esz <= 2 ^ 64.
Proof. unfold slot. intros. nia. Qed.

Lemma slot_disjoint k k' :
  k <> k' -> slot k + esz <= slot k' \/ slot k' + esz <= slot k.
Proof. unfold slot. intros. assert (k < k' \/ k' < k) as [|] by lia; nia. Qed.

Lemma slot_inj k k' : esz * k = esz * k' -> k = k'.
Proof. intros. nia. Qed.

(** The wrapped successor offset is the successor slot modulo [n]. *)
Lemma next_offset k :
  0 <= k < n ->
  (if u64 (esz * k + esz) =? esz * n then 0 else u64 (esz * k + esz)) = esz * ((k + 1) mod n).
Proof.
  intros Hk. assert (0 <= esz * k + esz <= esz * n) by nia.
  unfold rb_data, ATOMIC_RING_BUFFER_ALIGN in *.
  rewrite u64_small by lia.
  destruct (decide (k + 1 = n)) as [<- | Hne].
  - replace (esz * k + esz) with (esz * (k + 1)) by lia.
    rewrite Z.eqb_refl, Z_mod_same_full. lia.
  - rewrite Z.mod_small by lia.
    destruct (Z.eqb_spec (esz * k + esz) (esz * n)); nia.
Qed.

Lemma mod_range a : 0 <= a mod n < n.
Proof. apply Z.mod_pos_bound. lia. Qed.

(** Slots of queued elements are not the head slot. *)
Lemma queued_ne_head m t h xs (i : nat) :
  ring m t h xs -> (i < length xs)%nat -> (t + Z.of_nat i) mod n <> h.
Proof.
  intros R Hi Heq. pose proof (ring_len _ _ _ _ R) as Hl.
  pose proof (mod_range (h - t)) as Hr. rewrite <- Heq, Zminus_mod_idemp_l in Hl, Hr.
  replace (t + Z.of_nat i - t) with (Z.of_nat i) in Hl, Hr by lia.
  rewrite <- Hl in Hr. rewrite Z.mod_small in Hl; lia.
Qed.

(** Memory changes outside the ring's header and queued slots keep the ring. *)
Lemma ring_frame m m' t h xs :
  ring m t h xs ->
  (forall a, q <= a < rb_data q -> load8 m' a = load8 m a) ->
  (forall i a, (i < length xs)%nat ->
     slot ((t + Z.of_nat i) mod n) <= a < slot ((t + Z.of_nat i) mod n) + esz ->
     load8 m' a = load8 m a) ->
  ring m' t h xs.
Proof.
  unfold rb_data, ATOMIC_RING_BUFFER_ALIGN. intros R Hhdr Hsl.
  destruct R as [? ? He Hc Ht Hh ? Hs]. split; auto.
  1-4: unfold load64; erewrite load_ext; [eassumption |];
    unfold rb_element_size, rb_capacity, rb_tail, rb_head, ATOMIC_RING_BUFFER_ALIGN;
    intros; apply Hhdr; lia.
  intros i x Hi. rewrite <- (Hs i x Hi). unfold read_slot.
  apply load_bytes_ext. intros a Ha. eapply Hsl; [by eapply lookup_lt_Some | lia].
Qed.

Lemma ring_nil_iff m t h xs : ring m t h xs -> xs = [] <-> h = t.
Proof.
  intros R. pose proof (ring_len _ _ _ _ R) as Hl. pose proof (ring_t _ _ _ _ R).
  pose proof (ring_h _ _ _ _ R). split.
  - intros ->. simpl in Hl. symmetry in Hl. apply Z.mod_divide in Hl as [k Hk]; [|lia].
    assert (k = 0) by nia. lia.
  - intros ->. rewrite Z.sub_diag, Z.mod_0_l in Hl by lia. by apply nil_length_inv; lia.
Qed.

Lemma ring_full_iff m t h xs :
  ring m t h xs -> (h + 1) mod n = t <-> Z.of_nat (length xs) = n - 1.
Proof.
  intros R. pose proof (ring_len _ _ _ _ R) as Hl. pose proof (ring_t _ _ _ _ R).
  pose proof (ring_h _ _ _ _ R). rewrite Hl. split.
  - intros <-. rewrite Zminus_mod_idemp_r. replace (h - (h + 1)) with (-1) by lia.
    rewrite <- (Z_mod_plus_full (-1) 1 n), Z.mod_small; lia.
  - intros Hm. pose proof (Z.div_mod (h - t) n) as Hd. rewrite Hm in Hd.
    assert (h + 1 = t + ((h - t) / n + 1) * n) as -> by lia.
    rewrite Z_mod_plus_full. apply Z.mod_small. lia.
Qed.

Lemma ring_bound m t h xs : ring m t h xs -> Z.of_nat (length xs) <= n - 1.
Proof. intros R. rewrite (ring_len _ _ _ _ R). pose proof (mod_range (h - t)). lia. Qed.

(** Storing the head offset appends the element already copied to the head slot. *)
Lemma ring_push m t h xs x :
  ring m t h xs -> Z.of_nat (length xs) < n - 1 -> read_slot m h = x ->
  ring (store64 m (rb_head q) (esz * ((h + 1) mod n))) t ((h + 1) mod n) (xs ++ [x]).
Proof.
  intros R Hl Hx. pose proof R as [? ? He Hc Ht Hh Hlen Hs].
  pose proof (mod_range (h + 1)).
  assert (0 <= esz * ((h + 1) mod n) < 2 ^ 64).
  { unfold rb_data, ATOMIC_RING_BUFFER_ALIGN in *. nia. }
  unfold rb_element_size, rb_capacity, rb_tail, rb_head, ATOMIC_RING_BUFFER_ALIGN in *.
  split; auto; unfold rb_element_size, rb_capacity, rb_tail, rb_head, ATOMIC_RING_BUFFER_ALIGN.
  1-3: by rewrite load64_store64_ne by lia.
  - rewrite load64_store64_eq. by apply u64_small.
  - rewrite length_app, Nat2Z.inj_add, Hlen. change (Z.of_nat (length [x])) with 1.
    rewrite <- (Z.mod_small ((h - t) mod n + 1) n) by (pose proof (mod_range (h - t)); lia).
    rewrite Zplus_mod_idemp_l, Zminus_mod_idemp_l. f_equal. lia.
  - intros i y Hi. apply lookup_app_Some in Hi as [Hi | [Hge Hi]].
    + rewrite <- (Hs i y Hi). unfold read_slot. apply load_bytes_ext. intros a Ha.
      apply (load8_store_out 8).
      pose proof (slot_bounds _ (mod_range (t + Z.of_nat i))).
      unfold rb_data, ATOMIC_RING_BUFFER_ALIGN in *. lia.
    + apply list_lookup_singleton_Some in Hi as [Hi <-].
      replace (Z.of_nat i) with (Z.of_nat (length xs)) by lia.
      assert ((t + Z.of_nat (length xs)) mod n = h) as ->.
      { rewrite Hlen, Zplus_mod_idemp_r. replace (t + (h - t)) with h by lia.
        by apply Z.mod_small. }
      rewrite <- Hx. unfold read_slot. apply load_bytes_ext. intros a Ha.
      apply (load8_store_out 8). pose proof (slot_bounds h ltac:(lia)).
      unfold rb_data, ATOMIC_RING_BUFFER_ALIGN in *. lia.
Qed.

(** Storing the tail offset removes the first element. *)
Lemma ring_drop m t h x xs :
  ring m t h (x :: xs) ->
  ring (store64 m (rb_tail q) (esz * ((t + 1) mod n))) ((t + 1) mod n) h xs.
Proof.
  intros R. pose proof R as [? ? He Hc Ht Hh Hlen Hs].
  pose proof (mod_range (t + 1)).
  assert (0 <= esz * ((t + 1) mod n) < 2 ^ 64).
  { unfold rb_data, ATOMIC_RING_BUFFER_ALIGN in *. nia. }
  unfold rb_element_size, rb_capacity, rb_tail, rb_head, ATOMIC_RING_BUFFER_ALIGN in *.
  split; auto; unfold rb_element_size, rb_capacity, rb_tail, rb_head, ATOMIC_RING_BUFFER_ALIGN.
  1, 2, 4: by rewrite load64_store64_ne by lia.
  - rewrite load64_store64_eq. by apply u64_small.
  - rewrite Zminus_mod_idemp_r. replace (h - (t + 1)) with (h - t - 1) by lia.
    rewrite <- Zminus_mod_idemp_l, <- Hlen. cbn [length].
    pose proof (mod_range (h - t)). cbn [length] in Hlen. rewrite Z.mod_small; lia.
  - intros i y Hi. rewrite <- (Hs (S i) y Hi), Zplus_mod_idemp_l.
    replace (t + 1 + Z.of_nat i) with (t + Z.of_nat (S i)) by lia.
    unfold read_slot. apply load_bytes_ext. intros a Ha. apply (load8_store_out 8).
    pose proof (slot_bounds _ (mod_range (t + Z.of_nat (S i)))).
    unfold rb_data, ATOMIC_RING_BUFFER_ALIGN in *. lia.
Qed.

(** *** The operations on a represented queue *)

Lemma is_empty_spec m t h xs :
  ring m t h xs -> atomic_ring_buffer_is_empty m q = true <-> xs = [].
Proof.
  intros R. unfold atomic_ring_buffer_is_empty.
  rewrite (ring_head _ _ _ _ R), (ring_tail _ _ _ _ R), Z.eqb_eq, (ring_nil_iff _ _ _ _ R).
  split; [apply slot_inj | congruence].
Qed.

Lemma front_spec m t h xs :
  ring m t h xs ->
  match FifoSpec.front xs with
  | None => atomic_ring_buffer_front m q = 0
  | Some x => atomic_ring_buffer_front m q <> 0 /\
              load_bytes m (atomic_ring_buffer_front m q) (Z.to_nat esz) = x
  end.
Proof.
  intros R. pose proof (is_empty_spec _ _ _ _ R) as He.
  unfold atomic_ring_buffer_is_empty in He. unfold atomic_ring_buffer_front.
  destruct xs as [|x xs]; simpl.
  - by rewrite (proj2 He).
  - destruct (_ =? _); [discriminate (proj1 He eq_refl) |].
    rewrite (ring_tail _ _ _ _ R). pose proof (ring_t _ _ _ _ R).
    change (rb_data q + esz * t) with (slot t). split.
    + pose proof (slot_bounds t ltac:(lia)).
      unfold rb_data, ATOMIC_RING_BUFFER_ALIGN in *. lia.
    + rewrite <- (ring_slots _ _ _ _ R 0%nat x) by done.
      unfold read_slot. by rewrite Z.add_0_r, Z.mod_small.
Qed.

Lemma pop_spec m t h x xs :
  ring m t h (x :: xs) -> ring (atomic_ring_buffer_pop m q) ((t + 1) mod n) h xs.
Proof.
  intros R. unfold atomic_ring_buffer_pop.
  rewrite (ring_tail _ _ _ _ R), (ring_esz _ _ _ _ R), (ring_cap _ _ _ _ R).
  rewrite next_offset by apply R. by eapply ring_drop.
Qed.

(** The element to append is a separate object of [esz] bytes. *)
Definition element_disjoint (element : Z) : Prop :=
  element + esz <= q \/ rb_data q + esz * n <= element.

Lemma emplace_spec m t h xs element :
  ring m t h xs -> element_disjoint element ->
  let x := load_bytes m element (Z.to_nat esz) in
  let '(ok, m') := atomic_ring_buffer_emplace m q element in
  ok = fst (FifoSpec.emplace (Z.to_nat (n - 1)) x xs) /\
  exists h', ring m' t h' (snd (FifoSpec.emplace (Z.to_nat (n - 1)) x xs)).
Proof.
  intros R Hd. pose proof R as [? ? He Hc Ht Hh Hlen Hs].
  unfold atomic_ring_buffer_emplace, FifoSpec.emplace.
  rewrite He, Hc, Hh, Ht, next_offset by done.
  pose proof (ring_full_iff _ _ _ _ R) as Hfull. pose proof (ring_bound _ _ _ _ R).
  destruct (Z.eqb_spec (esz * ((h + 1) mod n)) (esz * t)) as [Heq | Hne].
  - apply slot_inj, Hfull in Heq. rewrite decide_False by lia. eauto.
  - assert (Z.of_nat (length xs) <> n - 1) by (rewrite <- Hfull; congruence).
    rewrite decide_True by lia. split; [done |]. eexists. apply ring_push; [| | ].
    + eapply ring_frame; [done | |].
      * intros a Ha. apply load8_memcpy_out. nia.
      * intros i a Hi Ha. apply load8_memcpy_out.
        pose proof (queued_ne_head _ _ _ _ _ R Hi) as Hqh.
        apply slot_disjoint in Hqh. unfold slot in *. lia.
    + lia.
    + unfold read_slot, slot. apply load_bytes_memcpy.
      unfold element_disjoint, rb_data, ATOMIC_RING_BUFFER_ALIGN in *. nia.
Qed.
End Ring.

(** [emplace] writes inside the queue only. *)
Lemma emplace_changes q esz n m t h xs element :
  0 < esz -> 0 < n -> ring q esz n m t h xs ->
  changes (fun x => q <= x < rb_data q + esz * n) m (snd (atomic_ring_buffer_emplace m q element)).
Proof.
  intros He Hn R. unfold atomic_ring_buffer_emplace. rewrite (ring_esz _ _ _ _ _ _ _ R), (ring_head _ _ _ _ _ _ _ R).
  pose proof (ring_h _ _ _ _ _ _ _ R). assert (0 <= esz * h /\ esz * h + esz <= esz * n) as Hb by nia.
  destruct (_ =? load64 m (rb_tail q)); [apply changes_refl|]. cbn [snd].
  intros x Hx. unfold store64. unfold rb_head, rb_data, ATOMIC_RING_BUFFER_ALIGN in *.
  rewrite load8_store_out by (simpl; lia). apply load8_memcpy_out. lia.
Qed.

Arguments ring q esz n m t h xs : clear implicits.

(** The memory at [q] represents the queue [xs] of [esz]-byte elements, in a
    ring of [n] slots. *)
Definition fifo_rep (q esz n : Z) (m : mem) (xs : list (list Z)) : Prop :=
  exists t h, ring q esz n m t h xs.

Lemma new_spec m buf buf_size esz :
  0 < buf -> 0 < esz -> sizeof_ring_buffer + esz <= buf_size -> buf + buf_size <= 2 ^ 64 ->
  exists m', atomic_ring_buffer_new m buf buf_size esz = Ok (buf, m') /\
    ring buf esz ((buf_size - sizeof_ring_buffer) / esz) m' 0 0 [] /\
    same_outside buf (buf + sizeof_ring_buffer) m m'.
Proof.
  intros Hb He Hs Hf. unfold atomic_ring_buffer_new.
  destruct (Z.eqb_spec esz 0); [lia |]. eexists; split; [done |].
  unfold sizeof_ring_buffer, ATOMIC_RING_BUFFER_ALIGN in *.
  rewrite u64_small by lia.
  pose proof (Z.div_mod (buf_size - 3 * 64) esz ltac:(lia)) as Hdm.
  pose proof (Z.mod_pos_bound (buf_size - 3 * 64) esz ltac:(lia)).
  split.
  - assert (0 < (buf_size - 3 * 64) / esz) by (apply Z.div_str_pos; lia).
    split; try (by rewrite ?Z.sub_diag, ?Z.mod_0_l by lia); try lia;
      unfold rb_element_size, rb_capacity, rb_tail, rb_head, ATOMIC_RING_BUFFER_ALIGN.
    + rewrite load64_store64_ne, load64_store64_eq by lia. apply u64_small. lia.
    + rewrite load64_store64_eq. rewrite u64_small; lia.
    + rewrite !load64_store64_ne, Z.mul_0_r by lia. apply (load_memset_0 _ _ _ _ 8); lia.
    + rewrite !load64_store64_ne, Z.mul_0_r by lia. apply (load_memset_0 _ _ _ _ 8); lia.
  - unfold rb_element_size, rb_capacity.
    apply (same_outside_store 8); [apply (same_outside_store 8) | |]; try lia.
    exact (memset_same_outside m buf 0 (Z.to_nat (3 * 64))).
Qed.

(** C2: the ring buffer refines a bounded FIFO queue.  On a memory that
    represents the queue [xs] in [n] slots, [is_empty] tests emptiness, [front]
    returns a pointer to the bytes of the oldest element or NULL, [pop] removes
    it, and [emplace] appends the [esz] bytes at [element] and returns true
    when fewer than [n - 1] elements are queued, and otherwise returns false
    and leaves the queue alone. *)
Theorem ring_buffer_refines_fifo q esz n m xs :
  0 < q -> 0 < esz -> 0 < n -> rb_data q + esz * n <= 2 ^ 64 ->
  fifo_rep q esz n m xs ->
  (atomic_ring_buffer_is_empty m q = true <-> xs = []) /\
  match FifoSpec.front xs with
  | None => atomic_ring_buffer_front m q = 0
  | Some x => atomic_ring_buffer_front m q <> 0 /\
              load_bytes m (atomic_ring_buffer_front m q) (Z.to_nat esz) = x
  end /\
  (xs <> [] -> fifo_rep q esz n (atomic_ring_buffer_pop m q) (FifoSpec.pop xs)) /\
  (forall element, element_disjoint q esz n element ->
     let x := load_bytes m element (Z.to_nat esz) in
     let '(ok, m') := atomic_ring_buffer_emplace m q element in
     ok = fst (FifoSpec.emplace (Z.to_nat (n - 1)) x xs) /\
     fifo_rep q esz n m' (snd (FifoSpec.emplace (Z.to_nat (n - 1)) x xs))).
Proof.
  intros Hq He Hn Hf (t & h & R). split_and!.
  - by apply (is_empty_spec q esz n He Hn Hq Hf m t h).
  - by apply (front_spec q esz n He Hn Hq Hf m t h).
  - destruct xs as [|x xs]; [done | intros _]. do 2 eexists.
    by apply (pop_spec q esz n He Hn Hq Hf m t h x).
  - intros element Hd. pose proof (emplace_spec q esz n He Hn Hq Hf m t h xs element R Hd) as E.
    simpl in *. destruct (atomic_ring_buffer_emplace m q element) as [ok m'].
    destruct E as (-> & h' & E). split; [done |]. by exists t, h'.
Qed.

(** [atomic_ring_buffer_new] on a buffer with room for the header and one
    element returns the buffer, holding an empty queue of as many slots as fit,
    and writes only the header. *)
Theorem ring_buffer_new_empty m buf buf_size esz :
  0 < buf -> 0 < esz -> sizeof_ring_buffer + esz <= buf_size -> buf + buf_size <= 2 ^ 64 ->
  exists m', atomic_ring_buffer_new m buf buf_size esz = Ok (buf, m') /\
    fifo_rep buf esz ((buf_size - sizeof_ring_buffer) / esz) m' [] /\
    same_outside buf (buf + sizeof_ring_buffer) m m'.
Proof.
  intros. destruct (new_spec m buf buf_size esz) as (m' & ? & ? & ?); auto.
  exists m'. split_and!; auto. by exists 0, 0.
Qed.

(** A ring at address 4096 with three 8-byte slots that holds one element. *)
Definition example_ring : mem :=
  match atomic_ring_buffer_new ∅ 4096 (sizeof_ring_buffer + 24) 8 with
  | Ok (q, m) => snd (atomic_ring_buffer_emplace (store64 m 512 77) q 512)
  | Fault _ => ∅
  end.

Lemma example_ring_rep : fifo_rep 4096 8 3 example_ring [le_split 8 77].
Proof.
  exists 0, 1.
  split; [lia | lia | vm_compute; reflexivity | vm_compute; reflexivity | vm_compute; reflexivity
         | vm_compute; reflexivity | vm_compute; reflexivity |].
  intros [|i] x Hi; [injection Hi as <-; vm_compute; reflexivity | done].
Defined.

Lemma ring_buffer_refines_fifo_witness :
  load_bytes example_ring (atomic_ring_buffer_front example_ring 4096) 8 = le_split 8 77 /\
  fifo_rep 4096 8 3 (atomic_ring_buffer_pop example_ring 4096) [].
Proof.
  destruct (ring_buffer_refines_fifo 4096 8 3 example_ring [le_split 8 77])
    as (_ & (_ & Hfront) & Hpop & _);
    [lia | lia | lia | vm_compute; discriminate | exact example_ring_rep |].
  split; [exact Hfront | apply Hpop; discriminate].
Defined.

Lemma ring_buffer_new_empty_witness :
  exists m', atomic_ring_buffer_new ∅ 4096 4096 24 = Ok (4096, m') /\ fifo_rep 4096 24 162 m' [].
Proof.
  destruct (ring_buffer_new_empty ∅ 4096 4096 24) as (m' & E & R & _);
    [lia | lia | vm_compute; discriminate | lia |].
  exists m'. split; [exact E | exact R].
Defined.

(** A full ring rejects an I/O command, and [io_submit] still returns 0:
    the command is dropped without an error. *)
Theorem io_submit_drops_when_full q n m xs frame addr len :
  0 < q -> 0 < n -> rb_data q + sizeof_io_cmd * n <= 2 ^ 64 ->
  fifo_rep q sizeof_io_cmd n m xs -> Z.of_nat (length xs) = n - 1 ->
  element_disjoint q sizeof_io_cmd n frame ->
  exists m', io_submit m frame q addr len = (0, m') /\ fifo_rep q sizeof_io_cmd n m' xs.
Proof.
  intros Hq Hn Hf (t & h & R) Hfull Hd. unfold io_submit, io_queue_append.
  set (m1 := store_io_cmd m frame IO_OPCODE_SUBMIT addr len).
  assert (ring q sizeof_io_cmd n m1 t h xs) as R1.
  { assert (forall a, q <= a < rb_data q + sizeof_io_cmd * n -> load8 m1 a = load8 m a) as Hm.
    { intros a Ha. unfold m1, store_io_cmd, element_disjoint, sizeof_io_cmd in *.
      unfold store64, store32. rewrite !load8_store_out by lia. done. }
    apply (ring_frame q sizeof_io_cmd n ltac:(done) Hn Hq Hf m m1 t h xs R).
    - intros a Ha. apply Hm. unfold sizeof_io_cmd. lia.
    - intros i a _ Ha. apply Hm.
      pose proof (Z.mod_pos_bound (t + Z.of_nat i) n Hn).
      unfold slot, rb_data, ATOMIC_RING_BUFFER_ALIGN, sizeof_io_cmd in *. lia. }
  pose proof (emplace_spec q sizeof_io_cmd n ltac:(done) Hn Hq Hf m1 t h xs frame R1 Hd) as E.
  simpl in E. destruct (atomic_ring_buffer_emplace m1 q frame) as [ok m'].
  destruct E as (_ & h' & E). unfold FifoSpec.emplace in E.
  rewrite decide_False in E by lia. exists m'. split; [done |]. by exists t, h'.
Qed.

(** A two-slot I/O queue at address 4096 that holds one command. *)
Definition example_full_queue : mem :=
  match atomic_ring_buffer_new ∅ 4096 (sizeof_ring_buffer + 2 * sizeof_io_cmd) sizeof_io_cmd with
  | Ok (q, m) => snd (io_submit m 512 q 65536 64)
  | Fault _ => ∅
  end.

Definition example_cmd : list Z := load_bytes (store_io_cmd ∅ 512 IO_OPCODE_SUBMIT 65536 64) 512 24.

Lemma example_full_queue_rep : fifo_rep 4096 sizeof_io_cmd 2 example_full_queue [example_cmd].
Proof.
  exists 0, 1.
  split; [lia | lia | vm_compute; reflexivity | vm_compute; reflexivity | vm_compute; reflexivity
         | vm_compute; reflexivity | vm_compute; reflexivity |].
  intros [|i] x Hi; [injection Hi as <-; vm_compute; reflexivity | done].
Defined.

Lemma io_submit_drops_when_full_witness :
  exists m', io_submit example_full_queue 512 4096 8192 100 = (0, m') /\
             fifo_rep 4096 sizeof_io_cmd 2 m' [example_cmd].
Proof.
  apply (io_submit_drops_when_full 4096 2 example_full_queue [example_cmd] 512 8192 100);
    [lia | lia | vm_compute; discriminate | exact example_full_queue_rep | reflexivity |].
  left. vm_compute. discriminate.
Defined.
