(* ===== verification/RingConc.v ===== *)
(** * The ring buffer under concurrency

    The producer runs [atomic_ring_buffer_emplace], the consumer
    [atomic_ring_buffer_front], a byte-wise read of the element it returns, and
    [atomic_ring_buffer_pop], on the same memory.  Each step performs one access
    to shared memory, in the order the code performs them; the acquire and
    release orderings of the code make such an interleaving the only behaviour
    the other side can observe.  The invariant shows that the elements the
    consumer has received followed by those in the ring are exactly the
    elements the producer has sent. *)

From S2P Require Import Prelude Mem RingBuffer.

(** Where the producer stands inside [atomic_ring_buffer_emplace]. *)
Inductive producer :=
  | PIdle
  | PLoadedHead (elem : list Z) (head : Z)          (* after the load of head *)
  | PCopy (elem : list Z) (head next_head : Z) (i : nat). (* [i] bytes copied *)

(** Where the consumer stands: in [front], reading the element, in [pop]. *)
Inductive consumer :=
  | CIdle
  | CLoadedHead (head : Z)                (* front: after the load of head *)
  | CRead (p : Z) (acc : list Z)          (* bytes of the element read so far *)
  | CPopped (acc : list Z) (tail : Z).    (* pop: after the load of tail *)

Record conc := Conc {
  c_mem : mem;
  c_prod : producer;
  c_cons : consumer;
  c_sent : list (list Z);        (* elements whose emplace returned true *)
  c_received : list (list Z);    (* elements popped by the consumer *)
}.

Section Steps.
Context (queue : Z).

(** [next_head] and [next_tail] of the code. *)
Definition next_offset_of (m : mem) (off : Z) : Z :=
  let next := u64 (off + load64 m (rb_element_size queue)) in
  if next =? load64 m (rb_capacity queue) then 0 else next.

Inductive step : conc -> conc -> Prop :=
  | step_p_load_head m c sent recv elem :
      Z.of_nat (length elem) = load64 m (rb_element_size queue) -> Forall is_byte elem ->
      step (Conc m PIdle c sent recv)
           (Conc m (PLoadedHead elem (load64 m (rb_head queue))) c sent recv)
  | step_p_full m c sent recv elem head :
      next_offset_of m head = load64 m (rb_tail queue) ->
      step (Conc m (PLoadedHead elem head) c sent recv) (Conc m PIdle c sent recv)
  | step_p_room m c sent recv elem head :
      next_offset_of m head <> load64 m (rb_tail queue) ->
      step (Conc m (PLoadedHead elem head) c sent recv)
           (Conc m (PCopy elem head (next_offset_of m head) 0) c sent recv)
  | step_p_copy m c sent recv elem head next i b :
      elem !! i = Some b ->
      step (Conc m (PCopy elem head next i) c sent recv)
           (Conc (store8 m (rb_data queue + head + Z.of_nat i) b)
                 (PCopy elem head next (S i)) c sent recv)
  | step_p_publish m c sent recv elem head next :
      step (Conc m (PCopy elem head next (length elem)) c sent recv)
           (Conc (store64 m (rb_head queue) next) PIdle c (sent ++ [elem]) recv)
  | step_c_load_head m p sent recv :
      step (Conc m p CIdle sent recv)
           (Conc m p (CLoadedHead (load64 m (rb_head queue))) sent recv)
  | step_c_empty m p sent recv head :
      head = load64 m (rb_tail queue) ->
      step (Conc m p (CLoadedHead head) sent recv) (Conc m p CIdle sent recv)
  | step_c_front m p sent recv head :
      head <> load64 m (rb_tail queue) ->
      step (Conc m p (CLoadedHead head) sent recv)
           (Conc m p (CRead (rb_data queue + load64 m (rb_tail queue)) []) sent recv)
  | step_c_read m p sent recv ptr acc :
      Z.of_nat (length acc) < load64 m (rb_element_size queue) ->
      step (Conc m p (CRead ptr acc) sent recv)
           (Conc m p (CRead ptr (acc ++ [load8 m (ptr + Z.of_nat (length acc))])) sent recv)
  | step_c_load_tail m p sent recv ptr acc :
      Z.of_nat (length acc) = load64 m (rb_element_size queue) ->
      step (Conc m p (CRead ptr acc) sent recv)
           (Conc m p (CPopped acc (load64 m (rb_tail queue))) sent recv)
  | step_c_pop m p sent recv acc tail :
      step (Conc m p (CPopped acc tail) sent recv)
           (Conc (store64 m (rb_tail queue) (next_offset_of m tail)) p CIdle
                 sent (recv ++ [acc])).
End Steps.

(** ** The invariant *)

#[local] Arguments load_bytes : simpl never.

Section Invariant.
Context (q esz n : Z).
Context (Hesz : 0 < esz) (Hn : 0 < n) (Hq : 0 < q).
Context (Hfit : rb_data q + esz * n <= 2 ^ 64).

Definition producer_ok (m : mem) (h : Z) (xs : list (list Z)) (p : producer) : Prop :=
  match p with
  | PIdle => True
  | PLoadedHead elem head =>
      head = esz * h /\ Z.of_nat (length elem) = esz /\ Forall is_byte elem
  | PCopy elem head next i =>
      head = esz * h /\ next = esz * ((h + 1) mod n) /\
      Z.of_nat (length elem) = esz /\ Forall is_byte elem /\
      Z.of_nat (length xs) < n - 1 /\ (i <= length elem)%nat /\
      load_bytes m (slot q esz h) i = take i elem
  end.

Definition consumer_ok (t : Z) (xs : list (list Z)) (c : consumer) : Prop :=
  match c with
  | CIdle => True
  | CLoadedHead head =>
      exists h', head = esz * h' /\ 0 <= h' < n /\ (h' - t) mod n <= Z.of_nat (length xs)
  | CRead p acc =>
      p = slot q esz t /\ exists x xs', xs = x :: xs' /\ acc = take (length acc) x
  | CPopped acc tail => tail = esz * t /\ exists xs', xs = acc :: xs'
  end.

Definition conc_inv (s : conc) : Prop :=
  exists t h xs,
    ring q esz n (c_mem s) t h xs /\
    c_received s ++ xs = c_sent s /\
    producer_ok (c_mem s) h xs (c_prod s) /\
    consumer_ok t xs (c_cons s).

Lemma next_offset_ring m t h xs k :
  ring q esz n m t h xs -> 0 <= k < n -> next_offset_of q m (esz * k) = esz * ((k + 1) mod n).
Proof.
  intros R Hk. unfold next_offset_of.
  rewrite (ring_esz _ _ _ _ _ _ _ R), (ring_cap _ _ _ _ _ _ _ R).
  exact (next_offset q esz n Hesz Hn Hq Hfit k Hk).
Qed.

Lemma ring_elem_length m t h xs x :
  ring q esz n m t h xs -> x ∈ xs -> Z.of_nat (length x) = esz.
Proof.
  intros R [i Hi]%list_elem_of_lookup. rewrite <- (ring_slots _ _ _ _ _ _ _ R _ _ Hi).
  unfold read_slot. rewrite length_load_bytes. lia.
Qed.

(** Copying a byte into the free head slot disturbs no queued element. *)
Lemma copy_byte_ring m t h xs (i : nat) b :
  ring q esz n m t h xs -> Z.of_nat i < esz ->
  ring q esz n (store8 m (rb_data q + esz * h + Z.of_nat i) b) t h xs.
Proof.
  intros R Hi. pose proof (ring_h _ _ _ _ _ _ _ R).
  apply (ring_frame q esz n Hesz Hn Hq Hfit _ _ _ _ _ R).
  - intros a Ha. apply load8_store8_ne. nia.
  - intros j a Hj Ha. apply load8_store8_ne.
    pose proof (queued_ne_head q esz n Hesz Hn Hq Hfit _ _ _ _ _ R Hj) as Hne.
    apply (slot_disjoint q esz n Hesz Hn Hq Hfit) in Hne. unfold slot in *. lia.
Qed.

Lemma conc_inv_step s s' : conc_inv s -> step q s s' -> conc_inv s'.
Proof.
  intros (t & h & xs & R & Hrs & Hp & Hc) Hstep. pose proof (ring_t _ _ _ _ _ _ _ R) as Ht.
  pose proof (ring_h _ _ _ _ _ _ _ R) as Hh.
  destruct Hstep as [m c sent recv e Hl Hb | m c sent recv e hd Hfull | m c sent recv e hd Hroom
    | m c sent recv e hd nx i b Hi | m c sent recv e hd nx | m p sent recv | m p sent recv hd Heq
    | m p sent recv hd Hne | m p sent recv ptr acc Hlt | m p sent recv ptr acc Hlen
    | m p sent recv acc tl]; simpl in *.
  - exists t, h, xs. rewrite (ring_esz _ _ _ _ _ _ _ R) in Hl.
    rewrite (ring_head _ _ _ _ _ _ _ R). by split_and!.
  - by exists t, h, xs.
  - destruct Hp as (-> & Hl & Hb). exists t, h, xs. simpl.
    rewrite (next_offset_ring _ _ _ _ _ R Hh), (ring_tail _ _ _ _ _ _ _ R) in *.
    assert (Z.of_nat (length xs) <> n - 1).
    { rewrite <- (ring_full_iff q esz n Hesz Hn Hq Hfit _ _ _ _ R). congruence. }
    pose proof (ring_bound q esz n Hesz Hn Hq Hfit _ _ _ _ R). split_and!; auto; lia.
  - destruct Hp as (-> & -> & Hl & Hb & Hroom & Hile & Hcp).
    apply lookup_lt_Some in Hi as Hi'. exists t, h, xs. simpl. split_and!; auto.
    + apply copy_byte_ring; [done | lia].
    + rewrite load_bytes_snoc, (take_S_r _ _ b) by done. f_equal.
      * rewrite <- Hcp. apply load_bytes_ext. intros a Ha. apply load8_store8_ne.
        unfold slot in Ha. lia.
      * f_equal. unfold slot. rewrite load8_store8_eq. apply u8_small.
        by eapply Forall_lookup_1 in Hb.
  - destruct Hp as (-> & -> & Hl & Hb & Hroom & _ & Hcp).
    exists t, ((h + 1) mod n), (xs ++ [e]). simpl. split_and!; auto.
    + apply ring_push; auto. rewrite take_ge in Hcp by lia.
      unfold read_slot. rewrite <- Hcp. f_equal. lia.
    + by rewrite app_assoc, Hrs.
    + destruct c; simpl in *; auto.
      * destruct Hc as (h' & -> & ? & ?). exists h'. rewrite length_app. simpl. split_and!; auto; lia.
      * destruct Hc as (-> & x & xs' & -> & ?). split; [done |]. by exists x, (xs' ++ [e]).
      * destruct Hc as (-> & xs' & ->). split; [done |]. by exists (xs' ++ [e]).
  - exists t, h, xs. split_and!; auto. simpl. exists h.
    rewrite (ring_head _ _ _ _ _ _ _ R), (ring_len _ _ _ _ _ _ _ R). split_and!; auto; lia.
  - by exists t, h, xs.
  - destruct Hc as (h' & -> & Hh' & Hle). rewrite (ring_tail _ _ _ _ _ _ _ R) in *.
    exists t, h, xs. split_and!; auto. simpl. split; [done |].
    destruct xs as [|x xs]; [| by exists x, xs]. exfalso. apply Hne. f_equal.
    simpl in Hle. pose proof (Z.mod_pos_bound (h' - t) n Hn).
    assert ((h' - t) mod n = 0) as Hz by lia.
    apply Z.mod_divide in Hz as [k Hk]; [|lia]. assert (k = 0) by nia. lia.
  - destruct Hc as (-> & x & xs' & -> & Hacc). rewrite (ring_esz _ _ _ _ _ _ _ R) in Hlt.
    exists t, h, (x :: xs'). split_and!; auto. simpl. split; [done |]. exists x, xs'. split; [done |].
    assert (length x = Z.to_nat esz) as Hx.
    { pose proof (ring_elem_length _ _ _ _ x R ltac:(left)). lia. }
    pose proof (ring_slots _ _ _ _ _ _ _ R 0%nat x eq_refl) as Hs.
    rewrite Z.add_0_r, Z.mod_small in Hs by lia. unfold read_slot in Hs.
    rewrite length_app. simpl. rewrite Nat.add_1_r.
    erewrite take_S_r; [by rewrite <- Hacc |].
    rewrite <- Hs. apply load_bytes_lookup. lia.
  - destruct Hc as (-> & x & xs' & -> & Hacc). rewrite (ring_esz _ _ _ _ _ _ _ R) in Hlen.
    exists t, h, (x :: xs'). split_and!; auto. simpl.
    rewrite (ring_tail _ _ _ _ _ _ _ R). split; [done |]. exists xs'. f_equal.
    pose proof (ring_elem_length _ _ _ _ x R ltac:(left)).
    rewrite Hacc, take_ge by lia. done.
  - destruct Hc as (-> & xs' & ->). rewrite (next_offset_ring _ _ _ _ _ R Ht).
    exists ((t + 1) mod n), h, xs'. simpl. split_and!; auto.
    + eapply ring_drop; eauto.
    + by rewrite <- Hrs, <- app_assoc.
    + destruct p as [| e hd | e hd nx i]; simpl in *; auto.
      destruct Hp as (-> & -> & ? & ? & ? & ? & Hcp). split_and!; auto; [lia |].
      rewrite <- Hcp. apply load_bytes_ext. intros a Ha. apply (load8_store_out 8).
      pose proof (slot_bounds q esz n Hesz Hn Hq Hfit h Hh).
      unfold slot, rb_data, rb_tail, ATOMIC_RING_BUFFER_ALIGN in *. lia.
Qed.
End Invariant.

(** ** Results *)

(** The producer's steps, run without interruption, compute [emplace]. *)
Lemma copy_steps q m c sent recv elem head next (i k : nat) :
  (i + k = length elem)%nat ->
  rtc (step q) (Conc m (PCopy elem head next i) c sent recv)
      (Conc (store_bytes m (rb_data q + head + Z.of_nat i) (drop i elem))
            (PCopy elem head next (length elem)) c sent recv).
Proof.
  revert m i; induction k as [|k IH]; intros m i Hik.
  - rewrite drop_ge by lia. simpl. replace i with (length elem) by lia. done.
  - destruct (lookup_lt_is_Some_2 elem i) as [b Hb]; [lia |].
    eapply rtc_l; [by apply step_p_copy |].
    rewrite (drop_S _ b) by done. cbn [store_bytes].
    replace (rb_data q + head + Z.of_nat i + 1) with (rb_data q + head + Z.of_nat (S i)) by lia.
    apply IH. lia.
Qed.

Lemma emplace_steps q esz n m element c sent recv :
  0 < q -> 0 < esz -> 0 < n -> rb_data q + esz * n <= 2 ^ 64 ->
  (exists xs, fifo_rep q esz n m xs) -> element_disjoint q esz n element ->
  let elem := load_bytes m element (Z.to_nat esz) in
  let '(ok, m') := atomic_ring_buffer_emplace m q element in
  rtc (step q) (Conc m PIdle c sent recv)
      (Conc m' PIdle c (if ok : bool then sent ++ [elem] else sent) recv).
Proof.
  intros Hq He Hn Hf (xs & t & h & R) Hd elem. unfold atomic_ring_buffer_emplace.
  pose proof (ring_esz _ _ _ _ _ _ _ R) as Hes. pose proof (ring_h _ _ _ _ _ _ _ R).
  assert (Z.of_nat (length elem) = esz) as Hl by (unfold elem; rewrite length_load_bytes; lia).
  fold (next_offset_of q m (load64 m (rb_head q))).
  destruct (Z.eqb_spec (next_offset_of q m (load64 m (rb_head q))) (load64 m (rb_tail q))) as [E | E].
  - eapply rtc_l; [apply (step_p_load_head _ _ _ _ _ elem); [congruence | apply load_bytes_bytes] |].
    eapply rtc_l; [by apply step_p_full | done].
  - eapply rtc_l; [apply (step_p_load_head _ _ _ _ _ elem); [congruence | apply load_bytes_bytes] |].
    eapply rtc_l; [by apply step_p_room |].
    etrans; [by eapply (copy_steps _ _ _ _ _ _ _ _ 0 (length elem)) |].
    rewrite Z.add_0_r, drop_0, Hes. rewrite memcpy_store_bytes.
    + apply rtc_once, step_p_publish.
    + rewrite (ring_head _ _ _ _ _ _ _ R).
      unfold element_disjoint, rb_data, ATOMIC_RING_BUFFER_ALIGN in *. nia.
Qed.

(** Run without interruption, the producer's steps are
    [atomic_ring_buffer_emplace]: from idle with the element's bytes they reach
    idle again with the memory that the function returns, and count the element
    as sent exactly when it returns true. *)
Theorem producer_steps_emplace q esz n m element c sent recv :
  0 < q -> 0 < esz -> 0 < n -> rb_data q + esz * n <= 2 ^ 64 ->
  (exists xs, fifo_rep q esz n m xs) -> element_disjoint q esz n element ->
  let elem := load_bytes m element (Z.to_nat esz) in
  let '(ok, m') := atomic_ring_buffer_emplace m q element in
  rtc (step q) (Conc m PIdle c sent recv)
      (Conc m' PIdle c (if ok : bool then sent ++ [elem] else sent) recv).
Proof. apply emplace_steps. Qed.

(** C1: for every interleaving of a producer and a consumer that starts from an
    empty ring, the elements received are a prefix of the elements sent, in
    order and with their bytes intact; the difference is what the memory
    represents, and it never exceeds [n - 1] elements. *)
Theorem ring_spsc_fifo q esz n m s :
  0 < q -> 0 < esz -> 0 < n -> rb_data q + esz * n <= 2 ^ 64 ->
  fifo_rep q esz n m [] ->
  rtc (step q) (Conc m PIdle CIdle [] []) s ->
  exists xs, c_received s ++ xs = c_sent s /\
    fifo_rep q esz n (c_mem s) xs /\ Z.of_nat (length xs) <= n - 1.
Proof.
  intros Hq He Hn Hf (t & h & R) Hsteps.
  assert (conc_inv q esz n s) as (t' & h' & xs & R' & Hrs & _).
  { assert (conc_inv q esz n (Conc m PIdle CIdle [] [])) as Hi by (by exists t, h, []).
    revert Hi. induction Hsteps as [|s1 s2 s3 Hst _ IH]; [done |].
    intros Hi. apply IH. by eapply conc_inv_step. }
  exists xs. split_and!; [done | by exists t', h' |].
  by eapply (ring_bound q esz n He Hn Hq Hf).
Qed.

Lemma producer_steps_emplace_witness :
  exists m', atomic_ring_buffer_emplace example_ring 4096 512 = (true, m') /\
    rtc (step 4096) (Conc example_ring PIdle CIdle [] []) (Conc m' PIdle CIdle [le_split 8 77] []).
Proof.
  pose proof (producer_steps_emplace 4096 8 3 example_ring 512 CIdle [] []) as H.
  destruct (atomic_ring_buffer_emplace example_ring 4096 512) as [ok m'] eqn:E.
  assert (ok = true) as ->.
  { change ok with (fst (ok, m')). rewrite <- E. vm_compute. reflexivity. }
  exists m'. split; [reflexivity |]. apply H;
    [lia | lia | lia | vm_compute; discriminate | exists [le_split 8 77]; exact example_ring_rep |].
  left. vm_compute. discriminate.
Defined.

(** An empty ring at 4096 with three 8-byte slots, an element at 512. *)
Definition example_empty_ring : mem :=
  match atomic_ring_buffer_new ∅ 4096 (sizeof_ring_buffer + 24) 8 with
  | Ok (q, m) => store64 m 512 77
  | Fault _ => ∅
  end.

Lemma example_empty_ring_rep : fifo_rep 4096 8 3 example_empty_ring [].
Proof.
  exists 0, 0.
  split; [lia | lia | vm_compute; reflexivity | vm_compute; reflexivity | vm_compute; reflexivity
         | vm_compute; reflexivity | vm_compute; reflexivity | intros i x Hi; discriminate Hi].
Defined.

Lemma ring_spsc_fifo_witness :
  exists s xs, c_sent s = [le_split 8 77] /\ c_received s ++ xs = c_sent s /\
    fifo_rep 4096 8 3 (c_mem s) xs.
Proof.
  pose proof (emplace_steps 4096 8 3 example_empty_ring 512 CIdle [] []) as H.
  destruct (atomic_ring_buffer_emplace example_empty_ring 4096 512) as [ok m'] eqn:E.
  assert (ok = true) as ->.
  { change ok with (fst (ok, m')). rewrite <- E. vm_compute. reflexivity. }
  assert (rtc (step 4096) (Conc example_empty_ring PIdle CIdle [] [])
            (Conc m' PIdle CIdle [le_split 8 77] [])) as Hrun.
  { apply H; [lia | lia | lia | vm_compute; discriminate
             | exists []; exact example_empty_ring_rep | left; vm_compute; discriminate]. }
  destruct (ring_spsc_fifo 4096 8 3 example_empty_ring (Conc m' PIdle CIdle [le_split 8 77] []))
    as (xs & Hxs & Hrep & _);
    [lia | lia | lia | vm_compute; discriminate | exact example_empty_ring_rep | exact Hrun |].
  exists (Conc m' PIdle CIdle [le_split 8 77] []), xs. split_and!; [reflexivity | exact Hxs | exact Hrep].
Defined.
