(* ===== verification/Printf.v ===== *)
(** * kernel/printf.c: formatted output

    [format] parses one conversion specification and hands the characters it
    produces to a callback, as in the source; [vprintf] sends them to the
    console, [vsnprintf] to a bounded buffer in memory.  A C string is the list
    of its bytes including the terminating zero; reading past the end of such a
    list is [Fault OutOfBounds].  Strings passed as arguments are [VStr]. *)

From Stdlib Require Import Ascii String.
From S2P Require Import Prelude Mem.

(** ** Characters and strings *)

Definition ch (c : ascii) : Z := Z.of_N (N_of_ascii c).
Fixpoint bytes_of (s : string) : list Z :=
  match s with
  | EmptyString => []
  | String c s => ch c :: bytes_of s
  end.
(** A string literal of the source, with its terminator. *)
Definition cstr (s : string) : list Z := bytes_of s ++ [0].

(** Arguments of a variadic call: integers and pointers as 64-bit register
    values, and pointers to C strings ([None] is NULL). *)
Inductive va_arg :=
  | VInt (v : Z)
  | VStr (s : option (list Z)).

(** lib/libc/strlen.c on a list of bytes. *)
Fixpoint strlen (s : list Z) : outcome Z :=
  match s with
  | [] => Fault OutOfBounds
  | c :: s => if c =? 0 then Ok 0 else n ← strlen s; Ok (n + 1)
  end.

(** ** Data *)

Definition FMT_LONG : Z := Z.shiftl 1 0.
Definition FMT_LONG_LONG : Z := Z.shiftl 1 1.
Definition FMT_ZERO_PAD : Z := Z.shiftl 1 2.
Definition FMT_LEFT : Z := Z.shiftl 1 3.
Definition FMT_UNSIGNED : Z := Z.shiftl 1 4.
Definition FMT_PRECISION : Z := Z.shiftl 1 5.
Definition FMT_WIDTH : Z := Z.shiftl 1 6.

Record format_state := FormatState { flags : Z; width : Z }.

(** [fmt->flags & f], [fmt_state.flags |= f]. *)
Definition has (st : format_state) (f : Z) : bool := negb (Z.land (flags st) f =? 0).
Definition set_flag (f : Z) (st : format_state) : format_state :=
  FormatState (Z.lor (flags st) f) (width st).

Definition number_chars_upcase : list Z := bytes_of "0123456789ABCDEF".
Definition number_chars : list Z := bytes_of "0123456789abcdef".

(** ** Numbers *)

(** [buf[--pos] = c]; [pos] is the index before the decrement. *)
Definition put_back (buf : list Z) (pos c : Z) : outcome (list Z * Z) :=
  if (0 <? pos) && (pos <=? Z.of_nat (length buf))
  then Ok (<[Z.to_nat (pos - 1) := c]> buf, pos - 1)
  else Fault OutOfBounds.

Definition digit_char (chars : list Z) (digit : Z) : outcome Z :=
  match chars !! Z.to_nat digit with
  | Some c => Ok c
  | None => Fault OutOfBounds
  end.

(** The loop [while (n >= base)]; 64 iterations exhaust a 64-bit [n]. *)
Fixpoint format_number_loop (fuel : nat) (buf : list Z) (pos n : Z) (chars : list Z) (base : Z)
  : outcome (list Z * Z * Z) :=
  if n <? base then Ok (buf, pos, n) else
  match fuel with
  | O => Fault OutOfFuel
  | S fuel =>
      let digit := n mod base in
      c ← digit_char chars digit;
      '(buf, pos) ← put_back buf pos c;
      format_number_loop fuel buf pos (n / base) chars base
  end.

(** Returns the buffer and the index of the first character. *)
Definition format_number (buf : list Z) (n len : Z) (chars : list Z) (base : Z) (sign : bool)
  : outcome (list Z * Z) :=
  let negative := s64 n <? 0 in
  let n := if sign && negative then u64 (- n) else n in
  '(buf, pos) ← put_back buf len 0;
  '(buf, pos, n) ← format_number_loop 64 buf pos n chars base;
  c ← digit_char chars n;
  '(buf, pos) ← put_back buf pos c;
  if sign && negative then put_back buf pos (ch "-") else Ok (buf, pos).

(** ** Output through the callback *)

Section Output.
Context {S : Type} (putchar : Z -> S -> S).

(** [while (length > 0) { ...*buf++... }] *)
Fixpoint put_str (buf : list Z) (length : nat) (s : S) {struct length} : outcome S :=
  match length with
  | O => Ok s
  | Datatypes.S length =>
      match buf with
      | [] => Fault OutOfBounds
      | c :: buf => if c =? 0 then Ok s else put_str buf length (putchar c s)
      end
  end.

(** [while (padding > 0)] *)
Fixpoint put_pad (c : Z) (padding : nat) (s : S) : S :=
  match padding with
  | O => s
  | Datatypes.S padding => put_pad c padding (putchar c s)
  end.

Definition format_str (buf : list Z) (len : Z) (fmt : format_state) (s : S) : outcome S :=
  let length := if has fmt FMT_WIDTH && (width fmt <? len) then width fmt else len in
  let padding := if has fmt FMT_WIDTH then width fmt - length else 0 in
  if has fmt FMT_LEFT then
    s ← put_str buf (Z.to_nat length) s;
    Ok (put_pad (ch " ") (Z.to_nat padding) s)
  else
    let pad := if has fmt FMT_ZERO_PAD then ch "0" else ch " " in
    put_str buf (Z.to_nat length) (put_pad pad (Z.to_nat padding) s).

(** The value of the next argument at the type the flags select, converted
    to [uint64_t]. *)
Definition pop_int (ap : list va_arg) (fmt : format_state) : outcome (Z * list va_arg) :=
  match ap with
  | VInt v :: ap =>
      Ok (if has fmt FMT_LONG_LONG || has fmt FMT_LONG then u64 v
          else if has fmt FMT_UNSIGNED then u32 v
          else u64 (s32 v), ap)
  | _ => Fault BadArg
  end.

(** The shared body of the integer conversions. *)
Definition format_int (ap : list va_arg) (st : format_state) (chars : list Z) (base : Z)
    (sign : bool) (s : S) : outcome (list va_arg * S) :=
  '(d, ap) ← pop_int ap st;
  '(buf, pos) ← format_number (replicate 32 0) d 32 chars base sign;
  let str := drop (Z.to_nat pos) buf in
  len ← strlen str;
  s ← format_str str len st s;
  Ok (ap, s).

(** One conversion specification.  [fmt] is the rest of the format string
    after the percent sign; the result is what follows the specification.
    The user-space copy of this function in usr/liblinux/src/stdio.c has no
    case for the character conversion: [conv_c] tells the two apart. *)
Fixpoint format (conv_c : bool) (fmt : list Z) (ap : list va_arg) (st : format_state) (s : S)
  : outcome (list Z * list va_arg * S) :=
  match fmt with
  | [] => Fault OutOfBounds
  | c :: fmt =>
      if (ch "0" <=? c) && (c <=? ch "9") then
        let st :=
          if has st FMT_PRECISION then st else
          let st := set_flag FMT_WIDTH st in
          let st := if (width st =? 0) && (c =? ch "0") then set_flag FMT_ZERO_PAD st else st in
          FormatState (flags st) (u64 (width st * 10 + (c - ch "0"))) in
        format conv_c fmt ap st s
      else if c =? ch "." then
        format conv_c fmt ap (set_flag FMT_ZERO_PAD (set_flag FMT_PRECISION st)) s
      else if c =? ch "-" then
        format conv_c fmt ap (set_flag FMT_LEFT st) s
      else if c =? ch "l" then
        let st := if has st FMT_LONG then set_flag FMT_LONG_LONG st else st in
        format conv_c fmt ap (set_flag FMT_LONG st) s
      else if c =? ch "d" then
        '(ap, s) ← format_int ap st number_chars 10 true s;
        Ok (fmt, ap, s)
      else if c =? ch "u" then
        '(ap, s) ← format_int ap (set_flag FMT_UNSIGNED st) number_chars 10 false s;
        Ok (fmt, ap, s)
      else if c =? ch "x" then
        '(ap, s) ← format_int ap (set_flag FMT_UNSIGNED st) number_chars 16 false s;
        Ok (fmt, ap, s)
      else if c =? ch "X" then
        '(ap, s) ← format_int ap (set_flag FMT_UNSIGNED st) number_chars_upcase 16 false s;
        Ok (fmt, ap, s)
      else if conv_c && (c =? ch "c") then
        match ap with
        | VInt v :: ap => Ok (fmt, ap, putchar (s32 v) s)
        | _ => Fault BadArg
        end
      else if c =? ch "s" then
        match ap with
        | VStr o :: ap =>
            let str := match o with Some str => str | None => cstr "<null>" end in
            len ← strlen str;
            s ← format_str str len st s;
            Ok (fmt, ap, s)
        | _ => Fault BadArg
        end
      else if c =? ch "p" then
        let s := putchar (ch "x") (putchar (ch "0") s) in
        let st := set_flag FMT_UNSIGNED st in
        match ap with
        | VInt p :: ap =>
            '(buf, pos) ← format_number (replicate 32 0) (u64 p) 32 number_chars 16 false;
            let str := drop (Z.to_nat pos) buf in
            len ← strlen str;
            s ← format_str str len st s;
            Ok (fmt, ap, s)
        | _ => Fault BadArg
        end
      else if c =? ch "%" then
        Ok (fmt, ap, putchar (ch "%") s)
      else
        Ok (fmt, ap, putchar c (putchar (ch "%") s))
  end.
End Output.

Definition format_state_init : format_state := FormatState 0 0.

(** ** Console output *)

Section Console.
(** The console device: drivers/uart/8250.c or drivers/uart/pl011.c. *)
Context {C : Type} (console_write_char : Z -> C -> C).

Definition putchar (c : Z) (con : C) : Z * C := (c, console_write_char (u8 c) con).

(** [console_write_str]: the device loops over the string. *)
Fixpoint console_write_str (s : list Z) (con : C) : outcome C :=
  match s with
  | [] => Fault OutOfBounds
  | c :: s => if c =? 0 then Ok con else console_write_str s (console_write_char c con)
  end.

Definition puts (s : list Z) (con : C) : outcome (Z * C) :=
  con ← console_write_str s con; Ok (1, con).

(** [struct vprintf_state], with the console it prints to. *)
Record vprintf_state := VprintfState { vp_pos : Z; vp_con : C }.

Definition vprintf_output (c : Z) (state : vprintf_state) : vprintf_state :=
  VprintfState (u64 (vp_pos state + 1)) (snd (putchar c (vp_con state))).

(** The loop of [vprintf]; each iteration consumes at least one character. *)
Fixpoint vprintf_loop (fuel : nat) (fmt : list Z) (ap : list va_arg) (state : vprintf_state)
  : outcome vprintf_state :=
  match fuel with
  | O => Fault OutOfFuel
  | S fuel =>
      match fmt with
      | [] => Fault OutOfBounds
      | c :: fmt =>
          if c =? 0 then Ok state
          else if negb (c =? ch "%") then
            vprintf_loop fuel fmt ap
              (VprintfState (vp_pos state) (snd (putchar c (vp_con state))))
          else
            '(fmt, ap, state) ← format vprintf_output true fmt ap format_state_init state;
            vprintf_loop fuel fmt ap state
      end
  end.

Definition vprintf (fmt : list Z) (ap : list va_arg) (con : C) : outcome (Z * C) :=
  state ← vprintf_loop (S (length fmt)) fmt ap (VprintfState 0 con);
  Ok (s32 (vp_pos state), vp_con state).

Definition printf (fmt : list Z) (ap : list va_arg) (con : C) : outcome (Z * C) :=
  vprintf fmt ap con.
End Console.

(** ** Output to a buffer in memory *)

(** [struct vsprintf_state], with the memory [str] points to. *)
Record vsprintf_state := VsprintfState { vs_mem : mem; vs_str : Z; vs_pos : Z; vs_size : Z }.

Definition vsprintf_output (c : Z) (state : vsprintf_state) : vsprintf_state :=
  let m := if vs_pos state <? vs_size state
           then store8 (vs_mem state) (vs_str state + vs_pos state) c
           else vs_mem state in
  VsprintfState m (vs_str state) (u64 (vs_pos state + 1)) (vs_size state).

Fixpoint vsnprintf_loop (conv_c : bool) (fuel : nat) (fmt : list Z) (ap : list va_arg) (state : vsprintf_state)
  : outcome vsprintf_state :=
  match fuel with
  | O => Fault OutOfFuel
  | S fuel =>
      match fmt with
      | [] => Fault OutOfBounds
      | c :: fmt =>
          if c =? 0 then Ok state
          else if negb (c =? ch "%") then
            vsnprintf_loop conv_c fuel fmt ap (vsprintf_output c state)
          else
            '(fmt, ap, state) ← format vsprintf_output conv_c fmt ap format_state_init state;
            vsnprintf_loop conv_c fuel fmt ap state
      end
  end.

Definition vsnprintf_gen (conv_c : bool) (m : mem) (str size : Z) (fmt : list Z)
  (ap : list va_arg) : outcome (Z * mem) :=
  state ← vsnprintf_loop conv_c (S (length fmt)) fmt ap (VsprintfState m str 0 size);
  let m := if vs_size state <? vs_pos state
           then store8 (vs_mem state) (str + u64 (vs_size state - 1)) 0
           else store8 (vs_mem state) (str + vs_pos state) 0 in
  Ok (s32 (vs_pos state), m).

Definition vsnprintf (m : mem) (str size : Z) (fmt : list Z) (ap : list va_arg)
  : outcome (Z * mem) :=
  vsnprintf_gen true m str size fmt ap.

Definition SIZE_MAX : Z := 2 ^ 64 - 1.

Definition vsprintf (m : mem) (str : Z) (fmt : list Z) (ap : list va_arg) : outcome (Z * mem) :=
  vsnprintf m str SIZE_MAX fmt ap.

Definition sprintf (m : mem) (str : Z) (fmt : list Z) (ap : list va_arg) : outcome (Z * mem) :=
  vsprintf m str fmt ap.

Definition snprintf (m : mem) (str size : Z) (fmt : list Z) (ap : list va_arg)
  : outcome (Z * mem) :=
  vsnprintf m str size fmt ap.

(** A call of [printf]: the format and its arguments. *)
Definition printf_call := (list Z * list va_arg)%type.

(** A format that ends the line. *)
Definition line_format (s : string) : list Z := bytes_of s ++ [10; 0].

(** Examples from tests/tst-printf.c, on a console that records its output. *)
Definition show (fmt : string) (ap : list va_arg) : outcome (list Z) :=
  '(_, con) ← printf (fun c con => con ++ [c]) (cstr fmt) ap [];
  Ok con.

Example printf_int_min : show "%d" [VInt (-2147483648)] = Ok (bytes_of "-2147483648").
Proof. vm_compute. reflexivity. Qed.
Example printf_llmin : show "%lld" [VInt (-9223372036854775808)] = Ok (bytes_of "-9223372036854775808").
Proof. vm_compute. reflexivity. Qed.
Example printf_ullmax : show "%llX" [VInt (2 ^ 64 - 1)] = Ok (bytes_of "FFFFFFFFFFFFFFFF").
Proof. vm_compute. reflexivity. Qed.
Example printf_pad : show "%8d|%-8d|%08d|%8.8X" [VInt 1; VInt 1; VInt 1; VInt 1] =
  Ok (bytes_of "       1|1       |00000001|00000001").
Proof. vm_compute. reflexivity. Qed.
Example printf_str : show "%s, %s" [VStr (Some (cstr "hello")); VStr (Some (cstr "world"))] =
  Ok (bytes_of "hello, world").
Proof. vm_compute. reflexivity. Qed.
