(* ===== verification/PrintfProof.v ===== *)
(** * Correctness of kernel/printf.c

    Numbers read back from the characters [format_number] writes; padding and
    truncation by [format_str]; every output path emits the same characters;
    what [vsnprintf] writes to its buffer, including where it writes outside. *)

From Stdlib Require Import Ascii String.
From S2P Require Import Prelude Mem Printf.

(** ** Numbers *)

(** The value of a list of digits, most significant first. *)
Definition digits_value (base : Z) (ds : list Z) : Z :=
  fold_left (fun acc d => acc * base + d) ds 0.

Lemma fold_digits base ds acc :
  fold_left (fun acc d => acc * base + d) ds acc =
  acc * base ^ Z.of_nat (length ds) + digits_value base ds.
Proof.
  unfold digits_value. revert acc; induction ds as [|d ds IH]; intros acc; cbn [fold_left length].
  - rewrite Z.pow_0_r. lia.
  - rewrite IH, (IH (0 * base + d)). rewrite Nat2Z.inj_succ, Z.pow_succ_r by lia. lia.
Qed.

Lemma digits_value_cons base d ds :
  digits_value base (d :: ds) = d * base ^ Z.of_nat (length ds) + digits_value base ds.
Proof. unfold digits_value at 1. cbn [fold_left]. rewrite fold_digits. lia. Qed.

Lemma put_back_spec buf pos c :
  0 < pos <= Z.of_nat (length buf) ->
  exists buf', put_back buf pos c = Ok (buf', pos - 1) /\
    length buf' = length buf /\
    drop (Z.to_nat (pos - 1)) buf' = c :: drop (Z.to_nat pos) buf.
Proof.
  intros Hp. unfold put_back.
  destruct (Z.ltb_spec 0 pos); [|lia].
  destruct (Z.leb_spec pos (Z.of_nat (length buf))); [|lia]. simpl.
  eexists. split_and!; [done | apply length_insert |].
  rewrite (drop_S _ c) by (apply list_lookup_insert_eq; lia).
  replace (S (Z.to_nat (pos - 1))) with (Z.to_nat pos) by lia.
  f_equal. apply drop_insert_lt. lia.
Qed.

Section Number.
Context (chars : list Z) (base : Z).
Context (Hbase : 2 <= base <= Z.of_nat (length chars)).

(** The character of a digit. *)
Definition char_of (d : Z) : Z := default 0 (chars !! Z.to_nat d).

Lemma digit_char_spec d : 0 <= d < base -> digit_char chars d = Ok (char_of d).
Proof.
  intros Hd. unfold digit_char, char_of.
  destruct (lookup_lt_is_Some_2 chars (Z.to_nat d)) as [c ->]; [lia | done].
Qed.

Lemma format_number_loop_spec (k : nat) : forall fuel buf pos n,
  0 <= n < base ^ (Z.of_nat k + 1) -> (k <= fuel)%nat ->
  Z.of_nat k <= pos <= Z.of_nat (length buf) ->
  exists buf' pos' n' ds,
    format_number_loop fuel buf pos n chars base = Ok (buf', pos', n') /\
    length buf' = length buf /\ pos - Z.of_nat k <= pos' <= pos /\
    drop (Z.to_nat pos') buf' = map char_of ds ++ drop (Z.to_nat pos) buf /\
    Forall (fun d => 0 <= d < base) ds /\ 0 <= n' < base /\
    n = n' * base ^ Z.of_nat (length ds) + digits_value base ds /\
    (ds = [] \/ 0 < n').
Proof.
  induction k as [|k IH]; intros fuel buf pos n Hn Hf Hp;
    destruct fuel as [|fuel]; cbn [format_number_loop]; (destruct (Z.ltb_spec n base) as [Hlt | Hge]);
    try (rewrite Z.add_0_l, Z.pow_1_r in Hn; lia); try lia;
    try (by exists buf, pos, n, []; split_and!; auto; simpl;
         [lia | lia | lia | rewrite Z.pow_0_r; unfold digits_value; simpl; lia]).
  assert (0 <= n mod base < base) by (apply Z.mod_pos_bound; lia).
  rewrite digit_char_spec by done.
  destruct (put_back_spec buf pos (char_of (n mod base))) as (b1 & E1 & L1 & D1); [lia |].
  cbn [mbind outcome_bind]. rewrite E1. cbn [mbind outcome_bind].
  assert (1 <= n / base) by (apply Z.div_le_lower_bound; lia).
  destruct (IH fuel b1 (pos - 1) (n / base)) as (b2 & p2 & n2 & ds & E2 & L2 & P2 & D2 & F2 & N2 & V2 & Z2).
  - split; [apply Z.div_pos; lia |]. apply Z.div_lt_upper_bound; [lia |].
    replace (base * base ^ (Z.of_nat k + 1)) with (base ^ (Z.of_nat (S k) + 1)); [lia |].
    rewrite <- Z.pow_succ_r by lia. f_equal. lia.
  - lia.
  - lia.
  - exists b2, p2, n2, (ds ++ [n mod base]). split_and!; auto; try lia.
    + rewrite D2, D1, map_app, <- app_assoc. done.
    + apply Forall_app; split; [done | by constructor].
    + rewrite length_app, Nat2Z.inj_add. change (Z.of_nat (length [n mod base])) with 1.
      rewrite Z.pow_add_r, Z.pow_1_r by lia.
      assert (digits_value base (ds ++ [n mod base]) = digits_value base ds * base + n mod base) as ->
        by (unfold digits_value; by rewrite fold_left_app).
      pose proof (Z.div_mod n base). nia.
    + right. destruct Z2 as [-> | ?]; [| done]. simpl in V2.
      rewrite Z.pow_0_r in V2. unfold digits_value in V2. simpl in V2. lia.
Qed.
End Number.

(** The magnitude and sign [format_number] prints. *)
Definition number_magnitude (n : Z) (sign : bool) : Z := if sign then Z.abs (s64 n) else n.
Definition number_sign (n : Z) (sign : bool) : list Z :=
  if sign && (s64 n <? 0) then [ch "-"] else [].

Lemma format_number_spec buf n chars base sign :
  10 <= base <= Z.of_nat (length chars) -> 0 <= n < 2 ^ 64 -> length buf = 32%nat ->
  exists buf' pos ds,
    format_number buf n 32 chars base sign = Ok (buf', pos) /\
    0 <= pos /\ length buf' = 32%nat /\
    drop (Z.to_nat pos) buf' = number_sign n sign ++ map (char_of chars) ds ++ [0] /\
    Forall (fun d => 0 <= d < base) ds /\
    digits_value base ds = number_magnitude n sign /\
    (exists d ds', ds = d :: ds' /\ (ds' = [] \/ 0 < d)).
Proof.
  intros Hb Hn Hlen. unfold format_number, number_magnitude, number_sign.
  set (n0 := if sign && (s64 n <? 0) then u64 (- n) else n).
  assert (n0 = if sign then Z.abs (s64 n) else n) as Hmag.
  { subst n0. unfold s64. rewrite u64_small by done.
    destruct sign; simpl; [| done]. destruct (Z.ltb_spec n (2 ^ 63)).
    - destruct (Z.ltb_spec n 0); lia.
    - destruct (Z.ltb_spec (n - 2 ^ 64) 0); [| lia]. unfold u64.
      rewrite <- (Z_mod_plus_full (- n) 1 (2 ^ 64)), Z.mod_small; lia. }
  assert (0 <= n0 < 2 ^ 64) as Hn0.
  { rewrite Hmag. destruct sign; [| done]. unfold s64. rewrite u64_small by done.
    destruct (Z.ltb_spec n (2 ^ 63)); lia. }
  assert (2 ^ 64 <= base ^ (Z.of_nat 19 + 1)) as H19.
  { transitivity (10 ^ 20); [by vm_compute |]. apply Z.pow_le_mono_l. lia. }
  destruct (put_back_spec buf 32 0) as (b1 & E1 & L1 & D1); [lia |].
  cbn [mbind outcome_bind]. rewrite E1. cbn [mbind outcome_bind].
  destruct (format_number_loop_spec chars base ltac:(lia) 19 64 b1 (32 - 1) n0)
    as (b2 & p2 & n2 & ds & E2 & L2 & P2 & D2 & F2 & N2 & V2 & Z2); try lia.
  rewrite E2. cbn [mbind outcome_bind]. rewrite (digit_char_spec chars base) by lia.
  destruct (put_back_spec b2 p2 (char_of chars n2)) as (b3 & E3 & L3 & D3); [lia |].
  cbn [mbind outcome_bind]. rewrite E3. cbn [mbind outcome_bind].
  assert (drop (Z.to_nat 32) buf = []) as D0 by (apply drop_ge; lia).
  assert (drop (Z.to_nat (p2 - 1)) b3 = map (char_of chars) (n2 :: ds) ++ [0]) as D4.
  { rewrite D3, D2, D1, D0. done. }
  assert (digits_value base (n2 :: ds) = n0) as V4 by (rewrite digits_value_cons; lia).
  assert (Forall (fun d => 0 <= d < base) (n2 :: ds)) as F4 by (by constructor).
  destruct (sign && (s64 n <? 0)) eqn:Esign.
  - destruct (put_back_spec b3 (p2 - 1) (ch "-")) as (b5 & E5 & L5 & D5); [lia |].
    rewrite E5. exists b5, (p2 - 1 - 1), (n2 :: ds). rewrite D5, D4. split_and!; auto; try lia; eauto.
  - exists b3, (p2 - 1), (n2 :: ds). rewrite D4. split_and!; auto; try lia; eauto.
Qed.

(** ** Every output path emits the same characters *)

(** A callback commutes with a map of states: the output routines do too. *)
Section Homomorphism.
Context {S T : Type} (putS : Z -> S -> S) (putT : Z -> T -> T) (f : S -> T).
Context (Hf : forall c s, f (putS c s) = putT c (f s)).

Lemma put_str_hom buf k s :
  put_str putT buf k (f s) = (s' ← put_str putS buf k s; Ok (f s')).
Proof.
  revert buf s; induction k as [|k IH]; intros [|c buf] s; simpl; auto.
  destruct (c =? 0); simpl; [done |]. by rewrite <- Hf, IH.
Qed.

Lemma put_pad_hom c k s : put_pad putT c k (f s) = f (put_pad putS c k s).
Proof. revert s; induction k as [|k IH]; intros s; simpl; [done |]. by rewrite <- Hf, IH. Qed.

Lemma format_str_hom buf len fmt s :
  format_str putT buf len fmt (f s) = (s' ← format_str putS buf len fmt s; Ok (f s')).
Proof.
  unfold format_str. destruct (has fmt FMT_LEFT).
  - rewrite put_str_hom. destruct (put_str putS _ _ s); simpl; [| done]. by rewrite put_pad_hom.
  - by rewrite put_pad_hom, put_str_hom.
Qed.

Lemma format_int_hom ap st chars base sign s :
  format_int putT ap st chars base sign (f s) =
  ('(ap', s') ← format_int putS ap st chars base sign s; Ok (ap', f s')).
Proof.
  unfold format_int. destruct (pop_int ap st) as [[d ap']|]; simpl; [| done].
  destruct (format_number _ _ _ _ _ _) as [[buf pos]|]; simpl; [| done].
  destruct (strlen _); simpl; [| done]. rewrite format_str_hom.
  by destruct (format_str putS _ _ _ s).
Qed.

Lemma format_hom conv_c fmt ap st s :
  format putT conv_c fmt ap st (f s) =
  ('(fmt', ap', s') ← format putS conv_c fmt ap st s; Ok (fmt', ap', f s')).
Proof.
  revert ap st s; induction fmt as [|c fmt IH]; intros ap st s; cbn [format]; [done |].
  repeat match goal with
  | |- (if ?b then _ else _) = _ => destruct b
  end; try apply IH; rewrite <- ?Hf; try done.
  1-4: rewrite format_int_hom; by destruct (format_int putS _ _ _ _ _ _) as [[? ?]|].
  - destruct ap as [|[v | o] ap]; simpl; rewrite <- ?Hf; done.
  - destruct ap as [|[v | o] ap]; [done | done |]. simpl.
    destruct (strlen _); simpl; [| done]. rewrite format_str_hom.
    by destruct (format_str putS _ _ _ s).
  - destruct ap as [|[v | o] ap]; [done | | done].
    destruct (format_number _ _ _ _ _ _) as [[buf pos]|]; simpl; [| done].
    destruct (strlen _); simpl; [| done]. rewrite format_str_hom.
    by destruct (format_str putS _ _ _ _).
Qed.
End Homomorphism.

(** The reference: the characters of a formatted string, as a list. *)
Definition snoc (c : Z) (out : list Z) : list Z := out ++ [c].

Fixpoint output_loop (conv_c : bool) (fuel : nat) (fmt : list Z) (ap : list va_arg) (out : list Z)
  : outcome (list Z) :=
  match fuel with
  | O => Fault OutOfFuel
  | S fuel =>
      match fmt with
      | [] => Fault OutOfBounds
      | c :: fmt =>
          if c =? 0 then Ok out
          else if negb (c =? ch "%") then output_loop conv_c fuel fmt ap (snoc c out)
          else
            '(fmt, ap, out) ← format snoc conv_c fmt ap format_state_init out;
            output_loop conv_c fuel fmt ap out
      end
  end.

Definition output (conv_c : bool) (fmt : list Z) (ap : list va_arg) : outcome (list Z) :=
  output_loop conv_c (S (length fmt)) fmt ap [].

(** The state a callback reaches on a list of characters. *)
Definition emit {S} (put : Z -> S -> S) (out : list Z) (s : S) : S :=
  fold_left (fun s c => put c s) out s.

Lemma emit_snoc {S} (put : Z -> S -> S) c out s : emit put (snoc c out) s = put c (emit put out s).
Proof. unfold emit, snoc. by rewrite fold_left_app. Qed.

Lemma vsnprintf_loop_emit conv_c fuel fmt ap out st :
  vsnprintf_loop conv_c fuel fmt ap (emit vsprintf_output out st) =
  (out' ← output_loop conv_c fuel fmt ap out; Ok (emit vsprintf_output out' st)).
Proof.
  revert fmt ap out; induction fuel as [|fuel IH]; intros [|c fmt] ap out; cbn; auto.
  destruct (c =? 0); [done |]. destruct (negb _); [by rewrite <- emit_snoc, IH |].
  rewrite (format_hom snoc vsprintf_output (fun out => emit vsprintf_output out st))
    by (intros; apply emit_snoc).
  destruct (format snoc conv_c fmt ap format_state_init out) as [[[fmt' ap'] out']|]; simpl; [apply IH | done].
Qed.

(** [vprintf] counts conversions only: reference with the count beside the output. *)
Definition snoc_count (c : Z) (s : list Z * Z) : list Z * Z := (snoc c (fst s), snd s + 1).

Lemma vprintf_loop_emit {C} (cw : Z -> C -> C) (con : C) fuel fmt ap out k :
  let con_of out := emit (fun c con => snd (putchar cw c con)) out con in
  match output_loop true fuel fmt ap out with
  | Ok out' => exists k', vprintf_loop cw fuel fmt ap (VprintfState (u64 k) (con_of out)) =
                          Ok (VprintfState (u64 k') (con_of out'))
  | Fault e => vprintf_loop cw fuel fmt ap (VprintfState (u64 k) (con_of out)) = Fault e
  end.
Proof.
  intros con_of.
  assert (forall c out, snd (putchar cw c (con_of out)) = con_of (snoc c out)) as Hsnoc.
  { intros. unfold con_of. by rewrite emit_snoc. }
  revert fmt ap out k; induction fuel as [|fuel IH]; intros [|c fmt] ap out k;
    cbn [output_loop vprintf_loop]; auto.
  destruct (c =? 0); [by exists k |]. destruct (negb _).
  - cbn [vp_pos vp_con]. rewrite Hsnoc. apply IH.
  - pose (st_of := fun s : list Z * Z => VprintfState (u64 (snd s)) (con_of (fst s))).
    change (VprintfState (u64 k) (con_of out)) with (st_of (out, k)).
    change out with (fst (out, k)) at 1.
    rewrite (format_hom snoc_count snoc fst) by done.
    rewrite (format_hom snoc_count (vprintf_output cw) st_of).
    + destruct (format snoc_count _ _ _ _ _) as [[[fmt' ap'] [out' k']]|]; simpl; [apply IH | done].
    + intros c' [o k']. unfold st_of, vprintf_output, snoc_count. simpl. f_equal.
      * unfold u64. by rewrite Zplus_mod_idemp_l.
      * symmetry. apply Hsnoc.
Qed.

(** ** Termination: the bounds of the loops are never reached *)

(** A fault other than running out of fuel stays one at another type. *)
Ltac no_fuel := first [done | let H := fresh in intros [= H]; congruence].

Lemma pop_int_range ap st d ap' : pop_int ap st = Ok (d, ap') -> 0 <= d < 2 ^ 64.
Proof.
  destruct ap as [|[v | o] ap]; simpl; [done | | done]. intros [= <- _].
  pose proof (u32_range v). repeat case_match; auto with word; try lia.
Qed.

Lemma strlen_no_fuel s : strlen s <> Fault OutOfFuel.
Proof. induction s as [|c s IH]; simpl; [done |]. destruct (c =? 0); [done |]. by destruct (strlen s). Qed.

Lemma put_str_no_fuel {S} (put : Z -> S -> S) buf k s : put_str put buf k s <> Fault OutOfFuel.
Proof.
  revert buf s; induction k as [|k IH]; intros [|c buf] s; simpl; try done.
  destruct (c =? 0); [done | apply IH].
Qed.

Lemma format_str_no_fuel {S} (put : Z -> S -> S) buf len st s :
  format_str put buf len st s <> Fault OutOfFuel.
Proof.
  unfold format_str. destruct (has st FMT_LEFT); [| apply put_str_no_fuel].
  pose proof (put_str_no_fuel put buf (Z.to_nat (if has st FMT_WIDTH && (width st <? len)
    then width st else len)) s) as H. destruct (put_str put buf _ s); no_fuel.
Qed.

Lemma format_int_no_fuel {S} (put : Z -> S -> S) ap st chars base sign s :
  10 <= base <= Z.of_nat (length chars) ->
  format_int put ap st chars base sign s <> Fault OutOfFuel.
Proof.
  intros Hb. unfold format_int. destruct (pop_int ap st) as [[d ap']|e] eqn:E; cbn [mbind outcome_bind].
  - destruct (format_number_spec (replicate 32 0) d chars base sign Hb) as (buf & pos & ds & -> & _);
      [by eapply pop_int_range | done |]. cbn [mbind outcome_bind].
    pose proof (strlen_no_fuel (drop (Z.to_nat pos) buf)) as H1.
    destruct (strlen _) as [len|]; cbn [mbind outcome_bind]; [| no_fuel].
    pose proof (format_str_no_fuel put (drop (Z.to_nat pos) buf) len st s) as H2.
    destruct (format_str put _ len st s); no_fuel.
  - destruct ap as [|[]]; simpl in E; congruence.
Qed.

Lemma format_no_fuel {S} (put : Z -> S -> S) conv_c fmt ap st s :
  format put conv_c fmt ap st s <> Fault OutOfFuel.
Proof.
  revert ap st s; induction fmt as [|c fmt IH]; intros ap st s; cbn [format]; [done |].
  repeat match goal with
  | |- (if ?b then _ else _) <> _ => destruct b
  end; try apply IH; try done.
  1-4: match goal with |- context [@format_int _ ?p ?ap ?st ?cs ?b ?sg ?s] =>
         let H := fresh in
         assert (10 <= b <= Z.of_nat (length cs)) as H by (vm_compute; intuition discriminate);
         apply (format_int_no_fuel p ap st cs b sg s) in H;
         destruct (format_int p ap st cs b sg s) as [[? ?]|]; no_fuel end.
  - by destruct ap as [|[v | o] ap].
  - destruct ap as [|[v | o] ap]; [done | done |]. set (str := match o with Some _ => _ | None => _ end).
    pose proof (strlen_no_fuel str) as H1. destruct (strlen str) as [len|]; simpl; [| no_fuel].
    pose proof (format_str_no_fuel put str len st s) as H2. destruct (format_str put _ len st s); no_fuel.
  - destruct ap as [|[v | o] ap]; [done | | done].
    destruct (format_number_spec (replicate 32 0) (u64 v) number_chars 16 false)
      as (buf & pos & ds & -> & _); [done | auto with word | done |]. cbn [mbind outcome_bind].
    pose proof (strlen_no_fuel (drop (Z.to_nat pos) buf)) as H1.
    destruct (strlen _) as [len|]; cbn [mbind outcome_bind]; [| no_fuel].
    match goal with |- context [format_str put ?b ?l ?f ?s] =>
      pose proof (format_str_no_fuel put b l f s) as H2; destruct (format_str put b l f s); no_fuel end.
Qed.

(** A conversion specification consumes at least one character. *)
Lemma format_shorter {S} (put : Z -> S -> S) conv_c fmt ap st s fmt' ap' s' :
  format put conv_c fmt ap st s = Ok (fmt', ap', s') -> (length fmt' < length fmt)%nat.
Proof.
  revert ap st s; induction fmt as [|c fmt IH]; intros ap st s H; cbn [format] in H; [done |].
  cbn [length].
  repeat match goal with
  | H : (if ?b then _ else _) = _ |- _ => destruct b
  end; try (apply IH in H; lia); try (injection H as <- _ _; lia).
  1-4: apply bind_Ok in H as ([? ?] & _ & [= <- _ _]); lia.
  - destruct ap as [|[v | o] ap]; [done | injection H as <- _ _; lia | done].
  - destruct ap as [|[v | o] ap]; [done | done |].
    apply bind_Ok in H as (? & _ & H). apply bind_Ok in H as (? & _ & [= <- _ _]). lia.
  - destruct ap as [|[v | o] ap]; [done | | done].
    apply bind_Ok in H as ([? ?] & _ & H). apply bind_Ok in H as (? & _ & H).
    apply bind_Ok in H as (? & _ & [= <- _ _]). lia.
Qed.

Lemma output_loop_no_fuel conv_c fuel fmt ap out :
  (length fmt < fuel)%nat -> output_loop conv_c fuel fmt ap out <> Fault OutOfFuel.
Proof.
  revert fmt ap out; induction fuel as [|fuel IH]; intros fmt ap out Hl; [lia |].
  destruct fmt as [|c fmt]; cbn [output_loop]; [done |]. cbn [length] in Hl.
  destruct (c =? 0); [done |]. destruct (negb _); [apply IH; lia |].
  pose proof (format_no_fuel snoc conv_c fmt ap format_state_init out) as Hn.
  destruct (format snoc conv_c fmt ap format_state_init out) as [[[fmt' ap'] out']|] eqn:E;
    cbn [mbind outcome_bind]; [| no_fuel].
  apply format_shorter in E. apply IH. lia.
Qed.

(** ** Padding and truncation *)

(** What [format_str] prints for the characters [str]: cut to the field width,
    then padded to it. *)
Definition padded (st : format_state) (str : list Z) : list Z :=
  if has st FMT_WIDTH then
    let cut := take (Z.to_nat (width st)) str in
    let pad := replicate (Z.to_nat (width st) - length cut) in
    if has st FMT_LEFT then cut ++ pad (ch " ")
    else pad (if has st FMT_ZERO_PAD then ch "0" else ch " ") ++ cut
  else str.

Lemma put_str_emit {S} (put : Z -> S -> S) str rest k s :
  Forall (fun c => c <> 0) str -> (k <= length str)%nat ->
  put_str put (str ++ rest) k s = Ok (emit put (take k str) s).
Proof.
  intros Hs. revert k s; induction Hs as [|c str Hc _ IH]; intros [|k] s Hk; try done.
  - cbn [length] in Hk. lia.
  - cbn [length app put_str take] in *. destruct (Z.eqb_spec c 0); [done |]. by rewrite IH by lia.
Qed.

Lemma put_pad_emit {S} (put : Z -> S -> S) c k s : put_pad put c k s = emit put (replicate k c) s.
Proof. revert s; induction k as [|k IH]; intros s; simpl; [done |]. by rewrite IH. Qed.

Lemma emit_app {S} (put : Z -> S -> S) o1 o2 s : emit put (o1 ++ o2) s = emit put o2 (emit put o1 s).
Proof. unfold emit. by rewrite fold_left_app. Qed.

Lemma format_str_padded {S} (put : Z -> S -> S) str st s :
  Forall (fun c => c <> 0) str -> 0 <= width st ->
  format_str put (str ++ [0]) (Z.of_nat (length str)) st s = Ok (emit put (padded st str) s).
Proof.
  intros Hs Hw. unfold format_str, padded.
  set (k := if has st FMT_WIDTH && (width st <? Z.of_nat (length str)) then width st
            else Z.of_nat (length str)).
  assert (has st FMT_WIDTH = true ->
    Z.to_nat k = length (take (Z.to_nat (width st)) str) /\
    take (Z.to_nat k) str = take (Z.to_nat (width st)) str /\
    Z.to_nat (width st - k) = (Z.to_nat (width st) - length (take (Z.to_nat (width st)) str))%nat) as Hk.
  { intros Hwd. subst k. rewrite Hwd. simpl. rewrite length_take.
    destruct (Z.ltb_spec (width st) (Z.of_nat (length str))); split_and!; auto; try lia.
    rewrite Nat2Z.id, !take_ge by lia. done. }
  destruct (has st FMT_WIDTH).
  - destruct Hk as (Hk1 & Hk2 & Hk3); [done |]. destruct (has st FMT_LEFT).
    + rewrite put_str_emit by (rewrite ?Hk1, ?length_take; auto; lia). simpl.
      by rewrite put_pad_emit, Hk2, Hk3, emit_app.
    + rewrite put_str_emit by (rewrite ?Hk1, ?length_take; auto; lia).
      by rewrite put_pad_emit, Hk2, Hk3, emit_app.
  - subst k. cbn [andb]. change (Z.to_nat 0) with O.
    rewrite Nat2Z.id. cbn [put_pad].
    destruct (has st FMT_LEFT); rewrite put_str_emit by auto; simpl; by rewrite take_ge by lia.
Qed.

(** ** The buffer of [vsnprintf] *)

Lemma emit_vsprintf m str size out :
  0 <= size -> Z.of_nat (length out) < 2 ^ 64 ->
  emit vsprintf_output out (VsprintfState m str 0 size) =
  VsprintfState (store_bytes m str (take (Z.to_nat size) out)) str (Z.of_nat (length out)) size.
Proof.
  intros Hsz. induction out as [|c out IH] using rev_ind; intros Hl.
  - by rewrite take_nil.
  - change (out ++ [c]) with (snoc c out). rewrite emit_snoc. unfold snoc in *.
    rewrite length_app in *. cbn [length] in *. rewrite IH by lia.
    unfold vsprintf_output. cbn [vs_pos vs_size vs_mem vs_str]. f_equal.
    + destruct (Z.ltb_spec (Z.of_nat (length out)) size).
      * rewrite !take_ge by (rewrite ?length_app; simpl; lia). by rewrite store_bytes_app.
      * rewrite take_app_le by lia. done.
    + rewrite u64_small; lia.
Qed.

(** [format_number] in base 10 or 16 never leaves its 32-byte buffer, and
    the characters it leaves there are a sign, then the digits of the number
    without superfluous leading zeros, then a terminator: the number read back
    from them is the argument, read as signed when [sign] is set. *)
Theorem format_number_round_trip buf n chars base sign :
  10 <= base <= Z.of_nat (length chars) -> 0 <= n < 2 ^ 64 -> length buf = 32%nat ->
  exists buf' pos ds,
    format_number buf n 32 chars base sign = Ok (buf', pos) /\
    0 <= pos /\ length buf' = 32%nat /\
    drop (Z.to_nat pos) buf' = number_sign n sign ++ map (char_of chars) ds ++ [0] /\
    Forall (fun d => 0 <= d < base) ds /\
    digits_value base ds = number_magnitude n sign /\
    (exists d ds', ds = d :: ds' /\ (ds' = [] \/ 0 < d)).
Proof. apply format_number_spec. Qed.

Lemma format_number_round_trip_witness :
  exists buf' pos ds,
    format_number (replicate 32 0) (2 ^ 64 - 42) 32 number_chars 10 true = Ok (buf', pos) /\
    digits_value 10 ds = 42 /\
    drop (Z.to_nat pos) buf' = [ch "-"] ++ map (char_of number_chars) ds ++ [0].
Proof.
  destruct (format_number_round_trip (replicate 32 0) (2 ^ 64 - 42) number_chars 10 true)
    as (buf' & pos & ds & E & _ & _ & D & _ & V & _);
    [vm_compute; intuition discriminate | lia | reflexivity |].
  exists buf', pos, ds. split_and!; [exact E | exact V | exact D].
Defined.

(** [format_str] prints a string, cut to the field width when one is given,
    and padded to it: spaces on the right with the minus flag, otherwise spaces
    or zeros on the left.  (The C standard's field width only pads; a number
    with more digits than the width loses its last digits here.) *)
Theorem format_str_pads_and_cuts {S} (put : Z -> S -> S) str st s :
  Forall (fun c => c <> 0) str -> 0 <= width st ->
  format_str put (str ++ [0]) (Z.of_nat (length str)) st s = Ok (emit put (padded st str) s) /\
  (has st FMT_WIDTH = true -> Z.of_nat (length (padded st str)) = width st).
Proof.
  intros Hs Hw. split; [by apply format_str_padded |]. intros Hwd. unfold padded. rewrite Hwd.
  destruct (has st FMT_LEFT); rewrite length_app, length_replicate, length_take; lia.
Qed.

Lemma format_str_pads_and_cuts_witness :
  format_str snoc (bytes_of "12345" ++ [0]) 5 (FormatState FMT_WIDTH 4) [] = Ok (bytes_of "1234").
Proof.
  apply (format_str_pads_and_cuts snoc (bytes_of "12345") (FormatState FMT_WIDTH 4) []);
    [repeat constructor; vm_compute; discriminate | vm_compute; discriminate].
Defined.

(** [vprintf] and [vsnprintf] always finish within the length of their
    format string, and both produce the same characters, those of the reference
    [output]: [vprintf] sends each of them to the console, in order. *)
Theorem vprintf_prints_output {C} (cw : Z -> C -> C) fmt ap con :
  output true fmt ap <> Fault OutOfFuel /\
  match output true fmt ap with
  | Ok out => exists r, vprintf cw fmt ap con = Ok (r, emit (fun c con => cw (u8 c) con) out con)
  | Fault e => vprintf cw fmt ap con = Fault e
  end.
Proof.
  split; [apply output_loop_no_fuel; lia |]. unfold output, vprintf.
  pose proof (vprintf_loop_emit cw con (S (length fmt)) fmt ap [] 0) as H. cbv zeta in H.
  destruct (output_loop true (S (length fmt)) fmt ap []) as [out | e].
  - destruct H as [k H]. exists (s32 (u64 k)).
    replace (vprintf_loop cw (S (length fmt)) fmt ap (VprintfState 0 con))
      with (Ok (VprintfState (u64 k) (emit (fun c con => snd (putchar cw c con)) out con)))
      by (symmetry; exact H). done.
  - replace (vprintf_loop cw (S (length fmt)) fmt ap (VprintfState 0 con))
      with (@Fault (@vprintf_state C) e) by (symmetry; exact H). done.
Qed.

Lemma s32_length (out : list Z) : Z.of_nat (length out) < 2 ^ 31 -> s32 (Z.of_nat (length out)) = Z.of_nat (length out).
Proof.
  intros Hl. unfold s32. rewrite u32_small by lia. destruct (Z.ltb_spec (Z.of_nat (length out)) (2 ^ 31)); lia.
Qed.

(** Output that fits is stored with its terminator. *)
Lemma vsnprintf_gen_fits conv_c m str size fmt ap out :
  output conv_c fmt ap = Ok out -> Z.of_nat (length out) < size < 2 ^ 64 -> Z.of_nat (length out) < 2 ^ 31 ->
  vsnprintf_gen conv_c m str size fmt ap = Ok (Z.of_nat (length out), store_bytes m str (out ++ [0])).
Proof.
  intros Hout Hsz Hl. unfold vsnprintf_gen.
  change (VsprintfState m str 0 size) with (emit vsprintf_output [] (VsprintfState m str 0 size)).
  rewrite vsnprintf_loop_emit. unfold output in Hout. rewrite Hout. cbn [mbind outcome_bind].
  rewrite emit_vsprintf by lia. cbn [vs_size vs_pos vs_mem]. rewrite s32_length by done.
  destruct (Z.ltb_spec size (Z.of_nat (length out))); [lia |]. rewrite take_ge by lia.
  change (store8 ?m ?a 0) with (store_bytes m a [0]). by rewrite <- store_bytes_app.
Qed.

(** The buffer that [vsnprintf] leaves, for either copy of [format]. *)
Lemma vsnprintf_gen_buffer conv_c m str size fmt ap out :
  output conv_c fmt ap = Ok out -> 0 < size < 2 ^ 64 -> Z.of_nat (length out) < 2 ^ 31 ->
  exists m', vsnprintf_gen conv_c m str size fmt ap = Ok (Z.of_nat (length out), m') /\
  (Z.of_nat (length out) < size ->
     load_bytes m' str (length out + 1) = map u8 out ++ [0] /\
     same_outside str (str + size) m m') /\
  (size < Z.of_nat (length out) ->
     load_bytes m' str (Z.to_nat size) = map u8 (take (Z.to_nat (size - 1)) out) ++ [0] /\
     same_outside str (str + size) m m') /\
  (Z.of_nat (length out) = size ->
     load_bytes m' str (Z.to_nat size) = map u8 out /\ load8 m' (str + size) = 0 /\
     same_outside str (str + size + 1) m m').
Proof.
  intros Hout Hsz Hl. unfold vsnprintf_gen.
  change (VsprintfState m str 0 size) with (emit vsprintf_output [] (VsprintfState m str 0 size)).
  rewrite vsnprintf_loop_emit. unfold output in Hout. rewrite Hout. cbn [mbind outcome_bind].
  rewrite emit_vsprintf by lia. cbn [vs_size vs_pos vs_mem].
  rewrite s32_length by done. eexists. split; [done |]. split_and!; intros Hcase.
  - destruct (Z.ltb_spec size (Z.of_nat (length out))); [lia |]. rewrite take_ge by lia.
    change (store8 ?m ?a 0) with (store_bytes m a [0]).
    rewrite <- store_bytes_app. split.
    + replace (length out + 1)%nat with (length (out ++ [0])) by (rewrite length_app; done).
      rewrite load_bytes_store_any. by rewrite map_app.
    + intros x Hx. apply store_bytes_same_outside. rewrite length_app. simpl. lia.
  - destruct (Z.ltb_spec size (Z.of_nat (length out))); [| lia]. rewrite u64_small by lia.
    set (m1 := store_bytes m str (take (Z.to_nat size) out)).
    assert (length (take (Z.to_nat size) out) = Z.to_nat size) as Htl by (rewrite length_take; lia).
    split.
    + replace (Z.to_nat size) with (S (Z.to_nat (size - 1))) by lia. rewrite load_bytes_snoc. f_equal.
      * rewrite (load_bytes_ext m1) by (intros; apply load8_store8_ne; lia).
        rewrite <- (take_load_bytes _ _ (length (take (Z.to_nat size) out))) by lia.
        unfold m1. rewrite load_bytes_store_any, <- firstn_map, take_take.
        rewrite <- firstn_map. f_equal. lia.
      * f_equal. rewrite Z2Nat.id by lia. rewrite load8_store8_eq. done.
    + intros x Hx. rewrite load8_store8_ne by lia. apply store_bytes_same_outside. lia.
  - destruct (Z.ltb_spec size (Z.of_nat (length out))); [lia |]. rewrite take_ge by lia. split_and!.
    + rewrite (load_bytes_ext (store_bytes m str out)) by (intros; apply load8_store8_ne; lia).
      replace (Z.to_nat size) with (length out) by lia. apply load_bytes_store_any.
    + rewrite Hcase, load8_store8_eq. done.
    + intros x Hx. rewrite load8_store8_ne by lia. apply store_bytes_same_outside. lia.
Qed.

(** C40: what [vsnprintf] writes.  With output [out] and a non-empty buffer of
    [size] bytes: shorter output is stored whole and terminated; longer output
    is cut to [size - 1] characters and terminated; in both cases nothing
    outside the buffer changes.  When the output has exactly [size] characters,
    the buffer is filled and the terminator is stored one byte past its end. *)
Theorem vsnprintf_buffer m str size fmt ap out :
  output true fmt ap = Ok out -> 0 < size < 2 ^ 64 -> Z.of_nat (length out) < 2 ^ 31 ->
  exists m', vsnprintf m str size fmt ap = Ok (Z.of_nat (length out), m') /\
  (Z.of_nat (length out) < size ->
     load_bytes m' str (length out + 1) = map u8 out ++ [0] /\
     same_outside str (str + size) m m') /\
  (size < Z.of_nat (length out) ->
     load_bytes m' str (Z.to_nat size) = map u8 (take (Z.to_nat (size - 1)) out) ++ [0] /\
     same_outside str (str + size) m m') /\
  (Z.of_nat (length out) = size ->
     load_bytes m' str (Z.to_nat size) = map u8 out /\ load8 m' (str + size) = 0 /\
     same_outside str (str + size + 1) m m').
Proof. apply vsnprintf_gen_buffer. Qed.

Lemma vsnprintf_buffer_witness :
  exists m', vsnprintf (store8 ∅ 104 7) 100 4 (cstr "ab%d") [VInt 42] = Ok (4, m') /\
    load_bytes m' 100 4 = bytes_of "ab42" /\ load8 m' 104 = 0 /\ load8 (store8 ∅ 104 7) 104 = 7.
Proof.
  destruct (vsnprintf_buffer (store8 ∅ 104 7) 100 4 (cstr "ab%d") [VInt 42] (bytes_of "ab42"))
    as (m' & E & _ & _ & H); [reflexivity | lia | vm_compute; reflexivity |].
  exists m'. destruct (H eq_refl) as (H1 & H2 & _). split_and!; [exact E | exact H1 | exact H2 | reflexivity].
Defined.

(** The return value of [vprintf] counts only what conversions produce. *)
Example vprintf_result_ignores_literals :
  vprintf (fun c con => con ++ [c]) (cstr "abc%d") [VInt 5] [] = Ok (1, bytes_of "abc5").
Proof. reflexivity. Qed.
