(* ===== verification/FormatType.v ===== *)
(** * The types of format strings

    [printf] takes its arguments as the format string says, without a check.  The
    format string is a type here: the list of the kinds of arguments that its
    conversions take.  A call whose arguments have this type runs to its end, and
    a call whose arguments do not have it reads an argument that is not there, an
    integer as a string, a string as an integer, or past the end of a string.
    Both copies of [format], of kernel/printf.c and of usr/liblinux/src/stdio.c,
    have the same types but for the character conversion.

    The format strings of the kernel that the models in the other files use are
    checked with it where they are declared. *)

From Stdlib Require Import Ascii String.
From S2P Require Import Prelude Mem Printf PrintfProof.

(** ** Types *)

Inductive arg_type := TInt | TStr.

(** A pointer to a string has to reach a terminator; NULL is printed. *)
Definition has_type (a : va_arg) (t : arg_type) : bool :=
  match a, t with
  | VInt _, TInt => true
  | VStr (Some s), TStr => bool_decide (0 ∈ s)
  | VStr None, TStr => true
  | _, _ => false
  end.

(** Further arguments are ignored. *)
Fixpoint accepts (tys : list arg_type) (ap : list va_arg) : bool :=
  match tys, ap with
  | [], _ => true
  | t :: tys, a :: ap => has_type a t && accepts tys ap
  | _ :: _, [] => false
  end.

Definition modifier (c : Z) : bool :=
  ((ch "0" <=? c) && (c <=? ch "9")) || (c =? ch ".") || (c =? ch "-") || (c =? ch "l").

(** What a conversion takes, [None] for one that only prints, and what follows it.
    A specification without a conversion before the end of the string has no type. *)
Fixpoint spec_type (conv_c : bool) (fmt : list Z) : option (option arg_type * list Z) :=
  match fmt with
  | [] => None
  | c :: fmt =>
      if modifier c then spec_type conv_c fmt
      else if (c =? ch "d") || (c =? ch "u") || (c =? ch "x") || (c =? ch "X")
              || (conv_c && (c =? ch "c")) || (c =? ch "p") then Some (Some TInt, fmt)
      else if c =? ch "s" then Some (Some TStr, fmt)
      else if c =? 0 then None
      else Some (None, fmt)
  end.

Definition opt_cons {T} (o : option T) (l : list T) : list T :=
  match o with Some x => x :: l | None => l end.

Fixpoint format_types (conv_c : bool) (fuel : nat) (fmt : list Z) : option (list arg_type) :=
  match fuel, fmt with
  | S fuel, c :: fmt =>
      if c =? 0 then Some []
      else if negb (c =? ch "%") then format_types conv_c fuel fmt
      else
        match spec_type conv_c fmt with
        | Some (t, fmt) => opt_cons t <$> format_types conv_c fuel fmt
        | None => None
        end
  | _, _ => None
  end.

(** The type of a format string. *)
Definition format_type (conv_c : bool) (fmt : list Z) : option (list arg_type) :=
  format_types conv_c (S (length fmt)) fmt.

Definition well_typed (conv_c : bool) (fmt : list Z) (ap : list va_arg) : bool :=
  match format_type conv_c fmt with
  | Some tys => accepts tys ap
  | None => false
  end.

(** All calls of a list, as the models of functions that only print have them. *)
Definition calls_typed (calls : list printf_call) : Prop :=
  Forall (fun call => well_typed true (fst call) (snd call) = true) calls.

(** A C string: one zero, at its end. *)
Definition cstring (s : list Z) : Prop := exists str, s = str ++ [0] /\ Forall (fun c => c <> 0) str.

(** ** Strings *)

Lemma cstring_tail c s : cstring (c :: s) -> c <> 0 -> cstring s.
Proof.
  intros ([|c' str] & E & Hs) Hc; simplify_eq/=. exists str. by inversion Hs.
Qed.

Lemma cstring_zero s : cstring (0 :: s) -> s = [].
Proof. intros ([|c' str] & E & Hs); simplify_eq/=; [done |]. by inversion Hs. Qed.

Lemma strlen_spec s :
  if bool_decide (0 ∈ s)
  then exists str rest, s = str ++ 0 :: rest /\ strlen s = Ok (Z.of_nat (length str))
  else exists e, strlen s = Fault e.
Proof.
  induction s as [|c s IH]; [by exists OutOfBounds |]. cbn [strlen].
  destruct (Z.eqb_spec c 0) as [-> | Hc].
  - rewrite bool_decide_true by set_solver. by exists [], s.
  - rewrite (bool_decide_ext _ (0 ∈ s)) by (rewrite elem_of_cons; split; [by intros [?|?] | by right]). case_bool_decide.
    + destruct IH as (str & rest & -> & ->). exists (c :: str), rest. split; [done |].
      cbn [mbind outcome_bind length]. f_equal. lia.
    + destruct IH as (e & ->). by exists e.
Qed.

Lemma put_str_ok {S} (put : Z -> S -> S) str rest k s :
  (k <= length str)%nat -> exists s', put_str put (str ++ rest) k s = Ok s'.
Proof.
  revert k s; induction str as [|c str IH]; intros [|k] s Hk; cbn [length app put_str] in *; eauto; [lia |].
  destruct (c =? 0); [eauto |]. apply IH. lia.
Qed.

Lemma format_str_ok {S} (put : Z -> S -> S) str rest st s :
  exists s', format_str put (str ++ rest) (Z.of_nat (length str)) st s = Ok s'.
Proof.
  unfold format_str. set (k := if _ && _ then _ else _).
  assert (Z.to_nat k <= length str)%nat as Hk.
  { subst k. destruct (has st FMT_WIDTH); cbn [andb]; [|lia]. destruct (Z.ltb_spec (width st) (Z.of_nat (length str))); lia. }
  destruct (has st FMT_LEFT).
  - destruct (put_str_ok put str rest _ s Hk) as (s' & ->). by eexists.
  - by apply put_str_ok.
Qed.

(** The digits of a number end with a terminator. *)
Lemma number_ok {S} (put : Z -> S -> S) chars base sign d st s :
  10 <= base <= Z.of_nat (length chars) -> 0 <= d < 2 ^ 64 ->
  exists s',
    ('(buf, pos) ← format_number (replicate 32 0) d 32 chars base sign;
     let str := drop (Z.to_nat pos) buf in
     len ← strlen str;
     format_str put str len st s) = Ok s'.
Proof.
  intros Hb Hd.
  destruct (format_number_spec (replicate 32 0) d chars base sign Hb Hd eq_refl)
    as (buf & pos & ds & -> & _ & _ & Hdrop & _). rewrite Ok_bind. cbv zeta.
  pose proof (strlen_spec (drop (Z.to_nat pos) buf)) as Hs.
  rewrite bool_decide_true in Hs by (clear -Hdrop; rewrite Hdrop; set_solver).
  destruct Hs as (str & rest & -> & ->). rewrite Ok_bind. apply format_str_ok.
Qed.

Lemma format_int_ok {S} (put : Z -> S -> S) v ap st chars base sign s :
  10 <= base <= Z.of_nat (length chars) ->
  exists s', format_int put (VInt v :: ap) st chars base sign s = Ok (ap, s').
Proof.
  intros Hb. unfold format_int. destruct (pop_int (VInt v :: ap) st) as [[d ap']|] eqn:E; [| done].
  destruct (number_ok put chars base sign d st s Hb (pop_int_range _ _ _ _ E)) as (s' & Hs).
  assert (ap' = ap) as -> by (cbn in E; congruence). rewrite Ok_bind. revert Hs.
  destruct (format_number _ _ _ _ _ _) as [[buf pos]|]; [| done]. rewrite !Ok_bind. cbv zeta.
  destruct (strlen _); [| done]. rewrite !Ok_bind. intros ->. by exists s'.
Qed.

(** ** One conversion *)

(** What [format] does on arguments, by the type of the conversion. *)
Definition runs_as {S} (o : option (option arg_type * list Z)) (fmt : list Z) (ap : list va_arg)
    (r : outcome (list Z * list va_arg * S)) : Prop :=
  match o with
  | Some (None, fmt') => exists s', r = Ok (fmt', ap, s')
  | Some (Some t, fmt') =>
      match ap with
      | a :: ap' => if has_type a t then exists s', r = Ok (fmt', ap', s') else exists e, r = Fault e
      | [] => exists e, r = Fault e
      end
  | None => (exists e, r = Fault e) \/ (exists s', r = Ok ([], ap, s'))
  end.

Lemma int_runs {S} (put : Z -> S -> S) fmt ap st chars base sign s :
  10 <= base <= Z.of_nat (length chars) ->
  runs_as (Some (Some TInt, fmt)) fmt ap
    ('(ap, s) ← format_int put ap st chars base sign s; Ok (fmt, ap, s)).
Proof.
  intros Hb. destruct ap as [|[v | o] ap]; [by exists BadArg | | destruct o; by exists BadArg].
  destruct (format_int_ok put v ap st chars base sign s Hb) as (s' & ->). by exists s'.
Qed.

Lemma str_runs {S} (put : Z -> S -> S) fmt ap st s :
  runs_as (Some (Some TStr, fmt)) fmt ap
    (match ap with
     | VStr o :: ap =>
         let str := match o with Some str => str | None => cstr "<null>" end in
         len ← strlen str;
         s ← format_str put str len st s;
         Ok (fmt, ap, s)
     | _ => Fault BadArg
     end).
Proof.
  destruct ap as [|[v | o] ap]; [by exists BadArg | by exists BadArg |]. cbv zeta.
  set (str := match o with Some str => str | None => _ end). cbn [runs_as].
  replace (has_type (VStr o) TStr) with (bool_decide (0 ∈ str)) by (by destruct o).
  pose proof (strlen_spec str) as Hs. case_bool_decide.
  - destruct Hs as (pre & rest & -> & ->). rewrite Ok_bind.
    destruct (format_str_ok put pre (0 :: rest) st s) as (s' & ->). by exists s'.
  - destruct Hs as (e & ->). by exists e.
Qed.

Lemma ptr_runs {S} (put : Z -> S -> S) fmt ap st s :
  runs_as (Some (Some TInt, fmt)) fmt ap
    (match ap with
     | VInt p :: ap =>
         '(buf, pos) ← format_number (replicate 32 0) (u64 p) 32 number_chars 16 false;
         let str := drop (Z.to_nat pos) buf in
         len ← strlen str;
         s ← format_str put str len st s;
         Ok (fmt, ap, s)
     | _ => Fault BadArg
     end).
Proof.
  destruct ap as [|[v | o] ap]; [by exists BadArg | | destruct o; by exists BadArg]. cbn [runs_as has_type].
  destruct (number_ok put number_chars 16 false (u64 v) st s) as (s' & Hs); [done | auto with word |].
  revert Hs. destruct (format_number _ _ _ _ _ _) as [[buf pos]|]; [| done]. rewrite !Ok_bind. cbv zeta.
  destruct (strlen _); [| done]. rewrite !Ok_bind. intros ->. by exists s'.
Qed.

Lemma format_runs {S} (put : Z -> S -> S) conv_c fmt ap st s :
  cstring fmt -> runs_as (spec_type conv_c fmt) fmt ap (format put conv_c fmt ap st s).
Proof.
  revert ap st s; induction fmt as [|c fmt IH]; intros ap st s Hc; [left; by exists OutOfBounds |].
  pose proof (cstring_tail _ _ Hc) as Ht. cbn [format spec_type]. unfold modifier.
  assert (forall x st, c = ch x -> ch x <> 0 ->
    runs_as (spec_type conv_c fmt) (c :: fmt) ap (format put conv_c fmt ap st s)) as Hmod.
  { intros x st' -> Hx. apply (IH ap st' s), Ht, Hx. }
  destruct ((ch "0" <=? c) && (c <=? ch "9")) eqn:E0.
  { apply andb_prop in E0 as [E0 _]. apply Z.leb_le in E0. apply IH, Ht. intros ->. by vm_compute in E0. }
  cbn [orb].
  destruct (Z.eqb_spec c (ch ".")) as [E|_]; [by eapply Hmod |].
  destruct (Z.eqb_spec c (ch "-")) as [E|_]; [by eapply Hmod |].
  destruct (Z.eqb_spec c (ch "l")) as [E|_]; [by eapply Hmod |]. cbn [orb].
  destruct (c =? ch "d"); [by apply int_runs |].
  destruct (c =? ch "u"); [by apply int_runs |].
  destruct (c =? ch "x"); [by apply int_runs |].
  destruct (c =? ch "X"); [by apply int_runs |]. cbn [orb].
  destruct (conv_c && (c =? ch "c")); cbn [orb].
  { destruct ap as [|[v | o] ap]; [by exists BadArg | by eexists | destruct o; by exists BadArg]. }
  destruct (Z.eqb_spec c (ch "s")) as [-> |].
  { change (ch "s" =? ch "p") with false. cbv iota. apply str_runs. }
  destruct (c =? ch "p"); [apply ptr_runs |].
  destruct (Z.eqb_spec c 0) as [-> |].
  - right. rewrite (cstring_zero _ Hc). by eexists.
  - destruct (c =? ch "%"); by eexists.
Qed.

Lemma spec_type_rest conv_c fmt t fmt' :
  cstring fmt -> spec_type conv_c fmt = Some (t, fmt') -> cstring fmt' /\ (length fmt' < length fmt)%nat.
Proof.
  induction fmt as [|c fmt IH]; [done |]. intros Hc. cbn [spec_type length].
  destruct (Z.eq_dec c 0) as [-> | Hne]; [by destruct conv_c |]. pose proof (cstring_tail _ _ Hc Hne) as Ht.
  destruct (modifier c); [intros E; apply IH in E as [? ?]; [split; [done | lia] | done] |].
  repeat case_match; intros [= <- <-]; (split; [done | lia]).
Qed.

(** ** A whole call *)

Definition typed_as (o : option (list arg_type)) (ap : list va_arg) : bool :=
  match o with Some tys => accepts tys ap | None => false end.

Lemma output_loop_types conv_c fuel fmt ap out :
  cstring fmt -> (length fmt < fuel)%nat ->
  if typed_as (format_types conv_c fuel fmt) ap
  then exists out', output_loop conv_c fuel fmt ap out = Ok out'
  else exists e, output_loop conv_c fuel fmt ap out = Fault e.
Proof.
  revert fmt ap out; induction fuel as [|fuel IH]; intros fmt ap out Hc Hl; [lia |].
  destruct fmt as [|c fmt]; cbn [output_loop format_types length] in *; [by exists OutOfBounds |].
  destruct (Z.eqb_spec c 0) as [-> | Hne]; [by exists out |]. pose proof (cstring_tail _ _ Hc Hne) as Ht.
  destruct (negb _); [apply IH; [done | lia] |].
  pose proof (format_runs snoc conv_c fmt ap format_state_init out Ht) as Hr.
  destruct (spec_type conv_c fmt) as [[t fmt']|] eqn:Es; cbn [runs_as] in Hr.
  - apply spec_type_rest in Es as [Hc' Hl']; [| done]. pose proof (fun ap out => IH fmt' ap out Hc' ltac:(lia)) as IH'.
    destruct t as [t|].
    + destruct ap as [|a ap'].
      * destruct Hr as (e & ->). replace (typed_as _ _) with false by (by destruct (format_types conv_c fuel fmt')).
        by exists e.
      * replace (typed_as (opt_cons (Some t) <$> format_types conv_c fuel fmt') (a :: ap'))
          with (has_type a t && typed_as (format_types conv_c fuel fmt') ap')
          by (destruct (format_types conv_c fuel fmt'); cbn; [done | apply andb_false_r]).
        destruct (has_type a t); cbn [andb]; destruct Hr as (s' & ->); [apply IH' | by exists s'].
    + destruct Hr as (s' & ->).
      replace (typed_as _ _) with (typed_as (format_types conv_c fuel fmt') ap)
        by (by destruct (format_types conv_c fuel fmt')). apply IH'.
  - cbn [typed_as]. destruct Hr as [(e & ->)|(s' & ->)]; [by exists e |].
    destruct fuel; [lia |]. by exists OutOfBounds.
Qed.

Lemma output_types conv_c fmt ap :
  cstring fmt ->
  if well_typed conv_c fmt ap
  then exists out, output conv_c fmt ap = Ok out else exists e, output conv_c fmt ap = Fault e.
Proof. intros Hc. by apply (output_loop_types conv_c (S (length fmt)) fmt ap []); [| lia]. Qed.

Lemma printf_output {C} (cw : Z -> C -> C) fmt ap con :
  match output true fmt ap with
  | Ok _ => exists r, printf cw fmt ap con = Ok r
  | Fault e => printf cw fmt ap con = Fault e
  end.
Proof.
  unfold printf, vprintf, output.
  pose proof (vprintf_loop_emit cw con (S (length fmt)) fmt ap [] 0) as H. cbv zeta in H.
  set (r := vprintf_loop cw _ _ _ (VprintfState 0 con)).
  destruct (output_loop true (S (length fmt)) fmt ap []) as [out | e].
  - destruct H as [k H]. replace r with (Ok (VprintfState (u64 k) (emit (fun c con => snd (putchar cw c con)) out con)))
      by (symmetry; exact H). by eexists.
  - replace r with (@Fault (@vprintf_state C) e) by (symmetry; exact H). done.
Qed.

Lemma vsnprintf_output conv_c m str size fmt ap :
  match output conv_c fmt ap with
  | Ok _ => exists r, vsnprintf_gen conv_c m str size fmt ap = Ok r
  | Fault e => vsnprintf_gen conv_c m str size fmt ap = Fault e
  end.
Proof.
  unfold vsnprintf_gen, output.
  change (VsprintfState m str 0 size) with (emit vsprintf_output [] (VsprintfState m str 0 size)).
  rewrite vsnprintf_loop_emit. destruct (output_loop conv_c (S (length fmt)) fmt ap []); [by eexists | done].
Qed.

(** C39: the type of a format string is exact.  For a format that is a C string,
    [printf] and [vsnprintf] (in the kernel, and the copy of user space without
    the character conversion) return for every console and every buffer if the
    arguments have the type that the format asks for: as many as it has
    conversions, integers and terminated strings in their places.  If they do
    not, the call reads something that it was not given. *)
Theorem printf_type_safe {C} (cw : Z -> C -> C) fmt ap (Hfmt : cstring fmt) :
  (forall con, if well_typed true fmt ap
               then exists r, printf cw fmt ap con = Ok r
               else exists e, e <> OutOfFuel /\ printf cw fmt ap con = Fault e) /\
  (forall conv_c m str size,
     if well_typed conv_c fmt ap
     then exists r, vsnprintf_gen conv_c m str size fmt ap = Ok r
     else exists e, e <> OutOfFuel /\ vsnprintf_gen conv_c m str size fmt ap = Fault e).
Proof.
  assert (forall conv_c, output conv_c fmt ap <> Fault OutOfFuel) as Hn by (intros; apply output_loop_no_fuel; lia).
  split.
  - intros con. pose proof (output_types true fmt ap Hfmt) as Ht. pose proof (printf_output cw fmt ap con) as Ho.
    specialize (Hn true). destruct (well_typed true fmt ap); destruct Ht as (x & E); rewrite E in *; [done |].
    exists x. split; [congruence | done].
  - intros conv_c m str size. pose proof (output_types conv_c fmt ap Hfmt) as Ht.
    pose proof (vsnprintf_output conv_c m str size fmt ap) as Ho. specialize (Hn conv_c).
    destruct (well_typed conv_c fmt ap); destruct Ht as (x & E); rewrite E in *; [done |].
    exists x. split; [congruence | done].
Qed.

(** The character conversion of [putchar] is an error in user space only. *)
Lemma printf_type_safe_witness :
  well_typed true (cstr "%s: %4d %c") [VStr (Some (cstr "id")); VInt 7; VInt 65] = true /\
  well_typed false (cstr "%s: %4d %c") [VStr (Some (cstr "id")); VInt 7] = true /\
  (exists r, vsnprintf_gen false ∅ 4096 64 (cstr "%s: %4d %c") [VStr (Some (cstr "id")); VInt 7] = Ok r) /\
  (exists e, e <> OutOfFuel /\ printf (fun c con => con ++ [c]) (cstr "%s: %4d %c") [VInt 1; VInt 7] [] = Fault e).
Proof.
  assert (cstring (cstr "%s: %4d %c")) as Hc.
  { exists (bytes_of "%s: %4d %c"). split; [done |]. repeat constructor; vm_compute; discriminate. }
  split_and!; [by vm_compute | by vm_compute | |].
  - exact (proj2 (printf_type_safe (fun c con => con ++ [c]) _ [VStr (Some (cstr "id")); VInt 7] Hc) false ∅ 4096 64).
  - exact (proj1 (printf_type_safe (fun c con => con ++ [c]) _ [VInt 1; VInt 7] Hc) []).
Defined.

(** A format that ends with a percent sign has no type: both loops go on behind
    its end. *)
Example trailing_percent : well_typed true (cstr "100%") [] = false /\ show "100%" [] = Fault OutOfBounds.
Proof. by vm_compute. Qed.
