(* ===== verification/Stdio.v ===== *)
(** * usr/liblinux/src/stdio.c: formatted output in user space

    The file repeats the formatting code of kernel/printf.c, without the [%c]
    conversion, and sends the text to the console in one system call.  The shared
    functions are those of Printf; [Printf.format] takes the presence of [%c] as
    an argument.  Static buffers and frames are addresses in memory. *)

From Stdlib Require Import Ascii String.
From S2P Require Import Prelude Mem Printf PrintfProof.

Module Stdio.

Definition number_chars_upcase : list Z := Printf.number_chars_upcase.
Definition number_chars : list Z := Printf.number_chars.
Definition format_number := Printf.format_number.
Definition format_str {S : Type} := @Printf.format_str S.
Definition pop_int := Printf.pop_int.

(** [format], which has no case for ['c']. *)
Definition format {S : Type} (put : Z -> S -> S) (fmt : list Z) (ap : list va_arg) (s : S)
  : outcome (list Z * list va_arg * S) :=
  Printf.format put false fmt ap format_state_init s.

Definition vsprintf_output := Printf.vsprintf_output.

Definition vsnprintf (m : mem) (str size : Z) (fmt : list Z) (ap : list va_arg) : outcome (Z * mem) :=
  vsnprintf_gen false m str size fmt ap.

Definition vsprintf (m : mem) (str : Z) (fmt : list Z) (ap : list va_arg) : outcome (Z * mem) :=
  vsnprintf m str SIZE_MAX fmt ap.

Definition sprintf (m : mem) (str : Z) (fmt : list Z) (ap : list va_arg) : outcome (Z * mem) :=
  vsprintf m str fmt ap.

Definition snprintf (m : mem) (str size : Z) (fmt : list Z) (ap : list va_arg) : outcome (Z * mem) :=
  vsnprintf m str size fmt ap.

(** [console_print] is the system call: it receives the bytes of the text. *)
Section Console.
Context {C : Type} (console_print : list Z -> C -> C).

(** The length of the local buffer of [vfprintf]. *)
Definition text_size : Z := 1024.

(** [text] is the address of the local buffer; the count is converted to [size_t]. *)
Definition vfprintf (text : Z) (m : mem) (fmt : list Z) (ap : list va_arg) (con : C) : outcome (Z * mem * C) :=
  '(ret, m) ← vsprintf m text fmt ap;
  Ok (0, m, console_print (load_bytes m text (Z.to_nat (u64 ret))) con).

Definition vprintf (text : Z) (m : mem) (fmt : list Z) (ap : list va_arg) (con : C) : outcome (Z * mem * C) :=
  vfprintf text m fmt ap con.

Definition printf (text : Z) (m : mem) (fmt : list Z) (ap : list va_arg) (con : C) : outcome (Z * mem * C) :=
  vprintf text m fmt ap con.

(** [fprintf] ends without a [return]: its value is indeterminate. *)
Definition fprintf (text : Z) (m : mem) (fmt : list Z) (ap : list va_arg) (con : C) : outcome (mem * C) :=
  '(_, m, con) ← vfprintf text m fmt ap con;
  Ok (m, con).

Definition fwrite (m : mem) (ptr size nmemb : Z) (con : C) : Z * C :=
  (0, console_print (load_bytes m ptr (Z.to_nat (u64 (size * nmemb)))) con).

Definition putchar (c : Z) (con : C) : Z * C := (c, console_print [u8 c] con).

End Console.
End Stdio.

(** ** Results *)

(** Printf of the C library sends exactly the formatted text to the console
    and returns 0.  The text goes through a local buffer without a bound: besides
    that buffer nothing changes as long as the text is shorter than 1024
    characters, and a longer text overwrites the stack behind it, its terminator
    at [text + length]. *)
Theorem stdio_printf_prints {C} (cp : list Z -> C -> C) text m fmt ap con out :
  output false fmt ap = Ok out -> Z.of_nat (length out) < 2 ^ 31 ->
  exists m', Stdio.printf cp text m fmt ap con = Ok (0, m', cp (map u8 out) con) /\
    (Z.of_nat (length out) < Stdio.text_size -> same_outside text (text + Stdio.text_size) m m') /\
    (Stdio.text_size <= Z.of_nat (length out) ->
       load_bytes m' (text + Stdio.text_size) (length out - Z.to_nat Stdio.text_size) =
         map u8 (drop (Z.to_nat Stdio.text_size) out) /\
       load8 m' (text + Z.of_nat (length out)) = 0).
Proof.
  intros Hout Hl. unfold Stdio.printf, Stdio.vprintf, Stdio.vfprintf, Stdio.vsprintf, Stdio.vsnprintf.
  rewrite (vsnprintf_gen_fits false m text SIZE_MAX fmt ap out) by (done || unfold SIZE_MAX; lia).
  cbn [mbind outcome_bind]. rewrite u64_small, Nat2Z.id by lia. set (m' := store_bytes m text (out ++ [0])).
  assert (load_bytes m' text (length out + 1) = map u8 out ++ [0]) as Hm'.
  { replace (length out + 1)%nat with (length (out ++ [0])) by (rewrite length_app; done).
    unfold m'. rewrite load_bytes_store_any. by rewrite map_app. }
  assert (load_bytes m' text (length out) = map u8 out) as Hm.
  { rewrite <- (take_load_bytes _ _ (length out + 1)) by lia. rewrite Hm', take_app_le by (rewrite length_map; lia).
    apply take_ge. by rewrite length_map. }
  exists m'. split; [by rewrite Hm |]. unfold Stdio.text_size. split.
  - intros Hs x Hx. apply store_bytes_same_outside. rewrite length_app. simpl. lia.
  - intros Hs. split.
    + replace (length out) with (1024 + (length out - 1024))%nat in Hm at 1 by lia. rewrite load_bytes_app in Hm.
      apply (f_equal (drop 1024)) in Hm. rewrite drop_app_length' in Hm by (symmetry; apply length_load_bytes).
      rewrite <- skipn_map. exact Hm.
    + replace (length out + 1)%nat with (S (length out)) in Hm' by lia. rewrite load_bytes_snoc in Hm'.
      apply app_inj_2 in Hm' as [_ [= ->]]; done.
Qed.

Lemma stdio_printf_prints_witness :
  exists m', Stdio.printf (fun bs con => con ++ bs) 100 ∅ (cstr "x=%d") [VInt 42] [] = Ok (0, m', bytes_of "x=42") /\
    load8 m' 105 = 0.
Proof.
  destruct (stdio_printf_prints (fun bs con => con ++ bs) 100 ∅ (cstr "x=%d") [VInt 42] [] (bytes_of "x=42"))
    as (m' & E & _ & _).
  - reflexivity.
  - vm_compute. reflexivity.
  - exists m'. split; [exact E |]. vm_compute in E. injection E as <-. reflexivity.
Defined.
