(* ===== verification/PageAlloc.v ===== *)
(** * The page allocator

    kernel/memory.rs: memory arenas, which keep their free segments in an
    intrusive red-black tree threaded through the free memory itself, and the
    page allocation functions that the C code calls.

    The tree comes from a library outside of this repository
    (intrusive_collections::RBTree).  [SegmentTree] lists the operations that
    memory.rs uses and [SegmentTreeLaws] their documented behaviour; the sorted
    list [list_tree] at the end satisfies them.  [PageAllocator] and
    [PageAllocatorLaws] are what the slab allocator and the page tables rely
    on, discharged by the arenas. *)

From S2P Require Import Prelude Align Mem.
From Stdlib Require Import Sorting.Sorted.

(** ** Memory segments *)

(** A segment lives at its own base address: the first [sizeof_segment] bytes
    of the free memory it describes hold the base, the size and the tree
    link. *)
Record MemorySegment := Segment { seg_base : Z; seg_size : Z }.

Definition sizeof_segment : Z := 40.

Definition seg_end (s : MemorySegment) : Z := seg_base s + seg_size s.

(** The bytes of the segment's header, and of the segment. *)
Definition in_header (x : Z) (s : MemorySegment) : Prop :=
  seg_base s <= x < seg_base s + sizeof_segment.
Definition in_segment (x : Z) (s : MemorySegment) : Prop := seg_base s <= x < seg_end s.

(** The header of the first segment ends before the second one starts. *)
Definition header_before (s s' : MemorySegment) : Prop :=
  seg_base s + sizeof_segment <= seg_base s'.

(** ** The red-black tree *)

Class SegmentTree (T : Type) := {
  RBTree_new : T;
  RBTreeLink_new : list Z;
  front_mut : T -> mem -> option MemorySegment;
  find_mut : Z -> T -> mem -> option MemorySegment;
  upper_bound_mut : Z -> T -> mem -> option MemorySegment;
  cursor_remove : Z -> T -> mem -> T * mem;
  cursor_replace_with : Z -> MemorySegment -> T -> mem -> option (T * mem);
  tree_insert : MemorySegment -> T -> mem -> T * mem
}.

(** The header that [MemorySegment::new] writes at the address of a segment. *)
Definition MemorySegment_new `{SegmentTree T} (s : MemorySegment) : list Z :=
  le_split 8 (seg_base s) ++ le_split 8 (seg_size s) ++ RBTreeLink_new.

Definition write_segment `{SegmentTree T} (m : mem) (s : MemorySegment) : mem :=
  store_bytes m (seg_base s) (MemorySegment_new s).

(** The documented behaviour of the tree: an ordered sequence of segments.  Its
    nodes are the headers of its segments, so the operations change memory only
    there, and the tree is unchanged as long as the headers are. *)
Class SegmentTreeLaws (T : Type) `{SegmentTree T} := {
  segments : T -> list MemorySegment;
  tree_rep : T -> mem -> Prop;
  tree_new_rep m : tree_rep RBTree_new m /\ segments RBTree_new = [];
  tree_link_length : length RBTreeLink_new = 24%nat;
  tree_link_bytes : Forall is_byte RBTreeLink_new;
  tree_frame t m m' :
    tree_rep t m -> (forall x s, s ∈ segments t -> in_header x s -> load8 m' x = load8 m x) ->
    tree_rep t m';
  tree_front t m : tree_rep t m -> front_mut t m = head (segments t);
  tree_find k t m : tree_rep t m ->
    find_mut k t m = List.find (fun s => seg_base s =? k) (segments t);
  tree_upper_bound k t m : tree_rep t m ->
    upper_bound_mut k t m = last (List.filter (fun s => seg_base s <? k) (segments t));
  tree_remove t m l1 s l2 :
    tree_rep t m -> segments t = l1 ++ s :: l2 ->
    exists t' m', cursor_remove (seg_base s) t m = (t', m') /\ tree_rep t' m' /\
      segments t' = l1 ++ l2 /\
      (forall x, ~ Exists (in_header x) (l1 ++ s :: l2) -> load8 m' x = load8 m x);
  tree_replace t m l1 s l2 s' :
    tree_rep t m -> segments t = l1 ++ s :: l2 ->
    load_bytes m (seg_base s') (Z.to_nat sizeof_segment) = MemorySegment_new s' ->
    header_before s s' ->
    Forall (fun a => header_before a s') l1 -> Forall (header_before s') l2 ->
    exists t' m', cursor_replace_with (seg_base s) s' t m = Some (t', m') /\ tree_rep t' m' /\
      segments t' = l1 ++ s' :: l2 /\
      (forall x, ~ Exists (in_header x) (l1 ++ s :: s' :: l2) -> load8 m' x = load8 m x);
  tree_add t m l1 s l2 :
    tree_rep t m -> segments t = l1 ++ l2 ->
    load_bytes m (seg_base s) (Z.to_nat sizeof_segment) = MemorySegment_new s ->
    Forall (fun a => header_before a s) l1 -> Forall (header_before s) l2 ->
    exists t' m', tree_insert s t m = (t', m') /\ tree_rep t' m' /\
      segments t' = l1 ++ s :: l2 /\
      (forall x, ~ Exists (in_header x) (l1 ++ s :: l2) -> load8 m' x = load8 m x)
}.

(** ** Arenas *)

Section Arena.
Context {T : Type} `{SegmentTree T}.

(** [MemorySegment::split]: the rest of the segment after [size] bytes, with its
    header written in place. *)
Definition segment_split (m : mem) (s : MemorySegment) (size : Z) : MemorySegment * mem :=
  let seg := Segment (u64 (seg_base s + size)) (u64 (seg_size s - size)) in
  (seg, write_segment m seg).

(** [MemoryArena::alloc]: take [size] bytes from the front of the first segment. *)
Definition arena_alloc (size : Z) (t : T) (m : mem) : outcome (Z * T * mem) :=
  match front_mut t m with
  | Some seg =>
      if seg_size seg <? size then Ok (0, t, m)
      else
        let ret := seg_base seg in
        if size <? seg_size seg then
          let '(new_seg, m) := segment_split m seg size in
          match cursor_replace_with (seg_base seg) new_seg t m with
          | Some (t, m) => Ok (ret, t, m)
          | None => Fault Panic
          end
        else
          let '(t, m) := cursor_remove (seg_base seg) t m in
          Ok (ret, t, m)
  | None => Ok (0, t, m)
  end.

Definition add_to_freelist (s : MemorySegment) (t : T) (m : mem) : T * mem := tree_insert s t m.

(** The two coalescing steps of [MemoryArena::free]. *)
Definition coalesce_next (addr size : Z) (t : T) (m : mem) : Z * T * mem :=
  match find_mut (u64 (addr + size)) t m with
  | Some next =>
      if u64 (addr + size) =? seg_base next then
        let '(t, m) := cursor_remove (seg_base next) t m in
        (u64 (size + seg_size next), t, m)
      else (size, t, m)
  | None => (size, t, m)
  end.

Definition coalesce_prev (addr size : Z) (t : T) (m : mem) : Z * Z * T * mem :=
  match upper_bound_mut addr t m with
  | Some prev =>
      if u64 (seg_base prev + seg_size prev) =? addr then
        let '(t, m) := cursor_remove (seg_base prev) t m in
        (seg_base prev, u64 (size + seg_size prev), t, m)
      else (addr, size, t, m)
  | None => (addr, size, t, m)
  end.

(** [MemoryArena::free] *)
Definition arena_free (addr size : Z) (t : T) (m : mem) : T * mem :=
  let '(size, t, m) := coalesce_next addr size t m in
  let '(addr, size, t, m) := coalesce_prev addr size t m in
  let seg := Segment addr size in
  add_to_freelist seg t (write_segment m seg).

(** The two arenas of the kernel. *)
Record arenas := Arenas { small_arena : T; large_arena : T }.

Definition memory_add_span_small (start last : Z) (a : arenas) (m : mem) : arenas * mem :=
  let seg := Segment start (u64 (last - start)) in
  let '(t, m) := add_to_freelist seg (small_arena a) (write_segment m seg) in
  (Arenas t (large_arena a), m).

Definition memory_add_span_large (start last : Z) (a : arenas) (m : mem) : arenas * mem :=
  let seg := Segment start (u64 (last - start)) in
  let '(t, m) := add_to_freelist seg (large_arena a) (write_segment m seg) in
  (Arenas (small_arena a) t, m).

(** [memory_add_span]: the 2 MiB aligned middle of the span goes to the large
    page arena, the two ends to the small page arena. *)
Definition memory_add_span (start size : Z) (a : arenas) (m : mem) : arenas * mem :=
  let last := u64 (start + size) in
  let large_start := align_up start PAGE_SIZE_LARGE in
  let large_end := align_down last PAGE_SIZE_LARGE in
  let '(a, m) :=
    if negb (start =? large_start) then memory_add_span_small start large_start a m else (a, m) in
  let '(a, m) :=
    if negb (large_start =? large_end) then memory_add_span_large large_start large_end a m
    else (a, m) in
  if negb (last =? large_end) then memory_add_span_small large_end last a m else (a, m).

Definition arena_page_alloc_small (a : arenas) (m : mem) : outcome (Z * arenas * mem) :=
  '(p, t, m) ← arena_alloc PAGE_SIZE_SMALL (small_arena a) m;
  Ok (p, Arenas t (large_arena a), m).

Definition arena_page_free_small (p : Z) (a : arenas) (m : mem) : arenas * mem :=
  let '(t, m) := arena_free p PAGE_SIZE_SMALL (small_arena a) m in
  (Arenas t (large_arena a), m).

Definition arena_page_alloc_large (a : arenas) (m : mem) : outcome (Z * arenas * mem) :=
  '(p, t, m) ← arena_alloc PAGE_SIZE_LARGE (large_arena a) m;
  Ok (p, Arenas (small_arena a) t, m).

Definition arena_page_free_large (p : Z) (a : arenas) (m : mem) : arenas * mem :=
  let '(t, m) := arena_free p PAGE_SIZE_LARGE (large_arena a) m in
  (Arenas (small_arena a) t, m).

End Arena.
Arguments arenas : clear implicits.

(** ** The invariant of an arena *)

(** A segment of whole pages of size [g], inside the address space. *)
Definition seg_ok (g : Z) (s : MemorySegment) : Prop :=
  0 < seg_base s /\ (g | seg_base s) /\ 0 < seg_size s /\ (g | seg_size s) /\ seg_end s < 2 ^ 64.

Definition seg_before (s s' : MemorySegment) : Prop := seg_end s <= seg_base s'.

Definition segs_ok (g : Z) (l : list MemorySegment) : Prop :=
  StronglySorted seg_before l /\ Forall (seg_ok g) l.

(** No two segments touch: freed neighbours have been merged. *)
Definition seg_apart (s s' : MemorySegment) : Prop := seg_end s < seg_base s'.
Definition coalesced (l : list MemorySegment) : Prop := StronglySorted seg_apart l.

Lemma StronglySorted_app_iff {A} (R : A -> A -> Prop) l1 l2 :
  StronglySorted R (l1 ++ l2) <->
  StronglySorted R l1 /\ StronglySorted R l2 /\ Forall (fun a => Forall (R a) l2) l1.
Proof.
  induction l1 as [|a l1 IH]; simpl.
  - split; [intros; split_and!; [constructor | done | constructor] | by intros (_ & ? & _)].
  - split.
    + inversion_clear 1 as [|? ? Hs Hf]. apply IH in Hs as (? & ? & ?).
      apply Forall_app in Hf as [? ?]. split_and!; [by constructor | done | by constructor].
    + intros (Hs & H2 & Hc). inversion_clear Hs. inversion_clear Hc.
      constructor; [apply IH; done | by apply Forall_app].
Qed.

Lemma segs_ok_app g l1 l2 :
  segs_ok g (l1 ++ l2) <->
  segs_ok g l1 /\ segs_ok g l2 /\ Forall (fun a => Forall (seg_before a) l2) l1.
Proof. unfold segs_ok. rewrite StronglySorted_app_iff, Forall_app. tauto. Qed.

Lemma segs_ok_cons g s l :
  segs_ok g (s :: l) <-> seg_ok g s /\ segs_ok g l /\ Forall (seg_before s) l.
Proof.
  unfold segs_ok. rewrite Forall_cons. split.
  - intros [Hs [? ?]]. inversion_clear Hs. done.
  - intros (? & [? ?] & ?). split; [by constructor | done].
Qed.

#[local] Set Default Proof Using "All".

Lemma coalesced_app l1 l2 :
  coalesced (l1 ++ l2) <->
  coalesced l1 /\ coalesced l2 /\ Forall (fun a => Forall (seg_apart a) l2) l1.
Proof. apply StronglySorted_app_iff. Qed.

Lemma coalesced_cons s l : coalesced (s :: l) <-> coalesced l /\ Forall (seg_apart s) l.
Proof. split; [by inversion_clear 1 | intros [? ?]; by constructor]. Qed.

Section Segments.
Context (g : Z) (Hg : sizeof_segment <= g).

Lemma seg_ok_page s : seg_ok g s -> g <= seg_size s.
Proof. intros (_ & _ & Hp & Hd & _). by apply Z.divide_pos_le in Hd. Qed.

Lemma in_header_segment x s : seg_ok g s -> in_header x s -> in_segment x s.
Proof.
  intros Hs. pose proof (seg_ok_page s Hs). unfold in_header, in_segment, seg_end. lia.
Qed.

Lemma in_headers_segments x l :
  Forall (seg_ok g) l -> Exists (in_header x) l -> Exists (in_segment x) l.
Proof.
  rewrite !Exists_exists, Forall_forall. intros Hl (s & Hs & Hx).
  exists s. eauto using in_header_segment.
Qed.

Lemma seg_header_before s s' : seg_ok g s -> seg_before s s' -> header_before s s'.
Proof.
  intros Hs. pose proof (seg_ok_page s Hs). unfold seg_before, header_before, seg_end. lia.
Qed.

Lemma segs_header_before s l :
  seg_ok g s -> Forall (seg_before s) l -> Forall (header_before s) l.
Proof.
  intros Hs Hl. eapply Forall_impl; [exact Hl |]. intros s'. by apply seg_header_before.
Qed.

Lemma segs_header_after s l :
  Forall (seg_ok g) l -> Forall (fun a => seg_before a s) l ->
  Forall (fun a => header_before a s) l.
Proof.
  rewrite !Forall_forall. intros Hok Hb a Ha. apply seg_header_before; auto.
Qed.

(** A range that meets no segment splits the list. *)
Lemma segments_split l p n :
  segs_ok g l -> 0 < n -> (forall x, p <= x < p + n -> ~ Exists (in_segment x) l) ->
  exists l1 l2, l = l1 ++ l2 /\ Forall (fun s => seg_end s <= p) l1 /\
    Forall (fun s => p + n <= seg_base s) l2.
Proof.
  intros Hl Hn Hfree. induction l as [|s l IH]; [by exists [], [] |].
  apply segs_ok_cons in Hl as (Hs & Hl & Hb).
  destruct (decide (seg_end s <= p)) as [Hp | Hp].
  - destruct IH as (l1 & l2 & -> & H1 & H2); [done | |].
    { intros x Hx He. apply (Hfree x Hx). by right. }
    exists (s :: l1), l2. split_and!; [done | by constructor | done].
  - exists [], (s :: l). split_and!; [done | constructor |].
    assert (p + n <= seg_base s) as Hpn.
    { destruct (decide (p + n <= seg_base s)); [done | exfalso].
      destruct Hs as (_ & _ & Hsz & _ & _). unfold seg_end in *.
      apply (Hfree (Z.max p (seg_base s))); [lia |]. left. unfold in_segment, seg_end. lia. }
    constructor; [done |]. eapply Forall_impl; [done |].
    intros a. unfold seg_before, seg_end in *. destruct Hs as (_ & _ & Hsz & _ & _). lia.
Qed.

(** The searches of the tree on such a list. *)
Lemma find_after l1 l2 p k :
  Forall (fun s => seg_end s <= p) l1 -> Forall (seg_ok g) (l1 ++ l2) -> p < k ->
  List.find (fun s => seg_base s =? k) (l1 ++ l2) =
  List.find (fun s => seg_base s =? k) l2.
Proof.
  intros H1 Hok Hk. induction H1 as [|s l1 Hs _ IH]; [done |]. simpl in *.
  apply Forall_cons in Hok as [(_ & _ & Hsz & _ & _) Hok].
  destruct (Z.eqb_spec (seg_base s) k); [unfold seg_end in Hs; lia | auto].
Qed.

Lemma filter_before l1 l2 p k :
  Forall (fun s => seg_end s <= p) l1 -> Forall (seg_ok g) (l1 ++ l2) ->
  Forall (fun s => k <= seg_base s) l2 -> p <= k ->
  List.filter (fun s => seg_base s <? p) (l1 ++ l2) = l1.
Proof.
  intros H1 Hok H2 Hk. rewrite List.filter_app.
  apply Forall_app in Hok as [Hok _].
  assert (List.filter (fun s => seg_base s <? p) l2 = []) as ->.
  { clear -H2 Hk. induction H2 as [|s l Hs _ IH]; [done |]. simpl.
    destruct (Z.ltb_spec (seg_base s) p); [lia | done]. }
  rewrite app_nil_r. induction H1 as [|s l1 Hs H1 IH]; [done |]. simpl.
  apply Forall_cons in Hok as [(_ & _ & Hsz & _ & _) Hok].
  destruct (Z.ltb_spec (seg_base s) p); [by rewrite IH | unfold seg_end in Hs; lia].
Qed.

End Segments.

Section Headers.
Context {T : Type} `{SegmentTreeLaws T}.

Lemma length_MemorySegment_new s : length (MemorySegment_new s) = Z.to_nat sizeof_segment.
Proof.
  unfold MemorySegment_new. rewrite !length_app, !length_le_split, tree_link_length. done.
Qed.

Lemma write_segment_outside m s x : ~ in_header x s -> load8 (write_segment m s) x = load8 m x.
Proof.
  intros Hx. unfold write_segment. apply load8_store_bytes_out. rewrite length_MemorySegment_new.
  unfold in_header, sizeof_segment in *. lia.
Qed.

Lemma write_segment_header m s :
  load_bytes (write_segment m s) (seg_base s) (Z.to_nat sizeof_segment) = MemorySegment_new s.
Proof.
  unfold write_segment. rewrite <- (length_MemorySegment_new s). apply load_bytes_store_bytes.
  unfold MemorySegment_new.
  repeat (apply Forall_app; split); auto using le_split_bytes, tree_link_bytes.
Qed.

End Headers.

Lemma small_page_fits : sizeof_segment <= PAGE_SIZE_SMALL.
Proof. vm_compute. discriminate. Qed.
Lemma large_page_fits : sizeof_segment <= PAGE_SIZE_LARGE.
Proof. vm_compute. discriminate. Qed.

Section ArenaProofs.
Context {T : Type} `{SegmentTreeLaws T} (g : Z) (Hg : sizeof_segment <= g).

(** The bytes of free memory that an arena holds. *)
Definition arena_owns (t : T) (x : Z) : Prop := Exists (in_segment x) (segments t).

Definition arena_inv (t : T) (m : mem) : Prop := tree_rep t m /\ segs_ok g (segments t).

Lemma arena_frame t m m' :
  arena_inv t m -> (forall x, arena_owns t x -> load8 m' x = load8 m x) -> arena_inv t m'.
Proof.
  intros [Hr Hok] Hf. split; [| done]. apply (tree_frame t m); [done |].
  intros x s Hs Hx. apply Hf. apply Exists_exists. exists s. split; [done |].
  destruct Hok as [_ Hok]. rewrite Forall_forall in Hok. eauto using in_header_segment.
Qed.

(** What one page operation does to the memory that an arena owns. *)
Definition arena_takes (t : T) (m : mem) (p n : Z) (t' : T) (m' : mem) : Prop :=
  0 < p /\ (g | p) /\ p + n < 2 ^ 64 /\
  (forall x, p <= x < p + n -> arena_owns t x) /\
  arena_inv t' m' /\
  (forall x, arena_owns t' x <-> arena_owns t x /\ ~ p <= x < p + n) /\
  (forall x, ~ arena_owns t x -> load8 m' x = load8 m x).

Definition arena_gives (t : T) (m : mem) (p n : Z) (t' : T) (m' : mem) : Prop :=
  arena_inv t' m' /\
  (forall x, arena_owns t' x <-> arena_owns t x \/ p <= x < p + n) /\
  (forall x, ~ arena_owns t' x -> load8 m' x = load8 m x).

Lemma alloc_split t m s l :
  arena_inv t m -> segments t = s :: l -> g < seg_size s ->
  exists t' m', arena_alloc g t m = Ok (seg_base s, t', m') /\
    arena_takes t m (seg_base s) g t' m' /\
    (coalesced (segments t) -> coalesced (segments t')).
Proof.
  intros [Hr Hok] El Hsz. rewrite El in Hok. pose proof Hok as [_ Hall].
  apply segs_ok_cons in Hok as ((Hb & Hdb & Hsp & Hds & He) & Hl & Hbl).
  set (s' := Segment (seg_base s + g) (seg_size s - g)).
  assert (0 < g) as Hg0 by (unfold sizeof_segment in Hg; lia).
  assert (seg_ok g s') as Hs'.
  { unfold seg_ok, seg_end, s' in *; simpl. split_and!; try lia.
    - apply Z.divide_add_r; [done | apply Z.divide_refl].
    - apply Z.divide_sub_r; [done | apply Z.divide_refl]. }
  assert (segs_ok g (s' :: l)) as Hok'.
  { apply segs_ok_cons. split_and!; [done | done |]. eapply Forall_impl; [exact Hbl |].
    intros a. unfold seg_before, seg_end, s'; simpl. lia. }
  unfold arena_alloc. rewrite (tree_front t m Hr), El. cbn [head].
  destruct (Z.ltb_spec (seg_size s) g); [lia |]. destruct (Z.ltb_spec g (seg_size s)); [| lia].
  unfold segment_split. unfold sizeof_segment, seg_end in *. rewrite !u64_small by lia. fold s'.
  assert (header_before s s') as Hss' by (unfold header_before, s', sizeof_segment; simpl; lia).
  destruct (tree_replace t (write_segment m s') [] s l s') as (t' & m' & -> & Hr' & El' & Hm');
    [| done | apply write_segment_header | done | constructor |
     apply (segs_header_before g Hg); [done | by apply segs_ok_cons in Hok' as (_ & _ & ?)] |].
  { apply (tree_frame t m); [done |]. intros x a Ha Hx. apply write_segment_outside.
    rewrite El in Ha. apply elem_of_cons in Ha as [-> | Ha].
    - unfold in_header, header_before in *. lia.
    - apply segs_ok_cons in Hok' as (_ & _ & Hf). rewrite Forall_forall in Hf.
      pose proof (seg_ok_page g Hg s' Hs'). specialize (Hf a Ha).
      unfold in_header, seg_before, seg_end, sizeof_segment in *. lia. }
  exists t', m'. split; [done |]. unfold arena_takes, arena_inv, arena_owns.
  rewrite El', El. cbn [app].
  split; [| rewrite !coalesced_cons; unfold seg_apart, seg_end, s'; simpl; intros [? Hf];
    split; [done | eapply Forall_impl; [exact Hf |]; simpl; intros; lia]].
  assert (forall x, Exists (in_segment x) l -> seg_end s <= x) as Hafter.
  { intros x. rewrite Exists_exists. intros (a & Ha & Hx). rewrite Forall_forall in Hbl.
    specialize (Hbl a Ha). unfold seg_before, in_segment in *. lia. }
  split_and!; try done; [unfold seg_end in *; lia | | |].
  - intros x Hx. left. unfold in_segment, seg_end. lia.
  - intros x. rewrite !Exists_cons. specialize (Hafter x).
    unfold in_segment, seg_end, s' in *; simpl. intuition lia.
  - intros x Hx. assert (~ Exists (in_header x) (s :: s' :: l)) as Hn.
    { rewrite !Exists_cons. intros [Hh | [Hh | Hh]]; apply Hx.
      - left. by apply (in_header_segment g Hg).
      - left. apply (in_header_segment g Hg) in Hh; [| done].
        unfold in_segment, seg_end, s' in *; simpl in *. lia.
      - right. apply (in_headers_segments g Hg); [by apply Forall_cons in Hall as [_ ?] | done]. }
    rewrite Hm' by done. apply write_segment_outside. intros Hh. apply Hn. by right; left.
Qed.

Lemma alloc_whole t m s l :
  arena_inv t m -> segments t = s :: l -> seg_size s = g ->
  exists t' m', arena_alloc g t m = Ok (seg_base s, t', m') /\
    arena_takes t m (seg_base s) g t' m' /\
    (coalesced (segments t) -> coalesced (segments t')).
Proof.
  intros [Hr Hok] El Hsz. rewrite El in Hok. pose proof Hok as [_ Hall].
  apply segs_ok_cons in Hok as ((Hb & Hdb & Hsp & Hds & He) & Hl & Hbl).
  unfold arena_alloc. rewrite (tree_front t m Hr), El. cbn [head].
  destruct (Z.ltb_spec (seg_size s) g); [lia |]. destruct (Z.ltb_spec g (seg_size s)); [lia |].
  destruct (tree_remove t m [] s l Hr El) as (t' & m' & -> & Hr' & El' & Hm').
  exists t', m'. split; [done |]. unfold arena_takes, arena_inv, arena_owns. rewrite El', El.
  split; [| rewrite coalesced_cons; by intros [? _]].
  cbn [app] in *. unfold seg_end in *. split_and!; try done; [lia | | |].
  - intros x Hx. left. unfold in_segment, seg_end. lia.
  - intros x. rewrite Exists_cons.
    assert (Exists (in_segment x) l -> seg_base s + g <= x) as Hafter.
    { rewrite Exists_exists. intros (a & Ha & Hx). rewrite Forall_forall in Hbl.
      specialize (Hbl a Ha). unfold seg_before, in_segment, seg_end in *. lia. }
    unfold in_segment, seg_end. intuition lia.
  - intros x Hx. apply Hm'. intros Hh. apply Hx. by apply (in_headers_segments g Hg).
Qed.

(** Allocation of one page fails only when the arena is empty. *)
Lemma arena_alloc_spec t m :
  arena_inv t m ->
  (segments t = [] /\ arena_alloc g t m = Ok (0, t, m)) \/
  exists p t' m', arena_alloc g t m = Ok (p, t', m') /\ arena_takes t m p g t' m' /\
    (coalesced (segments t) -> coalesced (segments t')).
Proof.
  intros Hinv. destruct (segments t) as [|s l] eqn:El.
  - left. split; [done |]. unfold arena_alloc. destruct Hinv as [Hr _].
    by rewrite (tree_front t m Hr), El.
  - right. exists (seg_base s). rewrite <- El.
    assert (g <= seg_size s) as Hle.
    { destruct Hinv as [_ Hok]. rewrite El in Hok. apply segs_ok_cons in Hok as (? & _ & _).
      by apply seg_ok_page. }
    destruct (decide (seg_size s = g)).
    + by apply alloc_whole with l.
    + apply alloc_split with l; [done | done | lia].
Qed.

(** A range about to be freed: pages that lie between two parts of the list. *)
Record hole (t : T) (m : mem) (l1 l2 : list MemorySegment) (p n : Z) : Prop := {
  hole_rep : tree_rep t m;
  hole_segments : segments t = l1 ++ l2;
  hole_ok : segs_ok g (l1 ++ l2);
  hole_before : Forall (fun s => seg_end s <= p) l1;
  hole_after : Forall (fun s => p + n <= seg_base s) l2;
  hole_base : 0 < p /\ (g | p);
  hole_size : 0 < n /\ (g | n);
  hole_end : p + n < 2 ^ 64
}.

Definition covered (l1 l2 : list MemorySegment) (p n x : Z) : Prop :=
  p <= x < p + n \/ Exists (in_segment x) (l1 ++ l2).

Lemma remove_segment t m l1 s l2 :
  tree_rep t m -> segments t = l1 ++ s :: l2 -> segs_ok g (l1 ++ s :: l2) ->
  exists t' m', cursor_remove (seg_base s) t m = (t', m') /\ tree_rep t' m' /\
    segments t' = l1 ++ l2 /\ segs_ok g (l1 ++ l2) /\
    (forall x, ~ Exists (in_segment x) (l1 ++ s :: l2) -> load8 m' x = load8 m x).
Proof.
  intros Hr El Hok. destruct (tree_remove t m l1 s l2 Hr El) as (t' & m' & E & Hr' & El' & Hm).
  exists t', m'. split_and!; try done.
  - apply segs_ok_app in Hok as (H1 & H2 & H12). apply segs_ok_cons in H2 as (_ & H2 & _).
    apply segs_ok_app. split_and!; [done | done |]. eapply Forall_impl; [exact H12 |].
    intros a Ha. by apply Forall_cons in Ha as [_ ?].
  - intros x Hx. apply Hm. intros Hh. apply Hx.
    apply (in_headers_segments g Hg); [by destruct Hok | done].
Qed.

Lemma coalesce_next_spec t m l1 l2 p n :
  hole t m l1 l2 p n ->
  exists n' t' m' l2', coalesce_next p n t m = (n', t', m') /\ hole t' m' l1 l2' p n' /\
    (coalesced (l1 ++ l2) -> coalesced (l1 ++ l2') /\ Forall (fun s => p + n' < seg_base s) l2') /\
    (forall x, covered l1 l2' p n' x <-> covered l1 l2 p n x) /\
    (forall x, ~ Exists (in_segment x) (l1 ++ l2) -> load8 m' x = load8 m x).
Proof.
  intros [Hr El Hok H1 H2 [Hp0 Hdp] [Hn0 Hdn] He]. unfold coalesce_next.
  rewrite u64_small, (tree_find _ t m Hr), El by lia.
  rewrite (find_after g Hg l1 l2 p (p + n) H1); [| by destruct Hok | lia].
  destruct (List.find _ l2) as [nx |] eqn:Ef.
  2: { exists n, t, m, l2. split_and!; [done | by constructor | | done | done].
       intros Hc. split; [done |]. rewrite Forall_forall in H2 |- *. intros a Ha.
       specialize (H2 a Ha). apply list_elem_of_In in Ha. apply (List.find_none _ _ Ef) in Ha.
       apply Z.eqb_neq in Ha. lia. }
  apply List.find_some in Ef as [Hin Hb]. rewrite Z.eqb_sym in Hb. rewrite Hb.
  apply Z.eqb_eq in Hb.
  destruct l2 as [|s l2]; [done |].
  assert (s = nx) as <-.
  { apply segs_ok_app in Hok as (_ & Hok & _). apply segs_ok_cons in Hok as (Hs & _ & Hf).
    destruct Hin as [-> | Hin]; [done |]. apply list_elem_of_In in Hin.
    rewrite Forall_forall in Hf. specialize (Hf nx Hin).
    apply Forall_cons in H2 as [H2 _]. destruct Hs as (_ & _ & Hsz & _).
    unfold seg_before, seg_end in Hf. lia. }
  destruct (remove_segment t m l1 s l2 Hr El Hok) as (t' & m' & -> & Hr' & El' & Hok' & Hm).
  apply segs_ok_app in Hok as (_ & Hok & _).
  apply segs_ok_cons in Hok as ((Hb0 & Hdb & Hsz & Hds & Hse) & _ & Hf).
  unfold seg_end in Hse. rewrite u64_small by lia.
  exists (n + seg_size s), t', m', l2. split_and!; [done | | | | done].
  - constructor; try done; [| | lia].
    + eapply Forall_impl; [exact Hf |]. intros a. unfold seg_before, seg_end. lia.
    + split; [lia | by apply Z.divide_add_r].
  - intros Hc. apply coalesced_app in Hc as (Hc1 & Hc2 & Hc12).
    apply coalesced_cons in Hc2 as [Hc2 Hcs]. rewrite coalesced_app. split_and!; [done | done | |].
    + eapply Forall_impl; [exact Hc12 |]. intros a Ha. by apply Forall_cons in Ha as [_ ?].
    + eapply Forall_impl; [exact Hcs |]. intros a. unfold seg_apart, seg_end. simpl. lia.
  - intros x. unfold covered. rewrite !Exists_app, Exists_cons.
    change (in_segment x s) with (seg_base s <= x < seg_base s + seg_size s). intuition lia.
Qed.

Lemma coalesce_prev_spec t m l1 l2 p n :
  hole t m l1 l2 p n ->
  exists p' n' t' m' l1', coalesce_prev p n t m = (p', n', t', m') /\ hole t' m' l1' l2 p' n' /\
    (coalesced (l1 ++ l2) -> coalesced (l1' ++ l2) /\ Forall (fun s => seg_end s < p') l1') /\
    p' + n' = p + n /\
    (forall x, covered l1' l2 p' n' x <-> covered l1 l2 p n x) /\
    (forall x, ~ Exists (in_segment x) (l1 ++ l2) -> load8 m' x = load8 m x).
Proof.
  intros [Hr El Hok H1 H2 [Hp0 Hdp] [Hn0 Hdn] He]. unfold coalesce_prev.
  rewrite (tree_upper_bound _ t m Hr), El.
  rewrite (filter_before g Hg l1 l2 p (p + n) H1); [| by destruct Hok | done | lia].
  destruct l1 as [|s l1 _] using rev_ind.
  { exists p, n, t, m, []. split_and!; [done | by constructor | | done | done | done].
    intros Hc. split; [done | constructor]. }
  rewrite last_snoc. rewrite <- app_assoc in El, Hok. cbn [app] in El, Hok.
  assert (seg_ok g s) as Hs.
  { destruct Hok as [_ Hok]. apply Forall_app in Hok as [_ Hok]. by apply Forall_cons in Hok as [? _]. }
  apply Forall_app in H1 as [H1 Hsp]. apply Forall_cons in Hsp as [Hsp _].
  pose proof Hs as (Hb & Hdb & Hsz & Hds & Hse). unfold seg_end in Hsp, Hse.
  rewrite u64_small by lia. destruct (Z.eqb_spec (seg_base s + seg_size s) p) as [Heq | Hne].
  2: { exists p, n, t, m, (l1 ++ [s]). rewrite <- app_assoc. cbn [app].
       split_and!; [done | | | done | done | done].
       2: { intros Hc. split; [done |]. apply Forall_app. apply coalesced_app in Hc as (_ & _ & Hc).
            split; [| constructor; [unfold seg_end; lia | constructor]].
            eapply Forall_impl; [exact Hc |]. intros a Ha. apply Forall_cons in Ha as [Ha _].
            unfold seg_apart in Ha. lia. }
       constructor; try done.
       - by rewrite <- app_assoc.
       - by rewrite <- app_assoc.
       - apply Forall_app. split; [done |]. apply Forall_singleton. unfold seg_end. lia. }
  destruct (remove_segment t m l1 s l2 Hr El Hok) as (t' & m' & -> & Hr' & El' & Hok' & Hm).
  apply segs_ok_app in Hok as (_ & _ & H12). rewrite u64_small by lia.
  exists (seg_base s), (n + seg_size s), t', m', l1. rewrite <- app_assoc. cbn [app].
  split_and!; [done | | | lia | | done].
  - constructor; try done; [| | | lia].
    + eapply Forall_impl; [exact H12 |]. intros a Ha. by apply Forall_cons in Ha as [? _].
    + eapply Forall_impl; [exact H2 |]. intros a. simpl. lia.
    + split; [lia | by apply Z.divide_add_r].
  - intros Hc. apply coalesced_app in Hc as (Hc1 & Hc2 & Hc12).
    apply coalesced_cons in Hc2 as [Hc2 Hcs]. rewrite coalesced_app.
    split_and!; [done | done | |]; (eapply Forall_impl; [exact Hc12 |]);
      intros a Ha; by apply Forall_cons in Ha as [? ?].
  - intros x. unfold covered. rewrite !Exists_app, Exists_cons, Exists_nil.
    change (in_segment x s) with (seg_base s <= x < seg_base s + seg_size s). intuition lia.
Qed.

(** Linking a new segment between two parts of the list. *)
Lemma add_segment_spec t m l1 s l2 :
  tree_rep t m -> segments t = l1 ++ l2 -> segs_ok g (l1 ++ l2) -> seg_ok g s ->
  Forall (fun a => seg_before a s) l1 -> Forall (seg_before s) l2 ->
  exists t' m', add_to_freelist s t (write_segment m s) = (t', m') /\ tree_rep t' m' /\
    segments t' = l1 ++ s :: l2 /\ segs_ok g (l1 ++ s :: l2) /\
    (forall x, ~ Exists (in_segment x) (l1 ++ s :: l2) -> load8 m' x = load8 m x).
Proof.
  intros Hr El Hok Hs H1 H2. apply segs_ok_app in Hok as (Hok1 & Hok2 & Hok12).
  assert (segs_ok g (l1 ++ s :: l2)) as Hok3.
  { apply segs_ok_app. split_and!; [done | by apply segs_ok_cons |].
    apply Forall_forall. intros a Ha. rewrite Forall_forall in H1, Hok12.
    constructor; [by apply H1 | by apply Hok12]. }
  destruct (tree_add t (write_segment m s) l1 s l2) as (t' & m' & E & Hr' & El' & Hm).
  { apply (tree_frame t m); [done |]. intros x a Ha Hx. apply write_segment_outside.
    pose proof (seg_ok_page g Hg s Hs) as Hgs. rewrite El in Ha.
    rewrite Forall_forall in H1, H2. apply elem_of_app in Ha as [Ha | Ha].
    - destruct Hok1 as [_ Hok1]. rewrite Forall_forall in Hok1.
      apply (in_header_segment g Hg) in Hx; [| auto]. specialize (H1 a Ha).
      unfold in_header, in_segment, seg_before in *. lia.
    - specialize (H2 a Ha). unfold in_header, seg_before, seg_end in *. lia. }
  { done. }
  { apply write_segment_header. }
  { apply (segs_header_after g Hg); [by destruct Hok1 | done]. }
  { by apply (segs_header_before g Hg). }
  exists t', m'. split_and!; try done. intros x Hx. rewrite Hm.
  - apply write_segment_outside. intros Hh. apply Hx, Exists_app. right. left.
    by apply (in_header_segment g Hg).
  - intros Hh. apply Hx, (in_headers_segments g Hg); [by destruct Hok3 | done].
Qed.

(** Adding a span that the arena does not hold gives it exactly those bytes. *)
Lemma add_span_spec t m s :
  arena_inv t m -> seg_ok g s -> (forall x, in_segment x s -> ~ arena_owns t x) ->
  exists t' m', add_to_freelist s t (write_segment m s) = (t', m') /\
    arena_gives t m (seg_base s) (seg_size s) t' m'.
Proof.
  intros [Hr Hok] Hs Hfree.
  destruct (segments_split g Hg (segments t) (seg_base s) (seg_size s) Hok)
    as (l1 & l2 & El & H1 & H2); [by destruct Hs as (_ & _ & ? & _) | done |].
  rewrite El in Hok.
  destruct (add_segment_spec t m l1 s l2 Hr El Hok Hs H1 H2) as (t' & m' & -> & Hr' & El' & Hok' & Hm).
  exists t', m'. split; [done |]. unfold arena_gives, arena_inv, arena_owns. rewrite El', El.
  split_and!; [done | done | | done].
  intros x. rewrite !Exists_app, Exists_cons. unfold in_segment at 2, seg_end. tauto.
Qed.

(** Freeing pages that the arena does not hold gives it exactly those bytes. *)
Lemma arena_free_spec t m p n :
  arena_inv t m -> 0 < p -> (g | p) -> 0 < n -> (g | n) -> p + n < 2 ^ 64 ->
  (forall x, p <= x < p + n -> ~ arena_owns t x) ->
  exists t' m', arena_free p n t m = (t', m') /\ arena_gives t m p n t' m' /\
    (coalesced (segments t) -> coalesced (segments t')).
Proof.
  intros [Hr Hok] Hp Hdp Hn Hdn He Hfree.
  destruct (segments_split g Hg (segments t) p n Hok Hn Hfree) as (l1 & l2 & El & H1 & H2).
  rewrite El in Hok. assert (hole t m l1 l2 p n) as Hh by (by constructor).
  unfold arena_free.
  destruct (coalesce_next_spec _ _ _ _ _ _ Hh) as (n1 & t1 & m1 & l2' & -> & Hh1 & Hco1 & Hc1 & Hm1).
  destruct (coalesce_prev_spec _ _ _ _ _ _ Hh1) as (p2 & n2 & t2 & m2 & l1' & -> & Hh2 & Hco2 & Hpn & Hc2 & Hm2).
  destruct Hh2 as [Hr2 El2 Hok2 H12 H22 Hp2 Hn2 He2].
  destruct (add_segment_spec t2 m2 l1' (Segment p2 n2) l2' Hr2 El2 Hok2)
    as (t3 & m3 & E3 & Hr3 & El3 & Hok3 & Hm3); [unfold seg_ok, seg_end; simpl; tauto | done | done |].
  exists t3, m3. split; [done |]. unfold arena_gives, arena_inv, arena_owns. rewrite El3, El.
  split.
  2: { intros Hc. destruct (Hco1 Hc) as [Hc' Ha]. destruct (Hco2 Hc') as [Hc'' Hb].
       apply coalesced_app in Hc'' as (? & ? & Hf). apply coalesced_app.
       split_and!; [done | apply coalesced_cons; split; [done |] |].
       - eapply Forall_impl; [exact Ha |]. intros a. unfold seg_apart, seg_end. simpl. lia.
       - rewrite Forall_forall in Hf, Hb. apply Forall_forall. intros a Hin.
         constructor; [by apply Hb | by apply Hf]. }
  assert (forall x, Exists (in_segment x) (l1' ++ Segment p2 n2 :: l2') <-> covered l1 l2 p n x) as Hcov.
  { intros x. rewrite <- Hc1, <- Hc2. unfold covered. rewrite !Exists_app, Exists_cons.
    change (in_segment x (Segment p2 n2)) with (p2 <= x < p2 + n2). tauto. }
  split_and!; [done | done | intros x; rewrite Hcov; unfold covered; tauto |].
  intros x Hx. rewrite Hm3 by done.
  assert (~ covered l1 l2 p n x) as Hnc by (by rewrite <- Hcov).
  rewrite Hm2; [apply Hm1 |]; intros He'; apply Hnc.
  - by right.
  - apply Hc1. by right.
Qed.

End ArenaProofs.

(** ** The interface of the page allocator *)

Class PageAllocator (A : Type) := {
  page_alloc_small : A -> mem -> outcome (Z * A * mem);
  page_free_small : Z -> A -> mem -> A * mem;
  page_alloc_large : A -> mem -> outcome (Z * A * mem);
  page_free_large : Z -> A -> mem -> A * mem
}.

(** [pa_own a x]: the byte at [x] is free memory of the allocator;
    [pa_empty a]: there is no free small page. *)
Class PageAllocatorLaws (A : Type) `{PageAllocator A} := {
  pa_own : A -> Z -> Prop;
  pa_empty : A -> Prop;
  pa_rep : A -> mem -> Prop;
  pa_frame a m m' :
    pa_rep a m -> (forall x, pa_own a x -> load8 m' x = load8 m x) -> pa_rep a m';
  pa_alloc_small a m :
    pa_rep a m ->
    (pa_empty a /\ page_alloc_small a m = Ok (0, a, m)) \/
    exists p a' m', page_alloc_small a m = Ok (p, a', m') /\
      0 < p /\ (PAGE_SIZE_SMALL | p) /\ p + PAGE_SIZE_SMALL < 2 ^ 64 /\
      (forall x, p <= x < p + PAGE_SIZE_SMALL -> pa_own a x) /\
      pa_rep a' m' /\
      (forall x, pa_own a' x <-> pa_own a x /\ ~ p <= x < p + PAGE_SIZE_SMALL) /\
      (forall x, ~ pa_own a x -> load8 m' x = load8 m x);
  pa_alloc_empty a m : pa_rep a m -> pa_empty a -> page_alloc_small a m = Ok (0, a, m);
  pa_free_small p a m :
    pa_rep a m -> 0 < p -> (PAGE_SIZE_SMALL | p) -> p + PAGE_SIZE_SMALL < 2 ^ 64 ->
    (forall x, p <= x < p + PAGE_SIZE_SMALL -> ~ pa_own a x) ->
    exists a' m', page_free_small p a m = (a', m') /\ pa_rep a' m' /\
      (forall x, pa_own a' x <-> pa_own a x \/ p <= x < p + PAGE_SIZE_SMALL) /\
      (forall x, ~ pa_own a' x -> load8 m' x = load8 m x);
  pa_alloc_large a m :
    pa_rep a m ->
    page_alloc_large a m = Ok (0, a, m) \/
    exists p a' m', page_alloc_large a m = Ok (p, a', m') /\
      0 < p /\ (PAGE_SIZE_LARGE | p) /\ p + PAGE_SIZE_LARGE < 2 ^ 64 /\
      (forall x, p <= x < p + PAGE_SIZE_LARGE -> pa_own a x) /\
      pa_rep a' m' /\
      (forall x, pa_own a' x <-> pa_own a x /\ ~ p <= x < p + PAGE_SIZE_LARGE) /\
      (forall x, ~ pa_own a x -> load8 m' x = load8 m x)
}.

#[global] Instance arena_allocator `{SegmentTree T} : PageAllocator (arenas T) := {
  page_alloc_small := arena_page_alloc_small;
  page_free_small := arena_page_free_small;
  page_alloc_large := arena_page_alloc_large;
  page_free_large := arena_page_free_large
}.

Section ArenaAllocator.
Context {T : Type} `{SegmentTreeLaws T}.

Definition arenas_own (a : arenas T) (x : Z) : Prop :=
  arena_owns (small_arena a) x \/ arena_owns (large_arena a) x.

Record arenas_rep (a : arenas T) (m : mem) : Prop := {
  arenas_small : arena_inv PAGE_SIZE_SMALL (small_arena a) m;
  arenas_large : arena_inv PAGE_SIZE_LARGE (large_arena a) m;
  arenas_disjoint x : arena_owns (small_arena a) x -> arena_owns (large_arena a) x -> False
}.

Lemma arenas_frame a m m' :
  arenas_rep a m -> (forall x, arenas_own a x -> load8 m' x = load8 m x) -> arenas_rep a m'.
Proof.
  intros [Hs Hl Hd] Hf. split; [| | done].
  - apply (arena_frame _ small_page_fits _ m); [done |]. intros x Hx. apply Hf. by left.
  - apply (arena_frame _ large_page_fits _ m); [done |]. intros x Hx. apply Hf. by right.
Qed.

Lemma arenas_alloc_small a m :
  arenas_rep a m ->
  (segments (small_arena a) = [] /\ arena_page_alloc_small a m = Ok (0, a, m)) \/
  exists p a' m', arena_page_alloc_small a m = Ok (p, a', m') /\
    0 < p /\ (PAGE_SIZE_SMALL | p) /\ p + PAGE_SIZE_SMALL < 2 ^ 64 /\
    (forall x, p <= x < p + PAGE_SIZE_SMALL -> arenas_own a x) /\
    arenas_rep a' m' /\
    (forall x, arenas_own a' x <-> arenas_own a x /\ ~ p <= x < p + PAGE_SIZE_SMALL) /\
    (forall x, ~ arenas_own a x -> load8 m' x = load8 m x).
Proof.
  intros [Hs Hl Hd]. unfold arena_page_alloc_small.
  destruct (arena_alloc_spec _ small_page_fits _ _ Hs) as [[E ->] | (p & t & m' & -> & Ht & _)].
  { left. by destruct a. }
  destruct Ht as (Hp & Hdp & He & Hin & Hinv & Hown & Hm).
  right. exists p, (Arenas t (large_arena a)), m'. unfold arenas_own. cbn [small_arena large_arena].
  split_and!; try done.
  - intros x Hx. left. auto.
  - split; [done | |]; cbn [small_arena large_arena].
    + apply (arena_frame _ large_page_fits _ m); [done |]. intros x Hx. apply Hm.
      intros Hx'. by apply (Hd x).
    + intros x Hx Hx'. apply Hown in Hx as [Hx _]. by apply (Hd x).
  - intros x. rewrite Hown. split; [| tauto]. intros [? | Hx]; [tauto |]. split; [tauto |].
    intros Hr. by apply (Hd x); [apply Hin |].
  - intros x Hx. apply Hm. tauto.
Qed.

Lemma arenas_alloc_large a m :
  arenas_rep a m ->
  arena_page_alloc_large a m = Ok (0, a, m) \/
  exists p a' m', arena_page_alloc_large a m = Ok (p, a', m') /\
    0 < p /\ (PAGE_SIZE_LARGE | p) /\ p + PAGE_SIZE_LARGE < 2 ^ 64 /\
    (forall x, p <= x < p + PAGE_SIZE_LARGE -> arenas_own a x) /\
    arenas_rep a' m' /\
    (forall x, arenas_own a' x <-> arenas_own a x /\ ~ p <= x < p + PAGE_SIZE_LARGE) /\
    (forall x, ~ arenas_own a x -> load8 m' x = load8 m x).
Proof.
  intros [Hs Hl Hd]. unfold arena_page_alloc_large.
  destruct (arena_alloc_spec _ large_page_fits _ _ Hl) as [[E ->] | (p & t & m' & -> & Ht & _)].
  { left. by destruct a. }
  destruct Ht as (Hp & Hdp & He & Hin & Hinv & Hown & Hm).
  right. exists p, (Arenas (small_arena a) t), m'. unfold arenas_own. cbn [small_arena large_arena].
  split_and!; try done.
  - intros x Hx. right. auto.
  - split; [| done |]; cbn [small_arena large_arena].
    + apply (arena_frame _ small_page_fits _ m); [done |]. intros x Hx. apply Hm.
      intros Hx'. by apply (Hd x).
    + intros x Hx Hx'. apply Hown in Hx' as [Hx' _]. by apply (Hd x).
  - intros x. rewrite Hown. split; [| tauto]. intros [Hx | ?]; [| tauto]. split; [tauto |].
    intros Hr. by apply (Hd x); [| apply Hin].
  - intros x Hx. apply Hm. tauto.
Qed.

Lemma arenas_free_small p a m :
  arenas_rep a m -> 0 < p -> (PAGE_SIZE_SMALL | p) -> p + PAGE_SIZE_SMALL < 2 ^ 64 ->
  (forall x, p <= x < p + PAGE_SIZE_SMALL -> ~ arenas_own a x) ->
  exists a' m', arena_page_free_small p a m = (a', m') /\ arenas_rep a' m' /\
    (forall x, arenas_own a' x <-> arenas_own a x \/ p <= x < p + PAGE_SIZE_SMALL) /\
    (forall x, ~ arenas_own a' x -> load8 m' x = load8 m x).
Proof.
  intros [Hs Hl Hd] Hp Hdp He Hfree. unfold arena_page_free_small.
  destruct (arena_free_spec _ small_page_fits (small_arena a) m p PAGE_SIZE_SMALL)
    as (t & m' & -> & (Hinv & Hown & Hm) & _); try done.
  { intros x Hx Ho. apply (Hfree x Hx). by left. }
  exists (Arenas t (large_arena a)), m'. unfold arenas_own. cbn [small_arena large_arena].
  assert (forall x, arena_owns t x -> arena_owns (large_arena a) x -> False) as Hd'.
  { intros x Hx Hx'. apply Hown in Hx as [Hx | Hx]; [by apply (Hd x) |].
    apply (Hfree x Hx). by right. }
  split_and!; [done | | |].
  - split; [done | | done]. apply (arena_frame _ large_page_fits _ m); [done |].
    intros x Hx. apply Hm. intros Hx'. by apply (Hd' x).
  - intros x. rewrite Hown. tauto.
  - intros x Hx. apply Hm. tauto.
Qed.

(** Giving a span to one of the arenas keeps the other one. *)
Lemma arenas_add_small a m start last :
  arenas_rep a m -> seg_ok PAGE_SIZE_SMALL (Segment start (last - start)) ->
  (forall x, start <= x < last -> ~ arenas_own a x) ->
  exists a' m', memory_add_span_small start last a m = (a', m') /\ arenas_rep a' m' /\
    (forall x, arenas_own a' x <-> arenas_own a x \/ start <= x < last) /\
    (forall x, ~ arenas_own a' x -> load8 m' x = load8 m x).
Proof.
  intros [Hs Hl Hd] Hok Hfree. unfold memory_add_span_small.
  pose proof Hok as (? & _ & ? & _ & Hse). unfold seg_end in Hse; cbn [seg_base seg_size] in *.
  rewrite u64_small by lia.
  destruct (add_span_spec _ small_page_fits (small_arena a) m _ Hs Hok)
    as (t & m' & -> & Hinv & Hown & Hm).
  { intros x Hx Ho. apply (Hfree x); [unfold in_segment, seg_end in Hx; simpl in Hx; lia | by left]. }
  cbn [seg_base seg_size] in *.
  assert (forall x, arena_owns t x -> arena_owns (large_arena a) x -> False) as Hd'.
  { intros x Hx Hx'. apply Hown in Hx as [Hx | Hx]; [by apply (Hd x) |].
    apply (Hfree x); [lia | by right]. }
  exists (Arenas t (large_arena a)), m'. unfold arenas_own. cbn [small_arena large_arena].
  split_and!; [done | | |].
  - split; [done | | done]. apply (arena_frame _ large_page_fits _ m); [done |].
    intros x Hx. apply Hm. intros Hx'. by apply (Hd' x).
  - intros x. rewrite Hown. replace (start + (last - start)) with last by lia. tauto.
  - intros x Hx. apply Hm. tauto.
Qed.

Lemma arenas_add_large a m start last :
  arenas_rep a m -> seg_ok PAGE_SIZE_LARGE (Segment start (last - start)) ->
  (forall x, start <= x < last -> ~ arenas_own a x) ->
  exists a' m', memory_add_span_large start last a m = (a', m') /\ arenas_rep a' m' /\
    (forall x, arenas_own a' x <-> arenas_own a x \/ start <= x < last) /\
    (forall x, ~ arenas_own a' x -> load8 m' x = load8 m x).
Proof.
  intros [Hs Hl Hd] Hok Hfree. unfold memory_add_span_large.
  pose proof Hok as (? & _ & ? & _ & Hse). unfold seg_end in Hse; cbn [seg_base seg_size] in *.
  rewrite u64_small by lia.
  destruct (add_span_spec _ large_page_fits (large_arena a) m _ Hl Hok)
    as (t & m' & -> & Hinv & Hown & Hm).
  { intros x Hx Ho. apply (Hfree x); [unfold in_segment, seg_end in Hx; simpl in Hx; lia | by right]. }
  cbn [seg_base seg_size] in *.
  assert (forall x, arena_owns (small_arena a) x -> arena_owns t x -> False) as Hd'.
  { intros x Hx Hx'. apply Hown in Hx' as [Hx' | Hx']; [by apply (Hd x) |].
    apply (Hfree x); [lia | by left]. }
  exists (Arenas (small_arena a) t), m'. unfold arenas_own. cbn [small_arena large_arena].
  split_and!; [done | | |].
  - split; [| done | done]. apply (arena_frame _ small_page_fits _ m); [done |].
    intros x Hx. apply Hm. intros Hx'. by apply (Hd' x).
  - intros x. rewrite Hown. replace (start + (last - start)) with last by lia. tauto.
  - intros x Hx. apply Hm. tauto.
Qed.

#[export] Instance arena_allocator_laws : PageAllocatorLaws (arenas T).
Proof.
  refine {| pa_own := arenas_own; pa_rep := arenas_rep;
            pa_empty := fun a => segments (small_arena a) = [] |}.
  - exact arenas_frame.
  - exact arenas_alloc_small.
  - intros a m [[Hr _] _ _] He. simpl. unfold arena_page_alloc_small, arena_alloc.
    rewrite (tree_front _ _ Hr), He. simpl. by destruct a.
  - exact arenas_free_small.
  - exact arenas_alloc_large.
Defined.

End ArenaAllocator.
