(* ===== verification/PageAllocProof.v ===== *)
(** * Properties of the page allocator

    The tree library as a sorted list, and the theorems on the arenas: taking
    and returning pages, the round trip, and the registration of memory spans. *)

From S2P Require Import Prelude Align Mem PageAlloc.
From Stdlib Require Import Sorting.Sorted.

(** ** A sorted list satisfies the laws of the tree *)

Definition list_tree := list MemorySegment.

Fixpoint insert_sorted (s : MemorySegment) (l : list MemorySegment) : list MemorySegment :=
  match l with
  | [] => [s]
  | a :: l => if seg_base a <? seg_base s then a :: insert_sorted s l else s :: a :: l
  end.

#[global] Instance list_tree_ops : SegmentTree list_tree := {
  RBTree_new := [];
  RBTreeLink_new := replicate 24 0;
  front_mut l m := head l;
  find_mut k l m := List.find (fun s => seg_base s =? k) l;
  upper_bound_mut k l m := last (List.filter (fun s => seg_base s <? k) l);
  cursor_remove k l m := (List.filter (fun s => negb (seg_base s =? k)) l, m);
  cursor_replace_with k s' l m :=
    if existsb (fun s => seg_base s =? k) l
    then Some (map (fun s => if seg_base s =? k then s' else s) l, m) else None;
  tree_insert s l m := (insert_sorted s l, m)
}.

Definition header_written (m : mem) (s : MemorySegment) : Prop :=
  load_bytes m (seg_base s) (Z.to_nat sizeof_segment) = MemorySegment_new s.

Definition list_tree_rep (l : list_tree) (m : mem) : Prop :=
  StronglySorted header_before l /\ Forall (header_written m) l.

Lemma filter_all {A} (f : A -> bool) l :
  Forall (fun a => f a = true) l -> List.filter f l = l.
Proof. induction 1 as [|a l Ha _ IH]; simpl; [done | by rewrite Ha, IH]. Qed.

Lemma map_unchanged {A} (f : A -> A) l : Forall (fun a => f a = a) l -> map f l = l.
Proof. induction 1 as [|a l Ha _ IH]; simpl; [done | by rewrite Ha, IH]. Qed.

(** The other segments of a sorted list have another base address. *)
Lemma other_bases l1 s l2 :
  StronglySorted header_before (l1 ++ s :: l2) ->
  Forall (fun a => (seg_base a =? seg_base s) = false) l1 /\
  Forall (fun a => (seg_base a =? seg_base s) = false) l2.
Proof.
  intros Hs. apply StronglySorted_app_iff in Hs as (_ & Hs & H12).
  inversion_clear Hs as [|? ? _ H2]. split.
  - eapply Forall_impl; [exact H12 |]. intros a Ha. apply Forall_cons in Ha as [Ha _].
    unfold header_before, sizeof_segment in Ha. apply Z.eqb_neq. lia.
  - eapply Forall_impl; [exact H2 |]. intros a Ha.
    unfold header_before, sizeof_segment in Ha. apply Z.eqb_neq. lia.
Qed.

Lemma insert_sorted_spec l1 s l2 :
  Forall (fun a => header_before a s) l1 -> Forall (header_before s) l2 ->
  insert_sorted s (l1 ++ l2) = l1 ++ s :: l2.
Proof.
  intros H1 H2. induction H1 as [|a l1 Ha _ IH]; simpl.
  - destruct H2 as [|b l2 Hb _]; simpl; [done |]. unfold header_before, sizeof_segment in Hb.
    destruct (Z.ltb_spec (seg_base b) (seg_base s)); [lia | done].
  - unfold header_before, sizeof_segment in Ha.
    destruct (Z.ltb_spec (seg_base a) (seg_base s)); [by rewrite IH | lia].
Qed.

(** A sorted list stays sorted when one element is put between its parts. *)
Lemma sorted_between l1 s l2 :
  StronglySorted header_before l1 -> StronglySorted header_before l2 ->
  Forall (fun a => Forall (header_before a) l2) l1 ->
  Forall (fun a => header_before a s) l1 -> Forall (header_before s) l2 ->
  StronglySorted header_before (l1 ++ s :: l2).
Proof.
  intros H1 H2 H12 Hb Ha. apply StronglySorted_app_iff. split_and!; [done | by constructor |].
  rewrite Forall_forall in H12, Hb. apply Forall_forall. intros a Hin.
  constructor; [by apply Hb | by apply H12].
Qed.

#[export] Instance list_tree_laws : SegmentTreeLaws list_tree.
Proof.
  refine {| segments := fun l => l; tree_rep := list_tree_rep |}.
  - intros m. split; [split; constructor | done].
  - done.
  - by apply Forall_replicate.
  - intros t m m' [Hs Hw] Hf. split; [done |]. rewrite Forall_forall in Hw |- *.
    intros s Hin. unfold header_written. rewrite <- (Hw s Hin). apply load_bytes_ext.
    intros x Hx. apply (Hf x s Hin). unfold in_header, sizeof_segment in *. lia.
  - done.
  - done.
  - done.
  - intros t m l1 s l2 [Hs Hw] ->. destruct (other_bases l1 s l2 Hs) as [H1 H2].
    exists (l1 ++ l2), m. apply StronglySorted_app_iff in Hs as (Hs1 & Hs2 & H12).
    inversion_clear Hs2 as [|? ? Hs2' H2']. apply Forall_app in Hw as [Hw1 Hw2].
    apply Forall_cons in Hw2 as [_ Hw2]. split_and!; [| | done | done].
    + simpl. rewrite List.filter_app. simpl. rewrite Z.eqb_refl. simpl.
      rewrite !filter_all; [done | |].
      * eapply Forall_impl; [exact H2 |]. intros a Ha. simpl. by rewrite Ha.
      * eapply Forall_impl; [exact H1 |]. intros a Ha. simpl. by rewrite Ha.
    + split; [| by apply Forall_app]. apply StronglySorted_app_iff. split_and!; [done | done |].
      eapply Forall_impl; [exact H12 |]. intros a Ha. by apply Forall_cons in Ha as [_ ?].
  - intros t m l1 s l2 s' [Hs Hw] -> Hh Hss Hb Ha.
    destruct (other_bases l1 s l2 Hs) as [H1 H2]. exists (l1 ++ s' :: l2), m.
    apply StronglySorted_app_iff in Hs as (Hs1 & Hs2 & H12).
    inversion_clear Hs2 as [|? ? Hs2' H2']. apply Forall_app in Hw as [Hw1 Hw2].
    apply Forall_cons in Hw2 as [_ Hw2]. split_and!; [| | done | done].
    + simpl. rewrite existsb_app. simpl. rewrite Z.eqb_refl. simpl. rewrite orb_true_r.
      rewrite map_app. simpl. rewrite Z.eqb_refl, !map_unchanged; [done | |].
      * eapply Forall_impl; [exact H2 |]. intros a Hx. simpl. by rewrite Hx.
      * eapply Forall_impl; [exact H1 |]. intros a Hx. simpl. by rewrite Hx.
    + split; [| apply Forall_app; split; [done | by constructor]].
      apply sorted_between; try done. eapply Forall_impl; [exact H12 |].
      intros a Hx. by apply Forall_cons in Hx as [_ ?].
  - intros t m l1 s l2 [Hs Hw] -> Hh Hb Ha. exists (l1 ++ s :: l2), m.
    apply StronglySorted_app_iff in Hs as (Hs1 & Hs2 & H12). apply Forall_app in Hw as [Hw1 Hw2].
    split_and!; [| | done | done].
    + simpl. by rewrite insert_sorted_spec.
    + split; [by apply sorted_between | apply Forall_app; split; [done | by constructor]].
Defined.

(** ** A coalesced list is determined by the bytes it covers *)

Definition nonempty_segments (l : list MemorySegment) : Prop :=
  Forall (fun s => 0 < seg_size s) l.

Lemma covered_after s l x :
  coalesced (s :: l) -> Exists (in_segment x) l -> seg_end s < x.
Proof.
  intros Hc He. apply coalesced_cons in Hc as [_ Hf].
  apply Exists_exists in He as (a & Ha & Hx). rewrite Forall_forall in Hf.
  specialize (Hf a Ha). unfold in_segment, seg_apart in *. lia.
Qed.

Lemma covered_from s l x :
  coalesced (s :: l) -> 0 < seg_size s -> Exists (in_segment x) (s :: l) -> seg_base s <= x.
Proof.
  intros Hc Hs He. apply Exists_cons in He as [Hx | Hx].
  - unfold in_segment in Hx. lia.
  - pose proof (covered_after s l x Hc Hx). unfold seg_end in *. lia.
Qed.

(** Two lists that cover the same bytes start with the same segment. *)
Lemma covered_head_le s l s' l' :
  coalesced (s :: l) -> coalesced (s' :: l') -> 0 < seg_size s -> 0 < seg_size s' ->
  (forall x, Exists (in_segment x) (s :: l) <-> Exists (in_segment x) (s' :: l')) ->
  seg_base s' <= seg_base s /\ (seg_base s = seg_base s' -> seg_end s <= seg_end s').
Proof.
  intros Hc Hc' Hs Hs' He. split.
  - apply (covered_from s' l'); [done | done |]. apply He. left. unfold in_segment, seg_end. lia.
  - intros Hb. destruct (decide (seg_end s <= seg_end s')); [done | exfalso].
    assert (Exists (in_segment (seg_end s')) (s' :: l')) as Hx.
    { apply He. left. unfold in_segment, seg_end in *. lia. }
    apply Exists_cons in Hx as [Hx | Hx]; [unfold in_segment in Hx; lia |].
    pose proof (covered_after s' l' _ Hc' Hx). lia.
Qed.

Lemma coalesced_unique l l' :
  coalesced l -> coalesced l' -> nonempty_segments l -> nonempty_segments l' ->
  (forall x, Exists (in_segment x) l <-> Exists (in_segment x) l') -> l = l'.
Proof.
  revert l'. induction l as [|s l IH]; intros [|s' l'] Hc Hc' Hp Hp' He.
  - done.
  - apply Forall_cons in Hp' as [Hp' _]. exfalso.
    apply (Exists_nil (in_segment (seg_base s'))), He. left. unfold in_segment, seg_end. lia.
  - apply Forall_cons in Hp as [Hp _]. exfalso.
    apply (Exists_nil (in_segment (seg_base s))), He. left. unfold in_segment, seg_end. lia.
  - apply Forall_cons in Hp as [Hs Hp]. apply Forall_cons in Hp' as [Hs' Hp'].
    destruct (covered_head_le s l s' l' Hc Hc' Hs Hs' He) as [H1 H2].
    destruct (covered_head_le s' l' s l Hc' Hc Hs' Hs) as [H3 H4]; [by symmetry |].
    assert (s = s') as <-.
    { unfold seg_end in *. destruct s, s'; simpl in *. f_equal; lia. }
    f_equal. apply IH; [by apply coalesced_cons in Hc as [? _] | by apply coalesced_cons in Hc' as [? _] | done | done |].
    intros x. specialize (He x). rewrite !Exists_cons in He.
    pose proof (covered_after s l x Hc) as Ha. pose proof (covered_after s l' x Hc') as Ha'.
    unfold in_segment in He, Ha, Ha'. fold (in_segment x) in *. unfold in_segment in *.
    intuition lia.
Qed.

(** ** The theorems *)

Section Theorems.
Context {T : Type} `{SegmentTreeLaws T}.

Lemma large_page_small : (PAGE_SIZE_SMALL | PAGE_SIZE_LARGE).
Proof. exists 512. done. Qed.

(** The bounds of the large part of a span. *)
Lemma large_start_spec start :
  0 < start -> start + PAGE_SIZE_LARGE <= 2 ^ 64 ->
  (PAGE_SIZE_LARGE | align_up start PAGE_SIZE_LARGE) /\ start <= align_up start PAGE_SIZE_LARGE.
Proof.
  change PAGE_SIZE_LARGE with (2 ^ 21). intros. split.
  - apply Z.mod_divide; [lia |]. apply align_up_mod; lia.
  - apply align_up_bounds; lia.
Qed.

Lemma large_end_spec last :
  0 <= last < 2 ^ 64 ->
  (PAGE_SIZE_LARGE | align_down last PAGE_SIZE_LARGE) /\ align_down last PAGE_SIZE_LARGE <= last.
Proof.
  change PAGE_SIZE_LARGE with (2 ^ 21). intros. split.
  - apply Z.mod_divide; [lia |]. apply align_down_mod; lia.
  - apply align_down_bounds; lia.
Qed.

Lemma seg_ok_range g start last :
  0 < start < last -> last < 2 ^ 64 -> (g | start) -> (g | last) ->
  seg_ok g (Segment start (last - start)).
Proof.
  intros. unfold seg_ok, seg_end; simpl. split_and!; try lia; auto using Z.divide_sub_r.
Qed.

(** C37: [page_alloc_small] returns null, and changes nothing, exactly when no
    free small page is left; otherwise it returns the address of a whole,
    aligned page of free memory, which is no longer free afterwards.  It leaves
    alone all memory that was not free. *)
Theorem page_alloc_small_takes_page (a : arenas T) m :
  arenas_rep a m ->
  (segments (small_arena a) = [] -> arena_page_alloc_small a m = Ok (0, a, m)) /\
  (segments (small_arena a) <> [] ->
   exists p a' m', arena_page_alloc_small a m = Ok (p, a', m') /\
     0 < p /\ (PAGE_SIZE_SMALL | p) /\
     (forall x, p <= x < p + PAGE_SIZE_SMALL -> arenas_own a x) /\
     arenas_rep a' m' /\
     (forall x, arenas_own a' x <-> arenas_own a x /\ ~ p <= x < p + PAGE_SIZE_SMALL) /\
     (forall x, ~ arenas_own a x -> load8 m' x = load8 m x)).
Proof.
  intros Hr. destruct (arenas_alloc_small a m Hr) as [[E E'] | (p & a' & m' & E & Hp & Hd & _ & Hx)].
  - split; [done | by rewrite E].
  - split; [| intros _; exists p, a', m'; tauto]. intros Hn. exfalso.
    unfold arena_page_alloc_small, arena_alloc in E.
    destruct Hr as [[Hr _] _ _]. rewrite (tree_front _ _ Hr), Hn in E.
    simplify_eq/=. lia.
Qed.

(** [page_free_small] makes exactly the bytes of the page free again, keeps
    the invariant of the allocator, and writes to free memory only. *)
Theorem page_free_small_returns_page p (a : arenas T) m :
  arenas_rep a m -> 0 < p -> (PAGE_SIZE_SMALL | p) -> p + PAGE_SIZE_SMALL < 2 ^ 64 ->
  (forall x, p <= x < p + PAGE_SIZE_SMALL -> ~ arenas_own a x) ->
  exists a' m', arena_page_free_small p a m = (a', m') /\ arenas_rep a' m' /\
    (forall x, arenas_own a' x <-> arenas_own a x \/ p <= x < p + PAGE_SIZE_SMALL) /\
    (forall x, ~ arenas_own a' x -> load8 m' x = load8 m x).
Proof. apply arenas_free_small. Qed.

(** Allocating a page and freeing it again, whatever was stored in it and
    elsewhere in the meantime outside of the free memory, restores the list of
    free segments: splitting is undone by coalescing. *)
Theorem arena_alloc_free_round_trip g (t : T) m p t1 m1 m2 :
  sizeof_segment <= g -> arena_inv g t m -> coalesced (segments t) ->
  arena_alloc g t m = Ok (p, t1, m1) -> p <> 0 ->
  (forall x, arena_owns t1 x -> load8 m2 x = load8 m1 x) ->
  exists t2 m3, arena_free p g t1 m2 = (t2, m3) /\ arena_inv g t2 m3 /\ segments t2 = segments t.
Proof.
  intros Hg Hinv Hc E Hp Hm2.
  destruct (arena_alloc_spec g Hg t m Hinv) as [[_ E'] | (p' & t' & m' & E' & Ht & Hc1)];
    rewrite E in E'; simplify_eq.
  destruct Ht as (Hp' & Hd & He & Hin & Hinv1 & Hown1 & _).
  destruct (arena_free_spec g Hg t' m2 p' g) as (t2 & m3 & E2 & (Hinv2 & Hown2 & _) & Hc2);
    [by apply (arena_frame g Hg t' m') | done | done | unfold sizeof_segment in Hg; lia |
     apply Z.divide_refl | done | |].
  { intros x Hx Ho. by apply Hown1 in Ho as [_ Hn]. }
  exists t2, m3. split_and!; [done | done |].
  assert (forall t m, arena_inv g t m -> nonempty_segments (segments t)) as Hne.
  { intros t0 m0 [_ [_ Hok]]. eapply Forall_impl; [exact Hok |]. by intros s (_ & _ & ? & _). }
  apply coalesced_unique; [auto | done | by apply (Hne _ m3) | by apply (Hne _ m) |].
  intros x. change (arena_owns t2 x <-> arena_owns t x). rewrite Hown2, Hown1. split.
  - intros [[? _] | ?]; auto.
  - intros Ho. destruct (decide (p' <= x < p' + g)); [by right | by left].
Qed.

Lemma add_span_exact start size (a : arenas T) m :
  arenas_rep a m -> 0 < start -> 0 <= size -> (PAGE_SIZE_SMALL | start) -> (PAGE_SIZE_SMALL | size) ->
  start + size < 2 ^ 64 -> start + PAGE_SIZE_LARGE <= 2 ^ 64 ->
  align_up start PAGE_SIZE_LARGE <= align_down (start + size) PAGE_SIZE_LARGE ->
  (forall x, start <= x < start + size -> ~ arenas_own a x) ->
  exists a' m', memory_add_span start size a m = (a', m') /\ arenas_rep a' m' /\
    (forall x, arenas_own a' x <-> arenas_own a x \/ start <= x < start + size) /\
    (forall x, ~ arenas_own a' x -> load8 m' x = load8 m x).
Proof.
  intros Hr Hs Hsz Hds Hdz He He' Hle Hfree. unfold memory_add_span.
  rewrite (u64_small (start + size)) by lia.
  destruct (large_start_spec start Hs He') as [Hdl Hl].
  destruct (large_end_spec (start + size)) as [Hdr Hrr]; [lia |].
  assert (PAGE_SIZE_SMALL | start + size) as Hde by (by apply Z.divide_add_r).
  pose proof (Z.divide_trans _ _ _ large_page_small Hdl) as Hdl'.
  pose proof (Z.divide_trans _ _ _ large_page_small Hdr) as Hdr'.
  set (ls := align_up start PAGE_SIZE_LARGE) in *.
  set (le := align_down (start + size) PAGE_SIZE_LARGE) in *.
  assert (exists a1 m1, (if negb (start =? ls) then memory_add_span_small start ls a m else (a, m)) =
    (a1, m1) /\ arenas_rep a1 m1 /\ (forall x, arenas_own a1 x <-> arenas_own a x \/ start <= x < ls) /\
    (forall x, ~ arenas_own a1 x -> load8 m1 x = load8 m x))
    as (a1 & m1 & -> & Hr1 & Ho1 & Hm1).
  { destruct (Z.eqb_spec start ls); cbn [negb].
    - exists a, m. split_and!; [done | done | | done]. intros x. intuition lia.
    - apply arenas_add_small; [done | apply seg_ok_range; auto; lia | intros x Hx; apply Hfree; lia]. }
  assert (exists a2 m2, (if negb (ls =? le) then memory_add_span_large ls le a1 m1 else (a1, m1)) =
    (a2, m2) /\ arenas_rep a2 m2 /\ (forall x, arenas_own a2 x <-> arenas_own a1 x \/ ls <= x < le) /\
    (forall x, ~ arenas_own a2 x -> load8 m2 x = load8 m1 x))
    as (a2 & m2 & -> & Hr2 & Ho2 & Hm2).
  { destruct (Z.eqb_spec ls le); cbn [negb].
    - exists a1, m1. split_and!; [done | done | | done]. intros x. intuition lia.
    - apply arenas_add_large; [done | apply seg_ok_range; auto; lia |].
      intros x Hx Ho. apply Ho1 in Ho as [Ho | Ho]; [apply (Hfree x); [lia | done] | lia]. }
  destruct (Z.eqb_spec (start + size) le); cbn [negb].
  - exists a2, m2. split_and!; [done | done | |].
    + intros x. rewrite Ho2, Ho1. intuition lia.
    + intros x Hx. rewrite Hm2 by done. apply Hm1. rewrite Ho2 in Hx. tauto.
  - destruct (arenas_add_small a2 m2 le (start + size)) as (a3 & m3 & E & Hr3 & Ho3 & Hm3);
      [done | apply seg_ok_range; auto; lia | |].
    + intros x Hx Ho. apply Ho2 in Ho as [Ho | Ho]; [| lia]. apply Ho1 in Ho as [Ho | Ho]; [| lia].
      by apply (Hfree x); [lia |].
    + exists a3, m3. split_and!; [done | done | |].
      * intros x. rewrite Ho3, Ho2, Ho1. intuition lia.
      * intros x Hx. rewrite Hm3, Hm2 by (rewrite ?Ho3 in *; tauto). apply Hm1. rewrite Ho3, Ho2 in Hx. tauto.
Qed.

(** [memory_add_span] on a page-aligned span that contains a multiple of
    the large page size makes exactly the bytes of the span free, split between
    the two arenas, keeps the invariant of the allocator, and writes free memory
    only. *)
Theorem memory_add_span_exact start size (a : arenas T) m :
  arenas_rep a m -> 0 < start -> 0 <= size -> (PAGE_SIZE_SMALL | start) -> (PAGE_SIZE_SMALL | size) ->
  start + size < 2 ^ 64 -> start + PAGE_SIZE_LARGE <= 2 ^ 64 ->
  align_up start PAGE_SIZE_LARGE <= align_down (start + size) PAGE_SIZE_LARGE ->
  (forall x, start <= x < start + size -> ~ arenas_own a x) ->
  exists a' m', memory_add_span start size a m = (a', m') /\ arenas_rep a' m' /\
    (forall x, arenas_own a' x <-> arenas_own a x \/ start <= x < start + size) /\
    (forall x, ~ arenas_own a' x -> load8 m' x = load8 m x).
Proof. apply add_span_exact. Qed.

Lemma arenas_rep_new m : arenas_rep (Arenas RBTree_new RBTree_new : arenas T) m.
Proof.
  destruct (tree_new_rep m) as [Hr El]. split; cbn [small_arena large_arena].
  - split; [done |]. rewrite El. split; constructor.
  - split; [done |]. rewrite El. split; constructor.
  - intros x Hx. unfold arena_owns in Hx. rewrite El in Hx. by apply Exists_nil in Hx.
Qed.

(** Linking the first segment of a tree. *)
Lemma add_first_segment s m :
  exists t' m', add_to_freelist s RBTree_new (write_segment m s) = (t', m') /\ tree_rep t' m' /\
    segments t' = [s] /\ (forall x, ~ in_header x s -> load8 m' x = load8 m x).
Proof.
  destruct (tree_new_rep (write_segment m s)) as [Hr El].
  destruct (tree_add RBTree_new _ [] s [] Hr El) as (t & m' & E & Hr' & El' & Hm);
    [apply write_segment_header | constructor | constructor |].
  exists t, m'. split_and!; try done. intros x Hx. rewrite Hm.
  - by apply write_segment_outside.
  - cbn [app]. rewrite Exists_cons, Exists_nil. tauto.
Qed.

Lemma no_boundary_gaps start size :
  0 < start -> 0 < size -> (PAGE_SIZE_SMALL | start) -> (PAGE_SIZE_SMALL | size) ->
  start + PAGE_SIZE_LARGE <= 2 ^ 64 ->
  align_down (start + size) PAGE_SIZE_LARGE < start ->
  start + size < align_up start PAGE_SIZE_LARGE ->
  let le := align_down (start + size) PAGE_SIZE_LARGE in
  let ls := align_up start PAGE_SIZE_LARGE in
  0 <= le /\ le + 4096 <= start /\ 4096 <= size /\ ls < start + 2 ^ 21 /\ ls < 2 ^ 64.
Proof.
  intros Hs Hz [k ->] Hdz He Hlo Hhi le ls.
  apply Z.divide_pos_le in Hdz; [| done]. change PAGE_SIZE_LARGE with (2 ^ 21) in *.
  change PAGE_SIZE_SMALL with 4096 in *.
  pose proof (align_up_bounds (k * 4096) 21) as Hb. fold ls in Hb, Hhi.
  assert (0 <= k * 4096 + size < 2 ^ 64) as Hr by lia.
  assert (0 <= le) as H0'.
  { unfold le. rewrite align_down_pow2 by lia. pose proof (Z.mod_le (k * 4096 + size) (2 ^ 21)). lia. }
  pose proof (align_down_mod (k * 4096 + size) 21 Hr ltac:(lia)) as Hm. fold le in Hm, Hlo.
  apply Z.mod_divide in Hm as [q Hq]; [| lia].
  split_and!; [done | | done | lia | lia]. rewrite Hq in *.
  change (2 ^ 21) with (512 * 4096) in *. nia.
Qed.

(** A span between two multiples of the large page size breaks the
    allocator.  [memory_add_span] then registers, as free, memory below the
    span, memory above it up to the next multiple, and a large-page segment
    whose size has wrapped around. *)
Theorem memory_add_span_no_boundary start size m :
  0 < start -> 0 < size -> (PAGE_SIZE_SMALL | start) -> (PAGE_SIZE_SMALL | size) ->
  start + PAGE_SIZE_LARGE <= 2 ^ 64 ->
  align_down (start + size) PAGE_SIZE_LARGE < start ->
  start + size < align_up start PAGE_SIZE_LARGE ->
  exists a' m', memory_add_span start size (Arenas RBTree_new RBTree_new : arenas T) m = (a', m') /\
    segments (small_arena a') =
      [Segment (align_down (start + size) PAGE_SIZE_LARGE)
               (start + size - align_down (start + size) PAGE_SIZE_LARGE);
       Segment start (align_up start PAGE_SIZE_LARGE - start)] /\
    segments (large_arena a') =
      [Segment (align_up start PAGE_SIZE_LARGE)
               (2 ^ 64 - (align_up start PAGE_SIZE_LARGE - align_down (start + size) PAGE_SIZE_LARGE))].
Proof.
  intros Hs Hz Hds Hdz He Hlo Hhi. unfold memory_add_span.
  destruct (no_boundary_gaps start size Hs Hz Hds Hdz He Hlo Hhi) as (Hle0 & Hgap & Hsz & Hls & Hls').
  rewrite (u64_small (start + size)) by lia.
  set (ls := align_up start PAGE_SIZE_LARGE) in *.
  set (le := align_down (start + size) PAGE_SIZE_LARGE) in *.
  destruct (Z.eqb_spec start ls); [lia |]. cbn [negb].
  destruct (add_first_segment (Segment start (ls - start)) m) as (t1 & m1 & E1 & Hr1 & El1 & _).
  assert (memory_add_span_small start ls (Arenas RBTree_new RBTree_new) m =
    (Arenas t1 RBTree_new, m1)) as ->.
  { unfold memory_add_span_small. rewrite u64_small by lia. cbn [small_arena large_arena].
    by rewrite E1. }
  destruct (Z.eqb_spec ls le); [lia |]. cbn [negb].
  unfold memory_add_span_large. cbn [small_arena large_arena].
  replace (u64 (le - ls)) with (2 ^ 64 - (ls - le)).
  2: { unfold u64. rewrite <- (Z_mod_plus_full (le - ls) 1), Z.mod_small; lia. }
  destruct (add_first_segment (Segment ls (2 ^ 64 - (ls - le))) m1) as (t2 & m2 & -> & _ & El2 & Hm2).
  destruct (Z.eqb_spec (start + size) le); [lia |]. cbn [negb].
  unfold memory_add_span_small, add_to_freelist. cbn [small_arena large_arena].
  rewrite u64_small by lia.
  destruct (tree_add t1 (write_segment m2 (Segment le (start + size - le))) []
    (Segment le (start + size - le)) [Segment start (ls - start)])
    as (t3 & m3 & E3 & Hr3 & El3 & _);
    [| by rewrite El1 | apply write_segment_header | constructor |
     repeat constructor; unfold header_before, sizeof_segment; simpl; lia |].
  { apply (tree_frame t1 m1); [done |]. intros x s Hin Hx. rewrite El1 in Hin.
    apply list_elem_of_singleton in Hin as ->.
    unfold in_header, sizeof_segment in Hx; cbn [seg_base] in Hx.
    rewrite write_segment_outside, Hm2; [done | |]; unfold in_header, sizeof_segment; simpl; lia. }
  rewrite E3. exists (Arenas t3 t2), m3. done.
Qed.

End Theorems.

(** ** Concrete arenas *)

Definition empty_arenas : arenas list_tree := Arenas RBTree_new RBTree_new.

Lemma empty_arenas_own x : ~ arenas_own empty_arenas x.
Proof. intros [Ho | Ho]; by apply Exists_nil in Ho. Qed.

(** Three free small pages at 0x1000. *)
Definition example_arenas : arenas list_tree * mem :=
  memory_add_span_small 4096 16384 empty_arenas ∅.

Lemma example_arenas_segments :
  small_arena (fst example_arenas) = [Segment 4096 12288] /\ large_arena (fst example_arenas) = [].
Proof. split; reflexivity. Qed.

Lemma example_arenas_rep : arenas_rep (fst example_arenas) (snd example_arenas).
Proof.
  destruct (arenas_add_small empty_arenas ∅ 4096 16384)
    as (a & m & E & Hr & _).
  - exact (arenas_rep_new (T := list_tree) ∅).
  - apply seg_ok_range; [lia | lia | by exists 1 | by exists 4].
  - intros x _. apply empty_arenas_own.
  - unfold example_arenas. rewrite E. exact Hr.
Qed.

Lemma example_arenas_own x : arenas_own (fst example_arenas) x <-> 4096 <= x < 16384.
Proof.
  destruct example_arenas_segments as [Es El]. unfold arenas_own, arena_owns. cbn [segments].
  rewrite Es, El. cbn [segments list_tree_laws].
  rewrite Exists_cons, !Exists_nil. unfold in_segment, seg_end. cbn [seg_base seg_size]. lia.
Qed.

Lemma page_alloc_small_takes_page_witness :
  exists p a' m', arena_page_alloc_small (fst example_arenas) (snd example_arenas) = Ok (p, a', m') /\
    arenas_rep a' m'.
Proof.
  destruct (page_alloc_small_takes_page _ _ example_arenas_rep) as [_ Hx].
  destruct Hx as (p & a' & m' & E & _ & _ & _ & Hr & _); [vm_compute; discriminate |].
  exists p, a', m'. exact (conj E Hr).
Defined.

Lemma page_free_small_returns_page_witness :
  exists a' m', arena_page_free_small 16384 (fst example_arenas) (snd example_arenas) = (a', m') /\
    arenas_rep a' m'.
Proof.
  destruct (page_free_small_returns_page 16384 _ _ example_arenas_rep) as (a' & m' & E & Hr & _).
  - lia.
  - by exists 4.
  - reflexivity.
  - intros x Hx Ho. apply example_arenas_own in Ho. lia.
  - exists a', m'. exact (conj E Hr).
Defined.

Lemma arena_alloc_free_round_trip_witness :
  exists t2 m3,
    arena_free 4096 4096 [Segment 8192 8192] (write_segment (snd example_arenas) (Segment 8192 8192))
      = (t2, m3) /\
    segments t2 = [Segment 4096 12288].
Proof.
  destruct (arena_alloc_free_round_trip 4096 ([Segment 4096 12288] : list_tree) (snd example_arenas)
    4096 [Segment 8192 8192] (write_segment (snd example_arenas) (Segment 8192 8192))
    (write_segment (snd example_arenas) (Segment 8192 8192))) as (t2 & m3 & E & _ & Hs).
  - unfold sizeof_segment. lia.
  - exact (arenas_small _ _ example_arenas_rep).
  - repeat constructor.
  - reflexivity.
  - lia.
  - done.
  - exists t2, m3. exact (conj E Hs).
Defined.

Lemma memory_add_span_exact_witness :
  exists a' m', memory_add_span (2 ^ 21 - 4096) (2 ^ 21 + 8192) empty_arenas ∅
      = (a', m') /\ arenas_rep a' m'.
Proof.
  destruct (memory_add_span_exact (2 ^ 21 - 4096) (2 ^ 21 + 8192) empty_arenas ∅)
    as (a' & m' & E & Hr & _).
  - exact (arenas_rep_new (T := list_tree) ∅).
  - lia.
  - lia.
  - by exists 511.
  - by exists 514.
  - lia.
  - vm_compute. discriminate.
  - vm_compute. discriminate.
  - intros x _. apply empty_arenas_own.
  - exists a', m'. exact (conj E Hr).
Defined.

Lemma memory_add_span_no_boundary_witness :
  exists a' m', memory_add_span (2 ^ 21 + 4096) 8192 empty_arenas ∅ = (a', m') /\
    segments (small_arena a') = [Segment (2 ^ 21) 12288; Segment (2 ^ 21 + 4096) (2 ^ 21 - 4096)].
Proof.
  destruct (memory_add_span_no_boundary (2 ^ 21 + 4096) 8192 (T := list_tree) ∅)
    as (a' & m' & E & Hs & _).
  - lia.
  - lia.
  - by exists 513.
  - by exists 2.
  - vm_compute. discriminate.
  - reflexivity.
  - reflexivity.
  - exists a', m'. exact (conj E Hs).
Defined.
