(* ===== verification/LibcString.v ===== *)
(** * String functions of the kernel's C library

    lib/libc/strlen.c, memchr.c, strnlen.c and strlcpy.c, on the byte-addressed
    memory.  The scan of [strlen] has no bound in the code; unmapped memory reads
    as zero in the model, so it ends within as many steps as there are mapped
    bytes, which is the fuel given to it ([strlen_found] shows that it is
    enough). *)

From S2P Require Import Prelude Mem.

Module Libc.

Fixpoint strlen_loop (fuel : nat) (m : mem) (s p : Z) : outcome Z :=
  match fuel with
  | O => Fault OutOfFuel
  | S fuel => if load8 m p =? 0 then Ok (p - s) else strlen_loop fuel m s (p + 1)
  end.

Definition strlen (m : mem) (s : Z) : outcome Z := strlen_loop (S (size m)) m s s.

(** A [char] is signed on x86-64: a byte above 127 reads as a negative number. *)
Definition s8 (b : Z) : Z := if b <? 2 ^ 7 then b else b - 2 ^ 8.

Fixpoint memchr (m : mem) (p c : Z) (n : nat) : Z :=
  match n with
  | O => 0
  | S n => if s8 (load8 m p) =? c then p else memchr m (p + 1) c n
  end.

Definition strnlen (m : mem) (s maxlen : Z) : Z :=
  let p := memchr m s 0 (Z.to_nat maxlen) in
  if p =? 0 then maxlen else p - s.

Definition strlcpy (m : mem) (dest src size : Z) : outcome (Z * mem) :=
  ret ← strlen m src;
  if 0 <? size then
    let len := if size <=? ret then size - 1 else ret in
    let m := memcpy m dest src (Z.to_nat len) in
    Ok (ret, store8 m (dest + len) 0)
  else Ok (ret, m).

End Libc.

(** ** Strings in memory *)

(** The bytes of the string at [s], and the terminator behind them. *)
Record string_at (m : mem) (s : Z) (bs : list Z) : Prop := {
  string_bytes : load_bytes m s (length bs) = bs;
  string_nonzero : Forall (fun b => b <> 0) bs;
  string_end : load8 m (s + Z.of_nat (length bs)) = 0
}.

Lemma string_at_cons m s b bs :
  string_at m s (b :: bs) <-> load8 m s = b /\ b <> 0 /\ string_at m (s + 1) bs.
Proof.
  split.
  - intros [Hb Hn He]. cbn [length load_bytes] in *. injection Hb as Hb Hbs.
    apply Forall_cons in Hn as [? ?].
    split_and!; [done | done |]. split; [done | done |]. rewrite <- He. f_equal. lia.
  - intros (Hb & Hn & [Hbs Hns He]). split; cbn [length load_bytes].
    + by rewrite Hb, Hbs.
    + by constructor.
    + rewrite <- He. f_equal. lia.
Qed.

Lemma string_at_nil m s : string_at m s [] <-> load8 m s = 0.
Proof.
  split.
  - intros [_ _ He]. cbn [length] in He. by rewrite Z.add_0_r in He.
  - intros He. split; [done | constructor |]. cbn [length]. by rewrite Z.add_0_r.
Qed.

(** Some byte among any [size m + 1] consecutive ones is unmapped. *)
Lemma unmapped_byte (m : mem) s : exists k, (k <= size m)%nat /\ m !! (s + Z.of_nat k) = None.
Proof.
  destruct (decide (Forall (fun a => a ∈ dom m) (stride s 1 (S (size m))))) as [Hf | Hf].
  - exfalso. assert (list_to_set (stride s 1 (S (size m))) ⊆ dom m) as Hsub.
    { intros a Ha. apply elem_of_list_to_set in Ha. rewrite Forall_forall in Hf. auto. }
    apply subseteq_size in Hsub. rewrite size_list_to_set in Hsub by (apply NoDup_stride; lia).
    rewrite length_stride, size_dom in Hsub. lia.
  - apply not_Forall_Exists in Hf; [| intros a; apply _].
    apply Exists_exists in Hf as (a & Ha & Hn). apply elem_of_stride in Ha as (k & Hk & ->).
    exists k. split; [lia |]. rewrite Z.mul_1_r in Hn. by apply not_elem_of_dom in Hn.
Qed.

Lemma strlen_loop_spec fuel m s p bs :
  string_at m p bs -> (length bs < fuel)%nat ->
  Libc.strlen_loop fuel m s p = Ok (p - s + Z.of_nat (length bs)).
Proof.
  revert p bs. induction fuel as [|fuel IH]; intros p bs Hs Hf; [lia |]. cbn [Libc.strlen_loop].
  destruct bs as [|b bs].
  - apply string_at_nil in Hs. rewrite Hs. simpl. f_equal. lia.
  - apply string_at_cons in Hs as (-> & Hn & Hs). destruct (Z.eqb_spec b 0); [done |].
    rewrite (IH (p + 1) bs) by (done || (cbn [length] in Hf; lia)). cbn [length]. f_equal. lia.
Qed.

(** Every address starts a string, of at most as many bytes as are mapped. *)
Lemma string_exists m s : exists bs, string_at m s bs /\ (length bs <= size m)%nat.
Proof.
  destruct (unmapped_byte m s) as (k & Hk & Hn).
  assert (exists bs, string_at m s bs /\ (length bs <= k)%nat) as (bs & Hbs & Hl).
  { clear Hk. revert s Hn. induction k as [|k IH]; intros s Hn.
    - exists []. split; [| done]. apply string_at_nil. rewrite Z.add_0_r in Hn.
      unfold load8. by rewrite Hn.
    - destruct (decide (load8 m s = 0)).
      + exists []. split; [by apply string_at_nil | simpl; lia].
      + destruct (IH (s + 1)) as (bs & Hbs & Hl).
        { rewrite <- Hn. f_equal. lia. }
        exists (load8 m s :: bs). split; [by apply string_at_cons | simpl; lia]. }
  exists bs. split; [done | lia].
Qed.

Lemma string_at_unique m s bs bs' : string_at m s bs -> string_at m s bs' -> bs = bs'.
Proof.
  revert s bs'. induction bs as [|b bs IH]; intros s [|b' bs'] H H'; [done | | |].
  - apply string_at_nil in H. apply string_at_cons in H' as (? & ? & _). congruence.
  - apply string_at_nil in H'. apply string_at_cons in H as (? & ? & _). congruence.
  - apply string_at_cons in H as (<- & _ & H), H' as (<- & _ & H'). f_equal. by apply (IH (s + 1)).
Qed.

Lemma strlen_found m s bs : string_at m s bs -> Libc.strlen m s = Ok (Z.of_nat (length bs)).
Proof.
  intros Hs. destruct (string_exists m s) as (bs' & Hs' & Hl).
  pose proof (string_at_unique m s bs bs' Hs Hs') as <-.
  unfold Libc.strlen. rewrite (strlen_loop_spec _ _ _ _ bs) by (done || lia). f_equal. lia.
Qed.

Lemma s8_eq_0 m p : (Libc.s8 (load8 m p) =? 0) = (load8 m p =? 0).
Proof.
  pose proof (load8_range m p). unfold Libc.s8.
  destruct (Z.ltb_spec (load8 m p) (2 ^ 7)); [done |].
  destruct (Z.eqb_spec (load8 m p - 2 ^ 8) 0), (Z.eqb_spec (load8 m p) 0); lia.
Qed.

Lemma memchr_zero m s bs n :
  string_at m s bs ->
  Libc.memchr m s 0 n = if (length bs <? n)%nat then s + Z.of_nat (length bs) else 0.
Proof.
  revert s bs. induction n as [|n IH]; intros s bs Hs; cbn [Libc.memchr].
  - destruct (Nat.ltb_spec (length bs) 0); [lia | done].
  - rewrite s8_eq_0. destruct bs as [|b bs].
    + apply string_at_nil in Hs. rewrite Hs. simpl. lia.
    + apply string_at_cons in Hs as (-> & Hn & Hs). destruct (Z.eqb_spec b 0); [done |].
      rewrite (IH (s + 1) bs Hs). cbn [length].
      destruct (Nat.ltb_spec (length bs) n), (Nat.ltb_spec (S (length bs)) (S n)); lia.
Qed.

(** A byte above 127 is never found: [memchr] compares a signed character with
    the unconverted argument. *)
Lemma memchr_high_byte m p c n : 2 ^ 7 <= c < 2 ^ 8 -> Libc.memchr m p c n = 0.
Proof.
  intros Hc. revert p. induction n as [|n IH]; intros p; [done |]. cbn [Libc.memchr].
  pose proof (load8_range m p). unfold Libc.s8 at 1.
  destruct (Z.ltb_spec (load8 m p) (2 ^ 7)), (Z.eqb_spec (load8 m p) c),
    (Z.eqb_spec (load8 m p - 2 ^ 8) c); try lia; apply IH.
Qed.


(** ** The theorems *)

Lemma strlcpy_copied m dest src size bs :
  string_at m src bs -> 0 <= size ->
  dest + size <= src \/ src + Z.of_nat (length bs) < dest ->
  exists m', Libc.strlcpy m dest src size = Ok (Z.of_nat (length bs), m') /\
    same_outside dest (dest + size) m m' /\
    (0 < size -> string_at m' dest (take (Z.to_nat (size - 1)) bs)).
Proof.
  intros Hs Hsz Hd. unfold Libc.strlcpy. rewrite (strlen_found m src bs Hs). cbn [mbind outcome_bind].
  destruct (Z.ltb_spec 0 size); [| exists m; split_and!; [done | by intros ? | lia]].
  set (len := if size <=? Z.of_nat (length bs) then size - 1 else Z.of_nat (length bs)).
  assert (Z.to_nat len = length (take (Z.to_nat (size - 1)) bs)) as Hlen.
  { rewrite length_take. unfold len. destruct (Z.leb_spec size (Z.of_nat (length bs))); lia. }
  assert (0 <= len < size /\ len <= Z.of_nat (length bs)) as [Hl1 Hl2].
  { unfold len. destruct (Z.leb_spec size (Z.of_nat (length bs))); lia. }
  eexists. split; [done |]. split.
  - intros x Hx. rewrite load8_store8_ne by lia. apply load8_memcpy_out. lia.
  - intros _. destruct Hs as [Hb Hn He]. split.
    + rewrite <- Hlen. rewrite (load_bytes_ext (memcpy m dest src (Z.to_nat len)))
        by (intros; apply load8_store8_ne; lia).
      rewrite load_bytes_memcpy by lia. rewrite <- (take_load_bytes m src (length bs)) by lia.
      rewrite Hb, Hlen, length_take. destruct (decide (Z.to_nat (size - 1) <= length bs)%nat).
      * by rewrite Nat.min_l by lia.
      * rewrite Nat.min_r by lia. by rewrite !take_ge by lia.
    + by apply Forall_take.
    + rewrite <- Hlen, Z2Nat.id by lia. apply load8_store8_eq.
Qed.

(** [strlcpy] returns the length of the source.  For a non-empty destination
    it leaves there a terminated string, the source cut to [size - 1] bytes, and
    changes nothing outside the destination buffer. *)
Theorem strlcpy_copies m dest src size bs :
  string_at m src bs -> 0 <= size ->
  dest + size <= src \/ src + Z.of_nat (length bs) < dest ->
  exists m', Libc.strlcpy m dest src size = Ok (Z.of_nat (length bs), m') /\
    same_outside dest (dest + size) m m' /\
    (0 < size -> string_at m' dest (take (Z.to_nat (size - 1)) bs)).
Proof. apply strlcpy_copied. Qed.

Lemma strlcpy_copies_witness :
  exists m', Libc.strlcpy (store_bytes ∅ 100 [65; 66; 67]) 200 100 3 = Ok (3, m') /\
    string_at m' 200 [65; 66].
Proof.
  destruct (strlcpy_copies (store_bytes ∅ 100 [65; 66; 67]) 200 100 3 [65; 66; 67])
    as (m' & E & _ & Hs).
  - split; [reflexivity | repeat constructor; discriminate | reflexivity].
  - lia.
  - simpl. lia.
  - exists m'. split; [exact E | exact (Hs eq_refl)].
Defined.

(** [strnlen] is the length of the string, or [maxlen] when that is less; it
    always agrees with [strlen] on short strings. *)
Theorem strnlen_min m s bs maxlen :
  string_at m s bs -> 0 < s -> 0 <= maxlen ->
  Libc.strnlen m s maxlen = Z.min (Z.of_nat (length bs)) maxlen.
Proof.
  intros Hs H0 Hm. unfold Libc.strnlen. rewrite (memchr_zero m s bs _ Hs).
  destruct (Nat.ltb_spec (length bs) (Z.to_nat maxlen)).
  - destruct (Z.eqb_spec (s + Z.of_nat (length bs)) 0); lia.
  - simpl. lia.
Qed.

Lemma strnlen_min_witness : Libc.strnlen (store_bytes ∅ 100 [65; 66; 67]) 100 2 = Z.min 3 2.
Proof.
  apply (strnlen_min (store_bytes ∅ 100 [65; 66; 67]) 100 [65; 66; 67] 2).
  - split; [reflexivity | repeat constructor; discriminate | reflexivity].
  - lia.
  - lia.
Defined.
