(* ===== verification/Kmem.v ===== *)
(** * The kernel's slab allocator

    mm/kmem.c and include/kernel/kmem.h on the byte-addressed memory: objects
    are cut from small pages, and the free objects of a slab are linked through
    control blocks ([struct kmem_bufctl]) at the end of each object.

    The page allocator is the interface of PageAlloc.  The static variables of
    kmem.c are addresses, parameters of the section. *)

From S2P Require Import Prelude Align Mem PageAlloc Printf LibcString.
From Stdlib Require Import Strings.String.
#[local] Open Scope Z_scope.

Definition ENOMEM : Z := 12.
Definition EFAULT : Z := 14.
Definition EINVAL : Z := 22.
Definition ENOSYS : Z := 38.

Definition KMEM_DEFAULT_ALIGN : Z := 8.
Definition KMEM_NAME_MAX_LEN : Z := 32.

(** [struct kmem_bufctl] *)
Definition bufctl_next (b : Z) : Z := b.
Definition bufctl_addr (b : Z) : Z := b + 8.
Definition bufctl_slab (b : Z) : Z := b + 16.
Definition sizeof_bufctl : Z := 24.

(** [struct kmem_slab] *)
Definition slab_cache (s : Z) : Z := s.
Definition slab_head (s : Z) : Z := s + 8.
Definition slab_base (s : Z) : Z := s + 16.
Definition slab_next (s : Z) : Z := s + 24.
Definition slab_nr_free (s : Z) : Z := s + 32.
Definition slab_capacity (s : Z) : Z := s + 36.
Definition sizeof_slab : Z := 40.

(** [struct kmem_cache] *)
Definition cache_bufctl (c : Z) : Z := c.
Definition cache_size (c : Z) : Z := c + 8.
Definition cache_align (c : Z) : Z := c + 16.
Definition cache_slab (c : Z) : Z := c + 24.
Definition cache_name (c : Z) : Z := c + 32.
Definition sizeof_cache : Z := 64.

Definition kmem_object_to_bufctl (m : mem) (cache obj : Z) : Z :=
  u64 (obj + load64 m (cache_bufctl cache)).

(** The loop of [kmem_slab_create] that builds the free list. *)
Fixpoint kmem_slab_create_loop (fuel : nat) (cache base slab slab_size buffer_size offset : Z) (m : mem)
  : outcome mem :=
  match fuel with
  | O => Fault OutOfFuel
  | S fuel =>
      if u64 (offset + buffer_size) <=? slab_size then
        let addr := u64 (base + offset) in
        let bufctl := kmem_object_to_bufctl m cache addr in
        let next_offset := u64 (offset + buffer_size) in
        let m :=
          if u64 (next_offset + buffer_size) <=? slab_size
          then store64 m (bufctl_next bufctl)
                 (kmem_object_to_bufctl m cache (u64 (base + next_offset)))
          else store64 m (bufctl_next bufctl) 0 in
        let m := store64 m (bufctl_addr bufctl) addr in
        let m := store64 m (bufctl_slab bufctl) slab in
        let m := store32 m (slab_capacity slab) (load32 m (slab_capacity slab) + 1) in
        let m := store32 m (slab_nr_free slab) (load32 m (slab_nr_free slab) + 1) in
        kmem_slab_create_loop fuel cache base slab slab_size buffer_size
          (u64 (offset + buffer_size)) m
      else Ok m
  end.

(** The part of [kmem_slab_create] that fills in the slab structure and the
    free list. *)
Definition kmem_slab_setup (cache base slab slab_size : Z) (m : mem) : outcome mem :=
  let m := store64 m (slab_cache slab) cache in
  let m := store64 m (slab_base slab) base in
  let m := store64 m (slab_head slab) (kmem_object_to_bufctl m cache base) in
  let m := store64 m (slab_next slab) 0 in
  let m := store32 m (slab_nr_free slab) 0 in
  let m := store32 m (slab_capacity slab) 0 in
  let buffer_size := align_up (load64 m (cache_size cache)) (load64 m (cache_align cache)) in
  kmem_slab_create_loop (S (Z.to_nat slab_size)) cache base slab slab_size buffer_size 0 m.

Definition kmem_slab_alloc_object (slab : Z) (m : mem) : outcome (Z * mem) :=
  nonnull! slab ;;
  let bufctl := load64 m (slab_head slab) in
  if bufctl =? 0 then Ok (0, m)
  else
    let m := store64 m (slab_head slab) (load64 m (bufctl_next bufctl)) in
    let m := store32 m (slab_nr_free slab) (load32 m (slab_nr_free slab) - 1) in
    Ok (load64 m (bufctl_addr bufctl), m).

Definition kmem_slab_is_full (slab : Z) (m : mem) : bool :=
  load32 m (slab_nr_free slab) =? load32 m (slab_capacity slab).

Definition kmem_slab_free_object (slab obj : Z) (m : mem) : outcome mem :=
  nonnull! slab ;;
  let bufctl := kmem_object_to_bufctl m (load64 m (slab_cache slab)) obj in
  let m := store64 m (bufctl_next bufctl) (load64 m (slab_head slab)) in
  let m := store64 m (bufctl_addr bufctl) obj in
  let m := store64 m (bufctl_slab bufctl) slab in
  let m := store64 m (slab_head slab) bufctl in
  Ok (store32 m (slab_nr_free slab) (load32 m (slab_nr_free slab) + 1)).

Definition kmem_alloc_sizes : list Z := [32; 64; 128; 256; 512; 1024; 2048; 4096].

Definition kmem_cache_index (size : Z) : Z :=
  if size <=? 32 then 0 else
  if size <=? 64 then 1 else
  if size <=? 128 then 2 else
  if size <=? 256 then 3 else
  if size <=? 512 then 4 else
  if size <=? 1024 then 5 else
  if size <=? 2048 then 6 else
  if size <=? 4096 then 7 else
  2 ^ 64 - 1.

Definition kmalloc_name_format : list Z := cstr "kmalloc-%lu".

Section Kmem.
Context {A : Type} `{PageAllocator A}.
Context (kmem_cache_cache kmem_slab_cache kmalloc_caches : Z).

(** [kmem_slab_create]; [alloc_slab] is the call of [kmem_cache_alloc] on the
    cache of slab structures, used for objects of 512 bytes and more. *)
Definition kmem_slab_create (alloc_slab : A -> mem -> outcome (Z * A * mem)) (cache : Z)
  (a : A) (m : mem) : outcome (Z * A * mem) :=
  '(base, a, m) ← page_alloc_small a m;
  if base =? 0 then Ok (0, a, m)
  else
    let small := load64 m (cache_size cache) <? PAGE_SIZE_SMALL / 8 in
    '(slab, a, m) ←
      (if small then Ok (u64 (base + PAGE_SIZE_SMALL - sizeof_slab), a, m) else alloc_slab a m);
    if slab =? 0 then
      let '(a, m) := page_free_small base a m in
      Ok (0, a, m)
    else
      let slab_size := if small then PAGE_SIZE_SMALL - sizeof_slab else PAGE_SIZE_SMALL in
      m ← kmem_slab_setup cache base slab slab_size m;
      Ok (slab, a, m).

Fixpoint kmem_cache_alloc_loop (fuel : nat) (cache : Z) (a : A) (m : mem) : outcome (Z * A * mem) :=
  match fuel with
  | O => Fault OutOfFuel
  | S fuel =>
      '(obj, m) ← kmem_slab_alloc_object (load64 m (cache_slab cache)) m;
      if negb (obj =? 0) then Ok (obj, a, m)
      else
        '(slab, a, m) ← kmem_slab_create (kmem_cache_alloc_loop fuel kmem_slab_cache) cache a m;
        if slab =? 0 then Ok (0, a, m)
        else
          let m := store64 m (slab_next slab) (load64 m (cache_slab cache)) in
          let m := store64 m (cache_slab cache) slab in
          kmem_cache_alloc_loop fuel cache a m
  end.

(** Three rounds are enough: an object cache with large objects asks the slab
    cache for one object, which asks the page allocator for one page. *)
Definition kmem_cache_alloc (cache : Z) (a : A) (m : mem) : outcome (Z * A * mem) :=
  kmem_cache_alloc_loop 3 cache a m.

Definition kmem_slab_destroy (slab : Z) (a : A) (m : mem) : A * mem :=
  page_free_small (load64 m (slab_base slab)) a m.

Definition kmem_cache_free (cache obj : Z) (a : A) (m : mem) : outcome (A * mem) :=
  m ← kmem_slab_free_object (load64 m (cache_slab cache)) obj m;
  if negb (kmem_slab_is_full (load64 m (cache_slab cache)) m) then Ok (a, m)
  else
    let slab := load64 m (cache_slab cache) in
    if load64 m (slab_next slab) =? 0 then Ok (a, m)
    else
      let m := store64 m (cache_slab cache) (load64 m (slab_next slab)) in
      Ok (kmem_slab_destroy slab a m).

(** [name] is the address of the string. *)
Definition kmem_cache_init (cache name size align : Z) (a : A) (m : mem) : outcome (Z * A * mem) :=
  if align_up size align <? sizeof_bufctl then Ok (- EINVAL, a, m)
  else
    '(_, m) ← Libc.strlcpy m (cache_name cache) name KMEM_NAME_MAX_LEN;
    let m := store64 m (cache_size cache) size in
    let m := store64 m (cache_align cache) align in
    let m := store64 m (cache_bufctl cache) (align_up size align - sizeof_bufctl) in
    '(slab, a, m) ← kmem_slab_create (kmem_cache_alloc kmem_slab_cache) cache a m;
    Ok (0, a, store64 m (cache_slab cache) slab).

Definition kmem_cache_create (name size align : Z) (a : A) (m : mem) : outcome (Z * A * mem) :=
  '(cache, a, m) ← kmem_cache_alloc kmem_cache_cache a m;
  if cache =? 0 then Ok (0, a, m)
  else
    '(err, a, m) ← kmem_cache_init cache name size align a m;
    if err <? 0 then
      '(a, m) ← kmem_cache_free kmem_cache_cache cache a m;
      Ok (0, a, m)
    else Ok (cache, a, m).

Fixpoint kmem_cache_destroy_loop (fuel : nat) (slab : Z) (a : A) (m : mem) : outcome (A * mem) :=
  match fuel with
  | O => Fault OutOfFuel
  | S fuel =>
      nonnull! slab ;;
      let next := load64 m (slab_next slab) in
      let '(a, m) := kmem_slab_destroy slab a m in
      if next =? 0 then Ok (a, m) else kmem_cache_destroy_loop fuel next a m
  end.

Definition kmem_cache_destroy (cache : Z) (a : A) (m : mem) : outcome (A * mem) :=
  '(a, m) ← kmem_cache_destroy_loop (S (size m)) (load64 m (cache_slab cache)) a m;
  kmem_cache_free kmem_cache_cache cache a m.

(** Null when there is no cache for the size. *)
Definition kmem_size_to_cache (size : Z) : Z :=
  let idx := kmem_cache_index size in
  if Z.of_nat (List.length kmem_alloc_sizes) <=? idx then 0 else kmalloc_caches + sizeof_cache * idx.

Definition kmem_alloc (size : Z) (a : A) (m : mem) : outcome (Z * A * mem) :=
  let cache := kmem_size_to_cache size in
  if cache =? 0 then Ok (0, a, m) else kmem_cache_alloc cache a m.

Definition kmem_zalloc (size : Z) (a : A) (m : mem) : outcome (Z * A * mem) :=
  '(p, a, m) ← kmem_alloc size a m;
  if p =? 0 then Ok (0, a, m) else Ok (p, a, memset m p 0 (Z.to_nat size)).

Definition kmem_free (ptr size : Z) (a : A) (m : mem) : outcome (A * mem) :=
  let cache := kmem_size_to_cache size in
  if cache =? 0 then Ok (a, m) else kmem_cache_free cache ptr a m.

(** The loop of [kmem_init] over the sizes; [frame] is the address of the local
    buffer [cache_name]. *)
Fixpoint kmem_init_loop (frame i : Z) (sizes : list Z) (a : A) (m : mem) : outcome (Z * A * mem) :=
  match sizes with
  | [] => Ok (0, a, m)
  | size :: sizes =>
      '(_, m) ← snprintf m frame KMEM_NAME_MAX_LEN kmalloc_name_format [VInt size];
      '(err, a, m) ← kmem_cache_init (kmalloc_caches + sizeof_cache * i) frame size
                       KMEM_DEFAULT_ALIGN a m;
      if negb (err =? 0) then Ok (err, a, m) else kmem_init_loop frame (i + 1) sizes a m
  end.

(** [rodata] holds the two string literals. *)
Definition kmem_init (frame rodata_cache rodata_slab : Z) (a : A) (m : mem) : outcome (Z * A * mem) :=
  '(err, a, m) ← kmem_cache_init kmem_cache_cache rodata_cache sizeof_cache KMEM_DEFAULT_ALIGN a m;
  if negb (err =? 0) then Ok (err, a, m)
  else
    '(err, a, m) ← kmem_cache_init kmem_slab_cache rodata_slab sizeof_slab KMEM_DEFAULT_ALIGN a m;
    if negb (err =? 0) then Ok (err, a, m)
    else kmem_init_loop frame 0 kmem_alloc_sizes a m.

End Kmem.
