(* ===== verification/KmemProof.v ===== *)
(** * Correctness of the slab allocator

    The invariant of mm/kmem.c is stated with a ghost state that gives every
    byte of memory an owner: the structure of an object cache, a slab (its
    header and the parts of its page that are not in a live object), the client
    that holds a live object, or something else.  One owner per byte makes
    everything disjoint. *)

From S2P Require Import Prelude Align Mem PageAlloc Printf LibcString Kmem.

Inductive owner := OCache (c : Z) | OSlab (b : Z) | OLive | OOther.

#[global] Instance owner_eq_dec : EqDecision owner.
Proof. solve_decision. Defined.

(** The parameters of an object cache. *)
Record conf := Conf { g_size : Z; g_align : Z }.

(** A slab of cache [g_cache]: the address of its structure, the value of its
    [next] field, and its free objects in the order of the free list. *)
Record slabg := SlabG { g_cache : Z; g_addr : Z; g_next : Z; g_free : list Z }.

(** Slabs are known by the address of their page; [k_chain] lists the slabs of
    each cache. *)
Record kstate := KState {
  k_conf : gmap Z conf;
  k_chain : gmap Z (list Z);
  k_slabs : gmap Z slabg;
  k_own : Z -> owner
}.

(** ** Objects of a slab *)

Definition bufsz (C : conf) : Z := align_up (g_size C) (g_align C).
Definition small_objects (C : conf) : bool := g_size C <? PAGE_SIZE_SMALL / 8.
Definition slab_bytes (C : conf) : Z :=
  if small_objects C then PAGE_SIZE_SMALL - sizeof_slab else PAGE_SIZE_SMALL.
Definition capacity (C : conf) : Z := slab_bytes C / bufsz C.
Definition objects (C : conf) (b : Z) : list Z := stride b (bufsz C) (Z.to_nat (capacity C)).
Definition bufctl_of (C : conf) (o : Z) : Z := o + (bufsz C - sizeof_bufctl).

Record conf_ok (C : conf) : Prop := {
  conf_size : 0 <= g_size C <= bufsz C;
  conf_align : 0 <= g_align C < 2 ^ 64;
  conf_bufsz : sizeof_bufctl <= bufsz C <= slab_bytes C
}.

Definition head_ptr (C : conf) (l : list Z) : Z :=
  match l with [] => 0 | o :: _ => bufctl_of C o end.

(** The free list, linked through the control blocks. *)
Fixpoint free_chain (C : conf) (m : mem) (l : list Z) : Prop :=
  match l with
  | [] => True
  | o :: l =>
      load64 m (bufctl_next (bufctl_of C o)) = head_ptr C l /\
      load64 m (bufctl_addr (bufctl_of C o)) = o /\ free_chain C m l
  end.

Record slab_ok (C : conf) (b : Z) (S : slabg) : Prop := {
  so_base : 0 < b /\ b + PAGE_SIZE_SMALL < 2 ^ 64;
  so_aligned : (PAGE_SIZE_SMALL | b);
  so_free : forall o, o ∈ g_free S -> o ∈ objects C b;
  so_nodup : NoDup (g_free S);
  so_addr : 0 < g_addr S /\ g_addr S + sizeof_slab < 2 ^ 64;
  so_small : small_objects C = true -> g_addr S = b + PAGE_SIZE_SMALL - sizeof_slab;
  so_large : small_objects C = false ->
    g_addr S + sizeof_slab <= b \/ b + PAGE_SIZE_SMALL <= g_addr S;
  so_next : 0 <= g_next S < 2 ^ 64
}.

Record slab_rep (C : conf) (b : Z) (S : slabg) (m : mem) : Prop := {
  sr_cache : load64 m (slab_cache (g_addr S)) = g_cache S;
  sr_base : load64 m (slab_base (g_addr S)) = b;
  sr_head : load64 m (slab_head (g_addr S)) = head_ptr C (g_free S);
  sr_next : load64 m (slab_next (g_addr S)) = g_next S;
  sr_nr_free : load32 m (slab_nr_free (g_addr S)) = Z.of_nat (length (g_free S));
  sr_capacity : load32 m (slab_capacity (g_addr S)) = capacity C;
  sr_chain : free_chain C m (g_free S)
}.

(** The bytes of a slab: its structure, and its page without the live objects. *)
Definition slab_fp (C : conf) (b : Z) (S : slabg) (x : Z) : Prop :=
  g_addr S <= x < g_addr S + sizeof_slab \/
  (b <= x < b + PAGE_SIZE_SMALL /\
   forall o, o ∈ objects C b -> o <= x < o + bufsz C -> o ∈ g_free S).

Definition slab_entry (confs : gmap Z conf) (own : Z -> owner) (m : mem) (b : Z) (S : slabg) : Prop :=
  exists C, confs !! g_cache S = Some C /\ slab_ok C b S /\ slab_rep C b S m /\
    (forall x, own x = OSlab b <-> slab_fp C b S x) /\
    (forall x, b <= x < b + PAGE_SIZE_SMALL -> own x <> OOther).

(** The slabs of cache [c], from the pointer to the first one. *)
Fixpoint chain_ok (slabs : gmap Z slabg) (c ptr : Z) (l : list Z) : Prop :=
  match l with
  | [] => ptr = 0
  | b :: l => exists S, slabs !! b = Some S /\ g_cache S = c /\ g_addr S = ptr /\
      chain_ok slabs c (g_next S) l
  end.

Record cache_entry (slabs : gmap Z slabg) (own : Z -> owner) (m : mem) (c : Z) (C : conf) (l : list Z)
  : Prop := {
  ce_conf : conf_ok C;
  ce_addr : 0 < c /\ c + sizeof_cache < 2 ^ 64;
  ce_own : forall x, own x = OCache c <-> c <= x < c + sizeof_cache;
  ce_bufctl : load64 m (cache_bufctl c) = bufsz C - sizeof_bufctl;
  ce_size : load64 m (cache_size c) = g_size C;
  ce_align : load64 m (cache_align c) = g_align C;
  ce_nodup : NoDup l;
  ce_chain : chain_ok slabs c (load64 m (cache_slab c)) l
}.

Record kinv {A} `{PageAllocatorLaws A} (K : kstate) (a : A) (m : mem) : Prop := {
  ki_pa : pa_rep a m;
  ki_free x : pa_own a x -> k_own K x = OOther;
  ki_cache c C : k_conf K !! c = Some C ->
    exists l, k_chain K !! c = Some l /\ cache_entry (k_slabs K) (k_own K) m c C l;
  ki_slab b S : k_slabs K !! b = Some S -> slab_entry (k_conf K) (k_own K) m b S;
  ki_cache_tag x c : k_own K x = OCache c -> is_Some (k_conf K !! c);
  ki_slab_tag x b : k_own K x = OSlab b -> is_Some (k_slabs K !! b)
}.

(** The bytes that neither the slab allocator nor the page allocator uses: live
    objects, and memory that has nothing to do with the allocators. *)
Definition client {A} `{PageAllocatorLaws A} (K : kstate) (a : A) (x : Z) : Prop :=
  k_own K x = OLive \/ (k_own K x = OOther /\ ~ pa_own a x).

(** ** Arithmetic of objects *)

Lemma page_small_val : PAGE_SIZE_SMALL = 4096.
Proof. reflexivity. Qed.

Section Objects.
Context (C : conf) (HC : conf_ok C).

Lemma capacity_bounds : 1 <= capacity C /\ capacity C * bufsz C <= slab_bytes C /\ capacity C <= 171.
Proof.
  destruct HC as [_ _ Hb]. unfold sizeof_bufctl in Hb. unfold capacity.
  pose proof (Z.div_mod (slab_bytes C) (bufsz C)).
  pose proof (Z.mod_pos_bound (slab_bytes C) (bufsz C)).
  assert (1 <= slab_bytes C / bufsz C) by (apply Z.div_le_lower_bound; lia).
  assert (slab_bytes C <= 4096) as Hs.
  { unfold slab_bytes, sizeof_slab. rewrite page_small_val. destruct (small_objects C); lia. }
  split_and!; [done | nia |]. apply Z.lt_succ_r, Z.div_lt_upper_bound; [lia |].
  change (Z.succ 171) with 172. lia.
Qed.

Lemma slab_bytes_page : slab_bytes C <= 4096.
Proof. unfold slab_bytes, sizeof_slab. rewrite page_small_val. destruct (small_objects C); lia. Qed.

Lemma elem_of_objects o b :
  o ∈ objects C b <-> exists k, 0 <= k < capacity C /\ o = b + k * bufsz C.
Proof.
  unfold objects. rewrite elem_of_stride. split.
  - intros (k & Hk & ->). exists (Z.of_nat k). lia.
  - intros (k & Hk & ->). exists (Z.to_nat k). rewrite Z2Nat.id by lia. lia.
Qed.

Lemma object_bounds o b :
  o ∈ objects C b -> b <= o /\ o + bufsz C <= b + slab_bytes C.
Proof.
  rewrite elem_of_objects. intros (k & Hk & ->).
  destruct capacity_bounds as (_ & Hc & _). destruct HC as [_ _ Hb]. unfold sizeof_bufctl in Hb. nia.
Qed.

(** Two objects that share a byte are the same. *)
Lemma objects_disjoint o o' b x :
  o ∈ objects C b -> o' ∈ objects C b -> o <= x < o + bufsz C -> o' <= x < o' + bufsz C -> o = o'.
Proof.
  rewrite !elem_of_objects. intros (k & _ & ->) (k' & _ & ->) H1 H2.
  destruct HC as [_ _ Hb]. unfold sizeof_bufctl in Hb.
  assert (k = k') as -> by nia. done.
Qed.

Lemma objects_nodup b : NoDup (objects C b).
Proof. apply NoDup_stride. destruct HC as [_ _ Hb]. unfold sizeof_bufctl in Hb. lia. Qed.

End Objects.

(** ** What the invariant depends on *)

Lemma free_chain_ext C m m' l :
  (forall o x, o ∈ l -> bufctl_of C o <= x < bufctl_of C o + sizeof_bufctl -> load8 m' x = load8 m x) ->
  free_chain C m l -> free_chain C m' l.
Proof.
  intros He. induction l as [|o l IH]; [done |]. cbn [free_chain]. intros (Hn & Ha & Hl).
  unfold bufctl_next, bufctl_addr in *. split_and!.
  - rewrite <- Hn. apply load_ext. intros x Hx. apply (He o); [by left |].
    unfold sizeof_bufctl. lia.
  - etrans; [| exact Ha]. apply load_ext. intros x Hx. apply (He o); [by left |].
    unfold sizeof_bufctl. lia.
  - apply IH; [| done]. intros o' x Ho. apply He. by right.
Qed.

(** The control block of a free object is part of the slab. *)
Lemma bufctl_in_fp C b S o x :
  conf_ok C -> slab_ok C b S -> o ∈ g_free S ->
  bufctl_of C o <= x < bufctl_of C o + sizeof_bufctl -> slab_fp C b S x.
Proof.
  intros HC HS Ho Hx. right. pose proof (so_free _ _ _ HS o Ho) as Ho'.
  destruct (object_bounds C HC o b Ho') as [H1 H2]. pose proof (slab_bytes_page C) as Hs.
  pose proof (conf_bufsz _ HC). unfold bufctl_of, sizeof_bufctl in *. rewrite page_small_val.
  split; [lia |]. intros o' Hin Hx'. rewrite (objects_disjoint C HC o' o b x); [done.. | lia].
Qed.

Lemma slab_rep_ext C b S m m' :
  conf_ok C -> slab_ok C b S ->
  (forall x, slab_fp C b S x -> load8 m' x = load8 m x) -> slab_rep C b S m -> slab_rep C b S m'.
Proof.
  intros HC HS He [H1 H2 H3 H4 H5 H6 H7].
  assert (forall n off, 0 <= off -> off + Z.of_nat n <= sizeof_slab ->
    load n m' (g_addr S + off) = load n m (g_addr S + off)) as Hh.
  { intros n off H0 Hn. apply load_ext. intros x Hx. apply He. left. lia. }
  unfold sizeof_slab in Hh. unfold slab_cache, slab_base, slab_head, slab_next, slab_nr_free, slab_capacity in *.
  split; unfold slab_cache, slab_base, slab_head, slab_next, slab_nr_free, slab_capacity.
  - rewrite <- H1. rewrite <- (Z.add_0_r (g_addr S)). apply Hh; simpl; lia.
  - etrans; [| exact H2]. apply Hh; simpl; lia.
  - rewrite <- H3. apply Hh; simpl; lia.
  - rewrite <- H4. apply Hh; simpl; lia.
  - rewrite <- H5. apply Hh; simpl; lia.
  - rewrite <- H6. apply Hh; simpl; lia.
  - revert H7. apply free_chain_ext. intros o x Ho Hx. apply He. by apply (bufctl_in_fp C b S o).
Qed.

Lemma slab_entry_frame confs own own' m m' b S :
  (forall C, confs !! g_cache S = Some C -> conf_ok C) ->
  (forall x, own' x = OSlab b <-> own x = OSlab b) ->
  (forall x, b <= x < b + PAGE_SIZE_SMALL -> own' x = OOther -> own x = OOther) ->
  (forall x, own x = OSlab b -> load8 m' x = load8 m x) ->
  slab_entry confs own m b S -> slab_entry confs own' m' b S.
Proof.
  intros Hconf Ho Hoo Hm (C & HC & Hok & Hrep & Hfp & Hpg). exists C. split_and!; [done | done | | |].
  - apply (slab_rep_ext C b S m); [by apply Hconf | done | | done].
    intros x Hx. apply Hm. by apply Hfp.
  - intros x. rewrite Ho. apply Hfp.
  - intros x Hx Hx'. apply (Hpg x Hx). by apply Hoo.
Qed.

(** The links of a chain of slabs. *)
Definition same_links (slabs slabs' : gmap Z slabg) (l : list Z) : Prop :=
  forall b S, b ∈ l -> slabs !! b = Some S ->
    exists S', slabs' !! b = Some S' /\ g_cache S' = g_cache S /\ g_addr S' = g_addr S /\
      g_next S' = g_next S.

Lemma chain_ok_same slabs slabs' c ptr l :
  same_links slabs slabs' l -> chain_ok slabs c ptr l -> chain_ok slabs' c ptr l.
Proof.
  revert ptr. induction l as [|b l IH]; intros ptr Hs; [done |]. cbn [chain_ok].
  intros (S & HS & Hc & Ha & Hl). destruct (Hs b S) as (S' & HS' & Hc' & Ha' & Hn'); [by left | done |].
  exists S'. split_and!; [done | congruence | congruence |]. rewrite Hn'. apply IH; [| done].
  intros b' T Hb'. apply Hs. by right.
Qed.

Lemma cache_entry_frame slabs slabs' own own' m m' c C l :
  same_links slabs slabs' l ->
  (forall x, own' x = OCache c <-> own x = OCache c) ->
  (forall x, own x = OCache c -> load8 m' x = load8 m x) ->
  cache_entry slabs own m c C l -> cache_entry slabs' own' m' c C l.
Proof.
  intros Hl Ho Hm [H1 H2 H3 H4 H5 H6 H7 H8].
  assert (forall off, 0 <= off -> off + 8 <= sizeof_cache ->
    load64 m' (c + off) = load64 m (c + off)) as Hh.
  { intros off H0 Hn. apply load_ext. intros x Hx. apply Hm, H3. simpl in Hx. lia. }
  unfold sizeof_cache in Hh.
  unfold cache_bufctl, cache_size, cache_align, cache_slab in *.
  split; try done; unfold cache_bufctl, cache_size, cache_align, cache_slab.
  - intros x. rewrite Ho. apply H3.
  - rewrite <- H4. rewrite <- (Z.add_0_r c). apply Hh; lia.
  - rewrite <- H5. apply Hh; lia.
  - rewrite <- H6. apply Hh; lia.
  - rewrite Hh by lia. by apply (chain_ok_same slabs).
Qed.

(** ** Changing one slab *)

Section Invariant.
Context {A : Type} `{PageAllocatorLaws A}.

Lemma kinv_conf_ok K (a : A) m c C : kinv K a m -> k_conf K !! c = Some C -> conf_ok C.
Proof. intros HK HC. destruct (ki_cache _ _ _ HK c C HC) as (l & _ & He). by destruct He. Qed.

(** The owner of a byte moves between one slab and the clients. *)
Definition retags (b : Z) (own own' : Z -> owner) : Prop :=
  forall x, own' x = own x \/ (own x = OSlab b /\ own' x = OLive) \/
    (own x = OLive /\ own' x = OSlab b).

Lemma kinv_update_slab K (a : A) m m' b S S' own' :
  kinv K a m -> k_slabs K !! b = Some S ->
  g_cache S' = g_cache S -> g_addr S' = g_addr S -> g_next S' = g_next S ->
  retags b (k_own K) own' ->
  (forall x, k_own K x <> OSlab b -> own' x <> OSlab b -> load8 m' x = load8 m x) ->
  slab_entry (k_conf K) own' m' b S' ->
  kinv (KState (k_conf K) (k_chain K) (<[b := S']> (k_slabs K)) own') a m'.
Proof.
  intros HK HS Hc Ha Hn Hown Hm Hentry. pose proof HK as [Hpa Hfree Hcache Hslab Hctag Hstag].
  split; cbn [k_conf k_chain k_slabs k_own].
  - apply (pa_frame a m); [done |]. intros x Hx. pose proof (Hfree x Hx) as Hx'.
    apply Hm; [by rewrite Hx' |]. destruct (Hown x) as [-> | [[? _] | [? _]]]; congruence.
  - intros x Hx. pose proof (Hfree x Hx) as Hx'.
    destruct (Hown x) as [-> | [[? _] | [? _]]]; congruence.
  - intros c C HC. destruct (Hcache c C HC) as (l & Hl & He). exists l. split; [done |].
    apply (cache_entry_frame (k_slabs K) _ (k_own K) _ m); [| | | done].
    + intros b' T Hb' HT. destruct (decide (b' = b)) as [-> | Hne].
      * simplify_eq. exists S'. by rewrite lookup_insert_eq.
      * exists T. by rewrite lookup_insert_ne.
    + intros x. destruct (Hown x) as [-> | [[-> ->] | [-> ->]]]; [done | split; congruence ..].
    + intros x Hx. apply Hm; [congruence |].
      destruct (Hown x) as [-> | [[? ?] | [? ?]]]; congruence.
  - intros b' T. destruct (decide (b' = b)) as [-> | Hne].
    { rewrite lookup_insert_eq. by intros [= <-]. }
    rewrite lookup_insert_ne by done. intros HT.
    apply (slab_entry_frame _ (k_own K) _ m); [| | | | by apply Hslab].
    + intros C HC. by apply (kinv_conf_ok K a m (g_cache T)).
    + intros x. destruct (Hown x) as [-> | [[-> ->] | [-> ->]]]; [done | split; congruence ..].
    + intros x _. destruct (Hown x) as [-> | [[-> ->] | [-> ->]]]; [done | congruence ..].
    + intros x Hx. apply Hm; [congruence |].
      destruct (Hown x) as [-> | [[? ?] | [? ?]]]; congruence.
  - intros x c Hx. apply (Hctag x). destruct (Hown x) as [<- | [[? ?] | [? ?]]]; congruence.
  - intros x b' Hx. destruct (decide (b' = b)) as [-> | Hne]; [by rewrite lookup_insert_eq |].
    rewrite lookup_insert_ne by done. apply (Hstag x).
    destruct (Hown x) as [<- | [[? ?] | [? ?]]]; congruence.
Qed.

(** The slab of a cache that a chain starts with. *)
Lemma kinv_head_slab K (a : A) m c C b bs :
  kinv K a m -> k_conf K !! c = Some C -> k_chain K !! c = Some (b :: bs) ->
  exists S, k_slabs K !! b = Some S /\ g_cache S = c /\ load64 m (cache_slab c) = g_addr S /\
    conf_ok C /\ slab_ok C b S /\ slab_rep C b S m /\
    (forall x, k_own K x = OSlab b <-> slab_fp C b S x) /\
    (forall x, b <= x < b + PAGE_SIZE_SMALL -> k_own K x <> OOther) /\ b ∉ bs /\
    chain_ok (k_slabs K) c (g_next S) bs.
Proof.
  intros HK HC Hl. destruct (ki_cache _ _ _ HK c C HC) as (l & Hl' & He). simplify_eq.
  pose proof (ce_chain _ _ _ _ _ _ He) as (S & HS & Hc & Ha & Hrest).
  destruct (ki_slab _ _ _ HK b S HS) as (C' & HC' & Hok & Hrep & Hfp & Hpg).
  rewrite Hc in HC'. simplify_eq. pose proof (ce_nodup _ _ _ _ _ _ He) as Hnd.
  apply NoDup_cons in Hnd as [Hnd _]. exists S. split_and!; try done. by destruct He.
Qed.

(** Give the bytes of an object another owner. *)
Definition retag (lo n : Z) (t : owner) (own : Z -> owner) (x : Z) : owner :=
  if decide (lo <= x < lo + n) then t else own x.

End Invariant.

(** The structure of a slab is outside of its objects. *)
Lemma header_not_object C b S o x :
  conf_ok C -> slab_ok C b S -> o ∈ objects C b ->
  g_addr S <= x < g_addr S + sizeof_slab -> o <= x < o + bufsz C -> False.
Proof.
  intros HC HS Ho Hh Hx. destruct (object_bounds C HC o b Ho) as [H1 H2].
  unfold slab_bytes in H2. destruct (small_objects C) eqn:Es.
  - rewrite (so_small _ _ _ HS Es) in Hh. rewrite page_small_val in *. unfold sizeof_slab in *. lia.
  - pose proof (so_large _ _ _ HS Es). lia.
Qed.

Lemma head_ptr_nonzero C b o l : conf_ok C -> 0 < b -> o ∈ objects C b -> head_ptr C (o :: l) <> 0.
Proof.
  intros HC Hb Ho. destruct (object_bounds C HC o b Ho). pose proof (conf_bufsz _ HC).
  cbn [head_ptr]. unfold bufctl_of, sizeof_bufctl in *. lia.
Qed.

(** The free list after stores to the slab structure only. *)
Lemma free_chain_header C b S m m' l :
  conf_ok C -> slab_ok C b S -> (forall o, o ∈ l -> o ∈ objects C b) ->
  same_outside (g_addr S) (g_addr S + sizeof_slab) m m' ->
  free_chain C m l -> free_chain C m' l.
Proof.
  intros HC HS Hl Hm. apply free_chain_ext. intros o x Ho Hx. apply Hm.
  pose proof (header_not_object C b S o x HC HS (Hl o Ho)) as Hn. pose proof (conf_bufsz _ HC).
  unfold bufctl_of, sizeof_bufctl in *. lia.
Qed.

Section AllocObject.
Context {A : Type} `{PageAllocatorLaws A}.

Definition take_object (K : kstate) (C : conf) (b : Z) (S : slabg) (o : Z) (l : list Z) : kstate :=
  KState (k_conf K) (k_chain K)
    (<[b := SlabG (g_cache S) (g_addr S) (g_next S) l]> (k_slabs K))
    (retag o (bufsz C) OLive (k_own K)).

Lemma take_object_fp C b S o l own :
  conf_ok C -> slab_ok C b S -> g_free S = o :: l ->
  (forall x, own x = OSlab b <-> slab_fp C b S x) ->
  forall x, retag o (bufsz C) OLive own x = OSlab b <->
    slab_fp C b (SlabG (g_cache S) (g_addr S) (g_next S) l) x.
Proof.
  intros HC HS Hf Hown x. assert (o ∈ objects C b) as Ho.
  { apply (so_free _ _ _ HS). rewrite Hf. by left. }
  pose proof (so_nodup _ _ _ HS) as Hnd. rewrite Hf in Hnd. apply NoDup_cons in Hnd as [Hno _].
  unfold retag. case_decide as Hx.
  - split; [done |]. intros [Hh | [_ Hall]]; cbn [g_addr g_free] in *.
    + by destruct (header_not_object C b S o x HC HS Ho Hh).
    + by specialize (Hall o Ho Hx).
  - rewrite Hown. unfold slab_fp. cbn [g_addr g_free]. rewrite Hf.
    split; (intros [Hh | [Hp Hall]]; [by left | right; split; [done |]]); intros o' Ho' Hx'.
    + specialize (Hall o' Ho' Hx'). apply elem_of_cons in Hall as [-> | Hin]; [by exfalso | done].
    + right. by apply Hall.
Qed.

(** Taking the first object off the free list of the first slab. *)
Lemma slab_alloc_object_spec K (a : A) m c C b bs S o l :
  kinv K a m -> k_conf K !! c = Some C -> k_chain K !! c = Some (b :: bs) ->
  k_slabs K !! b = Some S -> g_free S = o :: l ->
  exists m', kmem_slab_alloc_object (load64 m (cache_slab c)) m = Ok (o, m') /\
    kinv (take_object K C b S o l) a m' /\ o <> 0 /\ o ∈ objects C b /\
    same_outside (g_addr S) (g_addr S + sizeof_slab) m m'.
Proof.
  intros HK HC Hl HS Hf.
  destruct (kinv_head_slab K a m c C b bs HK HC Hl)
    as (S' & HS' & Hc & Hptr & Hcok & Hok & Hrep & Hfp & Hpg & Hnb & Hch). simplify_eq.
  assert (o ∈ objects C b) as Ho by (apply (so_free _ _ _ Hok); rewrite Hf; by left).
  destruct (so_addr _ _ _ Hok) as [Ha1 Ha2]. destruct (so_base _ _ _ Hok) as [Hb1 Hb2].
  destruct (object_bounds C Hcok o b Ho) as [Ho1 Ho2]. pose proof (slab_bytes_page C) as Hsb.
  rewrite page_small_val in *. pose proof (conf_bufsz _ Hcok) as Hbz.
  pose proof Hrep as [R1 R2 R3 R4 R5 R6 R7]. rewrite Hf in R3, R5, R7. cbn [free_chain] in R7.
  destruct R7 as (Rn & Ra & Rl). cbn [length] in R5.
  pose proof (head_ptr_nonzero C b o l Hcok Hb1 Ho) as Hne.
  unfold kmem_slab_alloc_object. rewrite Hptr.
  destruct (Z.eqb_spec (g_addr S) 0); [lia |]. rewrite R3.
  destruct (Z.eqb_spec (head_ptr C (o :: l)) 0); [done |]. cbn [head_ptr]. rewrite Rn.
  set (m1 := store64 m (slab_head (g_addr S)) (head_ptr C l)).
  set (m2 := store32 m1 _ _).
  assert (same_outside (g_addr S) (g_addr S + sizeof_slab) m m2) as Hm.
  { unfold sizeof_slab in *. apply same_outside_store; [| unfold slab_nr_free; lia ..].
    apply same_outside_store; [apply same_outside_refl | unfold slab_head; lia ..]. }
  exists m2.
  assert (load64 m2 (bufctl_addr (bufctl_of C o)) = o) as ->.
  { etrans; [| exact Ra]. eapply load_same_outside; [exact Hm |].
    pose proof (header_not_object C b S o) as Hn. specialize (fun x => Hn x Hcok Hok Ho).
    pose proof (Hn (Z.max (g_addr S) (bufctl_addr (bufctl_of C o)))).
    unfold bufctl_addr, bufctl_of, sizeof_bufctl, sizeof_slab in *. simpl. lia. }
  split_and!; [done | | lia | done | done].
  apply (kinv_update_slab K a m m2 b S); try done.
  - intros x. unfold retag. case_decide as Hx; [| by left].
    right. left. split; [| done]. apply Hfp. right. rewrite page_small_val. split; [lia |].
    intros o' Ho' Hx'. rewrite (objects_disjoint C Hcok o' o b x Ho' Ho Hx' Hx), Hf. by left.
  - intros x Hx _. apply Hm. rewrite Hfp in Hx. unfold slab_fp in Hx.
    destruct (decide (g_addr S <= x < g_addr S + sizeof_slab)); [tauto | lia].
  - exists C. cbn [g_cache]. split_and!; [done | | | by apply take_object_fp |].
    3: { intros x Hx. unfold retag. case_decide; [done | by apply Hpg]. }
    + destruct Hok as [B1 B2 B3 B4 B5 B6 B7 B8]. rewrite Hf in B3, B4.
      split; cbn [g_free g_addr g_next]; try done; [| by apply NoDup_cons in B4 as [_ ?]].
      intros o' Ho'. apply B3. by right.
    + assert (free_chain C m2 l) as Hfc.
      { apply (free_chain_header C b S m m2 l Hcok Hok); [| done | done]. intros o' Ho'.
        apply (so_free _ _ _ Hok). rewrite Hf. by right. }
      assert (is_u64 (head_ptr C l)) as Hu by (rewrite <- Rn; apply load64_range).
      unfold m2, m1, slab_cache, slab_base, slab_head, slab_next, slab_nr_free, slab_capacity in *.
      unfold is_u64 in Hu.
      split; cbn [g_cache g_addr g_next g_free]; try done;
        unfold slab_cache, slab_base, slab_head, slab_next, slab_nr_free, slab_capacity;
        mem_simpl; try done.
      * apply Z.mod_small. done.
      * pose proof (load32_range m (g_addr S + 32)) as Hr. unfold load32 in R5, Hr.
        rewrite R5 in Hr |- *. rewrite Z.mod_small; lia.
Qed.

End AllocObject.

(** ** Creating a slab *)

Section CreateLoop.
Context (C : conf) (HC : conf_ok C) (c b slab : Z).
Context (Hb : 0 < b) (Hb' : b + 4096 < 2 ^ 64).
Context (Hslab : slab + 40 <= b \/ b + slab_bytes C <= slab).
Context (Hc1 : c + 64 <= b \/ b + slab_bytes C <= c).
Context (Hc2 : c + 64 <= slab \/ slab + 40 <= c).
#[local] Set Default Proof Using "All".

(** One more object fits exactly while the capacity is not reached. *)
Lemma object_fits k :
  0 <= k <= capacity C -> ((k + 1) * bufsz C <=? slab_bytes C) = (k <? capacity C).
Proof.
  intros Hk. destruct HC as [_ _ Hz]. unfold sizeof_bufctl in Hz. unfold capacity in *.
  pose proof (Z.div_mod (slab_bytes C) (bufsz C)).
  pose proof (Z.mod_pos_bound (slab_bytes C) (bufsz C)).
  destruct (Z.ltb_spec k (slab_bytes C / bufsz C)), (Z.leb_spec ((k + 1) * bufsz C) (slab_bytes C));
    nia.
Qed.

Lemma create_step k m :
  0 <= k < capacity C -> load64 m (cache_bufctl c) = bufsz C - sizeof_bufctl ->
  let o := b + k * bufsz C in
  kmem_object_to_bufctl m c (u64 (b + k * bufsz C)) = bufctl_of C o /\
  u64 (k * bufsz C + bufsz C) = (k + 1) * bufsz C /\
  u64 (b + k * bufsz C) = o /\ b <= o /\ o + bufsz C <= b + slab_bytes C.
Proof.
  intros Hk Hcb o. pose proof (slab_bytes_page C).
  destruct (object_bounds C HC o b) as [H1 H2]; [apply elem_of_objects; by exists k |].
  pose proof (conf_bufsz _ HC). unfold sizeof_bufctl in *.
  assert (u64 (b + k * bufsz C) = o) as Hu by (apply u64_small; unfold o in *; lia).
  split_and!; [| | done | done | done].
  - unfold kmem_object_to_bufctl. rewrite Hu, Hcb. apply u64_small. unfold bufctl_of, sizeof_bufctl, o in *. lia.
  - rewrite u64_small; unfold o in *; lia.
Qed.

Lemma create_loop_spec (rem : nat) : forall fuel k m,
  (rem < fuel)%nat -> 0 <= k -> k + Z.of_nat rem = capacity C ->
  load64 m (cache_bufctl c) = bufsz C - sizeof_bufctl ->
  load32 m (slab_capacity slab) = k -> load32 m (slab_nr_free slab) = k ->
  exists m', kmem_slab_create_loop fuel c b slab (slab_bytes C) (bufsz C) (k * bufsz C) m = Ok m' /\
    free_chain C m' (stride (b + k * bufsz C) (bufsz C) rem) /\
    load32 m' (slab_capacity slab) = capacity C /\ load32 m' (slab_nr_free slab) = capacity C /\
    (forall x, ~ b + k * bufsz C <= x < b + slab_bytes C -> ~ slab + 32 <= x < slab + 40 ->
       load8 m' x = load8 m x).
Proof.
  pose proof (conf_bufsz _ HC) as Hz. pose proof (slab_bytes_page C) as Hsb.
  destruct (capacity_bounds C HC) as (_ & _ & Hcap).
  unfold sizeof_bufctl in Hz |- *.
  induction rem as [|rem IH]; intros fuel k m Hf Hk Hkr Hcb Hcp Hnf;
    (destruct fuel as [|fuel]; [lia |]); cbn [kmem_slab_create_loop].
  - assert (u64 (k * bufsz C + bufsz C) = (k + 1) * bufsz C) as ->.
    { replace k with (capacity C) by lia. destruct (capacity_bounds C HC) as (? & ? & _).
      rewrite u64_small; nia. }
    rewrite object_fits by lia. destruct (Z.ltb_spec k (capacity C)); [lia |].
    exists m. split_and!; [done | done | lia | lia | done].
  - destruct (create_step k m) as (Eb & Eo & Ea & Ho1 & Ho2); [lia | exact Hcb |].
    rewrite Eo, Ea in *. rewrite Eb. rewrite object_fits by lia.
    destruct (Z.ltb_spec k (capacity C)); [| lia].
    set (o := b + k * bufsz C) in *. set (bc := bufctl_of C o).
    assert (bc + 24 = o + bufsz C) as Hbc by (unfold bc, bufctl_of, sizeof_bufctl; lia).
    assert (u64 ((k + 1) * bufsz C + bufsz C) = (k + 1 + 1) * bufsz C) as ->.
    { rewrite u64_small; [lia |]. unfold o in *. nia. }
    rewrite object_fits by lia.
    set (nxt := head_ptr C (stride (o + bufsz C) (bufsz C) rem)).
    assert (0 <= nxt < 2 ^ 64 /\ (if k + 1 <? capacity C
      then store64 m (bufctl_next bc) (kmem_object_to_bufctl m c (u64 (b + (k + 1) * bufsz C)))
      else store64 m (bufctl_next bc) 0) = store64 m bc nxt) as [Hnxt ->].
    { unfold nxt, bufctl_next. replace (o + bufsz C) with (b + (k + 1) * bufsz C) by (unfold o; lia).
      destruct rem as [|rem]; cbn [stride head_ptr].
      - destruct (Z.ltb_spec (k + 1) (capacity C)); [lia | done].
      - destruct (Z.ltb_spec (k + 1) (capacity C)); [| lia].
        destruct (create_step (k + 1) m) as (E1 & _ & _ & ? & ?); [lia | exact Hcb |].
        rewrite E1. split; [| done]. unfold bufctl_of, sizeof_bufctl. lia. }
    set (m5 := store32 _ (slab_nr_free slab) _).
    unfold slab_capacity, slab_nr_free, bufctl_addr, bufctl_slab, cache_bufctl in *.
    assert (forall x, ~ bc <= x < bc + 24 -> ~ slab + 32 <= x < slab + 40 -> load8 m5 x = load8 m x)
      as Hm5 by (intros x Hx Hx'; unfold m5, store32, store64; rewrite !load8_store_out by (simpl; lia); done).
    destruct (IH fuel (k + 1) m5) as (m' & E & Hch & Hcp' & Hnf' & Hm'); [lia | lia | lia | | | |].
    + rewrite <- Hcb. apply load_ext. intros x Hx. simpl in Hx. apply Hm5; lia.
    + unfold m5. mem_simpl. unfold load32 in Hcp. rewrite Hcp. rewrite Z.mod_small; lia.
    + unfold m5. mem_simpl. unfold load32 in Hnf. rewrite Hnf. rewrite Z.mod_small; lia.
    + exists m'. replace (b + (k + 1) * bufsz C) with (o + bufsz C) in * by (unfold o; lia).
      split_and!; [done | | done | done |].
      * cbn [stride free_chain]. fold bc. fold nxt. unfold bufctl_next, bufctl_addr.
        assert (forall off, 0 <= off <= 16 -> load64 m' (bc + off) = load64 m5 (bc + off)) as Hb5.
        { intros off Hoff. apply load_ext. intros x Hx. simpl in Hx. apply Hm'; lia. }
        pose proof (Hb5 0) as Hb50. rewrite Z.add_0_r in Hb50. rewrite Hb50, Hb5 by lia.
        split_and!; [| | done]; unfold m5; mem_simpl; apply Z.mod_small; lia.
      * intros x Hx1 Hx2. rewrite Hm' by lia. apply Hm5; lia.
Qed.

End CreateLoop.

(** ** Pages in and out of the page allocator *)

Section Pages.
Context {A : Type} `{PageAllocatorLaws A}.

(** Only owned bytes and free pages matter. *)
Lemma kinv_frame K (a a' : A) m m' :
  kinv K a m -> pa_rep a' m' -> (forall x, pa_own a' x -> k_own K x = OOther) ->
  (forall x, k_own K x <> OOther -> k_own K x <> OLive -> load8 m' x = load8 m x) ->
  kinv K a' m'.
Proof.
  intros HK Hpa Hfree Hm. pose proof HK as [_ _ Hcache Hslab Hctag Hstag].
  split; [done | done | | | done | done].
  - intros c C HC. destruct (Hcache c C HC) as (l & Hl & He). exists l. split; [done |].
    apply (cache_entry_frame (k_slabs K) _ (k_own K) _ m); [| done | | done].
    + intros b S _ HS. by exists S.
    + intros x Hx. apply Hm; congruence.
  - intros b S HS. apply (slab_entry_frame _ (k_own K) _ m); [| done | done | | by apply Hslab].
    + intros C HC. by apply (kinv_conf_ok K a m (g_cache S)).
    + intros x Hx. apply Hm; congruence.
Qed.

(** Whatever the clients store in their memory, the invariant holds. *)
Lemma kinv_client_store K (a : A) m m' :
  kinv K a m -> (forall x, ~ client K a x -> load8 m' x = load8 m x) -> kinv K a m'.
Proof.
  intros HK Hm. apply (kinv_frame K a a m); [done | | by apply HK |].
  - apply (pa_frame a m); [apply HK |]. intros x Hx. apply Hm. intros [Hl | [_ Hn]]; [| done].
    apply (ki_free _ _ _ HK) in Hx. congruence.
  - intros x Hx Hx'. apply Hm. intros [Hl | [Hl _]]; congruence.
Qed.

Definition in_page (p x : Z) : Prop := p <= x < p + PAGE_SIZE_SMALL.

Lemma kinv_page_alloc K (a : A) m :
  kinv K a m ->
  (pa_empty a /\ page_alloc_small a m = Ok (0, a, m)) \/
  exists p a' m', page_alloc_small a m = Ok (p, a', m') /\ kinv K a' m' /\
    0 < p /\ (PAGE_SIZE_SMALL | p) /\ p + PAGE_SIZE_SMALL < 2 ^ 64 /\
    (forall x, in_page p x -> k_own K x = OOther /\ ~ pa_own a' x /\ ~ client K a x) /\
    (forall x, client K a' x <-> client K a x \/ in_page p x) /\
    (forall x, client K a x -> load8 m' x = load8 m x).
Proof.
  intros HK. destruct (pa_alloc_small a m (ki_pa _ _ _ HK))
    as [E | (p & a' & m' & E & Hp & Hd & He & Hin & Hrep & Hown & Hm)]; [by left |].
  right. exists p, a', m'. unfold in_page.
  assert (forall x, p <= x < p + PAGE_SIZE_SMALL -> k_own K x = OOther) as Hother.
  { intros x Hx. by apply (ki_free _ _ _ HK), Hin. }
  assert (forall x, pa_own a x -> ~ client K a x) as Hnc.
  { intros x Hx [Hl | [_ Hn]]; [| done]. apply (ki_free _ _ _ HK) in Hx. congruence. }
  split_and!; try done.
  - apply (kinv_frame K a a' m); [done | done | |].
    + intros x Hx. apply Hown in Hx as [Hx _]. by apply (ki_free _ _ _ HK).
    + intros x Hx _. apply Hm. intros Hx'. by apply Hx, (ki_free _ _ _ HK).
  - intros x Hx. split_and!; [by apply Hother | | by apply Hnc, Hin].
    intros Ho. by apply Hown in Ho as [_ ?].
  - intros x. unfold client. rewrite Hown. split.
    + intros [Hl | [Hl Hn]]; [by left; left |].
      destruct (decide (p <= x < p + PAGE_SIZE_SMALL)); [by right | left; right; tauto].
    + intros [[Hl | [Hl Hn]] | Hx]; [by left | right; tauto | right]. split; [by apply Hother | tauto].
  - intros x Hx. apply Hm. intros Hx'. by apply (Hnc x).
Qed.

Lemma kinv_page_free K (a : A) m p :
  kinv K a m -> 0 < p -> (PAGE_SIZE_SMALL | p) -> p + PAGE_SIZE_SMALL < 2 ^ 64 ->
  (forall x, in_page p x -> k_own K x = OOther /\ ~ pa_own a x) ->
  exists a' m', page_free_small p a m = (a', m') /\ kinv K a' m' /\
    (forall x, pa_own a' x <-> pa_own a x \/ in_page p x) /\
    (forall x, client K a' x <-> client K a x /\ ~ in_page p x) /\
    (forall x, client K a' x -> load8 m' x = load8 m x).
Proof.
  intros HK Hp Hd He Hpage.
  destruct (pa_free_small p a m (ki_pa _ _ _ HK) Hp Hd He) as (a' & m' & E & Hrep & Hown & Hm).
  { intros x Hx. by apply Hpage. }
  exists a', m'. split_and!; try done.
  - apply (kinv_frame K a a' m); [done | done | |].
    + intros x Hx. apply Hown in Hx as [Hx | Hx]; [by apply (ki_free _ _ _ HK) | by apply Hpage].
    + intros x Hx _. apply Hm. intros Hx'. apply Hx.
      apply Hown in Hx' as [Hx' | Hx']; [by apply (ki_free _ _ _ HK) | by apply Hpage].
  - intros x. unfold client. rewrite Hown. fold (in_page p x). split.
    + intros [Hl | [Hl Hn]]; [| tauto]. split; [by left |].
      intros Hx. apply Hpage in Hx as [Hx _]. congruence.
    + intros [[Hl | [Hl Hn]] Hx]; [by left | right; tauto].
  - intros x Hx. apply Hm. intros Hx'.
    assert (k_own K x = OOther) as Ho.
    { apply Hown in Hx' as [Hx' | Hx']; [by apply (ki_free _ _ _ HK) | by apply Hpage]. }
    destruct Hx as [Hx | [_ Hx]]; [congruence | done].
Qed.

End Pages.

(** ** A new slab *)

Section NewSlab.
Context {A : Type} `{PageAllocatorLaws A}.

(** The state with a new slab of cache [c] in page [p], all objects free. *)
Definition add_slab (K : kstate) (c : Z) (C : conf) (p slab : Z) : kstate :=
  KState (k_conf K) (k_chain K)
    (<[p := SlabG c slab 0 (objects C p)]> (k_slabs K))
    (fun x => if decide (slab <= x < slab + sizeof_slab \/ p <= x < p + PAGE_SIZE_SMALL)
              then OSlab p else k_own K x).

(** Bytes of a fresh page and of a fresh slab structure. *)
Record fresh_slab (K : kstate) (a : A) (C : conf) (p slab : Z) : Prop := {
  fs_page x : in_page p x -> k_own K x = OOther /\ ~ pa_own a x;
  fs_base : 0 < p /\ p + PAGE_SIZE_SMALL < 2 ^ 64;
  fs_aligned : (PAGE_SIZE_SMALL | p);
  fs_addr : 0 < slab /\ slab + sizeof_slab < 2 ^ 64;
  fs_small : small_objects C = true -> slab = p + PAGE_SIZE_SMALL - sizeof_slab;
  fs_large : small_objects C = false ->
    (forall x, slab <= x < slab + sizeof_slab -> k_own K x = OLive)
}.

Lemma fresh_header K (a : A) C p slab x :
  fresh_slab K a C p slab -> slab <= x < slab + sizeof_slab ->
  in_page p x \/ k_own K x = OLive.
Proof.
  intros HF Hx. destruct (small_objects C) eqn:Es.
  - left. pose proof (fs_small _ _ _ _ _ HF Es). unfold in_page, sizeof_slab in *.
    rewrite page_small_val in *. lia.
  - right. by apply (fs_large _ _ _ _ _ HF Es).
Qed.

Lemma fresh_disjoint K (a : A) C p slab :
  fresh_slab K a C p slab -> small_objects C = false ->
  slab + sizeof_slab <= p \/ p + PAGE_SIZE_SMALL <= slab.
Proof.
  intros HF Es. apply ranges_disjoint; [done | done |]. intros x Hx Hp.
  pose proof (fs_large _ _ _ _ _ HF Es x Hx). destruct (fs_page _ _ _ _ _ HF x Hp). congruence.
Qed.

Lemma fresh_not_slab K (a : A) m C p slab :
  kinv K a m -> fresh_slab K a C p slab -> k_slabs K !! p = None.
Proof.
  intros HK HF. destruct (k_slabs K !! p) as [S |] eqn:E; [exfalso | done].
  destruct (ki_slab _ _ _ HK p S E) as (C' & _ & _ & _ & _ & Hpg).
  apply (Hpg p); [rewrite page_small_val; lia |]. apply (fs_page _ _ _ _ _ HF).
  unfold in_page. rewrite page_small_val. lia.
Qed.

(** The new slab leaves the rest of the state alone. *)
Lemma kinv_add_slab K (a : A) m m' c C p slab :
  kinv K a m -> k_conf K !! c = Some C -> fresh_slab K a C p slab ->
  (forall x, ~ in_page p x -> ~ slab <= x < slab + sizeof_slab -> load8 m' x = load8 m x) ->
  slab_rep C p (SlabG c slab 0 (objects C p)) m' ->
  kinv (add_slab K c C p slab) a m'.
Proof.
  intros HK HC HF Hm Hrep. pose proof HK as [Hpa Hfree Hcache Hslab Hctag Hstag].
  pose proof (fresh_not_slab K a m C p slab HK HF) as Hnone.
  pose proof (kinv_conf_ok K a m c C HK HC) as Hcok.
  assert (forall x, k_own K x <> OOther -> k_own K x <> OLive ->
    ~ in_page p x /\ ~ slab <= x < slab + sizeof_slab) as Hout.
  { intros x H1 H2. assert (~ in_page p x) by (intros Hp; by apply (fs_page _ _ _ _ _ HF) in Hp as [? _]).
    split; [done |]. intros Hh. by destruct (fresh_header K a C p slab x HF Hh). }
  assert (forall x t, (t <> OOther) -> (t <> OLive) -> t <> OSlab p ->
    k_own (add_slab K c C p slab) x = t <-> k_own K x = t) as Hsame.
  { intros x t H1 H2 H3. unfold add_slab; cbn [k_own]. case_decide as Hx; [| done].
    split; [congruence |]. intros Ht. destruct (Hout x) as [Hp Hh]; [congruence.. |].
    unfold in_page in Hp. tauto. }
  change (k_conf K) with (k_conf (add_slab K c C p slab)) in Hslab, Hcache, Hctag, HC.
  split; try change (k_slabs (add_slab K c C p slab)) with
    (<[p := SlabG c slab 0 (objects C p)]> (k_slabs K)).
  - apply (pa_frame a m); [done |]. intros x Hx. apply Hm.
    + intros Hp. by apply (fs_page _ _ _ _ _ HF) in Hp as [_ ?].
    + intros Hh. destruct (fresh_header K a C p slab x HF Hh) as [Hp | Hl].
      * by apply (fs_page _ _ _ _ _ HF) in Hp as [_ ?].
      * apply Hfree in Hx. congruence.
  - intros x Hx. unfold add_slab; cbn [k_own]. rewrite decide_False; [by apply Hfree |].
    intros [Hh | Hp]; [| by apply (fs_page _ _ _ _ _ HF) in Hp as [_ ?]].
    destruct (fresh_header K a C p slab x HF Hh) as [Hp | Hl].
    + by apply (fs_page _ _ _ _ _ HF) in Hp as [_ ?].
    + apply Hfree in Hx. congruence.
  - intros c' C' HC'. destruct (Hcache c' C' HC') as (l & Hl & He). exists l. split; [done |].
    apply (cache_entry_frame (k_slabs K) _ (k_own K) _ m); [| | | done].
    + intros b T _ HT. exists T. rewrite lookup_insert_ne; [done | congruence].
    + intros x. by apply Hsame.
    + intros x Hx. destruct (Hout x); [congruence.. | auto].
  - intros b T. destruct (decide (b = p)) as [-> | Hne].
    + rewrite lookup_insert_eq. intros [= <-]. exists C. cbn [g_cache]. split_and!; try done.
      * destruct HF as [F1 F2 F3 F4 F5 F6]. split; cbn [g_addr g_free g_next]; try done.
        -- by apply objects_nodup.
        -- intros Es. eapply fresh_disjoint; [| done]. by split.
      * intros x. unfold add_slab, slab_fp; cbn [k_own g_addr g_free]. case_decide as Hx; [tauto |].
        split; [| tauto]. intros Ht. destruct (Hstag x p Ht). congruence.
      * intros x Hx. unfold add_slab; cbn [k_own]. by rewrite decide_True by tauto.
    + rewrite lookup_insert_ne by done. intros HT.
      apply (slab_entry_frame _ (k_own K) _ m); [| | | | by apply Hslab].
      * intros C' HC'. by apply (kinv_conf_ok K a m (g_cache T)).
      * intros x. apply Hsame; congruence.
      * intros x _. unfold add_slab; cbn [k_own]. by case_decide.
      * intros x Hx. destruct (Hout x); [congruence.. | auto].
  - intros x c' Hx. apply (Hctag x). by apply Hsame in Hx.
  - intros x b Hx. destruct (decide (b = p)) as [-> | Hne]; [by rewrite lookup_insert_eq |].
    rewrite lookup_insert_ne by done. apply (Hstag x). apply Hsame in Hx; [done | congruence..].
Qed.

(** The cache structure is apart from the new slab. *)
Lemma fresh_cache_disjoint K (a : A) m c C p slab :
  kinv K a m -> k_conf K !! c = Some C -> fresh_slab K a C p slab ->
  (c + 64 <= p \/ p + 4096 <= c) /\ (c + 64 <= slab \/ slab + 40 <= c).
Proof.
  intros HK HC HF. destruct (ki_cache _ _ _ HK c C HC) as (l & _ & He).
  pose proof (ce_own _ _ _ _ _ _ He) as Hown. unfold sizeof_cache in Hown.
  assert (forall x, in_page p x -> c <= x < c + 64 -> False) as Hp.
  { intros x Hx Hx'. apply Hown in Hx'. destruct (fs_page _ _ _ _ _ HF x Hx). congruence. }
  split; apply ranges_disjoint; try lia; intros x Hx Hx'.
  - by apply (Hp x).
  - destruct (fresh_header K a C p slab x HF Hx') as [Hx'' | Hl]; [by apply (Hp x) |].
    apply Hown in Hx. congruence.
Qed.

Lemma slab_setup_spec K (a : A) m c C p slab :
  kinv K a m -> k_conf K !! c = Some C -> fresh_slab K a C p slab ->
  exists m', kmem_slab_setup c p slab (slab_bytes C) m = Ok m' /\
    slab_rep C p (SlabG c slab 0 (objects C p)) m' /\
    (forall x, ~ in_page p x -> ~ slab <= x < slab + sizeof_slab -> load8 m' x = load8 m x).
Proof.
  intros HK HC HF. destruct (fresh_cache_disjoint K a m c C p slab HK HC HF) as [Hd1 Hd2].
  pose proof (kinv_conf_ok K a m c C HK HC) as Hcok. pose proof (slab_bytes_page C) as Hsb.
  destruct (ki_cache _ _ _ HK c C HC) as (l & _ & [_ [Hc1 Hc2] _ Hcb Hcs Hca _ _]).
  pose proof (fs_base _ _ _ _ _ HF) as [Hp1 Hp2]. pose proof (fs_addr _ _ _ _ _ HF) as [Ha1 Ha2].
  rewrite page_small_val in Hp2. destruct (capacity_bounds C Hcok) as (Hcap1 & Hcap & Hcap2).
  pose proof (conf_bufsz _ Hcok) as Hz.
  assert (slab + 40 <= p \/ p + slab_bytes C <= slab) as Hdh.
  { unfold slab_bytes in *. destruct (small_objects C) eqn:Es.
    - pose proof (fs_small _ _ _ _ _ HF Es). lia.
    - pose proof (fresh_disjoint _ _ _ _ _ HF Es). unfold sizeof_slab in *. lia. }
  unfold sizeof_slab, sizeof_cache, sizeof_bufctl, cache_bufctl, cache_size, cache_align in *.
  unfold kmem_slab_setup, slab_cache, slab_base, slab_head, slab_next, slab_nr_free, slab_capacity,
    cache_size, cache_align.
  set (m1 := store64 (store64 m slab c) (slab + 16) p).
  assert (kmem_object_to_bufctl m1 c p = bufctl_of C p) as ->.
  { unfold kmem_object_to_bufctl, cache_bufctl, bufctl_of, sizeof_bufctl, m1.
    unfold load64 in *. mem_simpl. rewrite Hcb. apply u64_small. lia. }
  set (m2 := store32 _ (slab + 36) 0).
  assert (same_outside slab (slab + 40) m m2) as Hm2.
  { unfold m2, m1. repeat (apply same_outside_store; [| lia | simpl; lia]). apply same_outside_refl. }
  assert (forall off, 0 <= off -> off + 8 <= 64 -> load64 m2 (c + off) = load64 m (c + off)) as Hcm.
  { intros off H1 H2. eapply load_same_outside; [exact Hm2 | simpl; lia]. }
  rewrite !Hcm, Hcs, Hca by lia.
  destruct (create_loop_spec C Hcok c p slab Hp1 Hp2 Hdh ltac:(lia) Hd2 (Z.to_nat (capacity C))
    (S (Z.to_nat (slab_bytes C))) 0 m2) as (m' & E & Hch & Hcp & Hnf & Hm'); try lia.
  { assert (capacity C <= capacity C * bufsz C) by nia. lia. }
  { unfold cache_bufctl. rewrite <- (Z.add_0_r c), Hcm, Z.add_0_r by lia. done. }
  { unfold m2, slab_capacity. mem_simpl. done. }
  { unfold m2, slab_nr_free. mem_simpl. done. }
  exists m'. split_and!; [exact E | |].
  - assert (forall off, 0 <= off -> off + 8 <= 32 -> load64 m' (slab + off) = load64 m2 (slab + off)) as Hh.
    { intros off H1 H2. apply load_ext. intros x Hx. simpl in Hx. apply Hm'; lia. }
    pose proof (load64_range m (c + 8)).
    split; cbn [g_cache g_addr g_next g_free]; try done.
    + unfold slab_cache. rewrite <- (Z.add_0_r slab), Hh, Z.add_0_r by lia.
      unfold m2, m1. mem_simpl. apply Z.mod_small. lia.
    + unfold slab_base. rewrite Hh by lia. unfold m2, m1. mem_simpl. apply Z.mod_small. lia.
    + unfold slab_head. rewrite Hh by lia. unfold m2, m1. mem_simpl.
      unfold objects. destruct (Z.to_nat (capacity C)) eqn:En; [lia |]. cbn [stride head_ptr].
      apply Z.mod_small. unfold bufctl_of, sizeof_bufctl. lia.
    + unfold slab_next. rewrite Hh by lia. unfold m2, m1. by mem_simpl.
    + rewrite Hnf. unfold objects. rewrite length_stride. lia.
    + unfold objects. by rewrite Z.mul_0_l, Z.add_0_r in Hch.
  - intros x Hx1 Hx2. unfold in_page in Hx1. rewrite page_small_val in Hx1.
    rewrite Hm' by lia. apply Hm2. lia.
Qed.

End NewSlab.

(** ** Putting a new slab in front of its cache *)

Section Push.
Context {A : Type} `{PageAllocatorLaws A}.

Definition push_slab (K : kstate) (c p : Z) (S : slabg) (next : Z) (l : list Z) : kstate :=
  KState (k_conf K) (<[c := p :: l]> (k_chain K))
    (<[p := SlabG (g_cache S) (g_addr S) next (g_free S)]> (k_slabs K)) (k_own K).

Lemma chain_ok_elem slabs c ptr l b :
  chain_ok slabs c ptr l -> b ∈ l -> exists S, slabs !! b = Some S /\ g_cache S = c.
Proof.
  revert ptr. induction l as [|b' l IH]; intros ptr; cbn [chain_ok].
  - intros _ Hb. by apply not_elem_of_nil in Hb.
  - intros (S & HS & Hc & _ & Hl) Hb. apply elem_of_cons in Hb as [-> | Hb]; [by exists S | by eapply IH].
Qed.

(** Slabs that a change of slab [p] cannot affect. *)
Lemma same_links_insert slabs p S l : p ∉ l -> same_links slabs (<[p := S]> slabs) l.
Proof.
  intros Hp b T Hb HT. exists T. rewrite lookup_insert_ne; [done |]. intros ->. done.
Qed.

Lemma kinv_push_slab K (a : A) m c C l p S :
  kinv K a m -> k_conf K !! c = Some C -> k_chain K !! c = Some l ->
  k_slabs K !! p = Some S -> g_cache S = c -> p ∉ l ->
  let next := load64 m (cache_slab c) in
  let m' := store64 (store64 m (slab_next (g_addr S)) next) (cache_slab c) (g_addr S) in
  kinv (push_slab K c p S next l) a m' /\
  (forall x, k_own K x <> OSlab p -> k_own K x <> OCache c -> load8 m' x = load8 m x).
Proof.
  intros HK HC Hl HS Hc Hp next m'. pose proof HK as [Hpa Hfree Hcache Hslab Hctag Hstag].
  destruct (Hcache c C HC) as (l' & Hl' & He). simplify_eq.
  destruct (Hslab p S HS) as (C' & HC' & Hok & Hrep & Hfp & Hpg). simplify_eq.
  pose proof (kinv_conf_ok K a m _ C HK HC) as Hcok.
  set (c := g_cache S) in *.
  pose proof (ce_own _ _ _ _ _ _ He) as Hown. pose proof (ce_addr _ _ _ _ _ _ He) as [Hc1 Hc2].
  destruct (so_addr _ _ _ Hok) as [Ha1 Ha2].
  assert (forall x, k_own K x <> OSlab p -> k_own K x <> OCache c -> load8 m' x = load8 m x) as Hm.
  { intros x Hx1 Hx2. rewrite Hfp in Hx1. rewrite Hown in Hx2.
    unfold m', store64. unfold slab_fp, cache_slab, slab_next, sizeof_cache, sizeof_slab in *.
    rewrite !load8_store_out; [done | simpl; lia..]. }
  assert (c + 64 <= g_addr S \/ g_addr S + 40 <= c) as Hd.
  { apply ranges_disjoint; [lia | lia |]. intros x Hx Hx'. apply Hown in Hx.
    assert (k_own K x = OSlab p) by (apply Hfp; left; exact Hx'). congruence. }
  pose proof (load64_range m (cache_slab c)) as Hnx. fold next in Hnx.
  split; [| done]. unfold push_slab. split; cbn [k_conf k_chain k_slabs k_own]; try done.
  - apply (pa_frame a m); [done |]. intros x Hx. apply Hfree in Hx. apply Hm; congruence.
  - intros c' C' HC'. destruct (decide (c' = c)) as [-> | Hne].
    + exists (p :: l). split; [apply lookup_insert_eq |].
      rewrite HC in HC'. injection HC' as <-. destruct He as [E1 E2 E3 E4 E5 E6 E7 E8].
      unfold cache_bufctl, cache_size, cache_align, cache_slab, sizeof_cache in *.
      split; try done; unfold cache_bufctl, cache_size, cache_align, cache_slab, m', slab_next.
      * by mem_simpl.
      * by mem_simpl.
      * by mem_simpl.
      * by constructor.
      * cbn [chain_ok]. exists (SlabG c (g_addr S) next (g_free S)).
        rewrite lookup_insert_eq. cbn [g_cache g_addr g_next].
        split_and!; [done | done | |].
        -- mem_simpl. symmetry. apply Z.mod_small. unfold sizeof_slab in *. lia.
        -- apply (chain_ok_same (k_slabs K)); [by apply same_links_insert | done].
    + destruct (Hcache c' C' HC') as (l' & Hl' & He'). exists l'.
      rewrite lookup_insert_ne by done. split; [done |].
      apply (cache_entry_frame (k_slabs K) _ (k_own K) _ m); [| done | | done].
      * apply same_links_insert. intros Hin.
        destruct (chain_ok_elem _ _ _ _ p (ce_chain _ _ _ _ _ _ He') Hin) as (T & HT & Hct).
        apply Hne. unfold c. congruence.
      * intros x Hx. apply Hm; congruence.
  - intros b T. destruct (decide (b = p)) as [-> | Hne].
    + rewrite lookup_insert_eq. intros [= <-]. exists C. cbn [g_cache].
      split_and!; [done | | | done | done].
      * destruct Hok. split; cbn [g_addr g_free g_next]; try done.
      * assert (forall x, ~ g_addr S <= x < g_addr S + 40 -> slab_fp C p S x -> load8 m' x = load8 m x) as Hmo.
        { intros x Hx Hx'. apply Hfp in Hx'. unfold m', store64, cache_slab, slab_next.
          assert (~ c <= x < c + 64) by (intros Hcx; apply Hown in Hcx; congruence).
          rewrite !load8_store_out; [done | simpl; lia..]. }
        destruct Hrep as [R1 R2 R3 R4 R5 R6 R7].
        assert (free_chain C m' (g_free S)) as Hfc.
        { revert R7. apply free_chain_ext. intros o x Ho Hx. apply Hmo; [| by apply (bufctl_in_fp C p S o)].
          intros Hh. pose proof (conf_bufsz _ Hcok). unfold bufctl_of, sizeof_bufctl in *.
          apply (header_not_object C p S o x Hcok Hok); [by apply (so_free _ _ _ Hok) | exact Hh | lia]. }
        unfold m', slab_cache, slab_base, slab_head, slab_next, slab_nr_free, slab_capacity, cache_slab in *.
        split; cbn [g_cache g_addr g_next g_free]; try done;
          unfold slab_cache, slab_base, slab_head, slab_next, slab_nr_free, slab_capacity;
          mem_simpl; try done. apply Z.mod_small. done.
    + rewrite lookup_insert_ne by done. intros HT.
      apply (slab_entry_frame _ (k_own K) _ m); [| done | done | | by apply Hslab].
      * intros C' HC''. by apply (kinv_conf_ok K a m (g_cache T)).
      * intros x Hx. apply Hm; congruence.
  - intros x b Hx. destruct (decide (b = p)) as [-> | Hne]; [by rewrite lookup_insert_eq |].
    rewrite lookup_insert_ne by done. by apply (Hstag x).
Qed.

End Push.
