(* ===== verification/KmemAlloc.v ===== *)
(** * Allocation and release of objects

    [kmem_cache_alloc] and [kmem_alloc] keep the invariant and hand out memory
    that nobody uses; [kmem_cache_free] takes back an object of the first slab;
    and the schedule that makes it release a page with a live object in it. *)

From S2P Require Import Prelude Align Mem PageAlloc PageAllocProof Printf LibcString Kmem KmemProof.

(** What every operation preserves: the caches, and the memory of the clients. *)
Record step_post {A} `{PageAllocatorLaws A} (K : kstate) (a : A) (m : mem)
  (K' : kstate) (a' : A) (m' : mem) : Prop := {
  sp_inv : kinv K' a' m';
  sp_conf : k_conf K' = k_conf K;
  sp_chain c b bs : k_chain K !! c = Some (b :: bs) -> exists b' bs', k_chain K' !! c = Some (b' :: bs');
  sp_mem x : client K a x -> load8 m' x = load8 m x;
  sp_live x : k_own K x = OLive -> k_own K' x = OLive;
  sp_other x : k_own K x = OOther -> ~ pa_own a x -> k_own K' x = OOther /\ ~ pa_own a' x
}.

(** Either nothing, or [n] bytes at [r] that were in nobody's use. *)
Definition gives {A} `{PageAllocatorLaws A} (n : Z) (K : kstate) (a : A) (r : Z) (K' : kstate) (a' : A)
  : Prop :=
  (r = 0 /\ forall x, client K' a' x <-> client K a x) \/
  (0 < r /\ r + n < 2 ^ 64 /\
   (forall x, r <= x < r + n -> k_own K' x = OLive /\ ~ client K a x) /\
   (forall x, client K' a' x <-> client K a x \/ r <= x < r + n)).

Section Alloc.
Context {A : Type} `{PageAllocatorLaws A}.
Context (kmem_slab_cache : Z).

Lemma step_post_refl K (a : A) m : kinv K a m -> step_post K a m K a m.
Proof. intros HK. split; try done. eauto. Qed.

Lemma step_post_client K (a : A) m K' a' m' x : step_post K a m K' a' m' -> client K a x -> client K' a' x.
Proof.
  intros HP [Hl | [Ho Hn]]; [left; by apply (sp_live _ _ _ _ _ _ HP) |].
  right. by apply (sp_other _ _ _ _ _ _ HP).
Qed.

Lemma step_post_trans K (a : A) m K1 a1 m1 K2 a2 m2 :
  step_post K a m K1 a1 m1 -> step_post K1 a1 m1 K2 a2 m2 -> step_post K a m K2 a2 m2.
Proof.
  intros H1 H2. split.
  - apply H2.
  - rewrite (sp_conf _ _ _ _ _ _ H2). apply H1.
  - intros c b bs Hc. destruct (sp_chain _ _ _ _ _ _ H1 c b bs Hc) as (b' & bs' & Hc').
    by apply (sp_chain _ _ _ _ _ _ H2 c b' bs').
  - intros x Hx. rewrite (sp_mem _ _ _ _ _ _ H2 x) by (by apply (step_post_client K a m K1 a1 m1)).
    by apply (sp_mem _ _ _ _ _ _ H1).
  - intros x Hx. by apply (sp_live _ _ _ _ _ _ H2), (sp_live _ _ _ _ _ _ H1).
  - intros x Hx Hn. destruct (sp_other _ _ _ _ _ _ H1 x Hx Hn). by apply (sp_other _ _ _ _ _ _ H2).
Qed.

(** The cache of slab structures: small objects of the size of one structure. *)
Definition slab_cache_ok (K : kstate) : Prop :=
  exists Cs b bs, k_conf K !! kmem_slab_cache = Some Cs /\ small_objects Cs = true /\
    bufsz Cs = sizeof_slab /\ k_chain K !! kmem_slab_cache = Some (b :: bs).

Lemma slab_cache_ok_step K (a : A) m K' a' m' :
  step_post K a m K' a' m' -> slab_cache_ok K -> slab_cache_ok K'.
Proof.
  intros HP (Cs & b & bs & HC & Hs & Hb & Hl).
  destruct (sp_chain _ _ _ _ _ _ HP _ _ _ Hl) as (b' & bs' & Hl').
  exists Cs, b', bs'. by rewrite (sp_conf _ _ _ _ _ _ HP).
Qed.

(** Taking an object from the first slab. *)
Lemma take_object_post K (a : A) m m' C b S o l :
  kinv K a m -> k_slabs K !! b = Some S -> conf_ok C -> slab_ok C b S -> o ∈ objects C b ->
  g_free S = o :: l -> (forall x, k_own K x = OSlab b <-> slab_fp C b S x) ->
  kinv (take_object K C b S o l) a m' ->
  same_outside (g_addr S) (g_addr S + sizeof_slab) m m' ->
  step_post K a m (take_object K C b S o l) a m' /\
  gives (bufsz C) K a o (take_object K C b S o l) a.
Proof.
  intros HK HS HC Hok Ho Hf Hfp HK' Hm.
  assert (forall x, o <= x < o + bufsz C -> k_own K x = OSlab b) as Hobj.
  { intros x Hx. apply Hfp. right. destruct (object_bounds C HC o b Ho). pose proof (slab_bytes_page C).
    rewrite page_small_val. split; [lia |]. intros o' Ho' Hx'.
    rewrite (objects_disjoint C HC o' o b x Ho' Ho Hx' Hx), Hf. by left. }
  assert (forall x, k_own K x <> OSlab b -> k_own (take_object K C b S o l) x = k_own K x) as Hsame.
  { intros x Hx. unfold take_object, retag; cbn [k_own]. case_decide; [by destruct Hx; auto | done]. }
  split.
  - split; try done.
    + eauto.
    + intros x Hx. apply Hm. destruct (decide (g_addr S <= x < g_addr S + sizeof_slab)) as [Hh | Hh]; [| lia].
      assert (k_own K x = OSlab b) by (apply Hfp; by left).
      destruct Hx as [? | [? _]]; congruence.
    + intros x Hx. rewrite Hsame; congruence.
    + intros x Hx Hn. rewrite Hsame by congruence. done.
  - right. destruct (object_bounds C HC o b Ho). pose proof (slab_bytes_page C).
    destruct (so_base _ _ _ Hok) as [? ?]. rewrite page_small_val in *.
    split_and!; [lia | lia | |].
    + intros x Hx. unfold take_object, retag; cbn [k_own]. rewrite decide_True by done.
      split; [done |]. intros [? | [? _]]; rewrite (Hobj x Hx) in *; done.
    + intros x. unfold client, take_object, retag; cbn [k_own]. case_decide as Hx.
      * split; [by right | by left].
      * tauto.
Qed.

Lemma alloc_object_spec K (a : A) m c C b bs :
  kinv K a m -> k_conf K !! c = Some C -> k_chain K !! c = Some (b :: bs) ->
  (kmem_slab_alloc_object (load64 m (cache_slab c)) m = Ok (0, m) /\
   exists S, k_slabs K !! b = Some S /\ g_free S = []) \/
  exists o m' K', kmem_slab_alloc_object (load64 m (cache_slab c)) m = Ok (o, m') /\ o <> 0 /\
    step_post K a m K' a m' /\ gives (bufsz C) K a o K' a.
Proof.
  intros HK HC Hl.
  destruct (kinv_head_slab K a m c C b bs HK HC Hl)
    as (S & HS & Hc & Hptr & Hcok & Hok & Hrep & Hfp & _ & _).
  destruct (g_free S) as [|o l] eqn:Hf.
  - left. unfold kmem_slab_alloc_object. rewrite Hptr. destruct (so_addr _ _ _ Hok).
    destruct (Z.eqb_spec (g_addr S) 0); [lia |]. rewrite (sr_head _ _ _ _ Hrep), Hf.
    split; [done | by exists S].
  - right. destruct (slab_alloc_object_spec K a m c C b bs S o l HK HC Hl HS Hf)
      as (m' & E & HK' & Hne & Ho & Hm).
    exists o, m', (take_object K C b S o l). split_and!; [done | done | |];
      by apply (take_object_post K a m m').
Qed.

(** A new slab takes a page from the page allocator, and nothing from the
    clients. *)
Lemma add_slab_post K (a : A) m m' c C p slab :
  kinv K a m -> k_conf K !! c = Some C -> fresh_slab K a C p slab ->
  kmem_slab_setup c p slab (slab_bytes C) m = Ok m' ->
  slab_rep C p (SlabG c slab 0 (objects C p)) m' ->
  (forall x, ~ in_page p x -> ~ slab <= x < slab + sizeof_slab -> load8 m' x = load8 m x) ->
  kinv (add_slab K c C p slab) a m' /\
  (forall x, client (add_slab K c C p slab) a x <->
     client K a x /\ ~ (slab <= x < slab + sizeof_slab \/ in_page p x)).
Proof.
  intros HK HC HF _ Hrep Hm. split; [by apply (kinv_add_slab K a m) |].
  intros x. unfold client, add_slab; cbn [k_own]. fold (in_page p x). case_decide as Hx.
  - split; [intros [? | [? _]]; congruence | intros [_ Hn]; tauto].
  - tauto.
Qed.

(** What [kmem_slab_create] needs from the call that allocates the structure. *)
Definition allocates (alloc_slab : A -> mem -> outcome (Z * A * mem)) : Prop :=
  forall K a m, kinv K a m -> slab_cache_ok K ->
    exists r a' m' K', alloc_slab a m = Ok (r, a', m') /\ step_post K a m K' a' m' /\
      gives sizeof_slab K a r K' a'.

(** The state that [kmem_slab_create] leaves when it succeeds. *)
Record slab_created (K : kstate) (a : A) (m : mem) (c : Z) (C : conf) (slab : Z)
  (K' : kstate) (a' : A) (m' : mem) : Prop := {
  sc_post : step_post K a m K' a' m';
  sc_client x : client K' a' x <-> client K a x;
  sc_slab : slab <> 0;
  sc_new : exists p, k_slabs K' !! p = Some (SlabG c slab 0 (objects C p)) /\
    (forall c' C' l, k_conf K' !! c' = Some C' -> k_chain K' !! c' = Some l -> p ∉ l)
}.

(** Chains hold existing slabs only. *)
Lemma chain_in_slabs K (a : A) m c C l b :
  kinv K a m -> k_conf K !! c = Some C -> k_chain K !! c = Some l -> b ∈ l -> is_Some (k_slabs K !! b).
Proof.
  intros HK HC Hl Hb. destruct (ki_cache _ _ _ HK c C HC) as (l' & Hl' & He). simplify_eq.
  destruct (chain_ok_elem _ _ _ _ b (ce_chain _ _ _ _ _ _ He) Hb) as (S & HS & _). by exists S.
Qed.

(** The common end of [kmem_slab_create], once page and structure are there. *)
Lemma slab_create_tail K (a : A) m K1 a1 m1 c C p slab :
  step_post K a m K1 a1 m1 -> k_conf K !! c = Some C -> fresh_slab K1 a1 C p slab ->
  (forall x, client K1 a1 x <->
     client K a x \/ (slab <= x < slab + sizeof_slab \/ in_page p x)) ->
  (forall x, slab <= x < slab + sizeof_slab \/ in_page p x -> ~ client K a x) ->
  exists m', kmem_slab_setup c p slab (slab_bytes C) m1 = Ok m' /\
    slab_created K a m c C slab (add_slab K1 c C p slab) a1 m'.
Proof.
  intros HP HC HF Hcl Hnc. pose proof (sp_inv _ _ _ _ _ _ HP) as HK1.
  assert (k_conf K1 !! c = Some C) as HC1 by (by rewrite (sp_conf _ _ _ _ _ _ HP)).
  destruct (slab_setup_spec K1 a1 m1 c C p slab HK1 HC1 HF) as (m' & E & Hrep & Hm).
  destruct (add_slab_post K1 a1 m1 m' c C p slab HK1 HC1 HF E Hrep Hm) as [HK' Hcl'].
  exists m'. split; [done |].
  assert (forall x, client (add_slab K1 c C p slab) a1 x <-> client K a x) as Hclient.
  { intros x. rewrite Hcl', Hcl. pose proof (Hnc x). tauto. }
  assert (forall x, client K a x -> k_own (add_slab K1 c C p slab) x = k_own K1 x) as Hown.
  { intros x Hx. unfold add_slab; cbn [k_own]. rewrite decide_False; [done |].
    intros Hx'. by apply (Hnc x). }
  split; [split | done | |].
  - done.
  - apply (sp_conf _ _ _ _ _ _ HP).
  - apply (sp_chain _ _ _ _ _ _ HP).
  - intros x Hx. rewrite Hm; [by apply (sp_mem _ _ _ _ _ _ HP) | |]; intros Hx'; apply (Hnc x); tauto.
  - intros x Hx. rewrite Hown by (by left). by apply (sp_live _ _ _ _ _ _ HP).
  - intros x Hx Hn. rewrite Hown by (by right). by apply (sp_other _ _ _ _ _ _ HP).
  - pose proof (fs_addr _ _ _ _ _ HF). lia.
  - exists p. split; [apply lookup_insert_eq |]. intros c' C' l HC' Hl Hin.
    destruct (chain_in_slabs K1 a1 m1 c' C' l p HK1 HC' Hl Hin) as [S HS].
    by rewrite (fresh_not_slab K1 a1 m1 C p slab HK1 HF) in HS.
Qed.

(** Getting a page is a step that gives the page to the caller. *)
Record page_taken (K : kstate) (a : A) (m : mem) (p : Z) (a1 : A) (m1 : mem) : Prop := {
  pt_alloc : page_alloc_small a m = Ok (p, a1, m1);
  pt_post : step_post K a m K a1 m1;
  pt_base : 0 < p;
  pt_aligned : (PAGE_SIZE_SMALL | p);
  pt_end : p + PAGE_SIZE_SMALL < 2 ^ 64;
  pt_page x : in_page p x -> k_own K x = OOther /\ ~ pa_own a1 x;
  pt_fresh x : in_page p x -> ~ client K a x;
  pt_client x : client K a1 x <-> client K a x \/ in_page p x
}.

Lemma page_alloc_post K (a : A) m :
  kinv K a m ->
  (pa_empty a /\ page_alloc_small a m = Ok (0, a, m)) \/ exists p a1 m1, page_taken K a m p a1 m1.
Proof.
  intros HK. destruct (kinv_page_alloc K a m HK)
    as [? | (p & a1 & m1 & E & HK1 & Hp & Hd & He & Hpg & Hcl & Hm)]; [by left |].
  right. exists p, a1, m1. split; try done; [| by intros x Hx; split; apply Hpg | by intros x Hx; apply Hpg].
  split; try done.
  - eauto.
  - intros x Ho Hn. split; [done |]. assert (client K a1 x) as [? | [_ ?]]; [| congruence | done].
    apply Hcl. left. by right.
Qed.

(** The outcome of [kmem_slab_create]. *)
Definition create_result (K : kstate) (a : A) (m : mem) (c : Z) (C : conf) (s : Z)
  (K' : kstate) (a' : A) (m' : mem) : Prop :=
  (s = 0 /\ step_post K a m K' a' m' /\ forall x, client K' a' x <-> client K a x) \/
  slab_created K a m c C s K' a' m'.

Lemma cache_size_loaded K (a : A) m c C :
  kinv K a m -> k_conf K !! c = Some C ->
  (load64 m (cache_size c) <? PAGE_SIZE_SMALL / 8) = small_objects C.
Proof.
  intros HK HC. destruct (ki_cache _ _ _ HK c C HC) as (l & _ & Hce).
  by rewrite (ce_size _ _ _ _ _ _ Hce).
Qed.

(** With small objects, the structure is at the end of the page. *)
Lemma slab_create_small alloc_slab K (a : A) m c C p a1 m1 :
  page_taken K a m p a1 m1 -> k_conf K !! c = Some C -> small_objects C = true ->
  exists s m' K', kmem_slab_create alloc_slab c a m = Ok (s, a1, m') /\
    slab_created K a m c C s K' a1 m'.
Proof.
  intros HT HC Es. unfold kmem_slab_create. rewrite (pt_alloc _ _ _ _ _ _ HT). cbn [mbind outcome_bind].
  pose proof (pt_base _ _ _ _ _ _ HT) as Hp. pose proof (pt_end _ _ _ _ _ _ HT) as He.
  pose proof (pt_post _ _ _ _ _ _ HT) as HP. rewrite page_small_val in He.
  destruct (Z.eqb_spec p 0); [lia |].
  rewrite (cache_size_loaded K a1 m1 c C (sp_inv _ _ _ _ _ _ HP) HC), Es. cbn [mbind outcome_bind].
  assert (u64 (p + PAGE_SIZE_SMALL - sizeof_slab) = p + PAGE_SIZE_SMALL - sizeof_slab) as ->
    by (apply u64_small; rewrite page_small_val; unfold sizeof_slab; lia).
  set (slab := p + PAGE_SIZE_SMALL - sizeof_slab).
  assert (slab = p + 4056) as Hs by (unfold slab, sizeof_slab; rewrite page_small_val; lia).
  assert (forall x, slab <= x < slab + sizeof_slab -> in_page p x) as Hin.
  { intros x Hx. unfold in_page, sizeof_slab in *. rewrite page_small_val. lia. }
  destruct (Z.eqb_spec slab 0); [lia |].
  destruct (slab_create_tail K a m K a1 m1 c C p slab HP HC) as (m' & Em & Hsc).
  { destruct HT as [T1 T2 T3 T4 T5 T6 T7 T8]. split; try done; [| congruence].
    unfold sizeof_slab. lia. }
  { intros x. rewrite (pt_client _ _ _ _ _ _ HT). pose proof (Hin x). tauto. }
  { intros x [Hx | Hx]; apply (pt_fresh _ _ _ _ _ _ HT); auto. }
  replace (PAGE_SIZE_SMALL - sizeof_slab) with (slab_bytes C) by (unfold slab_bytes; by rewrite Es).
  rewrite Em. cbn [mbind outcome_bind]. by exists slab, m', (add_slab K c C p slab).
Qed.

(** Giving the page back when there is no structure for the slab. *)
Lemma slab_create_undo K (a : A) m p a1 m1 K2 a2 m2 :
  page_taken K a m p a1 m1 -> step_post K a1 m1 K2 a2 m2 ->
  (forall x, client K2 a2 x <-> client K a1 x) ->
  exists a3 m3, page_free_small p a2 m2 = (a3, m3) /\ step_post K a m K2 a3 m3 /\
    forall x, client K2 a3 x <-> client K a x.
Proof.
  intros HT HP2 Hcl2. pose proof (step_post_trans _ _ _ _ _ _ _ _ _ (pt_post _ _ _ _ _ _ HT) HP2) as HP12.
  destruct HT as [T1 T2 T3 T4 T5 T6 T7 T8].
  destruct (kinv_page_free K2 a2 m2 p (sp_inv _ _ _ _ _ _ HP2) T3 T4 T5)
    as (a3 & m3 & E & HK3 & Hpa3 & Hcl3 & Hm3).
  { intros x Hx. destruct (T6 x Hx). by apply (sp_other _ _ _ _ _ _ HP2). }
  assert (forall x, client K2 a3 x <-> client K a x) as Hcl'.
  { intros x. rewrite Hcl3, Hcl2, T8. pose proof (T7 x). tauto. }
  exists a3, m3. split_and!; [done | | done]. split.
  - done.
  - apply (sp_conf _ _ _ _ _ _ HP12).
  - apply (sp_chain _ _ _ _ _ _ HP12).
  - intros x Hx. rewrite Hm3 by (by apply Hcl'). by apply (sp_mem _ _ _ _ _ _ HP12).
  - apply (sp_live _ _ _ _ _ _ HP12).
  - intros x Ho Hn. destruct (sp_other _ _ _ _ _ _ HP12 x Ho Hn) as [Ho2 Hn2].
    split; [done |]. rewrite Hpa3. intros [? | Hx]; [done |]. apply (T7 x Hx). by right.
Qed.

(** With large objects, the structure comes from the cache of structures. *)
Lemma slab_create_large alloc_slab K (a : A) m c C p a1 m1 :
  page_taken K a m p a1 m1 -> k_conf K !! c = Some C -> small_objects C = false ->
  allocates alloc_slab -> slab_cache_ok K ->
  exists s a' m' K', kmem_slab_create alloc_slab c a m = Ok (s, a', m') /\
    create_result K a m c C s K' a' m'.
Proof.
  intros HT HC Es Halloc Hcok. unfold kmem_slab_create. rewrite (pt_alloc _ _ _ _ _ _ HT).
  cbn [mbind outcome_bind]. pose proof (pt_post _ _ _ _ _ _ HT) as HP.
  pose proof (pt_base _ _ _ _ _ _ HT) as Hp. destruct (Z.eqb_spec p 0); [lia |].
  rewrite (cache_size_loaded K a1 m1 c C (sp_inv _ _ _ _ _ _ HP) HC), Es.
  destruct (Halloc K a1 m1 (sp_inv _ _ _ _ _ _ HP) (slab_cache_ok_step K a m K a1 m1 HP Hcok))
    as (r & a2 & m2 & K2 & -> & HP2 & Hg). cbn [mbind outcome_bind].
  destruct Hg as [[-> Hcl2] | (Hr1 & Hr2 & Hr3 & Hr4)].
  - rewrite Z.eqb_refl.
    destruct (slab_create_undo K a m p a1 m1 K2 a2 m2 HT HP2 Hcl2) as (a3 & m3 & -> & HP3 & Hcl3).
    exists 0, a3, m3, K2. split; [done | by left].
  - destruct (Z.eqb_spec r 0); [lia |].
    destruct (slab_create_tail K a m K2 a2 m2 c C p r (step_post_trans _ _ _ _ _ _ _ _ _ HP HP2) HC)
      as (m' & Em & Hsc).
    { destruct HT as [T1 T2 T3 T4 T5 T6 T7 T8]. split; try done; [| congruence |].
      - intros x Hx. destruct (T6 x Hx). by apply (sp_other _ _ _ _ _ _ HP2).
      - intros _ x Hx. by apply Hr3. }
    { intros x. rewrite Hr4, (pt_client _ _ _ _ _ _ HT). tauto. }
    { intros x [Hx | Hx] Hc; [| by apply (pt_fresh _ _ _ _ _ _ HT) in Hx].
      destruct (Hr3 x Hx) as [_ Hn]. apply Hn, (pt_client _ _ _ _ _ _ HT). by left. }
    replace PAGE_SIZE_SMALL with (slab_bytes C) by (unfold slab_bytes; by rewrite Es).
    rewrite Em. cbn [mbind outcome_bind]. exists r, a2, m', (add_slab K2 c C p r).
    split; [done | by right].
Qed.

Lemma slab_create_spec alloc_slab K (a : A) m c C :
  kinv K a m -> k_conf K !! c = Some C ->
  (small_objects C = false -> (allocates alloc_slab /\ slab_cache_ok K) \/ pa_empty a) ->
  exists s a' m' K', kmem_slab_create alloc_slab c a m = Ok (s, a', m') /\
    create_result K a m c C s K' a' m' /\
    (pa_empty a -> a' = a) /\ (small_objects C = true -> s = 0 -> pa_empty a').
Proof.
  intros HK HC Hlarge. destruct (page_alloc_post K a m HK) as [[Hemp E] | (p & a1 & m1 & HT)].
  { exists 0, a, m, K. unfold kmem_slab_create. rewrite E. split_and!; try done.
    left. split_and!; [done | by apply step_post_refl | done]. }
  assert (~ pa_empty a) as Hne.
  { intros Hemp. pose proof (pa_alloc_empty a m (ki_pa _ _ _ HK) Hemp) as E.
    rewrite (pt_alloc _ _ _ _ _ _ HT) in E. pose proof (pt_base _ _ _ _ _ _ HT). simplify_eq. lia. }
  destruct (small_objects C) eqn:Es.
  - destruct (slab_create_small alloc_slab K a m c C p a1 m1 HT HC Es) as (s & m' & K' & E & Hsc).
    exists s, a1, m', K'. split_and!; [done | by right | done |].
    intros _ Hs. by destruct (sc_slab _ _ _ _ _ _ _ _ _ Hsc).
  - destruct (Hlarge eq_refl) as [[Ha Hok] | ?]; [| done].
    destruct (slab_create_large alloc_slab K a m c C p a1 m1 HT HC Es Ha Hok) as (s & a' & m' & K' & E & Hr).
    exists s, a', m', K'. split_and!; done.
Qed.

(** Linking the new slab is a step of its own. *)
Lemma push_post K (a : A) m c C slab K' a' m' :
  slab_created K a m c C slab K' a' m' -> k_conf K !! c = Some C ->
  let m2 := store64 (store64 m' (slab_next slab) (load64 m' (cache_slab c))) (cache_slab c) slab in
  exists K2 p l S, step_post K a m K2 a' m2 /\ (forall x, client K2 a' x <-> client K a x) /\
    k_chain K2 !! c = Some (p :: l) /\ k_slabs K2 !! p = Some S /\ g_free S = objects C p.
Proof.
  intros [HP Hcl Hne (p & HS & Hnot)] HC m2. pose proof (sp_inv _ _ _ _ _ _ HP) as HK'.
  assert (k_conf K' !! c = Some C) as HC' by (by rewrite (sp_conf _ _ _ _ _ _ HP)).
  destruct (ki_cache _ _ _ HK' c C HC') as (l & Hl & _).
  destruct (kinv_push_slab K' a' m' c C l p _ HK' HC' Hl HS eq_refl (Hnot _ _ _ HC' Hl)) as [HK2 Hm2].
  cbn [g_addr] in *. fold m2 in HK2, Hm2.
  eexists _, p, l, _. split_and!; [apply (step_post_trans _ _ _ K' a' m'); [done | split] | | | |].
  - exact HK2.
  - done.
  - intros c' b bs Hc'. unfold push_slab; cbn [k_chain]. destruct (decide (c' = c)) as [-> | Hn].
    + rewrite lookup_insert_eq. eauto.
    + rewrite lookup_insert_ne by done. eauto.
  - intros x Hx. apply Hm2; destruct Hx as [? | [? _]]; congruence.
  - done.
  - done.
  - exact Hcl.
  - apply lookup_insert_eq.
  - apply lookup_insert_eq.
  - done.
Qed.

Lemma gives_client n K0 (a0 : A) K a r K' a' :
  (forall x, client K a x <-> client K0 a0 x) -> gives n K a r K' a' -> gives n K0 a0 r K' a'.
Proof.
  intros Hcl [[-> Hc] | (H1 & H2 & H3 & H4)].
  - left. split; [done |]. intros x. by rewrite Hc.
  - right. split_and!; [done | done | |].
    + intros x Hx. rewrite <- Hcl. auto.
    + intros x. by rewrite H4, Hcl.
Qed.

(** Two rounds of the loop, given that the structure of a slab with large
    objects can be allocated. *)
Lemma alloc_loop_spec f K (a : A) m c C b bs :
  kinv K a m -> k_conf K !! c = Some C -> k_chain K !! c = Some (b :: bs) ->
  (small_objects C = false ->
     allocates (kmem_cache_alloc_loop kmem_slab_cache (S f) kmem_slab_cache) /\ slab_cache_ok K) ->
  exists r a' m' K', kmem_cache_alloc_loop kmem_slab_cache (S (S f)) c a m = Ok (r, a', m') /\
    step_post K a m K' a' m' /\ gives (bufsz C) K a r K' a'.
Proof.
  intros HK HC Hl Hlarge. remember (S f) as f1 eqn:Ef. cbn [kmem_cache_alloc_loop].
  destruct (alloc_object_spec K a m c C b bs HK HC Hl)
    as [[-> _] | (o & m' & K' & -> & Hne & HP & Hg)]; cbn [mbind outcome_bind].
  2: { destruct (Z.eqb_spec o 0); [done |]. cbn [negb]. by exists o, a, m', K'. }
  rewrite Z.eqb_refl. cbn [negb].
  destruct (slab_create_spec (kmem_cache_alloc_loop kmem_slab_cache f1 kmem_slab_cache) K a m c C HK HC)
    as (s & a1 & m1 & K1 & -> & [(-> & HP & Hcl) | Hsc] & _); [auto | |]; cbn [mbind outcome_bind].
  { rewrite Z.eqb_refl. exists 0, a1, m1, K1. split_and!; [done | done |]. by left. }
  destruct (Z.eqb_spec s 0) as [Hz | _]; [by destruct (sc_slab _ _ _ _ _ _ _ _ _ Hsc) |].
  destruct (push_post K a m c C s K1 a1 m1 Hsc HC) as (K2 & p & l & S & HP2 & Hcl2 & Hl2 & HS2 & Hf2).
  set (m2 := store64 _ _ _) in *. rewrite Ef. cbn [kmem_cache_alloc_loop].
  assert (k_conf K2 !! c = Some C) as HC2 by (by rewrite (sp_conf _ _ _ _ _ _ HP2)).
  destruct (alloc_object_spec K2 a1 m2 c C p l (sp_inv _ _ _ _ _ _ HP2) HC2 Hl2)
    as [[_ (S' & HS' & Hf')] | (o & m' & K' & -> & Hne & HP & Hg)]; cbn [mbind outcome_bind].
  - simplify_eq. rewrite Hf2 in Hf'. exfalso.
    destruct (capacity_bounds C (kinv_conf_ok K a m c C HK HC)) as (Hcap & _ & _).
    unfold objects in Hf'. destruct (Z.to_nat (capacity C)) eqn:En; [lia | done].
  - destruct (Z.eqb_spec o 0); [done |]. cbn [negb]. exists o, a1, m', K'.
    split_and!; [done | by apply (step_post_trans _ _ _ K2 a1 m2) |].
    by apply (gives_client _ K a K2 a1).
Qed.

Lemma slab_cache_allocates f :
  allocates (kmem_cache_alloc_loop kmem_slab_cache (S (S f)) kmem_slab_cache).
Proof.
  intros K a m HK (Cs & b & bs & HC & Hs & Hb & Hl). rewrite <- Hb.
  apply (alloc_loop_spec f K a m kmem_slab_cache Cs b bs); [done | done | done | congruence].
Qed.

(** Three rounds are enough for every cache. *)
Lemma cache_alloc_spec K (a : A) m c C b bs :
  kinv K a m -> slab_cache_ok K -> k_conf K !! c = Some C -> k_chain K !! c = Some (b :: bs) ->
  exists r a' m' K', kmem_cache_alloc kmem_slab_cache c a m = Ok (r, a', m') /\
    step_post K a m K' a' m' /\ gives (bufsz C) K a r K' a'.
Proof.
  intros HK Hsc HC Hl. apply (alloc_loop_spec 1 K a m c C b bs HK HC Hl). intros _.
  split; [| done]. apply (slab_cache_allocates 0).
Qed.

End Alloc.
