(* ===== verification/KmemInit.v ===== *)
(** * Initialisation of the slab allocator

    [kmem_cache_init] on zeroed memory adds a cache to the state, and
    [kmem_init] establishes the invariant for all caches of mm/kmem.c. *)

From S2P Require Import Prelude Align Mem PageAlloc PageAllocProof Printf PrintfProof LibcString.
From S2P Require Import Kmem KmemProof KmemAlloc.

Section Init.
Context {A : Type} `{PageAllocatorLaws A}.

Definition in_cache (c x : Z) : Prop := c <= x < c + sizeof_cache.

(** The state with a new cache that has no slabs. *)
Definition init_conf (K : kstate) (c : Z) (C : conf) : kstate :=
  KState (<[c := C]> (k_conf K)) (<[c := []]> (k_chain K)) (k_slabs K)
    (retag c sizeof_cache (OCache c) (k_own K)).

Lemma client_not_pa K (a : A) m x : kinv K a m -> client K a x -> ~ pa_own a x.
Proof.
  intros HK [Hl | [_ Hn]] Hx; [| done]. apply (ki_free _ _ _ HK) in Hx. congruence.
Qed.

Lemma kinv_init_conf K (a : A) m m' c C :
  kinv K a m -> (forall x, in_cache c x -> client K a x) -> 0 < c -> c + sizeof_cache < 2 ^ 64 ->
  conf_ok C -> same_outside c (c + sizeof_cache) m m' ->
  load64 m' (cache_bufctl c) = bufsz C - sizeof_bufctl ->
  load64 m' (cache_size c) = g_size C -> load64 m' (cache_align c) = g_align C ->
  load64 m' (cache_slab c) = 0 ->
  kinv (init_conf K c C) a m'.
Proof.
  intros HK Hcl Hc1 Hc2 Hok Hm Hf1 Hf2 Hf3 Hf4.
  pose proof HK as [Hpa Hfree Hcache Hslab Hctag Hstag].
  assert (forall x t, t <> OLive -> t <> OOther -> t <> OCache c ->
    k_own (init_conf K c C) x = t <-> k_own K x = t) as Hsame.
  { intros x t H1 H2 H3. unfold init_conf, retag; cbn [k_own]. case_decide as Hx; [| done].
    split; [congruence |]. intros Ht. destruct (Hcl x Hx) as [? | [? _]]; congruence. }
  assert (k_conf K !! c = None) as Hnone.
  { destruct (k_conf K !! c) as [C' |] eqn:E; [exfalso | done].
    destruct (Hcache c C' E) as (l & _ & He).
    assert (k_own K c = OCache c) as Ho by (apply (ce_own _ _ _ _ _ _ He); unfold sizeof_cache; lia).
    destruct (Hcl c) as [? | [? _]]; [unfold in_cache, sizeof_cache; lia | congruence..]. }
  assert (forall x, k_own K x <> OOther -> k_own K x <> OLive -> load8 m' x = load8 m x) as Hmem.
  { intros x H1 H2. apply Hm. destruct (decide (in_cache c x)) as [Hx | Hx]; [| unfold in_cache in Hx; lia].
    destruct (Hcl x Hx) as [? | [? _]]; congruence. }
  split; try done.
  - apply (pa_frame a m); [done |]. intros x Hx. apply Hm.
    destruct (decide (in_cache c x)) as [Hx' | Hx']; [| unfold in_cache in Hx'; lia].
    by destruct (client_not_pa K a m x HK (Hcl x Hx')).
  - intros x Hx. unfold init_conf, retag; cbn [k_own]. rewrite decide_False; [by apply Hfree |].
    intros Hx'. by destruct (client_not_pa K a m x HK (Hcl x Hx')).
  - intros c' C'. unfold init_conf; cbn [k_conf k_chain k_slabs]. destruct (decide (c' = c)) as [-> | Hne].
    + rewrite !lookup_insert_eq. intros [= <-]. exists []. split; [done |]. split; try done.
      * intros x. unfold retag; cbn [k_own]. case_decide as Hx; [done |].
        split; [| done]. intros Ht. apply Hctag in Ht as [? Ht]. congruence.
      * constructor.
    + rewrite !lookup_insert_ne by done. intros HC'.
      destruct (Hcache c' C' HC') as (l & Hl & He). exists l. split; [done |].
      apply (cache_entry_frame (k_slabs K) _ (k_own K) _ m); [| | | done].
      * intros b S _ HS. by exists S.
      * intros x. apply (Hsame x); congruence.
      * intros x Hx. apply Hmem; congruence.
  - intros b S HS. unfold init_conf; cbn [k_conf].
    destruct (Hslab b S HS) as (C' & HC' & Hrest).
    assert (slab_entry (k_conf K) (k_own (init_conf K c C)) m' b S) as (C'' & HC'' & Hrest').
    { apply (slab_entry_frame _ (k_own K) _ m); [| | | | by exists C'].
      - intros C'' HC''. by apply (kinv_conf_ok K a m (g_cache S)).
      - intros x. apply (Hsame x); congruence.
      - intros x _. unfold init_conf, retag; cbn [k_own]. by case_decide.
      - intros x Hx. apply Hmem; congruence. }
    exists C''. split; [| done]. rewrite lookup_insert_ne; [done | congruence].
  - intros x c' Hx. unfold init_conf; cbn [k_conf]. destruct (decide (c' = c)) as [-> | Hne].
    + by rewrite lookup_insert_eq.
    + rewrite lookup_insert_ne by done. apply (Hctag x). apply (Hsame x) in Hx; [done | congruence..].
  - intros x b Hx. apply (Hstag x). apply (Hsame x) in Hx; [done | congruence..].
Qed.

(** Storing the pointer to the first slab. *)
Lemma kinv_set_first K (a : A) m c C l s :
  kinv K a m -> k_conf K !! c = Some C -> NoDup l -> 0 <= s < 2 ^ 64 -> chain_ok (k_slabs K) c s l ->
  kinv (KState (k_conf K) (<[c := l]> (k_chain K)) (k_slabs K) (k_own K)) a
    (store64 m (cache_slab c) s).
Proof.
  intros HK HC Hnd Hs Hl. pose proof HK as [Hpa Hfree Hcache Hslab Hctag Hstag].
  destruct (Hcache c C HC) as (l0 & _ & He). pose proof (ce_own _ _ _ _ _ _ He) as Hown.
  assert (forall x, k_own K x <> OCache c -> load8 (store64 m (cache_slab c) s) x = load8 m x) as Hm.
  { intros x Hx. rewrite Hown in Hx. unfold cache_slab, sizeof_cache in *.
    apply load8_store_out. simpl. lia. }
  split; cbn [k_conf k_chain k_slabs k_own]; try done.
  - apply (pa_frame a m); [done |]. intros x Hx. apply Hfree in Hx. apply Hm. congruence.
  - intros c' C' HC'. destruct (decide (c' = c)) as [-> | Hne].
    + exists l. rewrite lookup_insert_eq. split; [done |]. simplify_eq.
      destruct He as [E1 E2 E3 E4 E5 E6 E7 E8].
      unfold cache_bufctl, cache_size, cache_align, cache_slab, sizeof_cache in *.
      split; try done; unfold cache_bufctl, cache_size, cache_align, cache_slab; mem_simpl; try done.
      by rewrite Z.mod_small.
    + destruct (Hcache c' C' HC') as (l' & Hl' & He'). exists l'.
      rewrite lookup_insert_ne by done. split; [done |].
      apply (cache_entry_frame (k_slabs K) _ (k_own K) _ m); [| done | | done].
      * intros b S _ HS. by exists S.
      * intros x Hx. apply Hm. congruence.
  - intros b S HS. apply (slab_entry_frame _ (k_own K) _ m); [| done | done | | by apply Hslab].
    + intros C' HC'. by apply (kinv_conf_ok K a m (g_cache S)).
    + intros x Hx. apply Hm. congruence.
Qed.

Context (kmem_slab_cache : Z).

(** The state after [kmem_cache_init]. *)
Record cache_inited (K : kstate) (a : A) (m : mem) (c : Z) (C : conf)
  (K' : kstate) (a' : A) (m' : mem) : Prop := {
  ci_inv : kinv K' a' m';
  ci_conf : k_conf K' = <[c := C]> (k_conf K);
  ci_client x : client K' a' x <-> client K a x /\ ~ in_cache c x;
  ci_mem x : client K a x -> ~ in_cache c x -> load8 m' x = load8 m x;
  ci_chain c' b bs : c' <> c -> k_chain K !! c' = Some (b :: bs) ->
    exists b' bs', k_chain K' !! c' = Some (b' :: bs');
  ci_empty : pa_empty a -> a' = a;
  ci_small : small_objects C = true -> (exists b bs, k_chain K' !! c = Some (b :: bs)) \/ pa_empty a'
}.

(** The stores of [kmem_cache_init] before it creates the first slab. *)
Lemma cache_fields m c size align bufctl :
  0 < c -> 0 <= size < 2 ^ 64 -> 0 <= align < 2 ^ 64 -> 0 <= bufctl < 2 ^ 64 ->
  let m' := store64 (store64 (store64 m (cache_size c) size) (cache_align c) align)
              (cache_bufctl c) bufctl in
  same_outside c (c + 24) m m' /\ load64 m' (cache_bufctl c) = bufctl /\
  load64 m' (cache_size c) = size /\ load64 m' (cache_align c) = align.
Proof.
  intros Hc Hs Ha Hb m'. unfold m', cache_size, cache_align, cache_bufctl. split_and!.
  - repeat (apply same_outside_store; [| lia | simpl; lia]). apply same_outside_refl.
  - mem_simpl. by apply Z.mod_small.
  - mem_simpl. by apply Z.mod_small.
  - mem_simpl. by apply Z.mod_small.
Qed.

(** Storing the result of [kmem_slab_create] in the new cache. *)
Lemma first_slab_stored K (a : A) m c C s K1 a1 m1 :
  k_conf K !! c = Some C -> create_result K a m c C s K1 a1 m1 ->
  exists l, kinv (KState (k_conf K1) (<[c := l]> (k_chain K1)) (k_slabs K1) (k_own K1)) a1
    (store64 m1 (cache_slab c) s) /\ (s <> 0 -> l <> []) /\ step_post K a m K1 a1 m1 /\
    forall x, client K1 a1 x <-> client K a x.
Proof.
  intros HC [(-> & HP & Hcl) | Hsc].
  - exists []. split_and!; try done. apply (kinv_set_first K1 a1 m1 c C); try done.
    + apply (sp_inv _ _ _ _ _ _ HP).
    + by rewrite (sp_conf _ _ _ _ _ _ HP).
    + constructor.
  - destruct Hsc as [HP Hcl Hs (p & Hp & _)]. exists [p]. split_and!; try done.
    pose proof (sp_inv _ _ _ _ _ _ HP) as HK1.
    destruct (ki_slab _ _ _ HK1 p _ Hp) as (C' & _ & Hok & _). destruct (so_addr _ _ _ Hok) as [Ha1 Ha2].
    cbn [g_addr] in *. unfold sizeof_slab in Ha2.
    apply (kinv_set_first K1 a1 m1 c C); try done.
    + by rewrite (sp_conf _ _ _ _ _ _ HP).
    + apply NoDup_singleton.
    + lia.
    + cbn [chain_ok]. eauto 6.
Qed.

Lemma cache_init_spec K (a : A) m c name bs size align :
  let C := Conf size align in
  kinv K a m -> (forall x, in_cache c x -> client K a x) -> 0 < c -> c + sizeof_cache < 2 ^ 64 ->
  conf_ok C -> string_at m name bs ->
  c + sizeof_cache <= name \/ name + Z.of_nat (length bs) < c -> load64 m (cache_slab c) = 0 ->
  (small_objects C = false -> slab_cache_ok kmem_slab_cache K \/ pa_empty a) ->
  exists K' a' m', kmem_cache_init kmem_slab_cache c name size align a m = Ok (0, a', m') /\
    cache_inited K a m c C K' a' m'.
Proof.
  intros C HK Hcl Hc1 Hc2 Hok Hstr Hd Hz0 Hlarge. unfold kmem_cache_init.
  pose proof (conf_bufsz _ Hok) as Hbz. pose proof (slab_bytes_page C) as Hsb.
  pose proof (conf_size _ Hok) as Hsz. pose proof (conf_align _ Hok) as Hal.
  change (align_up size align) with (bufsz C).
  change (g_size C) with size in *. change (g_align C) with align in *.
  unfold sizeof_bufctl, sizeof_cache in *.
  destruct (Z.ltb_spec (bufsz C) 24); [lia |].
  destruct (strlcpy_copied m (cache_name c) name KMEM_NAME_MAX_LEN bs Hstr) as (m1 & -> & Hm1 & _);
    [unfold KMEM_NAME_MAX_LEN; lia | unfold cache_name, KMEM_NAME_MAX_LEN; lia |].
  cbn [mbind outcome_bind]. unfold cache_name, KMEM_NAME_MAX_LEN in Hm1.
  destruct (cache_fields m1 c size align (bufsz C - 24)) as (Hm2 & F1 & F2 & F3); [lia.. |].
  set (m2 := store64 _ (cache_bufctl c) _) in *.
  assert (same_outside c (c + sizeof_cache) m m2) as Hm.
  { unfold sizeof_cache. intros x Hx. rewrite Hm2 by lia. apply Hm1. lia. }
  assert (load64 m2 (cache_slab c) = 0) as Hz1.
  { rewrite <- Hz0. unfold cache_slab.
    etrans; [eapply (load_same_outside 8); [exact Hm2 | right; lia] |].
    eapply (load_same_outside 8); [exact Hm1 | simpl; lia]. }
  pose proof (kinv_init_conf K a m m2 c C HK Hcl Hc1 Hc2 Hok Hm F1 F2 F3 Hz1) as HK1.
  set (K1 := init_conf K c C) in *.
  assert (k_conf K1 !! c = Some C) as HC1 by apply lookup_insert_eq.
  assert (slab_cache_ok kmem_slab_cache K -> slab_cache_ok kmem_slab_cache K1) as Hsc.
  { intros (Cs & b & bs' & Hcs & Hsm & Hb & Hl). exists Cs, b, bs'.
    assert (kmem_slab_cache <> c) as Hne.
    { intros ->. destruct (ki_cache _ _ _ HK c Cs Hcs) as (l & _ & He).
      assert (k_own K c = OCache c) by (apply (ce_own _ _ _ _ _ _ He); unfold sizeof_cache; lia).
      destruct (Hcl c) as [? | [? _]]; [unfold in_cache, sizeof_cache; lia | congruence..]. }
    unfold K1, init_conf; cbn [k_conf k_chain]. by rewrite !lookup_insert_ne by done. }
  destruct (slab_create_spec kmem_slab_cache (kmem_cache_alloc kmem_slab_cache kmem_slab_cache) K1 a m2 c C HK1 HC1)
    as (s & a' & m' & K' & -> & Hres & Hemp & Hsm).
  { intros Es. destruct (Hlarge Es) as [Hs | ?]; [left | by right].
    split; [apply (slab_cache_allocates kmem_slab_cache 1) | auto]. }
  cbn [mbind outcome_bind].
  destruct (first_slab_stored K1 a m2 c C s K' a' m' HC1 Hres) as (l & HK2 & Hl & HP & Hcl').
  eexists _, a', _. split; [done |]. split; [exact HK2 | | | | | done |]; cbn [k_conf k_chain].
  - apply (sp_conf _ _ _ _ _ _ HP).
  - intros x. etrans; [apply Hcl' |]. unfold client, K1, init_conf, retag; cbn [k_own].
    fold (in_cache c x). case_decide; [split; [intros [? | [? _]]; congruence | tauto] | tauto].
  - intros x Hx Hn. assert (client K1 a x) as Hx1.
    { unfold client, K1, init_conf, retag in *; cbn [k_own]. fold (in_cache c x). by rewrite decide_False. }
    rewrite <- (Hm x) by (unfold in_cache, sizeof_cache in *; lia).
    rewrite <- (sp_mem _ _ _ _ _ _ HP x Hx1).
    apply load8_store_out. unfold in_cache, sizeof_cache, cache_slab in *. simpl. lia.
  - intros c' b bs' Hne Hc'. rewrite lookup_insert_ne by done. apply (sp_chain _ _ _ _ _ _ HP c' b bs').
    unfold K1, init_conf; cbn [k_chain]. by rewrite lookup_insert_ne.
  - intros Es. rewrite lookup_insert_eq. destruct (decide (s = 0)) as [-> | Hs]; [right; auto |].
    left. destruct l as [|b bs']; [by destruct (Hl Hs) | by exists b, bs'].
Qed.

End Init.

(** ** The names of the caches *)

Definition kmalloc_name (size : Z) : list Z :=
  match output true kmalloc_name_format [VInt size] with Ok out => out | Fault _ => [] end.

Lemma kmalloc_name_spec size :
  size ∈ kmem_alloc_sizes ->
  output true kmalloc_name_format [VInt size] = Ok (kmalloc_name size) /\
  (length (kmalloc_name size) < 32)%nat /\
  Forall (fun b => 0 < b < 2 ^ 8) (kmalloc_name size).
Proof.
  intros Hs. unfold kmem_alloc_sizes in Hs.
  repeat (apply elem_of_cons in Hs as [-> | Hs];
    [vm_compute; split_and!; [done | lia | repeat constructor] |]).
  by apply not_elem_of_nil in Hs.
Qed.

Lemma kmalloc_name_written m frame size :
  size ∈ kmem_alloc_sizes ->
  exists r m', snprintf m frame KMEM_NAME_MAX_LEN kmalloc_name_format [VInt size] = Ok (r, m') /\
    string_at m' frame (kmalloc_name size) /\ same_outside frame (frame + 32) m m'.
Proof.
  intros Hs. destruct (kmalloc_name_spec size Hs) as (Ho & Hl & Hb).
  destruct (vsnprintf_gen_buffer true m frame KMEM_NAME_MAX_LEN kmalloc_name_format [VInt size]
    (kmalloc_name size) Ho) as (m' & E & Hshort & _ & _); [unfold KMEM_NAME_MAX_LEN; lia | lia |].
  destruct Hshort as [Hbytes Hout]; [unfold KMEM_NAME_MAX_LEN; lia |].
  assert (map u8 (kmalloc_name size) = kmalloc_name size) as Hmap.
  { clear -Hb. induction Hb as [|b l Hb _ IH]; simpl; [done |]. rewrite IH, u8_small; [done | lia]. }
  rewrite Hmap, Nat.add_1_r, load_bytes_snoc in Hbytes. apply app_inj_tail in Hbytes as [Hbytes Hend].
  eexists _, m'. split_and!; [exact E | | exact Hout]. split; [done | | done].
  eapply Forall_impl; [exact Hb |]. simpl. lia.
Qed.

(** ** The whole initialisation *)

Section KmemInit.
Context {A : Type} `{PageAllocatorLaws A}.
Context (kmem_cache_cache kmem_slab_cache kmalloc_caches frame : Z).

Definition kmalloc_cache (i : Z) : Z := kmalloc_caches + sizeof_cache * i.

(** Slab structures can be allocated, or no page is left for which one would be
    needed. *)
Definition slabs_available (K : kstate) (a : A) : Prop :=
  slab_cache_ok kmem_slab_cache K \/ pa_empty a.

Lemma slabs_available_inited K (a : A) m c C K' a' m' :
  kinv K a m -> (forall x, in_cache c x -> client K a x) ->
  cache_inited K a m c C K' a' m' -> slabs_available K a -> slabs_available K' a'.
Proof.
  intros HK Hcl HI [(Cs & b & bs & Hcs & Hsm & Hb & Hl) | He].
  - left. assert (kmem_slab_cache <> c) as Hne.
    { intros ->. destruct (ki_cache _ _ _ HK c Cs Hcs) as (l & _ & Hce).
      assert (k_own K c = OCache c) by (apply (ce_own _ _ _ _ _ _ Hce); unfold sizeof_cache; lia).
      destruct (Hcl c) as [? | [? _]]; [unfold in_cache, sizeof_cache; lia | congruence..]. }
    destruct (ci_chain _ _ _ _ _ _ _ _ HI _ b bs Hne Hl) as (b' & bs' & Hl').
    exists Cs, b', bs'. rewrite (ci_conf _ _ _ _ _ _ _ _ HI), lookup_insert_ne by done. done.
  - right. by rewrite (ci_empty _ _ _ _ _ _ _ _ HI He).
Qed.

Lemma kmalloc_conf_ok size : size ∈ kmem_alloc_sizes -> conf_ok (Conf size KMEM_DEFAULT_ALIGN).
Proof.
  intros Hs. unfold kmem_alloc_sizes in Hs.
  repeat (apply elem_of_cons in Hs as [-> | Hs];
    [split; vm_compute; intuition discriminate |]).
  by apply not_elem_of_nil in Hs.
Qed.

(** The static memory that the loop still needs: zeroed cache structures from
    index [i] on, and the buffer for the names. *)
Record static_ok (i n : Z) (K : kstate) (a : A) (m : mem) : Prop := {
  st_caches j x : i <= j < n -> in_cache (kmalloc_cache j) x -> client K a x;
  st_zero j : i <= j < n -> load64 m (cache_slab (kmalloc_cache j)) = 0;
  st_frame x : frame <= x < frame + 32 -> client K a x
}.

Context (Hkc : 0 < kmalloc_caches) (Hkc' : kmalloc_caches + 512 < 2 ^ 64).
Context (Hfr : frame + 32 < kmalloc_caches \/ kmalloc_caches + 512 <= frame).
#[local] Set Default Proof Using "All".

Lemma kmem_init_loop_spec sizes : forall i K (a : A) m,
  0 <= i -> i + Z.of_nat (length sizes) = 8 -> (forall s, s ∈ sizes -> s ∈ kmem_alloc_sizes) ->
  kinv K a m -> slabs_available K a -> static_ok i 8 K a m ->
  exists K' a' m', kmem_init_loop kmem_slab_cache kmalloc_caches frame i sizes a m = Ok (0, a', m') /\
    kinv K' a' m' /\ slabs_available K' a' /\
    (forall j s, sizes !! j = Some s ->
       k_conf K' !! kmalloc_cache (i + Z.of_nat j) = Some (Conf s KMEM_DEFAULT_ALIGN)) /\
    (forall c, (forall j, i <= j < 8 -> c <> kmalloc_cache j) -> k_conf K' !! c = k_conf K !! c) /\
    (forall x, client K a x -> ~ kmalloc_caches <= x < kmalloc_caches + 512 -> client K' a' x).
Proof.
  induction sizes as [|size sizes IH]; intros i K a m Hi Hn Hin HK Hav Hst; cbn [kmem_init_loop].
  { exists K, a, m. split_and!; try done. }
  cbn [length] in Hn. assert (size ∈ kmem_alloc_sizes) as Hs by (apply Hin; by left).
  destruct (kmalloc_name_written m frame size Hs) as (r & m1 & -> & Hstr & Hm1). cbn [mbind outcome_bind].
  destruct Hst as [S1 S2 S3]. set (c := kmalloc_cache i) in *.
  change (kmalloc_caches + sizeof_cache * i) with c.
  assert (forall j, i <= j < 8 -> kmalloc_caches <= kmalloc_cache j /\
    kmalloc_cache j + 64 <= kmalloc_caches + 512 /\ (i < j -> c + 64 <= kmalloc_cache j)) as Hcj.
  { intros j Hj. unfold c, kmalloc_cache, sizeof_cache. lia. }
  destruct (Hcj i ltac:(lia)) as (Hc1 & Hc2 & _). fold c in Hc1, Hc2.
  destruct (kmalloc_name_spec size Hs) as (_ & Hlen & _).
  assert (kinv K a m1) as HK1.
  { apply (kinv_client_store K a m); [done |]. intros x Hx. apply Hm1.
    destruct (decide (frame <= x < frame + 32)); [by destruct Hx; auto | lia]. }
  assert (forall j, i <= j < 8 -> load64 m1 (cache_slab (kmalloc_cache j)) = 0) as Hz1.
  { intros j Hj. rewrite <- (S2 j Hj). pose proof (Hcj j Hj). unfold cache_slab.
    eapply (load_same_outside 8); [exact Hm1 | simpl; lia]. }
  destruct (cache_init_spec kmem_slab_cache K a m1 c frame (kmalloc_name size) size KMEM_DEFAULT_ALIGN)
    as (K2 & a2 & m2 & -> & HI); try done.
  { intros x Hx. apply (S1 i); [lia | done]. }
  { lia. }
  { unfold sizeof_cache. lia. }
  { by apply kmalloc_conf_ok. }
  { unfold sizeof_cache. lia. }
  { apply Hz1. lia. }
  cbn [mbind outcome_bind]. rewrite Z.eqb_refl. cbn [negb].
  assert (forall j x, i + 1 <= j < 8 -> in_cache (kmalloc_cache j) x -> client K a x /\ ~ in_cache c x) as Hlater.
  { intros j x Hj Hx. split; [by apply (S1 j); [lia |] |]. pose proof (Hcj j ltac:(lia)).
    unfold in_cache, sizeof_cache in *. lia. }
  destruct (IH (i + 1) K2 a2 m2) as (K' & a' & m' & E & HK' & Hav' & Hconf & Hother & Hcl);
    [lia | lia | by intros s Hs'; apply Hin; right | apply HI | | |].
  { apply (slabs_available_inited K a m1 c (Conf size KMEM_DEFAULT_ALIGN) K2 a2 m2); try done.
    intros x Hx. apply (S1 i); [lia | done]. }
  { split.
    - intros j x Hj Hx. apply (ci_client _ _ _ _ _ _ _ _ HI). by apply (Hlater j).
    - intros j Hj. rewrite <- (Hz1 j) by lia. apply load_ext. intros x Hx.
      destruct (Hlater j x Hj); [unfold in_cache, sizeof_cache, cache_slab in *; simpl in Hx; lia |].
      by apply (ci_mem _ _ _ _ _ _ _ _ HI).
    - intros x Hx. apply (ci_client _ _ _ _ _ _ _ _ HI). split; [by apply S3 |].
      unfold in_cache, sizeof_cache. lia. }
  exists K', a', m'. split_and!; [done | done | done | | |].
  - intros [|j] s Hj; simplify_eq/=.
    + rewrite Hother.
      * rewrite (ci_conf _ _ _ _ _ _ _ _ HI), Z.add_0_r. apply lookup_insert_eq.
      * intros j Hj. pose proof (Hcj j ltac:(lia)). rewrite Z.add_0_r. fold c. lia.
    + rewrite <- (Hconf j s Hj). f_equal. unfold kmalloc_cache. lia.
  - intros c' Hc'. rewrite Hother by (intros j Hj; apply Hc'; lia).
    rewrite (ci_conf _ _ _ _ _ _ _ _ HI). apply lookup_insert_ne.
    intros <-. by apply (Hc' i); [lia |].
  - intros x Hx Hx'. apply Hcl; [| done]. apply (ci_client _ _ _ _ _ _ _ _ HI). split; [done |].
    unfold in_cache, sizeof_cache. lia.
Qed.

End KmemInit.
