(* ===== verification/KmemFree.v ===== *)
(** * Releasing objects

    [kmem_cache_free] on an object of the first slab of the cache: the object is
    free again, and a slab without live objects gives its page back. *)

From S2P Require Import Prelude Align Mem PageAlloc PageAllocProof Printf LibcString.
From S2P Require Import Kmem KmemProof KmemAlloc.

Section FreeObject.
Context {A : Type} `{PageAllocatorLaws A}.

Definition return_object (K : kstate) (C : conf) (b : Z) (S : slabg) (o : Z) : kstate :=
  KState (k_conf K) (k_chain K)
    (<[b := SlabG (g_cache S) (g_addr S) (g_next S) (o :: g_free S)]> (k_slabs K))
    (retag o (bufsz C) (OSlab b) (k_own K)).

Lemma return_object_fp C b S o own :
  conf_ok C -> slab_ok C b S -> o ∈ objects C b ->
  (forall x, own x = OSlab b <-> slab_fp C b S x) ->
  forall x, retag o (bufsz C) (OSlab b) own x = OSlab b <->
    slab_fp C b (SlabG (g_cache S) (g_addr S) (g_next S) (o :: g_free S)) x.
Proof.
  intros HC HS Ho Hown x. destruct (object_bounds C HC o b Ho) as [Hb1 Hb2].
  pose proof (slab_bytes_page C) as Hsb. unfold retag, slab_fp. cbn [g_addr g_free]. case_decide as Hx.
  - split; [intros _ | done]. right. rewrite page_small_val. split; [lia |]. intros o' Ho' Hx'.
    rewrite (objects_disjoint C HC o' o b x Ho' Ho Hx' Hx). by left.
  - rewrite Hown. unfold slab_fp.
    split; (intros [Hh | [Hp Hall]]; [by left | right; split; [done |]]); intros o' Ho' Hx'.
    + right. by apply Hall.
    + specialize (Hall o' Ho' Hx'). apply elem_of_cons in Hall as [-> | Hin]; [by exfalso | done].
Qed.

(** The number of free objects never exceeds the capacity. *)
Lemma free_length C b S : conf_ok C -> slab_ok C b S -> Z.of_nat (length (g_free S)) <= capacity C.
Proof.
  intros HC HS. destruct (capacity_bounds C HC) as (? & _ & _).
  assert (length (g_free S) <= length (objects C b))%nat as Hle.
  { apply submseteq_length, NoDup_submseteq; [apply HS | apply HS]. }
  unfold objects in Hle. rewrite length_stride in Hle. lia.
Qed.

Lemma slab_free_object_spec K (a : A) m c C b bs S o :
  kinv K a m -> k_conf K !! c = Some C -> k_chain K !! c = Some (b :: bs) ->
  k_slabs K !! b = Some S -> o ∈ objects C b -> o ∉ g_free S ->
  (forall x, o <= x < o + bufsz C -> k_own K x = OLive) ->
  exists m', kmem_slab_free_object (load64 m (cache_slab c)) o m = Ok m' /\
    kinv (return_object K C b S o) a m' /\
    (forall x, client K a x -> ~ o <= x < o + bufsz C -> load8 m' x = load8 m x).
Proof.
  intros HK HC Hl HS Ho Hno Hlive.
  destruct (kinv_head_slab K a m c C b bs HK HC Hl)
    as (S' & HS' & Hc & Hptr & Hcok & Hok & Hrep & Hfp & Hpg & _). simplify_eq.
  destruct (ki_cache _ _ _ HK _ C HC) as (l & _ & Hce). pose proof (ce_bufctl _ _ _ _ _ _ Hce) as Hbc.
  pose proof (ce_own _ _ _ _ _ _ Hce) as Hcown.
  destruct (so_addr _ _ _ Hok) as [Ha1 Ha2]. destruct (so_base _ _ _ Hok) as [Hb1 Hb2].
  destruct (object_bounds C Hcok o b Ho) as [Ho1 Ho2]. pose proof (slab_bytes_page C) as Hsb.
  rewrite page_small_val in Hb2. pose proof (conf_bufsz _ Hcok) as Hbz.
  pose proof Hrep as [R1 R2 R3 R4 R5 R6 R7].
  unfold kmem_slab_free_object. rewrite Hptr. destruct (Z.eqb_spec (g_addr S) 0); [lia |].
  rewrite R1. assert (kmem_object_to_bufctl m (g_cache S) o = bufctl_of C o) as ->.
  { unfold kmem_object_to_bufctl. rewrite Hbc. apply u64_small. unfold bufctl_of, sizeof_bufctl in *. lia. }
  rewrite R3. set (bc := bufctl_of C o).
  assert (bc + 24 = o + bufsz C) as Hbc' by (unfold bc, bufctl_of, sizeof_bufctl; lia).
  unfold sizeof_bufctl, sizeof_slab in *.
  assert (g_addr S + 40 <= o \/ o + bufsz C <= g_addr S) as Hd.
  { apply ranges_disjoint; [lia | lia |]. intros x Hx Hx'.
    apply (header_not_object C b S o x Hcok Hok Ho Hx Hx'). }
  set (m3 := store64 _ (bufctl_slab bc) _). set (m4 := store64 m3 _ _). set (m5 := store32 m4 _ _).
  unfold bufctl_next, bufctl_addr, bufctl_slab, slab_head, slab_nr_free in *.
  assert (forall x, ~ bc <= x < bc + 24 -> ~ g_addr S <= x < g_addr S + 40 -> load8 m5 x = load8 m x) as Hm.
  { intros x Hx Hx'. unfold m5, m4, m3, store32, store64.
    rewrite !load8_store_out by (simpl; lia). done. }
  assert (is_u64 (head_ptr C (g_free S))) as Hu by (rewrite <- R3; apply load64_range).
  unfold is_u64 in Hu. pose proof (free_length C b S Hcok Hok) as Hfl.
  destruct (capacity_bounds C Hcok) as (_ & _ & Hcap).
  exists m5. split_and!; [done | |].
  - apply (kinv_update_slab K a m m5 b S); try done.
    + intros x. unfold retag. case_decide as Hx; [| by left]. right. right. split; [by apply Hlive | done].
    + intros x Hx Hx'. rewrite Hfp in Hx. unfold slab_fp, sizeof_slab in Hx.
      unfold retag in Hx'. case_decide as Hxo; [done |]. apply Hm; lia.
    + exists C. cbn [g_cache]. split_and!; [done | | | by apply return_object_fp |].
      * destruct Hok as [B1 B2 B3 B4 B5 B6 B7 B8]. split; cbn [g_free g_addr g_next]; try done; [| by constructor].
        intros o' Ho'. apply elem_of_cons in Ho' as [-> | Ho']; [done | by apply B3].
      * assert (free_chain C m5 (g_free S)) as Hfc.
        { revert R7. apply free_chain_ext. intros o' x Ho' Hx.
          pose proof (so_free _ _ _ Hok o' Ho') as Hin.
          assert (o' <= x < o' + bufsz C) as Hx' by (unfold bufctl_of, sizeof_bufctl in *; lia).
          apply Hm; intros Hx''.
          - assert (o' = o) as -> by (apply (objects_disjoint C Hcok o' o b x); [done.. | lia]). done.
          - by apply (header_not_object C b S o' x Hcok Hok Hin). }
        unfold slab_cache, slab_base, slab_head, slab_next, slab_nr_free, slab_capacity in *.
        split; cbn [g_cache g_addr g_next g_free];
          unfold slab_cache, slab_base, slab_head, slab_next, slab_nr_free, slab_capacity.
        -- unfold m5, m4, m3. by mem_simpl.
        -- unfold m5, m4, m3. by mem_simpl.
        -- unfold m5, m4, m3. mem_simpl. apply Z.mod_small. unfold head_ptr. fold bc. lia.
        -- unfold m5, m4, m3. by mem_simpl.
        -- unfold m5, m4, m3. mem_simpl. unfold load32 in R5. rewrite R5. cbn [length].
           rewrite Z.mod_small; lia.
        -- unfold m5, m4, m3. by mem_simpl.
        -- cbn [free_chain]. fold bc. unfold bufctl_next, bufctl_addr.
           split_and!; [unfold m5, m4, m3; mem_simpl; by apply Z.mod_small |
             unfold m5, m4, m3; mem_simpl; apply Z.mod_small; lia | done].
      * intros x Hx. unfold retag. case_decide; [done | by apply Hpg].
  - intros x Hx Hxo. apply Hm; [lia |]. intros Hh.
    assert (k_own K x = OSlab b) by (apply Hfp; by left). destruct Hx as [? | [? _]]; congruence.
Qed.

(** Dropping the first slab of a cache, all of whose objects are free: its page
    has no owner any more; a structure outside of the page is lost. *)
Definition drop_slab (K : kstate) (c b : Z) (bs : list Z) : kstate :=
  KState (k_conf K) (<[c := bs]> (k_chain K)) (delete b (k_slabs K))
    (fun x => if decide (k_own K x = OSlab b)
              then if decide (in_page b x) then OOther else OLive
              else k_own K x).

Lemma full_slab_objects C b S o :
  conf_ok C -> slab_ok C b S -> Z.of_nat (length (g_free S)) = capacity C ->
  o ∈ objects C b -> o ∈ g_free S.
Proof.
  intros HC HS Hlen Ho.
  assert (g_free S ≡ₚ objects C b) as Hp.
  { apply submseteq_length_Permutation.
    - apply NoDup_submseteq; [apply HS | apply HS].
    - unfold objects. rewrite length_stride. lia. }
  by rewrite Hp.
Qed.

Lemma kinv_drop_slab K (a : A) m c C b bs S :
  kinv K a m -> k_conf K !! c = Some C -> k_chain K !! c = Some (b :: bs) ->
  k_slabs K !! b = Some S -> Z.of_nat (length (g_free S)) = capacity C ->
  kinv (drop_slab K c b bs) a (store64 m (cache_slab c) (g_next S)) /\
  (forall x, in_page b x -> k_own (drop_slab K c b bs) x = OOther /\ ~ pa_own a x).
Proof.
  intros HK HC Hl HS Hfull. pose proof HK as [Hpa Hfree Hcache Hslab Hctag Hstag].
  destruct (kinv_head_slab K a m c C b bs HK HC Hl)
    as (S' & HS' & Hc & Hptr & Hcok & Hok & Hrep & Hfp & Hpg & Hnb & Hch). simplify_eq.
  destruct (Hcache _ C HC) as (l & Hl' & Hce). simplify_eq.
  pose proof (ce_own _ _ _ _ _ _ Hce) as Hown. set (c := g_cache S) in *.
  assert (forall x, k_own K x <> OCache c -> load8 (store64 m (cache_slab c) (g_next S)) x = load8 m x) as Hm.
  { intros x Hx. rewrite Hown in Hx. unfold cache_slab, sizeof_cache in *.
    apply load8_store_out. simpl. lia. }
  assert (forall x, in_page b x -> k_own K x = OSlab b) as Hpage.
  { intros x Hx. apply Hfp. right. split; [exact Hx |]. intros o Ho _. by apply (full_slab_objects C b). }
  assert (forall x t, t <> OSlab b -> t <> OOther -> t <> OLive ->
    k_own (drop_slab K c b bs) x = t <-> k_own K x = t) as Hsame.
  { intros x t H1 H2 H3. unfold drop_slab; cbn [k_own]. case_decide as Hx; [| done].
    case_decide; split; congruence. }
  split.
  2: { intros x Hx. unfold drop_slab; cbn [k_own]. rewrite !decide_True by auto. split; [done |].
       intros Hx'. apply Hfree in Hx'. rewrite (Hpage x Hx) in Hx'. done. }
  split; try done.
  - apply (pa_frame a m); [done |]. intros x Hx. apply Hfree in Hx. apply Hm. congruence.
  - intros x Hx. apply Hfree in Hx. unfold drop_slab; cbn [k_own]. by rewrite decide_False by congruence.
  - intros c' C' HC'. unfold drop_slab in HC' |- *; cbn [k_conf k_chain k_slabs k_own] in *.
    destruct (decide (c' = c)) as [-> | Hne].
    + exists bs. rewrite lookup_insert_eq. split; [done |]. simplify_eq.
      pose proof (so_next _ _ _ Hok) as Hnx. destruct Hce as [E1 E2 E3 E4 E5 E6 E7 E8].
      unfold cache_bufctl, cache_size, cache_align, cache_slab, sizeof_cache in *.
      split; try done; unfold cache_bufctl, cache_size, cache_align, cache_slab; mem_simpl; try done.
      * intros x. etrans; [by apply (Hsame x) | apply E3].
      * by apply NoDup_cons in E7 as [_ ?].
      * rewrite Z.mod_small by done. apply (chain_ok_same (k_slabs K)); [| done].
        intros b' T Hb' HT. exists T. rewrite lookup_delete_ne; [done |]. intros <-. done.
    + destruct (Hcache c' C' HC') as (l' & Hl'' & He'). exists l'.
      rewrite lookup_insert_ne by done. split; [done |].
      apply (cache_entry_frame (k_slabs K) _ (k_own K) _ m); [| | | done].
      * intros b' T Hb' HT. exists T. rewrite lookup_delete_ne; [done |]. intros <-.
        destruct (chain_ok_elem _ _ _ _ b (ce_chain _ _ _ _ _ _ He') Hb') as (T' & HT' & Hct).
        apply Hne. unfold c. congruence.
      * intros x. by apply Hsame.
      * intros x Hx. apply Hm. congruence.
  - intros b' T. unfold drop_slab; cbn [k_conf k_slabs]. rewrite lookup_delete_Some. intros [Hne HT].
    apply (slab_entry_frame _ (k_own K) _ m); [| | | | by apply Hslab].
    + intros C' HC'. by apply (kinv_conf_ok K a m (g_cache T)).
    + intros x. apply Hsame; congruence.
    + intros x Hx'. cbn [k_own]. case_decide as Hx; [| done]. case_decide as Hxb; [| done]. intros _.
      exfalso. destruct (Hslab b' T HT) as (C' & _ & Hok' & _).
      destruct (so_aligned _ _ _ Hok) as [k Hk], (so_aligned _ _ _ Hok') as [k' Hk'].
      unfold in_page in Hxb. rewrite page_small_val in *. apply Hne. lia.
    + intros x Hx. apply Hm. congruence.
  - intros x c' Hx. apply (Hctag x). by apply Hsame in Hx.
  - intros x b' Hx. unfold drop_slab; cbn [k_slabs]. rewrite lookup_delete_is_Some.
    assert (b' <> b) as Hne.
    { intros ->. unfold drop_slab in Hx; cbn [k_own] in Hx. repeat case_decide; congruence. }
    split; [congruence |]. apply (Hstag x). apply Hsame in Hx; [done | congruence..].
Qed.

(** The object is back with its slab, and nothing else has changed hands. *)
Record object_freed (K : kstate) (a : A) (m : mem) (C : conf) (S : slabg) (o : Z)
  (K' : kstate) (a' : A) (m' : mem) : Prop := {
  of_inv : kinv K' a' m';
  of_conf : k_conf K' = k_conf K;
  of_chain c b bs : k_chain K !! c = Some (b :: bs) -> exists b' bs', k_chain K' !! c = Some (b' :: bs');
  of_mem x : client K a x -> ~ o <= x < o + bufsz C -> load8 m' x = load8 m x;
  of_keep x : client K a x -> ~ o <= x < o + bufsz C -> client K' a' x;
  of_gone x : client K' a' x ->
    (client K a x /\ ~ o <= x < o + bufsz C) \/
    (small_objects C = false /\ g_addr S <= x < g_addr S + sizeof_slab)
}.

Lemma return_object_client K (a : A) C b S o x :
  client (return_object K C b S o) a x <-> client K a x /\ ~ o <= x < o + bufsz C.
Proof.
  unfold client, return_object, retag; cbn [k_own]. case_decide.
  - split; [intros [? | [? _]]; congruence | tauto].
  - tauto.
Qed.

(** The page of a slab without live objects goes back to the page allocator. *)
Lemma drop_slab_freed K (a : A) m c C b b' bs S :
  kinv K a m -> k_conf K !! c = Some C -> k_chain K !! c = Some (b :: b' :: bs) ->
  k_slabs K !! b = Some S -> Z.of_nat (length (g_free S)) = capacity C ->
  exists a' m', page_free_small b a (store64 m (cache_slab c) (g_next S)) = (a', m') /\
    let K' := drop_slab K c b (b' :: bs) in
    kinv K' a' m' /\
    (forall x, client K a x -> client K' a' x /\ load8 m' x = load8 m x) /\
    (forall x, client K' a' x -> client K a x \/
       (small_objects C = false /\ g_addr S <= x < g_addr S + sizeof_slab)).
Proof.
  intros HK HC Hl HS Hfull.
  destruct (kinv_drop_slab K a m c C b (b' :: bs) S HK HC Hl HS Hfull) as [HK1 Hpg].
  destruct (kinv_head_slab K a m c C b (b' :: bs) HK HC Hl)
    as (S' & HS' & Hc & Hptr & Hcok & Hok & Hrep & Hfp & Hpg0 & Hnb & Hch). simplify_eq.
  destruct (so_base _ _ _ Hok) as [Hb1 Hb2].
  set (K1 := drop_slab K _ b _) in *.
  destruct (kinv_page_free K1 a _ b HK1 Hb1 (so_aligned _ _ _ Hok) Hb2 Hpg)
    as (a' & m' & E & HK' & Hpa & Hcl & Hm).
  exists a', m'. split; [done |]. cbv zeta.
  assert (forall x, client K a x -> client K1 a' x) as Hkeep.
  { intros x Hx. apply Hcl. split.
    - unfold client, K1, drop_slab in *; cbn [k_own]. destruct Hx as [Hx | [Hx Hn]];
        rewrite decide_False by congruence; tauto.
    - intros Hp. pose proof (Hpg0 x Hp). destruct (Hpg x Hp) as [Ho _].
      unfold K1, drop_slab in Ho; cbn [k_own] in Ho.
      destruct Hx as [Hx | [Hx _]]; [| done]. rewrite decide_False in Ho by congruence. congruence. }
  split_and!; [done | |].
  - intros x Hx. split; [by apply Hkeep |]. rewrite Hm by (by apply Hkeep).
    destruct (ki_cache _ _ _ HK _ C HC) as (l & _ & Hce). apply load8_store_out.
    assert (~ g_cache S <= x < g_cache S + sizeof_cache) as Hn.
    { intros Hx'. apply (ce_own _ _ _ _ _ _ Hce) in Hx'. destruct Hx as [? | [? _]]; congruence. }
    unfold cache_slab, sizeof_cache in *. simpl. lia.
  - intros x Hx. apply Hcl in Hx as [Hx Hnp]. unfold client, K1, drop_slab in Hx; cbn [k_own] in Hx.
    case_decide as Hb; [| by left]. right. rewrite decide_False in Hx by done.
    apply Hfp in Hb as [Hh | [Hp _]]; [| done]. split; [| done].
    destruct (small_objects C) eqn:Es; [exfalso | done]. apply Hnp.
    rewrite (so_small _ _ _ Hok Es) in Hh. unfold in_page, sizeof_slab in *. rewrite page_small_val in *. lia.
Qed.

Lemma cache_free_spec K (a : A) m c C b bs S o :
  kinv K a m -> k_conf K !! c = Some C -> k_chain K !! c = Some (b :: bs) ->
  k_slabs K !! b = Some S -> o ∈ objects C b -> o ∉ g_free S ->
  (forall x, o <= x < o + bufsz C -> k_own K x = OLive) ->
  exists a' m' K', kmem_cache_free c o a m = Ok (a', m') /\ object_freed K a m C S o K' a' m'.
Proof.
  intros HK HC Hl HS Ho Hno Hlive. unfold kmem_cache_free.
  destruct (slab_free_object_spec K a m c C b bs S o HK HC Hl HS Ho Hno Hlive) as (m1 & -> & HK1 & Hm1).
  cbn [mbind outcome_bind]. set (K1 := return_object K C b S o) in *.
  assert (object_freed K a m C S o K1 a m1) as HF1.
  { split; try done; [eauto | |].
    - intros x Hx Hn. by apply return_object_client.
    - intros x Hx. left. by apply return_object_client in Hx. }
  destruct (kinv_head_slab K1 a m1 c C b bs HK1 HC Hl)
    as (S1 & HS1 & Hc & Hptr & Hcok & Hok & Hrep & Hfp & Hpg & Hnb & Hch).
  unfold K1, return_object in HS1; cbn [k_slabs] in HS1. rewrite lookup_insert_eq in HS1.
  injection HS1 as HS1. rewrite Hptr.
  unfold kmem_slab_is_full. rewrite (sr_nr_free _ _ _ _ Hrep), (sr_capacity _ _ _ _ Hrep).
  destruct (Z.eqb_spec (Z.of_nat (length (g_free S1))) (capacity C)) as [Hfull | _]; cbn [negb].
  2: { by exists a, m1, K1. }
  rewrite (sr_next _ _ _ _ Hrep). destruct (Z.eqb_spec (g_next S1) 0) as [_ | Hnz].
  { by exists a, m1, K1. }
  destruct bs as [|b' bs]; [done |].
  destruct (drop_slab_freed K1 a m1 c C b b' bs S1 HK1 HC Hl) as (a' & m' & E & HK' & Hkeep & Hgone);
    [unfold K1, return_object; cbn [k_slabs]; rewrite lookup_insert_eq; congruence | done |].
  exists a', m', (drop_slab K1 c b (b' :: bs)). split.
  { unfold kmem_slab_destroy. replace (load64 _ (slab_base (g_addr S1))) with b; [by rewrite E |].
    rewrite <- (sr_base _ _ _ _ Hrep) at 1. symmetry. apply load_store_ne.
    destruct (ki_cache _ _ _ HK1 c C HC) as (l & _ & Hce).
    assert (c + sizeof_cache <= g_addr S1 \/ g_addr S1 + sizeof_slab <= c) as Hd.
    { apply ranges_disjoint; [done | done |]. intros x Hx Hx'. apply (ce_own _ _ _ _ _ _ Hce) in Hx.
      assert (k_own K1 x = OSlab b) by (apply Hfp; by left). congruence. }
    unfold slab_base, cache_slab, sizeof_cache, sizeof_slab in *. simpl. lia. }
  assert (g_addr S1 = g_addr S) as Haddr by (by rewrite <- HS1).
  split; try done.
  - intros c' b0 bs0 Hc'. unfold drop_slab; cbn [k_chain]. destruct (decide (c' = c)) as [-> | Hne].
    + rewrite lookup_insert_eq. eauto.
    + rewrite lookup_insert_ne by done. eauto.
  - intros x Hx Hn. destruct (Hkeep x) as [_ ->]; [by apply return_object_client | by apply Hm1].
  - intros x Hx Hn. apply Hkeep. by apply return_object_client.
  - intros x Hx. apply Hgone in Hx as [Hx | Hx]; [left | right; by rewrite <- Haddr].
    by apply return_object_client in Hx.
Qed.

End FreeObject.
