(* ===== verification/KmemTheorems.v ===== *)
(** * Theorems on the slab allocator

    [kmem_init] establishes the invariant, [kmem_alloc] hands out unused memory,
    [kmem_cache_free] takes back an object of the first slab, and freeing an
    object of another slab can release a page that holds a live object. *)

From Stdlib Require Import Strings.String.
From S2P Require Import Prelude Align Mem Printf PrintfProof PageAlloc PageAllocProof LibcString Kmem KmemProof KmemAlloc.
From S2P Require Import KmemInit KmemFree.
#[local] Open Scope Z_scope.

(** ** The static variables of kmem.c *)

Section Theorems.
Context {A : Type} `{PageAllocatorLaws A}.
Context (cc sc kc frame r1 r2 : Z) (bs1 bs2 : list Z).

(** The caches, the local buffer and the two name literals are apart from each
    other and from the free pages, and the caches are zeroed. *)
Record statics (a : A) (m : mem) : Prop := {
  s_cc : 0 < cc /\ cc + 64 < 2 ^ 64;
  s_sc : 0 < sc /\ sc + 64 < 2 ^ 64;
  s_kc : 0 < kc /\ kc + 512 < 2 ^ 64;
  s_caches : (cc + 64 <= sc \/ sc + 64 <= cc) /\ (cc + 64 <= kc \/ kc + 512 <= cc) /\
    (sc + 64 <= kc \/ kc + 512 <= sc);
  s_frame : (frame + 32 < kc \/ kc + 512 <= frame) /\ (frame + 32 <= cc \/ cc + 64 <= frame) /\
    (frame + 32 <= sc \/ sc + 64 <= frame);
  s_name1 : string_at m r1 bs1 /\ (cc + 64 <= r1 \/ r1 + Z.of_nat (length bs1) < cc);
  s_name2 : string_at m r2 bs2 /\ (cc + 64 <= r2 \/ r2 + Z.of_nat (length bs2) < cc) /\
    (sc + 64 <= r2 \/ r2 + Z.of_nat (length bs2) < sc);
  s_free x : pa_own a x -> ~ cc <= x < cc + 64 /\ ~ sc <= x < sc + 64 /\ ~ kc <= x < kc + 512 /\
    ~ frame <= x < frame + 32 /\ ~ r2 <= x <= r2 + Z.of_nat (length bs2);
  s_zero : load64 m (cache_slab cc) = 0 /\ load64 m (cache_slab sc) = 0 /\
    forall j, 0 <= j < 8 -> load64 m (cache_slab (kmalloc_cache kc j)) = 0
}.

Definition no_state : kstate := KState ∅ ∅ ∅ (fun _ => OOther).

Lemma kinv_no_state (a : A) m : pa_rep a m -> kinv no_state a m.
Proof.
  intros Hpa. split; done.
Qed.

Lemma string_at_ext m m' s bs :
  (forall x, s <= x <= s + Z.of_nat (length bs) -> load8 m' x = load8 m x) ->
  string_at m s bs -> string_at m' s bs.
Proof.
  intros He [H1 H2 H3]. split; [| done |].
  - rewrite <- H1 at 2. apply load_bytes_ext. intros x Hx. apply He. lia.
  - rewrite <- H3. apply He. lia.
Qed.

Lemma cache_conf_ok : conf_ok (Conf sizeof_cache KMEM_DEFAULT_ALIGN).
Proof. split; vm_compute; intuition discriminate. Qed.
Lemma slab_conf_ok : conf_ok (Conf sizeof_slab KMEM_DEFAULT_ALIGN).
Proof. split; vm_compute; intuition discriminate. Qed.

(** The state of the allocator when everything is in place. *)
Record kmem_ready (K : kstate) (a : A) (m : mem) : Prop := {
  kr_inv : kinv K a m;
  kr_slab : slab_cache_ok sc K;
  kr_caches i s : kmem_alloc_sizes !! i = Some s ->
    k_conf K !! kmalloc_cache kc (Z.of_nat i) = Some (Conf s KMEM_DEFAULT_ALIGN) /\
    exists b bs, k_chain K !! kmalloc_cache kc (Z.of_nat i) = Some (b :: bs)
}.

(** A cache has slabs when its pointer is not null. *)
Lemma chain_nonempty K (a : A) m c C :
  kinv K a m -> k_conf K !! c = Some C -> load64 m (cache_slab c) <> 0 ->
  exists b bs, k_chain K !! c = Some (b :: bs).
Proof.
  intros HK HC Hne. destruct (ki_cache _ _ _ HK c C HC) as (l & Hl & He).
  pose proof (ce_chain _ _ _ _ _ _ He) as Hch. destruct l as [|b bs]; [done | by exists b, bs].
Qed.

Lemma kmem_init_spec (a : A) m :
  pa_rep a m -> statics a m ->
  exists K a' m', kmem_init cc sc kc frame r1 r2 a m = Ok (0, a', m') /\ kinv K a' m' /\
    k_conf K !! cc = Some (Conf sizeof_cache KMEM_DEFAULT_ALIGN) /\
    k_conf K !! sc = Some (Conf sizeof_slab KMEM_DEFAULT_ALIGN) /\
    (forall i s, kmem_alloc_sizes !! i = Some s ->
       k_conf K !! kmalloc_cache kc (Z.of_nat i) = Some (Conf s KMEM_DEFAULT_ALIGN)) /\
    (forall x, ~ pa_own a x -> ~ cc <= x < cc + 64 -> ~ sc <= x < sc + 64 -> ~ kc <= x < kc + 512 -> client K a' x).
Proof.
  intros Hpa [[Hcc1 Hcc2] [Hsc1 Hsc2] [Hkc1 Hkc2] (Hd1 & Hd2 & Hd3) (Hf1 & Hf2 & Hf3) [Hs1 Hn1]
    (Hs2 & Hn2 & Hn3) Hfree (Hz1 & Hz2 & Hz3)].
  unfold kmem_init, sizeof_cache in *.
  assert (forall x, ~ pa_own a x -> client no_state a x) as Hcl0 by (intros x Hx; by right).
  assert (forall x, cc <= x < cc + 64 -> client no_state a x) as HclC.
  { intros x Hx. apply Hcl0. intros Ho. by destruct (Hfree x Ho) as (? & _). }
  assert (forall x, sc <= x < sc + 64 -> client no_state a x) as HclS.
  { intros x Hx. apply Hcl0. intros Ho. by destruct (Hfree x Ho) as (_ & ? & _). }
  assert (forall x, kc <= x < kc + 512 -> client no_state a x) as HclK.
  { intros x Hx. apply Hcl0. intros Ho. by destruct (Hfree x Ho) as (_ & _ & ? & _). }
  assert (forall x, frame <= x < frame + 32 -> client no_state a x) as HclF.
  { intros x Hx. apply Hcl0. intros Ho. by destruct (Hfree x Ho) as (_ & _ & _ & ? & _). }
  assert (forall x, r2 <= x <= r2 + Z.of_nat (length bs2) -> client no_state a x) as HclR.
  { intros x Hx. apply Hcl0. intros Ho. by destruct (Hfree x Ho) as (_ & _ & _ & _ & ?). }
  destruct (cache_init_spec sc no_state a m cc r1 bs1 64 KMEM_DEFAULT_ALIGN)
    as (K1 & a1 & m1 & -> & HI1); [by apply kinv_no_state | | done | done | | done | done | done | done |].
  { intros x Hx. by apply HclC. }
  { apply cache_conf_ok. }
  cbn [mbind outcome_bind]. rewrite Z.eqb_refl. cbn [negb].
  assert (forall x, client no_state a x -> ~ cc <= x < cc + 64 -> client K1 a1 x /\ load8 m1 x = load8 m x) as Hk1.
  { intros x Hx Hn. split; [by apply (ci_client _ _ _ _ _ _ _ _ HI1) | by apply (ci_mem _ _ _ _ _ _ _ _ HI1)]. }
  destruct (cache_init_spec sc K1 a1 m1 sc r2 bs2 sizeof_slab KMEM_DEFAULT_ALIGN)
    as (K2 & a2 & m2 & -> & HI2); [apply HI1 | | done | done | | | done | | done |].
  { intros x Hx. unfold in_cache, sizeof_cache in Hx. apply Hk1; [by apply HclS | clear - Hx Hd1; lia]. }
  { apply slab_conf_ok. }
  { apply (string_at_ext m); [| done]. intros x Hx. apply Hk1; [by apply HclR | clear - Hx Hn2; lia]. }
  { rewrite <- Hz2. apply load_ext. intros x Hx. unfold cache_slab in Hx. simpl in Hx.
    apply Hk1; [apply HclS; clear - Hx; lia | clear - Hx Hd1; lia]. }
  cbn [mbind outcome_bind]. rewrite Z.eqb_refl. cbn [negb].
  assert (forall x, client no_state a x -> ~ cc <= x < cc + 64 -> ~ sc <= x < sc + 64 ->
    client K2 a2 x /\ load8 m2 x = load8 m x) as Hk2.
  { intros x Hx Hn Hn'. destruct (Hk1 x Hx Hn) as [Hx1 <-].
    split; [by apply (ci_client _ _ _ _ _ _ _ _ HI2) | by apply (ci_mem _ _ _ _ _ _ _ _ HI2)]. }
  destruct (kmem_init_loop_spec cc sc kc frame Hkc1 Hkc2 Hf1 kmem_alloc_sizes 0 K2 a2 m2)
    as (K & a' & m' & E & HK & _ & Hconf & Hother & Hcl); [done | done | done | | | |].
  { apply HI2. }
  { destruct (ci_small _ _ _ _ _ _ _ _ HI2 eq_refl) as [(b & bs & Hb) | He]; [left | by right].
    exists (Conf sizeof_slab KMEM_DEFAULT_ALIGN), b, bs.
    rewrite (ci_conf _ _ _ _ _ _ _ _ HI2), lookup_insert_eq. done. }
  { split.
    - intros j x Hj Hx. unfold in_cache, kmalloc_cache, sizeof_cache in Hx.
      assert (kc <= x < kc + 512) as Hx' by (clear - Hj Hx; lia).
      apply Hk2; [by apply HclK | clear - Hx' Hd2; lia | clear - Hx' Hd3; lia].
    - intros j Hj. rewrite <- (Hz3 j Hj). apply load_ext. intros x Hx.
      unfold cache_slab, kmalloc_cache, sizeof_cache in Hx. simpl in Hx.
      assert (kc <= x < kc + 512) as Hx' by (clear - Hj Hx; lia).
      apply Hk2; [by apply HclK | clear - Hx' Hd2; lia | clear - Hx' Hd3; lia].
    - intros x Hx. apply Hk2; [by apply HclF | clear - Hx Hf2; lia | clear - Hx Hf3; lia]. }
  exists K, a', m'. split_and!; [done | done | | | |].
  - rewrite Hother; [| intros j Hj; unfold kmalloc_cache, sizeof_cache; clear - Hj Hd2; lia].
    rewrite (ci_conf _ _ _ _ _ _ _ _ HI2), lookup_insert_ne by (clear - Hd1; lia).
    rewrite (ci_conf _ _ _ _ _ _ _ _ HI1). apply lookup_insert_eq.
  - rewrite Hother; [| intros j Hj; unfold kmalloc_cache, sizeof_cache; clear - Hj Hd3; lia].
    rewrite (ci_conf _ _ _ _ _ _ _ _ HI2). apply lookup_insert_eq.
  - intros i s Hi. by apply (Hconf i s).
  - intros x Hx H1 H2 H3. apply Hcl; [| done]. by apply Hk2; [apply Hcl0 | |].
Qed.

(** C38: [kmem_init] on zeroed static memory always returns 0 and establishes the
    invariant of the slab allocator, with the cache of caches, the cache of slab
    structures and the eight size caches registered, and memory that was not
    free and is not one of the static caches belongs to the clients.  It also
    returns 0 when the page allocator is out of pages; the caches then have no
    slab. *)
Theorem kmem_init_establishes (a : A) m :
  pa_rep a m -> statics a m ->
  exists K a' m', kmem_init cc sc kc frame r1 r2 a m = Ok (0, a', m') /\ kinv K a' m' /\
    k_conf K !! cc = Some (Conf sizeof_cache KMEM_DEFAULT_ALIGN) /\
    k_conf K !! sc = Some (Conf sizeof_slab KMEM_DEFAULT_ALIGN) /\
    (forall i s, kmem_alloc_sizes !! i = Some s ->
       k_conf K !! kmalloc_cache kc (Z.of_nat i) = Some (Conf s KMEM_DEFAULT_ALIGN)) /\
    (forall x, ~ pa_own a x -> ~ cc <= x < cc + 64 -> ~ sc <= x < sc + 64 -> ~ kc <= x < kc + 512 -> client K a' x).
Proof. apply kmem_init_spec. Qed.

(** The size class of a request is the least one that is large enough. *)
Lemma cache_index_fits size :
  0 <= size <= 4096 ->
  exists (i : nat) s, kmem_cache_index size = Z.of_nat i /\ kmem_alloc_sizes !! i = Some s /\ size <= s.
Proof.
  intros Hs. unfold kmem_cache_index. repeat case_bool; try lia.
  all: first [exists 0%nat, 32; done | exists 1%nat, 64; done | exists 2%nat, 128; done
    | exists 3%nat, 256; done | exists 4%nat, 512; done | exists 5%nat, 1024; done
    | exists 6%nat, 2048; done | exists 7%nat, 4096; done].
Qed.

Lemma kmem_ready_step K (a : A) m K' a' m' :
  kmem_ready K a m -> step_post K a m K' a' m' -> kmem_ready K' a' m'.
Proof.
  intros [H1 H2 H3] HP. split.
  - apply HP.
  - by apply (slab_cache_ok_step sc K a m K' a' m').
  - intros i s Hi. destruct (H3 i s Hi) as [Hc (b & bs & Hl)]. rewrite (sp_conf _ _ _ _ _ _ HP).
    split; [done |]. by apply (sp_chain _ _ _ _ _ _ HP _ b bs).
Qed.

Context (Hkc : 0 < kc).

Lemma kmem_alloc_spec K (a : A) m size :
  kmem_ready K a m -> 0 <= size ->
  exists r a' m' K', kmem_alloc sc kc size a m = Ok (r, a', m') /\ kmem_ready K' a' m' /\
    step_post K a m K' a' m' /\ (4096 < size -> r = 0) /\
    exists n, size <= n /\ gives n K a r K' a'.
Proof using Hkc.
  intros HR Hs. unfold kmem_alloc, kmem_size_to_cache.
  destruct (Z.leb_spec size 4096) as [Hle | Hgt].
  - destruct (cache_index_fits size) as (i & s & -> & Hi & Hfit); [lia |].
    pose proof (lookup_lt_Some _ _ _ Hi) as Hlt. change (length kmem_alloc_sizes) with 8%nat in Hlt |- *.
    destruct (Z.leb_spec (Z.of_nat 8) (Z.of_nat i)); [lia |].
    change (kc + sizeof_cache * Z.of_nat i) with (kmalloc_cache kc (Z.of_nat i)).
    destruct (Z.eqb_spec (kmalloc_cache kc (Z.of_nat i)) 0) as [Hz | _].
    { unfold kmalloc_cache, sizeof_cache in Hz. lia. }
    destruct (kr_caches _ _ _ HR i s Hi) as [HC (b & bs & Hl)].
    destruct (cache_alloc_spec sc K a m _ _ b bs (kr_inv _ _ _ HR) (kr_slab _ _ _ HR) HC Hl)
      as (r & a' & m' & K' & E & HP & Hg).
    exists r, a', m', K'. split_and!; [done | by apply (kmem_ready_step K a m) | done | lia |].
    exists (bufsz (Conf s KMEM_DEFAULT_ALIGN)). split; [| done].
    pose proof (conf_size _ (kmalloc_conf_ok s (list_elem_of_lookup_2 _ _ _ Hi))) as Hb.
    cbn [g_size] in Hb. lia.
  - assert (kmem_cache_index size = 2 ^ 64 - 1) as ->.
    { unfold kmem_cache_index. repeat (case_bool; [lia |]). done. }
    exists 0, a, m, K. split_and!; [done | done | by apply step_post_refl, HR | done |].
    exists size. split; [lia | by left].
Qed.


(** [kmem_zalloc] does the same and returns zeroed memory. *)
Theorem kmem_zalloc_zeroed K (a : A) m size :
  kmem_ready K a m -> 0 <= size ->
  exists r a' m' K', kmem_zalloc sc kc size a m = Ok (r, a', m') /\ kmem_ready K' a' m' /\
    (forall x, client K a x -> client K' a' x /\ load8 m' x = load8 m x) /\
    (r <> 0 -> forall x, r <= x < r + size -> load8 m' x = 0 /\ client K' a' x /\ ~ client K a x).
Proof using Hkc.
  intros HR Hs. destruct (kmem_alloc_spec K a m size HR Hs)
    as (r & a' & m' & K' & E & HR' & HP & _ & n & Hn & Hg).
  unfold kmem_zalloc. rewrite E. cbn [mbind outcome_bind].
  destruct Hg as [[-> Hcl] | (Hr1 & Hr2 & Hr3 & Hr4)].
  - rewrite Z.eqb_refl. exists 0, a', m', K'. split_and!; [done | done | | done].
    intros x Hx. split; [by apply Hcl | by apply (sp_mem _ _ _ _ _ _ HP)].
  - destruct (Z.eqb_spec r 0); [lia |].
    assert (forall x, ~ client K' a' x -> load8 (memset m' r 0 (Z.to_nat size)) x = load8 m' x) as Hms.
    { intros x Hx. apply memset_same_outside. rewrite Hr4 in Hx. lia. }
    exists r, a', (memset m' r 0 (Z.to_nat size)), K'. split_and!; [done | | |].
    + destruct HR' as [I1 I2 I3]. split; [by apply (kinv_client_store K' a' m') | done | done].
    + intros x Hx. split; [by apply Hr4; left |]. rewrite <- (sp_mem _ _ _ _ _ _ HP x Hx).
      apply memset_same_outside.
      destruct (decide (r <= x < r + n)) as [Hx' | Hx']; [by destruct (Hr3 x Hx') | lia].
    + intros _ x Hx. destruct (Hr3 x) as [_ Hnc]; [lia |]. split_and!; [| apply Hr4; right; lia | done].
      rewrite load8_memset. destruct (Z.leb_spec r x); [| lia].
      destruct (Z.ltb_spec x (r + Z.of_nat (Z.to_nat size))); [done | lia].
Qed.

(** [kmem_cache_free] of a live object of the first slab of the cache keeps
    the invariant; the object's bytes no longer belong to the caller and all
    other memory in use keeps its owner and contents.  When the slab has no live
    object left and is not the last one, its page is returned; the structure of
    a slab with large objects is not. *)
Theorem kmem_cache_free_first_slab K (a : A) m c C b bs S o :
  kinv K a m -> k_conf K !! c = Some C -> k_chain K !! c = Some (b :: bs) ->
  k_slabs K !! b = Some S -> o ∈ objects C b -> o ∉ g_free S ->
  (forall x, o <= x < o + bufsz C -> k_own K x = OLive) ->
  exists a' m' K', kmem_cache_free c o a m = Ok (a', m') /\ kinv K' a' m' /\
    (forall x, client K a x -> ~ o <= x < o + bufsz C -> client K' a' x /\ load8 m' x = load8 m x) /\
    (forall x, client K' a' x ->
       (client K a x /\ ~ o <= x < o + bufsz C) \/
       (small_objects C = false /\ g_addr S <= x < g_addr S + sizeof_slab)).
Proof.
  intros HK HC Hl HS Ho Hno Hlive.
  destruct (cache_free_spec K a m c C b bs S o HK HC Hl HS Ho Hno Hlive)
    as (a' & m' & K' & E & [F1 F2 F3 F4 F5 F6]).
  exists a', m', K'. split_and!; auto.
Qed.

End Theorems.

(** ** The slab allocator on a concrete machine

    A small machine with 64 free pages, all in the upper two gigabytes of the
    address space where the kernel is: the theorems of KmemTheorems applied to
    it, and a run of the allocator that frees a page with a live object. *)

Definition name_cache : list Z := bytes_of "kmem_cache_cache".
Definition name_slab : list Z := bytes_of "kmem_slab_cache".

Definition ex_base : Z := 0xffffffff80000000.

Definition ex_cc : Z := ex_base + 1024.
Definition ex_sc : Z := ex_base + 1280.
Definition ex_kc : Z := ex_base + 2048.
Definition ex_frame : Z := ex_base + 8192.
Definition ex_r1 : Z := ex_base + 9216.
Definition ex_r2 : Z := ex_base + 9280.

Definition ex_rodata : mem := store_bytes (store_bytes ∅ ex_r1 name_cache) ex_r2 name_slab.
Definition ex_start : arenas list_tree * mem :=
  memory_add_span_small (ex_base + 1048576) (ex_base + 1310720) empty_arenas ex_rodata.
Definition ex_a : arenas list_tree := fst ex_start.
Definition ex_m : mem := snd ex_start.

Lemma ex_rep : pa_rep ex_a ex_m /\ forall x, pa_own ex_a x -> ex_base + 1048576 <= x < ex_base + 1310720.
Proof.
  destruct (arenas_add_small empty_arenas ex_rodata (ex_base + 1048576) (ex_base + 1310720)) as (a & m & E & Hr & Ho & _).
  - apply (arenas_rep_new (T := list_tree)).
  - apply seg_ok_range; [done | done | by exists ((ex_base + 1048576) / 4096) | by exists ((ex_base + 1310720) / 4096)].
  - intros x _. apply empty_arenas_own.
  - unfold ex_a, ex_m, ex_start. rewrite E. split; [exact Hr |].
    intros x Hx. apply Ho in Hx as [Hx | Hx]; [by apply empty_arenas_own in Hx | done].
Qed.

Lemma ex_statics :
  statics ex_cc ex_sc ex_kc ex_frame ex_r1 ex_r2 name_cache name_slab ex_a ex_m.
Proof.
  destruct ex_rep as [_ Ho]. split; unfold ex_cc, ex_sc, ex_kc, ex_frame; change ex_base with 0xffffffff80000000 in *.
  - lia.
  - lia.
  - lia.
  - lia.
  - lia.
  - split; [split; [vm_compute; reflexivity | repeat constructor; discriminate | vm_compute; reflexivity] |].
    left. unfold ex_r1, ex_base. lia.
  - split; [split; [vm_compute; reflexivity | repeat constructor; discriminate | vm_compute; reflexivity] |].
    unfold ex_r2, ex_base. lia.
  - intros x Hx. apply Ho in Hx. change (Datatypes.length name_slab) with 15%nat. unfold ex_r2, ex_base. lia.
  - split_and!; [vm_compute; reflexivity | vm_compute; reflexivity |]. intros j Hj.
    assert (j ∈ [0; 1; 2; 3; 4; 5; 6; 7]) as Hin.
    { rewrite !elem_of_cons. lia. }
    repeat (apply elem_of_cons in Hin as [-> | Hin]; [vm_compute; reflexivity |]).
    by apply not_elem_of_nil in Hin.
Qed.

Definition ex_init : outcome (Z * arenas list_tree * mem) :=
  kmem_init ex_cc ex_sc ex_kc ex_frame ex_r1 ex_r2 ex_a ex_m.

(** Every cache has a slab with a free object. *)
Definition usable_caches (o : outcome (Z * arenas list_tree * mem)) : bool :=
  match o with
  | Ok (_, _, m) =>
      forallb (fun c => negb (load64 m (cache_slab c) =? 0) &&
                        (0 <? load32 m (slab_nr_free (load64 m (cache_slab c)))))
        (ex_sc :: map (kmalloc_cache ex_kc) [0; 1; 2; 3; 4; 5; 6; 7])
  | Fault _ => false
  end.

Lemma ex_usable : usable_caches ex_init = true.
Proof. vm_compute. reflexivity. Qed.

Lemma ex_init_inv :
  exists K a m, ex_init = Ok (0, a, m) /\ kinv K a m /\
    k_conf K !! ex_cc = Some (Conf sizeof_cache KMEM_DEFAULT_ALIGN) /\
    k_conf K !! ex_sc = Some (Conf sizeof_slab KMEM_DEFAULT_ALIGN) /\
    (forall i s, kmem_alloc_sizes !! i = Some s ->
       k_conf K !! kmalloc_cache ex_kc (Z.of_nat i) = Some (Conf s KMEM_DEFAULT_ALIGN)) /\
    (forall x, ~ pa_own ex_a x -> ~ ex_cc <= x < ex_cc + 64 -> ~ ex_sc <= x < ex_sc + 64 ->
       ~ ex_kc <= x < ex_kc + 512 -> client K a x).
Proof. exact (kmem_init_spec _ _ _ _ _ _ _ _ ex_a ex_m (proj1 ex_rep) ex_statics). Qed.

#[local] Opaque ex_init.

(** After [kmem_init] the allocator of the example is ready. *)
Lemma ex_ready :
  exists K a m, ex_init = Ok (0, a, m) /\ kmem_ready ex_sc ex_kc K a m /\
    0 < load32 m (slab_nr_free (load64 m (cache_slab (kmalloc_cache ex_kc 1)))) /\
    forall x, x < ex_base \/ ex_base + 16384 <= x < ex_base + 1048576 -> client K a x.
Proof.
  destruct ex_init_inv as (K & a & m & E & HK & _ & Hsc & Hkc & Hcl). exists K, a, m. split; [exact E |].
  pose proof ex_usable as Hu. rewrite E in Hu. unfold usable_caches in Hu.
  rewrite forallb_forall in Hu.
  assert (forall c, c ∈ ex_sc :: map (kmalloc_cache ex_kc) [0; 1; 2; 3; 4; 5; 6; 7] ->
    load64 m (cache_slab c) <> 0 /\ 0 < load32 m (slab_nr_free (load64 m (cache_slab c)))) as Hc.
  { intros c Hin. apply list_elem_of_In in Hin. specialize (Hu c Hin).
    apply andb_true_iff in Hu as [H1 H2]. apply negb_true_iff, Z.eqb_neq in H1. apply Z.ltb_lt in H2.
    exact (conj H1 H2). }
  clear Hu E.
  split; [split |split].
  - done.
  - destruct (chain_nonempty K a m ex_sc _ HK Hsc) as (b & bs & Hl); [apply Hc; by left |].
    by exists (Conf sizeof_slab KMEM_DEFAULT_ALIGN), b, bs.
  - intros i s Hi. split; [by apply Hkc |].
    apply (chain_nonempty K a m _ (Conf s KMEM_DEFAULT_ALIGN) HK); [by apply Hkc |]. apply Hc. right.
    apply lookup_lt_Some in Hi. change (Datatypes.length kmem_alloc_sizes) with 8%nat in Hi.
    apply list_elem_of_fmap. exists (Z.of_nat i). split; [done |]. rewrite !elem_of_cons. lia.
  - apply Hc. right. right. by left.
  - intros x Hx. apply Hcl; unfold ex_cc, ex_sc, ex_kc; [| lia..].
    intros Ho. apply (proj2 ex_rep) in Ho. lia.
Qed.

Lemma kmem_init_establishes_witness :
  exists K a m, ex_init = Ok (0, a, m) /\ kinv K a m.
Proof.
  destruct (kmem_init_establishes ex_cc ex_sc ex_kc ex_frame ex_r1 ex_r2 name_cache name_slab
    ex_a ex_m (proj1 ex_rep) ex_statics) as (K & a & m & E & HK & _).
  exists K, a, m. exact (conj E HK).
Defined.


Lemma kmem_zalloc_zeroed_witness :
  exists K a m r a' m' K', kmem_zalloc ex_sc ex_kc 100 a m = Ok (r, a', m') /\
    kmem_ready ex_sc ex_kc K a m /\ kmem_ready ex_sc ex_kc K' a' m'.
Proof.
  destruct ex_ready as (K & a & m & _ & HR & _).
  destruct (kmem_zalloc_zeroed ex_sc ex_kc eq_refl K a m 100 HR) as (r & a' & m' & K' & E & HR' & _).
  - lia.
  - exists K, a, m, r, a', m', K'. exact (conj E (conj HR HR')).
Defined.

(** A live object of the first slab of the 64-byte cache. *)
Lemma ex_live_object :
  exists K (a : arenas list_tree) m c C b bs S o, kinv K a m /\ k_conf K !! c = Some C /\
    k_chain K !! c = Some (b :: bs) /\ k_slabs K !! b = Some S /\ o ∈ objects C b /\ o ∉ g_free S /\
    forall x, o <= x < o + bufsz C -> k_own K x = OLive.
Proof.
  destruct ex_ready as (K & a & m & _ & HR & Hfree & _).
  destruct (kr_caches _ _ _ _ _ HR 1 64 eq_refl) as [HC (b & bs & Hl)].
  set (c := kmalloc_cache ex_kc (Z.of_nat 1)) in *. set (C := Conf 64 KMEM_DEFAULT_ALIGN) in *.
  pose proof (kr_inv _ _ _ _ _ HR) as HK.
  destruct (kinv_head_slab K a m c C b bs HK HC Hl)
    as (S & HS & Hc & Hptr & Hcok & Hok & Hrep & Hfp & Hpg & Hnb & Hch).
  change (kmalloc_cache ex_kc 1) with c in Hfree.
  rewrite Hptr, (sr_nr_free _ _ _ _ Hrep) in Hfree.
  destruct (g_free S) as [|o l] eqn:Hf; [cbn in Hfree; lia |].
  destruct (slab_alloc_object_spec K a m c C b bs S o l HK HC Hl HS Hf) as (m' & _ & HK' & _ & Ho & _).
  pose proof (so_nodup _ _ _ Hok) as Hnd. rewrite Hf in Hnd. apply NoDup_cons in Hnd as [Hno _].
  eexists (take_object K C b S o l), a, m', c, C, b, bs, _, o.
  split_and!; [exact HK' | exact HC | exact Hl | apply lookup_insert_eq | exact Ho | exact Hno |].
  intros x Hx. unfold take_object, retag; cbn [k_own]. by rewrite decide_True.
Qed.

Lemma kmem_cache_free_first_slab_witness :
  exists (a : arenas list_tree) m c o a' m' K', kmem_cache_free c o a m = Ok (a', m') /\ kinv K' a' m'.
Proof.
  destruct ex_live_object as (K & a & m & c & C & b & bs & S & o & H1 & H2 & H3 & H4 & H5 & H6 & H7).
  destruct (kmem_cache_free_first_slab K a m c C b bs S o H1 H2 H3 H4 H5 H6 H7)
    as (a' & m' & K' & E & HK' & _).
  exists a, m, c, o, a', m', K'. exact (conj E HK').
Defined.

(** ** Freeing an object of an older slab *)

(** Three blocks of 2048 bytes, two to a page: the third one is in a new slab.
    Then the first block is freed, and one page is allocated. *)
Definition free_older_object : outcome (Z * Z * Z) :=
  '(_, a, m) ← ex_init;
  '(x, a, m) ← kmem_alloc ex_sc ex_kc 2048 a m;
  '(_, a, m) ← kmem_alloc ex_sc ex_kc 2048 a m;
  '(z, a, m) ← kmem_alloc ex_sc ex_kc 2048 a m;
  '(a, m) ← kmem_free ex_kc x 2048 a m;
  '(p, a, m) ← page_alloc_small a m;
  Ok (x, z, p).

(** [kmem_cache_free] puts every object on the free list of the first slab,
    whichever slab it comes from.  Freeing a block of an older slab can therefore
    release the page of the newest slab while a block in it is in use: here the
    page that holds the live block [z] is handed out again. *)
Theorem kmem_free_releases_live_page :
  exists x z p, free_older_object = Ok (x, z, p) /\ x <> 0 /\ z <> 0 /\ x <> z /\
    p <= z /\ z + 2048 <= p + PAGE_SIZE_SMALL.
Proof.
  exists (ex_base + 1081344), (ex_base + 1089536), (ex_base + 1089536). split; [vm_compute; reflexivity |].
  rewrite page_small_val. unfold ex_base. lia.
Qed.
