(* ===== verification/Mmu.v ===== *)
(** * Page tables

    arch/x86_64/mmu.c, mm/mmu.c and arch/x86_64/ioremap.c.  Physical memory is
    reached through the kernel's direct mapping: the physical address [p] is the
    kernel address [p + KERNEL_VMA].  A page table is 512 words of 64 bits in one
    small page of that memory. *)

From S2P Require Import Prelude Align Mem PageAlloc Printf Kmem.
From Stdlib Require Import Strings.String.
#[local] Open Scope Z_scope.

Definition KERNEL_VMA : Z := 0xffffffff80000000.

Definition virt_to_phys (addr : Z) : Z := u64 (addr - KERNEL_VMA).
Definition phys_to_virt (addr : Z) : Z := u64 (addr + KERNEL_VMA).
Definition ptr_to_paddr (page : Z) : Z := virt_to_phys page.
Definition paddr_to_ptr (paddr : Z) : Z := u64 (paddr + KERNEL_VMA).

Definition X86_PE_P : Z := Z.shiftl 1 0.
Definition X86_PE_RW : Z := Z.shiftl 1 1.
Definition X86_PE_US : Z := Z.shiftl 1 2.
Definition X86_PE_PCD : Z := Z.shiftl 1 4.
Definition X86_PE_PS : Z := Z.shiftl 1 7.
Definition X86_PE_XD : Z := Z.shiftl 1 63.

Definition MMU_PROT_READ : Z := Z.shiftl 1 0.
Definition MMU_PROT_WRITE : Z := Z.shiftl 1 1.
Definition MMU_PROT_EXEC : Z := Z.shiftl 1 2.
Definition MMU_USER_PAGE : Z := Z.shiftl 1 0.
Definition MMU_NOCACHE : Z := Z.shiftl 1 1.

Definition NR_PG_ENTRIES : Z := 512.
Definition PG_TABLE_BITS : Z := 9.
Definition PG_INDEX_MASK : Z := Z.shiftl 1 PG_TABLE_BITS - 1.
Definition PML4_INDEX_SHIFT : Z := 39.
Definition PDPT_INDEX_SHIFT : Z := 30.
Definition PD_INDEX_SHIFT : Z := 21.
Definition PT_INDEX_SHIFT : Z := 12.

(** The four pairs of masks of the source are the same. *)
Definition PE_FLAGS_MASK : Z := 0x80000000000007ff.
Definition PE_PADDR_MASK : Z := u64 (Z.lnot PE_FLAGS_MASK).

(** ** Entries *)

Definition make_pe (paddr flags : Z) : Z := Z.lor paddr flags.
Definition make_pml4e := make_pe.
Definition make_pdpte := make_pe.
Definition make_pde := make_pe.
Definition make_pte := make_pe.

Definition pe_is_none (pe : Z) : bool := pe =? 0.
Definition pml4e_is_none := pe_is_none.
Definition pdpte_is_none := pe_is_none.
Definition pde_is_none := pe_is_none.
Definition pte_is_none := pe_is_none.
Definition pde_is_large (pde : Z) : bool := negb (Z.land pde X86_PE_PS =? 0).

Definition pe_paddr (pe : Z) : Z := Z.land pe PE_PADDR_MASK.
Definition pml4e_paddr := pe_paddr.
Definition pdpte_paddr := pe_paddr.
Definition pde_paddr := pe_paddr.
Definition pte_paddr := pe_paddr.

Definition pe_flags (pe : Z) : Z := Z.land pe PE_FLAGS_MASK.
Definition pml4e_flags := pe_flags.
Definition pdpte_flags := pe_flags.
Definition pde_flags := pe_flags.
Definition pte_flags := pe_flags.

Definition pg_index_to_vaddr (pml4_idx pdpt_idx pd_idx pt_idx : Z) : Z :=
  Z.lor (Z.lor (Z.lor (u64 (Z.shiftl pml4_idx PML4_INDEX_SHIFT)) (u64 (Z.shiftl pdpt_idx PDPT_INDEX_SHIFT)))
    (u64 (Z.shiftl pd_idx PD_INDEX_SHIFT))) (u64 (Z.shiftl pt_idx PT_INDEX_SHIFT)).

Definition mmu_prot_to_hw (prot : Z) : Z :=
  let hw_flags := X86_PE_P in
  let hw_flags := if negb (Z.land prot MMU_PROT_WRITE =? 0) then Z.lor hw_flags X86_PE_RW else hw_flags in
  if Z.land prot MMU_PROT_EXEC =? 0 then Z.lor hw_flags X86_PE_XD else hw_flags.

Definition mmu_flags_to_hw (flags : Z) : Z :=
  let hw_flags := 0 in
  let hw_flags := if negb (Z.land flags MMU_USER_PAGE =? 0) then Z.lor hw_flags X86_PE_US else hw_flags in
  if negb (Z.land flags MMU_NOCACHE =? 0) then Z.lor hw_flags X86_PE_PCD else hw_flags.

Definition table_index (vaddr shift : Z) : Z := Z.land (Z.shiftr vaddr shift) PG_INDEX_MASK.

(** ** Mapping one page *)

Section Map.
Context {A : Type} `{PageAllocator A}.

(** The step that both mapping functions repeat at each level: read the entry of
    a table and, if there is none, allocate, clear and link a new table.  [None]
    stands for the early return of [-ENOMEM]. *)
Definition table_entry_alloc (table idx hw_flags : Z) (a : A) (m : mem)
  : outcome (option Z * A * mem) :=
  let pe := load64 m (table + 8 * idx) in
  if pe_is_none pe then
    '(page, a, m) ← page_alloc_small a m;
    if page =? 0 then Ok (None, a, m)
    else
      let m := memset m page 0 (Z.to_nat PAGE_SIZE_SMALL) in
      let pe := make_pe (ptr_to_paddr page) (Z.lor (Z.lor X86_PE_P X86_PE_RW) hw_flags) in
      let m := store64 m (table + 8 * idx) pe in
      Ok (Some pe, a, m)
  else Ok (Some pe, a, m).

Definition mmu_map_small_page (cr3 vaddr paddr prot flags : Z) (a : A) (m : mem)
  : outcome (Z * A * mem) :=
  let hw_flags := mmu_flags_to_hw flags in
  let pml4_table := paddr_to_ptr cr3 in
  let pml4_idx := table_index vaddr PML4_INDEX_SHIFT in
  '(pml4e, a, m) ← table_entry_alloc pml4_table pml4_idx hw_flags a m;
  match pml4e with
  | None => Ok (- ENOMEM, a, m)
  | Some pml4e =>
      let pdp_table := paddr_to_ptr (pml4e_paddr pml4e) in
      let pdpt_idx := table_index vaddr PDPT_INDEX_SHIFT in
      '(pdpte, a, m) ← table_entry_alloc pdp_table pdpt_idx hw_flags a m;
      match pdpte with
      | None => Ok (- ENOMEM, a, m)
      | Some pdpte =>
          let pd := paddr_to_ptr (pdpte_paddr pdpte) in
          let pd_idx := table_index vaddr PD_INDEX_SHIFT in
          '(pde, a, m) ← table_entry_alloc pd pd_idx hw_flags a m;
          match pde with
          | None => Ok (- ENOMEM, a, m)
          | Some pde =>
              if pde_is_large pde then Ok (- EINVAL, a, m)
              else
                let hw_prot := mmu_prot_to_hw prot in
                let pt := paddr_to_ptr (pde_paddr pde) in
                let pt_idx := table_index vaddr PT_INDEX_SHIFT in
                Ok (0, a, store64 m (pt + 8 * pt_idx) (make_pte paddr (Z.lor hw_prot hw_flags)))
          end
      end
  end.

Definition mmu_map_large_page (cr3 vaddr paddr prot flags : Z) (a : A) (m : mem)
  : outcome (Z * A * mem) :=
  let hw_flags := mmu_flags_to_hw flags in
  let pml4_table := paddr_to_ptr cr3 in
  let pml4_idx := table_index vaddr PML4_INDEX_SHIFT in
  '(pml4e, a, m) ← table_entry_alloc pml4_table pml4_idx hw_flags a m;
  match pml4e with
  | None => Ok (- ENOMEM, a, m)
  | Some pml4e =>
      let pdp_table := paddr_to_ptr (pml4e_paddr pml4e) in
      let pdpt_idx := table_index vaddr PDPT_INDEX_SHIFT in
      '(pdpte, a, m) ← table_entry_alloc pdp_table pdpt_idx hw_flags a m;
      match pdpte with
      | None => Ok (- ENOMEM, a, m)
      | Some pdpte =>
          let pd := paddr_to_ptr (pdpte_paddr pdpte) in
          let pd_idx := table_index vaddr PD_INDEX_SHIFT in
          let pde := load64 m (pd + 8 * pd_idx) in
          if negb (pde_is_none pde) && negb (pde_is_large pde) then Ok (- EINVAL, a, m)
          else
            let hw_prot := mmu_prot_to_hw prot in
            Ok (0, a, store64 m (pd + 8 * pd_idx)
                        (make_pde paddr (Z.lor (Z.lor hw_prot hw_flags) X86_PE_PS)))
      end
  end.

(** ** Mapping a range *)

(** The loops of [mmu_map_range]: one page of size [step] after the other until
    [stop], returning the first error.  The result carries the advanced physical
    address. *)
Fixpoint map_loop (map_page : Z -> Z -> A -> mem -> outcome (Z * A * mem)) (step : Z) (fuel : nat)
  (offset stop paddr : Z) (a : A) (m : mem) : outcome (Z * Z * A * mem) :=
  if offset <? stop then
    match fuel with
    | O => Fault OutOfFuel
    | S fuel =>
        '(err, a, m) ← map_page offset paddr a m;
        if negb (err =? 0) then Ok (err, paddr, a, m)
        else map_loop map_page step fuel (u64 (offset + step)) stop (u64 (paddr + step)) a m
    end
  else Ok (0, paddr, a, m).

(** Enough rounds for all pages between the two addresses. *)
Definition loop_fuel (start stop step : Z) : nat := S (Z.to_nat ((stop - start) / step)).

Definition mmu_map_range (cr3 vaddr paddr size prot flags : Z) (a : A) (m : mem)
  : outcome (Z * A * mem) :=
  if negb (is_aligned vaddr PAGE_SIZE_SMALL) then Ok (- EINVAL, a, m)
  else
    let small := fun v p => mmu_map_small_page cr3 v p prot flags in
    let large := fun v p => mmu_map_large_page cr3 v p prot flags in
    let start := vaddr in
    let stop := u64 (vaddr + size) in
    let large_start := align_up vaddr PAGE_SIZE_LARGE in
    let large_end := align_down (u64 (vaddr + size)) PAGE_SIZE_LARGE in
    if large_end <? large_start then
      '(err, _, a, m) ← map_loop small PAGE_SIZE_SMALL (loop_fuel start stop PAGE_SIZE_SMALL)
                          start stop paddr a m;
      Ok (err, a, m)
    else
      '(err, paddr, a, m) ←
        (if negb (start =? large_start)
         then map_loop small PAGE_SIZE_SMALL (loop_fuel start large_start PAGE_SIZE_SMALL)
                start large_start paddr a m
         else Ok (0, paddr, a, m));
      if negb (err =? 0) then Ok (err, a, m)
      else
        '(err, paddr, a, m) ←
          (if negb (large_start =? large_end)
           then map_loop large PAGE_SIZE_LARGE (loop_fuel large_start large_end PAGE_SIZE_LARGE)
                  large_start large_end paddr a m
           else Ok (0, paddr, a, m));
        if negb (err =? 0) then Ok (err, a, m)
        else
          '(err, _, a, m) ←
            (if negb (large_end =? stop)
             then map_loop small PAGE_SIZE_SMALL (loop_fuel large_end stop PAGE_SIZE_SMALL)
                    large_end stop paddr a m
             else Ok (0, paddr, a, m));
          Ok (err, a, m).

(** [ioremap]; the state is the end of the kernel's virtual memory. *)
Definition ioremap (cr3 kernel_vm_end io_mem_start io_mem_size : Z) (a : A) (m : mem)
  : outcome (Z * Z * A * mem) :=
  let ret := kernel_vm_end in
  let kernel_vm_end := u64 (kernel_vm_end + align_up io_mem_size PAGE_SIZE_SMALL) in
  '(err, a, m) ← mmu_map_range cr3 ret io_mem_start io_mem_size
                   (Z.lor MMU_PROT_READ MMU_PROT_WRITE) MMU_NOCACHE a m;
  if negb (err =? 0) then Ok (0, kernel_vm_end, a, m) else Ok (ret, kernel_vm_end, a, m).

End Map.
