(* ===== verification/MmuProof.v ===== *)
(** * Correctness of the page tables

    The hardware's page walk ([hw_walk], [translate]) as the specification, an
    invariant that gives every table one role (its level and the virtual address
    prefix it serves), and the effect of the mapping functions on all
    translations. *)

From S2P Require Import Prelude Align Mem PageAlloc PageAllocProof Kmem Mmu.

(** ** Bit fields *)

(** Masking bits [lo] to [hi - 1]. *)
Lemma land_field e lo hi :
  0 <= lo <= hi -> Z.land e (2 ^ hi - 2 ^ lo) = e mod 2 ^ hi - e mod 2 ^ lo.
Proof.
  intros H.
  assert (2 ^ hi - 2 ^ lo = Z.shiftl (Z.ones (hi - lo)) lo) as ->.
  { rewrite Z.shiftl_mul_pow2, Z.ones_equiv by lia.
    replace hi with (hi - lo + lo) at 1 by lia. rewrite Z.pow_add_r by lia. lia. }
  assert (e mod 2 ^ hi - e mod 2 ^ lo = Z.shiftl (Z.shiftr (e mod 2 ^ hi) lo) lo) as ->.
  { rewrite Z.shiftl_mul_pow2, Z.shiftr_div_pow2 by lia.
    assert ((e mod 2 ^ hi) mod 2 ^ lo = e mod 2 ^ lo) as Hm.
    { rewrite <- Znumtheory.Zmod_div_mod; [done | by apply pow2_pos; lia | by apply pow2_pos; lia |].
      exists (2 ^ (hi - lo)). rewrite <- Z.pow_add_r by lia. f_equal. lia. }
    pose proof (Z.div_mod (e mod 2 ^ hi) (2 ^ lo)) as Hd. pose proof (pow2_pos lo). lia. }
  apply Z.bits_inj'. intros i Hi. rewrite Z.land_spec, !Z.shiftl_spec by done.
  destruct (decide (i < lo)) as [Hlt | Hge].
  - rewrite !(Z.testbit_neg_r _ (i - lo)) by lia. apply andb_false_r.
  - rewrite Z.shiftr_spec by lia. replace (i - lo + lo) with i by lia.
    rewrite testbit_mod_pow2 by lia. destruct (Z.ltb_spec i hi).
    + rewrite Z.ones_spec_low by lia. by rewrite andb_true_r, andb_true_l.
    + rewrite Z.ones_spec_high by lia. by rewrite andb_false_r.
Qed.

(** The low 11 bits and bit 63 of an entry. *)
Record hw_word (f : Z) (ps : bool) : Prop := {
  hw_split : exists lo hi, f = lo + hi * 2 ^ 63 /\ 0 <= lo < 2 ^ 9 /\ 0 <= hi <= 1;
  hw_present : Z.testbit f 0 = true;
  hw_ps : Z.testbit f 7 = ps
}.

(** The address field of an entry, as the processor reads it. *)
Definition hw_addr (shift e : Z) : Z := Z.land e (2 ^ 52 - 2 ^ shift).

Lemma paddr_mask_field : PE_PADDR_MASK = 2 ^ 63 - 2 ^ 11.
Proof. reflexivity. Qed.

Lemma make_pe_sum paddr f ps k :
  0 <= paddr < 2 ^ 52 -> paddr mod 2 ^ k = 0 -> 12 <= k <= 52 -> hw_word f ps ->
  exists lo hi, make_pe paddr f = paddr + lo + hi * 2 ^ 63 /\ f = lo + hi * 2 ^ 63 /\
    0 <= lo < 2 ^ 9 /\ 0 <= hi <= 1 /\ (2 ^ 12 | paddr).
Proof.
  intros Hp Hk Hk' [(lo & hi & -> & Hlo & Hhi) _ _]. exists lo, hi. unfold make_pe.
  assert (2 ^ 12 | paddr) as Hd.
  { apply Z.mod_divide in Hk; [| pose proof (pow2_pos k); lia].
    apply (Z.divide_trans _ (2 ^ k)); [| done]. exists (2 ^ (k - 12)).
    rewrite <- Z.pow_add_r by lia. f_equal. lia. }
  assert (Z.lor lo (hi * 2 ^ 63) = lo + hi * 2 ^ 63) as <-.
  { rewrite Z.lor_comm, (lor_add_disjoint _ lo 63); [lia | lia | | lia]. apply Z.mod_mul. lia. }
  split_and!; try lia; [| done].
  rewrite Z.lor_assoc, (lor_add_disjoint paddr lo 12); [| lia | by apply Z.mod_divide; [lia |] | lia].
  rewrite Z.lor_comm, (lor_add_disjoint _ _ 63); [lia | lia | apply Z.mod_mul; lia | lia].
Qed.

Lemma make_pe_fields paddr f ps k :
  0 <= paddr < 2 ^ 52 -> paddr mod 2 ^ k = 0 -> 12 <= k <= 52 -> hw_word f ps ->
  hw_addr k (make_pe paddr f) = paddr /\ pe_paddr (make_pe paddr f) = paddr /\
  Z.testbit (make_pe paddr f) 0 = true /\ Z.testbit (make_pe paddr f) 7 = ps /\
  0 <= make_pe paddr f < 2 ^ 64.
Proof.
  intros Hp Hk Hk' Hf. destruct (make_pe_sum paddr f ps k Hp Hk Hk' Hf)
    as (lo & hi & -> & Ef & Hlo & Hhi & [q Hq]). destruct Hf as [_ Hpr Hps].
  assert ((paddr + lo + hi * 2 ^ 63) mod 2 ^ 63 = paddr + lo) as M63.
  { rewrite Z_mod_plus_full. apply Z.mod_small. lia. }
  assert ((paddr + lo + hi * 2 ^ 63) mod 2 ^ 52 = paddr + lo) as M52.
  { replace (hi * 2 ^ 63) with (hi * 2 ^ 11 * 2 ^ 52) by lia. rewrite Z_mod_plus_full.
    apply Z.mod_small. rewrite Hq in *. lia. }
  assert (forall a b, a mod 2 ^ b = 0 -> 12 <= b <= 52 -> (a + lo + hi * 2 ^ 63) mod 2 ^ b = lo) as Mb.
  { intros a b Ha Hb. replace (hi * 2 ^ 63) with (hi * 2 ^ (63 - b) * 2 ^ b).
    2: { rewrite <- Z.mul_assoc, <- Z.pow_add_r by lia. do 2 f_equal. lia. }
    rewrite Z_mod_plus_full, <- Zplus_mod_idemp_l, Ha, Z.add_0_l. apply Z.mod_small.
    assert (2 ^ 12 <= 2 ^ b) by (apply Z.pow_le_mono_r; lia). lia. }
  assert (paddr mod 2 ^ 12 = 0) as Hp12 by (rewrite Hq; apply Z.mod_mul; lia).
  assert ((paddr + lo + hi * 2 ^ 63) mod 2 ^ 11 = lo) as M11.
  { rewrite Hq. replace (q * 2 ^ 12 + lo + hi * 2 ^ 63) with (lo + (q * 2 + hi * 2 ^ 52) * 2 ^ 11) by lia.
    rewrite Z_mod_plus_full. apply Z.mod_small. lia. }
  assert (f mod 2 ^ 11 = lo) as F11.
  { rewrite Ef. replace (hi * 2 ^ 63) with (hi * 2 ^ 52 * 2 ^ 11) by lia. rewrite Z_mod_plus_full.
    apply Z.mod_small. lia. }
  assert (forall i, 0 <= i < 11 -> Z.testbit (paddr + lo + hi * 2 ^ 63) i = Z.testbit f i) as Hbit.
  { intros i Hi. rewrite <- (Z.mod_pow2_bits_low _ 11 i) by lia.
    rewrite <- (Z.mod_pow2_bits_low f 11 i) by lia. by rewrite M11, F11. }
  split_and!.
  - unfold hw_addr. rewrite land_field by lia. rewrite M52, (Mb paddr k) by (done || lia). lia.
  - unfold pe_paddr. rewrite paddr_mask_field, land_field, M63, M11 by lia. lia.
  - by rewrite Hbit by lia.
  - by rewrite Hbit by lia.
  - lia.
  - lia.
Qed.

(** The flag words that the mapping functions build. *)
Lemma prot_to_hw_cases prot :
  mmu_prot_to_hw prot ∈ [1; 3; 2 ^ 63 + 1; 2 ^ 63 + 3].
Proof.
  unfold mmu_prot_to_hw.
  destruct (Z.land prot MMU_PROT_WRITE =? 0), (Z.land prot MMU_PROT_EXEC =? 0); vm_compute; set_solver.
Qed.

Lemma flags_to_hw_cases flags : mmu_flags_to_hw flags ∈ [0; 4; 16; 20].
Proof.
  unfold mmu_flags_to_hw.
  destruct (Z.land flags MMU_USER_PAGE =? 0), (Z.land flags MMU_NOCACHE =? 0); vm_compute; set_solver.
Qed.

Ltac each_member H :=
  repeat (apply elem_of_cons in H as [H | H]; [rewrite H; clear H |]); [.. | by apply not_elem_of_nil in H].

Lemma leaf_word prot flags : hw_word (Z.lor (mmu_prot_to_hw prot) (mmu_flags_to_hw flags)) false.
Proof.
  pose proof (prot_to_hw_cases prot) as Hp. pose proof (flags_to_hw_cases flags) as Hf.
  each_member Hp; each_member Hf.
  all: split; [| reflexivity | reflexivity].
  all: match goal with |- exists lo hi, ?f = _ /\ _ => exists (f mod 2 ^ 63), (f / 2 ^ 63) end.
  all: vm_compute; intuition discriminate.
Qed.

Lemma large_word prot flags :
  hw_word (Z.lor (Z.lor (mmu_prot_to_hw prot) (mmu_flags_to_hw flags)) X86_PE_PS) true.
Proof.
  pose proof (prot_to_hw_cases prot) as Hp. pose proof (flags_to_hw_cases flags) as Hf.
  each_member Hp; each_member Hf.
  all: split; [| reflexivity | reflexivity].
  all: match goal with |- exists lo hi, ?f = _ /\ _ => exists (f mod 2 ^ 63), (f / 2 ^ 63) end.
  all: vm_compute; intuition discriminate.
Qed.

Lemma table_word flags : hw_word (Z.lor (Z.lor X86_PE_P X86_PE_RW) (mmu_flags_to_hw flags)) false.
Proof.
  pose proof (flags_to_hw_cases flags) as Hf. each_member Hf.
  all: split; [| reflexivity | reflexivity].
  all: match goal with |- exists lo hi, ?f = _ /\ _ => exists (f mod 2 ^ 63), (f / 2 ^ 63) end.
  all: vm_compute; intuition discriminate.
Qed.

(** ** Virtual addresses *)

(** The number of address bits below the index of a table of level [n]. *)
Definition level_shift (n : nat) : Z := 12 + 9 * (Z.of_nat n - 1).

(** The index of an address in a table of level [n], and the part of the address
    above it: the tables of level [n] are told apart by the latter. *)
Definition va_index (n : nat) (va : Z) : Z := (va / 2 ^ level_shift n) mod 2 ^ 9.
Definition va_prefix (n : nat) (va : Z) : Z := (va mod 2 ^ 48) / 2 ^ (level_shift n + 9).

Lemma va_index_range n va : 0 <= va_index n va < 512.
Proof. apply Z.mod_pos_bound. lia. Qed.

Lemma table_index_spec n va : (1 <= n)%nat -> table_index va (level_shift n) = va_index n va.
Proof.
  intros Hn. unfold table_index, va_index, level_shift.
  change PG_INDEX_MASK with (Z.ones 9). rewrite Z.land_ones by lia.
  by rewrite Z.shiftr_div_pow2 by lia.
Qed.

Lemma va_prefix_4 va : va_prefix 4 va = 0.
Proof.
  unfold va_prefix. change (level_shift 4 + 9) with 48. apply Z.div_small, Z.mod_pos_bound. lia.
Qed.

(** One level further down, the prefix grows by the index. *)
Lemma va_prefix_step n va :
  (1 <= n <= 4)%nat -> va_prefix (n - 1) va = va_prefix n va * 512 + va_index n va.
Proof.
  intros Hn. unfold va_prefix, va_index.
  replace (level_shift (n - 1) + 9) with (level_shift n) by (unfold level_shift; lia).
  set (d := 2 ^ level_shift n).
  assert (0 < d) as Hd by (apply pow2_pos; unfold level_shift; lia).
  rewrite (Z.pow_add_r 2 (level_shift n) 9) by (unfold level_shift; lia). fold d.
  rewrite <- Z.div_div by lia. change (2 ^ 9) with 512.
  assert (exists q, 2 ^ 48 = q * 512 * d) as [q Hq].
  { exists (2 ^ (48 - 9 - level_shift n)). unfold d. change 512 with (2 ^ 9).
    rewrite <- !Z.pow_add_r by (unfold level_shift; lia). f_equal. lia. }
  assert (va mod 2 ^ 48 / d = va / d - va / 2 ^ 48 * q * 512) as E.
  { rewrite Z.mod_eq by lia.
    assert (2 ^ 48 * (va / 2 ^ 48) = va / 2 ^ 48 * (q * 512 * d)) as E by (rewrite <- Hq; lia).
    replace (va - 2 ^ 48 * (va / 2 ^ 48)) with (va + (- (va / 2 ^ 48 * q * 512)) * d) by lia.
    rewrite Z.div_add by lia. lia. }
  rewrite (Z.div_mod (va mod 2 ^ 48 / d) 512) at 1 by lia. f_equal; [lia |].
  rewrite E. replace (va / d - va / 2 ^ 48 * q * 512) with (va / d + (- (va / 2 ^ 48 * q)) * 512) by lia.
  by rewrite Z_mod_plus_full.
Qed.

Lemma prefix_split p i : 0 <= i < 512 -> (p * 512 + i) / 512 = p /\ (p * 512 + i) mod 512 = i.
Proof.
  intros Hi. split.
  - rewrite Z.div_add_l, Z.div_small by lia. lia.
  - rewrite Z.add_comm, Z.mod_add by lia. by apply Z.mod_small.
Qed.

(** ** The page walk of the processor *)

Definition entry (m : mem) (t i : Z) : Z := load64 m (t + KERNEL_VMA + 8 * i).

(** The leaf entry for an address and its level. *)
Fixpoint hw_walk (n : nat) (m : mem) (t va : Z) : option (nat * Z) :=
  match n with
  | O => None
  | S n' =>
      let e := entry m t (va_index n va) in
      if negb (Z.testbit e 0) then None
      else if (n' =? 0)%nat || (Z.testbit e 7 && (n' <=? 2)%nat) then Some (n, e)
      else hw_walk n' m (hw_addr 12 e) va
  end.

Definition translate (m : mem) (cr3 va : Z) : option Z :=
  match hw_walk 4 m cr3 va with
  | Some (n, e) => Some (hw_addr (level_shift n) e + va mod 2 ^ level_shift n)
  | None => None
  end.

(** ** The invariant *)

(** The level of a table and the prefix of the addresses it serves. *)
Notation role := (nat * Z)%type.

(** Nothing, a large page, or a table of the next level in its proper role. *)
Definition entry_ok (T : gmap Z role) (e : Z) (l : nat) (p i : Z) : Prop :=
  e = 0 \/ (l = 2%nat /\ Z.testbit e 0 = true /\ Z.testbit e 7 = true) \/
  (Z.testbit e 0 = true /\ Z.testbit e 7 = false /\ hw_addr 12 e = pe_paddr e /\
   T !! pe_paddr e = Some ((l - 1)%nat, p * 512 + i)).

Section Tables.
Context {A : Type} `{PageAllocatorLaws A}.

Definition in_table (t x : Z) : Prop := t + KERNEL_VMA <= x < t + KERNEL_VMA + 4096.

Record table_ok (T : gmap Z role) (a : A) (m : mem) (t : Z) (l : nat) (p : Z) : Prop := {
  to_level : (1 <= l <= 4)%nat;
  to_addr : 0 <= t /\ t + KERNEL_VMA + 4096 <= 2 ^ 64;
  to_aligned : (4096 | t);
  to_free x : in_table t x -> ~ pa_own a x;
  to_entry i : (2 <= l)%nat -> 0 <= i < 512 -> entry_ok T (entry m t i) l p i
}.

(** The table is linked from the slot of the level above that its prefix names. *)
Definition parent (T : gmap Z role) (m : mem) (t : Z) (l : nat) (p : Z) : Prop :=
  exists t', T !! t' = Some (S l, p / 512) /\
    Z.testbit (entry m t' (p mod 512)) 0 = true /\ Z.testbit (entry m t' (p mod 512)) 7 = false /\
    hw_addr 12 (entry m t' (p mod 512)) = t.

Record pt_inv (T : gmap Z role) (cr3 : Z) (a : A) (m : mem) : Prop := {
  pt_pa : pa_rep a m;
  pt_kernel x : pa_own a x -> KERNEL_VMA <= x;
  pt_root : T !! cr3 = Some (4%nat, 0);
  pt_parent t l p : T !! t = Some (l, p) -> t = cr3 \/ parent T m t l p;
  pt_table t l p : T !! t = Some (l, p) -> table_ok T a m t l p
}.

Lemma paddr_to_ptr_table T (a : A) m t l p : table_ok T a m t l p -> paddr_to_ptr t = t + KERNEL_VMA.
Proof.
  intros [_ [H1 H2] _ _ _]. apply u64_small. unfold KERNEL_VMA in *. lia.
Qed.

(** A change of slot [i0] of table [t0] affects only the walks that read it. *)
Lemma walk_frame T cr3 (a : A) m m' t0 l0 p0 i0 :
  pt_inv T cr3 a m -> T !! t0 = Some (l0, p0) ->
  (forall t l p i, T !! t = Some (l, p) -> 0 <= i < 512 -> t <> t0 \/ i <> i0 -> entry m' t i = entry m t i) ->
  forall l t p va, T !! t = Some (l, p) -> va_prefix l va = p ->
    (va_prefix l0 va = p0 -> va_index l0 va = i0 -> hw_walk l0 m' t0 va = hw_walk l0 m t0 va) ->
    hw_walk l m' t va = hw_walk l m t va.
Proof.
  intros HT Ht0 He l. induction l as [|l IH]; intros t p va Ht Hp Hn; [done |].
  destruct (decide (t = t0 /\ va_index (S l) va = i0)) as [[-> Hi] | Hne].
  { simplify_eq. by apply Hn. }
  cbn [hw_walk]. pose proof (pt_table _ _ _ _ HT t _ p Ht) as Hok.
  assert (entry m' t (va_index (S l) va) = entry m t (va_index (S l) va)) as ->.
  { apply (He t (S l) p); [done | apply va_index_range |].
    destruct (decide (t = t0)) as [-> | ?]; [right | by left]. tauto. }
  set (e := entry m t (va_index (S l) va)).
  destruct (Z.testbit e 0) eqn:Ep; [| done]. cbn [negb].
  destruct ((l =? 0)%nat || (Z.testbit e 7 && (l <=? 2)%nat)) eqn:El; [done |].
  apply orb_false_iff in El as [El1 El2]. apply Nat.eqb_neq in El1.
  pose proof (to_level _ _ _ _ _ _ Hok) as Hl.
  destruct (to_entry _ _ _ _ _ _ Hok (va_index (S l) va)) as [Hz | [(Hl2 & _ & Hps) | (_ & _ & Ha & Hc)]];
    [lia | apply va_index_range | | | ].
  - fold e in Hz. rewrite Hz in Ep. done.
  - fold e in Hps. rewrite Hps in El2. assert (l = 1%nat) as -> by lia. done.
  - fold e in Ha, Hc. rewrite Ha. replace (S l - 1)%nat with l in Hc by lia.
    apply (IH _ _ va Hc); [| done].
    pose proof (va_prefix_step (S l) va) as Hstep. replace (S l - 1)%nat with l in Hstep by lia.
    rewrite Hstep by lia. by rewrite Hp.
Qed.

(** A table without entries. *)
Lemma walk_empty m t l va : (forall i, 0 <= i < 512 -> entry m t i = 0) -> hw_walk l m t va = None.
Proof.
  intros He. destruct l as [|l]; [done |]. cbn [hw_walk]. by rewrite He by apply va_index_range.
Qed.

(** A missing entry ends the walk; a table entry leads to the next level. *)
Lemma walk_absent m t l va : entry m t (va_index l va) = 0 -> hw_walk l m t va = None.
Proof. intros E. destruct l; [done |]. cbn [hw_walk]. by rewrite E. Qed.

Lemma walk_down m t l va e :
  (2 <= l)%nat -> entry m t (va_index l va) = e -> Z.testbit e 0 = true -> Z.testbit e 7 = false ->
  hw_walk l m t va = hw_walk (l - 1) m (hw_addr 12 e) va.
Proof.
  intros Hl <- H1 H2. destruct l as [|l]; [done |]. cbn [hw_walk]. rewrite H1, H2. cbn [negb andb].
  rewrite orb_false_r. replace (S l - 1)%nat with l by lia. destruct (Nat.eqb_spec l 0); [lia | done].
Qed.

(** Bytes of different tables, and of different slots of one table, are apart. *)
Lemma tables_disjoint T (a : A) m t l p t' l' p' x :
  table_ok T a m t l p -> table_ok T a m t' l' p' -> in_table t x -> in_table t' x -> t = t'.
Proof.
  intros H1 H2 Hx Hx'. destruct (to_aligned _ _ _ _ _ _ H1) as [q ->], (to_aligned _ _ _ _ _ _ H2) as [q' ->].
  unfold in_table in *. lia.
Qed.

Lemma entry_store_ne m t t' i i' v :
  (4096 | t) -> (4096 | t') -> 0 <= i < 512 -> 0 <= i' < 512 ->
  t' <> t \/ i' <> i -> entry (store64 m (t + KERNEL_VMA + 8 * i) v) t' i' = entry m t' i'.
Proof.
  intros [q Hq] [q' Hq'] Hi Hi' Hn. unfold entry. apply load_store_ne. simpl.
  destruct (decide (t' = t)) as [-> | Ht]; lia.
Qed.

Lemma entry_store_eq m t i v : 0 <= v < 2 ^ 64 -> entry (store64 m (t + KERNEL_VMA + 8 * i) v) t i = v.
Proof. intros Hv. unfold entry, store64, load64. rewrite load_store_eq. by apply Z.mod_small. Qed.

(** ** Adding a table *)

(** The memory of the tables and of the free pages. *)
Definition pt_mem (T : gmap Z role) (a : A) (x : Z) : Prop :=
  pa_own a x \/ exists t l p, T !! t = Some (l, p) /\ in_table t x.

(** A change of the tables that keeps the tables there are and touches nothing else. *)
Record pt_grows (T : gmap Z role) (a : A) (m : mem) (T' : gmap Z role) (a' : A) (m' : mem) : Prop := {
  pg_sub : T ⊆ T';
  pg_mem x : pt_mem T' a' x -> pt_mem T a x;
  pg_frame x : ~ pt_mem T a x -> load8 m' x = load8 m x
}.

Lemma pt_grows_refl T (a : A) m : pt_grows T a m T a m.
Proof. by split. Qed.

Lemma pt_grows_trans T1 (a1 : A) m1 T2 (a2 : A) m2 T3 (a3 : A) m3 :
  pt_grows T1 a1 m1 T2 a2 m2 -> pt_grows T2 a2 m2 T3 a3 m3 -> pt_grows T1 a1 m1 T3 a3 m3.
Proof.
  intros [S1 M1 F1] [S2 M2 F2]. split; [by etrans | auto |].
  intros x Hx. rewrite F2 by auto. auto.
Qed.

(** What the page allocator guarantees for the page at physical address [tn]. *)
Record fresh_page (a : A) (m : mem) (tn : Z) (a' : A) (m1 : mem) : Prop := {
  fp_addr : 0 <= tn /\ tn + KERNEL_VMA + 4096 < 2 ^ 64;
  fp_aligned : (4096 | tn);
  fp_own x : in_table tn x -> pa_own a x;
  fp_rep : pa_rep a' m1;
  fp_rest x : pa_own a' x <-> pa_own a x /\ ~ in_table tn x;
  fp_mem x : ~ pa_own a x -> load8 m1 x = load8 m x
}.

Lemma fresh_page_spec T cr3 (a : A) m :
  pt_inv T cr3 a m ->
  (pa_empty a /\ page_alloc_small a m = Ok (0, a, m)) \/
  exists page a' m1, page_alloc_small a m = Ok (page, a', m1) /\ page <> 0 /\
    page = ptr_to_paddr page + KERNEL_VMA /\ fresh_page a m (ptr_to_paddr page) a' m1.
Proof.
  intros HT. destruct (pa_alloc_small a m (pt_pa _ _ _ _ HT))
    as [? | (p & a' & m1 & E & Hp & Hd & He & Hin & Hrep & Hown & Hm)]; [by left |].
  right. change PAGE_SIZE_SMALL with 4096 in *.
  assert (KERNEL_VMA <= p) as Hk by (apply (pt_kernel _ _ _ _ HT), Hin; lia).
  assert (ptr_to_paddr p = p - KERNEL_VMA) as Ep by (apply u64_small; unfold KERNEL_VMA in *; lia).
  exists p, a', m1. split_and!; [done | lia | lia |]. rewrite Ep.
  assert (forall x, in_table (p - KERNEL_VMA) x <-> p <= x < p + 4096) as Ht
    by (intros x; unfold in_table; lia).
  split; try done; [lia | | intros x Hx; by apply Hin, Ht | intros x; by rewrite Ht, Hown].
  apply Z.divide_sub_r; [done | by exists 0xffffffff80000].
Qed.

Section NewTable.
Context (T : gmap Z role) (cr3 : Z) (a : A) (m : mem) (t : Z) (l : nat) (p i flags tn : Z) (a' : A) (m1 : mem).
Context (HT : pt_inv T cr3 a m) (Ht : T !! t = Some (l, p)) (Hl : (2 <= l)%nat) (Hi : 0 <= i < 512).
Context (Hzero : entry m t i = 0) (HF : fresh_page a m tn a' m1).

Let e := make_pe tn (Z.lor (Z.lor X86_PE_P X86_PE_RW) (mmu_flags_to_hw flags)).
Let m' := store64 (memset m1 (tn + KERNEL_VMA) 0 4096) (t + KERNEL_VMA + 8 * i) e.
Let T' := <[tn := ((l - 1)%nat, p * 512 + i)]> T.
#[local] Set Default Proof Using "All".

Lemma new_entry_fields :
  hw_addr 12 e = tn /\ pe_paddr e = tn /\ Z.testbit e 0 = true /\ Z.testbit e 7 = false /\ 0 <= e < 2 ^ 64.
Proof.
  destruct (fp_addr _ _ _ _ _ HF). apply make_pe_fields.
  - unfold KERNEL_VMA in *. lia.
  - apply Z.mod_divide; [lia | apply HF].
  - lia.
  - apply table_word.
Qed.

Lemma new_table_none : T !! tn = None.
Proof.
  destruct (T !! tn) as [[l' p'] |] eqn:E; [exfalso | done].
  apply (to_free _ _ _ _ _ _ (pt_table _ _ _ _ HT tn l' p' E) (tn + KERNEL_VMA)); [unfold in_table; lia |].
  apply HF. unfold in_table. lia.
Qed.

Lemma new_table_apart t' l' p' x : T !! t' = Some (l', p') -> in_table t' x -> ~ in_table tn x.
Proof.
  intros Ht' Hx Hx'. apply (to_free _ _ _ _ _ _ (pt_table _ _ _ _ HT t' l' p' Ht') x Hx). by apply HF.
Qed.

Lemma new_table_mem x :
  ~ in_table tn x -> ~ t + KERNEL_VMA + 8 * i <= x < t + KERNEL_VMA + 8 * i + 8 -> load8 m' x = load8 m1 x.
Proof.
  intros Hx Hx'. unfold m', store64. rewrite load8_store_out by (simpl; lia).
  apply memset_same_outside. unfold in_table in Hx. simpl. lia.
Qed.

Lemma new_table_entries t' l' p' i' :
  T !! t' = Some (l', p') -> 0 <= i' < 512 -> t' <> t \/ i' <> i -> entry m' t' i' = entry m t' i'.
Proof.
  intros Ht' Hi' Hne. pose proof (pt_table _ _ _ _ HT t' l' p' Ht') as Hok'.
  unfold m'. rewrite entry_store_ne; [| by apply (pt_table _ _ _ _ HT t l p) | apply Hok' | done..].
  apply load_ext. intros x Hx. simpl in Hx.
  assert (in_table t' x) as Hxt by (unfold in_table; lia).
  rewrite memset_same_outside.
  - apply HF. by apply (to_free _ _ _ _ _ _ Hok').
  - pose proof (new_table_apart t' l' p' x Ht' Hxt) as Hn. unfold in_table in Hn. simpl. lia.
Qed.

Lemma new_table_empty i' : 0 <= i' < 512 -> entry m' tn i' = 0.
Proof.
  intros Hi'. unfold entry, m', load64, store64. rewrite load_store_ne.
  - apply load_memset_0; [lia | simpl; lia].
  - simpl. assert (tn <> t) by (intros E; pose proof new_table_none as Hn; rewrite E, Ht in Hn; discriminate).
    destruct (to_aligned _ _ _ _ _ _ (pt_table _ _ _ _ HT t l p Ht)) as [q Hq].
    destruct (fp_aligned _ _ _ _ _ HF) as [q' Hq']. lia.
Qed.

Lemma new_table_walk va : hw_walk 4 m' cr3 va = hw_walk 4 m cr3 va.
Proof.
  apply (walk_frame T cr3 a m m' t l p i HT Ht) with (p := 0).
  - exact new_table_entries.
  - apply (pt_root _ _ _ _ HT).
  - apply va_prefix_4.
  - intros _ Hidx. destruct new_entry_fields as (F1 & _ & F3 & F4 & F5).
    rewrite (walk_absent m) by (by rewrite Hidx).
    rewrite (walk_down m' t l va e Hl); [| | done..].
    + rewrite F1. apply walk_empty, new_table_empty.
    + rewrite Hidx. by apply entry_store_eq.
Qed.

Lemma new_table_lookup t' r : T !! t' = Some r -> T' !! t' = Some r.
Proof.
  intros Ht'. unfold T'. rewrite lookup_insert_ne; [done |]. intros E.
  pose proof new_table_none as Hn. rewrite E, Ht' in Hn. discriminate.
Qed.

Lemma new_table_slot x : t + KERNEL_VMA + 8 * i <= x < t + KERNEL_VMA + 8 * i + 8 -> in_table t x.
Proof. unfold in_table. lia. Qed.

Lemma new_table_ok_old t' l' p' : T !! t' = Some (l', p') -> table_ok T' a' m' t' l' p'.
Proof.
  intros Ht'. destruct (pt_table _ _ _ _ HT t' l' p' Ht') as [O1 O2 O3 O4 O5]. split; try done.
  - intros x Hx Ho. apply (fp_rest _ _ _ _ _ HF) in Ho as [Ho _]. by apply (O4 x).
  - intros i' Hl' Hi'. destruct (decide (t' = t /\ i' = i)) as [[E1 E2] | Hn].
    + destruct new_entry_fields as (F1 & F2 & F3 & F4 & F5). rewrite E1, Ht in Ht'.
      injection Ht' as <- <-. rewrite E1, E2. unfold m'. rewrite entry_store_eq by done. fold e.
      right. right. rewrite F1, F2. unfold T'. by rewrite lookup_insert_eq.
    + rewrite (new_table_entries t' l' p' i')
        by (done || (destruct (decide (t' = t)); [right | left]; tauto)).
      destruct (O5 i' Hl' Hi') as [? | [? | (E1 & E2 & E3 & E4)]]; [by left | by right; left |].
      right. right. split_and!; [done | done | done |]. by apply new_table_lookup.
Qed.

Lemma new_table_ok : table_ok T' a' m' tn (l - 1) (p * 512 + i).
Proof.
  destruct (fp_addr _ _ _ _ _ HF). pose proof (to_level _ _ _ _ _ _ (pt_table _ _ _ _ HT t l p Ht)).
  split; [lia | lia | apply HF | |].
  - intros x Hx Ho. by apply (fp_rest _ _ _ _ _ HF) in Ho as [_ ?].
  - intros i' _ Hi'. left. by apply new_table_empty.
Qed.

Lemma new_table_parent t' l' p' : T' !! t' = Some (l', p') -> t' = cr3 \/ parent T' m' t' l' p'.
Proof.
  unfold T' at 1. destruct (decide (t' = tn)) as [E | Hne].
  - rewrite E, lookup_insert_eq. intros [= <- <-]. right. exists t.
    replace (S (l - 1)) with l by lia. destruct (prefix_split p i Hi) as [-> ->].
    destruct new_entry_fields as (F1 & _ & F3 & F4 & F5).
    split; [by apply new_table_lookup |]. unfold m'. rewrite entry_store_eq by done. by fold e.
  - rewrite lookup_insert_ne by done. intros Ht'.
    destruct (pt_parent _ _ _ _ HT t' l' p' Ht') as [? | (t2 & P1 & P2 & P3 & P4)]; [by left | right].
    exists t2. split; [by apply new_table_lookup |].
    assert (t2 <> t \/ p' mod 512 <> i) as Hn.
    { destruct (decide (t2 = t)) as [E2 |]; [right | by left]. intros E3.
      rewrite E2, E3, Hzero in P2. discriminate. }
    rewrite (new_table_entries t2 _ _ (p' mod 512) P1); [done | | done]. apply Z.mod_pos_bound. lia.
Qed.

Lemma new_table_inv : pt_inv T' cr3 a' m'.
Proof.
  split.
  - apply (pa_frame a' m1); [apply HF |]. intros x Hx. apply (fp_rest _ _ _ _ _ HF) in Hx as [Hx Hn].
    apply new_table_mem; [done |]. intros Hs%new_table_slot.
    by apply (to_free _ _ _ _ _ _ (pt_table _ _ _ _ HT t l p Ht) x).
  - intros x Hx. apply (fp_rest _ _ _ _ _ HF) in Hx as [Hx _]. by apply (pt_kernel _ _ _ _ HT).
  - apply new_table_lookup, (pt_root _ _ _ _ HT).
  - exact new_table_parent.
  - intros t' l' p'. unfold T' at 1. destruct (decide (t' = tn)) as [E | Hne].
    + rewrite E, lookup_insert_eq. intros [= <- <-]. apply new_table_ok.
    + rewrite lookup_insert_ne by done. apply new_table_ok_old.
Qed.

Lemma new_table_grows : pt_grows T a m T' a' m'.
Proof.
  split.
  - apply insert_subseteq, new_table_none.
  - intros x [Hx | (t' & l' & p' & Ht' & Hx)].
    + left. by apply (fp_rest _ _ _ _ _ HF) in Hx as [? _].
    + revert Ht'. unfold T'. destruct (decide (t' = tn)) as [E | Hne].
      * intros _. left. rewrite E in Hx. by apply HF.
      * rewrite lookup_insert_ne by done. intros Ht'. right. by exists t', l', p'.
  - intros x Hx. rewrite new_table_mem.
    + apply HF. intros Ho. apply Hx. by left.
    + intros Hn. apply Hx. left. by apply HF.
    + intros Hs%new_table_slot. apply Hx. right. by exists t, l, p.
Qed.

End NewTable.

End Tables.
