(* ===== verification/MmuMap.v ===== *)
(** * The mapping functions and the page walk

    The effect of [mmu_map_small_page] and [mmu_map_large_page] on the walk of
    every virtual address, on the tables and on the rest of memory. *)

From S2P Require Import Prelude Align Mem PageAlloc PageAllocProof Kmem Mmu MmuProof.

Section Mapping.
Context {A : Type} `{PageAllocatorLaws A}.

(** Every table is on the walk of the addresses it serves. *)
Lemma walk_reaches T cr3 (a : A) m l t p va :
  pt_inv T cr3 a m -> T !! t = Some (l, p) -> va_prefix l va = p -> hw_walk 4 m cr3 va = hw_walk l m t va.
Proof.
  intros HT. remember (4 - l)%nat as k eqn:Hk. revert l t p Hk.
  induction k as [|k IH]; intros l t p Hk Ht Hp.
  all: pose proof (to_level _ _ _ _ _ _ (pt_table _ _ _ _ HT t l p Ht)) as Hl.
  all: destruct (pt_parent _ _ _ _ HT t l p Ht) as [-> | (t' & P1 & P2 & P3 & P4)].
  - by assert (l = 4%nat) as -> by lia.
  - pose proof (to_level _ _ _ _ _ _ (pt_table _ _ _ _ HT _ _ _ P1)). lia.
  - pose proof (pt_root _ _ _ _ HT) as Hr. simplify_eq.
  - pose proof (to_level _ _ _ _ _ _ (pt_table _ _ _ _ HT _ _ _ P1)) as Hl'.
    pose proof (va_prefix_step (S l) va) as Hs. replace (S l - 1)%nat with l in Hs by lia.
    destruct (prefix_split (va_prefix (S l) va) (va_index (S l) va) (va_index_range _ _)) as [E1 E2].
    rewrite <- Hs, Hp in E1, E2 by lia.
    rewrite (IH (S l) t' (p / 512)) by (done || lia).
    rewrite (walk_down m t' (S l) va (entry m t' (p mod 512))); [| lia | by rewrite <- E2 | done..].
    rewrite P4. by replace (S l - 1)%nat with l by lia.
Qed.

(** ** A new leaf *)

(** The walks after the page of level [k] at [vaddr] is mapped by the leaf [w]. *)
Definition walks_to (m m' : mem) (cr3 : Z) (k : nat) (vaddr : Z) (w : nat * Z) : Prop :=
  forall va, hw_walk 4 m' cr3 va = if decide (va_prefix k va = va_prefix k vaddr) then Some w else hw_walk 4 m cr3 va.

Section Leaf.
Context (T : gmap Z role) (cr3 : Z) (a : A) (m : mem) (t : Z) (l : nat) (vaddr e : Z).
Context (HT : pt_inv T cr3 a m) (Ht : T !! t = Some (l, va_prefix l vaddr)).
Context (Hl : l = 1%nat \/ l = 2%nat /\ Z.testbit e 7 = true /\
                (entry m t (va_index l vaddr) = 0 \/ Z.testbit (entry m t (va_index l vaddr)) 7 = true)).
Context (He : 0 <= e < 2 ^ 64) (Hp : Z.testbit e 0 = true).

Let m' := store64 m (t + KERNEL_VMA + 8 * va_index l vaddr) e.
#[local] Set Default Proof Using "All".

Lemma leaf_entries t' l' p' i' :
  T !! t' = Some (l', p') -> 0 <= i' < 512 -> t' <> t \/ i' <> va_index l vaddr -> entry m' t' i' = entry m t' i'.
Proof.
  intros Ht' Hi' Hne. apply entry_store_ne; [.. | done].
  - apply (pt_table _ _ _ _ HT _ _ _ Ht).
  - apply (pt_table _ _ _ _ HT _ _ _ Ht').
  - apply va_index_range.
  - done.
Qed.

Lemma leaf_mem x : ~ in_table t x -> load8 m' x = load8 m x.
Proof.
  intros Hx. unfold m', store64. apply load8_store_out. pose proof (va_index_range l vaddr).
  unfold in_table in Hx. simpl. lia.
Qed.

Lemma leaf_inv : pt_inv T cr3 a m' /\ pt_grows T a m T a m'.
Proof.
  split; [split |]; try apply HT.
  - apply (pa_frame a m); [apply HT |]. intros x Hx. apply leaf_mem. intros Hin.
    by apply (to_free _ _ _ _ _ _ (pt_table _ _ _ _ HT _ _ _ Ht) x).
  - intros t' l' p' Ht'. destruct (pt_parent _ _ _ _ HT t' l' p' Ht') as [? | (t2 & P1 & P2 & P3 & P4)]; [by left |].
    right. exists t2. split; [done |].
    rewrite (leaf_entries t2 _ _ _ P1); [done | apply Z.mod_pos_bound; lia |].
    destruct (decide (t2 = t)) as [E |]; [right; intros E' | by left]. rewrite E, Ht in P1. injection P1 as E1 E2.
    pose proof (to_level _ _ _ _ _ _ (pt_table _ _ _ _ HT _ _ _ Ht')).
    rewrite E, E' in P2, P3.
    destruct Hl as [? | (_ & _ & [E0 | E7])]; [lia | by rewrite E0 in P2 | congruence].
  - intros t' l' p' Ht'. destruct (pt_table _ _ _ _ HT t' l' p' Ht') as [O1 O2 O3 O4 O5]. split; try done.
    intros i' Hl' Hi'. destruct (decide (t' = t /\ i' = va_index l vaddr)) as [[E1 E2] | Hn].
    + rewrite E1, Ht in Ht'. injection Ht' as E3 E4. rewrite E1, E2. unfold m'.
      rewrite entry_store_eq by done. right. left. destruct Hl as [? | (? & ? & _)]; [lia |]. split; [congruence | done].
    + rewrite (leaf_entries t' l' p' i'); [auto | done | done |].
      destruct (decide (t' = t)); [right | left]; tauto.
  - split; [done | done |]. intros x Hx. apply leaf_mem. intros Hin. apply Hx. right. eauto.
Qed.

Lemma leaf_walks : walks_to m m' cr3 (l - 1) vaddr (l, e).
Proof.
  destruct leaf_inv as [HT' _]. pose proof (to_level _ _ _ _ _ _ (pt_table _ _ _ _ HT _ _ _ Ht)) as Hlv.
  intros va. pose proof (va_prefix_step l va Hlv) as S1. pose proof (va_prefix_step l vaddr Hlv) as S2.
  destruct (prefix_split (va_prefix l va) (va_index l va) (va_index_range _ _)) as [E1 E2].
  destruct (prefix_split (va_prefix l vaddr) (va_index l vaddr) (va_index_range _ _)) as [E3 E4].
  destruct (decide _) as [Heq | Hne].
  - rewrite S1, S2 in Heq. rewrite Heq in E1, E2.
    rewrite (walk_reaches T cr3 a m' l t _ va HT' Ht) by congruence.
    assert (entry m' t (va_index l va) = e) as Ee.
    { replace (va_index l va) with (va_index l vaddr) by congruence. by apply entry_store_eq. }
    destruct Hl as [-> | (-> & Hps & _)]; cbn [hw_walk]; rewrite Ee, Hp; [done |]. by rewrite Hps.
  - apply (walk_frame T cr3 a m m' t l (va_prefix l vaddr) (va_index l vaddr) HT Ht leaf_entries)
      with (p := 0); [apply HT | apply va_prefix_4 |].
    intros Q1 Q2. destruct Hne. by rewrite S1, S2, Q1, Q2.
Qed.

End Leaf.

(** ** One level of tables *)

Record pt_step (T : gmap Z role) (cr3 : Z) (a : A) (m : mem) (T' : gmap Z role) (a' : A) (m' : mem) : Prop := {
  ps_inv : pt_inv T' cr3 a' m';
  ps_grows : pt_grows T a m T' a' m';
  ps_walk va : hw_walk 4 m' cr3 va = hw_walk 4 m cr3 va
}.

Lemma pt_step_refl T cr3 (a : A) m : pt_inv T cr3 a m -> pt_step T cr3 a m T a m.
Proof. by split; [| apply pt_grows_refl |]. Qed.

Lemma pt_step_trans T1 cr3 (a1 : A) m1 T2 (a2 : A) m2 T3 (a3 : A) m3 :
  pt_step T1 cr3 a1 m1 T2 a2 m2 -> pt_step T2 cr3 a2 m2 T3 a3 m3 -> pt_step T1 cr3 a1 m1 T3 a3 m3.
Proof.
  intros [_ G1 W1] [I2 G2 W2]. split; [done | by eapply pt_grows_trans |].
  intros va. by rewrite W2.
Qed.

(** The entry for [vaddr] in its table of level [l]: a large page or the next table. *)
Definition level_entry (T : gmap Z role) (cr3 : Z) (m : mem) (l : nat) (vaddr e : Z) : Prop :=
  (l = 2%nat /\ Z.testbit e 7 = true /\ hw_walk 4 m cr3 vaddr = Some (2%nat, e)) \/
  (Z.testbit e 7 = false /\ T !! pe_paddr e = Some ((l - 1)%nat, va_prefix (l - 1) vaddr)).

Lemma level_entry_present T cr3 (a : A) m t l vaddr :
  pt_inv T cr3 a m -> T !! t = Some (l, va_prefix l vaddr) -> (2 <= l)%nat ->
  entry m t (va_index l vaddr) <> 0 -> level_entry T cr3 m l vaddr (entry m t (va_index l vaddr)).
Proof.
  intros HT Ht Hl Hne. pose proof (pt_table _ _ _ _ HT _ _ _ Ht) as Hok.
  destruct (to_entry _ _ _ _ _ _ Hok (va_index l vaddr) Hl (va_index_range _ _))
    as [? | [(-> & Hp & Hps) | (_ & Hps & _ & Hc)]]; [done | left | right].
  - split_and!; [done | done |]. rewrite (walk_reaches T cr3 a m 2 t _ vaddr HT Ht eq_refl).
    cbn [hw_walk]. by rewrite Hp, Hps.
  - split; [done |]. by rewrite va_prefix_step by apply Hok.
Qed.

Lemma table_entry_alloc_spec T cr3 (a : A) m t l vaddr flags :
  pt_inv T cr3 a m -> T !! t = Some (l, va_prefix l vaddr) -> (2 <= l)%nat ->
  let call := table_entry_alloc (paddr_to_ptr t) (table_index vaddr (level_shift l)) (mmu_flags_to_hw flags) a m in
  (call = Ok (None, a, m) /\ pa_empty a) \/
  exists e T' a' m', call = Ok (Some e, a', m') /\ pt_step T cr3 a m T' a' m' /\ level_entry T' cr3 m' l vaddr e.
Proof.
  intros HT Ht Hl. pose proof (pt_table _ _ _ _ HT _ _ _ Ht) as Hok.
  rewrite table_index_spec by lia. unfold table_entry_alloc. cbv zeta.
  rewrite (paddr_to_ptr_table _ _ _ _ _ _ Hok). fold (entry m t (va_index l vaddr)).
  unfold pe_is_none. destruct (Z.eqb_spec (entry m t (va_index l vaddr)) 0) as [E0 | En].
  - destruct (fresh_page_spec T cr3 a m HT) as [[He E] | (page & a' & m1 & E & Hp & Epage & HF)].
    + left. by rewrite E.
    + right. rewrite E. cbn. destruct (Z.eqb_spec page 0); [done |].
      set (tn := ptr_to_paddr page) in *. rewrite Epage. pose proof (va_index_range l vaddr) as Hi.
      eexists _, _, _, _. split; [done |]. split; [split |].
      * apply (new_table_inv T cr3 a m t l (va_prefix l vaddr) _ flags tn a' m1); done.
      * apply (new_table_grows T cr3 a m t l (va_prefix l vaddr) _ flags tn a' m1); done.
      * apply (new_table_walk T cr3 a m t l (va_prefix l vaddr) _ flags tn a' m1); done.
      * destruct (new_entry_fields T cr3 a m t l (va_prefix l vaddr) (va_index l vaddr) flags tn a' m1)
          as (_ & F2 & _ & F4 & _); try done.
        right. split; [done |]. rewrite F2, lookup_insert_eq. by rewrite va_prefix_step by apply Hok.
  - right. exists (entry m t (va_index l vaddr)), T, a, m. split_and!; [done | by apply pt_step_refl |].
    by eapply level_entry_present.
Qed.

(** The tables of the two upper levels, which both mapping functions walk. *)
Lemma level_entry_table T cr3 (a : A) m l vaddr e :
  pt_inv T cr3 a m -> (3 <= l)%nat -> level_entry T cr3 m l vaddr e ->
  T !! pe_paddr e = Some ((l - 1)%nat, va_prefix (l - 1) vaddr).
Proof. intros HT Hl [(-> & _) | [_ ?]]; [lia | done]. Qed.

Lemma root_table T cr3 (a : A) m vaddr : pt_inv T cr3 a m -> T !! cr3 = Some (4%nat, va_prefix 4 vaddr).
Proof. intros HT. rewrite va_prefix_4. apply HT. Qed.

(** ** The mapping functions *)

(** The leaf of [vaddr]'s page of level [l] becomes [w] and no other walk changes;
    or no walk changes at all and the result says why: there was no page for a
    table, or [conflict] holds. *)
Definition map_post (conflict : gmap Z role -> Prop) (l : nat) (w cr3 vaddr : Z)
  (T : gmap Z role) (a : A) (m : mem) (r : Z) (T' : gmap Z role) (a' : A) (m' : mem) : Prop :=
  pt_inv T' cr3 a' m' /\ pt_grows T a m T' a' m' /\
  ((r = 0 /\ walks_to m m' cr3 (l - 1) vaddr (l, w)) \/
   ((r = - ENOMEM /\ pa_empty a' \/ r = - EINVAL /\ conflict T') /\
    forall va, hw_walk 4 m' cr3 va = hw_walk 4 m cr3 va)).

Lemma map_post_step conflict l w cr3 vaddr T (a : A) m r T1 (a1 : A) m1 T' (a' : A) m' :
  pt_step T cr3 a m T1 a1 m1 -> map_post conflict l w cr3 vaddr T1 a1 m1 r T' a' m' ->
  map_post conflict l w cr3 vaddr T a m r T' a' m'.
Proof.
  intros [_ G1 W1] (I & G & Hr). split_and!; [done | by eapply pt_grows_trans |].
  destruct Hr as [[-> Hw] | [Hr Hw]]; [left | right].
  - split; [done |]. intros va. rewrite Hw. by destruct (decide _); rewrite ?W1.
  - split; [done |]. intros va. by rewrite Hw.
Qed.

Lemma map_post_leaf conflict l cr3 vaddr T (a : A) m t w :
  pt_inv T cr3 a m -> T !! t = Some (l, va_prefix l vaddr) ->
  (l = 1%nat \/ l = 2%nat /\ Z.testbit w 7 = true /\
    (entry m t (va_index l vaddr) = 0 \/ Z.testbit (entry m t (va_index l vaddr)) 7 = true)) ->
  0 <= w < 2 ^ 64 -> Z.testbit w 0 = true ->
  map_post conflict l w cr3 vaddr T a m 0 T a
    (store64 m (paddr_to_ptr t + 8 * table_index vaddr (level_shift l)) w).
Proof.
  intros HT Ht Hl Hw Hp. pose proof (pt_table _ _ _ _ HT _ _ _ Ht) as Hok.
  rewrite table_index_spec, (paddr_to_ptr_table _ _ _ _ _ _ Hok) by lia.
  destruct (leaf_inv T cr3 a m t l vaddr w) as [I G]; try done.
  split_and!; [done | done |]. left. split; [done |]. by apply (leaf_walks T cr3 a).
Qed.

Lemma map_post_fail (conflict : gmap Z role -> Prop) l w cr3 vaddr T (a : A) m r :
  pt_inv T cr3 a m -> r = - ENOMEM /\ pa_empty a \/ r = - EINVAL /\ conflict T ->
  map_post conflict l w cr3 vaddr T a m r T a m.
Proof. intros HT Hr. split_and!; [done | apply pt_grows_refl |]. by right. Qed.

Lemma pde_is_large_bit e : pde_is_large e = Z.testbit e 7.
Proof.
  unfold pde_is_large. change X86_PE_PS with (2 ^ 7). rewrite Z.land_comm.
  destruct (Z.testbit e 7) eqn:E.
  - destruct (Z.eqb_spec (Z.land (2 ^ 7) e) 0) as [E0 |]; [| done].
    apply (f_equal (fun x => Z.testbit x 7)) in E0. rewrite Z.land_spec, E in E0. discriminate.
  - assert (Z.land (2 ^ 7) e = 0) as ->; [| done]. apply Z.bits_inj'. intros i Hi.
    rewrite Z.land_spec, Z.bits_0. destruct (decide (i = 7)) as [-> |]; [by rewrite E, andb_false_r |].
    by rewrite Z.pow2_bits_false by lia.
Qed.

Definition small_leaf (paddr prot flags : Z) : Z :=
  make_pte paddr (Z.lor (mmu_prot_to_hw prot) (mmu_flags_to_hw flags)).
Definition large_leaf (paddr prot flags : Z) : Z :=
  make_pde paddr (Z.lor (Z.lor (mmu_prot_to_hw prot) (mmu_flags_to_hw flags)) X86_PE_PS).

Definition small_conflict (cr3 vaddr : Z) (m : mem) (T : gmap Z role) : Prop :=
  exists e, hw_walk 4 m cr3 vaddr = Some (2%nat, e).
Definition large_conflict (vaddr : Z) (T : gmap Z role) : Prop :=
  exists t, T !! t = Some (1%nat, va_prefix 1 vaddr).

(** One level: the call returns [-ENOMEM] or goes on with the next table. *)
Lemma next_level conflict lw w T cr3 (a : A) m t l vaddr flags (k : Z -> A -> mem -> outcome (Z * A * mem)) :
  pt_inv T cr3 a m -> T !! t = Some (l, va_prefix l vaddr) -> (2 <= l)%nat ->
  (forall e T' a' m', pt_step T cr3 a m T' a' m' -> level_entry T' cr3 m' l vaddr e ->
    exists r T'' a'' m'', k e a' m' = Ok (r, a'', m'') /\
      map_post conflict lw w cr3 vaddr T' a' m' r T'' a'' m'') ->
  exists r T'' a'' m'',
    ('(pe, a, m) ← table_entry_alloc (paddr_to_ptr t) (table_index vaddr (level_shift l)) (mmu_flags_to_hw flags) a m;
     match pe with None => Ok (- ENOMEM, a, m) | Some pe => k pe a m end) = Ok (r, a'', m'') /\
    map_post conflict lw w cr3 vaddr T a m r T'' a'' m''.
Proof.
  intros HT Ht Hl Hk. destruct (table_entry_alloc_spec T cr3 a m t l vaddr flags HT Ht Hl)
    as [[E Hn] | (e & T1 & a1 & m1 & E & S & L)]; rewrite E; cbn [mbind outcome_bind].
  - exists (- ENOMEM), T, a, m. split; [done |]. apply map_post_fail; auto.
  - destruct (Hk e T1 a1 m1 S L) as (r & T2 & a2 & m2 & E2 & Hpost).
    exists r, T2, a2, m2. split; [done |]. by eapply map_post_step.
Qed.

Lemma map_small_spec T cr3 (a : A) m vaddr paddr prot flags :
  pt_inv T cr3 a m -> 0 <= paddr < 2 ^ 52 -> (4096 | paddr) ->
  exists r T' a' m', mmu_map_small_page cr3 vaddr paddr prot flags a m = Ok (r, a', m') /\
    map_post (small_conflict cr3 vaddr m) 1 (small_leaf paddr prot flags) cr3 vaddr T a m r T' a' m'.
Proof.
  intros HT Hp Hd. unfold mmu_map_small_page. cbv zeta.
  change PML4_INDEX_SHIFT with (level_shift 4). change PDPT_INDEX_SHIFT with (level_shift 3).
  change PD_INDEX_SHIFT with (level_shift 2). change PT_INDEX_SHIFT with (level_shift 1).
  apply (next_level _ _ _ T); [done | by eapply root_table | lia |]. intros e4 T4 a4 m4 S4 L4.
  apply (next_level _ _ _ T4); [apply S4 | by apply (level_entry_table T4 cr3 a4 m4 4); [apply S4 | lia |] | lia |].
  intros e3 T3 a3 m3 S3 L3.
  apply (next_level _ _ _ T3); [apply S3 | by apply (level_entry_table T3 cr3 a3 m3 3); [apply S3 | lia |] | lia |].
  intros e2 T2 a2 m2 S2 L2. rewrite pde_is_large_bit. destruct L2 as [(_ & L2 & L2') | [L2 L2']]; rewrite L2.
  - exists (- EINVAL), T2, a2, m2. split; [done |]. apply map_post_fail; [apply S2 |]. right. split; [done |].
    exists e2. by rewrite <- (ps_walk _ _ _ _ _ _ _ S4), <- (ps_walk _ _ _ _ _ _ _ S3), <- (ps_walk _ _ _ _ _ _ _ S2).
  - eexists 0, T2, a2, _. split; [done |].
    assert (paddr mod 2 ^ 12 = 0) as Hm by (by apply Z.mod_divide).
    destruct (make_pe_fields paddr _ false 12 Hp Hm ltac:(lia) (leaf_word prot flags)) as (_ & _ & F3 & _ & F5).
    apply map_post_leaf; [apply S2 | done | by left | done | done].
Qed.

Lemma map_large_spec T cr3 (a : A) m vaddr paddr prot flags :
  pt_inv T cr3 a m -> 0 <= paddr < 2 ^ 52 -> (4096 | paddr) ->
  exists r T' a' m', mmu_map_large_page cr3 vaddr paddr prot flags a m = Ok (r, a', m') /\
    map_post (large_conflict vaddr) 2 (large_leaf paddr prot flags) cr3 vaddr T a m r T' a' m'.
Proof.
  intros HT Hp Hd. unfold mmu_map_large_page. cbv zeta.
  change PML4_INDEX_SHIFT with (level_shift 4). change PDPT_INDEX_SHIFT with (level_shift 3).
  change PD_INDEX_SHIFT with (level_shift 2).
  apply (next_level _ _ _ T); [done | by eapply root_table | lia |]. intros e4 T4 a4 m4 S4 L4.
  apply (next_level _ _ _ T4); [apply S4 | by apply (level_entry_table T4 cr3 a4 m4 4); [apply S4 | lia |] | lia |].
  intros e3 T3 a3 m3 S3 L3. pose proof (level_entry_table T3 cr3 a3 m3 3 vaddr e3 (ps_inv _ _ _ _ _ _ _ S3) ltac:(lia) L3) as Ht.
  pose proof (pt_table _ _ _ _ (ps_inv _ _ _ _ _ _ _ S3) _ _ _ Ht) as Hok.
  assert (load64 m3 (paddr_to_ptr (pdpte_paddr e3) + 8 * table_index vaddr (level_shift 2)) =
          entry m3 (pe_paddr e3) (va_index 2 vaddr)) as Ee.
  { rewrite table_index_spec by lia. unfold pdpte_paddr. by rewrite (paddr_to_ptr_table _ _ _ _ _ _ Hok). }
  rewrite Ee, pde_is_large_bit. unfold pde_is_none, pe_is_none.
  assert (paddr mod 2 ^ 12 = 0) as Hm by (by apply Z.mod_divide).
  destruct (make_pe_fields paddr _ true 12 Hp Hm ltac:(lia) (large_word prot flags)) as (_ & _ & F3 & F4 & F5).
  destruct (Z.eqb_spec (entry m3 (pe_paddr e3) (va_index 2 vaddr)) 0) as [E0 | En]; cbn [negb andb].
  2: destruct (Z.testbit (entry m3 (pe_paddr e3) (va_index 2 vaddr)) 7) eqn:Eps; cbn [negb].
  - eexists 0, T3, a3, _. split; [done |]. apply map_post_leaf; [apply S3 | done | tauto | done | done].
  - eexists 0, T3, a3, _. split; [done |]. apply map_post_leaf; [apply S3 | done | tauto | done | done].
  - exists (- EINVAL), T3, a3, m3. split; [done |]. apply map_post_fail; [apply S3 |]. right. split; [done |].
    destruct (level_entry_present T3 cr3 a3 m3 (pe_paddr e3) 2 vaddr (ps_inv _ _ _ _ _ _ _ S3) Ht ltac:(lia) En) as [(_ & L & _) | [_ L]];
      [congruence |]. by exists (pe_paddr (entry m3 (pe_paddr e3) (va_index 2 vaddr))).
Qed.

End Mapping.
