(* ===== verification/MmuTheorems.v ===== *)
(** * Address translation after mapping

    The mapping functions in terms of the addresses that the processor computes:
    one page, a range of pages ([mmu_map_range]) and device memory ([ioremap]). *)

From S2P Require Import Prelude Align Mem PageAlloc PageAllocProof Kmem Mmu MmuProof MmuMap.

(** ** Ranges of virtual addresses *)

(** The processor ignores the upper 16 bits of an address. *)
Definition va48 (va : Z) : Z := va mod 2 ^ 48.

(** The addresses from [lo] to [hi] translate with displacement [d], all others as before. *)
Definition mapped (m m' : mem) (cr3 lo hi d : Z) : Prop :=
  forall va, translate m' cr3 va =
    if decide (lo <= va48 va < hi) then Some (va48 va + d) else translate m cr3 va.

(** Each address translates as before or is one of those above. *)
Definition touched (m m' : mem) (cr3 lo hi d : Z) : Prop :=
  forall va, translate m' cr3 va = translate m cr3 va \/
    (lo <= va48 va < hi /\ translate m' cr3 va = Some (va48 va + d)).

Lemma mapped_empty m cr3 lo hi d : hi <= lo -> mapped m m cr3 lo hi d.
Proof. intros Hl va. by destruct (decide _); [lia |]. Qed.

Lemma mapped_app m m1 m2 cr3 lo mid hi d :
  lo <= mid <= hi -> mapped m m1 cr3 lo mid d -> mapped m1 m2 cr3 mid hi d -> mapped m m2 cr3 lo hi d.
Proof.
  intros Hl H1 H2 va. rewrite H2, H1. repeat destruct (decide _); done || lia.
Qed.

Lemma mapped_touched m m' cr3 lo hi d : mapped m m' cr3 lo hi d -> touched m m' cr3 lo hi d.
Proof. intros Hm va. rewrite Hm. destruct (decide _); auto. Qed.

Lemma touched_app m m1 m2 cr3 lo lo' hi hi' d :
  lo <= lo' -> hi <= hi' -> touched m m1 cr3 lo hi d -> touched m1 m2 cr3 lo' hi' d ->
  touched m m2 cr3 lo hi' d.
Proof.
  intros Hl Hh H1 H2 va. destruct (H2 va) as [E | [? E]].
  - rewrite E. destruct (H1 va) as [? | [? ?]]; [by left | right]. split; [lia | done].
  - right. split; [lia | done].
Qed.

Lemma touched_same m m' cr3 lo hi d :
  (forall va, hw_walk 4 m' cr3 va = hw_walk 4 m cr3 va) -> touched m m' cr3 lo hi d.
Proof. intros Hw va. left. unfold translate. by rewrite Hw. Qed.

(** ** One page *)

Definition page_size (l : nat) : Z := 2 ^ level_shift l.

Lemma page_size_pos l : (1 <= l <= 2)%nat -> 0 < page_size l <= 2 ^ 21 /\ (page_size l | 2 ^ 48).
Proof.
  intros Hl. unfold page_size. split.
  - split; [apply pow2_pos; unfold level_shift; lia | apply Z.pow_le_mono_r; unfold level_shift; lia].
  - exists (2 ^ (48 - level_shift l)). rewrite <- Z.pow_add_r by (unfold level_shift; lia). f_equal. lia.
Qed.

(** The addresses with the prefix of a page are those of the page. *)
Lemma page_prefix l vaddr va :
  (1 <= l <= 2)%nat -> (page_size l | vaddr) ->
  va_prefix (l - 1) va = va_prefix (l - 1) vaddr <-> va48 vaddr <= va48 va < va48 vaddr + page_size l.
Proof.
  intros Hl Hd. destruct (page_size_pos l Hl) as [Hs Hs']. unfold va_prefix.
  replace (level_shift (l - 1) + 9) with (level_shift l) by (unfold level_shift; lia).
  fold (page_size l) (va48 va) (va48 vaddr).
  assert (page_size l | va48 vaddr) as [q Hq].
  { unfold va48. rewrite Z.mod_eq by lia. apply Z.divide_sub_r; [done |]. by apply Z.divide_mul_l. }
  rewrite Hq, Z.div_mul by lia. pose proof (Z.div_mod (va48 va) (page_size l)) as Hdm.
  pose proof (Z.mod_pos_bound (va48 va) (page_size l)) as Hb. split.
  - intros <-. lia.
  - intros Hr. symmetry. apply (Z.div_unique _ _ _ (va48 va - q * page_size l)); lia.
Qed.

(** A leaf for the page maps its addresses one by one. *)
Lemma walks_to_mapped m m' cr3 l vaddr paddr w :
  (1 <= l <= 2)%nat -> (page_size l | vaddr) -> hw_addr (level_shift l) w = paddr ->
  walks_to m m' cr3 (l - 1) vaddr (l, w) ->
  mapped m m' cr3 (va48 vaddr) (va48 vaddr + page_size l) (paddr - va48 vaddr).
Proof.
  intros Hl Hd Hw Hwalk va. unfold translate. rewrite Hwalk.
  destruct (page_size_pos l Hl) as [Hs Hs'].
  destruct (decide (va_prefix _ _ = _)) as [E | E]; rewrite page_prefix in E by done.
  - rewrite decide_True by done. rewrite Hw. f_equal. fold (page_size l).
    assert (va48 va - va48 vaddr = va mod page_size l) as <-; [| lia].
    destruct Hd as [q Hq], Hs' as [q' Hq'].
    apply (Z.mod_unique _ _ (va / 2 ^ 48 * q' + (q - vaddr / 2 ^ 48 * q'))); [left; lia |].
    unfold va48. rewrite !Z.mod_eq, !Hq' by lia. lia.
  - by rewrite decide_False by done.
Qed.

Section Range.
Context {A : Type} `{PageAllocatorLaws A}.

(** What the loops rely on, for pages of level [l]. *)
Definition maps_pages (l : nat) (cr3 : Z) (f : Z -> Z -> A -> mem -> outcome (Z * A * mem)) : Prop :=
  forall T a m v p, pt_inv T cr3 a m -> (page_size l | v) -> (page_size l | p) -> 0 <= p < 2 ^ 52 ->
    exists r T' a' m', f v p a m = Ok (r, a', m') /\ pt_inv T' cr3 a' m' /\ pt_grows T a m T' a' m' /\
      ((r = 0 /\ mapped m m' cr3 (va48 v) (va48 v + page_size l) (p - va48 v)) \/
       ((r = - ENOMEM \/ r = - EINVAL) /\ forall lo hi d, touched m m' cr3 lo hi d)).

Lemma map_post_maps conflict l w cr3 v p T (a : A) m r T' (a' : A) m' :
  (1 <= l <= 2)%nat -> (page_size l | v) -> hw_addr (level_shift l) w = p ->
  map_post conflict l w cr3 v T a m r T' a' m' ->
  pt_inv T' cr3 a' m' /\ pt_grows T a m T' a' m' /\
  ((r = 0 /\ mapped m m' cr3 (va48 v) (va48 v + page_size l) (p - va48 v)) \/
   ((r = - ENOMEM \/ r = - EINVAL) /\ forall lo hi d, touched m m' cr3 lo hi d)).
Proof.
  intros Hl Hv Hw (I & G & [[-> Hm] | [Hr Hm]]); split_and!; try done; [left | right].
  - split; [done |]. by eapply walks_to_mapped.
  - split; [tauto |]. intros. by apply touched_same.
Qed.

Lemma small_maps_pages cr3 prot flags :
  maps_pages 1 cr3 (fun v p => mmu_map_small_page cr3 v p prot flags).
Proof.
  intros T a m v p HT Hv Hp Hr.
  destruct (map_small_spec T cr3 a m v p prot flags HT Hr Hp) as (r & T' & a' & m' & E & Hpost).
  exists r, T', a', m'. split; [done |]. revert Hpost. apply map_post_maps; [lia | done |].
  apply (make_pe_fields p _ false 12 Hr); [by apply Z.mod_divide | lia | apply leaf_word].
Qed.

Lemma large_maps_pages cr3 prot flags :
  maps_pages 2 cr3 (fun v p => mmu_map_large_page cr3 v p prot flags).
Proof.
  intros T a m v p HT Hv Hp Hr.
  destruct (map_large_spec T cr3 a m v p prot flags HT Hr) as (r & T' & a' & m' & E & Hpost).
  { apply (Z.divide_trans _ (page_size 2)); [by exists 512 | done]. }
  exists r, T', a', m'. split; [done |]. revert Hpost. apply map_post_maps; [lia | done |].
  apply (make_pe_fields p _ true 21 Hr); [by apply Z.mod_divide | lia | apply large_word].
Qed.

(** ** The loops *)

Record loop_post (cr3 lo hi d paddr' : Z) (T : gmap Z role) (a : A) (m : mem)
  (r p' : Z) (T' : gmap Z role) (a' : A) (m' : mem) : Prop := {
  lp_inv : pt_inv T' cr3 a' m';
  lp_grows : pt_grows T a m T' a' m';
  lp_touched : touched m m' cr3 lo hi d;
  lp_result : (r = 0 /\ p' = paddr' /\ mapped m m' cr3 lo hi d) \/ r = - ENOMEM \/ r = - EINVAL
}.

(** [n] pages are left, the first at offset [x] of the address space, and no
    address wraps around. *)
Record loop_pre (l : nat) (n fuel : nat) (x v stop p : Z) : Prop := {
  lq_fuel : (n <= fuel)%nat;
  lq_stop : stop <= v + Z.of_nat n * page_size l;
  lq_left : (0 < n)%nat -> v + (Z.of_nat n - 1) * page_size l < stop /\ va48 v = x;
  lq_v : 0 <= v /\ v + Z.of_nat n * page_size l < 2 ^ 64;
  lq_48 : 0 <= x /\ x + Z.of_nat n * page_size l <= 2 ^ 48;
  lq_p : 0 <= p /\ p + Z.of_nat n * page_size l <= 2 ^ 52;
  lq_v_aligned : (page_size l | v);
  lq_p_aligned : (0 < n)%nat -> (page_size l | p)
}.

Lemma va48_add v k : 0 <= k -> va48 v + k < 2 ^ 48 -> va48 (v + k) = va48 v + k.
Proof.
  intros Hk Hb. unfold va48 in *. pose proof (Z.mod_pos_bound v (2 ^ 48)).
  rewrite <- (Zplus_mod_idemp_l v). apply Z.mod_small. lia.
Qed.

Lemma loop_pre_next l n fuel x v stop p :
  (1 <= l <= 2)%nat -> loop_pre l (S n) (S fuel) x v stop p ->
  loop_pre l n fuel (x + page_size l) (v + page_size l) stop (p + page_size l).
Proof.
  intros Hl [Q1 Q2 Q3 Q4 Q5 Q6 Q7 Q8]. destruct (page_size_pos l Hl) as [Hs _].
  rewrite Nat2Z.inj_succ in *. destruct (Q3 ltac:(lia)) as [Q3' Q9].
  split; try lia; [| by apply Z.divide_add_r | intros _; apply Z.divide_add_r; [apply Q8; lia | done]].
  intros Hn. split; [lia |]. rewrite <- Q9. apply va48_add; nia.
Qed.

Lemma loop_post_nil cr3 x d p T (a : A) m : pt_inv T cr3 a m -> loop_post cr3 x x d p T a m 0 p T a m.
Proof.
  intros HT. split; [done | apply pt_grows_refl | apply mapped_touched, mapped_empty; lia |].
  left. split_and!; [done | done | apply mapped_empty; lia].
Qed.

(** A range mapped in two parts. *)
Lemma loop_post_app cr3 lo mid hi d p1 p2 T (a : A) m T1 (a1 : A) m1 r T' (a' : A) m' p' :
  lo <= mid <= hi -> loop_post cr3 lo mid d p1 T a m 0 p1 T1 a1 m1 ->
  loop_post cr3 mid hi d p2 T1 a1 m1 r p' T' a' m' -> loop_post cr3 lo hi d p2 T a m r p' T' a' m'.
Proof.
  intros Hm [_ G1 B1 R1] [I2 G2 B2 R2]. destruct R1 as [(_ & _ & M1) | [E | E]]; [| discriminate E..].
  split; [done | by eapply pt_grows_trans | by eapply (touched_app _ _ _ _ lo mid mid hi); [lia | lia | |] |].
  destruct R2 as [(-> & -> & M2) | Hr]; [left | by right]. split_and!; [done | done |]. by eapply mapped_app.
Qed.

Lemma map_loop_spec l cr3 f n fuel x v stop p T (a : A) m :
  (1 <= l <= 2)%nat -> maps_pages l cr3 f -> pt_inv T cr3 a m -> loop_pre l n fuel x v stop p ->
  exists r p' T' a' m', map_loop f (page_size l) fuel v stop p a m = Ok (r, p', a', m') /\
    loop_post cr3 x (x + Z.of_nat n * page_size l) (p - x) (p + Z.of_nat n * page_size l) T a m r p' T' a' m'.
Proof.
  intros Hl Hf. destruct (page_size_pos l Hl) as [Hs _].
  revert n x v p T a m. induction fuel as [|fuel IH]; intros n x v p T a m HT Hq.
  all: destruct n as [|n]; [| try by pose proof (lq_fuel _ _ _ _ _ _ _ Hq); lia].
  1,2: cbn [map_loop]; destruct (Z.ltb_spec v stop); [pose proof (lq_stop _ _ _ _ _ _ _ Hq); lia |];
    exists 0, p, T, a, m; split; [done |]; rewrite !Z.add_0_r; by apply loop_post_nil.
  cbn [map_loop]. pose proof Hq as [_ _ Q3 Q4 Q5 Q6 Q7 Q8]. destruct (Q3 ltac:(lia)) as [Q3' Q9].
  destruct (Z.ltb_spec v stop); [| nia].
  destruct (Hf T a m v p HT Q7 (Q8 ltac:(lia))) as (r & T1 & a1 & m1 & E & I1 & G1 & Hr); [nia |].
  rewrite E. cbn [mbind outcome_bind]. rewrite Q9 in Hr. destruct Hr as [[-> Hm] | [Hr Ht]].
  - cbn [negb Z.eqb]. rewrite !u64_small by nia.
    destruct (IH n _ _ _ T1 a1 m1 I1 (loop_pre_next l n fuel x v stop p Hl Hq)) as (r2 & p2 & T2 & a2 & m2 & E2 & P2).
    exists r2, p2, T2, a2, m2. split; [done |].
    replace (x + page_size l + Z.of_nat n * page_size l) with (x + Z.of_nat (S n) * page_size l) in P2 by lia.
    replace (p + page_size l + Z.of_nat n * page_size l) with (p + Z.of_nat (S n) * page_size l) in P2 by lia.
    replace (p + page_size l - (x + page_size l)) with (p - x) in P2 by lia.
    eapply (loop_post_app _ x (x + page_size l) _ _ 0); [nia | | exact P2].
    split; [done | done | by apply mapped_touched | by left].
  - exists r, p, T1, a1, m1. split.
    + by destruct Hr as [-> | ->].
    + split; [done | done | apply Ht | right; done].
Qed.

(** ** A range *)

(** The bytes of the pages that hold [size] bytes from a page boundary on. *)
Definition page_bytes (size : Z) : Z := (size + 4095) / 4096 * 4096.

(** A range inside of the address spaces; where the code uses large pages the two
    addresses agree modulo the size of a large page. *)
Record range_ok (vaddr paddr size : Z) : Prop := {
  ro_size : 0 <= size;
  ro_v : 0 <= vaddr /\ vaddr + page_bytes size + PAGE_SIZE_LARGE <= 2 ^ 64;
  ro_48 : va48 vaddr + page_bytes size <= 2 ^ 48;
  ro_p : 0 <= paddr /\ paddr + page_bytes size <= 2 ^ 52;
  ro_v_aligned : (4096 | vaddr);
  ro_p_aligned : (4096 | paddr);
  ro_large : align_up vaddr PAGE_SIZE_LARGE < align_down (vaddr + size) PAGE_SIZE_LARGE ->
             (PAGE_SIZE_LARGE | paddr - vaddr)
}.

Lemma page_bytes_bounds size : 0 <= size -> size <= page_bytes size < size + 4096.
Proof.
  intros Hs. unfold page_bytes. pose proof (Z.div_mod (size + 4095) 4096).
  pose proof (Z.mod_pos_bound (size + 4095) 4096). lia.
Qed.

Lemma page_bytes_pages size : 0 <= size -> exists n : nat, page_bytes size = Z.of_nat n * 4096.
Proof.
  intros Hs. exists (Z.to_nat ((size + 4095) / 4096)). rewrite Z2Nat.id; [done |].
  apply Z.div_pos; lia.
Qed.

(** The rest of a range after [k] bytes. *)
Lemma page_bytes_sub size k : (4096 | k) -> page_bytes size = k + page_bytes (size - k).
Proof.
  intros [q ->]. unfold page_bytes.
  replace (size + 4095) with (size - q * 4096 + 4095 + q * 4096) by lia. rewrite Z.div_add by lia. lia.
Qed.

(** The loop over small pages from [v], at offset [x], up to [v + size]. *)
Lemma small_loop_pre x v p size :
  0 <= size -> 0 <= v -> v + page_bytes size < 2 ^ 64 -> (0 < size -> va48 v = x) ->
  0 <= x -> x + page_bytes size <= 2 ^ 48 -> 0 <= p -> p + page_bytes size <= 2 ^ 52 ->
  (4096 | v) -> (4096 | p) ->
  loop_pre 1 (Z.to_nat ((size + 4095) / 4096)) (loop_fuel v (v + size) PAGE_SIZE_SMALL) x v (v + size) p.
Proof.
  intros Hs Hv Hv' Hx Hx0 Hx' Hp Hp' Dv Dp. pose proof (page_bytes_bounds size Hs) as Hb.
  assert (Z.of_nat (Z.to_nat ((size + 4095) / 4096)) * page_size 1 = page_bytes size) as En.
  { rewrite Z2Nat.id by (apply Z.div_pos; lia). done. }
  split; rewrite ?En; try done.
  - unfold loop_fuel. replace (v + size - v) with size by lia. change PAGE_SIZE_SMALL with 4096.
    assert ((size + 4095) / 4096 <= size / 4096 + 1); [| lia].
    rewrite <- Z.div_add by lia. apply Z.div_le_mono; lia.
  - lia.
  - intros Hn. rewrite Z.mul_sub_distr_r, En. change (page_size 1) with 4096. split; [lia |].
    apply Hx. destruct (decide (size = 0)) as [-> |]; [vm_compute in Hn |]; lia.
Qed.

(** The loop over large pages from [v] up to [v + size]. *)
Lemma large_loop_pre x v p size :
  0 <= size -> (2 ^ 21 | size) -> 0 <= v -> v + size < 2 ^ 64 -> (0 < size -> va48 v = x) ->
  0 <= x -> x + size <= 2 ^ 48 -> 0 <= p -> p + size <= 2 ^ 52 -> (2 ^ 21 | v) -> (0 < size -> (2 ^ 21 | p)) ->
  loop_pre 2 (Z.to_nat (size / 2 ^ 21)) (loop_fuel v (v + size) PAGE_SIZE_LARGE) x v (v + size) p.
Proof.
  intros Hs [q Eq] Hv Hv' Hx Hx0 Hx' Hp Hp' Dv Dp.
  assert (size / 2 ^ 21 = q) as Eq' by (rewrite Eq; by apply Z.div_mul).
  assert (0 <= q) by lia.
  assert (Z.of_nat (Z.to_nat (size / 2 ^ 21)) * page_size 2 = size) as En.
  { rewrite Eq', Z2Nat.id by lia. by rewrite Eq. }
  split; rewrite ?En; try done.
  - unfold loop_fuel. replace (v + size - v) with size by lia. change PAGE_SIZE_LARGE with (2 ^ 21). lia.
  - intros Hn. rewrite Z.mul_sub_distr_r, En. change (page_size 2) with (2 ^ 21). split; [lia |].
    apply Hx. lia.
  - intros Hn. apply Dp. lia.
Qed.

(** The guard around each loop only saves the test. *)
Lemma map_loop_guard f step fuel v stop p (a : A) m :
  (if negb (v =? stop) then map_loop f step fuel v stop p a m else Ok (0, p, a, m)) =
  map_loop f step fuel v stop p a m.
Proof.
  destruct (Z.eqb_spec v stop) as [-> |]; [| done]. cbn [negb].
  destruct fuel; cbn [map_loop]; by rewrite Z.ltb_irrefl.
Qed.

(** A loop followed by the rest of the function. *)
Lemma loop_then cr3 lo mid hi d p1 p2 T (a : A) m (loop : outcome (Z * Z * A * mem))
  (k : Z -> A -> mem -> outcome (Z * A * mem)) :
  lo <= mid <= hi ->
  (exists r p' T' a' m', loop = Ok (r, p', a', m') /\ loop_post cr3 lo mid d p1 T a m r p' T' a' m') ->
  (forall T1 a1 m1, pt_inv T1 cr3 a1 m1 -> exists r p' T' a' m', k p1 a1 m1 = Ok (r, a', m') /\
     loop_post cr3 mid hi d p2 T1 a1 m1 r p' T' a' m') ->
  exists r p' T' a' m',
    ('(err, p, a, m) ← loop; if negb (err =? 0) then Ok (err, a, m) else k p a m) = Ok (r, a', m') /\
    loop_post cr3 lo hi d p2 T a m r p' T' a' m'.
Proof.
  intros Hm (r & p' & T1 & a1 & m1 & E & P1) Hk. rewrite E. cbn [mbind outcome_bind].
  pose proof P1 as [I1 G1 B1 [(-> & -> & M1) | Hr]].
  - cbn [negb Z.eqb]. destruct (Hk T1 a1 m1 I1) as (r2 & p2' & T2 & a2 & m2 & E2 & P2).
    exists r2, p2', T2, a2, m2. split; [done |]. by eapply loop_post_app.
  - exists r, p', T1, a1, m1. split; [by destruct Hr as [-> | ->] |].
    split; [done | done | | by right]. intros va. destruct (B1 va) as [? | [? ?]]; [by left | right].
    split; [lia | done].
Qed.

Lemma small_loop cr3 prot flags x v p size T (a : A) m :
  pt_inv T cr3 a m ->
  loop_pre 1 (Z.to_nat ((size + 4095) / 4096)) (loop_fuel v (v + size) PAGE_SIZE_SMALL) x v (v + size) p ->
  0 <= size ->
  exists r p' T' a' m',
    map_loop (fun v p => mmu_map_small_page cr3 v p prot flags) PAGE_SIZE_SMALL
      (loop_fuel v (v + size) PAGE_SIZE_SMALL) v (v + size) p a m = Ok (r, p', a', m') /\
    loop_post cr3 x (x + page_bytes size) (p - x) (p + page_bytes size) T a m r p' T' a' m'.
Proof.
  intros HT Hq Hs. replace (page_bytes size) with (Z.of_nat (Z.to_nat ((size + 4095) / 4096)) * page_size 1).
  - exact (map_loop_spec 1 cr3 _ _ _ x v _ p T a m ltac:(lia) (small_maps_pages cr3 prot flags) HT Hq).
  - rewrite Z2Nat.id by (apply Z.div_pos; lia). done.
Qed.

Lemma large_loop cr3 prot flags x v p size T (a : A) m :
  pt_inv T cr3 a m ->
  loop_pre 2 (Z.to_nat (size / 2 ^ 21)) (loop_fuel v (v + size) PAGE_SIZE_LARGE) x v (v + size) p ->
  0 <= size -> (2 ^ 21 | size) ->
  exists r p' T' a' m',
    map_loop (fun v p => mmu_map_large_page cr3 v p prot flags) PAGE_SIZE_LARGE
      (loop_fuel v (v + size) PAGE_SIZE_LARGE) v (v + size) p a m = Ok (r, p', a', m') /\
    loop_post cr3 x (x + size) (p - x) (p + size) T a m r p' T' a' m'.
Proof.
  intros HT Hq Hs [q Eq]. assert (size = Z.of_nat (Z.to_nat (size / 2 ^ 21)) * page_size 2) as En.
  { rewrite Eq, Z.div_mul, Z2Nat.id by lia. done. }
  pose proof (map_loop_spec 2 cr3 _ _ _ x v _ p T a m ltac:(lia) (large_maps_pages cr3 prot flags) HT Hq) as L.
  by rewrite <- En in L.
Qed.

(** Small pages, large pages, small pages: [k1], [k2] and [k3] bytes. *)
Definition three_loops (cr3 prot flags vaddr k1 k2 k3 paddr : Z) (a : A) (m : mem) : outcome (Z * A * mem) :=
  let small := fun v p => mmu_map_small_page cr3 v p prot flags in
  let large := fun v p => mmu_map_large_page cr3 v p prot flags in
  let loop f step v stop p a m :=
    if negb (v =? stop) then map_loop f step (loop_fuel v stop step) v stop p a m else Ok (0, p, a, m) in
  '(err, paddr, a, m) ← loop small PAGE_SIZE_SMALL vaddr (vaddr + k1) paddr a m;
  if negb (err =? 0) then Ok (err, a, m)
  else
    '(err, paddr, a, m) ← loop large PAGE_SIZE_LARGE (vaddr + k1) (vaddr + k1 + k2) paddr a m;
    if negb (err =? 0) then Ok (err, a, m)
    else
      '(err, _, a, m) ← loop small PAGE_SIZE_SMALL (vaddr + k1 + k2) (vaddr + k1 + k2 + k3) paddr a m;
      Ok (err, a, m).

Lemma three_loops_spec T cr3 (a : A) m vaddr paddr k1 k2 k3 prot flags :
  let size := k1 + k2 + page_bytes k3 in
  pt_inv T cr3 a m -> 0 <= k1 -> 0 <= k2 -> 0 <= k3 ->
  0 <= vaddr -> vaddr + size < 2 ^ 64 -> va48 vaddr + size <= 2 ^ 48 -> 0 <= paddr -> paddr + size <= 2 ^ 52 ->
  (4096 | vaddr) -> (4096 | paddr) -> (2 ^ 21 | vaddr + k1) -> (2 ^ 21 | k2) -> (0 < k2 -> (2 ^ 21 | paddr + k1)) ->
  exists r p' T' a' m', three_loops cr3 prot flags vaddr k1 k2 k3 paddr a m = Ok (r, a', m') /\
    loop_post cr3 (va48 vaddr) (va48 vaddr + size) (paddr - va48 vaddr) (paddr + size) T a m r p' T' a' m'.
Proof.
  intros size HT H1 H2 H3 Hv Hv' Hx Hp Hp' Dv Dp D1 D2 D2'. unfold three_loops. cbv zeta.
  pose proof (page_bytes_bounds k3 H3) as Hb. subst size.
  pose proof (Z.mod_pos_bound vaddr (2 ^ 48) ltac:(lia)) as Hx0. fold (va48 vaddr) in Hx0.
  assert (forall z, (2 ^ 21 | z) -> (4096 | z)) as Dw by (intros z; apply Z.divide_trans; by exists 512).
  assert (4096 | k1) as D1' by (replace k1 with (vaddr + k1 - vaddr) by lia; apply Z.divide_sub_r; auto).
  assert (page_bytes k1 = k1) as Ek1 by (rewrite (page_bytes_sub k1 k1), Z.sub_diag by done; apply Z.add_0_r).
  eapply (loop_then _ _ (va48 vaddr + k1)); [lia | |].
  { rewrite map_loop_guard.
    pose proof (small_loop cr3 prot flags (va48 vaddr) vaddr paddr k1 T a m HT) as L. rewrite Ek1 in L.
    apply L; [| lia]. apply small_loop_pre; rewrite ?Ek1; done || lia. }
  intros T1 a1 m1 I1. cbv beta.
  eapply (loop_then _ _ (va48 vaddr + k1 + k2)); [lia | |].
  { rewrite map_loop_guard. replace (paddr - va48 vaddr) with (paddr + k1 - (va48 vaddr + k1)) by lia.
    apply large_loop; [done | | lia | done]. apply large_loop_pre; try done; try lia.
    intros Hk. apply va48_add; lia. }
  intros T2 a2 m2 I2. cbv beta. rewrite map_loop_guard.
  destruct (small_loop cr3 prot flags (va48 vaddr + k1 + k2) (vaddr + k1 + k2) (paddr + k1 + k2) k3 T2 a2 m2 I2)
    as (r & p' & T' & a' & m' & E & P); [| lia |].
  { apply small_loop_pre; try lia.
    - intros Hk. rewrite <- !Z.add_assoc. apply va48_add; lia.
    - apply Z.divide_add_r; auto.
    - apply Z.divide_add_r; [apply Z.divide_add_r |]; auto. }
  rewrite E. cbn [mbind outcome_bind]. exists r, p', T', a', m'. split; [done |].
  replace (paddr + k1 + k2 - (va48 vaddr + k1 + k2)) with (paddr - va48 vaddr) in P by lia.
  by replace (va48 vaddr + (k1 + k2 + page_bytes k3)) with (va48 vaddr + k1 + k2 + page_bytes k3) by lia;
    replace (paddr + (k1 + k2 + page_bytes k3)) with (paddr + k1 + k2 + page_bytes k3) by lia.
Qed.

Lemma map_range_spec T cr3 (a : A) m vaddr paddr size prot flags :
  pt_inv T cr3 a m -> range_ok vaddr paddr size ->
  exists r p' T' a' m', mmu_map_range cr3 vaddr paddr size prot flags a m = Ok (r, a', m') /\
    loop_post cr3 (va48 vaddr) (va48 vaddr + page_bytes size) (paddr - va48 vaddr) (paddr + page_bytes size)
      T a m r p' T' a' m'.
Proof.
  intros HT [Rs Rv R48 Rp Dv Dp Rl]. pose proof (page_bytes_bounds size Rs) as Hpb.
  change PAGE_SIZE_LARGE with (2 ^ 21) in Rv, Rl.
  pose proof (Z.mod_pos_bound vaddr (2 ^ 48) ltac:(lia)) as Hx0. fold (va48 vaddr) in Hx0.
  unfold mmu_map_range. replace (is_aligned vaddr PAGE_SIZE_SMALL) with true.
  2: { symmetry. apply Z.eqb_eq. by apply Z.mod_divide. }
  cbn [negb]. cbv zeta. rewrite (u64_small (vaddr + size)) by lia.
  change (align_up vaddr PAGE_SIZE_LARGE) with (align_up vaddr (2 ^ 21)).
  change (align_down (vaddr + size) PAGE_SIZE_LARGE) with (align_down (vaddr + size) (2 ^ 21)).
  pose proof (align_up_bounds vaddr 21 ltac:(lia) ltac:(lia) ltac:(lia)) as Hls.
  pose proof (align_up_mod vaddr 21 ltac:(lia) ltac:(lia) ltac:(lia)) as Dls.
  pose proof (align_down_bounds (vaddr + size) 21 ltac:(lia) ltac:(lia)) as Hle.
  pose proof (align_down_mod (vaddr + size) 21 ltac:(lia) ltac:(lia)) as Dle.
  apply Z.mod_divide in Dls, Dle; [| lia..].
  revert Hls Dls Hle Dle Rl. generalize (align_up vaddr (2 ^ 21)), (align_down (vaddr + size) (2 ^ 21)).
  intros ls le Hls Dls Hle Dle Rl. destruct (Z.ltb_spec le ls) as [Hlt | Hge].
  - destruct (small_loop cr3 prot flags (va48 vaddr) vaddr paddr size T a m HT) as (r & p' & T' & a' & m' & E & P).
    { apply small_loop_pre; done || lia. }
    { done. }
    rewrite E. cbn [mbind outcome_bind]. by exists r, p', T', a', m'.
  - assert (page_bytes size = ls - vaddr + (le - ls) + page_bytes (vaddr + size - le)) as Esz.
    { replace (vaddr + size - le) with (size - (ls - vaddr + (le - ls))) by lia. apply page_bytes_sub.
      replace (ls - vaddr + (le - ls)) with (le - vaddr) by lia. apply Z.divide_sub_r; [| done].
      apply (Z.divide_trans _ (2 ^ 21)); [by exists 512 | done]. }
    destruct (three_loops_spec T cr3 a m vaddr paddr (ls - vaddr) (le - ls) (vaddr + size - le) prot flags)
      as (r & p' & T' & a' & m' & E & P); rewrite <- ?Esz; try done; try lia.
    + by replace (vaddr + (ls - vaddr)) with ls by lia.
    + by apply Z.divide_sub_r.
    + intros Hk. replace (paddr + (ls - vaddr)) with (paddr - vaddr + ls) by lia.
      apply Z.divide_add_r; [apply Rl; lia | done].
    + rewrite <- Esz in P. exists r, p', T', a', m'. split; [| done]. rewrite <- E. unfold three_loops.
      replace (vaddr + (ls - vaddr)) with ls by lia. replace (ls + (le - ls)) with le by lia.
      by replace (le + (vaddr + size - le)) with (vaddr + size) by lia.
Qed.

(** ** Results *)

(** The permissions and the caching that a leaf entry grants. *)
Definition leaf_grants (w prot flags : Z) : Prop :=
  Z.testbit w 0 = true /\
  Z.testbit w 1 = negb (Z.land prot MMU_PROT_WRITE =? 0) /\
  Z.testbit w 63 = (Z.land prot MMU_PROT_EXEC =? 0) /\
  Z.testbit w 2 = negb (Z.land flags MMU_USER_PAGE =? 0) /\
  Z.testbit w 4 = negb (Z.land flags MMU_NOCACHE =? 0).

Lemma leaf_grants_intro paddr ps prot flags :
  0 <= paddr < 2 ^ 52 -> (4096 | paddr) -> ps = 0 \/ ps = X86_PE_PS ->
  leaf_grants (make_pe paddr (Z.lor (Z.lor (mmu_prot_to_hw prot) (mmu_flags_to_hw flags)) ps)) prot flags.
Proof.
  intros Hp Hd Hps. unfold leaf_grants, make_pe.
  assert (forall i, 0 <= i < 12 \/ i = 63 -> Z.testbit paddr i = false) as Hb.
  { intros i [Hi | ->]; [| by apply (testbit_small _ 52); lia].
    apply (testbit_aligned _ 12); [by apply Z.mod_divide | lia]. }
  rewrite !(Z.lor_spec paddr), !Hb by lia. cbn [orb].
  unfold mmu_prot_to_hw, mmu_flags_to_hw.
  destruct (Z.land prot MMU_PROT_WRITE =? 0), (Z.land prot MMU_PROT_EXEC =? 0),
    (Z.land flags MMU_USER_PAGE =? 0), (Z.land flags MMU_NOCACHE =? 0), Hps as [-> | ->];
    vm_compute; done.
Qed.

(** Mmu_map_small_page returns; on 0 exactly the addresses of the page of
    [vaddr] walk to one new leaf, which names [paddr] and grants what [prot] and
    [flags] ask for, and every other address walks as before.  On -ENOMEM (the
    allocator is empty) and on -EINVAL ([vaddr] lies in a large page) no walk
    changes.  In all cases the tables stay well formed and only page tables and
    pages of the allocator are written. *)
Theorem mmu_map_small_page_maps T cr3 (a : A) m vaddr paddr prot flags :
  pt_inv T cr3 a m -> 0 <= paddr < 2 ^ 52 -> (4096 | paddr) ->
  exists r T' a' m', mmu_map_small_page cr3 vaddr paddr prot flags a m = Ok (r, a', m') /\
    pt_inv T' cr3 a' m' /\ pt_grows T a m T' a' m' /\
    ((r = 0 /\ translate m' cr3 vaddr = Some (paddr + vaddr mod 4096) /\
      exists w, leaf_grants w prot flags /\ hw_addr 12 w = paddr /\
        forall va, hw_walk 4 m' cr3 va =
          if decide (va48 va / 4096 = va48 vaddr / 4096) then Some (1%nat, w) else hw_walk 4 m cr3 va) \/
     ((r = - ENOMEM /\ pa_empty a' \/ r = - EINVAL /\ exists e, hw_walk 4 m cr3 vaddr = Some (2%nat, e)) /\
      forall va, hw_walk 4 m' cr3 va = hw_walk 4 m cr3 va)).
Proof.
  intros HT Hp Hd. destruct (map_small_spec T cr3 a m vaddr paddr prot flags HT Hp Hd)
    as (r & T' & a' & m' & E & I & G & Hr).
  exists r, T', a', m'. split_and!; [done | done | done |]. destruct Hr as [[-> Hw] | [Hr Hw]]; [left | by right].
  assert (hw_addr 12 (small_leaf paddr prot flags) = paddr) as Ha.
  { apply (make_pe_fields paddr _ false 12 Hp); [by apply Z.mod_divide | lia | apply leaf_word]. }
  split_and!; [done | |].
  - unfold translate. rewrite Hw, decide_True by done. change (level_shift 1) with 12. by rewrite Ha.
  - exists (small_leaf paddr prot flags). split_and!; [| done | exact Hw].
    pose proof (leaf_grants_intro paddr 0 prot flags Hp Hd ltac:(auto)) as L. by rewrite Z.lor_0_r in L.
Qed.

(** Mmu_map_large_page returns; on 0 exactly the addresses of the 2 MiB page
    of [vaddr] walk to one new leaf with the requested permissions, also where
    another large page was mapped there, and every other address walks as before.
    On -ENOMEM and on -EINVAL (there is a table of small pages) no walk changes. *)
Theorem mmu_map_large_page_maps T cr3 (a : A) m vaddr paddr prot flags :
  pt_inv T cr3 a m -> 0 <= paddr < 2 ^ 52 -> (PAGE_SIZE_LARGE | paddr) ->
  exists r T' a' m', mmu_map_large_page cr3 vaddr paddr prot flags a m = Ok (r, a', m') /\
    pt_inv T' cr3 a' m' /\ pt_grows T a m T' a' m' /\
    ((r = 0 /\ translate m' cr3 vaddr = Some (paddr + vaddr mod PAGE_SIZE_LARGE) /\
      exists w, leaf_grants w prot flags /\ hw_addr 21 w = paddr /\
        forall va, hw_walk 4 m' cr3 va =
          if decide (va48 va / PAGE_SIZE_LARGE = va48 vaddr / PAGE_SIZE_LARGE) then Some (2%nat, w)
          else hw_walk 4 m cr3 va) \/
     ((r = - ENOMEM /\ pa_empty a' \/ r = - EINVAL /\ exists t, T' !! t = Some (1%nat, va_prefix 1 vaddr)) /\
      forall va, hw_walk 4 m' cr3 va = hw_walk 4 m cr3 va)).
Proof.
  intros HT Hp Hd. assert (4096 | paddr) as Hd' by (apply (Z.divide_trans _ PAGE_SIZE_LARGE); [by exists 512 | done]).
  destruct (map_large_spec T cr3 a m vaddr paddr prot flags HT Hp Hd') as (r & T' & a' & m' & E & I & G & Hr).
  exists r, T', a', m'. split_and!; [done | done | done |]. destruct Hr as [[-> Hw] | [Hr Hw]]; [left | by right].
  assert (hw_addr 21 (large_leaf paddr prot flags) = paddr) as Ha.
  { apply (make_pe_fields paddr _ true 21 Hp); [by apply Z.mod_divide | lia | apply large_word]. }
  split_and!; [done | |].
  - unfold translate. rewrite Hw, decide_True by done. change (level_shift 2) with 21. by rewrite Ha.
  - exists (large_leaf paddr prot flags). split_and!; [| done | exact Hw]. apply leaf_grants_intro; auto.
Qed.

(** C5: mmu_map_range terminates; on 0 every address of the range translates to
    the address at the same distance from [paddr] and every other address as
    before.  If a page cannot be mapped the error is returned and each address
    either translates as before or to its address of the range.  The tables stay
    well formed and only page tables and pages of the allocator are written. *)
Theorem mmu_map_range_maps T cr3 (a : A) m vaddr paddr size prot flags :
  pt_inv T cr3 a m -> range_ok vaddr paddr size ->
  let lo := va48 vaddr in
  let hi := va48 vaddr + page_bytes size in
  exists r T' a' m', mmu_map_range cr3 vaddr paddr size prot flags a m = Ok (r, a', m') /\
    pt_inv T' cr3 a' m' /\ pt_grows T a m T' a' m' /\
    (r = 0 \/ r = - ENOMEM \/ r = - EINVAL) /\
    (r = 0 -> forall va, translate m' cr3 va =
       if decide (lo <= va48 va < hi) then Some (paddr + (va48 va - lo)) else translate m cr3 va) /\
    (forall va, translate m' cr3 va = translate m cr3 va \/
       (lo <= va48 va < hi /\ translate m' cr3 va = Some (paddr + (va48 va - lo)))).
Proof.
  intros HT HR lo hi. destruct (map_range_spec T cr3 a m vaddr paddr size prot flags HT HR)
    as (r & p' & T' & a' & m' & E & [I G B R]).
  exists r, T', a', m'. split_and!; [done | done | done | tauto | |].
  - intros -> va. destruct R as [(_ & _ & R) | [R | R]]; [| discriminate R..]. rewrite R.
    destruct (decide _); [| done]. f_equal. lia.
  - intros va. destruct (B va) as [? | [? ->]]; [by left | right]. split; [done |]. f_equal. lia.
Qed.

(** Ioremap hands out the next addresses of the kernel's address space: on
    success it returns the old end of that space, from which the device's memory
    is mapped, and the new end lies behind the mapping, so that the next call
    gets addresses of its own.  On failure it returns NULL.  Other addresses
    translate as before. *)
Theorem ioremap_maps T cr3 (a : A) m vm_end start size :
  pt_inv T cr3 a m -> range_ok vm_end start size -> vm_end <> 0 ->
  exists ret vm_end' T' a' m', ioremap cr3 vm_end start size a m = Ok (ret, vm_end', a', m') /\
    vm_end' = vm_end + page_bytes size /\ pt_inv T' cr3 a' m' /\ pt_grows T a m T' a' m' /\
    (ret = 0 \/
     ret = vm_end /\ forall va, va48 vm_end <= va48 va < va48 vm_end + size ->
       translate m' cr3 va = Some (start + (va48 va - va48 vm_end))) /\
    (forall va, ~ va48 vm_end <= va48 va < va48 vm_end + page_bytes size ->
       translate m' cr3 va = translate m cr3 va).
Proof.
  intros HT HR Hne. pose proof (page_bytes_bounds size (ro_size _ _ _ HR)) as Hb.
  pose proof (ro_v _ _ _ HR) as Hv. pose proof (ro_size _ _ _ HR) as Hs. change PAGE_SIZE_LARGE with (2 ^ 21) in Hv.
  unfold ioremap. cbv zeta. change PAGE_SIZE_SMALL with (2 ^ 12). rewrite align_up_pow2 by lia.
  replace ((size + 2 ^ 12 - 1) / 2 ^ 12 * 2 ^ 12) with (page_bytes size)
    by (unfold page_bytes; by replace (size + 2 ^ 12 - 1) with (size + 4095) by lia).
  rewrite u64_small by lia.
  destruct (map_range_spec T cr3 a m vm_end start size (Z.lor MMU_PROT_READ MMU_PROT_WRITE) MMU_NOCACHE HT HR)
    as (r & p' & T' & a' & m' & E & [I G B R]). rewrite E. cbn [mbind outcome_bind].
  assert (forall va, ~ va48 vm_end <= va48 va < va48 vm_end + page_bytes size ->
    translate m' cr3 va = translate m cr3 va) as Hout by (intros va Hva; destruct (B va) as [? | [? _]]; done).
  destruct R as [(-> & _ & R) | R].
  - exists vm_end, (vm_end + page_bytes size), T', a', m'. split_and!; try done. right. split; [done |].
    intros va Hva. rewrite R, decide_True by lia. f_equal. lia.
  - exists 0, (vm_end + page_bytes size), T', a', m'. split_and!; try done; [by destruct R as [-> | ->] | by left].
Qed.

End Range.

(** ** The page tables on a concrete machine

    A machine with an empty root table and sixteen free pages: the theorems of
    MmuTheorems applied to it, and a range whose two addresses disagree modulo the
    size of a large page. *)

Definition pt_cr3 : Z := 0x1000.
Definition pt_start : arenas list_tree * mem :=
  memory_add_span_small (KERNEL_VMA + 0x100000) (KERNEL_VMA + 0x110000) empty_arenas ∅.
Definition pt_a : arenas list_tree := fst pt_start.
Definition pt_m : mem := snd pt_start.
Definition pt_T : gmap Z role := {[ pt_cr3 := (4%nat, 0) ]}.

Lemma pt_example_rep :
  pa_rep pt_a pt_m /\ forall x, pa_own pt_a x -> KERNEL_VMA + 0x100000 <= x < KERNEL_VMA + 0x110000.
Proof.
  destruct (arenas_add_small empty_arenas ∅ (KERNEL_VMA + 0x100000) (KERNEL_VMA + 0x110000))
    as (a & m & E & Hr & Ho & _).
  - apply (arenas_rep_new (T := list_tree)).
  - apply seg_ok_range; [done | done | by exists ((KERNEL_VMA + 0x100000) / 4096) |
      by exists ((KERNEL_VMA + 0x110000) / 4096)].
  - intros x _. apply empty_arenas_own.
  - unfold pt_a, pt_m, pt_start. rewrite E. split; [exact Hr |].
    intros x Hx. apply Ho in Hx as [Hx | Hx]; [by apply empty_arenas_own in Hx | done].
Qed.

Lemma pt_example_root i : 0 <= i < 512 -> entry pt_m pt_cr3 i = 0.
Proof.
  intros Hi. assert (forallb (fun i => entry pt_m pt_cr3 (Z.of_nat i) =? 0) (seq 0 512) = true) as Hc
    by (vm_compute; reflexivity).
  rewrite forallb_forall in Hc. specialize (Hc (Z.to_nat i)). rewrite Z2Nat.id in Hc by lia.
  apply Z.eqb_eq, Hc, in_seq. lia.
Qed.

Lemma pt_example_inv : pt_inv pt_T pt_cr3 pt_a pt_m.
Proof.
  destruct pt_example_rep as [Hr Ho]. split.
  - done.
  - intros x Hx. apply Ho in Hx. lia.
  - apply lookup_singleton_eq.
  - intros t l p Ht. unfold pt_T in Ht. apply lookup_singleton_Some in Ht as [<- _]. by left.
  - intros t l p Ht. unfold pt_T in Ht. apply lookup_singleton_Some in Ht as [<- [= <- <-]]. split.
    + lia.
    + done.
    + by exists 1.
    + intros x Hx Hown. apply Ho in Hown. unfold in_table, pt_cr3 in Hx. lia.
    + intros i _ Hi. left. by apply pt_example_root.
Qed.

Lemma mmu_map_small_page_maps_witness :
  exists r a' m', mmu_map_small_page pt_cr3 0x400000 0x200000 MMU_PROT_WRITE MMU_USER_PAGE pt_a pt_m = Ok (r, a', m').
Proof.
  destruct (mmu_map_small_page_maps pt_T pt_cr3 pt_a pt_m 0x400000 0x200000 MMU_PROT_WRITE MMU_USER_PAGE)
    as (r & T' & a' & m' & E & _).
  - exact pt_example_inv.
  - lia.
  - by exists 512.
  - exists r, a', m'. exact E.
Defined.

Lemma mmu_map_large_page_maps_witness :
  exists r a' m', mmu_map_large_page pt_cr3 0x400000 0x200000 MMU_PROT_WRITE MMU_USER_PAGE pt_a pt_m = Ok (r, a', m').
Proof.
  destruct (mmu_map_large_page_maps pt_T pt_cr3 pt_a pt_m 0x400000 0x200000 MMU_PROT_WRITE MMU_USER_PAGE)
    as (r & T' & a' & m' & E & _).
  - exact pt_example_inv.
  - lia.
  - by exists 1.
  - exists r, a', m'. exact E.
Defined.

(** 4 MiB and two small pages, of which 2 MiB are one large page. *)
Lemma pt_example_range : range_ok 0x3ff000 0x1ff000 0x402000.
Proof.
  split; [lia | split; vm_compute; discriminate | vm_compute; discriminate | split; vm_compute; discriminate | | |].
  - by exists 1023.
  - by exists 511.
  - intros _. by exists (-1).
Qed.

Lemma mmu_map_range_maps_witness :
  exists r a' m', mmu_map_range pt_cr3 0x3ff000 0x1ff000 0x402000 MMU_PROT_WRITE 0 pt_a pt_m = Ok (r, a', m').
Proof.
  destruct (mmu_map_range_maps pt_T pt_cr3 pt_a pt_m 0x3ff000 0x1ff000 0x402000 MMU_PROT_WRITE 0)
    as (r & T' & a' & m' & E & _).
  - exact pt_example_inv.
  - exact pt_example_range.
  - exists r, a', m'. exact E.
Defined.

Lemma ioremap_maps_witness :
  exists ret vm_end a' m', ioremap pt_cr3 0x3ff000 0x1ff000 0x402000 pt_a pt_m = Ok (ret, vm_end, a', m').
Proof.
  destruct (ioremap_maps pt_T pt_cr3 pt_a pt_m 0x3ff000 0x1ff000 0x402000) as (ret & vm_end & T' & a' & m' & E & _).
  - exact pt_example_inv.
  - exact pt_example_range.
  - lia.
  - exists ret, vm_end, a', m'. exact E.
Defined.

(** ** Physical addresses that are not aligned *)

Definition range_translates (vaddr paddr size va : Z) : option (Z * option Z) :=
  match mmu_map_range pt_cr3 vaddr paddr size (Z.lor MMU_PROT_READ MMU_PROT_WRITE) 0 pt_a pt_m with
  | Ok (r, _, m') => Some (r, translate m' pt_cr3 va)
  | Fault _ => None
  end.

(** Mmu_map_range reports success for a range whose addresses disagree
    modulo 2 MiB, or whose physical address is not page aligned, although the
    processor then translates its first address to another one than [paddr]: for
    0x400000 -> 0x1000 of 2 MiB to 0, and for 0x400000 -> 0x1800 of one page to
    0x1000. *)
Theorem mmu_map_range_unaligned :
  range_translates 0x400000 0x1000 0x200000 0x400000 = Some (0, Some 0) /\
  range_translates 0x400000 0x1800 0x1000 0x400000 = Some (0, Some 0x1000) /\
  range_translates 0x400000 0x200000 0x200000 0x400000 = Some (0, Some 0x200000).
Proof. split_and!; vm_compute; reflexivity. Qed.
