(* ===== verification/MmuDump.v ===== *)
(** * arch/x86_64/mmu.c: the dump of a translation map

    [mmu_map_dump] as the list of the [printf] calls it makes, and that it shows
    every mapped page with the address it serves. *)

From S2P Require Import Prelude Align Mem PageAlloc PageAllocProof Printf Kmem Mmu MmuProof MmuMap MmuTheorems.
From Stdlib Require Import Strings.String.
#[local] Open Scope Z_scope.

Definition pde_large_format : list Z := line_format "      PDE: %4d %016lx -> %016lx [%lx]".
Definition pde_format : list Z := line_format "      PDE: %d @ %016lx [%lx]".
Definition pte_format : list Z := line_format "      PTE: %4d %016lx -> %016lx [%lx]".
Definition pdpte_format : list Z := line_format "    PDPTE: %d @ %016lx [%lx]".
Definition pml4e_format : list Z := line_format "  PML4E: %d @ %016lx [%lx]".
Definition pml4_format : list Z := line_format "PML4 table: %p".

(** The loops over a table skip the empty entries. *)
Definition for_entries (m : mem) (table : Z) (body : Z -> Z -> list printf_call) : list printf_call :=
  flat_map (fun i => let pe := load64 m (table + 8 * i) in if pe_is_none pe then [] else body i pe)
    (stride 0 1 (Z.to_nat NR_PG_ENTRIES)).

Definition mmu_dump_pde (m : mem) (pml4_idx pdpt_idx pd_idx pde : Z) : list printf_call :=
  if pde_is_large pde then
    [(pde_large_format, [VInt pd_idx; VInt (pg_index_to_vaddr pml4_idx pdpt_idx pd_idx 0);
                         VInt (pde_paddr pde); VInt (pde_flags pde)])]
  else
    (pde_format, [VInt pd_idx; VInt (pde_paddr pde); VInt (pde_flags pde)]) ::
    for_entries m (paddr_to_ptr (pde_paddr pde)) (fun pt_idx pte =>
      [(pte_format, [VInt pd_idx; VInt (pg_index_to_vaddr pml4_idx pdpt_idx pd_idx pt_idx);
                     VInt (pte_paddr pte); VInt (pte_flags pte)])]).

Definition mmu_dump_pdpte (m : mem) (pml4_idx pdpt_idx pdpte : Z) : list printf_call :=
  (pdpte_format, [VInt pdpt_idx; VInt (pdpte_paddr pdpte); VInt (pdpte_flags pdpte)]) ::
  for_entries m (paddr_to_ptr (pdpte_paddr pdpte)) (mmu_dump_pde m pml4_idx pdpt_idx).

Definition mmu_dump_pml4e (m : mem) (pml4_idx pml4e : Z) : list printf_call :=
  (pml4e_format, [VInt pml4_idx; VInt (pml4e_paddr pml4e); VInt (pml4e_flags pml4e)]) ::
  for_entries m (paddr_to_ptr (pml4e_paddr pml4e)) (mmu_dump_pdpte m pml4_idx).

Definition mmu_map_dump (m : mem) (cr3 : Z) : list printf_call :=
  let pml4_table := paddr_to_ptr cr3 in
  (pml4_format, [VInt pml4_table]) :: for_entries m pml4_table (mmu_dump_pml4e m).

(** ** Every page is shown *)

Lemma for_entries_elem m table body i e line :
  0 <= i < 512 -> load64 m (table + 8 * i) = e -> e <> 0 -> line ∈ body i e -> line ∈ for_entries m table body.
Proof.
  intros Hi He Hne Hin. unfold for_entries. apply list_elem_of_In, in_flat_map. exists i. split.
  - apply list_elem_of_In, elem_of_stride. exists (Z.to_nat i). change (Z.to_nat NR_PG_ENTRIES) with 512%nat. lia.
  - rewrite He. unfold pe_is_none. destruct (Z.eqb_spec e 0); [done |]. by apply list_elem_of_In.
Qed.

(** The address of the page with the given indices. *)
Lemma pg_index_to_vaddr_sum i4 i3 i2 i1 :
  0 <= i4 < 512 -> 0 <= i3 < 512 -> 0 <= i2 < 512 -> 0 <= i1 < 512 ->
  pg_index_to_vaddr i4 i3 i2 i1 = (((i4 * 512 + i3) * 512 + i2) * 512 + i1) * 4096.
Proof.
  intros H4 H3 H2 H1. unfold pg_index_to_vaddr, PML4_INDEX_SHIFT, PDPT_INDEX_SHIFT, PD_INDEX_SHIFT, PT_INDEX_SHIFT.
  rewrite !Z.shiftl_mul_pow2, !u64_small by lia.
  rewrite (lor_add_disjoint (i4 * 2 ^ 39) (i3 * 2 ^ 30) 39); [| lia | by apply Z.mod_mul | lia].
  rewrite (lor_add_disjoint _ (i2 * 2 ^ 21) 30); [| lia | | lia].
  2: { replace (i4 * 2 ^ 39 + i3 * 2 ^ 30) with ((i4 * 512 + i3) * 2 ^ 30) by lia. by apply Z.mod_mul. }
  rewrite (lor_add_disjoint _ (i1 * 2 ^ 12) 21); [lia | lia | | lia].
  replace (i4 * 2 ^ 39 + i3 * 2 ^ 30 + i2 * 2 ^ 21) with (((i4 * 512 + i3) * 512 + i2) * 2 ^ 21) by lia.
  by apply Z.mod_mul.
Qed.

Lemma walk_level m va l t n w : hw_walk l m t va = Some (n, w) -> (1 <= n <= l)%nat.
Proof.
  revert t. induction l as [|l IH]; [done |]. intros t. cbn [hw_walk]. destruct (negb _); [done |].
  destruct (_ || _); [intros [= <- <-]; lia | intros Hw%IH; lia].
Qed.

Section Dump.
Context {A : Type} `{PageAllocatorLaws A}.

(** The two upper levels have no leaves. *)
Lemma walk_upper T cr3 (a : A) m t l p va n w :
  pt_inv T cr3 a m -> T !! t = Some (S l, p) -> (2 <= l)%nat -> hw_walk (S l) m t va = Some (n, w) -> (1 <= n <= l)%nat.
Proof.
  intros HT Ht Hl Hw. pose proof (pt_table _ _ _ _ HT _ _ _ Ht) as Hok.
  destruct (to_entry _ _ _ _ _ _ Hok (va_index (S l) va)) as [E0 | [(El & _) | (Hp & Hps & _)]].
  - lia.
  - apply va_index_range.
  - by rewrite walk_absent in Hw.
  - lia.
  - rewrite (walk_down m t (S l) va _ ltac:(lia) eq_refl Hp Hps) in Hw. apply walk_level in Hw. lia.
Qed.

(** A walk that ends below a table passes through an entry of it. *)
Lemma walk_through T cr3 (a : A) m t l va n w :
  pt_inv T cr3 a m -> T !! t = Some (S l, va_prefix (S l) va) -> (1 <= n <= l)%nat ->
  hw_walk (S l) m t va = Some (n, w) ->
  let e := load64 m (paddr_to_ptr t + 8 * va_index (S l) va) in
  e <> 0 /\ Z.testbit e 7 = false /\ T !! pe_paddr e = Some (l, va_prefix l va) /\
  hw_walk l m (pe_paddr e) va = Some (n, w).
Proof.
  intros HT Ht Hn Hw. pose proof (pt_table _ _ _ _ HT _ _ _ Ht) as Hok. cbv zeta.
  rewrite (paddr_to_ptr_table _ _ _ _ _ _ Hok). fold (entry m t (va_index (S l) va)).
  destruct (to_entry _ _ _ _ _ _ Hok (va_index (S l) va)) as [E0 | [(El & Hp & Hps) | (Hp & Hps & Ha & Hc)]].
  - lia.
  - apply va_index_range.
  - rewrite walk_absent in Hw by done. discriminate.
  - cbn [hw_walk] in Hw. rewrite Hp, Hps in Hw. assert (l = 1%nat) as -> by lia.
    injection Hw as <- _. lia.
  - split_and!.
    + intros E0. by rewrite E0 in Hp.
    + done.
    + pose proof (va_prefix_step (S l) va (to_level _ _ _ _ _ _ Hok)) as Hs. rewrite <- Hs in Hc.
      by replace (S l - 1)%nat with l in Hc by lia.
    + rewrite <- Ha. rewrite <- Hw. symmetry. replace l with (S l - 1)%nat at 2 by lia. by apply walk_down; [lia | ..].
Qed.

(** The entry that a walk ends with is in the table. *)
Lemma walk_leaf T cr3 (a : A) m t l p va w :
  pt_inv T cr3 a m -> T !! t = Some (l, p) -> hw_walk l m t va = Some (l, w) ->
  load64 m (paddr_to_ptr t + 8 * va_index l va) = w /\ w <> 0 /\ (l = 1%nat \/ Z.testbit w 7 = true).
Proof.
  intros HT Ht Hw. pose proof (pt_table _ _ _ _ HT _ _ _ Ht) as Hok.
  rewrite (paddr_to_ptr_table _ _ _ _ _ _ Hok). fold (entry m t (va_index l va)).
  destruct l as [|l]; [discriminate |]. cbn [hw_walk] in Hw.
  destruct (Z.testbit (entry m t (va_index (S l) va)) 0) eqn:Ep; [| discriminate]. cbn [negb] in Hw.
  destruct ((l =? 0)%nat || _) eqn:El.
  - injection Hw as <-. split_and!; [done | intros E0; by rewrite E0 in Ep |].
    apply orb_true_iff in El as [El%Nat.eqb_eq | [El _]%andb_true_iff]; [left; lia | by right].
  - apply walk_level in Hw. lia.
Qed.

(** The address of a page from the indices of an address in it. *)
Lemma va48_page va :
  (((va_index 4 va * 512 + va_index 3 va) * 512 + va_index 2 va) * 512 + va_index 1 va) * 4096 = va48 va / 4096 * 4096 /\
  ((va_index 4 va * 512 + va_index 3 va) * 512 + va_index 2 va) * 512 * 4096 = va48 va / 2 ^ 21 * 2 ^ 21.
Proof.
  pose proof (va_prefix_step 4 va ltac:(lia)) as S4. pose proof (va_prefix_step 3 va ltac:(lia)) as S3.
  pose proof (va_prefix_step 2 va ltac:(lia)) as S2. pose proof (va_prefix_step 1 va ltac:(lia)) as S1.
  rewrite va_prefix_4 in S4. cbn [Nat.sub] in *.
  change (va48 va / 4096) with (va_prefix 0 va). change (va48 va / 2 ^ 21) with (va_prefix 1 va).
  rewrite S1, S2, S3, S4. lia.
Qed.

(** Mmu_map_dump shows every mapped page: for each address that the processor
    translates there is a line with the first address of its page, the physical
    address and the flags of the leaf entry. *)
Theorem mmu_map_dump_shows T cr3 (a : A) m va n w :
  pt_inv T cr3 a m -> hw_walk 4 m cr3 va = Some (n, w) ->
  exists format, format ∈ [pte_format; pde_large_format] /\
    (format, [VInt (va_index 2 va); VInt (va48 va / page_size n * page_size n); VInt (pe_paddr w); VInt (pe_flags w)])
      ∈ mmu_map_dump m cr3.
Proof.
  intros HT Hw. destruct (va48_page va) as [Ep1 Ep2].
  pose proof (root_table T cr3 a m va HT) as Ht4. pose proof (walk_upper _ _ _ _ _ _ _ _ _ _ HT Ht4 ltac:(lia) Hw) as Hn3.
  destruct (walk_through _ _ _ _ _ _ _ _ _ HT Ht4 Hn3 Hw) as (N4 & _ & Ht3 & Hw3).
  pose proof (walk_upper _ _ _ _ _ _ _ _ _ _ HT Ht3 ltac:(lia) Hw3) as Hn2.
  destruct (walk_through _ _ _ _ _ _ _ _ _ HT Ht3 Hn2 Hw3) as (N3 & _ & Ht2 & Hw2).
  pose proof (fun i => pg_index_to_vaddr_sum _ _ _ i (va_index_range 4 va) (va_index_range 3 va) (va_index_range 2 va)) as Hsum.
  set (e4 := load64 m (paddr_to_ptr cr3 + 8 * va_index 4 va)) in *.
  set (e3 := load64 m (paddr_to_ptr (pe_paddr e4) + 8 * va_index 3 va)) in *.
  assert (forall line pde, load64 m (paddr_to_ptr (pe_paddr e3) + 8 * va_index 2 va) = pde -> pde <> 0 ->
    line ∈ mmu_dump_pde m (va_index 4 va) (va_index 3 va) (va_index 2 va) pde -> line ∈ mmu_map_dump m cr3) as Hline.
  { intros line pde Ee Ne Hin. apply elem_of_cons. right. eapply for_entries_elem; [apply va_index_range | reflexivity | exact N4 |].
    apply elem_of_cons. right. eapply for_entries_elem; [apply va_index_range | reflexivity | exact N3 |].
    apply elem_of_cons. right. by eapply for_entries_elem; [apply va_index_range | exact Ee | ..]. }
  destruct (decide (n = 2%nat)) as [-> | Hne].
  - destruct (walk_leaf _ _ _ _ _ _ _ _ _ HT Ht2 Hw2) as (El & Nw & [E2 | Ps]); [lia |]. exists pde_large_format. split; [rewrite !elem_of_cons; auto |].
    apply (Hline _ w El Nw). unfold mmu_dump_pde. rewrite pde_is_large_bit, Ps. apply list_elem_of_singleton.
    rewrite Hsum, Z.add_0_r, Ep2 by lia. done.
  - assert (1 <= n <= 1)%nat as Hn1 by lia. destruct (walk_through _ _ _ _ _ _ _ _ _ HT Ht2 Hn1 Hw2) as (N2 & P2 & Ht1 & Hw1).
    assert (n = 1%nat) as -> by lia. destruct (walk_leaf _ _ _ _ _ _ _ _ _ HT Ht1 Hw1) as (El & Nw & _).
    exists pte_format. split; [rewrite !elem_of_cons; auto |]. eapply Hline; [reflexivity | exact N2 |].
    unfold mmu_dump_pde. rewrite pde_is_large_bit, P2. apply elem_of_cons. right.
    eapply for_entries_elem; [apply va_index_range | exact El | exact Nw |].
    apply list_elem_of_singleton. rewrite Hsum, Ep1 by apply va_index_range. done.
Qed.

End Dump.

(** A page of the example machine: it is mapped and the dump shows it. *)
Definition dump_run : option (mem * (nat * Z)) :=
  match mmu_map_small_page pt_cr3 0x400000 0x200000 MMU_PROT_WRITE MMU_USER_PAGE pt_a pt_m with
  | Ok (_, _, m) => match hw_walk 4 m pt_cr3 0x400123 with Some w => Some (m, w) | None => None end
  | Fault _ => None
  end.

Lemma dump_run_some : exists m n w, dump_run = Some (m, (n, w)).
Proof.
  assert (match dump_run with Some _ => true | None => false end = true) as Hd by (vm_compute; reflexivity).
  destruct dump_run as [[m [n w]] |]; [by exists m, n, w | discriminate].
Qed.

Lemma mmu_map_dump_shows_witness :
  exists m n w format, hw_walk 4 m pt_cr3 0x400123 = Some (n, w) /\
    (format, [VInt (va_index 2 0x400123); VInt (va48 0x400123 / page_size n * page_size n);
              VInt (pe_paddr w); VInt (pe_flags w)]) ∈ mmu_map_dump m pt_cr3.
Proof.
  destruct (map_small_spec pt_T pt_cr3 pt_a pt_m 0x400000 0x200000 MMU_PROT_WRITE MMU_USER_PAGE)
    as (r & T' & a' & m' & E & HT & _); [exact pt_example_inv | lia | by exists 512 |].
  destruct dump_run_some as (m & n & w & Hd). unfold dump_run in Hd. rewrite E in Hd.
  destruct (hw_walk 4 m' pt_cr3 0x400123) as [[n' w'] |] eqn:Hw; [| discriminate]. injection Hd as -> -> ->.
  destruct (mmu_map_dump_shows T' pt_cr3 a' m 0x400123 n w HT Hw) as (format & _ & Hin).
  exists m, n, w, format. exact (conj Hw Hin).
Defined.
