(* ===== verification/Malloc.v ===== *)
(** * usr/liblinux/src/malloc.c: the user space allocator

    Segments of 2 MiB from the operating system, divided in 32 pages of 64 KiB,
    divided in blocks of one size.  The free blocks of a page are a singly linked
    list in the blocks themselves.  All structures live in byte-addressed memory
    at the offsets of the x86-64 ABI.  The operating system is the class
    [VmSpace]. *)

From S2P Require Import Prelude Mem Align.

Definition MIN_OBJ_SIZE_SHIFT : Z := 3.
Definition MIN_OBJ_SIZE : Z := Z.shiftl 1 MIN_OBJ_SIZE_SHIFT.
Definition MIN_OBJ_SIZE_MASK : Z := MIN_OBJ_SIZE - 1.
Definition MALLOC_SEGMENT_SIZE : Z := Z.shiftl 1 21.
Definition MALLOC_PAGE_SIZE : Z := Z.shiftl 1 16.
Definition SMALL_OBJ_SIZE_MAX : Z := Z.shiftl 1 10.
Definition NUM_SIZE_CLASSES : Z := Z.shiftr (SMALL_OBJ_SIZE_MAX + 7) MIN_OBJ_SIZE_SHIFT.

(** [struct malloc_block] *)
Definition block_next (b : Z) : Z := b.

(** [struct malloc_page] *)
Definition page_free (p : Z) : Z := p.
Definition page_used (p : Z) : Z := p + 8.
Definition page_capacity (p : Z) : Z := p + 16.
Definition page_block_size (p : Z) : Z := p + 24.
Definition page_idx (p : Z) : Z := p + 32.
Definition sizeof_malloc_page : Z := 40.

(** [struct malloc_segment] *)
Definition segment_prev (s : Z) : Z := s.
Definition segment_next (s : Z) : Z := s + 8.
Definition segment_nr_pages (s : Z) : Z := s + 16.
Definition segment_page (s i : Z) : Z := s + 24 + sizeof_malloc_page * i.
Definition sizeof_malloc_segment : Z := 24.

(** [struct malloc_segment_queue] *)
Definition queue_head (q : Z) : Z := q.
Definition queue_tail (q : Z) : Z := q + 8.

(** [struct malloc_heap] *)
Definition heap_page (h c : Z) : Z := h + 8 * c.
Definition heap_segment_queue (h : Z) : Z := h + 8 * NUM_SIZE_CLASSES.

(** ** Sizes *)

Definition to_block_size (obj_size : Z) : Z :=
  Z.land (u64 (obj_size + MIN_OBJ_SIZE_MASK)) (u64 (Z.lnot MIN_OBJ_SIZE_MASK)).

Definition to_size_class (obj_size : Z) : Z := to_block_size obj_size / MIN_OBJ_SIZE.

(** ** Pages *)

Definition malloc_block_to_obj (block : Z) : Z := block.
Definition malloc_obj_to_block (obj : Z) : Z := obj.

Definition malloc_page_remaining (m : mem) (page : Z) : Z :=
  u64 (load64 m (page_capacity page) - load64 m (page_used page)).

Definition malloc_obj_to_page (segment obj : Z) : Z :=
  let idx := (obj - segment) / MALLOC_PAGE_SIZE in
  segment_page segment idx.

Definition malloc_page_append_obj (m : mem) (page obj : Z) : mem :=
  let block := malloc_obj_to_block obj in
  let m := store64 m (block_next block) (load64 m (page_free page)) in
  store64 m (page_free page) block.

Definition malloc_page_alloc_obj (m : mem) (page : Z) : Z * mem :=
  let block := load64 m (page_free page) in
  if negb (block =? 0) then
    let m := store64 m (page_free page) (load64 m (block_next block)) in
    let m := store64 m (page_used page) (load64 m (page_used page) + 1) in
    (malloc_block_to_obj block, m)
  else (0, m).

Definition malloc_page_full (m : mem) (page : Z) : outcome bool :=
  nonnull! page ;;
  Ok (load64 m (page_free page) =? 0).

(** ** Segments *)

Definition malloc_obj_to_segment (obj : Z) : Z := obj - obj mod MALLOC_SEGMENT_SIZE.

Definition malloc_segment_metadata_size (m : mem) (segment : Z) : Z :=
  u64 (sizeof_malloc_segment + sizeof_malloc_page * load64 m (segment_nr_pages segment)).

Definition malloc_segment_page_obj (m : mem) (segment page : Z) : Z :=
  let segment_start := segment in
  if load8 m (page_idx page) =? 0 then segment_start + malloc_segment_metadata_size m segment
  else segment_start + load8 m (page_idx page) * MALLOC_PAGE_SIZE.

Definition malloc_segment_page_size (m : mem) (segment page : Z) : Z :=
  if load8 m (page_idx page) =? 0 then u64 (MALLOC_PAGE_SIZE - malloc_segment_metadata_size m segment)
  else MALLOC_PAGE_SIZE.

Fixpoint malloc_segment_init_loop (fuel : nat) (segment page_idx' : Z) (m : mem) : outcome mem :=
  if page_idx' <? load64 m (segment_nr_pages segment) then
    match fuel with
    | O => Fault OutOfFuel
    | S fuel =>
        let page := segment_page segment page_idx' in
        malloc_segment_init_loop fuel segment (page_idx' + 1) (store8 m (page_idx page) page_idx')
    end
  else Ok m.

Definition malloc_segment_init (segment segment_size : Z) (m : mem) : outcome mem :=
  let m := store64 m (segment_prev segment) 0 in
  let m := store64 m (segment_next segment) 0 in
  let m := store64 m (segment_nr_pages segment) (segment_size / MALLOC_PAGE_SIZE) in
  malloc_segment_init_loop (Z.to_nat (segment_size / MALLOC_PAGE_SIZE)) segment 0 m.

(** ** The queue of segments *)

Definition malloc_segment_queue_head (m : mem) (queue : Z) : Z := load64 m (queue_head queue).

Definition malloc_segment_queue_remove (m : mem) (queue segment : Z) : mem :=
  let m := if segment =? load64 m (queue_head queue)
           then store64 m (queue_head queue) (load64 m (segment_next segment)) else m in
  let m := if segment =? load64 m (queue_tail queue)
           then store64 m (queue_tail queue) (load64 m (segment_prev segment)) else m in
  let m := if negb (load64 m (segment_prev segment) =? 0) then
             let m := store64 m (segment_next (load64 m (segment_prev segment))) (load64 m (segment_next segment)) in
             store64 m (segment_prev segment) 0
           else m in
  if negb (load64 m (segment_next segment) =? 0) then
    let m := store64 m (segment_prev (load64 m (segment_next segment))) (load64 m (segment_prev segment)) in
    store64 m (segment_next segment) 0
  else m.

Definition malloc_segment_queue_pop (m : mem) (queue : Z) : mem :=
  if negb (load64 m (queue_head queue) =? 0)
  then malloc_segment_queue_remove m queue (load64 m (queue_head queue)) else m.

Definition malloc_segment_queue_enqueue (m : mem) (queue segment : Z) : mem :=
  let m := store64 m (segment_prev segment) (load64 m (queue_tail queue)) in
  let m := store64 m (segment_next segment) 0 in
  if negb (load64 m (queue_tail queue) =? 0) then
    let m := store64 m (segment_next (load64 m (queue_tail queue))) segment in
    store64 m (queue_tail queue) segment
  else
    let m := store64 m (queue_tail queue) segment in
    store64 m (queue_head queue) segment.

(** ** Claiming a page *)

Fixpoint malloc_claim_loop (fuel : nat) (page obj block_size idx : Z) (m : mem) : outcome mem :=
  if idx <? load64 m (page_capacity page) then
    match fuel with
    | O => Fault OutOfFuel
    | S fuel =>
        malloc_claim_loop fuel page obj block_size (idx + 1)
          (malloc_page_append_obj m page (obj + (load64 m (page_capacity page) - idx - 1) * block_size))
    end
  else Ok m.

Definition malloc_segment_claim_page (segment page block_size : Z) (m : mem) : outcome mem :=
  assert! (load64 m (page_block_size page) =? 0) ;;
  let m := store64 m (page_block_size page) block_size in
  let m := store64 m (page_used page) 0 in
  if block_size =? 0 then Fault DivByZero
  else
    let m := store64 m (page_capacity page) (malloc_segment_page_size m segment page / block_size) in
    let obj := malloc_segment_page_obj m segment page in
    malloc_claim_loop (Z.to_nat (load64 m (page_capacity page))) page obj block_size 0 m.

(** ** The operating system *)

(** [vmspace_alloc]: the result and, if it is 0, the start of the region. *)
Class VmSpace (V : Type) := {
  vmspace_alloc : Z -> Z -> V -> mem -> Z * Z * V * mem
}.

Section Heap.
Context {V : Type} `{VmSpace V}.

Definition malloc_os_alloc (size align : Z) (o : V) (m : mem) : outcome (Z * V * mem) :=
  let '(ret, start, o, m) := vmspace_alloc MALLOC_SEGMENT_SIZE MALLOC_SEGMENT_SIZE o m in
  if negb (ret =? 0) then Ok (0, o, m)
  else
    assert! (start mod MALLOC_SEGMENT_SIZE =? 0) ;;
    Ok (start, o, m).

Definition malloc_heap_alloc_segment (o : V) (m : mem) : outcome (Z * V * mem) :=
  '(p, o, m) ← malloc_os_alloc MALLOC_SEGMENT_SIZE MALLOC_SEGMENT_SIZE o m;
  if p =? 0 then Ok (0, o, m)
  else
    m ← malloc_segment_init p MALLOC_SEGMENT_SIZE m;
    Ok (p, o, m).

(** The loop over the pages of a segment: the page with a free block, or 0. *)
Fixpoint malloc_find_page (fuel : nat) (segment block_size i : Z) (m : mem) : outcome (Z * mem) :=
  if i <? load64 m (segment_nr_pages segment) then
    match fuel with
    | O => Fault OutOfFuel
    | S fuel =>
        let page := segment_page segment i in
        '(skip, m) ←
          (if load64 m (page_block_size page) =? 0 then
             m ← malloc_segment_claim_page segment page block_size m; Ok (false, m)
           else Ok (negb (load64 m (page_block_size page) =? block_size), m));
        if (skip : bool) then malloc_find_page fuel segment block_size (i + 1) m
        else if negb (malloc_page_remaining m page =? 0) then Ok (page, m)
        else malloc_find_page fuel segment block_size (i + 1) m
    end
  else Ok (0, m).

(** The body of [retry] as a loop: a segment of the queue or a new one. *)
Fixpoint malloc_heap_alloc_page (fuel : nat) (heap size : Z) (o : V) (m : mem) : outcome (Z * V * mem) :=
  match fuel with
  | O => Fault OutOfFuel
  | S fuel =>
      let queue := heap_segment_queue heap in
      let segment := malloc_segment_queue_head m queue in
      '(segment, o, m) ←
        (if segment =? 0 then
           '(segment, o, m) ← malloc_heap_alloc_segment o m;
           Ok (segment, o, if segment =? 0 then m else malloc_segment_queue_enqueue m queue segment)
         else Ok (segment, o, m));
      if segment =? 0 then Ok (0, o, m)
      else
        let block_size := to_block_size size in
        '(page, m) ← malloc_find_page (Z.to_nat (load64 m (segment_nr_pages segment))) segment block_size 0 m;
        if negb (page =? 0) then Ok (page, o, m)
        else malloc_heap_alloc_page fuel heap size o (malloc_segment_queue_pop m queue)
  end.

Definition malloc_heap_get_page (fuel : nat) (heap size : Z) (o : V) (m : mem) : outcome (Z * V * mem) :=
  let size_class := to_size_class size in
  let page := load64 m (heap_page heap size_class) in
  full ← malloc_page_full m page;
  if negb full then Ok (page, o, m)
  else
    '(page, o, m) ← malloc_heap_alloc_page fuel heap size o m;
    Ok (page, o, if negb (page =? 0) then store64 m (heap_page heap size_class) page else m).

Definition malloc_heap_alloc_small (fuel : nat) (heap size : Z) (o : V) (m : mem) : outcome (Z * V * mem) :=
  let size := if size =? 0 then 8 else size in
  '(page, o, m) ← malloc_heap_get_page fuel heap size o m;
  if page =? 0 then Ok (0, o, m)
  else
    let '(obj, m) := malloc_page_alloc_obj m page in
    Ok (obj, o, m).

Definition malloc_heap_alloc (fuel : nat) (heap size : Z) (o : V) (m : mem) : outcome (Z * V * mem) :=
  if size <? SMALL_OBJ_SIZE_MAX then malloc_heap_alloc_small fuel heap size o m
  else Ok (0, o, m).

End Heap.

Definition malloc_heap_free (ptr : Z) (m : mem) : outcome mem :=
  let segment := malloc_obj_to_segment ptr in
  let page := malloc_obj_to_page segment ptr in
  let m := malloc_page_append_obj m page ptr in
  assert! (0 <? load64 m (page_used page)) ;;
  Ok (store64 m (page_used page) (load64 m (page_used page) - 1)).

(** The addresses of the two static objects. *)
Section Statics.
Context (malloc_default_heap empty_page : Z).

Definition malloc `{VmSpace V} (fuel : nat) (size : Z) (o : V) (m : mem) : outcome (Z * V * mem) :=
  malloc_heap_alloc fuel malloc_default_heap size o m.

Definition free (ptr : Z) (m : mem) : outcome mem :=
  if ptr =? 0 then Ok m else malloc_heap_free ptr m.

Fixpoint malloc_heap_init_loop (n : nat) (heap idx : Z) (m : mem) : mem :=
  match n with
  | O => m
  | S n => malloc_heap_init_loop n heap (idx + 1) (store64 m (heap_page heap idx) empty_page)
  end.

Definition malloc_heap_init (heap : Z) (m : mem) : mem :=
  malloc_heap_init_loop (Z.to_nat NUM_SIZE_CLASSES) heap 0 m.

Definition __liblinux_malloc_init (m : mem) : mem := malloc_heap_init malloc_default_heap m.

End Statics.
