(* ===== verification/MallocProof.v ===== *)
(** * The layout and the pages of the user space allocator

    The state of one page of a segment: its block size and the list of its free
    blocks.  [pinv] relates it to memory; the page operations are specified by
    their effect on that state. *)

From S2P Require Import Prelude Mem Align Malloc.

(** ** Layout of a segment *)

Definition seg_size : Z := 2 ^ 21.
Definition pg_size : Z := 2 ^ 16.
Definition meta_size : Z := 24 + 40 * 32.

(** A segment: its address range does not wrap. *)
Definition seg_at (s : Z) : Prop := 0 < s /\ (seg_size | s) /\ s + seg_size < 2 ^ 64.
Definition in_seg (s x : Z) : Prop := s <= x < s + seg_size.

(** The blocks of page [i] start at [area_lo] and end before [area_hi]. *)
Definition area_lo (s i : Z) : Z := if i =? 0 then s + meta_size else s + i * pg_size.
Definition area_hi (s i : Z) : Z := s + (i + 1) * pg_size.
Definition in_area (s i x : Z) : Prop := area_lo s i <= x < area_hi s i.
Definition in_struct (s i x : Z) : Prop := segment_page s i <= x < segment_page s i + 40.

Definition cap (i bs : Z) : Z := (area_hi 0 i - area_lo 0 i) / bs.
Definition block (s i bs k : Z) : Z := area_lo s i + k * bs.
Definition is_block (s i bs b : Z) : Prop := exists k, 0 <= k < cap i bs /\ b = block s i bs k.

(** Block sizes of the size classes that the heap has. *)
Definition bs_ok (bs : Z) : Prop := (8 | bs) /\ 8 <= bs <= 1016.

Ltac layout :=
  unfold in_area, in_struct, in_seg, area_lo, area_hi, segment_page, meta_size, pg_size, seg_size, sizeof_malloc_page in *.

Lemma area_width s i : 0 <= i -> area_hi s i - area_lo s i = area_hi 0 i - area_lo 0 i.
Proof. intros Hi. layout. destruct (i =? 0); lia. Qed.

Lemma area_bounds s i : 0 <= i < 32 -> s + meta_size <= area_lo s i /\ area_lo s i + 60000 < area_hi s i <= s + seg_size.
Proof. intros Hi. layout. destruct (Z.eqb_spec i 0); lia. Qed.

Lemma cap_pos i bs : 0 <= i < 32 -> bs_ok bs -> 1 <= cap i bs <= 2 ^ 13 /\ cap i bs * bs <= area_hi 0 i - area_lo 0 i.
Proof.
  intros Hi [_ Hb]. unfold cap. pose proof (area_bounds 0 i Hi) as Ha.
  assert (area_hi 0 i - area_lo 0 i <= 2 ^ 16) by (layout; destruct (Z.eqb_spec i 0); lia).
  set (w := area_hi 0 i - area_lo 0 i) in *. split; [split |].
  - apply Z.div_le_lower_bound; lia.
  - apply Z.div_le_upper_bound; lia.
  - pose proof (Z.mul_div_le w bs). lia.
Qed.

(** A block lies in the area of its page. *)
Lemma block_bounds s i bs b :
  0 <= i < 32 -> bs_ok bs -> is_block s i bs b -> area_lo s i <= b /\ b + bs <= area_hi s i.
Proof.
  intros Hi Hb (k & Hk & ->). destruct (cap_pos i bs Hi Hb) as [_ Hc]. destruct Hb as [_ Hb].
  pose proof (area_width s i ltac:(lia)). unfold block. nia.
Qed.

Lemma blocks_disjoint s i bs b b' x :
  bs_ok bs -> is_block s i bs b -> is_block s i bs b' -> b <= x < b + bs -> b' <= x < b' + bs -> b = b'.
Proof.
  intros [_ Hb] (k & _ & ->) (k' & _ & ->) Hx Hx'. unfold block in *.
  assert (k = k') as ->; [| done].
  destruct (Z.le_ge_cases k k') as [Hk | Hk];
    [symmetry; pose proof (Z.mul_le_mono_nonneg_r k k' bs) | pose proof (Z.mul_le_mono_nonneg_r k' k bs)];
    apply (mul_squeeze _ _ bs); lia.
Qed.

Lemma block_aligned s i bs b : seg_at s -> 0 <= i < 32 -> bs_ok bs -> is_block s i bs b -> (8 | b) /\ 0 < b.
Proof.
  intros (Hs & [q Hq] & _) Hi [[q' Hq'] Hb] (k & Hk & ->). pose proof (area_bounds s i Hi). split.
  - unfold block. apply Z.divide_add_r; [| apply Z.divide_mul_r; by exists q'].
    layout. destruct (i =? 0); [exists (q * 2 ^ 18 + 163) | exists (q * 2 ^ 18 + i * 2 ^ 13)]; lia.
  - unfold block. unfold meta_size in *. nia.
Qed.

(** All blocks of a page, in the order of their addresses. *)
Definition blocks (s i bs : Z) : list Z := stride (area_lo s i) bs (Z.to_nat (cap i bs)).

Lemma elem_of_blocks s i bs b : b ∈ blocks s i bs <-> is_block s i bs b.
Proof.
  unfold blocks, is_block, block. rewrite elem_of_stride. split.
  - intros (k & Hk & ->). exists (Z.of_nat k). lia.
  - intros (k & Hk & ->). exists (Z.to_nat k). rewrite Z2Nat.id by lia. lia.
Qed.

Lemma length_blocks s i bs : 0 <= i < 32 -> bs_ok bs -> Z.of_nat (length (blocks s i bs)) = cap i bs.
Proof. intros Hi Hb. unfold blocks. rewrite length_stride. pose proof (cap_pos i bs Hi Hb). lia. Qed.

Lemma blocks_length_le s i bs l :
  0 <= i < 32 -> bs_ok bs -> NoDup l -> (forall b, b ∈ l -> is_block s i bs b) -> Z.of_nat (length l) <= cap i bs.
Proof.
  intros Hi Hb Hn Hl. rewrite <- (length_blocks s i bs Hi Hb).
  apply inj_le, submseteq_length, NoDup_submseteq; [done |]. intros b Hin. apply elem_of_blocks. auto.
Qed.

(** ** The state of a page *)

(** The block size, 0 for a page that is not claimed, and the free blocks. *)
Record pst := Pst { p_bs : Z; p_free : list Z }.

(** A chain of free blocks that ends with NULL. *)
Fixpoint chain (m : mem) (p : Z) (l : list Z) : Prop :=
  match l with
  | [] => p = 0
  | b :: l => p = b /\ chain m (load64 m b) l
  end.

Record pinv (m : mem) (s i : Z) (st : pst) : Prop := {
  pi_idx : load8 m (page_idx (segment_page s i)) = i;
  pi_bs : load64 m (page_block_size (segment_page s i)) = p_bs st;
  pi_unclaimed : p_bs st = 0 -> load64 m (page_free (segment_page s i)) = 0 /\ p_free st = [];
  pi_claimed : p_bs st <> 0 ->
    bs_ok (p_bs st) /\
    load64 m (page_capacity (segment_page s i)) = cap i (p_bs st) /\
    load64 m (page_used (segment_page s i)) = cap i (p_bs st) - Z.of_nat (length (p_free st)) /\
    chain m (load64 m (page_free (segment_page s i))) (p_free st) /\
    NoDup (p_free st) /\ (forall b, b ∈ p_free st -> is_block s i (p_bs st) b)
}.

(** The bytes a page needs: its structure and its free blocks. *)
Definition page_own (s i : Z) (st : pst) (x : Z) : Prop :=
  in_struct s i x \/ exists b, b ∈ p_free st /\ b <= x < b + 8.

Lemma chain_ext m m' p l :
  (forall b x, b ∈ l -> b <= x < b + 8 -> load8 m' x = load8 m x) -> chain m p l -> chain m' p l.
Proof.
  revert p. induction l as [|b l IH]; intros p Hm; [done |]. cbn [chain]. intros [-> Hc]. split; [done |].
  unfold load64. rewrite (load_ext 8 m m') by (intros x Hx; apply (Hm b); [by left | done]).
  apply IH; [| done]. intros b' x Hb'. apply Hm. by right.
Qed.

Lemma pinv_ext m m' s i st :
  pinv m s i st -> (forall x, page_own s i st x -> load8 m' x = load8 m x) -> pinv m' s i st.
Proof.
  intros [P1 P2 P3 P4] Hm.
  assert (forall o, 0 <= o <= 32 -> load64 m' (segment_page s i + o) = load64 m (segment_page s i + o)) as Hf.
  { intros o Ho. apply load_ext. intros x Hx. simpl in Hx. apply Hm. left. unfold in_struct. lia. }
  pose proof (Hf 0 ltac:(lia)) as F0. pose proof (Hf 8 ltac:(lia)) as F1. pose proof (Hf 16 ltac:(lia)) as F2.
  pose proof (Hf 24 ltac:(lia)) as F3. rewrite Z.add_0_r in F0.
  unfold page_free, page_used, page_capacity, page_block_size, page_idx in *.
  split; unfold page_free, page_used, page_capacity, page_block_size, page_idx; rewrite ?F0, ?F1, ?F2, ?F3; try done.
  - rewrite Hm; [done |]. left. unfold in_struct. lia.
  - intros Hb. destruct (P4 Hb) as (Q1 & Q2 & Q3 & Q4 & Q5 & Q6). split_and!; try done.
    apply (chain_ext m); [| done]. intros b x Hin Hx. apply Hm. right. by exists b.
Qed.

(** Free blocks are not live and lie in the area. *)
Lemma page_own_bounds m s i st x : 0 <= i < 32 -> pinv m s i st -> page_own s i st x -> in_struct s i x \/ in_area s i x.
Proof.
  intros Hi HP [? | (b & Hb & Hx)]; [by left | right].
  destruct (decide (p_bs st = 0)) as [E |].
  - destruct (pi_unclaimed _ _ _ _ HP E) as [_ En]. rewrite En in Hb. by apply not_elem_of_nil in Hb.
  - destruct (pi_claimed _ _ _ _ HP) as (Hbs & _ & _ & _ & _ & Hbl); [done |].
    destruct (block_bounds s i (p_bs st) b Hi Hbs (Hbl b Hb)). destruct Hbs. unfold in_area. lia.
Qed.

(** ** Page operations *)

Section Page.
Context (s i : Z) (Hs : seg_at s) (Hi : 0 <= i < 32).
#[local] Set Default Proof Using "All".
Let page := segment_page s i.

Lemma struct_apart : s + 24 <= page /\ page + 40 <= s + meta_size /\ 0 < page /\ page + 40 < 2 ^ 64.
Proof. unfold page. destruct Hs as (? & _ & ?). layout. lia. Qed.

Lemma block_not_struct bs b : bs_ok bs -> is_block s i bs b -> page + 40 <= b /\ b + bs <= s + seg_size.
Proof.
  intros Hb Hbl. destruct (block_bounds s i bs b Hi Hb Hbl). destruct (area_bounds s i Hi).
  pose proof struct_apart. lia.
Qed.

Lemma free_blocks_apart m m' st l :
  bs_ok (p_bs st) -> (forall b, b ∈ l -> is_block s i (p_bs st) b) -> changes (in_struct s i) m m' ->
  forall p, chain m p l -> chain m' p l.
Proof.
  intros Hb Hl Hc p. apply chain_ext. intros b x Hin Hx. apply Hc.
  destruct (block_not_struct _ b Hb (Hl b Hin)). unfold in_struct. fold page. lia.
Qed.

(** [malloc_page_alloc_obj] takes the first free block. *)
Lemma page_alloc_obj_spec m bs b fr :
  bs <> 0 -> pinv m s i (Pst bs (b :: fr)) ->
  exists m', malloc_page_alloc_obj m page = (b, m') /\ pinv m' s i (Pst bs fr) /\
    changes (in_struct s i) m m'.
Proof.
  intros Hbs HP. destruct (pi_claimed _ _ _ _ HP Hbs) as (Q1 & Q2 & Q3 & [Ef Hch] & Q5 & Q6). cbn [p_bs p_free] in *.
  pose proof struct_apart as Hst. fold page in Q2, Q3, Ef.
  assert (is_block s i bs b) as Hb by (apply Q6; by left).
  destruct (block_not_struct bs b Q1 Hb) as [Hb1 Hb2]. destruct (block_aligned s i bs b Hs Hi Q1 Hb) as [_ Hb0].
  unfold malloc_page_alloc_obj. rewrite Ef. destruct (Z.eqb_spec b 0); [lia |]. cbn [negb].
  eexists. split; [done |]. set (m' := store64 _ (page_used page) _).
  assert (changes (in_struct s i) m m') as Hc.
  { eapply changes_trans; [eapply changes_store |]; [| apply changes_store];
      intros x Hx; unfold page_free, page_used in Hx; simpl in Hx; unfold in_struct; fold page; lia. }
  split; [| done]. pose proof (load64_range m b) as Hr. pose proof (cap_pos i bs Hi Q1) as [Hcap _].
  assert (Z.of_nat (length (b :: fr)) <= cap i bs) as Hlen by (by apply (blocks_length_le s)).
  apply NoDup_cons in Q5 as [Hnin Hnd]. cbn [length] in Hlen, Q3.
  assert (forall x, b ∈ fr \/ x ∈ fr -> is_block s i bs x) as Hfr by (intros x [?|?]; [done | apply Q6; by right]).
  destruct HP as [P1 P2 _ _]. fold page in P1, P2.
  split; cbn [p_bs p_free]; fold page; [| | done |]; unfold page_free, page_used, page_capacity, page_block_size, page_idx, block_next in *.
  - unfold m', store64. by rewrite !load8_store_out by (simpl; lia).
  - unfold m'. mem_simpl. exact P2.
  - intros _. split_and!; [done | | | | done | intros x Hx; apply Hfr; by right].
    + unfold m'. mem_simpl. exact Q2.
    + unfold m'. mem_simpl. change (load 8 m (page + 8)) with (load64 m (page + 8)). rewrite Q3, Z.mod_small; lia.
    + assert (load64 m' page = load64 m b) as ->.
      { unfold m'. mem_simpl. by rewrite Z.mod_small. }
      apply (free_blocks_apart m m' (Pst bs fr)); [done | intros x Hx; apply Hfr; by right | done | done].
Qed.

(** [malloc_page_append_obj] puts a block in front of the free list. *)
Lemma page_append_obj_spec m bs b fr :
  bs_ok bs -> is_block s i bs b -> (forall b', b' ∈ fr -> is_block s i bs b') -> b ∉ fr ->
  chain m (load64 m (page_free page)) fr ->
  let m' := malloc_page_append_obj m page b in
  load64 m' (page_free page) = b /\ chain m' b (b :: fr) /\
  changes (fun x => page <= x < page + 8 \/ b <= x < b + 8) m m'.
Proof.
  intros Hbs Hb Hfr Hnin Hch m'. pose proof struct_apart as Hst. destruct Hs as (_ & _ & Hs64).
  destruct (block_not_struct bs b Hbs Hb) as [Hb1 Hb2]. destruct (block_aligned s i bs b Hs Hi Hbs Hb) as [_ Hb0].
  pose proof (load64_range m (page_free page)) as Hr. destruct Hbs as [Hb8 Hbb].
  assert (changes (fun x => page <= x < page + 8 \/ b <= x < b + 8) m m') as Hc.
  { eapply changes_trans; [eapply changes_store |]; [| apply changes_store];
      unfold block_next, malloc_obj_to_block, page_free; intros x Hx; simpl in Hx; lia. }
  split_and!; [| | done].
  - unfold m', malloc_page_append_obj, page_free, malloc_obj_to_block. mem_simpl. apply Z.mod_small. lia.
  - split; [done |]. assert (load64 m' b = load64 m (page_free page)) as ->.
    { unfold m', malloc_page_append_obj, page_free, malloc_obj_to_block, block_next in *. mem_simpl.
      by apply Z.mod_small. }
    revert Hch. apply chain_ext. intros b' x Hin Hx. apply Hc.
    destruct (block_not_struct bs b' (conj Hb8 Hbb) (Hfr b' Hin)) as [Hb1' Hb2'].
    intros [? | Hx']; [lia |]. apply Hnin.
    by rewrite (blocks_disjoint s i bs b b' x (conj Hb8 Hbb) Hb (Hfr b' Hin) ltac:(lia) ltac:(lia)).
Qed.

(** The end of [malloc_heap_free] for a block that is in use. *)
Lemma page_free_obj_spec m bs b fr :
  bs <> 0 -> pinv m s i (Pst bs fr) -> is_block s i bs b -> b ∉ fr ->
  let m1 := malloc_page_append_obj m page b in
  0 < load64 m1 (page_used page) /\
  let m' := store64 m1 (page_used page) (load64 m1 (page_used page) - 1) in
  pinv m' s i (Pst bs (b :: fr)) /\ changes (fun x => in_struct s i x \/ b <= x < b + 8) m m'.
Proof.
  intros Hbs HP Hb Hnin m1. destruct (pi_claimed _ _ _ _ HP Hbs) as (Q1 & Q2 & Q3 & Q4 & Q5 & Q6). cbn [p_bs p_free] in *.
  destruct (page_append_obj_spec m bs b fr Q1 Hb Q6 Hnin Q4) as (A1 & A2 & A3). fold m1 in A1, A2, A3.
  pose proof struct_apart as Hst. destruct (block_not_struct bs b Q1 Hb) as [Hb1 Hb2].
  assert (Z.of_nat (length (b :: fr)) <= cap i bs) as Hlen.
  { apply (blocks_length_le s); [done | done | by constructor |]. intros b' [-> | ?]%elem_of_cons; auto. }
  cbn [length] in Hlen. pose proof (cap_pos i bs Hi Q1) as [Hcap _]. fold page in Q2, Q3.
  assert (forall o, 8 <= o <= 24 -> load64 m1 (page + o) = load64 m (page + o)) as Hf.
  { intros o Ho. apply (load_changes 8 _ _ _ _ A3). intros x Hx. simpl in Hx. destruct Q1. lia. }
  assert (load8 m1 (page + 32) = load8 m (page + 32)) as H32 by (apply A3; destruct Q1; lia).
  assert (load64 m1 (page_used page) = cap i bs - Z.of_nat (length fr)) as Eu.
  { unfold page_used in *. by rewrite Hf by lia. }
  split; [lia |]. cbv zeta. set (m' := store64 m1 _ _).
  assert (changes (fun x => in_struct s i x \/ b <= x < b + 8) m m') as Hc.
  { eapply changes_trans; [eapply changes_mono; [| exact A3] | apply changes_store];
      unfold in_struct, page_used; fold page; intros x Hx; simpl in Hx; lia. }
  split; [| done]. destruct HP as [P1 P2 _ _]. fold page in P1, P2. destruct Q1 as [Hb8 Hbb].
  unfold page_free, page_used, page_capacity, page_block_size, page_idx in *.
  split; cbn [p_bs p_free length]; fold page; unfold page_free, page_used, page_capacity, page_block_size, page_idx; [| | done |].
  - unfold m', store64. rewrite load8_store_out by (simpl; lia). by rewrite H32.
  - unfold m'. rewrite load64_store64_ne by lia. by rewrite Hf by lia.
  - intros _. split_and!.
    + done.
    + unfold m'. rewrite load64_store64_ne by lia. by rewrite Hf by lia.
    + unfold m'. rewrite load64_store64_eq, Eu, u64_small by lia. lia.
    + unfold m' at 2. rewrite load64_store64_ne by lia. rewrite A1.
      revert A2. apply (free_blocks_apart m1 m' (Pst bs fr)); cbn [p_bs]; [done | |].
      * intros b' [-> | ?]%elem_of_cons; auto.
      * apply changes_store. unfold in_struct. fold page. intros x Hx. simpl in Hx. lia.
    + by constructor.
    + intros b' [-> | ?]%elem_of_cons; auto.
Qed.

(** The loop of [malloc_segment_claim_page]: the last [k] blocks are linked. *)
Lemma claim_loop_spec bs fuel k m :
  bs_ok bs -> 0 <= k -> Z.of_nat fuel = cap i bs - k ->
  load64 m (page_capacity page) = cap i bs ->
  chain m (load64 m (page_free page)) (stride (block s i bs (cap i bs - k)) bs (Z.to_nat k)) ->
  exists m', malloc_claim_loop fuel page (area_lo s i) bs k m = Ok m' /\
    chain m' (load64 m' (page_free page)) (blocks s i bs) /\
    changes (fun x => page <= x < page + 8 \/ in_area s i x) m m'.
Proof.
  intros Hbs. pose proof struct_apart as Hst. revert k m. induction fuel as [|fuel IH]; intros k m Hk Hf Hcap Hch.
  - cbn [malloc_claim_loop]. rewrite Hcap. destruct (Z.ltb_spec k (cap i bs)); [lia |].
    exists m. split_and!; [done | | apply changes_refl]. unfold blocks.
    replace k with (cap i bs) in Hch by lia. unfold block in Hch.
    by replace (area_lo s i + (cap i bs - cap i bs) * bs) with (area_lo s i) in Hch by lia.
  - cbn [malloc_claim_loop]. rewrite Hcap. destruct (Z.ltb_spec k (cap i bs)); [| lia].
    set (b := area_lo s i + (cap i bs - k - 1) * bs).
    assert (is_block s i bs b) as Hb by (exists (cap i bs - k - 1); split; [lia | done]).
    destruct (page_append_obj_spec m bs b (stride (block s i bs (cap i bs - k)) bs (Z.to_nat k)) Hbs Hb) as (A1 & A2 & A3);
      [| | exact Hch |].
    { intros b' (j & Hj & ->)%elem_of_stride. exists (cap i bs - k + Z.of_nat j). unfold block. lia. }
    { rewrite elem_of_stride. intros (j & Hj & Ej). unfold b, block in Ej. destruct Hbs as [_ Hbs]. nia. }
    set (m1 := malloc_page_append_obj m page b) in *.
    destruct (block_bounds s i bs b Hi Hbs Hb) as [Hb1 Hb2]. destruct (block_not_struct bs b Hbs Hb) as [Hb3 _].
    destruct Hbs as [Hb8 Hbb].
    destruct (IH (k + 1) m1) as (m' & E & Hch' & Hc').
    + lia.
    + lia.
    + rewrite <- Hcap. apply (load_changes 8 _ _ _ _ A3). unfold page_capacity. intros x Hx. simpl in Hx. lia.
    + rewrite A1. replace (Z.to_nat (k + 1)) with (S (Z.to_nat k)) by lia. cbn [stride].
      replace (block s i bs (cap i bs - (k + 1))) with b by (unfold b, block; f_equal; f_equal; lia).
      by replace (b + bs) with (block s i bs (cap i bs - k)) by (unfold b, block; lia).
    + exists m'. split_and!; [done | done |]. eapply changes_trans; [| exact Hc'].
      eapply changes_mono; [| exact A3]. unfold in_area. intros x Hx. cbv beta in Hx. lia.
Qed.

Lemma page_area_eqs m :
  load64 m (segment_nr_pages s) = 32 -> load8 m (page_idx page) = i ->
  malloc_segment_page_obj m s page = area_lo s i /\
  malloc_segment_page_size m s page = area_hi 0 i - area_lo 0 i.
Proof.
  intros Hn Hx. unfold malloc_segment_page_obj, malloc_segment_page_size, malloc_segment_metadata_size.
  rewrite Hn, Hx. unfold area_lo, area_hi. destruct (Z.eqb_spec i 0) as [-> |]; [done |]. split; [done |].
  unfold pg_size. change MALLOC_PAGE_SIZE with (2 ^ 16). lia.
Qed.

(** [malloc_segment_claim_page] makes all blocks of an unclaimed page free. *)
Lemma claim_page_spec m bs :
  bs_ok bs -> pinv m s i (Pst 0 []) -> load64 m (segment_nr_pages s) = 32 ->
  exists m', malloc_segment_claim_page s page bs m = Ok m' /\ pinv m' s i (Pst bs (blocks s i bs)) /\
    changes (fun x => in_struct s i x \/ in_area s i x) m m'.
Proof.
  intros Hbs HP Hn. pose proof struct_apart as Hst. destruct HP as [P1 P2 P3 _]. cbn [p_bs p_free] in *. fold page in P1, P2, P3.
  destruct (P3 eq_refl) as [Pf _]. pose proof (cap_pos i bs Hi Hbs) as [Hcap _].
  unfold malloc_segment_claim_page. rewrite P2. cbn [Z.eqb].
  set (m2 := store64 (store64 m (page_block_size page) bs) (page_used page) 0).
  assert (changes (in_struct s i) m m2) as C2.
  { eapply changes_trans; [eapply changes_store |]; [| apply changes_store];
      unfold page_block_size, page_used, in_struct; fold page; intros x Hx; simpl in Hx; lia. }
  assert (load64 m2 (segment_nr_pages s) = 32 /\ load8 m2 (page_idx page) = i) as [N2 I2].
  { rewrite <- Hn, <- P1. unfold m2, page_block_size, page_used, page_idx, segment_nr_pages. split.
    - mem_simpl. done.
    - unfold store64. by rewrite !load8_store_out by (simpl; lia). }
  destruct (page_area_eqs m2 N2 I2) as [_ ->]. fold (cap i bs).
  destruct (Z.eqb_spec bs 0) as [-> |]; [by destruct Hbs; lia |].
  set (m3 := store64 m2 (page_capacity page) (cap i bs)).
  assert (changes (in_struct s i) m m3) as C3.
  { eapply changes_trans; [exact C2 | apply changes_store]. unfold page_capacity, in_struct; fold page; intros x Hx; simpl in Hx; lia. }
  assert (load64 m3 (segment_nr_pages s) = 32 /\ load8 m3 (page_idx page) = i) as [N3 I3].
  { rewrite <- N2, <- I2. unfold m3, page_capacity, page_idx, segment_nr_pages. split.
    - mem_simpl. done.
    - unfold store64. by rewrite !load8_store_out by (simpl; lia). }
  destruct (page_area_eqs m3 N3 I3) as [-> _].
  assert (load64 m3 (page_capacity page) = cap i bs) as Ecap by (unfold m3; rewrite load64_store64_eq; apply u64_small; lia).
  rewrite Ecap. destruct (claim_loop_spec bs (Z.to_nat (cap i bs)) 0 m3) as (m' & E & Hch & Hc); [done | lia | lia | done | |].
  { cbn [Z.to_nat stride chain]. transitivity (load64 m (page_free page)); [| exact Pf]. unfold m3, m2, page_free, page_block_size, page_used, page_capacity. mem_simpl. done. }
  exists m'. split; [done |]. destruct (area_bounds s i Hi) as [Ha _].
  assert (forall o, 8 <= o <= 32 -> load64 m' (page + o) = load64 m3 (page + o)) as Hf.
  { intros o Ho. apply (load_changes 8 _ _ _ _ Hc). intros x Hx. simpl in Hx. unfold in_area. lia. }
  split.
  - unfold page_free, page_used, page_capacity, page_block_size, page_idx in *.
    split; cbn [p_bs p_free]; fold page; unfold page_free, page_used, page_capacity, page_block_size, page_idx; [| | done |].
    + rewrite Hc; [done |]. unfold in_area. lia.
    + rewrite Hf by lia. unfold m3, m2. mem_simpl. apply Z.mod_small. destruct Hbs. lia.
    + intros _. split_and!; [done | by rewrite Hf by lia | | done | | intros b Hb; by apply elem_of_blocks].
      * rewrite Hf by lia. rewrite length_blocks by done. unfold m3, m2. mem_simpl. rewrite Z.mod_0_l by done. lia.
      * apply NoDup_stride. destruct Hbs. lia.
  - eapply changes_trans; [eapply changes_mono; [| exact C3]; by left |]. eapply changes_mono; [| exact Hc].
    unfold in_struct; fold page. intros x [Hx | Hx]; [left; lia | by right].
Qed.

End Page.
