(* ===== verification/MallocHeap.v ===== *)
(** * The heap of the user space allocator

    The invariant [minv] of a heap with its segments, pages, queue and size
    classes, over any operating system that satisfies [VmSpaceLaws], and the
    effect of each function on it. *)

From S2P Require Import Prelude Mem Align Malloc MallocProof.

(** ** The operating system *)

(** [vs_own o x]: the byte at [x] is memory the system can still give out;
    [vs_empty o]: it has no more segments. *)
Class VmSpaceLaws (V : Type) `{VmSpace V} := {
  vs_own : V -> Z -> Prop;
  vs_empty : V -> Prop;
  vs_rep : V -> mem -> Prop;
  vs_frame o m m' :
    vs_rep o m -> (forall x, vs_own o x -> load8 m' x = load8 m x) -> vs_rep o m';
  vs_alloc o m :
    vs_rep o m ->
    (vs_empty o /\ exists r st, r <> 0 /\ vmspace_alloc MALLOC_SEGMENT_SIZE MALLOC_SEGMENT_SIZE o m = (r, st, o, m)) \/
    exists s o' m', vmspace_alloc MALLOC_SEGMENT_SIZE MALLOC_SEGMENT_SIZE o m = (0, s, o', m') /\
      0 < s /\ (MALLOC_SEGMENT_SIZE | s) /\ s + MALLOC_SEGMENT_SIZE < 2 ^ 64 /\
      (forall x, s <= x < s + MALLOC_SEGMENT_SIZE -> vs_own o x /\ load8 m' x = 0) /\
      vs_rep o' m' /\
      (forall x, vs_own o' x <-> vs_own o x /\ ~ s <= x < s + MALLOC_SEGMENT_SIZE) /\
      changes (vs_own o) m m'
}.

(** ** Geometry *)

Lemma segs_disjoint s s' x : seg_at s -> seg_at s' -> in_seg s x -> in_seg s' x -> s = s'.
Proof. intros (_ & [q ->] & _) (_ & [q' ->] & _). unfold in_seg, seg_size. lia. Qed.

Lemma in_area_seg s i x : 0 <= i < 32 -> in_area s i x -> in_seg s x /\ s + meta_size <= x.
Proof. intros Hi Hx. pose proof (area_bounds s i Hi). unfold in_area, in_seg, meta_size in *. lia. Qed.

Lemma in_struct_seg s i x : 0 <= i < 32 -> in_struct s i x -> in_seg s x /\ s + 24 <= x < s + meta_size.
Proof. intros Hi Hx. layout. lia. Qed.

Lemma areas_disjoint s i s' i' x :
  seg_at s -> seg_at s' -> 0 <= i < 32 -> 0 <= i' < 32 -> in_area s i x -> in_area s' i' x -> s = s' /\ i = i'.
Proof.
  intros Hs Hs' Hi Hi' Hx Hx'. destruct (in_area_seg s i x Hi Hx) as [Hx1 _].
  destruct (in_area_seg s' i' x Hi' Hx') as [Hx1' _]. pose proof (segs_disjoint s s' x Hs Hs' Hx1 Hx1') as <-.
  split; [done |]. layout. destruct (Z.eqb_spec i 0), (Z.eqb_spec i' 0); lia.
Qed.

Lemma structs_disjoint s i s' i' x :
  seg_at s -> seg_at s' -> 0 <= i < 32 -> 0 <= i' < 32 -> in_struct s i x -> in_struct s' i' x -> s = s' /\ i = i'.
Proof.
  intros Hs Hs' Hi Hi' Hx Hx'. destruct (in_struct_seg s i x Hi Hx) as [Hx1 _].
  destruct (in_struct_seg s' i' x Hi' Hx') as [Hx1' _]. pose proof (segs_disjoint s s' x Hs Hs' Hx1 Hx1') as <-.
  split; [done |]. layout. lia.
Qed.

Lemma struct_not_area s i s' i' x :
  seg_at s -> seg_at s' -> 0 <= i < 32 -> 0 <= i' < 32 -> in_struct s i x -> ~ in_area s' i' x.
Proof.
  intros Hs Hs' Hi Hi' Hx Hx'. destruct (in_struct_seg s i x Hi Hx) as [Hx1 ?].
  destruct (in_area_seg s' i' x Hi' Hx') as [Hx1' ?]. pose proof (segs_disjoint s s' x Hs Hs' Hx1 Hx1') as <-. lia.
Qed.

(** ** Live blocks *)

(** [p] is a block of [bs] bytes in the hands of the program. *)
Definition live (G : gmap (Z * Z) pst) (p bs : Z) : Prop :=
  exists s i st, G !! (s, i) = Some st /\ p_bs st = bs /\ bs <> 0 /\ is_block s i bs p /\ p ∉ p_free st.

Definition live_byte (G : gmap (Z * Z) pst) (x : Z) : Prop := exists p bs, live G p bs /\ p <= x < p + bs.

(** The segments of the queue, linked in both directions. *)
Fixpoint dll (m : mem) (prev : Z) (Q : list Z) : Prop :=
  match Q with
  | [] => True
  | s :: Q => load64 m (segment_prev s) = prev /\ load64 m (segment_next s) = hd 0 Q /\ dll m s Q
  end.

Lemma dll_ext m m' p Q :
  (forall s x, s ∈ Q -> s <= x < s + 16 -> load8 m' x = load8 m x) -> dll m p Q -> dll m' p Q.
Proof.
  revert p. induction Q as [|s Q IH]; intros p Hm; [done |]. cbn [dll]. intros (D1 & D2 & D3).
  assert (forall a, s <= a <= s + 8 -> load64 m' a = load64 m a) as Hl.
  { intros a Ha. apply load_ext. intros x Hx. simpl in Hx. apply (Hm s); [by left | lia]. }
  unfold segment_prev, segment_next in *. rewrite !Hl by lia. split_and!; [done | done |].
  apply IH; [| done]. intros s' x Hin. apply Hm. by right.
Qed.

Section Heap.
Context {V : Type} `{VmSpaceLaws V} (heap empty : Z).

Definition in_heap (x : Z) : Prop := heap <= x < heap + 1040.
Definition in_empty (x : Z) : Prop := empty <= x < empty + 40.

Record minv (S : gset Z) (Q : list Z) (G : gmap (Z * Z) pst) (o : V) (m : mem) : Prop := {
  mi_rep : vs_rep o m;
  mi_static : 0 < heap /\ heap + 1040 < 2 ^ 64 /\ 0 < empty /\ empty + 40 < 2 ^ 64 /\
    (heap + 1040 <= empty \/ empty + 40 <= heap);
  mi_static_os x : in_heap x \/ in_empty x -> ~ vs_own o x;
  mi_seg s : s ∈ S -> seg_at s /\ load64 m (segment_nr_pages s) = 32 /\
    forall x, in_seg s x -> ~ vs_own o x /\ ~ in_heap x /\ ~ in_empty x;
  mi_dom s i : is_Some (G !! (s, i)) <-> s ∈ S /\ 0 <= i < 32;
  mi_page s i st : G !! (s, i) = Some st -> pinv m s i st;
  mi_queue : NoDup Q /\ (forall s, s ∈ Q -> s ∈ S) /\
    load64 m (queue_head (heap_segment_queue heap)) = hd 0 Q /\
    load64 m (queue_tail (heap_segment_queue heap)) = default 0 (last Q) /\ dll m 0 Q;
  mi_empty : load64 m (page_free empty) = 0;
  mi_class c : 0 <= c < 128 -> load64 m (heap_page heap c) = empty \/
    exists s i st, load64 m (heap_page heap c) = segment_page s i /\ G !! (s, i) = Some st /\ p_bs st = 8 * c /\ c <> 0
}.

Lemma mi_key S Q G o m s i st : minv S Q G o m -> G !! (s, i) = Some st -> s ∈ S /\ seg_at s /\ 0 <= i < 32.
Proof.
  intros HM HG. destruct (proj1 (mi_dom _ _ _ _ _ HM s i)) as [Hs Hi]; [by exists st |].
  split_and!; try lia; [done | by apply (mi_seg _ _ _ _ _ HM)].
Qed.

(** The memory of the allocator: all of its segments but the live blocks, its
    static objects, and what the system has not given out. *)
Definition mown (S : gset Z) (G : gmap (Z * Z) pst) (o : V) (x : Z) : Prop :=
  vs_own o x \/ in_heap x \/ in_empty x \/ exists s, s ∈ S /\ in_seg s x /\ ~ live_byte G x.

Lemma live_area S Q G o m p bs :
  minv S Q G o m -> live G p bs -> exists s i st, G !! (s, i) = Some st /\ p_bs st = bs /\ bs_ok bs /\
    is_block s i bs p /\ p ∉ p_free st /\ forall x, p <= x < p + bs -> in_area s i x.
Proof.
  intros HM (s & i & st & HG & Eb & Hbs & Hb & Hn). destruct (mi_key _ _ _ _ _ _ _ _ HM HG) as (_ & Hs & Hi).
  destruct (pi_claimed _ _ _ _ (mi_page _ _ _ _ _ HM _ _ _ HG)) as (Hok & _); [congruence |]. rewrite Eb in Hok.
  exists s, i, st. split_and!; try done. intros x Hx.
  destruct (block_bounds s i bs p Hi Hok Hb). unfold in_area. lia.
Qed.

(** Live blocks do not overlap. *)
Lemma live_disjoint S Q G o m p bs p' bs' x :
  minv S Q G o m -> live G p bs -> live G p' bs' -> p <= x < p + bs -> p' <= x < p' + bs' -> p = p' /\ bs = bs'.
Proof.
  intros HM HL HL' Hx Hx'.
  destruct (live_area _ _ _ _ _ _ _ HM HL) as (s & i & st & HG & Eb & Hok & Hb & _ & Ha).
  destruct (live_area _ _ _ _ _ _ _ HM HL') as (s' & i' & st' & HG' & Eb' & Hok' & Hb' & _ & Ha').
  destruct (mi_key _ _ _ _ _ _ _ _ HM HG) as (_ & Hs & Hi). destruct (mi_key _ _ _ _ _ _ _ _ HM HG') as (_ & Hs' & Hi').
  destruct (areas_disjoint s i s' i' x Hs Hs' Hi Hi' (Ha x Hx) (Ha' x Hx')) as [-> ->].
  assert (bs = bs') as <- by congruence. split; [| done]. by eapply (blocks_disjoint s' i' bs p p' x).
Qed.

(** The bytes of the structures and free blocks are not live. *)
Lemma page_own_not_live S Q G o m s i st x :
  minv S Q G o m -> G !! (s, i) = Some st -> page_own s i st x -> in_seg s x /\ ~ live_byte G x.
Proof.
  intros HM HG Hx. pose proof (mi_page _ _ _ _ _ HM _ _ _ HG) as HP.
  destruct (mi_key _ _ _ _ _ _ _ _ HM HG) as (_ & Hs & Hi).
  split.
  { destruct (page_own_bounds m s i st x Hi HP Hx); [by apply (in_struct_seg s i) | by apply (in_area_seg s i)]. }
  intros (p & bs & HL & Hp). destruct (live_area _ _ _ _ _ _ _ HM HL) as (s' & i' & st' & HG' & Eb & Hok & Hb & Hn & Ha).
  destruct (mi_key _ _ _ _ _ _ _ _ HM HG') as (_ & Hs' & Hi'). specialize (Ha x Hp).
  destruct Hx as [Hx | (b & Hin & Hx)]; [by apply (struct_not_area s i s' i' x) |].
  assert (p_bs st <> 0) as Hne.
  { intros E. destruct (pi_unclaimed _ _ _ _ HP E) as [_ En]. rewrite En in Hin. by apply not_elem_of_nil in Hin. }
  destruct (pi_claimed _ _ _ _ HP Hne) as (Hok' & _ & _ & _ & _ & Hbl). specialize (Hbl b Hin).
  destruct (block_bounds s i _ b Hi Hok' Hbl). destruct Hok' as [H8 Hbs'].
  destruct (areas_disjoint s i s' i' x Hs Hs' Hi Hi') as [-> ->]; [unfold in_area; lia | done |].
  rewrite HG in HG'. injection HG' as <-. rewrite Eb in Hbl, Hbs'.
  apply Hn. by rewrite (blocks_disjoint s' i' bs p b x Hok Hb Hbl ltac:(lia) ltac:(lia)).
Qed.

(** A change of memory that keeps the invariant: the bytes of the static
    objects, the headers and the pages' own bytes are kept. *)
Lemma minv_ext S Q G G' o m m' :
  minv S Q G o m -> vs_rep o m' ->
  (forall k, is_Some (G' !! k) <-> is_Some (G !! k)) ->
  (forall k st, G !! k = Some st -> p_bs st <> 0 -> exists st', G' !! k = Some st' /\ p_bs st' = p_bs st) ->
  (forall x, in_heap x \/ in_empty x \/ (exists s, s ∈ S /\ s <= x < s + 24) -> load8 m' x = load8 m x) ->
  (forall s i st, G' !! (s, i) = Some st -> pinv m' s i st) -> minv S Q G' o m'.
Proof.
  intros HM Hrep Hdom Hst Hm HP. pose proof HM as [_ M2 M3 M4 M5 _ M7 M8 M9].
  assert (forall a, heap <= a <= heap + 1032 -> load64 m' a = load64 m a) as Hh.
  { intros a Ha. apply load_ext. intros x Hx. simpl in Hx. apply Hm. left. unfold in_heap. lia. }
  split; try done.
  - intros s Hs. destruct (M4 s Hs) as (S1 & S2 & S3). split_and!; try done. rewrite <- S2. apply load_ext.
    intros x Hx. unfold segment_nr_pages in Hx. simpl in Hx. apply Hm. right. right. exists s. split; [done | lia].
  - intros s i. by rewrite Hdom.
  - destruct M7 as (Q1 & Q2 & Q3 & Q4 & Q5). unfold queue_head, queue_tail, heap_segment_queue in *.
    change NUM_SIZE_CLASSES with 128 in *. rewrite !Hh by lia. split_and!; try done.
    apply (dll_ext m); [| done]. intros s x Hs Hx. apply Hm. right. right. exists s. split; [auto | lia].
  - rewrite <- M8. apply load_ext. intros x Hx. simpl in Hx. apply Hm. right. left. unfold in_empty, page_free in *. lia.
  - intros c Hc. unfold heap_page in *. rewrite Hh by lia.
    destruct (M9 c Hc) as [? | (s & i & st & E & HG & Hb & Hc0)]; [by left | right].
    destruct (Hst _ _ HG) as (st' & HG' & Hb'); [lia |]. exists s, i, st'. split_and!; congruence.
Qed.

(** Metadata is memory of the allocator. *)
Lemma header_own S Q G o m s x : minv S Q G o m -> s ∈ S -> s <= x < s + 24 -> mown S G o x.
Proof.
  intros HM Hs Hx. right. right. right. exists s. destruct (mi_seg _ _ _ _ _ HM s Hs) as (Hseg & _).
  assert (in_seg s x) as Hin by (unfold in_seg, seg_size; lia). split_and!; [done | done |].
  intros (p & bs & HL & Hp). destruct (live_area _ _ _ _ _ _ _ HM HL) as (s' & i & st & HG & _ & _ & _ & _ & Ha).
  destruct (mi_key _ _ _ _ _ _ _ _ HM HG) as (_ & Hs' & Hi). destruct (in_area_seg s' i x Hi (Ha x Hp)) as [Hx' ?].
  pose proof (segs_disjoint s s' x Hseg Hs' Hin Hx') as ->. unfold meta_size in *. lia.
Qed.

(** The program may write its blocks. *)
Lemma minv_client S Q G o m m' :
  minv S Q G o m -> (forall x, mown S G o x -> load8 m' x = load8 m x) -> minv S Q G o m'.
Proof.
  intros HM Hm. apply (minv_ext S Q G G o m); [done | | done | by eauto | |].
  - apply (vs_frame o m); [apply HM |]. intros x Hx. apply Hm. by left.
  - intros x [? | [? | (s & Hs & Hx)]]; apply Hm; [by right; left | by right; right; left | by eapply header_own].
  - intros s i st HG. apply (pinv_ext m); [by apply HM |]. intros x Hx. apply Hm.
    destruct (page_own_not_live _ _ _ _ _ _ _ _ _ HM HG Hx). right. right. right. exists s.
    split_and!; [| done | done]. by eapply mi_key.
Qed.

(** The state of one page changes. *)
Lemma minv_page S Q G o m m' s i st st' :
  minv S Q G o m -> G !! (s, i) = Some st -> p_bs st = 0 \/ p_bs st' = p_bs st ->
  pinv m' s i st' -> changes (fun x => in_struct s i x \/ in_area s i x) m m' ->
  minv S Q (<[(s, i) := st']> G) o m'.
Proof.
  intros HM HG Hbs HP Hc. destruct (mi_key _ _ _ _ _ _ _ _ HM HG) as (HsS & Hs & Hi).
  destruct (mi_seg _ _ _ _ _ HM s HsS) as (_ & _ & Hsx).
  assert (forall x, in_struct s i x \/ in_area s i x -> in_seg s x /\ s + 24 <= x) as Hin.
  { intros x [Hx | Hx]; [destruct (in_struct_seg s i x Hi Hx) | destruct (in_area_seg s i x Hi Hx)];
      unfold meta_size in *; split; done || lia. }
  apply (minv_ext S Q G _ o m); [done | | | | |].
  - apply (vs_frame o m); [apply HM |]. intros x Hx. apply Hc. intros Hx'%Hin. destruct Hx' as [Hx' _].
    by destruct (Hsx x Hx').
  - intros k. destruct (decide (k = (s, i))) as [-> |]; [| by rewrite lookup_insert_ne].
    rewrite lookup_insert_eq, HG. by split.
  - intros k st2 HG2 Hne. destruct (decide (k = (s, i))) as [-> |]; [| rewrite lookup_insert_ne by done; eauto].
    rewrite lookup_insert_eq. exists st'. split; [done |]. simplify_eq. destruct Hbs; done.
  - intros x Hx. apply Hc. intros Hx'%Hin. destruct Hx' as [Hx' ?]. destruct (Hsx x Hx') as (_ & ? & ?).
    destruct Hx as [? | [? | (s' & Hs' & Hx)]]; [done | done |].
    destruct (mi_seg _ _ _ _ _ HM s' Hs') as (Hseg' & _).
    assert (s' = s) as ->; [| lia]. apply (segs_disjoint s' s x); [done | done | unfold in_seg, seg_size; lia | done].
  - intros s' i' st2. destruct (decide ((s', i') = (s, i))) as [[= -> ->] | Hne].
    + rewrite lookup_insert_eq. by intros [= <-].
    + rewrite lookup_insert_ne by done. intros HG'. pose proof (mi_page _ _ _ _ _ HM _ _ _ HG') as HP'.
      destruct (mi_key _ _ _ _ _ _ _ _ HM HG') as (_ & Hs' & Hi').
      apply (pinv_ext m); [done |]. intros x Hx. apply Hc.
      destruct (page_own_bounds m s' i' st2 x Hi' HP' Hx) as [Hx' | Hx']; intros [Hx2 | Hx2].
      * destruct (structs_disjoint s' i' s i x) as [-> ->]; done.
      * by apply (struct_not_area s' i' s i x).
      * by apply (struct_not_area s i s' i' x).
      * destruct (areas_disjoint s' i' s i x) as [-> ->]; done.
Qed.


(** ** Steps that do not change the live blocks *)

Record mstep (S : gset Z) (G : gmap (Z * Z) pst) (o : V) (m : mem)
  (S' : gset Z) (Q' : list Z) (G' : gmap (Z * Z) pst) (o' : V) (m' : mem) : Prop := {
  ms_inv : minv S' Q' G' o' m';
  ms_live p bs : live G' p bs <-> live G p bs;
  ms_changes : changes (mown S G o) m m';
  ms_own x : mown S' G' o' x -> mown S G o x
}.

Lemma mstep_refl S Q G o m : minv S Q G o m -> mstep S G o m S Q G o m.
Proof. intros HM. split; [done | done | apply changes_refl | done]. Qed.

Lemma mstep_trans S G o m S1 Q1 G1 o1 m1 S2 Q2 G2 o2 m2 :
  mstep S G o m S1 Q1 G1 o1 m1 -> mstep S1 G1 o1 m1 S2 Q2 G2 o2 m2 -> mstep S G o m S2 Q2 G2 o2 m2.
Proof.
  intros [I1 L1 C1 W1] [I2 L2 C2 W2]. split; [done | | | auto].
  - intros p bs. by rewrite L2.
  - eapply changes_trans; [done |]. by eapply changes_mono.
Qed.

Lemma live_byte_iff G G' x : (forall p bs, live G' p bs <-> live G p bs) -> live_byte G' x <-> live_byte G x.
Proof. intros HL. unfold live_byte. split; intros (p & bs & Hl & Hx); exists p, bs; (split; [by apply HL | done]). Qed.

(** A page of the heap that gets the state [st'] without a change of live blocks. *)
Lemma mstep_page S Q G o m m' s i st st' :
  minv S Q G o m -> G !! (s, i) = Some st -> p_bs st = 0 \/ p_bs st' = p_bs st ->
  pinv m' s i st' -> (forall p bs, live (<[(s, i) := st']> G) p bs <-> live G p bs) ->
  changes (fun x => in_struct s i x \/ (in_area s i x /\ ~ live_byte G x)) m m' ->
  mstep S G o m S Q (<[(s, i) := st']> G) o m'.
Proof.
  intros HM HG Hbs HP HL Hc. destruct (mi_key _ _ _ _ _ _ _ _ HM HG) as (HsS & Hs & Hi). split.
  - apply (minv_page S Q G o m m' s i st st'); try done. eapply changes_mono; [| exact Hc].
    intros x [? | [? _]]; auto.
  - done.
  - eapply changes_mono; [| exact Hc]. intros x Hx. right. right. right. exists s.
    destruct Hx as [Hx | [Hx Hn]].
    + split; [done |]. apply (page_own_not_live S Q G o m s i st); [done | done | by left].
    + split_and!; [done | by apply (in_area_seg s i) | done].
  - intros x [? | [? | [? | (s' & Hs' & Hx & Hn)]]]; [by left | by right; left | by right; right; left |].
    right. right. right. exists s'. split_and!; [done | done |]. by rewrite <- (live_byte_iff G _ x HL).
Qed.

(** The live blocks after a page changes. *)
Lemma live_insert G s i st p bs :
  live (<[(s, i) := st]> G) p bs <->
  (p_bs st = bs /\ bs <> 0 /\ is_block s i bs p /\ p ∉ p_free st) \/
  (exists s' i' st', (s', i') <> (s, i) /\ G !! (s', i') = Some st' /\ p_bs st' = bs /\ bs <> 0 /\
     is_block s' i' bs p /\ p ∉ p_free st').
Proof.
  unfold live. split.
  - intros (s' & i' & st' & HG & Hr). destruct (decide ((s', i') = (s, i))) as [[= -> ->] | Hne].
    + rewrite lookup_insert_eq in HG. injection HG as <-. by left.
    + rewrite lookup_insert_ne in HG by done. right. by exists s', i', st'.
  - intros [Hr | (s' & i' & st' & Hne & HG & Hr)].
    + exists s, i, st. by rewrite lookup_insert_eq.
    + exists s', i', st'. by rewrite lookup_insert_ne.
Qed.

Lemma live_split G s i st p bs :
  G !! (s, i) = Some st ->
  live G p bs <->
  (p_bs st = bs /\ bs <> 0 /\ is_block s i bs p /\ p ∉ p_free st) \/
  (exists s' i' st', (s', i') <> (s, i) /\ G !! (s', i') = Some st' /\ p_bs st' = bs /\ bs <> 0 /\
     is_block s' i' bs p /\ p ∉ p_free st').
Proof. intros HG. rewrite <- live_insert. by rewrite insert_id. Qed.

Lemma page_remaining_spec m s i st :
  0 <= i < 32 -> pinv m s i st -> p_bs st <> 0 ->
  malloc_page_remaining m (segment_page s i) = Z.of_nat (length (p_free st)).
Proof.
  intros Hi HP Hb. destruct (pi_claimed _ _ _ _ HP Hb) as (Hok & Q2 & Q3 & _ & Q5 & Q6).
  unfold malloc_page_remaining. rewrite Q2, Q3. pose proof (blocks_length_le s i _ _ Hi Hok Q5 Q6).
  pose proof (cap_pos i _ Hi Hok). rewrite u64_small; lia.
Qed.

(** Claiming a page. *)
Lemma claim_step S Q G o m s i bs :
  minv S Q G o m -> G !! (s, i) = Some (Pst 0 []) -> bs_ok bs ->
  exists m', malloc_segment_claim_page s (segment_page s i) bs m = Ok m' /\
    mstep S G o m S Q (<[(s, i) := Pst bs (blocks s i bs)]> G) o m'.
Proof.
  intros HM HG Hok. destruct (mi_key _ _ _ _ _ _ _ _ HM HG) as (HsS & Hs & Hi).
  destruct (mi_seg _ _ _ _ _ HM s HsS) as (_ & Hn & _).
  destruct (claim_page_spec s i Hs Hi m bs Hok (mi_page _ _ _ _ _ HM _ _ _ HG) Hn) as (m' & E & HP & Hc).
  exists m'. split; [done |]. apply (mstep_page S Q G o m m' s i (Pst 0 [])); [done | done | by left | done | |].
  - intros p b. rewrite live_insert, (live_split G s i _ p b HG). cbn [p_bs p_free]. split.
    + intros [(<- & _ & Hb & Hnb) | ?]; [| by right]. by apply elem_of_blocks in Hb.
    + intros [(<- & ? & _) | ?]; [done | by right].
  - eapply changes_mono; [| exact Hc]. intros x [Hx | Hx]; [by left | right]. split; [done |].
    intros (p & b & HL & Hp). destruct (live_area _ _ _ _ _ _ _ HM HL) as (s' & i' & st' & HG' & Eb & Hok' & _ & _ & Ha).
    destruct (mi_key _ _ _ _ _ _ _ _ HM HG') as (_ & Hs' & Hi').
    destruct (areas_disjoint s i s' i' x Hs Hs' Hi Hi' Hx (Ha x Hp)) as [<- <-].
    rewrite HG in HG'. injection HG' as <-. cbn [p_bs] in Eb. destruct Hok'. lia.
Qed.

(** The search for a page with a free block of size [bs]. *)
Lemma find_page_spec S Q o s bs fuel i G m :
  minv S Q G o m -> s ∈ S -> bs_ok bs -> 0 <= i -> Z.of_nat fuel = 32 - i ->
  exists page G' m', malloc_find_page fuel s bs i m = Ok (page, m') /\ mstep S G o m S Q G' o m' /\
    ((page = 0 /\ forall j st, i <= j -> G !! (s, j) = Some st -> p_bs st <> 0) \/
     exists j st, page = segment_page s j /\ page <> 0 /\ G' !! (s, j) = Some st /\ p_bs st = bs /\ p_free st <> []).
Proof.
  intros HM Hs Hok. revert i. induction fuel as [|fuel IH]; intros i Hi Hf.
  all: destruct (mi_seg _ _ _ _ _ HM s Hs) as (Hseg & Hn & _); cbn [malloc_find_page]; rewrite Hn.
  - destruct (Z.ltb_spec i 32); [lia |]. exists 0, G, m. split_and!; [done | by apply mstep_refl |]. left.
    split; [done |]. intros j st Hj HG. destruct (mi_key _ _ _ _ _ _ _ _ HM HG). lia.
  - destruct (Z.ltb_spec i 32); [| lia].
    assert (is_Some (G !! (s, i))) as [st HG] by (apply (mi_dom _ _ _ _ _ HM); split; [done | lia]).
    pose proof (mi_page _ _ _ _ _ HM _ _ _ HG) as HP. rewrite (pi_bs _ _ _ _ HP).
    assert (segment_page s i <> 0) as Hpg by (destruct Hseg; unfold segment_page, sizeof_malloc_page; lia).
    destruct (Z.eqb_spec (p_bs st) 0) as [E0 | En].
    + assert (st = Pst 0 []) as ->.
      { destruct (pi_unclaimed _ _ _ _ HP E0) as [_ Ef]. destruct st. cbn in *. congruence. }
      destruct (claim_step S Q G o m s i bs HM HG Hok) as (m' & E & HS). rewrite E. cbn [mbind outcome_bind].
      set (st' := Pst bs (blocks s i bs)) in *. set (G' := <[(s, i) := st']> G) in *.
      assert (G' !! (s, i) = Some st') as HG' by apply lookup_insert_eq.
      pose proof (mi_page _ _ _ _ _ (ms_inv _ _ _ _ _ _ _ _ _ HS) _ _ _ HG') as HP'.
      pose proof (cap_pos i bs ltac:(lia) Hok) as [Hcap _].
      rewrite (page_remaining_spec m' s i st') by (done || lia || (destruct Hok; cbn; lia)). cbn [p_free st'].
      rewrite length_blocks by (done || lia). destruct (Z.eqb_spec (cap i bs) 0); [lia |]. cbn [negb].
      exists (segment_page s i), G', m'. split_and!; [done | done |]. right. exists i, st'. split_and!; try done.
      cbn [p_free st']. intros Hnil. pose proof (length_blocks s i bs ltac:(lia) Hok) as Hlb. rewrite Hnil in Hlb. simpl in Hlb. lia.
    + cbn [mbind outcome_bind].
      destruct (IH (i + 1) ltac:(lia) ltac:(lia)) as (page & G' & m' & E & HS & Hr).
      assert ((page = 0 /\ forall j st, i <= j -> G !! (s, j) = Some st -> p_bs st <> 0) \/
        exists j st, page = segment_page s j /\ page <> 0 /\ G' !! (s, j) = Some st /\ p_bs st = bs /\ p_free st <> []) as Hr'.
      { destruct Hr as [[-> Hj] | Hr]; [left; split; [done |] | by right]. intros j st' Hij HG'.
        destruct (decide (j = i)) as [-> |]; [congruence | apply (Hj j); [lia | done]]. }
      destruct (Z.eqb_spec (p_bs st) bs) as [Eb |]; cbn [negb]; [| by exists page, G', m'].
      rewrite (page_remaining_spec m s i st) by (done || lia).
      destruct (Z.eqb_spec (Z.of_nat (length (p_free st))) 0) as [El |]; cbn [negb]; [by exists page, G', m' |].
      exists (segment_page s i), G, m. split_and!; [done | by apply mstep_refl |]. right. exists i, st.
      split_and!; try done. intros Hnil. by rewrite Hnil in *.
Qed.

(** ** The queue *)

Lemma heap_seg_apart S Q G o m s : minv S Q G o m -> s ∈ S -> heap + 1040 <= s \/ s + seg_size <= heap.
Proof.
  intros HM Hs. destruct (mi_seg _ _ _ _ _ HM s Hs) as (_ & _ & Hx).
  apply ranges_disjoint; [lia | done |]. intros x Hh Hin. by destruct (Hx x Hin) as (_ & ? & _).
Qed.

Lemma segs_apart S Q G o m s s' : minv S Q G o m -> s ∈ S -> s' ∈ S -> s <> s' -> s + seg_size <= s' \/ s' + seg_size <= s.
Proof.
  intros HM Hs Hs' Hne. apply ranges_disjoint; [done | done |]. intros x Hx Hx'. apply Hne.
  destruct (mi_seg _ _ _ _ _ HM s Hs) as (Hseg & _). destruct (mi_seg _ _ _ _ _ HM s' Hs') as (Hseg' & _).
  by apply (segs_disjoint s s' x).
Qed.

(** The bytes that link the queue. *)
Definition link_byte (S : gset Z) (x : Z) : Prop :=
  heap + 1024 <= x < heap + 1040 \/ exists s, s ∈ S /\ s <= x < s + 16.

Lemma mstep_queue S Q Q' G o m m' :
  minv S Q G o m -> changes (link_byte S) m m' ->
  NoDup Q' -> (forall s, s ∈ Q' -> s ∈ S) ->
  load64 m' (queue_head (heap_segment_queue heap)) = hd 0 Q' ->
  load64 m' (queue_tail (heap_segment_queue heap)) = default 0 (last Q') -> dll m' 0 Q' ->
  mstep S G o m S Q' G o m'.
Proof.
  intros HM Hc H1 H2 H3 H4 H5. pose proof HM as [M1 M2 M3 M4 M5 M6 _ M8 M9].
  assert (forall x, link_byte S x -> mown S G o x) as Hown.
  { intros x [Hx | (s & Hs & Hx)]; [right; left; unfold in_heap; lia |]. apply (header_own S Q G o m s); [done | done | lia]. }
  assert (forall s x, s ∈ S -> s + 16 <= x < s + seg_size -> ~ link_byte S x) as Hseg.
  { intros s x Hs Hx [Hx' | (s' & Hs' & Hx')].
    - destruct (heap_seg_apart S Q G o m s HM Hs); lia.
    - destruct (decide (s' = s)) as [-> | Hne]; [lia |]. unfold seg_size in *.
      destruct (segs_apart S Q G o m s' s HM Hs' Hs Hne); unfold seg_size in *; lia. }
  split; [split; try done | done | by eapply changes_mono | done].
  - apply (vs_frame o m); [done |]. intros x Hx. apply Hc. intros [Hl | (s & Hs & Hl)].
    + apply (M3 x); [left; unfold in_heap; lia | done].
    + destruct (M4 s Hs) as (_ & _ & Hn). destruct (Hn x) as [? _]; [unfold in_seg, seg_size; lia | done].
  - intros s Hs. destruct (M4 s Hs) as (S1 & S2 & S3). split_and!; try done. rewrite <- S2.
    apply (load_changes 8 _ _ _ _ Hc). intros x Hx. unfold segment_nr_pages in Hx. simpl in Hx.
    apply (Hseg s); [done | unfold seg_size; lia].
  - intros s i st HG. apply (pinv_ext m); [by apply M6 |]. intros x Hx. apply Hc.
    destruct (mi_key _ _ _ _ _ _ _ _ HM HG) as (Hs & _ & Hi).
    apply (Hseg s); [done |]. unfold seg_size.
    destruct (page_own_bounds m s i st x Hi (M6 _ _ _ HG) Hx) as [Hx' | Hx'];
      [apply in_struct_seg in Hx' as [Hx' ?] | apply in_area_seg in Hx' as [Hx' ?]];
      unfold in_seg, seg_size, meta_size in *; done || lia.
  - rewrite <- M8. apply (load_changes 8 _ _ _ _ Hc). intros x Hx [Hl | (s & Hs & Hl)]; unfold page_free in Hx; simpl in Hx.
    + lia.
    + destruct (M4 s Hs) as (_ & _ & Hn). destruct (Hn x) as (_ & _ & He); [unfold in_seg, seg_size; lia |].
      apply He. unfold in_empty. lia.
  - intros c Hc128. assert (load64 m' (heap_page heap c) = load64 m (heap_page heap c)) as ->; [| by apply M9].
    apply (load_changes 8 _ _ _ _ Hc). intros x Hx [Hl | (s & Hs & Hl)]; unfold heap_page in Hx; simpl in Hx.
    + lia.
    + destruct (heap_seg_apart S Q G o m s HM Hs); unfold seg_size in *; lia.
Qed.

(** [malloc_segment_queue_pop] removes the first segment. *)
Lemma pop_step S Q G o m s :
  minv S (s :: Q) G o m -> mstep S G o m S Q G o (malloc_segment_queue_pop m (heap_segment_queue heap)).
Proof.
  intros HM. destruct (mi_queue _ _ _ _ _ HM) as (Q1 & Q2 & Q3 & Q4 & D1 & D2 & D3).
  assert (s ∈ S) as Hs by (apply Q2; by left). destruct (mi_seg _ _ _ _ _ HM s Hs) as ((Hs0 & _ & Hs64) & _).
  pose proof (heap_seg_apart _ _ _ _ _ s HM Hs) as Hap. unfold seg_size in *.
  apply NoDup_cons in Q1 as [Hnin Hnd]. cbn [hd] in *.
  unfold malloc_segment_queue_pop, malloc_segment_queue_remove, queue_head, queue_tail, heap_segment_queue, segment_prev, segment_next in *.
  change (8 * NUM_SIZE_CLASSES) with 1024 in *. rewrite Q3. destruct (Z.eqb_spec s 0); [lia |]. cbn [negb].
  rewrite Z.eqb_refl.
  set (m1 := store64 m (heap + 1024) (load64 m (s + 8))).
  assert (load64 m1 (heap + 1024 + 8) = default 0 (last (s :: Q))) as T1 by (unfold m1; mem_simpl; exact Q4).
  assert (load64 m1 s = 0) as P1 by (unfold m1; mem_simpl; exact D1).
  assert (load64 m1 (s + 8) = hd 0 Q) as N1 by (unfold m1; mem_simpl; exact D2).
  assert (0 <= hd 0 Q < 2 ^ 64) as Hhd by (rewrite <- D2; apply load64_range).
  assert (load64 m1 (heap + 1024) = hd 0 Q) as H1.
  { unfold m1. rewrite load64_store64_eq, D2. by apply u64_small. }
  assert (changes (link_byte S) m m1) as C1 by (apply changes_store; intros x Hx; simpl in Hx; left; lia).
  rewrite T1. destruct Q as [|s2 Q].
  - cbn [last default hd] in *. rewrite Z.eqb_refl, P1.
    set (m2 := store64 m1 (heap + 1024 + 8) 0).
    assert (load64 m2 s = 0) as -> by (unfold m2; mem_simpl; exact P1). cbn [negb Z.eqb].
    assert (load64 m2 (s + 8) = 0) as -> by (unfold m2; mem_simpl; exact N1). cbn [negb Z.eqb].
    apply (mstep_queue S [s]); [done | | constructor | intros s' []%not_elem_of_nil | | | done].
    + eapply changes_trans; [exact C1 |]. apply changes_store. intros x Hx. simpl in Hx. left. lia.
    + unfold queue_head, heap_segment_queue. change (8 * NUM_SIZE_CLASSES) with 1024. unfold m2. mem_simpl. exact H1.
    + unfold queue_tail, heap_segment_queue. change (8 * NUM_SIZE_CLASSES) with 1024. unfold m2. by rewrite load64_store64_eq.
  - assert (s2 ∈ S) as Hs2 by (apply Q2; right; by left).
    assert (s2 <> s) as Hne by (intros ->; apply Hnin; by left).
    pose proof (segs_apart _ _ _ _ _ s2 s HM Hs2 Hs Hne) as Hap2. pose proof (heap_seg_apart _ _ _ _ _ s2 HM Hs2) as Hap3.
    destruct (mi_seg _ _ _ _ _ HM s2 Hs2) as ((Hs20 & _ & Hs264) & _). unfold seg_size in *.
    assert (last (s :: s2 :: Q) = last (s2 :: Q)) as El by done. rewrite El in T1 |- *.
    destruct (last (s2 :: Q)) as [t |] eqn:Et; [| by apply last_None in Et].
    assert (t ∈ s2 :: Q) as Hin by (by apply last_Some_elem_of). cbn [default id] in *.
    destruct (Z.eqb_spec s t) as [-> |]; [done |]. cbn [hd] in *. rewrite P1. cbn [negb Z.eqb].
    rewrite N1. destruct (Z.eqb_spec s2 0); [lia |]. cbn [negb]. rewrite P1.
    set (m3 := store64 (store64 m1 s2 0) (s + 8) 0).
    destruct D3 as (E1 & E2 & E3).
    assert (changes (link_byte S) m m3) as C3.
    { eapply changes_trans; [exact C1 |]. eapply changes_trans; apply changes_store; intros x Hx; simpl in Hx; right;
        [exists s2 | exists s]; (split; [done | lia]). }
    apply (mstep_queue S (s :: s2 :: Q)); [done | done | done | intros s' Hs'; apply Q2; by right | | | split_and!].
    + unfold queue_head, heap_segment_queue. change (8 * NUM_SIZE_CLASSES) with 1024. unfold m3. mem_simpl. exact H1.
    + unfold queue_tail, heap_segment_queue. change (8 * NUM_SIZE_CLASSES) with 1024. rewrite Et. unfold m3. mem_simpl. exact T1.
    + unfold segment_prev, m3. mem_simpl. done.
    + unfold segment_next in *. rewrite <- E2. unfold m3, m1. mem_simpl. done.
    + apply (dll_ext m); [| done]. intros s' x Hs' Hx.
      assert (s' ∈ S) as Hs'S by (apply Q2; right; by right).
      apply NoDup_cons in Hnd as [Hnin2 _].
      assert (s' <> s) as Hn1 by (intros ->; apply Hnin; by right). assert (s' <> s2) as Hn2 by (by intros ->).
      pose proof (segs_apart _ _ _ _ _ s' s HM Hs'S Hs Hn1). pose proof (segs_apart _ _ _ _ _ s' s2 HM Hs'S Hs2 Hn2).
      pose proof (heap_seg_apart _ _ _ _ _ s' HM Hs'S). unfold seg_size in *.
      unfold m3, m1, store64. by rewrite !load8_store_out by (simpl; lia).
Qed.

End Heap.
