(* ===== verification/MallocAlloc.v ===== *)
(** * Allocation and release of blocks

    New segments, [malloc], [free] and the initialisation, as transitions
    between states of the heap that satisfy [minv]. *)

From S2P Require Import Prelude Mem Align Malloc MallocProof MallocHeap.

(** ** A new segment *)

Definition fresh_pages (s : Z) (G : gmap (Z * Z) pst) : gmap (Z * Z) pst :=
  foldr (fun i G => <[(s, i) := Pst 0 []]> G) G (stride 0 1 32).

Lemma fresh_pages_lookup s G k :
  fresh_pages s G !! k = if decide (fst k = s /\ 0 <= snd k < 32) then Some (Pst 0 []) else G !! k.
Proof.
  destruct k as [s' i']. cbn [fst snd]. unfold fresh_pages.
  assert (forall l, foldr (fun i G => <[(s, i) := Pst 0 []]> G) G l !! (s', i') =
    if decide (s' = s /\ i' ∈ l) then Some (Pst 0 []) else G !! (s', i')) as Hl.
  { induction l as [|i l IH]; cbn [foldr].
    - destruct (decide _) as [[_ []%not_elem_of_nil] |]; done.
    - destruct (decide ((s', i') = (s, i))) as [[= -> ->] | Hne].
      + rewrite lookup_insert_eq, decide_True; [done |]. split; [done | by left].
      + rewrite lookup_insert_ne, IH by done. destruct (decide (s' = s /\ i' ∈ l)) as [[-> ?] | Hn].
        * rewrite decide_True; [done |]. split; [done | by right].
        * rewrite decide_False; [done |]. intros [-> [-> | ?]%elem_of_cons]; tauto. }
  rewrite Hl. apply decide_ext. rewrite elem_of_stride. split.
  - intros [-> (k & Hk & ->)]. lia.
  - intros [-> Hi]. split; [done |]. exists (Z.to_nat i'). lia.
Qed.

Lemma init_loop_spec s fuel k m :
  load64 m (segment_nr_pages s) = 32 -> 0 <= k -> Z.of_nat fuel = 32 - k ->
  exists m', malloc_segment_init_loop fuel s k m = Ok m' /\
    changes (fun x => exists j, k <= j < 32 /\ x = page_idx (segment_page s j)) m m' /\
    forall j, k <= j < 32 -> load8 m' (page_idx (segment_page s j)) = j.
Proof.
  revert k m. induction fuel as [|fuel IH]; intros k m Hn Hk Hf; cbn [malloc_segment_init_loop]; rewrite Hn.
  - destruct (Z.ltb_spec k 32); [lia |]. exists m. split_and!; [done | apply changes_refl | lia].
  - destruct (Z.ltb_spec k 32); [| lia]. set (m1 := store8 m (page_idx (segment_page s k)) k).
    destruct (IH (k + 1) m1) as (m' & E & Hc & Hj); [| lia | lia |].
    + rewrite <- Hn. apply load_ext. intros x Hx. unfold segment_nr_pages in Hx. simpl in Hx.
      apply load8_store8_ne. unfold page_idx, segment_page, sizeof_malloc_page. lia.
    + exists m'. split_and!; [done | |].
      * intros x Hx. rewrite Hc by (intros (j & Hj' & ->); apply Hx; exists j; split; [lia | done]).
        apply load8_store8_ne. intros <-. apply Hx. exists k. split; [lia | done].
      * intros j Hj'. destruct (decide (j = k)) as [-> |]; [| apply Hj; lia].
        rewrite Hc; [unfold m1; rewrite load8_store8_eq; apply u8_small; lia |].
        intros (j & Hj2 & E2). unfold page_idx, segment_page, sizeof_malloc_page in E2. lia.
Qed.

(** [malloc_segment_init] on zero-filled memory makes 32 unclaimed pages. *)
Lemma segment_init_spec s m :
  seg_at s -> (forall x, in_seg s x -> load8 m x = 0) ->
  exists m', malloc_segment_init s MALLOC_SEGMENT_SIZE m = Ok m' /\ changes (in_seg s) m m' /\
    load64 m' (segment_nr_pages s) = 32 /\ forall i, 0 <= i < 32 -> pinv m' s i (Pst 0 []).
Proof.
  intros Hs Hz. unfold malloc_segment_init. change (MALLOC_SEGMENT_SIZE / MALLOC_PAGE_SIZE) with 32.
  set (m3 := store64 (store64 (store64 m (segment_prev s) 0) (segment_next s) 0) (segment_nr_pages s) 32).
  assert (load64 m3 (segment_nr_pages s) = 32) as Hn by (unfold m3; by rewrite load64_store64_eq).
  assert (changes (fun x => s <= x < s + 24) m m3) as C3.
  { unfold m3. repeat (eapply changes_trans; [| apply changes_store]); [apply changes_refl | ..];
      unfold segment_prev, segment_next, segment_nr_pages; intros x Hx; simpl in Hx; cbv beta; lia. }
  destruct (init_loop_spec s (Z.to_nat 32) 0 m3 Hn) as (m' & E & Hc & Hj); [done | done |].
  exists m'. split; [done |].
  assert (changes (in_seg s) m m') as Hcs.
  { eapply changes_trans; eapply changes_mono; [| exact C3 | | exact Hc].
    - intros x Hx. cbv beta in Hx. unfold in_seg, seg_size. lia.
    - intros x (j & Hj' & ->). unfold page_idx. layout. lia. }
  assert (forall i a, 0 <= i < 32 -> segment_page s i <= a <= segment_page s i + 24 -> load64 m' a = 0) as Hf.
  { intros i a Hi Ha. transitivity (load64 ∅ a); [| done]. apply load_ext. intros x Hx. simpl in Hx.
    rewrite Hc, C3, Hz; [done | layout; lia | layout; lia |]. intros (j & Hj' & ->). unfold page_idx in *. layout. lia. }
  split_and!; [done | |].
  - rewrite <- Hn. apply (load_changes 8 _ _ _ _ Hc). intros x Hx (j & Hj' & ->).
    unfold segment_nr_pages, page_idx in Hx. simpl in Hx. layout. lia.
  - intros i Hi. split; cbn [p_bs p_free]; unfold page_block_size, page_free.
    + apply Hj. lia.
    + apply (Hf i); lia.
    + intros _. split; [| done]. apply (Hf i); lia.
    + done.
Qed.

Section Alloc.
Context {V : Type} `{VmSpaceLaws V} (heap empty : Z).
Let minv := minv heap empty.
Let mstep := mstep heap empty.

(** What happens in memory: the system gives out [s], the segment is initialised
    and becomes the only element of the queue. *)
Record segment_added (S : gset Z) (G : gmap (Z * Z) pst) (o : V) (m : mem) (s : Z) (o' : V) (m' : mem) : Prop := {
  sa_seg : seg_at s;
  sa_own x : in_seg s x -> vs_own o x;
  sa_own' x : vs_own o' x <-> vs_own o x /\ ~ in_seg s x;
  sa_rep : vs_rep o' m';
  sa_changes : changes (fun x => vs_own o x \/ heap + 1024 <= x < heap + 1040) m m';
  sa_nr_pages : load64 m' (segment_nr_pages s) = 32;
  sa_pages i : 0 <= i < 32 -> pinv m' s i (Pst 0 []);
  sa_links : load64 m' (segment_prev s) = 0 /\ load64 m' (segment_next s) = 0 /\
    load64 m' (queue_head (heap_segment_queue heap)) = s /\ load64 m' (queue_tail (heap_segment_queue heap)) = s
}.

Lemma enqueue_empty m s :
  seg_at s -> 0 < heap -> heap + 1040 < 2 ^ 64 -> heap + 1040 <= s \/ s + seg_size <= heap ->
  load64 m (queue_tail (heap_segment_queue heap)) = 0 ->
  let m' := malloc_segment_queue_enqueue m (heap_segment_queue heap) s in
  changes (fun x => s <= x < s + 16 \/ heap + 1024 <= x < heap + 1040) m m' /\
  load64 m' (segment_prev s) = 0 /\ load64 m' (segment_next s) = 0 /\
  load64 m' (queue_head (heap_segment_queue heap)) = s /\ load64 m' (queue_tail (heap_segment_queue heap)) = s.
Proof.
  intros (Hs & _ & Hs64) Hh Hh64 Hap Ht. unfold malloc_segment_queue_enqueue, queue_head, queue_tail, heap_segment_queue,
    segment_prev, segment_next, seg_size in *. change (8 * NUM_SIZE_CLASSES) with 1024 in *. cbv zeta. rewrite Ht.
  set (m2 := store64 (store64 m s 0) (s + 8) 0).
  assert (load64 m2 (heap + 1024 + 8) = 0) as -> by (unfold m2; mem_simpl; exact Ht). cbn [negb Z.eqb].
  split_and!.
  - unfold m2. repeat (eapply changes_trans; [| apply changes_store]); [apply changes_refl | ..];
      intros x Hx; simpl in Hx; lia.
  - unfold m2. mem_simpl. done.
  - unfold m2. mem_simpl. done.
  - mem_simpl. apply Z.mod_small. lia.
  - mem_simpl. apply Z.mod_small. lia.
Qed.

Lemma alloc_segment_mem S G (o : V) m :
  minv S [] G o m ->
  (vs_empty o /\ malloc_heap_alloc_segment o m = Ok (0, o, m)) \/
  exists s o' m', malloc_heap_alloc_segment o m = Ok (s, o', m') /\ s <> 0 /\
    segment_added S G o m s o' (malloc_segment_queue_enqueue m' (heap_segment_queue heap) s).
Proof.
  intros HM. unfold malloc_heap_alloc_segment, malloc_os_alloc.
  destruct (vs_alloc o m (mi_rep _ _ _ _ _ _ _ HM)) as [(He & r & st & Hr & E) |
    (s & o' & m1 & E & Hs0 & Hsd & Hs64 & Hs & Hrep & Hown & Hc)]; rewrite E.
  { left. split; [done |]. destruct (Z.eqb_spec r 0); done. }
  right. cbn [negb Z.eqb]. rewrite (proj2 (Z.mod_divide s MALLOC_SEGMENT_SIZE ltac:(done)) Hsd). cbn [mbind outcome_bind Z.eqb].
  assert (seg_at s) as Hseg by done. destruct (Z.eqb_spec s 0) as [E0 |]; [lia |].
  destruct (segment_init_spec s m1 Hseg) as (m2 & E2 & C2 & N2 & P2); [intros x Hx; by apply Hs |].
  rewrite E2. cbn [mbind outcome_bind]. exists s, o', m2. split_and!; [done | done |].
  destruct (mi_static _ _ _ _ _ _ _ HM) as (Hh0 & Hh64 & _).
  assert (heap + 1040 <= s \/ s + seg_size <= heap) as Hap.
  { apply ranges_disjoint; [lia | done |]. intros x Hx Hx'.
    apply (mi_static_os _ _ _ _ _ _ _ HM x); [by left | by apply Hs]. }
  destruct (mi_queue _ _ _ _ _ _ _ HM) as (_ & _ & _ & Ht & _).
  assert (changes (vs_own o) m m2) as C02.
  { eapply changes_trans; [exact Hc |]. eapply changes_mono; [| exact C2]. intros x Hx. by apply Hs. }
  destruct (enqueue_empty m2 s Hseg Hh0 Hh64 Hap) as (C3 & L).
  { transitivity (load64 m (queue_tail (heap_segment_queue heap))); [| exact Ht].
    apply (load_changes 8 _ _ _ _ C02). intros x Hx.
    unfold queue_tail, heap_segment_queue in Hx. change (8 * NUM_SIZE_CLASSES) with 1024 in Hx. simpl in Hx.
    apply (mi_static_os _ _ _ _ _ _ _ HM). left. unfold in_heap. lia. }
  set (m3 := malloc_segment_queue_enqueue m2 _ s) in *.
  split; try done.
  - intros x Hx. by apply Hs.
  - apply (vs_frame o' m1); [done |]. intros x Hx. apply Hown in Hx as [Hx Hns].
    rewrite C3, C2; [done | done |]. intros [Hx' | Hx'].
    + apply Hns. change MALLOC_SEGMENT_SIZE with (2 ^ 21). lia.
    + apply (mi_static_os _ _ _ _ _ _ _ HM x); [left; unfold in_heap; lia | done].
  - eapply changes_trans; [eapply changes_mono; [| exact C02]; by left |]. eapply changes_mono; [| exact C3].
    intros x [Hx | Hx]; [left | by right]. apply Hs. change MALLOC_SEGMENT_SIZE with (2 ^ 21). lia.
  - rewrite <- N2. apply (load_changes 8 _ _ _ _ C3). unfold segment_nr_pages. intros x Hx. simpl in Hx.
    unfold seg_size in *. lia.
  - intros i Hi. apply (pinv_ext m2); [by apply P2 |]. intros x Hx. apply C3.
    destruct (page_own_bounds m2 s i _ x Hi (P2 i Hi) Hx) as [Hx' | Hx'];
      [apply in_struct_seg in Hx' as [Hx' ?] | apply in_area_seg in Hx' as [Hx' ?]]; try done;
      unfold in_seg, meta_size in *; unfold seg_size in *; lia.
Qed.

Lemma segment_added_fresh S Q G (o : V) m s o' m' :
  minv S Q G o m -> segment_added S G o m s o' m' -> s ∉ S /\ forall i, G !! (s, i) = None.
Proof.
  intros HM HA. assert (s ∉ S) as Hn.
  { intros Hs. destruct (mi_seg _ _ _ _ _ _ _ HM s Hs) as (_ & _ & Hx).
    assert (in_seg s s) as Hin by (unfold in_seg, seg_size; lia).
    destruct (Hx s Hin) as [? _]. by apply (sa_own _ _ _ _ _ _ _ HA) in Hin. }
  split; [done |]. intros i. destruct (G !! (s, i)) as [st |] eqn:E; [| done].
  by destruct (mi_key _ _ _ _ _ _ _ _ _ _ HM E) as [? _].
Qed.

Lemma fresh_pages_live s G p bs :
  (forall i, G !! (s, i) = None) -> live (fresh_pages s G) p bs <-> live G p bs.
Proof.
  intros Hn. unfold live. split; intros (s' & i & st & HG & Hr); exists s', i, st.
  - rewrite fresh_pages_lookup in HG. destruct (decide _) as [_ | _]; [| by split].
    injection HG as <-. cbn [p_bs] in Hr. destruct Hr as (<- & ? & _). done.
  - rewrite fresh_pages_lookup. destruct (decide _) as [[Es _] |]; [| by split].
    cbn [fst] in Es. rewrite Es, Hn in HG. discriminate.
Qed.

(** Bytes of the old segments and of the static objects keep their values. *)
Lemma segment_added_keeps S Q G (o : V) m s o' m' x :
  minv S Q G o m -> segment_added S G o m s o' m' ->
  heap <= x < heap + 1024 \/ in_empty empty x \/ (exists s', s' ∈ S /\ in_seg s' x) -> load8 m' x = load8 m x.
Proof.
  intros HM HA Hx. apply (sa_changes _ _ _ _ _ _ _ HA). destruct (mi_static _ _ _ _ _ _ _ HM) as (_ & _ & _ & _ & Hap).
  destruct Hx as [Hx | [Hx | (s' & Hs' & Hx)]]; intros [Ho | Hh].
  - apply (mi_static_os _ _ _ _ _ _ _ HM x); [left; unfold in_heap; lia | done].
  - lia.
  - by apply (mi_static_os _ _ _ _ _ _ _ HM x); [right |].
  - unfold in_empty in Hx. lia.
  - destruct (mi_seg _ _ _ _ _ _ _ HM s' Hs') as (_ & _ & Hn). by destruct (Hn x Hx).
  - destruct (mi_seg _ _ _ _ _ _ _ HM s' Hs') as (_ & _ & Hn). destruct (Hn x Hx) as (_ & Hh' & _).
    apply Hh'. unfold in_heap. lia.
Qed.

Lemma segment_added_minv S G (o : V) m s o' m' :
  minv S [] G o m -> segment_added S G o m s o' m' -> minv ({[s]} ∪ S) [s] (fresh_pages s G) o' m'.
Proof.
  intros HM HA. destruct (segment_added_fresh _ _ _ _ _ _ _ _ HM HA) as [HnS HnG].
  pose proof (fun x => segment_added_keeps _ _ _ _ _ _ _ _ x HM HA) as Hk.
  assert (forall x, vs_own o' x -> vs_own o x) as Hoo by (intros x Hx; by apply (sa_own' _ _ _ _ _ _ _ HA) in Hx as [? _]).
  destruct (sa_links _ _ _ _ _ _ _ HA) as (L1 & L2 & L3 & L4). pose proof (mi_static _ _ _ _ _ _ _ HM) as Hstat.
  split.
  - apply (sa_rep _ _ _ _ _ _ _ HA).
  - done.
  - intros x Hx Ho. by apply (mi_static_os _ _ _ _ _ _ _ HM x), Hoo.
  - intros s' [->%elem_of_singleton | Hs']%elem_of_union.
    + split_and!; [apply HA | apply HA |]. intros x Hx.
      pose proof (sa_own _ _ _ _ _ _ _ HA x Hx) as Ho. split_and!.
      * intros Ho'. by apply (sa_own' _ _ _ _ _ _ _ HA) in Ho' as [_ ?].
      * intros Hh. by apply (mi_static_os _ _ _ _ _ _ _ HM x); [left |].
      * intros Hh. by apply (mi_static_os _ _ _ _ _ _ _ HM x); [right |].
    + destruct (mi_seg _ _ _ _ _ _ _ HM s' Hs') as (S1 & S2 & S3). split_and!; [done | |].
      * rewrite <- S2. apply load_ext. intros x Hx. unfold segment_nr_pages in Hx. simpl in Hx. apply Hk.
        right. right. exists s'. split; [done | unfold in_seg, seg_size; lia].
      * intros x Hx. destruct (S3 x Hx) as (? & ? & ?). split_and!; auto.
  - intros s' i. rewrite fresh_pages_lookup, elem_of_union, elem_of_singleton. cbn [fst snd].
    pose proof (mi_dom _ _ _ _ _ _ _ HM s' i) as Hd. destruct (decide _) as [[-> Hi] | Hn].
    + split; [intros _ | done]. split; [by left | done].
    + rewrite Hd. split; [intros [? ?]; split; [by right | done] |]. intros [[-> | ?] Hi]; [| done]. tauto.
  - intros s' i st HG. rewrite fresh_pages_lookup in HG. cbn [fst snd] in HG. destruct (decide _) as [[-> Hi] | Hn].
    + injection HG as <-. by apply HA.
    + destruct (mi_key _ _ _ _ _ _ _ _ _ _ HM HG) as (Hs' & Hseg' & Hi).
      apply (pinv_ext m); [by apply (mi_page _ _ _ _ _ _ _ HM) |]. intros x Hx. apply Hk. right. right. exists s'. split; [done |].
      by destruct (page_own_not_live _ _ _ _ _ _ _ _ _ _ _ HM HG Hx).
  - cbn [hd last default]. split_and!; try done.
    + apply NoDup_singleton.
    + intros s' ->%list_elem_of_singleton. apply elem_of_union_l. by apply elem_of_singleton.
  - rewrite <- (mi_empty _ _ _ _ _ _ _ HM). apply load_ext. intros x Hx. unfold page_free in Hx. simpl in Hx. apply Hk.
    right. left. unfold in_empty. lia.
  - intros c Hc. assert (load64 m' (heap_page heap c) = load64 m (heap_page heap c)) as ->.
    { apply load_ext. intros x Hx. unfold heap_page in Hx. simpl in Hx. apply Hk. left. lia. }
    destruct (mi_class _ _ _ _ _ _ _ HM c Hc) as [? | (s' & i & st & E & HG & Hr)]; [by left | right].
    exists s', i, st. split_and!; try apply Hr; [done |]. rewrite fresh_pages_lookup. destruct (decide _) as [[Es _] |]; [| done].
    cbn [fst] in Es. rewrite Es, HnG in HG. discriminate.
Qed.

Lemma new_segment_step S G (o : V) m :
  minv S [] G o m ->
  (vs_empty o /\ malloc_heap_alloc_segment o m = Ok (0, o, m)) \/
  exists s o' m', malloc_heap_alloc_segment o m = Ok (s, o', m') /\ s <> 0 /\
    mstep S G o m ({[s]} ∪ S) [s] (fresh_pages s G) o'
      (malloc_segment_queue_enqueue m' (heap_segment_queue heap) s).
Proof.
  intros HM. destruct (alloc_segment_mem S G o m HM) as [? | (s & o' & m' & E & Hs & HA)]; [by left | right].
  exists s, o', m'. split_and!; [done | done |]. destruct (segment_added_fresh _ _ _ _ _ _ _ _ HM HA) as [HnS HnG].
  assert (forall p bs, live (fresh_pages s G) p bs <-> live G p bs) as HL by (intros; by apply fresh_pages_live).
  split.
  - by eapply segment_added_minv.
  - done.
  - eapply changes_mono; [| apply (sa_changes _ _ _ _ _ _ _ HA)]. intros x [? | ?]; [by left | right; left; unfold in_heap; lia].
  - intros x [Ho | [? | [? | (s' & [->%elem_of_singleton | Hs']%elem_of_union & Hx & Hn)]]].
    + left. by apply (sa_own' _ _ _ _ _ _ _ HA) in Ho as [? _].
    + by right; left.
    + by right; right; left.
    + left. by apply (sa_own _ _ _ _ _ _ _ HA).
    + right. right. right. exists s'. split_and!; [done | done |]. by rewrite <- (live_byte_iff G _ x HL).
Qed.

(** ** Allocation *)

Lemma block_size_spec size :
  1 <= size <= 1016 ->
  bs_ok (to_block_size size) /\ size <= to_block_size size < size + 8 /\
  1 <= to_size_class size < 128 /\ to_block_size size = 8 * to_size_class size.
Proof.
  intros Hs. unfold to_size_class, to_block_size. change MIN_OBJ_SIZE with (2 ^ 3).
  change (Z.land (u64 (size + MIN_OBJ_SIZE_MASK)) (u64 (Z.lnot MIN_OBJ_SIZE_MASK)))
    with (align_down (u64 (size + (2 ^ 3 - 1))) (2 ^ 3)).
  rewrite u64_small by lia. set (b := align_down (size + (2 ^ 3 - 1)) (2 ^ 3)).
  pose proof (align_down_bounds (size + (2 ^ 3 - 1)) 3 ltac:(lia) ltac:(lia)) as Hb. fold b in Hb.
  pose proof (align_down_mod (size + (2 ^ 3 - 1)) 3 ltac:(lia) ltac:(lia)) as Hm. fold b in Hm.
  apply Z.mod_divide in Hm as [q Hq]; [| lia]. rewrite Hq, Z.div_mul by lia.
  change (2 ^ 3) with 8 in *. unfold bs_ok. split_and!; try lia. by exists q.
Qed.

Definition page_with_room (G : gmap (Z * Z) pst) (bs page : Z) : Prop :=
  exists s i st, page = segment_page s i /\ page <> 0 /\ G !! (s, i) = Some st /\ p_bs st = bs /\ p_free st <> [].

Lemma alloc_page_spec size S Q G (o : V) m fuel :
  minv S Q G o m -> bs_ok (to_block_size size) -> (length Q < fuel)%nat ->
  exists page S' Q' G' o' m', malloc_heap_alloc_page fuel heap size o m = Ok (page, o', m') /\
    mstep S G o m S' Q' G' o' m' /\ ((page = 0 /\ vs_empty o') \/ page_with_room G' (to_block_size size) page).
Proof.
  intros HM Hok. revert fuel G m HM. induction Q as [|s Q IH]; intros fuel G m HM Hf; (destruct fuel as [|fuel]; [lia |]).
  all: cbn [malloc_heap_alloc_page]; unfold malloc_segment_queue_head;
    destruct (mi_queue _ _ _ _ _ _ _ HM) as (Q1 & Q2 & Q3 & Q4 & Q5); rewrite Q3; cbn [hd].
  - cbn [Z.eqb]. destruct (new_segment_step S G o m HM) as [[He E] | (s & o' & m' & E & Hs & HS)]; rewrite E; cbn [mbind outcome_bind].
    + cbn [Z.eqb]. exists 0, S, [], G, o, m. split_and!; [done | by apply mstep_refl | by left].
    + destruct (Z.eqb_spec s 0); [done |]. cbn [mbind outcome_bind].
      destruct (Z.eqb_spec s 0); [done |].
      set (m2 := malloc_segment_queue_enqueue m' _ s) in *. pose proof (ms_inv _ _ _ _ _ _ _ _ _ _ _ HS) as HM2.
      assert (s ∈ ({[s]} ∪ S : gset Z)) as HsS by set_solver.
      destruct (mi_seg _ _ _ _ _ _ _ HM2 s HsS) as (_ & Hn & _). rewrite Hn.
      destruct (find_page_spec heap empty _ _ _ s _ (Z.to_nat 32) 0 _ _ HM2 HsS Hok ltac:(lia) ltac:(lia))
        as (page & G' & m3 & E3 & HS3 & Hr). rewrite E3. cbn [mbind outcome_bind].
      destruct Hr as [[_ Hj] | (j & st & Ep & Hp & HG & Hb & Hfr)].
      * exfalso. apply (Hj 0 (Pst 0 [])); [lia | | done]. rewrite fresh_pages_lookup, decide_True; [done |]. cbn. lia.
      * destruct (Z.eqb_spec page 0); [done |]. cbn [negb].
        exists page, ({[s]} ∪ S), [s], G', o', m3. split_and!; [done | by eapply mstep_trans | right].
        by exists s, j, st.
  - assert (s ∈ S) as HsS by (apply Q2; by left).
    destruct (mi_seg _ _ _ _ _ _ _ HM s HsS) as ((Hs0 & _) & Hn & _).
    destruct (Z.eqb_spec s 0); [lia |]. cbn [mbind outcome_bind]. destruct (Z.eqb_spec s 0); [done |]. rewrite Hn.
    destruct (find_page_spec heap empty _ _ _ s _ (Z.to_nat 32) 0 _ _ HM HsS Hok ltac:(lia) ltac:(lia))
      as (page & G' & m3 & E3 & HS3 & Hr). rewrite E3. cbn [mbind outcome_bind].
    destruct Hr as [[-> _] | (j & st & Ep & Hp & HG & Hb & Hfr)].
    + cbn [negb Z.eqb]. pose proof (pop_step _ _ _ _ _ _ _ _ (ms_inv _ _ _ _ _ _ _ _ _ _ _ HS3)) as HSp.
      destruct (IH fuel G' _ (ms_inv _ _ _ _ _ _ _ _ _ _ _ HSp)) as (page & S' & Q' & G2 & o' & m' & E & HS & Hr).
      { cbn [length] in Hf. lia. }
      exists page, S', Q', G2, o', m'. split_and!; [done | | done].
      eapply mstep_trans; [exact HS3 |]. by eapply mstep_trans.
    + destruct (Z.eqb_spec page 0); [done |]. cbn [negb].
      exists page, S, (s :: Q), G', o, m3. split_and!; [done | done | right]. by exists s, j, st.
Qed.

(** The page of a size class. *)
Lemma set_class_step S Q G (o : V) m c s i st :
  minv S Q G o m -> 0 <= c < 128 -> G !! (s, i) = Some st -> p_bs st = 8 * c -> p_bs st <> 0 ->
  let m' := store64 m (heap_page heap c) (segment_page s i) in
  mstep S G o m S Q G o m' /\ load64 m' (heap_page heap c) = segment_page s i.
Proof.
  intros HM Hc HG Hb Hb0 m'. destruct (mi_key _ _ _ _ _ _ _ _ _ _ HM HG) as (HsS & (Hs0 & _ & Hs64) & Hi).
  destruct (mi_static _ _ _ _ _ _ _ HM) as (B1 & B2 & B3 & B4 & B5).
  assert (load64 m' (heap_page heap c) = segment_page s i) as Ec.
  { unfold m'. rewrite load64_store64_eq. apply u64_small. layout. lia. }
  split; [| done].
  assert (changes (fun x => heap + 8 * c <= x < heap + 8 * c + 8) m m') as Hch.
  { apply changes_store. unfold heap_page. intros x Hx. simpl in Hx. lia. }
  assert (forall s' x, s' ∈ S -> in_seg s' x -> load8 m' x = load8 m x) as Hsx.
  { intros s' x Hs' Hx. apply Hch. destruct (mi_seg _ _ _ _ _ _ _ HM s' Hs') as (_ & _ & Hn).
    destruct (Hn x Hx) as (_ & Hh & _). intros Hx'. apply Hh. unfold in_heap. lia. }
  assert (forall c', 0 <= c' < 130 -> c' <> c -> load64 m' (heap + 8 * c') = load64 m (heap + 8 * c')) as Hh.
  { intros c' Hc' Hne. apply (load_changes 8 _ _ _ _ Hch). intros x Hx. simpl in Hx. lia. }
  split; [| done | | done].
  - pose proof HM as [M1 M2 M3 M4 M5 M6 M7 M8 M9]. split; try done.
    + apply (vs_frame o m); [done |]. intros x Hx. apply Hch. intros Hx'. apply (M3 x); [left; unfold in_heap; lia | done].
    + intros s' Hs'. destruct (M4 s' Hs') as (S1 & S2 & S3). split_and!; try done. rewrite <- S2. apply load_ext.
      intros x Hx. unfold segment_nr_pages in Hx. simpl in Hx. apply (Hsx s'); [done | unfold in_seg, seg_size; lia].
    + intros s' i' st' HG'. destruct (mi_key _ _ _ _ _ _ _ _ _ _ HM HG') as (Hs' & _ & Hi').
      apply (pinv_ext m); [by apply M6 |]. intros x Hx. apply (Hsx s'); [done |].
      by destruct (page_own_not_live _ _ _ _ _ _ _ _ _ _ _ HM HG' Hx).
    + destruct M7 as (Q1 & Q2 & Q3 & Q4 & Q5). unfold queue_head, queue_tail, heap_segment_queue in *.
      change NUM_SIZE_CLASSES with 128 in *. rewrite Hh by lia.
      replace (heap + 8 * 128 + 8) with (heap + 8 * 129) in * by lia. rewrite Hh by lia. split_and!; try done.
      apply (dll_ext m); [| done]. intros s' x Hs' Hx. apply (Hsx s'); [auto | unfold in_seg, seg_size; lia].
    + rewrite <- M8. apply (load_changes 8 _ _ _ _ Hch). unfold page_free. intros x Hx. simpl in Hx. lia.
    + intros c' Hc'. destruct (decide (c' = c)) as [-> |]; [right; exists s, i, st; split_and!; [done | done | done | lia] |].
      unfold heap_page in *. rewrite Hh by lia. by apply M9.
  - eapply changes_mono; [| exact Hch]. intros x Hx. right. left. unfold in_heap. cbv beta in Hx. lia.
Qed.

Lemma get_page_spec size S Q G (o : V) m fuel :
  minv S Q G o m -> 1 <= size <= 1016 -> (length Q < fuel)%nat ->
  exists page S' Q' G' o' m', malloc_heap_get_page fuel heap size o m = Ok (page, o', m') /\
    mstep S G o m S' Q' G' o' m' /\
    ((page = 0 /\ vs_empty o') \/
     (page_with_room G' (to_block_size size) page /\ load64 m' (heap_page heap (to_size_class size)) = page)).
Proof.
  intros HM Hsz Hf. destruct (block_size_spec size Hsz) as (Hok & Hb & Hc & Ec).
  unfold malloc_heap_get_page, malloc_page_full. set (c := to_size_class size) in *.
  destruct (mi_static _ _ _ _ _ _ _ HM) as (_ & _ & B3 & _).
  set (page0 := load64 m (heap_page heap c)).
  assert (page0 <> 0 /\ (load64 m (page_free page0) = 0 \/
    exists s i st, page0 = segment_page s i /\ G !! (s, i) = Some st /\ p_bs st = to_block_size size /\ p_free st <> [])) as [Hp0 Hpage].
  { unfold page0. destruct (mi_class _ _ _ _ _ _ _ HM c ltac:(lia)) as [-> | (s & i & st & -> & HG & Hbs & _)].
    - split; [lia | left]. apply (mi_empty _ _ _ _ _ _ _ HM).
    - destruct (mi_key _ _ _ _ _ _ _ _ _ _ HM HG) as (_ & (Hs0 & _) & Hi). split; [layout; lia |].
      destruct (pi_claimed _ _ _ _ (mi_page _ _ _ _ _ _ _ HM _ _ _ HG)) as (_ & _ & _ & Hch & _ & _); [lia |].
      destruct (p_free st) as [|b fr] eqn:Ef; [by left |]. right. exists s, i, st. rewrite Ef. split_and!; [done | done | lia | done]. }
  destruct (Z.eqb_spec page0 0); [done |]. cbn [mbind outcome_bind].
  destruct (Z.eqb_spec (load64 m (page_free page0)) 0) as [E0 | En]; cbn [negb].
  - destruct (alloc_page_spec size S Q G o m fuel HM Hok Hf) as (page & S' & Q' & G' & o' & m' & E & HS & Hr).
    rewrite E. cbn [mbind outcome_bind]. destruct Hr as [[-> He] | Hroom].
    + cbn [negb Z.eqb]. exists 0, S', Q', G', o', m'. split_and!; [done | done | by left].
    + pose proof Hroom as (s & i & st & -> & Hne & HG & Hbs & Hfr). destruct (Z.eqb_spec (segment_page s i) 0); [done |]. cbn [negb].
      destruct (set_class_step S' Q' G' o' m' c s i st (ms_inv _ _ _ _ _ _ _ _ _ _ _ HS)) as [HS2 Ec2]; [lia | done | lia | lia |].
      exists (segment_page s i), S', Q', G', o', (store64 m' (heap_page heap c) (segment_page s i)).
      split_and!; [done | by eapply mstep_trans | by right].
  - destruct Hpage as [? | (s & i & st & Ep & HG & Hbs & Hfr)]; [done |].
    exists page0, S, Q, G, o, m. split_and!; [done | by apply mstep_refl | right]. split; [| done].
    by exists s, i, st.
Qed.

End Alloc.
