(* ===== verification/MallocTheorems.v ===== *)
(** * Correctness of malloc and free

    What the allocator promises to programs, and at the end the allocator on a
    concrete machine, with the inputs on which it fails. *)

From S2P Require Import Prelude Align Mem Malloc MallocProof MallocHeap MallocAlloc.

Section Theorems.
Context {V : Type} `{VmSpaceLaws V} (heap empty : Z).

(** The first free block of a page is taken. *)
Lemma take_block S Q G (o : V) m s i st b fr :
  minv heap empty S Q G o m -> G !! (s, i) = Some st -> p_free st = b :: fr -> p_bs st <> 0 ->
  let G' := <[(s, i) := Pst (p_bs st) fr]> G in
  exists m', malloc_page_alloc_obj m (segment_page s i) = (b, m') /\ minv heap empty S Q G' o m' /\
    changes (in_struct s i) m m' /\ 0 < b /\ (8 | b) /\
    (forall x, b <= x < b + p_bs st -> mown heap empty S G o x) /\
    (forall p bs, live G' p bs <-> live G p bs \/ (p = b /\ bs = p_bs st)).
Proof.
  intros HM HG Ef Hbs G'. destruct (mi_key _ _ _ _ _ _ _ _ _ _ HM HG) as (HsS & Hs & Hi).
  pose proof (mi_page _ _ _ _ _ _ _ HM _ _ _ HG) as HP.
  destruct (pi_claimed _ _ _ _ HP Hbs) as (Hok & _ & _ & _ & Hnd & Hbl). rewrite Ef in Hnd, Hbl.
  apply NoDup_cons in Hnd as [Hnin _].
  assert (is_block s i (p_bs st) b) as Hb by (apply Hbl; by left).
  assert (forall p bs, live G' p bs <-> live G p bs \/ (p = b /\ bs = p_bs st)) as HL.
  { intros p bs. unfold G'. rewrite live_insert, (live_split G s i st p bs HG), Ef. cbn [p_bs p_free].
    destruct (decide (p = b)) as [-> | Hne]; rewrite not_elem_of_cons; intuition congruence. }
  assert (pinv m s i (Pst (p_bs st) (b :: fr))) as HP' by (rewrite <- Ef; by destruct st).
  destruct (page_alloc_obj_spec s i Hs Hi m (p_bs st) b fr Hbs HP') as (m' & E & HP2 & Hc).
  destruct (block_aligned s i (p_bs st) b Hs Hi Hok Hb) as [Hb8 Hb0].
  assert (minv heap empty S Q G' o m') as HM'.
  { apply (minv_page heap empty S Q G o m m' s i st); [done | done | by right | done |].
    eapply changes_mono; [| exact Hc]. by left. }
  exists m'. split_and!; try done. intros x Hx. right. right. right. exists s.
  destruct (block_bounds s i (p_bs st) b Hi Hok Hb) as [Ha1 Ha2].
  assert (in_area s i x) as Hxa by (unfold in_area; lia).
  split_and!; [done | by apply (in_area_seg s i) |].
  intros (p & bs & Hlive & Hp). destruct (live_disjoint _ _ _ _ _ _ _ p bs b (p_bs st) x HM') as [-> ->]; try lia.
  - apply HL. by left.
  - apply HL. by right.
  - apply (live_split G s i st b _ HG) in Hlive as [(_ & _ & _ & Hn) | (s' & i' & st' & Hne & HG' & Eb & _ & Hb' & _)].
    + apply Hn. rewrite Ef. by left.
    + destruct (mi_key _ _ _ _ _ _ _ _ _ _ HM HG') as (_ & Hs' & Hi').
      destruct (block_bounds s' i' (p_bs st) b Hi' Hok Hb') as [Ha1' Ha2'].
      destruct (areas_disjoint s i s' i' x Hs Hs' Hi Hi' Hxa) as [-> ->]; [unfold in_area; lia | done].
Qed.

(** The size that [malloc_heap_alloc_small] works with. *)
Definition obj_size (size : Z) : Z := if size =? 0 then 8 else size.

(** The block [p] of page [i] of segment [s] is handed out, its page is the page of
    the size class. *)
Record handed_out (size : Z) (S : gset Z) (G : gmap (Z * Z) pst) (o : V) (G' : gmap (Z * Z) pst) (m' : mem)
  (p s i : Z) (fr : list Z) : Prop := {
  ho_addr : 0 < p /\ (8 | p);
  ho_page : G' !! (s, i) = Some (Pst (to_block_size (obj_size size)) fr);
  ho_block : is_block s i (to_block_size (obj_size size)) p /\ p ∉ fr;
  ho_class : load64 m' (heap_page heap (to_size_class (obj_size size))) = segment_page s i;
  ho_fresh x : p <= x < p + to_block_size (obj_size size) -> mown heap empty S G o x;
  ho_live q b : live G' q b <-> live G q b \/ (q = p /\ b = to_block_size (obj_size size))
}.

Lemma malloc_spec size S Q G (o : V) m fuel :
  minv heap empty S Q G o m -> 0 <= size <= 1016 -> (length Q < fuel)%nat ->
  exists p S' Q' G' o' m', malloc heap fuel size o m = Ok (p, o', m') /\
    minv heap empty S' Q' G' o' m' /\ changes (mown heap empty S G o) m m' /\
    ((p = 0 /\ vs_empty o' /\ forall q b, live G' q b <-> live G q b) \/
     exists s i fr, handed_out size S G o G' m' p s i fr).
Proof.
  intros HM Hsz Hf. unfold malloc, malloc_heap_alloc, malloc_heap_alloc_small. fold (obj_size size).
  assert (1 <= obj_size size <= 1016) as Hos by (unfold obj_size; destruct (Z.eqb_spec size 0); lia).
  change SMALL_OBJ_SIZE_MAX with 1024. destruct (Z.ltb_spec size 1024); [| lia].
  destruct (get_page_spec heap empty (obj_size size) S Q G o m fuel HM Hos Hf) as (page & S1 & Q1 & G1 & o1 & m1 & E & HS & Hr).
  rewrite E. cbn [mbind outcome_bind]. destruct Hr as [[-> He] | [(s & i & st & -> & Hne & HG & Hbs & Hfr) Hcl]].
  { exists 0, S1, Q1, G1, o1, m1. split_and!; [done | apply HS | apply HS | left]. split_and!; [done | done | apply HS]. }
  destruct (Z.eqb_spec (segment_page s i) 0); [done |].
  destruct (p_free st) as [|b fr] eqn:Ef; [done |]. destruct (block_size_spec _ Hos) as (Hok & _ & Hc & Ec).
  destruct (take_block S1 Q1 G1 o1 m1 s i st b fr (ms_inv _ _ _ _ _ _ _ _ _ _ _ HS) HG Ef) as (m' & E2 & HM' & Hch & Hb0 & Hb8 & Hfresh & HL).
  { destruct Hok. lia. }
  rewrite E2, Hbs in *. eexists b, S1, Q1, _, o1, m'. split_and!; [done | exact HM' | | right].
  - eapply changes_trans; [apply HS |]. eapply changes_mono; [| exact Hch]. intros x Hx.
    apply (ms_own _ _ _ _ _ _ _ _ _ _ _ HS). right. right. right.
    destruct (mi_key _ _ _ _ _ _ _ _ _ _ (ms_inv _ _ _ _ _ _ _ _ _ _ _ HS) HG) as (HsS & _). exists s. split; [done |].
    apply (page_own_not_live _ _ _ _ _ _ _ _ _ _ _ (ms_inv _ _ _ _ _ _ _ _ _ _ _ HS) HG). by left.
  - exists s, i, fr. destruct (mi_key _ _ _ _ _ _ _ _ _ _ (ms_inv _ _ _ _ _ _ _ _ _ _ _ HS) HG) as (HsS & Hseg & Hi).
    destruct (pi_claimed _ _ _ _ (mi_page _ _ _ _ _ _ _ (ms_inv _ _ _ _ _ _ _ _ _ _ _ HS) _ _ _ HG)) as (_ & _ & _ & _ & Hnd & Hbl);
      [destruct Hok; lia |]. rewrite Ef in Hnd, Hbl. apply NoDup_cons in Hnd as [Hnin _].
    split; [done | apply lookup_insert_eq | split; [rewrite <- Hbs; apply Hbl; by left | done] | | |].
    + rewrite <- Hcl. apply (load_changes 8 _ _ _ _ Hch). intros x Hx Hx'. unfold heap_page in Hx. simpl in Hx.
      destruct (mi_seg _ _ _ _ _ _ _ (ms_inv _ _ _ _ _ _ _ _ _ _ _ HS) s HsS) as (_ & _ & Hn).
      destruct (in_struct_seg s i x Hi Hx') as [Hxs _]. destruct (Hn x Hxs) as (_ & Hh & _). apply Hh. unfold in_heap. lia.
    + intros x Hx. apply (ms_own _ _ _ _ _ _ _ _ _ _ _ HS). by apply Hfresh.
    + intros q b'. rewrite HL, (ms_live _ _ _ _ _ _ _ _ _ _ _ HS). done.
Qed.

(** The page of a block is found from its address. *)
Lemma obj_page s i x :
  seg_at s -> 0 <= i < 32 -> in_area s i x ->
  malloc_obj_to_segment x = s /\ malloc_obj_to_page s x = segment_page s i.
Proof.
  intros (Hs0 & [q Hq] & _) Hi Hx. unfold malloc_obj_to_segment, malloc_obj_to_page.
  change MALLOC_SEGMENT_SIZE with (2 ^ 21). change MALLOC_PAGE_SIZE with (2 ^ 16).
  pose proof (in_area_seg s i x Hi Hx) as [Hxs _]. unfold in_seg in Hxs. unfold seg_size in *. split.
  - rewrite Z.mod_eq by lia. assert (x / 2 ^ 21 = q) as ->; [| lia].
    symmetry. apply (Z.div_unique x (2 ^ 21) q (x - s)); lia.
  - f_equal. symmetry. apply (Z.div_unique _ (2 ^ 16) i (x - s - i * 2 ^ 16)); [| lia].
    layout. destruct (Z.eqb_spec i 0); lia.
Qed.

Lemma free_spec S Q G (o : V) m p bs s i st :
  minv heap empty S Q G o m -> G !! (s, i) = Some st -> p_bs st = bs -> bs <> 0 -> is_block s i bs p -> p ∉ p_free st ->
  let G' := <[(s, i) := Pst bs (p :: p_free st)]> G in
  exists m', free p m = Ok m' /\ minv heap empty S Q G' o m' /\
    changes (fun x => in_struct s i x \/ p <= x < p + bs) m m' /\
    (forall q b, live G' q b <-> live G q b /\ q <> p).
Proof.
  intros HM HG Eb Hbs Hblk Hn G'. destruct (mi_key _ _ _ _ _ _ _ _ _ _ HM HG) as (HsS & Hs & Hi).
  pose proof (mi_page _ _ _ _ _ _ _ HM _ _ _ HG) as HP.
  destruct (pi_claimed _ _ _ _ HP) as (Hok & _); [congruence |]. rewrite Eb in Hok.
  destruct (block_aligned s i bs p Hs Hi Hok Hblk) as [_ Hp0].
  destruct (block_bounds s i bs p Hi Hok Hblk) as [Ha1 Ha2].
  destruct (obj_page s i p Hs Hi) as [E1 E2]; [destruct Hok; unfold in_area; lia |].
  assert (pinv m s i (Pst bs (p_free st))) as HP' by (rewrite <- Eb; by destruct st).
  destruct (page_free_obj_spec s i Hs Hi m bs p (p_free st) Hbs HP' Hblk Hn) as (Hu & HP2 & Hc).
  unfold free, malloc_heap_free. destruct (Z.eqb_spec p 0); [lia |]. rewrite E1, E2.
  destruct (Z.ltb_spec 0 (load64 (malloc_page_append_obj m (segment_page s i) p) (page_used (segment_page s i)))); [| lia].
  eexists. split; [done |]. split_and!.
  - apply (minv_page heap empty S Q G o m _ s i st); [done | done | right; done | done |].
    eapply changes_mono; [| exact Hc]. intros x [? | Hx]; [by left | right]. destruct Hok. unfold in_area. lia.
  - eapply changes_mono; [| exact Hc]. intros x [? | Hx]; [by left | right]. destruct Hok. lia.
  - intros q b. unfold G'. rewrite live_insert, (live_split G s i st q b HG), Eb. cbn [p_bs p_free]. rewrite not_elem_of_cons.
    split.
    + intros [(? & ? & ? & ? & ?) | (s' & i' & st' & Hne & HG' & Eb' & Hb' & Hblk' & Hn')]; [tauto |].
      split; [right; by exists s', i', st' |]. intros ->.
      destruct (mi_key _ _ _ _ _ _ _ _ _ _ HM HG') as (_ & Hs' & Hi').
      destruct (pi_claimed _ _ _ _ (mi_page _ _ _ _ _ _ _ HM _ _ _ HG')) as (Hok' & _); [congruence |]. rewrite Eb' in Hok'.
      destruct (block_bounds s' i' b p Hi' Hok' Hblk'). destruct Hok, Hok'.
      destruct (areas_disjoint s i s' i' p Hs Hs' Hi Hi') as [-> ->]; [unfold in_area; lia | unfold in_area; lia | done].
    + intros [[(? & ? & ? & ?) | ?] ?]; [left; tauto | by right].
Qed.

(** ** Initialisation *)

Lemma heap_init_loop_spec n idx m :
  0 <= idx -> heap + 8 * (idx + Z.of_nat n) < 2 ^ 64 -> 0 < empty < 2 ^ 64 ->
  let m' := malloc_heap_init_loop empty n heap idx m in
  changes (fun x => heap + 8 * idx <= x < heap + 8 * (idx + Z.of_nat n)) m m' /\
  forall c, idx <= c < idx + Z.of_nat n -> load64 m' (heap_page heap c) = empty.
Proof.
  intros Hi Hh He. revert idx m Hi Hh. induction n as [|n IH]; intros idx m Hi Hh; cbn [malloc_heap_init_loop].
  - split; [apply changes_refl | lia].
  - set (m1 := store64 m (heap_page heap idx) empty).
    destruct (IH (idx + 1) m1 ltac:(lia) ltac:(lia)) as [Hc Hl]. split.
    + eapply changes_trans; [apply changes_store | eapply changes_mono; [| exact Hc]];
        unfold heap_page; intros x Hx; simpl in Hx; cbv beta; lia.
    + intros c Hcx. destruct (decide (c = idx)) as [-> |]; [| apply Hl; lia].
      transitivity (load64 m1 (heap_page heap idx)); [| unfold m1; rewrite load64_store64_eq; by apply u64_small; lia].
      apply (load_changes 8 _ _ _ _ Hc). unfold heap_page. intros x Hx. simpl in Hx. lia.
Qed.

(** The static objects as the program loader leaves them. *)
Record statics_zero (o : V) (m : mem) : Prop := {
  sz_rep : vs_rep o m;
  sz_addr : 0 < heap /\ heap + 1040 < 2 ^ 64 /\ 0 < empty /\ empty + 40 < 2 ^ 64 /\
    (heap + 1040 <= empty \/ empty + 40 <= heap);
  sz_apart x : in_heap heap x \/ in_empty empty x -> ~ vs_own o x;
  sz_zero x : in_heap heap x \/ in_empty empty x -> load8 m x = 0
}.

Lemma load64_zero m a : (forall x, a <= x < a + 8 -> load8 m x = 0) -> load64 m a = 0.
Proof. intros Hz. transitivity (load64 ∅ a); [| done]. apply load_ext. intros x Hx. rewrite Hz by (simpl in Hx; lia). done. Qed.

Lemma malloc_init_spec (o : V) m :
  statics_zero o m -> minv heap empty ∅ [] ∅ o (__liblinux_malloc_init heap empty m).
Proof.
  intros [Z1 Z2 Z3 Z4]. unfold __liblinux_malloc_init, malloc_heap_init. change (Z.to_nat NUM_SIZE_CLASSES) with 128%nat.
  destruct (heap_init_loop_spec 128 0 m) as [Hc Hl]; [lia | lia | lia |].
  set (m' := malloc_heap_init_loop empty 128 heap 0 m) in *.
  assert (forall x, heap + 1024 <= x < heap + 1040 \/ in_empty empty x -> load8 m' x = 0) as Hz.
  { intros x Hx. rewrite Hc by (unfold in_empty in Hx; cbv beta; lia). apply Z4.
    destruct Hx; [left; unfold in_heap; lia | by right]. }
  split.
  - apply (vs_frame o m); [done |]. intros x Hx. apply Hc. intros Hx'. cbv beta in Hx'. apply (Z3 x); [left; unfold in_heap; lia | done].
  - done.
  - done.
  - intros s Hs. by apply not_elem_of_empty in Hs.
  - intros s i. rewrite lookup_empty. split; [by intros [] | intros [Hs _]; by apply not_elem_of_empty in Hs].
  - intros s i st. by rewrite lookup_empty.
  - cbn [hd last default dll]. unfold queue_head, queue_tail, heap_segment_queue. change (8 * NUM_SIZE_CLASSES) with 1024.
    split_and!; [constructor | intros s Hs; by apply not_elem_of_nil in Hs | | | done];
      apply load64_zero; intros x Hx; apply Hz; left; lia.
  - apply load64_zero. unfold page_free. intros x Hx. apply Hz. right. unfold in_empty. lia.
  - intros c Hcx. left. apply Hl. lia.
Qed.

(** ** Results *)

(** Malloc of at most 1016 bytes returns, whatever state the heap is in.  It
    returns NULL only if the system has no more segments, and then no block
    changes hands.  Otherwise it returns an aligned block of the requested size
    rounded up to 8 bytes; all of its bytes were memory of the allocator, so it
    overlaps no live block and nothing else of the program.  Memory outside of
    the allocator, the contents of the live blocks included, is not changed. *)
Theorem malloc_fresh size S Q G (o : V) m :
  minv heap empty S Q G o m -> 0 <= size <= 1016 ->
  exists bound, forall fuel, (bound <= fuel)%nat ->
  exists p S' Q' G' o' m', malloc heap fuel size o m = Ok (p, o', m') /\
    minv heap empty S' Q' G' o' m' /\ changes (mown heap empty S G o) m m' /\
    ((p = 0 /\ vs_empty o' /\ forall q b, live G' q b <-> live G q b) \/
     (0 < p /\ (8 | p) /\ exists bs, size <= bs < Z.max 8 size + 8 /\
        (forall x, p <= x < p + bs -> mown heap empty S G o x) /\
        (forall q b, live G' q b <-> live G q b \/ (q = p /\ b = bs)))).
Proof.
  intros HM Hsz. exists (Datatypes.S (length Q)). intros fuel Hf.
  destruct (malloc_spec size S Q G o m fuel HM Hsz Hf) as (p & S' & Q' & G' & o' & m' & E & HM' & Hc & Hr).
  exists p, S', Q', G', o', m'. split_and!; [done | done | done |].
  destruct Hr as [? | (s & i & fr & HO)]; [by left | right]. destruct (ho_addr _ _ _ _ _ _ _ _ _ _ HO) as [Hp0 Hp8].
  split_and!; [done | done |]. exists (to_block_size (obj_size size)).
  split_and!; [| | apply (ho_fresh _ _ _ _ _ _ _ _ _ _ HO) | apply (ho_live _ _ _ _ _ _ _ _ _ _ HO)];
    destruct (block_size_spec (obj_size size)) as (_ & Hb & _); unfold obj_size in *; destruct (Z.eqb_spec size 0); lia.
Qed.

(** Free of a live block returns, exactly that block stops being live, and
    memory outside of the allocator and of the block is not changed. *)
Theorem free_releases S Q G (o : V) m p bs :
  minv heap empty S Q G o m -> live G p bs ->
  exists G' m', free p m = Ok m' /\ minv heap empty S Q G' o m' /\
    (forall q b, live G' q b <-> live G q b /\ q <> p) /\
    changes (fun x => mown heap empty S G o x \/ p <= x < p + bs) m m'.
Proof.
  intros HM (s & i & st & HG & Eb & Hbs & Hblk & Hn).
  destruct (free_spec S Q G o m p bs s i st HM HG Eb Hbs Hblk Hn) as (m' & E & HM' & Hc & HL).
  exists (<[(s, i) := Pst bs (p :: p_free st)]> G), m'. split_and!; [done | done | done |].
  eapply changes_mono; [| exact Hc]. intros x [Hx | ?]; [left | by right]. right. right. right. exists s.
  destruct (mi_key _ _ _ _ _ _ _ _ _ _ HM HG) as (HsS & _). split; [done |].
  apply (page_own_not_live _ _ _ _ _ _ _ _ _ _ _ HM HG). by left.
Qed.

(** With a free block in the page of its class, malloc takes it. *)
Lemma malloc_from_class size S Q G (o : V) m fuel s i b fr :
  minv heap empty S Q G o m -> 0 <= size <= 1016 ->
  load64 m (heap_page heap (to_size_class (obj_size size))) = segment_page s i ->
  G !! (s, i) = Some (Pst (to_block_size (obj_size size)) (b :: fr)) ->
  exists m', malloc heap fuel size o m = Ok (b, o, m').
Proof.
  intros HM Hsz Hcl HG. destruct (mi_key _ _ _ _ _ _ _ _ _ _ HM HG) as (_ & Hseg & Hi).
  assert (1 <= obj_size size <= 1016) as Hos by (unfold obj_size; destruct (Z.eqb_spec size 0); lia).
  destruct (block_size_spec _ Hos) as (Hok & _).
  assert (to_block_size (obj_size size) <> 0) as Hb0 by (destruct Hok; lia).
  destruct (take_block S Q G o m s i _ b fr HM HG eq_refl Hb0) as (m' & E & _ & _ & Hbp & _).
  pose proof (mi_page _ _ _ _ _ _ _ HM _ _ _ HG) as HP. destruct (pi_claimed _ _ _ _ HP Hb0) as (_ & _ & _ & [Ef _] & _).
  exists m'. unfold malloc, malloc_heap_alloc, malloc_heap_alloc_small, malloc_heap_get_page, malloc_page_full.
  fold (obj_size size). change SMALL_OBJ_SIZE_MAX with 1024. destruct (Z.ltb_spec size 1024); [| lia].
  rewrite Hcl. assert (segment_page s i <> 0) as Hp by (destruct Hseg; layout; lia).
  destruct (Z.eqb_spec (segment_page s i) 0); [done |]. cbn [mbind outcome_bind].
  rewrite Ef. destruct (Z.eqb_spec b 0); [lia |]. cbn [negb mbind outcome_bind].
  destruct (Z.eqb_spec (segment_page s i) 0); [done |]. by rewrite E.
Qed.

(** Malloc() recycles the same object on malloc/free: a block that was just
    allocated and freed is returned by the next malloc of that size. *)
Theorem malloc_recycles size S Q G (o : V) m fuel p o1 m1 :
  minv heap empty S Q G o m -> 0 <= size <= 1016 -> (length Q < fuel)%nat ->
  malloc heap fuel size o m = Ok (p, o1, m1) -> p <> 0 ->
  exists m2, free p m1 = Ok m2 /\ forall fuel', exists m3, malloc heap fuel' size o1 m2 = Ok (p, o1, m3).
Proof.
  intros HM Hsz Hf E Hp. destruct (malloc_spec size S Q G o m fuel HM Hsz Hf)
    as (p' & S' & Q' & G' & o' & m' & E' & HM' & _ & Hr). rewrite E in E'. injection E' as <- <- <-.
  destruct Hr as [(? & _) | (s & i & fr & HO)]; [done |]. destruct (ho_block _ _ _ _ _ _ _ _ _ _ HO) as [Hb Hn].
  assert (1 <= obj_size size <= 1016) as Hos by (unfold obj_size; destruct (Z.eqb_spec size 0); lia).
  destruct (block_size_spec _ Hos) as (Hok & _ & Hc & _). pose proof (ho_page _ _ _ _ _ _ _ _ _ _ HO) as HG.
  destruct (mi_key _ _ _ _ _ _ _ _ _ _ HM' HG) as (HsS & Hseg & Hi).
  destruct (free_spec S' Q' G' o1 m1 p _ s i _ HM' HG eq_refl) as (m2 & E2 & HM2 & Hch & _); [destruct Hok; cbn; lia | done | done |].
  exists m2. split; [done |]. intros fuel'. eapply (malloc_from_class size S' Q' _ o1 m2 fuel' s i p fr); [exact HM2 | done | | apply lookup_insert_eq].
  rewrite <- (ho_class _ _ _ _ _ _ _ _ _ _ HO). apply (load_changes 8 _ _ _ _ Hch). intros x Hx Hx'. unfold heap_page in Hx. simpl in Hx.
  assert (in_seg s x) as Hxs.
  { destruct Hx' as [Hx' | Hx']; [by apply (in_struct_seg s i) |]. apply (in_area_seg s i); [done |].
    destruct (block_bounds s i _ p Hi Hok Hb). unfold in_area. cbn [p_bs] in Hx'. lia. }
  destruct (mi_seg _ _ _ _ _ _ _ HM' s HsS) as (_ & _ & Hnn). destruct (Hnn x Hxs) as (_ & Hh & _). apply Hh. unfold in_heap. lia.
Qed.

(** ** Fuel *)

Lemma alloc_page_fuel_mono f f' size (o : V) m r :
  (f <= f')%nat -> malloc_heap_alloc_page f heap size o m = Ok r -> malloc_heap_alloc_page f' heap size o m = Ok r.
Proof.
  revert f' o m. induction f as [|f IH]; intros f' o m Hf; [done |]. destruct f' as [|f']; [lia |].
  cbn [malloc_heap_alloc_page]. destruct (if malloc_segment_queue_head m _ =? 0 then _ else _) as [[[seg o2] m2] |]; [| done].
  cbn [mbind outcome_bind]. destruct (seg =? 0); [done |].
  destruct (malloc_find_page _ _ _ _ _) as [[page m3] |]; [| done]. cbn [mbind outcome_bind].
  destruct (negb (page =? 0)); [done |]. apply IH. lia.
Qed.

Lemma malloc_fuel_mono f f' size (o : V) m r :
  (f <= f')%nat -> malloc heap f size o m = Ok r -> malloc heap f' size o m = Ok r.
Proof.
  intros Hf. unfold malloc, malloc_heap_alloc, malloc_heap_alloc_small, malloc_heap_get_page.
  destruct (size <? SMALL_OBJ_SIZE_MAX); [| done]. destruct (malloc_page_full _ _) as [full |]; [| done].
  cbn [mbind outcome_bind]. destruct (negb full); [done |].
  destruct (malloc_heap_alloc_page f heap _ o m) as [r' |] eqn:E; [| done].
  by rewrite (alloc_page_fuel_mono f f' _ o m r' Hf E).
Qed.

(** ** Programs that use the allocator *)

(** A program: the system, memory, and the blocks it holds with the sizes it asked for. *)
Record client := Client { c_os : V; c_mem : mem; c_blocks : list (Z * Z) }.

Inductive cstep : client -> client -> Prop :=
  | cs_malloc bound size p o m L o' m' :
      0 <= size <= 1016 -> (forall fuel, (bound <= fuel)%nat -> malloc heap fuel size o m = Ok (p, o', m')) ->
      cstep (Client o m L) (Client o' m' (if p =? 0 then L else (p, size) :: L))
  | cs_free p size o m L1 L2 m' :
      free p m = Ok m' -> cstep (Client o m (L1 ++ (p, size) :: L2)) (Client o m' (L1 ++ L2))
  | cs_write p size x v o m L :
      (p, size) ∈ L -> p <= x < p + size -> cstep (Client o m L) (Client o (store8 m x v) L).

(** Every block the program holds is live, and it holds none twice. *)
Definition cinv (c : client) : Prop :=
  exists S Q G, minv heap empty S Q G (c_os c) (c_mem c) /\ NoDup (c_blocks c).*1 /\
    forall p size, (p, size) ∈ c_blocks c -> exists bs, live G p bs /\ size <= bs.

Lemma live_not_own S Q G (o : V) m x :
  minv heap empty S Q G o m -> live_byte G x -> ~ mown heap empty S G o x.
Proof.
  intros HM Hlx. pose proof Hlx as (p & bs & Hlb & Hx).
  destruct (live_area _ _ _ _ _ _ _ _ _ HM Hlb) as (s2 & i2 & st2 & HG2 & _ & Hok2 & _ & _ & Ha).
  destruct (mi_key _ _ _ _ _ _ _ _ _ _ HM HG2) as (HsS & _ & Hi2).
  destruct (mi_seg _ _ _ _ _ _ _ HM s2 HsS) as (_ & _ & Hnn).
  destruct (in_area_seg s2 i2 x Hi2 (Ha x Hx)) as [Hxs _]. destruct (Hnn x Hxs) as (? & ? & ?).
  intros [? | [? | [? | (s' & _ & _ & ?)]]]; done.
Qed.

Lemma live_size S Q G (o : V) m p bs : minv heap empty S Q G o m -> live G p bs -> 8 <= bs /\ live_byte G p.
Proof.
  intros HM Hlb. destruct (live_area _ _ _ _ _ _ _ _ _ HM Hlb) as (_ & _ & _ & _ & _ & [_ Hok] & _).
  split; [lia |]. exists p, bs. split; [done | lia].
Qed.

Lemma cinv_malloc S Q G (o : V) m L size p S' Q' G' o' m' :
  minv heap empty S Q G o m -> NoDup L.*1 -> (forall p size, (p, size) ∈ L -> exists bs, live G p bs /\ size <= bs) ->
  0 <= size <= 1016 -> minv heap empty S' Q' G' o' m' ->
  ((p = 0 /\ vs_empty o' /\ forall q b, live G' q b <-> live G q b) \/
     exists s i fr, handed_out size S G o G' m' p s i fr) ->
  cinv (Client o' m' (if p =? 0 then L else (p, size) :: L)).
Proof.
  intros HM Hnd HL Hsz HM' Hr. exists S', Q', G'. cbn [c_os c_mem c_blocks]. split; [done |].
  destruct Hr as [(-> & _ & Hlv) | (s & i & fr & HO)].
  - cbn [Z.eqb]. split; [done |]. intros q sz Hq. destruct (HL q sz Hq) as (bs & Hb & ?). exists bs. by rewrite Hlv.
  - destruct (ho_addr _ _ _ _ _ _ _ _ _ _ HO) as [Hp0 _]. destruct (Z.eqb_spec p 0); [lia |].
    assert (1 <= obj_size size <= 1016) as Hos by (unfold obj_size; destruct (Z.eqb_spec size 0); lia).
    destruct (block_size_spec _ Hos) as ([_ Hok] & Hb & _). split.
    + rewrite fmap_cons. constructor; [| done]. intros ((q & sz) & Eq & Hq)%list_elem_of_fmap. cbn [fst] in Eq. subst q.
      destruct (HL p sz Hq) as (bs & Hlb & _).
      apply (live_not_own S Q G o m p HM); [by eapply live_size | apply (ho_fresh _ _ _ _ _ _ _ _ _ _ HO); lia].
    + intros q sz [[= -> ->] | Hq]%elem_of_cons.
      * exists (to_block_size (obj_size size)). split; [apply (ho_live _ _ _ _ _ _ _ _ _ _ HO); by right |].
        unfold obj_size in Hb |- *. destruct (Z.eqb_spec size 0); lia.
      * destruct (HL q sz Hq) as (bs & Hlb & ?). exists bs. split; [apply (ho_live _ _ _ _ _ _ _ _ _ _ HO); by left | done].
Qed.

Lemma cinv_free S Q G (o : V) m L1 L2 p size :
  minv heap empty S Q G o m -> NoDup (L1 ++ (p, size) :: L2).*1 ->
  (forall q sz, (q, sz) ∈ L1 ++ (p, size) :: L2 -> exists bs, live G q bs /\ sz <= bs) ->
  exists m', free p m = Ok m' /\ cinv (Client o m' (L1 ++ L2)).
Proof.
  intros HM Hnd HL. destruct (HL p size) as (bs & (s & i & st & HG & Eb & Hbs & Hblk & Hn) & _).
  { apply elem_of_app. right. by left. }
  destruct (free_spec S Q G o m p bs s i st HM HG Eb Hbs Hblk Hn) as (m' & E & HM' & _ & Hlv).
  exists m'. split; [done |]. eexists S, Q, _. cbn [c_os c_mem c_blocks]. split; [exact HM' |].
  rewrite fmap_app, fmap_cons in Hnd. cbn [fst] in Hnd. apply NoDup_app in Hnd as (N1 & N2 & N3).
  apply NoDup_cons in N3 as [N4 N5]. split.
  - rewrite fmap_app. apply NoDup_app. split_and!; [done | | done]. intros q Hq Hq2. apply (N2 q Hq). by right.
  - intros q sz Hq. destruct (HL q sz) as (b & Hb & ?).
    { apply elem_of_app. apply elem_of_app in Hq as [? | ?]; [by left | right; by right]. }
    exists b. split; [| done]. apply Hlv. split; [done |]. intros ->.
    apply elem_of_app in Hq as [Hq | Hq]; apply (list_elem_of_fmap_2 fst) in Hq; cbn [fst] in Hq; [| done].
    apply (N2 p Hq). by left.
Qed.

Lemma cstep_cinv c c' : cinv c -> cstep c c' -> cinv c'.
Proof.
  intros (S & Q & G & HM & Hnd & HL) Hstep.
  destruct Hstep as [bound size p o m L o' m' Hsz E | p size o m L1 L2 m' E | p size x v o m L Hin Hx]; cbn [c_os c_mem c_blocks] in *.
  - destruct (malloc_spec size S Q G o m (Nat.max bound (Datatypes.S (length Q))) HM Hsz ltac:(lia))
      as (p' & S' & Q' & G' & o2 & m2 & E' & HM' & _ & Hr). rewrite E in E' by lia. injection E' as <- <- <-.
    by apply (cinv_malloc S Q G o m L size p S' Q' G' o' m').
  - destruct (cinv_free S Q G o m L1 L2 p size HM Hnd HL) as (m2 & E' & Hc). rewrite E in E'. by injection E' as <-.
  - exists S, Q, G. cbn [c_os c_mem c_blocks]. split_and!; [| done | done].
    apply (minv_client heap empty S Q G o m); [done |]. intros y Hy. apply load8_store8_ne. intros <-.
    destruct (HL p size Hin) as (bs & Hlb & Hle).
    apply (live_not_own S Q G o m x HM); [| done]. exists p, bs. split; [done | lia].
Qed.


End Theorems.

(** ** The user space allocator on a concrete machine

    A system that hands out two zero-filled segments, the theorems of
    MallocTheorems applied to it, and two runs outside of their hypotheses. *)

(** Segments from [bump_next] up to [bump_end]. *)
Record bump := Bump { bump_next : Z; bump_end : Z }.

#[global] Instance bump_vmspace : VmSpace bump := {
  vmspace_alloc size align o m :=
    let start := align_up (bump_next o) align in
    if start + size <=? bump_end o then (0, start, Bump (start + size) (bump_end o), m)
    else (-12, 0, o, m)
}.

Record bump_rep (o : bump) (m : mem) : Prop := {
  br_next : 0 < bump_next o /\ (seg_size | bump_next o);
  br_end : bump_next o <= bump_end o /\ bump_end o + seg_size < 2 ^ 64 /\ (seg_size | bump_end o);
  br_zero x : bump_next o <= x < bump_end o -> load8 m x = 0
}.

Lemma bump_alloc_spec o m :
  bump_rep o m ->
  (bump_next o = bump_end o /\ exists r st, r <> 0 /\ vmspace_alloc MALLOC_SEGMENT_SIZE MALLOC_SEGMENT_SIZE o m = (r, st, o, m)) \/
  exists s o' m', vmspace_alloc MALLOC_SEGMENT_SIZE MALLOC_SEGMENT_SIZE o m = (0, s, o', m') /\
    0 < s /\ (MALLOC_SEGMENT_SIZE | s) /\ s + MALLOC_SEGMENT_SIZE < 2 ^ 64 /\
    (forall x, s <= x < s + MALLOC_SEGMENT_SIZE -> bump_next o <= x < bump_end o /\ load8 m' x = 0) /\
    bump_rep o' m' /\
    (forall x, bump_next o' <= x < bump_end o' <-> bump_next o <= x < bump_end o /\ ~ s <= x < s + MALLOC_SEGMENT_SIZE) /\
    changes (fun x => bump_next o <= x < bump_end o) m m'.
Proof.
  intros [[Hn Dn] (He & He64 & De) Hz]. cbn [vmspace_alloc bump_vmspace]. change MALLOC_SEGMENT_SIZE with (2 ^ 21).
  unfold seg_size in *. rewrite align_up_id by (lia || by apply Z.mod_divide).
  destruct (Z.leb_spec (bump_next o + 2 ^ 21) (bump_end o)).
  - right. eexists _, _, _. split; [done |]. cbn [bump_next bump_end]. split_and!; try done; try lia.
    + intros x Hx. split; [lia |]. apply Hz. lia.
    + split; cbn [bump_next bump_end]; unfold seg_size.
      * split; [lia |]. apply Z.divide_add_r; [done | by exists 1].
      * done.
      * intros x Hx. apply Hz. lia.
  - left. split; [| by exists (-12), 0]. destruct Dn as [q Hq], De as [q' Hq']. lia.
Qed.

Lemma bump_frame o m m' :
  bump_rep o m -> (forall x, bump_next o <= x < bump_end o -> load8 m' x = load8 m x) -> bump_rep o m'.
Proof. intros [H1 H2 H3] Hm. split; [done | done |]. intros x Hx. rewrite Hm by done. auto. Qed.

#[global] Instance bump_laws : VmSpaceLaws bump := {
  vs_own o x := bump_next o <= x < bump_end o;
  vs_empty o := bump_next o = bump_end o;
  vs_rep := bump_rep;
  vs_frame := bump_frame;
  vs_alloc := bump_alloc_spec
}.

Definition ex_heap : Z := 4096.
Definition ex_empty : Z := 8192.
Definition ex_os : bump := Bump (2 ^ 21) (3 * 2 ^ 21).
Definition ex_mem : mem := __liblinux_malloc_init ex_heap ex_empty ∅.

Lemma ex_malloc_statics : statics_zero ex_heap ex_empty ex_os ∅.
Proof.
  split.
  - split; cbn [bump_next bump_end ex_os].
    + split; [lia | by exists 1].
    + split_and!; [lia | done | by exists 3].
    + done.
  - unfold ex_heap, ex_empty. lia.
  - intros x Hx. unfold in_heap, in_empty, ex_heap, ex_empty in Hx. cbn. lia.
  - done.
Qed.

Lemma ex_malloc_inv : minv ex_heap ex_empty ∅ [] ∅ ex_os ex_mem.
Proof. exact (malloc_init_spec ex_heap ex_empty ex_os ∅ ex_malloc_statics). Qed.

Lemma malloc_fresh_witness :
  exists bound, forall fuel, (bound <= fuel)%nat ->
  exists p o' m', malloc ex_heap fuel 100 ex_os ex_mem = Ok (p, o', m').
Proof.
  destruct (malloc_fresh ex_heap ex_empty 100 ∅ [] ∅ ex_os ex_mem ex_malloc_inv ltac:(lia)) as [bound Hb].
  exists bound. intros fuel Hf. destruct (Hb fuel Hf) as (p & S' & Q' & G' & o' & m' & E & _).
  exists p, o', m'. exact E.
Defined.

(** One block of 100 bytes. *)
Definition ex_run : outcome (Z * bump * mem) := malloc ex_heap 1 100 ex_os ex_mem.

Lemma ex_run_ok : exists o m, ex_run = Ok (2098456, o, m).
Proof.
  assert (match ex_run with Ok (p, _, _) => p =? 2098456 | Fault _ => false end = true) as Hr by (vm_compute; reflexivity).
  destruct ex_run as [[[p o] m] |]; [| discriminate]. apply Z.eqb_eq in Hr as ->. by exists o, m.
Qed.

Lemma ex_run_live : exists S Q G o m, ex_run = Ok (2098456, o, m) /\ minv ex_heap ex_empty S Q G o m /\ live G 2098456 104.
Proof.
  destruct (malloc_spec ex_heap ex_empty 100 ∅ [] ∅ ex_os ex_mem 1 ex_malloc_inv ltac:(lia) ltac:(simpl; lia))
    as (p & S' & Q' & G' & o' & m' & E & HM & _ & Hr).
  destruct ex_run_ok as (o & m & E'). unfold ex_run in E'. rewrite E in E'. injection E' as -> -> ->.
  destruct Hr as [[? _] | (s & i & fr & HO)]; [discriminate |].
  exists S', Q', G', o, m. split_and!; [exact E | exact HM |]. apply (ho_live _ _ _ _ _ _ _ _ _ _ _ _ HO). right. split; vm_compute; reflexivity.
Qed.

Lemma free_releases_witness : exists o m m', ex_run = Ok (2098456, o, m) /\ free 2098456 m = Ok m'.
Proof.
  destruct ex_run_live as (S & Q & G & o & m & E & HM & HL).
  destruct (free_releases ex_heap ex_empty S Q G o m 2098456 104 HM HL) as (G' & m' & E' & _).
  exists o, m, m'. exact (conj E E').
Defined.

Lemma malloc_recycles_witness :
  exists o m m2 m3, ex_run = Ok (2098456, o, m) /\ free 2098456 m = Ok m2 /\ malloc ex_heap 0 100 o m2 = Ok (2098456, o, m3).
Proof.
  destruct ex_run_ok as (o & m & E).
  destruct (malloc_recycles ex_heap ex_empty 100 ∅ [] ∅ ex_os ex_mem 1 2098456 o m ex_malloc_inv) as (m2 & E2 & H3).
  - lia.
  - simpl. lia.
  - exact E.
  - discriminate.
  - destruct (H3 0%nat) as [m3 E3]. exists o, m, m2, m3. exact (conj E (conj E2 E3)).
Defined.


(** ** Outside of the hypotheses *)

Definition run_malloc (n : nat) (size : Z) (m : mem) : outcome Z :=
  '(p, _, _) ← Nat.iter n (fun r => '(_, o, m) ← r; malloc ex_heap 4 size o m) (Ok (0, ex_os, m)); Ok p.

