(* ===== verification/Inet.v ===== *)
(** * Byte order, addresses and checksums of the user space network stack

    usr/liblinux/include/arpa/inet.h, usr/liblinux/src/arpa/inet.c and the
    checksum functions of usr/liblinux/src/internal/ip.c, for a little-endian
    machine. *)

From S2P Require Import Prelude Mem.

(** ** Byte order *)

Definition bswap16 (x : Z) : Z := u8 x * 2 ^ 8 + u8 (x / 2 ^ 8).
Definition bswap32 (x : Z) : Z :=
  u8 x * 2 ^ 24 + u8 (x / 2 ^ 8) * 2 ^ 16 + u8 (x / 2 ^ 16) * 2 ^ 8 + u8 (x / 2 ^ 24).

Definition htonl (hostlong : Z) : Z := bswap32 hostlong.
Definition htons (hostshort : Z) : Z := bswap16 hostshort.
(** [ntohl] swaps with the 16-bit built-in. *)
Definition ntohl (netlong : Z) : Z := bswap16 netlong.
Definition ntohs (netshort : Z) : Z := bswap16 netshort.

(** ** Dotted addresses *)

Definition INADDR_NONE : Z := 2 ^ 32 - 1.
Definition UCHAR_MAX : Z := 255.

(** [inet_addr]; the string is the list of its characters with the terminator. *)
Fixpoint inet_addr_loop (cp : list Z) (ret acc : Z) : outcome Z :=
  match cp with
  | [] => Fault OutOfBounds
  | c :: cp =>
      if (48 <=? c) && (c <=? 57) then
        let acc := u32 (acc * 10 + (c - 48)) in
        if UCHAR_MAX <? acc then Ok INADDR_NONE else inet_addr_loop cp ret acc
      else if c =? 46 then inet_addr_loop cp (Z.lor (u32 (Z.shiftl ret 8)) acc) 0
      else if c =? 0 then Ok (htonl (Z.lor (u32 (Z.shiftl ret 8)) acc))
      else Ok INADDR_NONE
  end.

Definition inet_addr (cp : list Z) : outcome Z := inet_addr_loop cp 0 0.

(** ** The checksum *)

Fixpoint checksum_words (m : mem) (p : Z) (n : nat) (sum : Z) : Z :=
  match n with
  | O => sum
  | S n => checksum_words m (p + 4) n (u64 (sum + load32 m p))
  end.

Definition checksum_add (m : mem) (sum data count : Z) : Z :=
  let words := count / 4 in
  let sum := checksum_words m data (Z.to_nat words) sum in
  let p := data + 4 * words in
  let count := count - 4 * words in
  let '(sum, q, count) := if 2 <=? count then (u64 (sum + load16 m p), p + 2, count - 2) else (sum, p, count) in
  if negb (count =? 0) then u64 (sum + load8 m q) else sum.

Fixpoint checksum_fold (fuel : nat) (sum : Z) : outcome Z :=
  if Z.shiftr sum 16 =? 0 then Ok sum
  else
    match fuel with
    | O => Fault OutOfFuel
    | S fuel => checksum_fold fuel (Z.land sum 0xffff + Z.shiftr sum 16)
    end.

(** Five rounds are enough for a 64-bit sum ([checksum_finalize_spec]). *)
Definition checksum_finalize (sum : Z) : outcome Z :=
  sum ← checksum_fold 5 sum;
  Ok (u16 (Z.lnot sum)).

Definition ipv4_checksum (m : mem) (buf len : Z) : outcome Z :=
  checksum_finalize (checksum_add m 0 buf len).

Definition IPPROTO_UDP : Z := 17.

Definition udp_checksum (m : mem) (buf len dest_ip src_ip : Z) : outcome Z :=
  let sum := checksum_add m 0 buf len in
  let sum := u64 (sum + Z.land src_ip 0xffff) in
  let sum := u64 (sum + Z.shiftr src_ip 16) in
  let sum := u64 (sum + Z.land dest_ip 0xffff) in
  let sum := u64 (sum + Z.shiftr dest_ip 16) in
  let sum := u64 (sum + htons IPPROTO_UDP) in
  let sum := u64 (sum + htons len) in
  checksum_finalize sum.

(** ** Folding *)

Lemma land_ffff x : Z.land x 0xffff = x mod 2 ^ 16.
Proof. by apply (Z.land_ones x 16). Qed.

Lemma fold_step sum : 0 <= sum -> Z.land sum 0xffff + Z.shiftr sum 16 = sum - 65535 * (sum / 2 ^ 16).
Proof.
  intros Hs. rewrite land_ffff, Z.shiftr_div_pow2 by done. pose proof (Z.div_mod sum (2 ^ 16) ltac:(done)). lia.
Qed.

Lemma fold_bound k sum :
  16 <= k -> 0 <= sum < 2 ^ k -> 0 <= sum - 65535 * (sum / 2 ^ 16) < 2 ^ 16 + 2 ^ (k - 16).
Proof.
  intros Hk Hs.
  assert (0 <= sum / 2 ^ 16 < 2 ^ (k - 16)).
  { split; [apply Z.div_pos; lia|]. apply Z.div_lt_upper_bound; [lia|].
    rewrite <- Z.pow_add_r by lia. replace (16 + (k - 16)) with k by lia. lia. }
  pose proof (Z.div_mod sum (2 ^ 16)). pose proof (Z.mod_pos_bound sum (2 ^ 16)). lia.
Qed.

(** One's complement congruence, with zero kept apart from 65535. *)
Definition oc_eq (a b : Z) : Prop := a mod 65535 = b mod 65535 /\ (a = 0 <-> b = 0).

Lemma oc_eq_trans a b c : oc_eq a b -> oc_eq b c -> oc_eq a c.
Proof. unfold oc_eq. intros [-> ?] [-> ?]. intuition. Qed.

Lemma fold_oc_eq sum : 0 <= sum -> oc_eq (sum - 65535 * (sum / 2 ^ 16)) sum.
Proof.
  intros Hs. pose proof (Z.div_mod sum (2 ^ 16)). pose proof (Z.mod_pos_bound sum (2 ^ 16)).
  assert (0 <= sum / 2 ^ 16) by (apply Z.div_pos; lia).
  split; [|split; intros; lia].
  replace (sum - 65535 * (sum / 2 ^ 16)) with (sum + (- (sum / 2 ^ 16)) * 65535) by lia.
  apply Z.mod_add; lia.
Qed.

Lemma checksum_fold_step fuel sum r :
  0 <= sum ->
  (sum < 2 ^ 16 -> sum = r) ->
  (2 ^ 16 <= sum -> checksum_fold fuel (sum - 65535 * (sum / 2 ^ 16)) = Ok r) ->
  checksum_fold (S fuel) sum = Ok r.
Proof.
  intros Hs Hsmall Hbig. cbn [checksum_fold]. rewrite fold_step by lia. rewrite Z.shiftr_div_pow2 by lia.
  destruct (Z.eqb_spec (sum / 2 ^ 16) 0) as [E|E].
  - rewrite Hsmall; [done|]. pose proof (Z.div_mod sum (2 ^ 16)). pose proof (Z.mod_pos_bound sum (2 ^ 16)). lia.
  - apply Hbig. destruct (Z.lt_ge_cases sum (2 ^ 16)) as [Hlt|]; [|done].
    rewrite Z.div_small in E by lia. done.
Qed.

Lemma checksum_fold_done fuel sum : 0 <= sum < 2 ^ 16 -> checksum_fold fuel sum = Ok sum.
Proof. intros. destruct fuel; cbn [checksum_fold]; by rewrite Z.shiftr_div_pow2, Z.div_small by lia. Qed.

(** One round takes a sum below [2 ^ k] below [2 ^ 16 + 2 ^ (k - 16)]. *)
Lemma checksum_fold_round fuel k sum :
  16 <= k -> 0 <= sum < 2 ^ k ->
  (forall s, 0 <= s < 2 ^ 16 + 2 ^ (k - 16) ->
    exists r, checksum_fold fuel s = Ok r /\ 0 <= r < 2 ^ 16 /\ oc_eq r s) ->
  exists r, checksum_fold (S fuel) sum = Ok r /\ 0 <= r < 2 ^ 16 /\ oc_eq r sum.
Proof.
  intros Hk Hs IH. destruct (Z.lt_ge_cases sum (2 ^ 16)) as [Hlt|Hge].
  - exists sum. rewrite checksum_fold_done by lia. split_and!; [done|lia|lia|]. split; reflexivity.
  - destruct (IH (sum - 65535 * (sum / 2 ^ 16)) (fold_bound k sum Hk Hs)) as (r & Er & Hr & Hoc).
    exists r. split_and!; [|lia|lia|].
    + apply checksum_fold_step; [lia|lia|done].
    + eapply oc_eq_trans; [done|]. apply fold_oc_eq. lia.
Qed.

Lemma checksum_fold_spec sum :
  0 <= sum < 2 ^ 64 ->
  exists r, checksum_fold 5 sum = Ok r /\ 0 <= r < 2 ^ 16 /\ oc_eq r sum.
Proof.
  intros Hs. apply (checksum_fold_round 4 64); [lia..|]. intros s1 H1.
  apply (checksum_fold_round 3 49); [lia..|]. intros s2 H2.
  apply (checksum_fold_round 2 34); [lia..|]. intros s3 H3.
  apply (checksum_fold_round 1 19); [lia..|]. intros s4 H4.
  destruct (Z.lt_ge_cases s4 (2 ^ 16)) as [Hlt|Hge].
  - exists s4. rewrite checksum_fold_done by lia. split_and!; [done|lia|lia|]. split; reflexivity.
  - assert (s4 / 2 ^ 16 = 1) as E1 by (symmetry; apply (Z.div_unique_pos _ _ _ (s4 - 2 ^ 16)); lia).
    exists (s4 - 65535 * (s4 / 2 ^ 16)). split_and!; [|rewrite E1; lia..|apply fold_oc_eq; lia].
    apply checksum_fold_step; [lia..|]. intros _. apply checksum_fold_done. rewrite E1. lia.
Qed.

(** [checksum_finalize] returns the one's complement of the folded sum. *)
Lemma checksum_finalize_spec sum :
  0 <= sum < 2 ^ 64 ->
  exists r, checksum_finalize sum = Ok (65535 - r) /\ 0 <= r < 2 ^ 16 /\ oc_eq r sum.
Proof.
  intros Hs. destruct (checksum_fold_spec sum Hs) as (r & Er & Hr & Hoc). exists r. split; [|done].
  unfold checksum_finalize. rewrite Er. cbn [mbind outcome_bind]. f_equal.
  unfold u16, Z.lnot. symmetry. apply (Z.mod_unique_pos _ _ (-1)); lia.
Qed.

(** ** The sum *)

(** The reference: the sum of the bytes with their weight in a 16-bit
    little-endian word, modulo 65535. *)
Fixpoint oc_sum (bs : list Z) : Z :=
  match bs with
  | [] => 0
  | [b] => b
  | b :: b' :: bs => b + 2 ^ 8 * b' + oc_sum bs
  end.

Lemma oc_eq_add a b c : 0 <= a -> 0 <= b -> 0 <= c -> oc_eq a b -> oc_eq (a + c) (b + c).
Proof.
  intros ??? [Hm Hz]. split; [|lia]. by rewrite Z.add_mod, Hm, <- Z.add_mod by lia.
Qed.

Lemma oc_sum_nonneg m p n : 0 <= oc_sum (load_bytes m p n).
Proof.
  revert p. induction (lt_wf n) as [n _ IH]. intros p. destruct n as [|[|n]]; cbn [load_bytes oc_sum]; [lia| |].
  - pose proof (load8_range m p). lia.
  - pose proof (load8_range m p). pose proof (load8_range m (p + 1)).
    specialize (IH n ltac:(lia) (p + 1 + 1)). lia.
Qed.

Lemma oc_sum_app_even k m p n :
  oc_sum (load_bytes m p (2 * k + n)) = oc_sum (load_bytes m p (2 * k)) + oc_sum (load_bytes m (p + 2 * Z.of_nat k) n).
Proof.
  revert p; induction k as [|k IH]; intros p.
  - cbn [Nat.mul Nat.add load_bytes oc_sum]. by rewrite Z.add_0_r.
  - replace (2 * S k + n)%nat with (S (S (2 * k + n))) by lia.
    replace (2 * S k)%nat with (S (S (2 * k))) by lia.
    cbn [load_bytes oc_sum]. rewrite IH. replace (p + 1 + 1 + 2 * Z.of_nat k) with (p + 2 * Z.of_nat (S k)) by lia. lia.
Qed.

Lemma load16_oc m p : load16 m p = oc_sum (load_bytes m p 2).
Proof. unfold load16. rewrite load_join. cbn. lia. Qed.

Lemma load32_oc m p : 0 <= load32 m p < 2 ^ 32 /\ oc_eq (load32 m p) (oc_sum (load_bytes m p 4)).
Proof.
  unfold load32. rewrite load_join. cbn [load_bytes le_join oc_sum].
  pose proof (load8_range m p). pose proof (load8_range m (p + 1)).
  pose proof (load8_range m (p + 1 + 1)). pose proof (load8_range m (p + 1 + 1 + 1)).
  split; [lia|]. split; [|lia].
  apply (proj2 (Z.cong_iff_0 _ _ _)).
  transitivity (((load8 m (p + 1 + 1) + 2 ^ 8 * load8 m (p + 1 + 1 + 1)) * 65535) mod 65535); [f_equal; lia|].
  by apply Z.mod_mul.
Qed.

(** The 32-bit loop computes the 16-bit sum up to the folding. *)
Lemma checksum_words_spec m n : forall p sum,
  0 <= sum -> sum + 2 ^ 32 * Z.of_nat n < 2 ^ 64 ->
  let s := checksum_words m p n sum in
  0 <= s <= sum + 2 ^ 32 * Z.of_nat n /\ oc_eq s (sum + oc_sum (load_bytes m p (4 * n))).
Proof.
  induction n as [|n IH]; intros p sum Hs Hb; cbn [checksum_words].
  - cbn. split; [lia|]. rewrite Z.add_0_r. split; reflexivity.
  - destruct (load32_oc m p) as [Hr Hoc]. rewrite u64_small by lia.
    destruct (IH (p + 4) (sum + load32 m p)) as [Hb' Hoc']; [lia..|]. split; [lia|].
    eapply oc_eq_trans; [exact Hoc'|].
    replace (4 * S n)%nat with (2 * 2 + 4 * n)%nat by lia. rewrite oc_sum_app_even.
    pose proof (oc_sum_nonneg m (p + 4) (4 * n)). pose proof (oc_sum_nonneg m p (2 * 2)).
    replace (sum + load32 m p + oc_sum (load_bytes m (p + 4) (4 * n)))
      with (load32 m p + (sum + oc_sum (load_bytes m (p + 4) (4 * n)))) by lia.
    change (p + 2 * Z.of_nat 2) with (p + 4).
    replace (sum + (oc_sum (load_bytes m p (2 * 2)) + oc_sum (load_bytes m (p + 4) (4 * n))))
      with (oc_sum (load_bytes m p 4) + (sum + oc_sum (load_bytes m (p + 4) (4 * n)))) by (cbn [Nat.mul Nat.add]; lia).
    apply oc_eq_add; [lia|apply oc_sum_nonneg|lia|done].
Qed.

(** The bytes after the last whole word. *)
Lemma checksum_tail m s p r :
  0 <= s -> s + 2 ^ 32 < 2 ^ 64 -> 0 <= r < 4 ->
  exists d, oc_sum (load_bytes m p (Z.to_nat r)) = d /\ 0 <= d < 2 ^ 17 /\
    (let '(s', q, c) := if 2 <=? r then (u64 (s + load16 m p), p + 2, r - 2) else (s, p, r) in
     if negb (c =? 0) then u64 (s' + load8 m q) else s') = s + d.
Proof.
  intros Hs Hb Hr. eexists; split; [reflexivity|].
  pose proof (load8_range m p). pose proof (load8_range m (p + 1)). pose proof (load8_range m (p + 2)).
  pose proof (load16_range m p). rewrite (u64_small (s + load16 m p)) by lia.
  assert (load16 m p = load8 m p + 2 ^ 8 * load8 m (p + 1)) as E16 by (rewrite load16_oc; cbn; lia).
  assert (r = 0 \/ r = 1 \/ r = 2 \/ r = 3) as [->|[->|[->| ->]]] by lia.
  - change (Z.to_nat 0) with 0%nat. cbn. lia.
  - change (Z.to_nat 1) with 1%nat. cbn [load_bytes oc_sum]. change (2 <=? 1) with false. cbv beta iota zeta.
    change (1 =? 0) with false. cbn [negb].
    rewrite u64_small by lia. lia.
  - change (Z.to_nat 2) with 2%nat. cbn [load_bytes oc_sum]. change (2 <=? 2) with true. cbv beta iota zeta. change (2 - 2 =? 0) with true. cbn [negb]. lia.
  - change (Z.to_nat 3) with 3%nat. cbn [load_bytes oc_sum]. change (2 <=? 3) with true. cbv beta iota zeta.
    replace (p + 1 + 1) with (p + 2) by lia.
    change (3 - 2 =? 0) with false. cbn [negb].
    rewrite u64_small by lia. lia.
Qed.

(** [checksum_add] adds the 16-bit sum of [count] bytes, up to the folding. *)
Lemma checksum_add_spec m sum p count :
  0 <= sum -> 0 <= count -> sum + 2 ^ 32 * (count + 2) < 2 ^ 64 ->
  let s := checksum_add m sum p count in
  0 <= s <= sum + 2 ^ 32 * (count + 1) /\ oc_eq s (sum + oc_sum (load_bytes m p (Z.to_nat count))).
Proof.
  intros Hs Hc Hb. unfold checksum_add.
  pose proof (Z.div_mod count 4 ltac:(done)) as Hdm. pose proof (Z.mod_pos_bound count 4 ltac:(done)) as Hmb.
  set (w := count / 4) in *. set (r := count mod 4) in *. assert (0 <= w) by (unfold w; apply Z.div_pos; lia).
  destruct (checksum_words_spec m (Z.to_nat w) p sum) as [Hb' Hoc]; [lia..|].
  set (s := checksum_words _ _ _ _) in *.
  replace (Z.to_nat count) with (2 * (2 * Z.to_nat w) + Z.to_nat r)%nat by lia. rewrite oc_sum_app_even.
  replace (2 * (2 * Z.to_nat w))%nat with (4 * Z.to_nat w)%nat by lia.
  replace (p + 2 * Z.of_nat (2 * Z.to_nat w)) with (p + 4 * w) by lia.
  replace (count - 4 * w) with r by lia.
  set (t := oc_sum (load_bytes m p (4 * Z.to_nat w))) in *.
  assert (0 <= t) by apply oc_sum_nonneg.
  destruct (checksum_tail m s (p + 4 * w) r) as (d & -> & Hd & Ed); [lia..|].
  cbv zeta. rewrite Ed. split; [lia|]. rewrite Z.add_assoc. apply oc_eq_add; [lia..|done].
Qed.

(** Two stores of the checksum field apart, the sums differ by its value. *)
Lemma oc_sum_store m p n k v :
  (2 * k + 2 <= n)%nat -> load16 m (p + 2 * Z.of_nat k) = 0 ->
  oc_sum (load_bytes (store16 m (p + 2 * Z.of_nat k) v) p n) = oc_sum (load_bytes m p n) + u16 v.
Proof.
  intros Hk Hz. replace n with (2 * k + (2 * 1 + (n - 2 - 2 * k)))%nat by lia.
  rewrite !oc_sum_app_even. rewrite <- !load16_oc, load16_store16_eq, Hz.
  rewrite !(load_bytes_ext m (store16 m (p + 2 * Z.of_nat k) v)); [lia|..];
    intros x Hx; apply load8_store_out; lia.
Qed.

(** A sum that is congruent to 0 and positive has checksum 0. *)
Lemma checksum_finalize_zero sum : 0 < sum < 2 ^ 64 -> sum mod 65535 = 0 -> checksum_finalize sum = Ok 0.
Proof.
  intros Hs Hm. destruct (checksum_finalize_spec sum) as (r & -> & Hr & Hoc & Hz); [lia|].
  rewrite Hm in Hoc. assert (r <> 0) by (intros ->; lia).
  destruct (Z.eq_dec r 65535) as [->|]; [done|]. rewrite Z.mod_small in Hoc by lia. lia.
Qed.

(** The receiver's check: with the checksum stored in a zeroed field, the
    checksum of the whole is zero. *)
Lemma ipv4_checksum_stored m p len k :
  0 <= len < 2 ^ 16 -> 2 * Z.of_nat k + 2 <= len -> load16 m (p + 2 * Z.of_nat k) = 0 ->
  0 < oc_sum (load_bytes m p (Z.to_nat len)) ->
  exists c, ipv4_checksum m p len = Ok c /\ 0 <= c < 2 ^ 16 /\
    ipv4_checksum (store16 m (p + 2 * Z.of_nat k) c) p len = Ok 0.
Proof.
  intros Hlen Hk Hz Hpos. unfold ipv4_checksum.
  destruct (checksum_add_spec m 0 p len) as [Hb [Hm Hz0]]; [lia..|].
  destruct (checksum_finalize_spec (checksum_add m 0 p len)) as (r & -> & Hr & Hrm & Hr0); [lia|].
  exists (65535 - r). split_and!; [done|lia|lia|].
  destruct (checksum_add_spec (store16 m (p + 2 * Z.of_nat k) (65535 - r)) 0 p len) as [Hb' [Hm' Hz0']]; [lia..|].
  rewrite oc_sum_store, u16_small in Hm', Hz0' by lia.
  apply checksum_finalize_zero; [lia|].
  rewrite Hm', Z.add_assoc, Z.add_mod, <- Hm, <- Hrm, <- Z.add_mod by lia.
  by replace (r + (65535 - r)) with (1 * 65535) by lia.
Qed.

(** The pseudo header that [udp_checksum] adds. *)
Definition udp_pseudo (len dest_ip src_ip : Z) : Z :=
  Z.land src_ip 0xffff + Z.shiftr src_ip 16 + Z.land dest_ip 0xffff + Z.shiftr dest_ip 16 +
  htons IPPROTO_UDP + htons len.

Lemma ip_words ip : is_u32 ip -> 0 <= Z.land ip 0xffff < 2 ^ 16 /\ 0 <= Z.shiftr ip 16 < 2 ^ 16.
Proof.
  intros Hip. unfold is_u32 in Hip. rewrite land_ffff, Z.shiftr_div_pow2 by done.
  split; [apply Z.mod_pos_bound; lia|]. split; [apply Z.div_pos; lia|]. apply Z.div_lt_upper_bound; lia.
Qed.

Lemma bswap16_range x : 0 <= bswap16 x < 2 ^ 16.
Proof. unfold bswap16. pose proof (u8_range x). pose proof (u8_range (x / 2 ^ 8)). lia. Qed.

Lemma udp_checksum_sum m p len d s :
  0 <= len < 2 ^ 16 -> is_u32 d -> is_u32 s ->
  udp_checksum m p len d s = checksum_finalize (checksum_add m 0 p len + udp_pseudo len d s) /\
  htons IPPROTO_UDP <= udp_pseudo len d s < 2 ^ 20.
Proof.
  intros Hlen Hd Hs. pose proof (ip_words d Hd). pose proof (ip_words s Hs).
  pose proof (bswap16_range len) as Hl. change (bswap16 len) with (htons len) in Hl.
  destruct (checksum_add_spec m 0 p len) as [Hb _]; [lia..|].
  change (htons IPPROTO_UDP) with 4352. unfold udp_checksum, udp_pseudo.
  change (htons IPPROTO_UDP) with 4352. split; [|lia].
  set (c := checksum_add m 0 p len) in *.
  rewrite (u64_small (c + _)) by lia. rewrite (u64_small (c + _ + _)) by lia.
  rewrite (u64_small (c + _ + _ + _)) by lia. rewrite (u64_small (c + _ + _ + _ + _)) by lia.
  rewrite (u64_small (c + _ + _ + _ + _ + _)) by lia. rewrite u64_small by lia.
  f_equal. lia.
Qed.

Lemma udp_checksum_stored m p len d s k :
  0 <= len < 2 ^ 16 -> is_u32 d -> is_u32 s ->
  2 * Z.of_nat k + 2 <= len -> load16 m (p + 2 * Z.of_nat k) = 0 ->
  exists c, udp_checksum m p len d s = Ok c /\ 0 <= c < 2 ^ 16 /\
    udp_checksum (store16 m (p + 2 * Z.of_nat k) c) p len d s = Ok 0.
Proof.
  intros Hlen Hd Hs Hk Hz. destruct (udp_checksum_sum m p len d s) as [-> Hps]; [done..|].
  change (htons IPPROTO_UDP) with 4352 in Hps. set (ps := udp_pseudo len d s) in *.
  destruct (checksum_add_spec m 0 p len) as [Hb [Hm Hz0]]; [lia..|].
  destruct (checksum_finalize_spec (checksum_add m 0 p len + ps)) as (r & -> & Hr & Hrm & Hr0); [lia|].
  exists (65535 - r). split_and!; [done|lia|lia|].
  set (m' := store16 m (p + 2 * Z.of_nat k) (65535 - r)).
  destruct (udp_checksum_sum m' p len d s) as [-> _]; [done..|]. fold ps.
  destruct (checksum_add_spec m' 0 p len) as [Hb' [Hm' Hz0']]; [lia..|].
  subst m'. rewrite oc_sum_store, u16_small in Hm' by lia.
  apply checksum_finalize_zero; [lia|].
  rewrite Z.add_mod, Hm', <- Z.add_mod by lia.
  replace (0 + (oc_sum (load_bytes m p (Z.to_nat len)) + (65535 - r)) + ps)
    with (0 + oc_sum (load_bytes m p (Z.to_nat len)) + (ps + (65535 - r))) by lia.
  rewrite Z.add_mod, <- Hm, <- Z.add_mod, Z.add_assoc, Z.add_mod, <- Hrm, <- Z.add_mod by lia.
  by replace (r + (65535 - r)) with (1 * 65535) by lia.
Qed.

(** ** The reference of RFC 1071 *)

(** 16-bit one's complement addition, and the sum of the little-endian 16-bit
    words of a byte string, an odd byte at the end padded with zero. *)
Definition oc_add (a b : Z) : Z := let s := a + b in s mod 2 ^ 16 + s / 2 ^ 16.

Fixpoint rfc1071_sum (bs : list Z) : Z :=
  match bs with
  | [] => 0
  | [b] => b
  | b :: b' :: bs => oc_add (b + 2 ^ 8 * b') (rfc1071_sum bs)
  end.

Definition rfc1071 (bs : list Z) : Z := 65535 - rfc1071_sum bs.

Lemma oc_add_spec a b :
  0 <= a < 2 ^ 16 -> 0 <= b < 2 ^ 16 -> 0 <= oc_add a b < 2 ^ 16 /\ oc_eq (oc_add a b) (a + b).
Proof.
  intros Ha Hb. pose proof (fold_oc_eq (a + b) ltac:(lia)) as Hoc.
  pose proof (fold_step (a + b) ltac:(lia)) as E. rewrite land_ffff, Z.shiftr_div_pow2 in E by done.
  unfold oc_add. rewrite E. split; [|done].
  destruct (Z.lt_ge_cases (a + b) (2 ^ 16)).
  - rewrite Z.div_small by lia. lia.
  - replace ((a + b) / 2 ^ 16) with 1; [lia|]. apply (Z.div_unique_pos _ _ _ (a + b - 2 ^ 16)); lia.
Qed.

Lemma rfc1071_sum_spec m n p :
  let bs := load_bytes m p n in 0 <= rfc1071_sum bs < 2 ^ 16 /\ oc_eq (rfc1071_sum bs) (oc_sum bs).
Proof.
  revert p. induction (lt_wf n) as [n _ IH]. intros p. pose proof (load8_range m p).
  destruct n as [|[|n]]; cbn [load_bytes rfc1071_sum oc_sum].
  - split; [lia|split; reflexivity].
  - split; [lia|split; reflexivity].
  - pose proof (load8_range m (p + 1)). destruct (IH n ltac:(lia) (p + 1 + 1)) as [Hr Hoc].
    destruct (oc_add_spec (load8 m p + 2 ^ 8 * load8 m (p + 1)) (rfc1071_sum (load_bytes m (p + 1 + 1) n)))
      as [Hr' Hoc']; [lia..|].
    split; [done|]. eapply oc_eq_trans; [exact Hoc'|]. rewrite !(Z.add_comm (_ + 2 ^ 8 * _)).
    apply oc_eq_add; [lia|apply oc_sum_nonneg|lia|done].
Qed.

Lemma oc_eq_unique a b : 0 <= a < 2 ^ 16 -> 0 <= b < 2 ^ 16 -> oc_eq a b -> a = b.
Proof.
  intros Ha Hb [Hm Hz].
  destruct (Z.eq_dec a 65535) as [->|]; destruct (Z.eq_dec b 65535) as [->|]; [done|..].
  - rewrite (Z.mod_small b) in Hm by lia. change (65535 mod 65535) with 0 in Hm. lia.
  - rewrite (Z.mod_small a) in Hm by lia. change (65535 mod 65535) with 0 in Hm. lia.
  - by rewrite !Z.mod_small in Hm by lia.
Qed.

Lemma oc_sum_pos m n p :
  (exists i, (i < n)%nat /\ load8 m (p + Z.of_nat i) <> 0) -> 0 < oc_sum (load_bytes m p n).
Proof.
  revert p. induction (lt_wf n) as [n _ IH]. intros p (i & Hi & Hnz). pose proof (load8_range m p).
  destruct n as [|[|n]]; [lia| |]; cbn [load_bytes oc_sum].
  - destruct i; [|lia]. rewrite Z.add_0_r in Hnz. lia.
  - pose proof (load8_range m (p + 1)). pose proof (oc_sum_nonneg m (p + 1 + 1) n).
    destruct i as [|[|i]].
    + rewrite Z.add_0_r in Hnz. lia.
    + change (Z.of_nat 1) with 1 in Hnz. lia.
    + assert (0 < oc_sum (load_bytes m (p + 1 + 1) n)); [|lia]. apply IH; [lia|]. exists i. split; [lia|].
      by replace (p + 1 + 1 + Z.of_nat i) with (p + Z.of_nat (S (S i))) by lia.
Qed.

(** C24: the checksum of an IP header, which the code adds up in 32-bit words in
    a 64-bit accumulator and folds at the end, is the 16-bit one's complement
    checksum of RFC 1071; and once it is stored in the zeroed checksum field
    the checksum of the whole header is 0, which is the receiver's test. *)
Theorem ipv4_checksum_correct (m : mem) (p len : Z) (k : nat)
    (Hlen : 0 <= len < 2 ^ 16) (Hk : 2 * Z.of_nat k + 2 <= len)
    (Hzero : load16 m (p + 2 * Z.of_nat k) = 0)
    (Hsome : exists i, (i < Z.to_nat len)%nat /\ load8 m (p + Z.of_nat i) <> 0) :
  exists c, ipv4_checksum m p len = Ok c /\ c = rfc1071 (load_bytes m p (Z.to_nat len)) /\
    ipv4_checksum (store16 m (p + 2 * Z.of_nat k) c) p len = Ok 0.
Proof.
  destruct (ipv4_checksum_stored m p len k Hlen Hk Hzero (oc_sum_pos _ _ _ Hsome)) as (c & Ec & _ & Ev).
  exists c. split_and!; [done| |done]. revert Ec. unfold ipv4_checksum.
  destruct (checksum_add_spec m 0 p len) as [Hb Hoc]; [lia..|].
  destruct (checksum_finalize_spec (checksum_add m 0 p len)) as (r & -> & Hr & Hroc); [lia|].
  intros [= <-]. unfold rfc1071. f_equal.
  destruct (rfc1071_sum_spec m (Z.to_nat len) p) as [Hs [Hsm Hsz]].
  apply oc_eq_unique; [done..|]. eapply oc_eq_trans; [exact Hroc|]. eapply oc_eq_trans; [exact Hoc|].
  split; [by symmetry|]. rewrite Z.add_0_l. by symmetry.
Qed.

(** A 20-byte header [45 00 00 54 00 00 40 00 40 11 00 00 0a 00 00 01 0a 00 00 02]. *)
Definition ex_header : mem :=
  store_bytes ∅ 0x1000 [0x45; 0; 0; 0x54; 0; 0; 0x40; 0; 0x40; 0x11; 0; 0; 10; 0; 0; 1; 10; 0; 0; 2].

Lemma ipv4_checksum_correct_witness :
  exists c, ipv4_checksum ex_header 0x1000 20 = Ok c /\
    c = rfc1071 (load_bytes ex_header 0x1000 (Z.to_nat 20)) /\
    ipv4_checksum (store16 ex_header (0x1000 + 2 * Z.of_nat 5) c) 0x1000 20 = Ok 0.
Proof.
  apply (ipv4_checksum_correct ex_header 0x1000 20 5); [lia|lia|vm_compute; reflexivity|].
  exists 0%nat. split; [vm_compute; lia|vm_compute; discriminate].
Defined.

(** ** Addresses *)

(** The decimal digits of a byte, without leading zeros. *)
Definition dec_byte (n : Z) : list Z :=
  if n <? 10 then [48 + n]
  else if n <? 100 then [48 + n / 10; 48 + n mod 10]
  else [48 + n / 100; 48 + n / 10 mod 10; 48 + n mod 10].

Definition dotted (a b c d : Z) : list Z :=
  dec_byte a ++ 46 :: dec_byte b ++ 46 :: dec_byte c ++ 46 :: dec_byte d ++ [0].

Lemma inet_digit d cp ret acc :
  0 <= d < 10 -> 0 <= acc -> acc * 10 + d <= 255 ->
  inet_addr_loop ((48 + d) :: cp) ret acc = inet_addr_loop cp ret (acc * 10 + d).
Proof.
  intros. cbn [inet_addr_loop]. destruct (Z.leb_spec 48 (48 + d)); [|lia]. destruct (Z.leb_spec (48 + d) 57); [|lia].
  cbn [andb]. rewrite u32_small by lia. replace (acc * 10 + (48 + d - 48)) with (acc * 10 + d) by lia.
  unfold UCHAR_MAX. by destruct (Z.ltb_spec 255 (acc * 10 + d)); [lia|].
Qed.

Lemma inet_byte n cp ret : is_byte n -> inet_addr_loop (dec_byte n ++ cp) ret 0 = inet_addr_loop cp ret n.
Proof.
  unfold is_byte. intros Hn. unfold dec_byte.
  pose proof (Z.div_mod n 10 ltac:(done)). pose proof (Z.mod_pos_bound n 10 ltac:(done)).
  destruct (Z.ltb_spec n 10); [|destruct (Z.ltb_spec n 100)]; cbn [app].
  - rewrite inet_digit by lia. apply f_equal. lia.
  - rewrite !inet_digit by lia. apply f_equal. lia.
  - pose proof (Z.div_mod (n / 10) 10 ltac:(done)). pose proof (Z.mod_pos_bound (n / 10) 10 ltac:(done)).
    assert (n / 10 / 10 = n / 100) as E by (rewrite Z.div_div by lia; done). rewrite E in *.
    rewrite !inet_digit by lia. apply f_equal. lia.
Qed.

Lemma inet_shift ret acc : 0 <= ret < 2 ^ 24 -> is_byte acc -> Z.lor (u32 (Z.shiftl ret 8)) acc = ret * 2 ^ 8 + acc.
Proof.
  unfold is_byte. intros Hr Ha. rewrite Z.shiftl_mul_pow2, u32_small by lia.
  apply (lor_add_disjoint _ _ 8); [lia| |lia]. by apply Z.mod_mul.
Qed.

Lemma inet_dot cp ret acc :
  inet_addr_loop (46 :: cp) ret acc = inet_addr_loop cp (Z.lor (u32 (Z.shiftl ret 8)) acc) 0.
Proof. done. Qed.

Lemma inet_end cp ret acc :
  inet_addr_loop (0 :: cp) ret acc = Ok (htonl (Z.lor (u32 (Z.shiftl ret 8)) acc)).
Proof. done. Qed.

Lemma u8_digit a b : is_byte b -> u8 (a * 2 ^ 8 + b) = b.
Proof. unfold is_byte, u8. intros. rewrite Z.add_comm, Z.mod_add by lia. by apply Z.mod_small. Qed.

Lemma div_digit a b : is_byte b -> (a * 2 ^ 8 + b) / 2 ^ 8 = a.
Proof. unfold is_byte. intros. rewrite Z.div_add_l, Z.div_small by lia. lia. Qed.

(** The swap of a big-endian number of four bytes is the little-endian one. *)
Lemma bswap32_bytes a b c d :
  is_byte a -> is_byte b -> is_byte c -> is_byte d ->
  bswap32 (((a * 2 ^ 8 + b) * 2 ^ 8 + c) * 2 ^ 8 + d) = le_join [a; b; c; d].
Proof.
  intros Ha Hb Hc Hd. unfold bswap32. rewrite u8_digit by done.
  change (2 ^ 24) with (2 ^ 8 * 2 ^ 8 * 2 ^ 8). change (2 ^ 16) with (2 ^ 8 * 2 ^ 8).
  rewrite <- !Z.div_div, !div_digit, !u8_digit, u8_small by done. cbn [le_join]. lia.
Qed.

(** [inet_addr] reads every dotted decimal address: stored in memory, its
    result is the four bytes in the order they are written (network order). *)
Theorem inet_addr_network_order (m : mem) (p a b c d : Z)
    (Ha : is_byte a) (Hb : is_byte b) (Hc : is_byte c) (Hd : is_byte d) :
  exists addr, inet_addr (dotted a b c d) = Ok addr /\ load_bytes (store32 m p addr) p 4 = [a; b; c; d].
Proof.
  assert (Forall is_byte [a; b; c; d]) as Hbs by (rewrite !Forall_cons; auto using Forall_nil_2).
  exists (le_join [a; b; c; d]). split.
  - unfold inet_addr, dotted. unfold is_byte in *.
    rewrite inet_byte, inet_dot by done. change (Z.lor (u32 (Z.shiftl 0 8)) a) with a.
    rewrite inet_byte, inet_dot, inet_shift by (unfold is_byte; lia).
    rewrite inet_byte, inet_dot, inet_shift by (unfold is_byte; lia).
    rewrite inet_byte, inet_end, inet_shift by (unfold is_byte; lia).
    f_equal. by apply bswap32_bytes.
  - unfold store32. rewrite store_split.
    change 4%nat with (length [a; b; c; d]). rewrite le_split_join by done.
    by apply load_bytes_store_bytes.
Qed.

Lemma inet_addr_network_order_witness :
  exists addr, inet_addr (dotted 192 168 1 254) = Ok addr /\
    load_bytes (store32 ∅ 0x1000 addr) 0x1000 4 = [192; 168; 1; 254].
Proof. apply (inet_addr_network_order ∅ 0x1000 192 168 1 254); unfold is_byte; lia. Defined.

(** [ntohl] does not undo [htonl]: it swaps 16 bits only, and what comes back
    is the upper half of the number. *)
Lemma ntohl_htonl_upper_half x : is_u32 x -> ntohl (htonl x) = x / 2 ^ 16.
Proof.
  intros Hx. unfold is_u32 in Hx. unfold ntohl, htonl, bswap16, bswap32.
  set (b0 := u8 x). set (b1 := u8 (x / 2 ^ 8)).
  assert (0 <= x / 2 ^ 16 < 2 ^ 16) as Hh by (split; [apply Z.div_pos; lia|apply Z.div_lt_upper_bound; lia]).
  replace (x / 2 ^ 24) with (x / 2 ^ 16 / 2 ^ 8) by (rewrite Z.div_div by lia; done).
  set (h := x / 2 ^ 16) in *.
  replace (b0 * 2 ^ 24 + b1 * 2 ^ 16 + u8 h * 2 ^ 8 + u8 (h / 2 ^ 8))
    with ((b0 * 2 ^ 16 + b1 * 2 ^ 8 + u8 h) * 2 ^ 8 + u8 (h / 2 ^ 8)) by lia.
  rewrite u8_digit, div_digit by apply u8_range.
  replace (b0 * 2 ^ 16 + b1 * 2 ^ 8 + u8 h) with ((b0 * 2 ^ 8 + b1) * 2 ^ 8 + u8 h) by lia.
  rewrite u8_digit by apply u8_range.
  rewrite (u8_small (h / 2 ^ 8)) by (split; [apply Z.div_pos; lia|apply Z.div_lt_upper_bound; lia]).
  pose proof (Z.div_mod h (2 ^ 8) ltac:(done)). unfold u8. lia.
Qed.
