(* ===== verification/ArpCache.v ===== *)
(** * The ARP cache

    usr/liblinux/src/internal/arp_cache.c: a hash table of 128 entries with
    linear probing, in memory.  It refines a finite map from IP addresses to
    MAC addresses with room for 128 keys. *)

From S2P Require Import Prelude Mem.

(** ** [struct arp_cache] (usr/liblinux/src/internal/arp_cache.h) *)

Definition ETH_ALEN : Z := 6.
Definition ARP_CACHE_SHIFT : Z := 7.
Definition ARP_CACHE_SIZE : Z := Z.shiftl 1 ARP_CACHE_SHIFT.

(** An entry: the 32-bit address, the 6 bytes of the MAC address and 2 bytes of padding. *)
Definition entry_ip_addr (entry : Z) : Z := entry.
Definition entry_mac_addr (entry : Z) : Z := entry + 4.
Definition sizeof_arp_cache_entry : Z := 12.
Definition cache_entries (cache idx : Z) : Z := cache + sizeof_arp_cache_entry * idx.
Definition sizeof_arp_cache : Z := sizeof_arp_cache_entry * ARP_CACHE_SIZE.

(** ** Operations *)

Definition arp_cache_init (m : mem) (cache : Z) : mem := memset m cache 0 (Z.to_nat sizeof_arp_cache).

Definition arp_hash (ip_addr : Z) : Z := Z.shiftr (u32 (ip_addr * 2654435761)) (32 - ARP_CACHE_SHIFT).

(** The probe: [fuel] counts the iterations left. *)
Fixpoint find_entry_loop (m : mem) (cache ip_addr hash count : Z) (fuel : nat) : Z :=
  match fuel with
  | O => 0
  | S fuel =>
      let idx := Z.land (u32 (hash + count)) (ARP_CACHE_SIZE - 1) in
      let entry := cache_entries cache idx in
      if load32 m (entry_ip_addr entry) =? ip_addr then entry
      else find_entry_loop m cache ip_addr hash (count + 1) fuel
  end.

Definition find_entry (m : mem) (cache ip_addr hash : Z) : Z :=
  find_entry_loop m cache ip_addr hash 0 (Z.to_nat ARP_CACHE_SIZE).

Definition find_occupied_entry (m : mem) (cache ip_addr : Z) : Z :=
  find_entry m cache ip_addr (arp_hash ip_addr).

Definition find_empty_entry (m : mem) (cache ip_addr : Z) : Z :=
  find_entry m cache 0 (arp_hash ip_addr).

Definition arp_cache_insert (m : mem) (cache ip_addr mac_addr : Z) : outcome mem :=
  let entry := find_occupied_entry m cache ip_addr in
  let entry := if entry =? 0 then find_empty_entry m cache ip_addr else entry in
  nonnull! entry ;;
  let m := store32 m (entry_ip_addr entry) ip_addr in
  Ok (memcpy m (entry_mac_addr entry) mac_addr (Z.to_nat ETH_ALEN)).

Definition arp_cache_lookup (m : mem) (cache ip_addr : Z) : Z :=
  let entry := find_occupied_entry m cache ip_addr in
  if negb (entry =? 0) && (load32 m (entry_ip_addr entry) =? ip_addr) then entry_mac_addr entry else 0.

Lemma size_list_to_set_le (l : list Z) : (size (list_to_set l : gset Z) <= length l)%nat.
Proof.
  induction l as [|x l IH]; cbn [list_to_set length]; [by rewrite size_empty|].
  rewrite size_union_alt, size_singleton.
  assert (list_to_set l ∖ {[x]} ⊆ (list_to_set l : gset Z)) as H%subseteq_size by set_solver. lia.
Qed.

(** ** The probe visits every entry *)

#[local] Set Default Proof Using "All".

Section Cache.
Context (cache : Z) (Hcache : 0 < cache).

Definition entry_ip (m : mem) (i : Z) : Z := load32 m (entry_ip_addr (cache_entries cache i)).
Definition entry_mac (m : mem) (i : Z) : list Z := load_bytes m (entry_mac_addr (cache_entries cache i)) 6.

Definition probe (hash count : Z) : Z := (hash + count) mod 128.

Lemma probe_index hash count :
  0 <= hash + count < 2 ^ 32 -> Z.land (u32 (hash + count)) (ARP_CACHE_SIZE - 1) = probe hash count.
Proof. intros. rewrite u32_small by lia. by apply (Z.land_ones _ 7). Qed.

Lemma arp_hash_range ip : 0 <= arp_hash ip < 128.
Proof.
  unfold arp_hash. change (32 - ARP_CACHE_SHIFT) with 25. rewrite Z.shiftr_div_pow2 by done. pose proof (u32_range (ip * 2654435761)).
  split; [apply Z.div_pos; lia|]. apply Z.div_lt_upper_bound; lia.
Qed.

Lemma probe_covers hash i : 0 <= hash < 128 -> 0 <= i < 128 -> exists c, 0 <= c < 128 /\ probe hash c = i.
Proof.
  intros Hh Hi. exists ((i - hash) mod 128). split; [apply Z.mod_pos_bound; lia|].
  unfold probe. rewrite Zplus_mod_idemp_r. replace (hash + (i - hash)) with i by lia. apply Z.mod_small. lia.
Qed.

(** The first match of the probe sequence, or null when there is none. *)
Lemma find_entry_loop_spec m ip hash fuel : forall count,
  0 <= hash < 128 -> 0 <= count -> count + Z.of_nat fuel <= 128 ->
  let r := find_entry_loop m cache ip hash count fuel in
  (exists c, count <= c < count + Z.of_nat fuel /\ r = cache_entries cache (probe hash c) /\
    entry_ip m (probe hash c) = ip) \/
  (r = 0 /\ forall c, count <= c < count + Z.of_nat fuel -> entry_ip m (probe hash c) <> ip).
Proof.
  induction fuel as [|fuel IH]; intros count Hh Hc Hf; cbn [find_entry_loop].
  - right. split; [done|]. lia.
  - rewrite probe_index by lia. fold (entry_ip m (probe hash count)).
    destruct (Z.eqb_spec (entry_ip m (probe hash count)) ip) as [E|E].
    + left. exists count. split; [lia|done].
    + destruct (IH (count + 1) Hh ltac:(lia) ltac:(lia)) as [(c & Hc' & ? & ?)|[Hr Hn]].
      * left. exists c. split; [lia|done].
      * right. split; [done|]. intros c Hc'. destruct (Z.eq_dec c count) as [->|]; [done|]. apply Hn. lia.
Qed.

Lemma find_entry_spec m ip hash :
  0 <= hash < 128 ->
  (exists i, 0 <= i < 128 /\ find_entry m cache ip hash = cache_entries cache i /\ entry_ip m i = ip) \/
  (find_entry m cache ip hash = 0 /\ forall i, 0 <= i < 128 -> entry_ip m i <> ip).
Proof.
  intros Hh. unfold find_entry. change (Z.to_nat ARP_CACHE_SIZE) with 128%nat.
  destruct (find_entry_loop_spec m ip hash 128 0) as [(c & Hc & Hr & Hip)|[Hr Hn]]; [lia..| |].
  - left. exists (probe hash c). split; [apply Z.mod_pos_bound; lia|done].
  - right. split; [done|]. intros i Hi. destruct (probe_covers hash i Hh Hi) as (c & Hc & <-). by apply Hn.
Qed.

(** ** The refinement of a finite map *)

(** The cache holds the map [M]: every key is in exactly one entry. *)
Record holds (m : mem) (M : gmap Z (list Z)) : Prop := {
  holds_uniq : forall i j, 0 <= i < 128 -> 0 <= j < 128 ->
    entry_ip m i = entry_ip m j -> entry_ip m i <> 0 -> i = j;
  holds_entry : forall i, 0 <= i < 128 -> entry_ip m i <> 0 -> M !! entry_ip m i = Some (entry_mac m i);
  holds_key : forall ip mac, M !! ip = Some mac -> ip <> 0 /\ exists i, 0 <= i < 128 /\ entry_ip m i = ip;
}.

Lemma find_occupied_spec m M ip :
  holds m M -> ip <> 0 ->
  match M !! ip with
  | Some mac => exists i, 0 <= i < 128 /\ find_occupied_entry m cache ip = cache_entries cache i /\
      entry_ip m i = ip /\ entry_mac m i = mac
  | None => find_occupied_entry m cache ip = 0
  end.
Proof.
  intros HM Hip. unfold find_occupied_entry.
  destruct (find_entry_spec m ip (arp_hash ip) (arp_hash_range ip)) as [(i & Hi & Hr & Ei)|[Hr Hn]].
  - pose proof (holds_entry _ _ HM i Hi ltac:(by rewrite Ei)) as HMi. rewrite Ei in HMi. rewrite HMi. by exists i.
  - destruct (M !! ip) as [mac|] eqn:E; [|done].
    destruct (holds_key _ _ HM ip mac E) as (_ & i & Hi & Ei). by destruct (Hn i Hi).
Qed.

Lemma entries_pos i : 0 <= i -> cache_entries cache i <> 0.
Proof. unfold cache_entries, sizeof_arp_cache_entry. lia. Qed.

Lemma lookup_spec m M ip :
  holds m M -> ip <> 0 ->
  match M !! ip with
  | Some mac => exists i, 0 <= i < 128 /\ arp_cache_lookup m cache ip = entry_mac_addr (cache_entries cache i) /\
      entry_mac m i = mac
  | None => arp_cache_lookup m cache ip = 0
  end.
Proof.
  intros HM Hip. pose proof (find_occupied_spec m M ip HM Hip) as H. unfold arp_cache_lookup.
  destruct (M !! ip) as [mac|].
  - destruct H as (i & Hi & -> & Ei & Em). exists i. split; [done|]. unfold entry_ip in Ei.
    rewrite Ei, Z.eqb_refl. pose proof (entries_pos i). destruct (Z.eqb_spec (cache_entries cache i) 0); [lia|done].
  - by rewrite H.
Qed.

(** With fewer than 128 keys some entry is empty. *)
Lemma not_full_empty m M :
  holds m M -> (size M < 128)%nat -> exists i, 0 <= i < 128 /\ entry_ip m i = 0.
Proof.
  intros HM Hsz. destruct (decide (Exists (fun i => entry_ip m i = 0) (seqZ 0 128))) as [He|Hne].
  { apply Exists_exists in He as (i & Hi & E). apply elem_of_seqZ in Hi. exists i. split; [lia|done]. }
  exfalso. apply not_Exists_Forall in Hne; [|apply _]. rewrite Forall_forall in Hne.
  assert (forall i, 0 <= i < 128 -> entry_ip m i <> 0) as Hnz.
  { intros i Hi. apply Hne. apply elem_of_seqZ. lia. }
  set (keys := entry_ip m <$> seqZ 0 128).
  assert (NoDup keys) as Hnd.
  { apply NoDup_fmap_2_strong; [|apply NoDup_seqZ]. intros i j Hi Hj E.
    apply elem_of_seqZ in Hi, Hj. eapply holds_uniq; [done|lia|lia|done|apply Hnz; lia]. }
  assert (list_to_set keys ⊆@{gset Z} dom M) as Hsub.
  { intros k Hk. apply elem_of_list_to_set, list_elem_of_fmap in Hk as (i & -> & Hi). apply elem_of_seqZ in Hi.
    apply elem_of_dom. rewrite (holds_entry _ _ HM i) by (apply Hnz || idtac; lia). done. }
  apply subseteq_size in Hsub. rewrite size_list_to_set in Hsub by done.
  rewrite size_dom in Hsub. unfold keys in Hsub. rewrite length_fmap, length_seqZ in Hsub. lia.
Qed.

(** ** Writing an entry *)

Lemma entries_disjoint i j : i <> j ->
  cache_entries cache i + 12 <= cache_entries cache j \/ cache_entries cache j + 12 <= cache_entries cache i.
Proof. unfold cache_entries, sizeof_arp_cache_entry. lia. Qed.

Lemma entry_in_cache i : 0 <= i < 128 ->
  cache <= cache_entries cache i /\ cache_entries cache i + 12 <= cache + sizeof_arp_cache.
Proof. unfold cache_entries. change sizeof_arp_cache with 1536. unfold sizeof_arp_cache_entry. lia. Qed.

Definition write_entry (m : mem) (i ip mac_addr : Z) : mem :=
  memcpy (store32 m (entry_ip_addr (cache_entries cache i)) ip)
    (entry_mac_addr (cache_entries cache i)) mac_addr (Z.to_nat ETH_ALEN).

Section Write.
Context (m : mem) (i ip macp : Z) (Hi : 0 <= i < 128) (Hip : is_u32 ip).
Context (Hmac : macp + 6 <= cache \/ cache + sizeof_arp_cache <= macp).

Lemma write_entry_out x :
  x < cache_entries cache i \/ cache_entries cache i + 10 <= x -> load8 (write_entry m i ip macp) x = load8 m x.
Proof.
  intros Hx. unfold write_entry, entry_mac_addr, entry_ip_addr in *. change (Z.to_nat ETH_ALEN) with 6%nat.
  rewrite load8_memcpy_out by lia. apply load8_store_out. lia.
Qed.

Lemma write_entry_ip : entry_ip (write_entry m i ip macp) i = ip.
Proof.
  unfold entry_ip, write_entry, entry_mac_addr, entry_ip_addr. change (Z.to_nat ETH_ALEN) with 6%nat.
  rewrite (load_ext 4 (store32 m (cache_entries cache i) ip)).
  - unfold is_u32 in Hip. rewrite load32_store32_eq. by apply u32_small.
  - intros x Hx. apply load8_memcpy_out. lia.
Qed.

Lemma write_entry_mac : entry_mac (write_entry m i ip macp) i = load_bytes m macp 6.
Proof.
  pose proof (entry_in_cache i Hi). unfold entry_mac, write_entry, entry_mac_addr, entry_ip_addr.
  change (Z.to_nat ETH_ALEN) with 6%nat.
  rewrite load_bytes_memcpy by lia. apply load_bytes_ext. intros x Hx. apply load8_store_out. lia.
Qed.

Lemma write_entry_other j :
  j <> i -> entry_ip (write_entry m i ip macp) j = entry_ip m j /\ entry_mac (write_entry m i ip macp) j = entry_mac m j.
Proof.
  intros Hj. pose proof (entries_disjoint i j ltac:(lia)). split.
  - apply load_ext. unfold entry_ip_addr. intros x Hx. apply write_entry_out. lia.
  - apply load_bytes_ext. unfold entry_mac_addr. intros x Hx. apply write_entry_out. lia.
Qed.

(** Writing a key into its own entry, or a new key into an empty one. *)
Lemma write_entry_holds M :
  holds m M -> ip <> 0 ->
  entry_ip m i = ip \/ (entry_ip m i = 0 /\ M !! ip = None) ->
  holds (write_entry m i ip macp) (<[ip := load_bytes m macp 6]> M).
Proof.
  intros HM Hnz Hcase.
  assert (forall j, 0 <= j < 128 -> j <> i -> entry_ip m j <> ip) as Hother.
  { intros j Hj Hne E. destruct Hcase as [Ei|[_ HN]].
    - apply Hne. eapply holds_uniq; [done|done|done|congruence|congruence].
    - pose proof (holds_entry _ _ HM j Hj ltac:(congruence)). congruence. }
  split.
  - intros j k Hj Hk. destruct (Z.eq_dec j i) as [->|Hji]; destruct (Z.eq_dec k i) as [->|Hki]; [done|..].
    + rewrite write_entry_ip, (proj1 (write_entry_other k Hki)). intros E. by destruct (Hother k Hk Hki).
    + rewrite write_entry_ip, (proj1 (write_entry_other j Hji)). intros E. by destruct (Hother j Hj Hji).
    + rewrite (proj1 (write_entry_other j Hji)), (proj1 (write_entry_other k Hki)). by apply (holds_uniq _ _ HM).
  - intros j Hj. destruct (Z.eq_dec j i) as [->|Hji].
    + by rewrite write_entry_ip, write_entry_mac, lookup_insert_eq.
    + destruct (write_entry_other j Hji) as [-> ->]. intros Hj0.
      rewrite lookup_insert_ne by (intros E; by apply (Hother j)). by apply (holds_entry _ _ HM).
  - intros k mac. destruct (Z.eq_dec k ip) as [->|Hk].
    + intros _. split; [done|]. exists i. split; [done|apply write_entry_ip].
    + rewrite lookup_insert_ne by done. intros HMk. destruct (holds_key _ _ HM k mac HMk) as (? & j & Hj & Ej).
      split; [done|]. exists j. split; [done|].
      destruct (Z.eq_dec j i) as [->|Hji]; [|by rewrite (proj1 (write_entry_other j Hji))].
      exfalso. destruct Hcase as [?|[? _]]; congruence.
Qed.
End Write.

(** Insertion updates the map, or adds a key while there are fewer than 128. *)
Lemma insert_spec m M ip macp :
  holds m M -> ip <> 0 -> is_u32 ip ->
  macp + 6 <= cache \/ cache + sizeof_arp_cache <= macp ->
  is_Some (M !! ip) \/ (size M < 128)%nat ->
  exists m', arp_cache_insert m cache ip macp = Ok m' /\
    holds m' (<[ip := load_bytes m macp 6]> M) /\
    changes (fun x => cache <= x < cache + sizeof_arp_cache) m m'.
Proof.
  intros HM Hnz Hip Hmac Hroom.
  assert (forall i, 0 <= i < 128 ->
    changes (fun x => cache <= x < cache + sizeof_arp_cache) m (write_entry m i ip macp)) as Hch.
  { intros i Hi x Hx. pose proof (entry_in_cache i Hi). apply write_entry_out; [done..|lia]. }
  pose proof (find_occupied_spec m M ip HM Hnz) as Hocc. unfold arp_cache_insert.
  destruct (M !! ip) as [mac|] eqn:EM.
  - destruct Hocc as (i & Hi & -> & Ei & _). pose proof (entries_pos i ltac:(lia)) as Hp.
    rewrite !(proj2 (Z.eqb_neq _ 0) Hp). exists (write_entry m i ip macp). split_and!; [done| |by apply Hch].
    apply write_entry_holds; auto.
  - rewrite Hocc. cbn [Z.eqb]. destruct Hroom as [[? [=]]|Hsz].
    destruct (not_full_empty m M HM Hsz) as (i0 & Hi0 & E0).
    destruct (find_entry_spec m 0 (arp_hash ip) (arp_hash_range ip)) as [(i & Hi & Hr & Ei)|[_ Hn]];
      [|by destruct (Hn i0 Hi0)].
    unfold find_empty_entry. rewrite Hr. pose proof (entries_pos i ltac:(lia)) as Hp.
    rewrite (proj2 (Z.eqb_neq _ 0) Hp). exists (write_entry m i ip macp). split_and!; [done| |by apply Hch].
    apply write_entry_holds; auto.
Qed.

(** With an empty entry there are fewer than 128 keys. *)
Lemma empty_not_full m M i : holds m M -> 0 <= i < 128 -> entry_ip m i = 0 -> (size M < 128)%nat.
Proof.
  intros HM Hi Ei. set (ips := list_to_set (C := gset Z) (entry_ip m <$> seqZ 0 128)).
  assert ({[0]} ∪ dom M ⊆ ips) as Hsub.
  { intros k Hk. apply elem_of_list_to_set, list_elem_of_fmap.
    apply elem_of_union in Hk as [->%elem_of_singleton|[mac Hk]%elem_of_dom].
    - exists i. split; [done|apply elem_of_seqZ; lia].
    - destruct (holds_key _ _ HM k mac Hk) as (_ & j & Hj & <-). exists j. split; [done|apply elem_of_seqZ; lia]. }
  assert (0 ∉ dom M) as H0.
  { intros [mac H0]%elem_of_dom. by destruct (holds_key _ _ HM 0 mac H0). }
  apply subseteq_size in Hsub. rewrite size_union, size_singleton, size_dom in Hsub by set_solver.
  assert (size ips <= 128)%nat; [|lia].
  unfold ips. etrans; [apply size_list_to_set_le|]. rewrite length_fmap, length_seqZ. lia.
Qed.

Lemma insert_full m M ip macp :
  holds m M -> ip <> 0 -> M !! ip = None -> (128 <= size M)%nat ->
  arp_cache_insert m cache ip macp = Fault NullDeref.
Proof.
  intros HM Hnz HN Hsz. pose proof (find_occupied_spec m M ip HM Hnz) as Hocc. rewrite HN in Hocc.
  unfold arp_cache_insert. rewrite Hocc. cbn [Z.eqb]. unfold find_empty_entry.
  destruct (find_entry_spec m 0 (arp_hash ip) (arp_hash_range ip)) as [(i & Hi & _ & Ei)|[-> _]]; [|done].
  pose proof (empty_not_full m M i HM Hi Ei). lia.
Qed.

Lemma init_holds m : holds (arp_cache_init m cache) ∅.
Proof.
  assert (forall i, 0 <= i < 128 -> entry_ip (arp_cache_init m cache) i = 0) as Hz.
  { intros i Hi. pose proof (entry_in_cache i Hi). apply load_memset_0; unfold entry_ip_addr; [lia|].
    change sizeof_arp_cache with 1536 in *. lia. }
  split.
  - intros i j Hi Hj _ Hne. by rewrite Hz in Hne.
  - intros i Hi Hne. by rewrite Hz in Hne.
  - intros ip mac. by rewrite lookup_empty.
Qed.

(** The representation depends on the bytes of the cache only. *)
Lemma holds_ext m m' M :
  holds m M -> (forall x, cache <= x < cache + sizeof_arp_cache -> load8 m' x = load8 m x) -> holds m' M.
Proof.
  intros HM Hx.
  assert (forall i, 0 <= i < 128 -> entry_ip m' i = entry_ip m i /\ entry_mac m' i = entry_mac m i) as He.
  { intros i Hi. pose proof (entry_in_cache i Hi).
    split; [apply load_ext|apply load_bytes_ext]; unfold entry_ip_addr, entry_mac_addr; intros x Hr; apply Hx; lia. }
  split.
  - intros i j Hi Hj. rewrite (proj1 (He i Hi)), (proj1 (He j Hj)). by apply (holds_uniq _ _ HM).
  - intros i Hi. destruct (He i Hi) as [-> ->]. by apply (holds_entry _ _ HM).
  - intros ip mac H. destruct (holds_key _ _ HM ip mac H) as (? & i & Hi & Ei). split; [done|].
    exists i. by rewrite (proj1 (He i Hi)).
Qed.
End Cache.

(** C23: the cache is a finite map from addresses to MAC addresses.  It starts
    empty; a lookup finds the MAC address of a key and only of a key; an
    insertion updates a key or adds one while there are fewer than 128 keys;
    inserting a new key into a full cache dereferences the null pointer. *)
Theorem arp_cache_refines_map (cache : Z) (m : mem) (M : gmap Z (list Z)) (ip macp : Z)
    (Hcache : 0 < cache) (HM : holds cache m M) (Hip : is_u32 ip) (Hnz : ip <> 0)
    (Hmac : macp + 6 <= cache \/ cache + sizeof_arp_cache <= macp) :
  holds cache (arp_cache_init m cache) ∅ /\
  match M !! ip with
  | Some mac => arp_cache_lookup m cache ip <> 0 /\ load_bytes m (arp_cache_lookup m cache ip) 6 = mac
  | None => arp_cache_lookup m cache ip = 0
  end /\
  (is_Some (M !! ip) \/ (size M < 128)%nat ->
   exists m', arp_cache_insert m cache ip macp = Ok m' /\ holds cache m' (<[ip := load_bytes m macp 6]> M)) /\
  (M !! ip = None /\ (128 <= size M)%nat -> arp_cache_insert m cache ip macp = Fault NullDeref).
Proof.
  split_and!.
  - by apply init_holds.
  - pose proof (lookup_spec cache Hcache m M ip HM Hnz) as Hl. destruct (M !! ip) as [mac|]; [|done].
    destruct Hl as (i & Hi & -> & Em). split; [|done].
    unfold entry_mac_addr, cache_entries, sizeof_arp_cache_entry. lia.
  - intros Hroom. destruct (insert_spec cache Hcache m M ip macp) as (m' & E & Hh & _); [done..|]. eauto.
  - intros [HN Hf]. by eapply insert_full.
Qed.

(** 10.0.2.2 is inserted into an empty cache. *)
Lemma arp_cache_refines_map_witness :
  let m := arp_cache_init (store_bytes ∅ 0x100 [0x52; 0x54; 0; 0x12; 0x34; 0x56]) 0x1000 in
  exists m', arp_cache_insert m 0x1000 0x0202000a 0x100 = Ok m' /\
    holds 0x1000 m' (<[0x0202000a := load_bytes m 0x100 6]> ∅).
Proof.
  intros m.
  apply (arp_cache_refines_map 0x1000 m ∅ 0x0202000a 0x100 ltac:(done)
    ltac:(apply init_holds; done) ltac:(unfold is_u32; lia) ltac:(done) ltac:(left; vm_compute; discriminate)).
  right. vm_compute. lia.
Defined.
