(* ===== verification/Net.v ===== *)
(** * The user space network stack

    usr/liblinux/src/internal/{net,ip,arp,socket}.c, usr/liblinux/src/socket.c
    and usr/liblinux/src/epoll.c: Ethernet, ARP, IPv4 and UDP input and output,
    the socket table, the socket calls and [epoll_wait].

    Every variable of static storage lives in memory, at the address the class
    [NetGlobals] gives; a function takes the memory and returns the changed
    one.  The two headers that the sources include from the host system,
    linux/if_arp.h and netinet/udp.h, are the parameter [HostHeaders]. *)

From S2P Require Import Prelude Mem RingBuffer Inet ArpCache.

(** ** Parameters *)

(** Addresses of the static variables. *)
Class NetGlobals := {
  liblinux_arp_cache : Z;     (* struct arp_cache *)
  liblinux_mac_addr : Z;      (* char[6] *)
  liblinux_host_ip : Z;       (* uint32_t *)
  liblinux_eth_ioqueue : Z;   (* io_queue_t *)
  sockets : Z;                (* struct socket[8] *)
  nr_sockets : Z;             (* size_t *)
  udp_socket_ops : Z;         (* const struct socket_operations *)
  arp_tx_buf : Z;             (* char[128], of arp_reply *)
  _tx_buf : Z;                (* char[4096], of udp_sendto *)
  ip_stats : Z;               (* struct ip_statistics *)
  net_stats : Z;              (* struct net_statistics *)
  errno : Z;                  (* int *)
  nr_epoll_fds : Z;           (* int *)
  interest_set : Z;           (* struct epoll_event[1] *)
  frame : Z;                  (* stack space of the I/O queue functions *)
}.

(** What the sources use of linux/if_arp.h and netinet/udp.h: constants, sizes
    and field offsets. *)
Class HostHeaders := {
  ARPHRD_ETHER : Z;
  ARPOP_REQUEST : Z;
  ARPOP_REPLY : Z;
  ar_hrd : Z;
  ar_pro : Z;
  ar_hln : Z;
  ar_pln : Z;
  ar_op : Z;
  sizeof_arphdr : Z;
  udp_source : Z;
  udp_dest : Z;
  udp_len_field : Z;
  udp_check : Z;
  sizeof_udphdr : Z;
}.

(** The formats of RFC 826 and RFC 768. *)
Definition rfc_headers : HostHeaders := {|
  ARPHRD_ETHER := 1; ARPOP_REQUEST := 1; ARPOP_REPLY := 2;
  ar_hrd := 0; ar_pro := 2; ar_hln := 4; ar_pln := 5; ar_op := 6; sizeof_arphdr := 8;
  udp_source := 0; udp_dest := 2; udp_len_field := 4; udp_check := 6; sizeof_udphdr := 8;
|}.

(** ** Constants and layouts of the repository's headers *)

Definition EBADF : Z := 9.
Definition EINVAL : Z := 22.
Definition EMFILE : Z := 24.
Definition ENOPROTOOPT : Z := 92.
Definition EOPNOTSUPP : Z := 95.

Definition AF_INET : Z := 2.
Definition SOCK_DGRAM : Z := 2.
Definition ETH_P_IP : Z := 0x0800.
Definition ETH_P_ARP : Z := 0x0806.
Definition IP_DF : Z := 0x4000.
Definition IP_MF : Z := 0x2000.
Definition IP_OFFMASK : Z := 0x1fff.

(** [struct ethhdr] *)
Definition h_dest (p : Z) : Z := p.
Definition h_source (p : Z) : Z := p + 6.
Definition h_proto (p : Z) : Z := p + 12.
Definition sizeof_ethhdr : Z := 14.

(** [struct iphdr]; the two nibbles of the first byte are [ihl] (low) and [version] (high). *)
Definition iph_tos (p : Z) : Z := p + 1.
Definition iph_tot_len (p : Z) : Z := p + 2.
Definition iph_id (p : Z) : Z := p + 4.
Definition iph_frag_off (p : Z) : Z := p + 6.
Definition iph_ttl (p : Z) : Z := p + 8.
Definition iph_protocol (p : Z) : Z := p + 9.
Definition iph_check (p : Z) : Z := p + 10.
Definition iph_saddr (p : Z) : Z := p + 12.
Definition iph_daddr (p : Z) : Z := p + 16.
Definition sizeof_iphdr : Z := 20.
Definition iph_version (m : mem) (p : Z) : Z := Z.shiftr (load8 m p) 4.
Definition set_version (m : mem) (p v : Z) : mem := store8 m p (Z.lor (Z.land (load8 m p) 0x0f) (Z.shiftl v 4)).
Definition set_ihl (m : mem) (p v : Z) : mem := store8 m p (Z.lor (Z.land (load8 m p) 0xf0) v).

(** [struct sockaddr_in] *)
Definition sin_family (p : Z) : Z := p.
Definition sin_port (p : Z) : Z := p + 4.
Definition sin_addr (p : Z) : Z := p + 8.
Definition sizeof_sockaddr_in : Z := 12.

(** [struct socket] *)
Definition sk_ops (sk : Z) : Z := sk.
Definition sk_local_port (sk : Z) : Z := sk + 8.
Definition sk_rx_buffer (sk : Z) : Z := sk + 10.
Definition sizeof_socket : Z := 1512.

(** [struct arp_ip4] *)
Definition ar_smac (p : Z) : Z := p.
Definition ar_sip (p : Z) : Z := p + 6.
Definition ar_dmac (p : Z) : Z := p + 10.
Definition ar_dip (p : Z) : Z := p + 16.
Definition sizeof_arp_ip4 : Z := 20.

(** ** [struct packet_view] *)

Record packet_view := PacketView { pk_start : Z; pk_end : Z }.

Definition packet_view_len (pk : packet_view) : Z := u64 (pk_end pk - pk_start pk).

Definition packet_view_trim (pk : packet_view) (size : Z) : outcome packet_view :=
  assert! (size <=? packet_view_len pk) ;;
  Ok (PacketView (pk_start pk + size) (pk_end pk)).

Section Stack.
Context {G : NetGlobals} {HH : HostHeaders}.

Definition set_errno (m : mem) (e : Z) : mem := store32 m errno e.

(** [errno = e; return -1;] *)
Definition fail (m : mem) (e : Z) : outcome (Z * mem) := Ok (-1, set_errno m e).

(** ** Output: [struct packet_buf] *)

Record packet_buf := PacketBuf { pb_buf : Z; pb_len : Z; pb_capacity : Z }.

Definition packet_buf_init (buf capacity : Z) : packet_buf := PacketBuf buf 0 capacity.
Definition packet_buf_start (pk : packet_buf) : Z := pb_buf pk.
Definition packet_buf_len (pk : packet_buf) : Z := pb_len pk.

Definition packet_buf_reserve (pk : packet_buf) (size : Z) : outcome (Z * packet_buf) :=
  assert! (u64 (pb_len pk + size) <? pb_capacity pk) ;;
  let off := pb_len pk in
  Ok (pb_buf pk + off, PacketBuf (pb_buf pk) (u64 (pb_len pk + size)) (pb_capacity pk)).

Definition packet_buf_append (m : mem) (pk : packet_buf) (buf len : Z) : outcome (packet_buf * mem) :=
  '(dst, pk) ← packet_buf_reserve pk len;
  Ok (pk, memcpy m dst buf (Z.to_nat len)).

Definition ethhdr_append (m : mem) (pk : packet_buf) (dest source proto : Z) : outcome (Z * packet_buf * mem) :=
  '(ethh, pk) ← packet_buf_reserve pk sizeof_ethhdr;
  if ethh =? 0 then Ok (ethh, pk, m) else
  let m := memcpy m (h_dest ethh) dest (Z.to_nat ETH_ALEN) in
  let m := memcpy m (h_source ethh) source (Z.to_nat ETH_ALEN) in
  let m := store16 m (h_proto ethh) (htons proto) in
  Ok (ethh, pk, m).

Definition iphdr_append (m : mem) (pk : packet_buf) (tot_len proto dest_ip src_ip : Z)
  : outcome (Z * packet_buf * mem) :=
  '(iph, pk) ← packet_buf_reserve pk sizeof_iphdr;
  if iph =? 0 then Ok (iph, pk, m) else
  let m := set_version m iph 4 in
  let m := set_ihl m iph 5 in
  let m := store8 m (iph_tos iph) 0 in
  let m := store16 m (iph_tot_len iph) (htons tot_len) in
  let m := store16 m (iph_id iph) 0 in
  let m := store16 m (iph_frag_off iph) (htons IP_DF) in
  let m := store8 m (iph_ttl iph) 64 in
  let m := store8 m (iph_protocol iph) proto in
  let m := store16 m (iph_check iph) 0 in
  let m := store32 m (iph_saddr iph) src_ip in
  let m := store32 m (iph_daddr iph) dest_ip in
  Ok (iph, pk, m).

Definition udphdr_append (m : mem) (pk : packet_buf) (len dest source : Z) : outcome (Z * packet_buf * mem) :=
  '(udph, pk) ← packet_buf_reserve pk sizeof_udphdr;
  if udph =? 0 then Ok (udph, pk, m) else
  let m := store16 m (udph + udp_source) source in
  let m := store16 m (udph + udp_dest) dest in
  let m := store16 m (udph + udp_len_field) (htons len) in
  let m := store16 m (udph + udp_check) 0 in
  Ok (udph, pk, m).

(** ** UDP *)

Definition udp_recvfrom (m : mem) (sk buf len flags src_addr addrlen : Z) : outcome (Z * mem) :=
  let iph := sk_rx_buffer sk in
  let udph := sk_rx_buffer sk + sizeof_iphdr in
  let udp_len := ntohs (load16 m (udph + udp_len_field)) in
  let data_off := sizeof_iphdr + sizeof_udphdr in
  let data_len := u64 (udp_len - sizeof_udphdr) in
  nonnull! addrlen ;;
  if load32 m addrlen <? sizeof_sockaddr_in then fail m EINVAL else
  let saddr_in := src_addr in
  nonnull! saddr_in ;;
  let m := store32 m (sin_addr saddr_in) (load32 m (iph_saddr iph)) in
  let m := store16 m (sin_port saddr_in) (load16 m (udph + udp_source)) in
  let m := store32 m addrlen sizeof_sockaddr_in in
  let nr := data_len in
  let nr := if len <? nr then len else nr in
  let m := memcpy m buf (sk_rx_buffer sk + data_off) (Z.to_nat nr) in
  Ok (s64 nr, m).

Definition udp_sendto (m : mem) (sk buf len flags dest_addr addrlen : Z) : outcome (Z * mem) :=
  if negb (addrlen =? sizeof_sockaddr_in) then fail m EINVAL else
  let saddr_in := dest_addr in
  let src_ip := load32 m liblinux_host_ip in
  nonnull! saddr_in ;;
  let dest_ip := load32 m (sin_addr saddr_in) in
  let dest_arp := arp_cache_lookup m liblinux_arp_cache dest_ip in
  assert! (negb (dest_arp =? 0)) ;;
  let src_arp := liblinux_mac_addr in
  let udp_len := u16 (sizeof_udphdr + len) in
  let ip_len := u16 (sizeof_iphdr + udp_len) in
  let pk := packet_buf_init _tx_buf 4096 in
  '(_, pk, m) ← ethhdr_append m pk dest_arp src_arp ETH_P_IP;
  '(iph, pk, m) ← iphdr_append m pk ip_len IPPROTO_UDP dest_ip src_ip;
  '(udph, pk, m) ← udphdr_append m pk udp_len (load16 m (sin_port saddr_in)) (load16 m (sk_local_port sk));
  '(pk, m) ← packet_buf_append m pk buf len;
  check ← ipv4_checksum m iph sizeof_iphdr;
  let m := store16 m (iph_check iph) check in
  check ← udp_checksum m udph udp_len dest_ip src_ip;
  let m := store16 m (udph + udp_check) check in
  let '(_, m) := io_submit m frame (load64 m liblinux_eth_ioqueue) (packet_buf_start pk) (packet_buf_len pk) in
  Ok (s64 len, m).

(** ** The socket table (usr/liblinux/src/internal/socket.c) *)

Definition MAX_SOCKETS : Z := 8.
Definition SOCKET_FD_OFFSET : Z := 100.
Definition sockets_at (i : Z) : Z := sockets + sizeof_socket * i.

Definition find_socket_ops (domain type protocol : Z) : Z :=
  if negb (domain =? AF_INET) || negb (type =? SOCK_DGRAM) || negb (protocol =? 0) then 0 else udp_socket_ops.

Definition socket_alloc (m : mem) (domain type protocol : Z) : outcome (Z * mem) :=
  if MAX_SOCKETS <=? load64 m nr_sockets then fail m EMFILE else
  let ops := find_socket_ops domain type protocol in
  if ops =? 0 then fail m EINVAL else
  let sockidx := load64 m nr_sockets in
  let m := store64 m nr_sockets (sockidx + 1) in
  let sockfd := SOCKET_FD_OFFSET + sockidx in
  let sk := sockets_at sockidx in
  let m := store64 m (sk_ops sk) ops in
  let m := store16 m (sk_local_port sk) 0 in
  Ok (sockfd, m).

Definition socket_lookup_by_fd (sockfd : Z) : Z :=
  if sockfd <? SOCKET_FD_OFFSET then 0 else
  let idx := sockfd - SOCKET_FD_OFFSET in
  if MAX_SOCKETS <? idx then 0 else sockets_at idx.

Fixpoint socket_lookup_loop (m : mem) (local_port i : Z) (fuel : nat) : Z :=
  match fuel with
  | O => 0
  | S fuel =>
      let sk := sockets_at i in
      if load16 m (sk_local_port sk) =? local_port then sk
      else socket_lookup_loop m local_port (i + 1) fuel
  end.

Definition socket_lookup_by_flow (m : mem) (local_port foreign_port : Z) : Z :=
  socket_lookup_loop m local_port 0 (Z.to_nat MAX_SOCKETS).

Definition socket_input (m : mem) (sk : Z) (pk : packet_view) : mem :=
  memcpy m (sk_rx_buffer sk) (pk_start pk) (Z.to_nat (packet_view_len pk)).

Definition socket_accept (m : mem) (sk addr addrlen : Z) : outcome (Z * mem) := fail m EINVAL.

Definition socket_bind (m : mem) (sk addr addrlen : Z) : outcome (Z * mem) :=
  if negb (addrlen =? sizeof_sockaddr_in) then fail m EINVAL else
  let sa_in := addr in
  nonnull! sa_in ;;
  Ok (0, store16 m (sk_local_port sk) (load16 m (sin_port sa_in))).

Definition socket_getsockopt (m : mem) (sk level optname optval optlen : Z) : outcome (Z * mem) :=
  fail m ENOPROTOOPT.

Definition socket_listen (m : mem) (sk backlog : Z) : outcome (Z * mem) := fail m EOPNOTSUPP.

(** A call through [sk->ops]: the only operations of the program are those of UDP. *)
Definition socket_recvfrom (m : mem) (sk buf len flags src_addr addrlen : Z) : outcome (Z * mem) :=
  let ops := load64 m (sk_ops sk) in
  nonnull! ops ;;
  if ops =? udp_socket_ops then udp_recvfrom m sk buf len flags src_addr addrlen else Fault OutOfBounds.

Definition socket_sendto (m : mem) (sk buf len flags dest_addr addrlen : Z) : outcome (Z * mem) :=
  let ops := load64 m (sk_ops sk) in
  nonnull! ops ;;
  if ops =? udp_socket_ops then udp_sendto m sk buf len flags dest_addr addrlen else Fault OutOfBounds.

Definition socket_setsockopt (m : mem) (sk level optname optval optlen : Z) : outcome (Z * mem) :=
  fail m ENOPROTOOPT.

Definition socket_shutdown (m : mem) (sk how : Z) : outcome (Z * mem) := Ok (0, m).

(** ** The socket calls (usr/liblinux/src/socket.c) *)

(** [sk = socket_lookup_by_fd(sockfd); if (!sk) { errno = EBADF; return -1; }] *)
Definition with_socket (m : mem) (sockfd : Z) (k : Z -> outcome (Z * mem)) : outcome (Z * mem) :=
  let sk := socket_lookup_by_fd sockfd in
  if sk =? 0 then fail m EBADF else k sk.

Definition accept (m : mem) (sockfd addr addrlen : Z) : outcome (Z * mem) :=
  with_socket m sockfd (fun sk => socket_accept m sk addr addrlen).
Definition bind (m : mem) (sockfd addr addrlen : Z) : outcome (Z * mem) :=
  with_socket m sockfd (fun sk => socket_bind m sk addr addrlen).
Definition getsockopt (m : mem) (sockfd level optname optval optlen : Z) : outcome (Z * mem) :=
  with_socket m sockfd (fun sk => socket_getsockopt m sk level optname optval optlen).
Definition listen (m : mem) (sockfd backlog : Z) : outcome (Z * mem) :=
  with_socket m sockfd (fun sk => socket_listen m sk backlog).
Definition recvfrom (m : mem) (sockfd buf len flags src_addr addrlen : Z) : outcome (Z * mem) :=
  with_socket m sockfd (fun sk => socket_recvfrom m sk buf len flags src_addr addrlen).
Definition recv (m : mem) (sockfd buf len flags : Z) : outcome (Z * mem) :=
  recvfrom m sockfd buf len flags 0 0.
Definition sendto (m : mem) (sockfd buf len flags dest_addr addrlen : Z) : outcome (Z * mem) :=
  with_socket m sockfd (fun sk => socket_sendto m sk buf len flags dest_addr addrlen).
Definition send (m : mem) (sockfd buf len flags : Z) : outcome (Z * mem) :=
  sendto m sockfd buf len flags 0 0.
Definition setsockopt (m : mem) (sockfd level optname optval optlen : Z) : outcome (Z * mem) :=
  with_socket m sockfd (fun sk => socket_setsockopt m sk level optname optval optlen).
Definition shutdown (m : mem) (sockfd how : Z) : outcome (Z * mem) :=
  with_socket m sockfd (fun sk => socket_shutdown m sk how).
Definition socket (m : mem) (domain type protocol : Z) : outcome (Z * mem) :=
  socket_alloc m domain type protocol.

(** ** Input *)

Definition udp_input (m : mem) (pk : packet_view) : outcome (packet_view * mem) :=
  let udph := pk_start pk + sizeof_iphdr in
  let udp_len := ntohs (load16 m (udph + udp_len_field)) in
  let sk := socket_lookup_by_flow m (load16 m (udph + udp_dest)) (load16 m (udph + udp_source)) in
  assert! (negb (sk =? 0)) ;;
  let m := socket_input m sk pk in
  pk ← packet_view_trim pk (sizeof_iphdr + udp_len);
  Ok (pk, m).

Definition ip_is_fragment (frag_off : Z) : bool :=
  negb (Z.land frag_off IP_MF =? 0) || negb (Z.land frag_off IP_OFFMASK =? 0).

(** [stats.ip_datagrams_dropped++; return false;] *)
Definition drop_datagram (m : mem) (pk : packet_view) : outcome (bool * packet_view * mem) :=
  Ok (false, pk, store64 m ip_stats (load64 m ip_stats + 1)).

Definition ip_input (m : mem) (pk : packet_view) : outcome (bool * packet_view * mem) :=
  let iph := pk_start pk in
  if packet_view_len pk <? sizeof_iphdr then drop_datagram m pk else
  let ip_len := ntohs (load16 m (iph_tot_len iph)) in
  if ip_len <? sizeof_iphdr then drop_datagram m pk else
  if negb (iph_version m iph =? 4) then drop_datagram m pk else
  let ip_frag_off := ntohs (load16 m (iph_frag_off iph)) in
  if ip_is_fragment ip_frag_off then drop_datagram m pk else
  if load8 m (iph_protocol iph) =? IPPROTO_UDP then
    '(pk, m) ← udp_input m pk;
    Ok (true, pk, m)
  else drop_datagram m pk.

Definition arp_reply (m : mem) (request_arph : Z) : outcome mem :=
  let tx_buf := arp_tx_buf in
  let request_arp := request_arph + sizeof_arphdr in
  let reply_ethh := tx_buf in
  let reply_arph := tx_buf + sizeof_ethhdr in
  let reply_arp := tx_buf + sizeof_ethhdr + sizeof_arphdr in
  m ← arp_cache_insert m liblinux_arp_cache (load32 m (ar_sip request_arp)) (ar_smac request_arp);
  let m := memcpy m (h_dest reply_ethh) (ar_smac request_arp) (Z.to_nat ETH_ALEN) in
  let m := memcpy m (h_source reply_ethh) liblinux_mac_addr (Z.to_nat ETH_ALEN) in
  let m := store16 m (h_proto reply_ethh) (htons ETH_P_ARP) in
  let m := store16 m (reply_arph + ar_hrd) (htons ARPHRD_ETHER) in
  let m := store16 m (reply_arph + ar_pro) (htons ETH_P_IP) in
  let m := store8 m (reply_arph + ar_hln) ETH_ALEN in
  let m := store8 m (reply_arph + ar_pln) 4 in
  let m := store16 m (reply_arph + ar_op) (htons ARPOP_REPLY) in
  let m := memcpy m (ar_smac reply_arp) liblinux_mac_addr (Z.to_nat ETH_ALEN) in
  let m := store32 m (ar_sip reply_arp) (load32 m liblinux_host_ip) in
  let m := memcpy m (ar_dmac reply_arp) (ar_smac request_arp) (Z.to_nat ETH_ALEN) in
  let m := store32 m (ar_dip reply_arp) (load32 m (ar_sip request_arp)) in
  let '(_, m) := io_submit m frame (load64 m liblinux_eth_ioqueue) reply_ethh
                   (sizeof_ethhdr + sizeof_arphdr + sizeof_arp_ip4) in
  Ok m.

Definition arp_input (m : mem) (pk : packet_view) : outcome mem :=
  let arph := pk_start pk in
  if ntohs (load16 m (arph + ar_op)) =? ARPOP_REQUEST then arp_reply m arph else Ok m.

(** [stats.packets_dropped++], then the rest of the packet is trimmed. *)
Definition drop_packet (m : mem) (pk : packet_view) : outcome (bool * packet_view * mem) :=
  let m := store64 m net_stats (load64 m net_stats + 1) in
  pk ← packet_view_trim pk (packet_view_len pk);
  Ok (false, pk, m).

Definition net_input_one (m : mem) (pk : packet_view) : outcome (bool * packet_view * mem) :=
  let ethh := pk_start pk in
  if packet_view_len pk <? sizeof_ethhdr then drop_packet m pk else
  pk ← packet_view_trim pk sizeof_ethhdr;
  if load16 m (h_proto ethh) =? ntohs ETH_P_IP then ip_input m pk
  else if load16 m (h_proto ethh) =? ntohs ETH_P_ARP then
    m ← arp_input m pk;
    Ok (false, pk, m)
  else drop_packet m pk.

Fixpoint net_input_loop (fuel : nat) (m : mem) (pk : packet_view) (ret : bool) : outcome (bool * packet_view * mem) :=
  if negb (0 <? packet_view_len pk) then Ok (ret, pk, m) else
  match fuel with
  | O => Fault OutOfFuel
  | S fuel =>
      '(r, pk, m) ← net_input_one m pk;
      net_input_loop fuel m pk (ret || r)
  end.

(** Every iteration consumes at least a byte ([net_input_one_progress]), so the
    length of the packet bounds their number. *)
Definition net_input (m : mem) (pk : packet_view) : outcome (bool * packet_view * mem) :=
  let addr := pk_start pk in
  let len := packet_view_len pk in
  '(ret, pk, m) ← net_input_loop (Z.to_nat len) m pk false;
  let '(_, m) := io_complete m frame (load64 m liblinux_eth_ioqueue) addr len in
  Ok (ret, pk, m).

(** ** [epoll] (usr/liblinux/src/epoll.c) *)

Definition EPOLL_FD : Z := 200.
Definition EPOLLIN : Z := 0x0001.
Definition EVENT_PACKET_RX : Z := 0x01.

(** [struct epoll_event], packed; [struct event] *)
Definition ev_events (p : Z) : Z := p.
Definition sizeof_epoll_event : Z := 12.
Definition event_type (p : Z) : Z := p.
Definition event_addr (p : Z) : Z := p + 8.
Definition event_len (p : Z) : Z := p + 16.

Definition do_epoll_create (m : mem) (flags : Z) : outcome (Z * mem) :=
  if negb (flags =? 0) then fail m EINVAL else
  let n := s32 (load32 m nr_epoll_fds) in
  let m := store32 m nr_epoll_fds (n + 1) in
  if 0 <? n then fail m EMFILE else Ok (EPOLL_FD, m).

Definition epoll_create (m : mem) (size : Z) : outcome (Z * mem) :=
  if size <=? 0 then fail m EINVAL else do_epoll_create m 0.

Definition epoll_create1 (m : mem) (flags : Z) : outcome (Z * mem) := do_epoll_create m flags.

Definition epoll_ctl (m : mem) (epfd op fd event : Z) : outcome (Z * mem) :=
  if negb (epfd =? EPOLL_FD) then fail m EBADF else
  nonnull! event ;;
  Ok (0, memcpy m interest_set event (Z.to_nat sizeof_epoll_event)).

Section Epoll.
(** The system calls: the error code (and the address of the event queue) and
    the memory the kernel leaves. *)
Context (wait : mem -> Z * mem) (getevents : mem -> Z * Z * mem).

(** One event of the queue: the number of epoll events reported so far. *)
Definition epoll_one (m : mem) (queue events nr_events : Z) : outcome (Z * mem) :=
  let kern_event := atomic_ring_buffer_front m queue in
  nonnull! kern_event ;;
  '(nr_events, m) ←
    (if load64 m (event_type kern_event) =? EVENT_PACKET_RX then
       let addr := load64 m (event_addr kern_event) in
       let pk := PacketView addr (addr + load64 m (event_len kern_event)) in
       '(ready, _, m) ← net_input m pk;
       if (ready : bool) then
         let ep_event := events + sizeof_epoll_event * nr_events in
         let m := memcpy m ep_event interest_set (Z.to_nat sizeof_epoll_event) in
         let m := store32 m (ev_events ep_event) EPOLLIN in
         Ok (nr_events + 1, m)
       else Ok (nr_events, m)
     else Ok (nr_events, m));
  Ok (nr_events, atomic_ring_buffer_pop m queue).

Fixpoint epoll_loop (fuel : nat) (m : mem) (queue events maxevents nr_events : Z) : outcome (Z * mem) :=
  if negb (negb (atomic_ring_buffer_is_empty m queue) && (nr_events <? maxevents)) then Ok (nr_events, m) else
  match fuel with
  | O => Fault OutOfFuel
  | S fuel =>
      '(nr_events, m) ← epoll_one m queue events nr_events;
      epoll_loop fuel m queue events maxevents nr_events
  end.

(** The number of elements in the queue bounds the iterations; [fuel] is any
    number that is not smaller. *)
Definition epoll_wait (fuel : nat) (m : mem) (epfd events maxevents timeout : Z) : outcome (Z * mem) :=
  if negb (epfd =? EPOLL_FD) then fail m EBADF else
  if maxevents <=? 0 then fail m EINVAL else
  let '(err, m) := wait m in
  if negb (err =? 0) then fail m (- err) else
  let '(err, queue, m) := getevents m in
  if negb (err =? 0) then fail m (- err) else
  epoll_loop fuel m queue events maxevents 0.
End Epoll.

(** ** The echo server (usr/echod/echod.c) *)

Definition MSG_DONTWAIT : Z := 0x40.
Definition sizeof_sockaddr_storage : Z := 20.
Definition maxbuf : Z := 65535.

(** [buf], [addr] and [addrlen] are the addresses of the local variables;
    [die] aborts. *)
Definition echo (m : mem) (buf addr addrlen sockfd : Z) : outcome mem :=
  let m := memset m addr 0 (Z.to_nat sizeof_sockaddr_storage) in
  let m := store32 m addrlen sizeof_sockaddr_storage in
  '(nr, m) ← recvfrom m sockfd buf maxbuf MSG_DONTWAIT addr addrlen;
  if nr <? 0 then Fault Panic else
  '(sent, m) ← sendto m sockfd buf nr MSG_DONTWAIT addr (load32 m addrlen);
  if negb (sent =? nr) then Fault Panic else Ok m.
End Stack.
