(* ===== verification/NetProof.v ===== *)
(** * Lemmas on the network stack

    Frames as byte strings: the header functions of ip.c write the strings
    [eth_header], [ip_header] and [udp_header]; the checksums depend on the
    bytes they cover; an I/O command reaches the queue. *)

From S2P Require Import Prelude Mem RingBuffer Inet ArpCache Net.

(** ** Wire formats *)

Definition be16 (x : Z) : list Z := [u8 (x / 2 ^ 8); u8 x].

Definition eth_header (dest source : list Z) (proto : Z) : list Z := dest ++ source ++ be16 proto.

Definition ip_header (tot_len proto check saddr daddr : Z) : list Z :=
  [0x45; 0] ++ be16 tot_len ++ [0; 0] ++ be16 IP_DF ++ [64; u8 proto] ++
  le_split 2 check ++ le_split 4 saddr ++ le_split 4 daddr.

(** Ports and addresses are kept in network order, that is as the bytes of the wire. *)
Definition udp_header (source dest len check : Z) : list Z :=
  le_split 2 source ++ le_split 2 dest ++ be16 len ++ le_split 2 check.

Lemma le_split_htons x : le_split 2 (htons x) = be16 x.
Proof.
  unfold htons, bswap16, be16. cbn [le_split]. rewrite u8_digit, div_digit by apply u8_range.
  f_equal. f_equal. apply u8_small, u8_range.
Qed.

Lemma store16_htons m a x : store16 m a (htons x) = store_bytes m a (be16 x).
Proof. unfold store16. by rewrite store_split, le_split_htons. Qed.

Lemma store8_bytes m a v : store8 m a v = store_bytes m a [v].
Proof. done. Qed.

Lemma store8_u8 m a v : store8 m a (u8 v) = store8 m a v.
Proof. unfold store8. by rewrite (u8_small (u8 v)) by apply u8_range. Qed.

(** ** Appending headers *)

#[local] Set Default Proof Using "All".

Lemma reserve_ok pk size :
  0 <= pb_len pk -> 0 <= size -> pb_len pk + size < pb_capacity pk -> pb_capacity pk <= 4096 ->
  packet_buf_reserve pk size =
    Ok (pb_buf pk + pb_len pk, PacketBuf (pb_buf pk) (pb_len pk + size) (pb_capacity pk)).
Proof.
  intros. unfold packet_buf_reserve. rewrite !u64_small by lia.
  by rewrite (proj2 (Z.ltb_lt _ _)) by done.
Qed.

Lemma ethhdr_append_ok m pk dest source proto :
  let p := pb_buf pk + pb_len pk in
  0 < pb_buf pk -> 0 <= pb_len pk -> pb_len pk + 14 < pb_capacity pk -> pb_capacity pk <= 4096 ->
  p + 14 <= dest \/ dest + 6 <= p -> p + 14 <= source \/ source + 6 <= p ->
  ethhdr_append m pk dest source proto =
    Ok (p, PacketBuf (pb_buf pk) (pb_len pk + 14) (pb_capacity pk),
        store_bytes m p (eth_header (load_bytes m dest 6) (load_bytes m source 6) proto)).
Proof.
  intros p Hb Hl Hc Hcap Hd Hs. unfold ethhdr_append.
  rewrite reserve_ok by (unfold sizeof_ethhdr; lia). cbn [mbind outcome_bind]. fold p.
  destruct (Z.eqb_spec p 0); [lia|]. unfold h_dest, h_source, h_proto, sizeof_ethhdr, eth_header.
  change (Z.to_nat ETH_ALEN) with 6%nat. rewrite store16_htons.
  rewrite (memcpy_store_bytes _ (p + 6)), (memcpy_store_bytes m) by lia.
  rewrite (load_bytes_store_bytes_disjoint _ _ _ source) by (rewrite length_load_bytes; lia).
  rewrite !store_bytes_app, !length_load_bytes. change (Z.of_nat 6) with 6. do 3 f_equal. lia.
Qed.

Lemma nibbles m p : set_ihl (set_version m p 4) p 5 = store_bytes m p [0x45].
Proof.
  unfold set_ihl, set_version. rewrite load8_store8_eq. unfold store8 at 1 2. rewrite insert_insert_eq.
  cbn [store_bytes]. unfold store8. f_equal.
  pose proof (load8_range m p) as Hr. set (b := load8 m p) in *.
  assert (forallb (fun b => u8 (Z.lor (Z.land (u8 (Z.lor (Z.land b 0x0f) (Z.shiftl 4 4))) 0xf0) 5) =? u8 0x45)
    (seqZ 0 256) = true) as Hall by (vm_compute; reflexivity).
  apply Z.eqb_eq. apply (proj1 (forallb_forall _ _) Hall b). apply list_elem_of_In, elem_of_seqZ. lia.
Qed.

Lemma iphdr_append_ok m pk tot_len proto dest_ip src_ip :
  let p := pb_buf pk + pb_len pk in
  0 < pb_buf pk -> 0 <= pb_len pk -> pb_len pk + 20 < pb_capacity pk -> pb_capacity pk <= 4096 ->
  iphdr_append m pk tot_len proto dest_ip src_ip =
    Ok (p, PacketBuf (pb_buf pk) (pb_len pk + 20) (pb_capacity pk),
        store_bytes m p (ip_header tot_len proto 0 src_ip dest_ip)).
Proof.
  intros p Hb Hl Hc Hcap. unfold iphdr_append.
  rewrite reserve_ok by (unfold sizeof_iphdr; lia). cbn [mbind outcome_bind]. fold p.
  destruct (Z.eqb_spec p 0); [lia|]. unfold sizeof_iphdr, ip_header.
  rewrite nibbles, !store16_htons. unfold store16, store32. rewrite !store_split, <- (store8_u8 _ (iph_protocol p)), !store8_bytes.
  unfold iph_tos, iph_tot_len, iph_id, iph_frag_off, iph_ttl, iph_protocol, iph_check, iph_saddr, iph_daddr.
  do 2 f_equal. cbn [be16 le_split app store_bytes]. repeat (f_equal; try lia).
Qed.

Lemma udphdr_append_ok m pk len dest source :
  let p := pb_buf pk + pb_len pk in
  0 < pb_buf pk -> 0 <= pb_len pk -> pb_len pk + 8 < pb_capacity pk -> pb_capacity pk <= 4096 ->
  @udphdr_append rfc_headers m pk len dest source =
    Ok (p, PacketBuf (pb_buf pk) (pb_len pk + 8) (pb_capacity pk),
        store_bytes m p (udp_header source dest len 0)).
Proof.
  intros p Hb Hl Hc Hcap. unfold udphdr_append. cbn [rfc_headers sizeof_udphdr udp_source udp_dest udp_len_field udp_check].
  rewrite reserve_ok by lia. cbn [mbind outcome_bind]. fold p.
  destruct (Z.eqb_spec p 0); [lia|]. unfold udp_header.
  rewrite !store16_htons. unfold store16. rewrite !store_split.
  do 2 f_equal. cbn [be16 le_split app store_bytes]. repeat (f_equal; try lia).
Qed.

Lemma packet_buf_append_ok m pk buf len :
  let p := pb_buf pk + pb_len pk in
  0 <= pb_len pk -> 0 <= len -> pb_len pk + len < pb_capacity pk -> pb_capacity pk <= 4096 ->
  p + len <= buf \/ buf + len <= p ->
  packet_buf_append m pk buf len =
    Ok (PacketBuf (pb_buf pk) (pb_len pk + len) (pb_capacity pk),
        store_bytes m p (load_bytes m buf (Z.to_nat len))).
Proof.
  intros p Hl Hn Hc Hcap Hd. unfold packet_buf_append.
  rewrite reserve_ok by lia. cbn [mbind outcome_bind]. fold p. by rewrite memcpy_store_bytes by lia.
Qed.

Lemma length_be16 x : length (be16 x) = 2%nat.
Proof. done. Qed.
Lemma length_ip_header t p c s d : length (ip_header t p c s d) = 20%nat.
Proof. done. Qed.
Lemma length_udp_header s d l c : length (udp_header s d l c) = 8%nat.
Proof. done. Qed.
Lemma length_eth_header d s p : length d = 6%nat -> length s = 6%nat -> length (eth_header d s p) = 14%nat.
Proof. intros Hd Hs. unfold eth_header. by rewrite !length_app, Hd, Hs. Qed.

Lemma be16_bytes x : Forall is_byte (be16 x).
Proof. repeat constructor; apply u8_range. Qed.
Lemma ip_header_bytes t p c s d : Forall is_byte (ip_header t p c s d).
Proof. unfold ip_header. repeat (apply Forall_app_2 || apply Forall_cons_2 || apply be16_bytes || apply le_split_bytes || apply u8_range || apply Forall_nil_2); unfold is_byte; lia. Qed.
Lemma udp_header_bytes s d l c : Forall is_byte (udp_header s d l c).
Proof. unfold udp_header. repeat apply Forall_app_2; apply le_split_bytes || apply be16_bytes. Qed.
Lemma eth_header_bytes d s p : Forall is_byte d -> Forall is_byte s -> Forall is_byte (eth_header d s p).
Proof. intros. unfold eth_header. repeat apply Forall_app_2; auto using be16_bytes. Qed.

(** ** The checksums depend on the bytes they cover *)

Lemma checksum_words_ext m m' n : forall p sum,
  (forall x, p <= x < p + 4 * Z.of_nat n -> load8 m' x = load8 m x) ->
  checksum_words m' p n sum = checksum_words m p n sum.
Proof.
  induction n as [|n IH]; intros p sum Hx; cbn [checksum_words]; [done|].
  unfold load32. rewrite (load_ext 4 m m') by (intros; apply Hx; lia). apply IH. intros. apply Hx. lia.
Qed.

Lemma checksum_add_ext m m' sum p count :
  0 <= count -> (forall x, p <= x < p + count -> load8 m' x = load8 m x) ->
  checksum_add m' sum p count = checksum_add m sum p count.
Proof.
  intros Hc Hx. unfold checksum_add.
  pose proof (Z.div_mod count 4 ltac:(done)). pose proof (Z.mod_pos_bound count 4 ltac:(done)).
  assert (0 <= count / 4) by (apply Z.div_pos; lia).
  rewrite (checksum_words_ext m m') by (intros; apply Hx; lia).
  set (w := count / 4) in *. set (s := checksum_words _ _ _ _).
  destruct (Z.leb_spec 2 (count - 4 * w)).
  - unfold load16. rewrite (load_ext 2 m m') by (intros; apply Hx; lia).
    destruct (Z.eqb_spec (count - 4 * w - 2) 0); cbn [negb]; [done|].
    by rewrite Hx by lia.
  - destruct (Z.eqb_spec (count - 4 * w) 0); cbn [negb]; [done|]. by rewrite Hx by lia.
Qed.

Lemma ipv4_checksum_ext m m' p len :
  0 <= len -> (forall x, p <= x < p + len -> load8 m' x = load8 m x) ->
  ipv4_checksum m' p len = ipv4_checksum m p len.
Proof. intros. unfold ipv4_checksum. by rewrite (checksum_add_ext m m'). Qed.

Lemma udp_checksum_ext m m' p len d s :
  0 <= len -> (forall x, p <= x < p + len -> load8 m' x = load8 m x) ->
  udp_checksum m' p len d s = udp_checksum m p len d s.
Proof. intros. unfold udp_checksum. by rewrite (checksum_add_ext m m'). Qed.

(** ** I/O commands *)

(** An element of an I/O queue: its four bytes of padding are arbitrary. *)
Definition is_io_cmd (x : list Z) (opcode addr len : Z) : Prop :=
  exists pad, length pad = 4%nat /\ x = le_split 4 opcode ++ pad ++ le_split 8 addr ++ le_split 8 len.

Lemma store_io_cmd_is m p opcode addr len :
  is_io_cmd (load_bytes (store_io_cmd m p opcode addr len) p 24) opcode addr len.
Proof.
  exists (load_bytes m (p + 4) 4). split; [apply length_load_bytes|].
  unfold store_io_cmd, store64, store32. rewrite !store_split.
  set (l := le_split 4 opcode). set (la := le_split 8 addr). set (ln := le_split 8 len).
  assert (length l = 4%nat /\ length la = 8%nat /\ length ln = 8%nat) as (H1 & H2 & H3) by done.
  assert (Forall is_byte l /\ Forall is_byte la /\ Forall is_byte ln) as (B1 & B2 & B3)
    by (split_and!; apply le_split_bytes).
  change 24%nat with (4 + (4 + (8 + 8)))%nat. rewrite !load_bytes_app.
  replace (p + Z.of_nat 4 + Z.of_nat 4 + Z.of_nat 8) with (p + 16) by lia.
  replace (p + Z.of_nat 4 + Z.of_nat 4) with (p + 8) by lia. change (p + Z.of_nat 4) with (p + 4).
  f_equal; [|f_equal; [|f_equal]].
  - rewrite !load_bytes_store_bytes_disjoint by lia. rewrite <- H1. by apply load_bytes_store_bytes.
  - by rewrite !load_bytes_store_bytes_disjoint by lia.
  - rewrite load_bytes_store_bytes_disjoint by lia. rewrite <- H2 at 1. by apply load_bytes_store_bytes.
  - rewrite <- H3 at 1. by apply load_bytes_store_bytes.
Qed.

Section Queue.
Context (q n : Z) (Hq : 0 < q) (Hn : 0 < n) (Hfit : rb_data q + sizeof_io_cmd * n <= 2 ^ 64).

(** The addresses of a queue of [n] commands. *)
Definition queue_size : Z := 192 + 24 * n.

Lemma fifo_rep_ext m m' xs :
  fifo_rep q 24 n m xs -> (forall x, q <= x < q + queue_size -> load8 m' x = load8 m x) -> fifo_rep q 24 n m' xs.
Proof.
  intros (t & h & R) Hx. exists t, h. unfold queue_size in Hx.
  unfold rb_data, ATOMIC_RING_BUFFER_ALIGN, sizeof_io_cmd in *.
  apply (ring_frame q 24 n ltac:(done) Hn Hq ltac:(unfold rb_data, ATOMIC_RING_BUFFER_ALIGN; lia) m m' t h xs R).
  - unfold rb_data, ATOMIC_RING_BUFFER_ALIGN. intros a Ha. apply Hx. lia.
  - intros i a _ Ha. apply Hx. pose proof (Z.mod_pos_bound (t + Z.of_nat i) n Hn).
    unfold slot, rb_data, ATOMIC_RING_BUFFER_ALIGN in *. lia.
Qed.

Lemma queue_emplace_changes m xs element :
  fifo_rep q 24 n m xs ->
  changes (fun x => q <= x < q + queue_size) m (snd (atomic_ring_buffer_emplace m q element)).
Proof.
  intros (t & h & R). apply (changes_mono (fun x => q <= x < rb_data q + 24 * n)); [|by apply (emplace_changes q 24 n m t h xs)].
  intros x. unfold queue_size, rb_data, ATOMIC_RING_BUFFER_ALIGN. lia.
Qed.

Lemma io_append_spec m xs frame opcode addr len :
  fifo_rep q 24 n m xs -> Z.of_nat (length xs) < n - 1 ->
  frame + 24 <= q \/ q + queue_size <= frame ->
  let m' := snd (io_queue_append m frame q opcode addr len) in
  (exists x, fifo_rep q 24 n m' (xs ++ [x]) /\ is_io_cmd x opcode addr len) /\
  changes (fun x => frame <= x < frame + 24 \/ q <= x < q + queue_size) m m'.
Proof.
  intros HR Hroom Hd. unfold io_queue_append. set (m1 := store_io_cmd m frame opcode addr len).
  assert (forall x, x < frame \/ frame + 24 <= x -> load8 m1 x = load8 m x) as Hm1.
  { intros x Hx. unfold m1, store_io_cmd, store64, store32. by rewrite !load8_store_out by lia. }
  assert (fifo_rep q 24 n m1 xs) as HR1 by (apply (fifo_rep_ext m); [done|]; intros; apply Hm1; lia).
  pose proof (queue_emplace_changes m1 xs frame HR1) as Hch. destruct HR1 as (t & h & R1).
  assert (element_disjoint q 24 n frame) as Hed
    by (unfold element_disjoint, queue_size, rb_data, ATOMIC_RING_BUFFER_ALIGN in *; lia).
  pose proof (emplace_spec q 24 n ltac:(done) Hn Hq Hfit m1 t h xs frame R1 Hed) as E.
  cbv zeta in E. destruct (atomic_ring_buffer_emplace m1 q frame) as [ok m']. cbn [snd] in *.
  destruct E as (_ & h' & E). unfold FifoSpec.emplace in E. rewrite decide_True in E by lia. cbn [snd] in E.
  split.
  - eexists. split; [exists t, h'; exact E|]. apply store_io_cmd_is.
  - intros x Hx. rewrite Hch by lia. apply Hm1. lia.
Qed.
End Queue.
