(* ===== verification/NetSend.v ===== *)
(** * Sending a datagram

    [udp_sendto] of usr/liblinux/src/internal/ip.c: the frame it builds and the
    command it queues. *)

From S2P Require Import Prelude Mem RingBuffer Inet ArpCache Net NetProof.

(** An Ethernet frame with a UDP datagram in an IPv4 packet. *)
Definition udp_frame (dmac smac : list Z) (saddr daddr sport dport : Z) (payload : list Z) (ip_ck udp_ck : Z) : list Z :=
  let len := Z.of_nat (length payload) in
  eth_header dmac smac ETH_P_IP ++ ip_header (28 + len) IPPROTO_UDP ip_ck saddr daddr ++
  udp_header sport dport (8 + len) udp_ck ++ payload.

#[local] Set Default Proof Using "All".

Section Send.
Context {G : NetGlobals}.
#[local] Existing Instance rfc_headers.

(** The queue, the destination address, the payload and the socket are separate
    from each other and from the static variables. *)
Context (q n dest_addr buf len i : Z).
Context (Hq : 0 < q) (Hn : 0 < n) (Hfit : rb_data q + sizeof_io_cmd * n <= 2 ^ 64).
Context (Htx : 0 < _tx_buf) (Hcache : 0 < liblinux_arp_cache) (Hdest : 0 < dest_addr).
Context (Hi : 0 <= i < MAX_SOCKETS) (Hlen : 0 <= len) (Hmax : 42 + len < 4096).

Definition send_objects : list (Z * Z) :=
  [(_tx_buf, 4096); (frame, 24); (q, queue_size n); (liblinux_arp_cache, sizeof_arp_cache);
   (liblinux_mac_addr, 6); (liblinux_host_ip, 4); (liblinux_eth_ioqueue, 8);
   (sockets, sizeof_socket * MAX_SOCKETS); (dest_addr, sizeof_sockaddr_in); (buf, len)].

Context (Hsep : separate send_objects = true).

(** What [udp_sendto] writes. *)
Definition send_area (x : Z) : Prop :=
  _tx_buf <= x < _tx_buf + 4096 \/ frame <= x < frame + 24 \/ q <= x < q + queue_size n.

(** Building the frame, with both checksum fields zero. *)
Lemma frame_built m dmac dip sip {A} (k : Z -> Z -> packet_buf -> mem -> outcome A) :
  dmac + 6 <= _tx_buf \/ _tx_buf + 4096 <= dmac ->
  let sk := sockets_at i in
  let frame0 := udp_frame (load_bytes m dmac 6) (load_bytes m liblinux_mac_addr 6)
    sip dip (load16 m (sk_local_port sk)) (load16 m (sin_port dest_addr))
    (load_bytes m buf (Z.to_nat len)) 0 0 in
  ('(_, pk, m) ← ethhdr_append m (packet_buf_init _tx_buf 4096) dmac liblinux_mac_addr ETH_P_IP;
   '(iph, pk, m) ← iphdr_append m pk (28 + len) IPPROTO_UDP dip sip;
   '(udph, pk, m) ← udphdr_append m pk (8 + len) (load16 m (sin_port dest_addr)) (load16 m (sk_local_port sk));
   '(pk, m) ← packet_buf_append m pk buf len;
   k iph udph pk m) =
  k (_tx_buf + 14) (_tx_buf + 34) (PacketBuf _tx_buf (42 + len) 4096) (store_bytes m _tx_buf frame0).
Proof.
  intros Hd sk frame0. apart Hsep 0%nat 4%nat. apart Hsep 0%nat 7%nat. apart Hsep 0%nat 8%nat. apart Hsep 0%nat 9%nat.
  unfold sizeof_sockaddr_in, sizeof_socket, MAX_SOCKETS in *.
  unfold packet_buf_init. rewrite ethhdr_append_ok by (cbn [pb_buf pb_len pb_capacity]; lia).
  cbn [mbind outcome_bind pb_buf pb_len pb_capacity]. rewrite iphdr_append_ok by (cbn [pb_buf pb_len pb_capacity]; lia).
  cbn [mbind outcome_bind pb_buf pb_len pb_capacity].
  set (eth := eth_header _ _ _). set (ip := ip_header _ _ _ _ _).
  assert (length eth = 14%nat) as Leth by (apply length_eth_header; apply length_load_bytes).
  assert (length ip = 20%nat) as Lip by done.
  rewrite Z.add_0_r. replace (_tx_buf + (0 + 14)) with (_tx_buf + Z.of_nat (length eth)) by lia.
  rewrite <- store_bytes_app. set (m2 := store_bytes m _tx_buf (eth ++ ip)).
  assert (forall x, x < _tx_buf \/ _tx_buf + 4096 <= x -> load8 m2 x = load8 m x) as Hm2.
  { intros x Hx. apply load8_store_bytes_out. rewrite length_app, Leth, Lip. lia. }
  assert (load16 m2 (sin_port dest_addr) = load16 m (sin_port dest_addr)) as ->.
  { apply load_ext. unfold sin_port. intros x Hx. apply Hm2. lia. }
  assert (load16 m2 (sk_local_port sk) = load16 m (sk_local_port sk)) as ->.
  { apply load_ext. unfold sk, sockets_at, sk_local_port, sizeof_socket. intros x Hx. apply Hm2. lia. }
  rewrite udphdr_append_ok by (cbn [pb_buf pb_len pb_capacity]; lia).
  cbn [mbind outcome_bind pb_buf pb_len pb_capacity]. set (udp := udp_header _ _ _ _).
  assert (length udp = 8%nat) as Ludp by done.
  rewrite packet_buf_append_ok by (cbn [pb_buf pb_len pb_capacity]; lia).
  cbn [mbind outcome_bind pb_buf pb_len pb_capacity].
  unfold m2. replace (_tx_buf + (0 + 14 + 20)) with (_tx_buf + Z.of_nat (length (eth ++ ip))) by (rewrite length_app; lia).
  rewrite <- store_bytes_app.
  replace (_tx_buf + (0 + 14 + 20 + 8)) with (_tx_buf + Z.of_nat (length ((eth ++ ip) ++ udp))) by (rewrite !length_app; lia).
  rewrite load_bytes_store_bytes_disjoint, <- store_bytes_app by (rewrite !length_app; lia).
  replace (_tx_buf + Z.of_nat (length eth)) with (_tx_buf + 14) by lia.
  replace (_tx_buf + Z.of_nat (length (eth ++ ip))) with (_tx_buf + 34) by (rewrite length_app; lia).
  replace (0 + 14 + 20 + 8 + len) with (42 + len) by lia. f_equal.
  unfold frame0, udp_frame. rewrite length_load_bytes, Z2Nat.id by lia. by rewrite <- !app_assoc.
Qed.

(** Filling in the checksums. *)
Lemma frame_checksummed m dmac smac sip dip sport dport payload :
  length dmac = 6%nat -> length smac = 6%nat -> is_u32 sip -> is_u32 dip -> Z.of_nat (length payload) = len ->
  let F := udp_frame dmac smac sip dip sport dport payload in
  load_bytes m _tx_buf (Z.to_nat (42 + len)) = F 0 0 ->
  exists c1 c2, ipv4_checksum m (_tx_buf + 14) 20 = Ok c1 /\
    let m1 := store16 m (iph_check (_tx_buf + 14)) c1 in
    udp_checksum m1 (_tx_buf + 34) (8 + len) dip sip = Ok c2 /\
    let m2 := store16 m1 (_tx_buf + 34 + 6) c2 in
    load_bytes m2 _tx_buf (Z.to_nat (42 + len)) = F c1 c2 /\
    ipv4_checksum m2 (_tx_buf + 14) 20 = Ok 0 /\ udp_checksum m2 (_tx_buf + 34) (8 + len) dip sip = Ok 0.
Proof.
  intros Ld Ls Hsip Hdip Lp F HF. unfold iph_check.
  set (eth := eth_header dmac smac ETH_P_IP).
  assert (length eth = 14%nat) as Leth by (by apply length_eth_header).
  set (pre1 := eth ++ [0x45; 0] ++ be16 (28 + len) ++ [0; 0] ++ be16 IP_DF ++ [64; u8 IPPROTO_UDP]).
  set (pre2 := fun c1 => eth ++ ip_header (28 + len) IPPROTO_UDP c1 sip dip ++
    le_split 2 sport ++ le_split 2 dport ++ be16 (8 + len)).
  assert (length pre1 = 24%nat) as L1 by (unfold pre1; rewrite length_app, Leth; done).
  assert (forall c1, length (pre2 c1) = 40%nat) as L2 by (intros; unfold pre2; rewrite length_app, Leth; done).
  assert (forall c1 c2, F c1 c2 = pre1 ++ le_split 2 c1 ++
    (le_split 4 sip ++ le_split 4 dip ++ udp_header sport dport (8 + len) c2 ++ payload)) as F1.
  { intros. unfold F, udp_frame, pre1, ip_header, eth. rewrite Lp. by rewrite <- !app_assoc. }
  assert (forall c1 c2, F c1 c2 = pre2 c1 ++ le_split 2 c2 ++ payload) as F2.
  { intros. unfold F, udp_frame, pre2, udp_header, eth. rewrite Lp. by rewrite <- !app_assoc. }
  assert (load16 m (_tx_buf + 14 + 2 * Z.of_nat 5) = 0) as Hz1.
  { pose proof HF as HF'. rewrite F1 in HF'. apply load_bytes_part in HF'. rewrite L1 in HF'.
    unfold load16. rewrite load_join. replace (_tx_buf + 14 + 2 * Z.of_nat 5) with (_tx_buf + Z.of_nat 24) by lia.
    rewrite length_le_split in HF'. by rewrite HF'. }
  assert (load8 m (_tx_buf + 14 + Z.of_nat 0) <> 0) as H45.
  { pose proof HF as HF'. unfold F, udp_frame in HF'. fold eth in HF'. unfold ip_header in HF'.
    rewrite <- !app_assoc in HF'. apply load_bytes_part in HF'. rewrite Leth in HF'.
    change (length [69; 0]) with 2%nat in HF'. cbn [load_bytes] in HF'. change (Z.of_nat 14) with 14 in HF'.
    rewrite Z.add_0_r. injection HF' as -> _. done. }
  destruct (ipv4_checksum_stored m (_tx_buf + 14) 20 5 ltac:(lia) ltac:(lia) Hz1) as (c1 & E1 & R1 & V1).
  { apply oc_sum_pos. exists 0%nat. split; [vm_compute; lia|done]. }
  replace (_tx_buf + 14 + 2 * Z.of_nat 5) with (_tx_buf + 14 + 10) in V1 by lia.
  set (m1 := store16 m (_tx_buf + 14 + 10) c1) in *.
  assert (load_bytes m1 _tx_buf (Z.to_nat (42 + len)) = F c1 0) as HF1.
  { rewrite F1 in HF. rewrite F1. unfold m1, store16. rewrite store_split.
    replace (_tx_buf + 14 + 10) with (_tx_buf + Z.of_nat (length pre1)) by (rewrite L1; lia).
    eapply load_bytes_patch; [exact HF|done|apply le_split_bytes]. }
  assert (load16 m1 (_tx_buf + 34 + 2 * Z.of_nat 3) = 0) as Hz2.
  { pose proof HF1 as HF'. rewrite F2 in HF'. apply load_bytes_part in HF'. rewrite L2, length_le_split in HF'.
    unfold load16. rewrite load_join. replace (_tx_buf + 34 + 2 * Z.of_nat 3) with (_tx_buf + Z.of_nat 40) by lia.
    by rewrite HF'. }
  destruct (udp_checksum_stored m1 (_tx_buf + 34) (8 + len) dip sip 3) as (c2 & E2 & R2 & V2); [lia|done|done|lia|done|].
  replace (_tx_buf + 34 + 2 * Z.of_nat 3) with (_tx_buf + 34 + 6) in V2 by lia.
  exists c1, c2. split; [done|]. cbv zeta. fold m1. split; [done|]. split_and!; [|..|done].
  - rewrite F2 in HF1. rewrite F2. unfold store16. rewrite store_split.
    replace (_tx_buf + 34 + 6) with (_tx_buf + Z.of_nat (length (pre2 c1))) by (rewrite L2; lia).
    eapply load_bytes_patch; [exact HF1|done|apply le_split_bytes].
  - rewrite <- V1. apply ipv4_checksum_ext; [lia|]. intros x Hx. apply load8_store_out. lia.
Qed.
(** The frame of a datagram from socket [i] to [dest_addr]. *)
Definition sent_frame (m : mem) (mac : list Z) (c1 c2 : Z) : list Z :=
  udp_frame mac (load_bytes m liblinux_mac_addr 6) (load32 m liblinux_host_ip) (load32 m (sin_addr dest_addr))
    (load16 m (sk_local_port (sockets_at i))) (load16 m (sin_port dest_addr))
    (load_bytes m buf (Z.to_nat len)) c1 c2.

(** The frame is built, the checksums are filled in and the command is queued. *)
Lemma udp_sendto_steps m dmac flags :
  arp_cache_lookup m liblinux_arp_cache (load32 m (sin_addr dest_addr)) = dmac -> dmac <> 0 ->
  dmac + 6 <= _tx_buf \/ _tx_buf + 4096 <= dmac ->
  udp_sendto m (sockets_at i) buf len flags dest_addr sizeof_sockaddr_in =
    let dip := load32 m (sin_addr dest_addr) in
    let sip := load32 m liblinux_host_ip in
    let m := store_bytes m _tx_buf (sent_frame m (load_bytes m dmac 6) 0 0) in
    check ← ipv4_checksum m (_tx_buf + 14) 20;
    let m := store16 m (iph_check (_tx_buf + 14)) check in
    check ← udp_checksum m (_tx_buf + 34) (8 + len) dip sip;
    let m := store16 m (_tx_buf + 34 + 6) check in
    Ok (len, snd (io_submit m frame (load64 m liblinux_eth_ioqueue) _tx_buf (42 + len))).
Proof.
  intros El Hnz Hd. unfold udp_sendto, sent_frame. rewrite El, Z.eqb_refl. cbn [negb]. cbv zeta.
  destruct (Z.eqb_spec dest_addr 0); [lia|]. destruct (Z.eqb_spec dmac 0); [lia|]. cbn [negb].
  change (@sizeof_udphdr rfc_headers) with 8. change (@udp_check rfc_headers) with 6.
  rewrite (u16_small (8 + len)) by lia. rewrite (u16_small (sizeof_iphdr + _)) by (unfold sizeof_iphdr; lia).
  replace (sizeof_iphdr + (8 + len)) with (28 + len) by (unfold sizeof_iphdr; lia).
  rewrite frame_built by lia. change sizeof_iphdr with 20.
  generalize (store_bytes m _tx_buf (udp_frame (load_bytes m dmac 6) (load_bytes m liblinux_mac_addr 6)
    (load32 m liblinux_host_ip) (load32 m (sin_addr dest_addr)) (load16 m (sk_local_port (sockets_at i)))
    (load16 m (sin_port dest_addr)) (load_bytes m buf (Z.to_nat len)) 0 0)). intros m4.
  destruct (ipv4_checksum m4 (_tx_buf + 14) 20) as [c1|]; [rewrite !Ok_bind|by rewrite !Fault_bind].
  destruct (udp_checksum _ (_tx_buf + 34) (8 + len) _ _) as [c2|]; [rewrite !Ok_bind|by rewrite !Fault_bind].
  unfold packet_buf_start, packet_buf_len. cbn [pb_buf pb_len].
  destruct (io_submit _ _ _ _ _) as [r m7]. cbn [snd]. do 2 f_equal.
  unfold s64. rewrite u64_small by lia. by destruct (Z.ltb_spec len (2 ^ 63)); [|lia].
Qed.
Lemma length_sent_frame m mac c1 c2 : length mac = 6%nat -> Z.of_nat (length (sent_frame m mac c1 c2)) = 42 + len.
Proof.
  intros Lm. unfold sent_frame, udp_frame. rewrite !length_app, (length_eth_header _ _ _ Lm (length_load_bytes _ _ _)).
  rewrite length_load_bytes, length_ip_header, length_udp_header. lia.
Qed.

Lemma sent_frame_bytes m mac c1 c2 : Forall is_byte mac -> Forall is_byte (sent_frame m mac c1 c2).
Proof.
  intros Bm. unfold sent_frame, udp_frame. apply Forall_app_2; [apply eth_header_bytes; [done|apply load_bytes_bytes]|].
  apply Forall_app_2; [apply ip_header_bytes|]. apply Forall_app_2; [apply udp_header_bytes|apply load_bytes_bytes].
Qed.

Lemma udp_sendto_spec m M mac xs flags :
  holds liblinux_arp_cache m M -> load32 m (sin_addr dest_addr) <> 0 ->
  M !! load32 m (sin_addr dest_addr) = Some mac ->
  load64 m liblinux_eth_ioqueue = q -> fifo_rep q 24 n m xs -> Z.of_nat (length xs) < n - 1 ->
  exists m' c1 c2 x,
    udp_sendto m (sockets_at i) buf len flags dest_addr sizeof_sockaddr_in = Ok (len, m') /\
    load_bytes m' _tx_buf (Z.to_nat (42 + len)) = sent_frame m mac c1 c2 /\
    ipv4_checksum m' (_tx_buf + 14) 20 = Ok 0 /\
    udp_checksum m' (_tx_buf + 34) (8 + len) (load32 m (sin_addr dest_addr)) (load32 m liblinux_host_ip) = Ok 0 /\
    fifo_rep q 24 n m' (xs ++ [x]) /\ is_io_cmd x IO_OPCODE_SUBMIT _tx_buf (42 + len) /\
    changes send_area m m'.
Proof.
  intros HM Hnz Hmac Eq HR Hroom.
  pose proof (lookup_spec liblinux_arp_cache Hcache m M _ HM Hnz) as Hl. rewrite Hmac in Hl.
  destruct Hl as (j & Hj & El & Em). pose proof (entry_in_cache liblinux_arp_cache Hcache j Hj) as Hjc.
  apart Hsep 0%nat 1%nat. apart Hsep 0%nat 2%nat. apart Hsep 0%nat 3%nat. apart Hsep 0%nat 6%nat.
  apart Hsep 1%nat 2%nat. apart Hsep 1%nat 6%nat. apart Hsep 2%nat 6%nat.
  unfold entry_mac in Em. unfold entry_mac_addr in *. set (dmac := cache_entries liblinux_arp_cache j + 4) in *.
  rewrite (udp_sendto_steps m dmac flags El) by lia. cbv zeta. rewrite Em.
  assert (length mac = 6%nat) as Lm by (by rewrite <- Em, length_load_bytes).
  assert (Forall is_byte mac) as Bm by (rewrite <- Em; apply load_bytes_bytes).
  pose proof (length_sent_frame m mac 0 0 Lm) as Lf. pose proof (sent_frame_bytes m mac 0 0 Bm) as Bf.
  set (m4 := store_bytes m _tx_buf (sent_frame m mac 0 0)).
  assert (changes (fun x => _tx_buf <= x < _tx_buf + 4096) m m4) as C4 by (apply changes_store_bytes; rewrite Lf; lia).
  assert (load_bytes m4 _tx_buf (Z.to_nat (42 + len)) = sent_frame m mac 0 0) as F4
    by (unfold m4; rewrite <- Lf, Nat2Z.id; by apply load_bytes_store_bytes).
  destruct (frame_checksummed m4 _ _ (load32 m liblinux_host_ip) (load32 m (sin_addr dest_addr)) _ _ _ Lm
    (length_load_bytes m liblinux_mac_addr 6) (load32_range _ _) (load32_range _ _)
    ltac:(rewrite length_load_bytes; apply Z2Nat.id; exact Hlen) F4) as (c1 & c2 & E1 & E2 & F6 & V1 & V2).
  rewrite E1, Ok_bind, E2, Ok_bind. set (m6 := store16 (store16 m4 _ c1) _ c2) in *.
  assert (changes (fun x => _tx_buf <= x < _tx_buf + 4096) m m6) as C6.
  { unfold m6, store16, iph_check. eapply changes_trans; [exact C4|].
    eapply changes_trans; apply changes_store; lia. }
  assert (load64 m6 liblinux_eth_ioqueue = q) as -> by (rewrite <- Eq; apply load_ext; intros x Hx; apply C6; lia).
  assert (fifo_rep q 24 n m6 xs) as HR6
    by (apply (fifo_rep_ext q n Hq Hn Hfit m); [done|]; intros x Hx; apply C6; lia).
  destruct (io_append_spec q n Hq Hn Hfit m6 xs frame IO_OPCODE_SUBMIT _tx_buf (42 + len) HR6 Hroom) as [(x & HR7 & Hx) C7]; [lia|].
  change (io_queue_append m6 frame q IO_OPCODE_SUBMIT) with (io_submit m6 frame q) in *.
  set (m7 := snd (io_submit _ _ _ _ _)) in *.
  assert (forall a, _tx_buf <= a < _tx_buf + 4096 -> load8 m7 a = load8 m6 a) as H7 by (intros; apply C7; lia).
  exists m7, c1, c2, x. split_and!; [done| | | |done|done|].
  - rewrite (load_bytes_ext m6 m7) by (intros; apply H7; lia). exact F6.
  - rewrite <- V1. apply ipv4_checksum_ext; [lia|]. intros. apply H7. lia.
  - rewrite <- V2. apply udp_checksum_ext; [lia|]. intros. apply H7. lia.
  - eapply changes_trans; [eapply changes_mono, C6; by left|]. eapply changes_mono, C7. intros y [?|?]; [right; left|right; right]; done.
Qed.
End Send.
