(* ===== verification/NetInput.v ===== *)
(** * Receiving packets

    [net_input] of usr/liblinux/src/internal/net.c and what it calls: it
    consumes every packet, answers ARP requests and delivers UDP datagrams to
    the socket bound to their port. *)

From S2P Require Import Prelude Mem RingBuffer Inet ArpCache Net NetProof.

(** ** Packet views *)

Definition view_ok (pk : packet_view) : Prop := 0 <= pk_end pk - pk_start pk < 2 ^ 64.

Lemma view_len pk : view_ok pk -> packet_view_len pk = pk_end pk - pk_start pk.
Proof. apply u64_small. Qed.

Lemma trim_spec pk size :
  view_ok pk -> 0 <= size ->
  packet_view_trim pk size =
    if size <=? pk_end pk - pk_start pk then Ok (PacketView (pk_start pk + size) (pk_end pk)) else Fault AssertFailed.
Proof. intros Hv Hs. unfold packet_view_trim. by rewrite view_len. Qed.

(** [pk'] is what is left of [pk] after at least [k] bytes. *)
Definition trimmed (k : Z) (pk pk' : packet_view) : Prop :=
  pk_end pk' = pk_end pk /\ pk_start pk + k <= pk_start pk' <= pk_end pk.

Lemma trimmed_ok k pk pk' : 0 <= k -> view_ok pk -> trimmed k pk pk' -> view_ok pk'.
Proof. unfold trimmed, view_ok. lia. Qed.

(** The faults of input processing: a failed assertion of [udp_input] (no
    socket, or a datagram longer than the packet), or a full ARP cache. *)
Definition input_fault (f : fault) : Prop := f = AssertFailed \/ f = NullDeref.

#[local] Set Default Proof Using "All".

Section Input.
Context {G : NetGlobals} {HH : HostHeaders}.

Lemma ntohs_range x : 0 <= ntohs x < 2 ^ 16.
Proof. apply bswap16_range. Qed.

Lemma udp_input_progress m pk :
  view_ok pk ->
  match udp_input m pk with
  | Ok (pk', _) => trimmed 0 pk pk'
  | Fault f => input_fault f
  end.
Proof.
  intros Hv. unfold udp_input. destruct (negb (socket_lookup_by_flow _ _ _ =? 0)); [|by left]. set (ul := ntohs _).
  assert (0 <= ul < 2 ^ 16) by apply ntohs_range.
  rewrite trim_spec by (done || (unfold sizeof_iphdr; lia)).
  destruct (Z.leb_spec (sizeof_iphdr + ul) (pk_end pk - pk_start pk)); cbn; [|by left].
  unfold trimmed, sizeof_iphdr in *. cbn. lia.
Qed.

Lemma ip_input_progress m pk :
  view_ok pk ->
  match ip_input m pk with
  | Ok (_, pk', _) => trimmed 0 pk pk'
  | Fault f => input_fault f
  end.
Proof.
  intros Hv. assert (trimmed 0 pk pk) as Hpk by (unfold trimmed, view_ok in *; lia).
  unfold ip_input, drop_datagram.
  destruct (packet_view_len pk <? sizeof_iphdr); [done|].
  destruct (ntohs (load16 m (iph_tot_len (pk_start pk))) <? sizeof_iphdr); [done|].
  destruct (negb (iph_version m (pk_start pk) =? 4)); [done|].
  destruct (ip_is_fragment _); [done|].
  destruct (load8 m (iph_protocol (pk_start pk)) =? IPPROTO_UDP); [|done].
  pose proof (udp_input_progress m pk Hv) as Hu. destruct (udp_input m pk) as [[pk' m']|]; done.
Qed.

Lemma arp_input_fault m pk :
  match arp_input m pk with Ok _ => True | Fault f => input_fault f end.
Proof.
  unfold arp_input. destruct (_ =? ARPOP_REQUEST); [|done]. unfold arp_reply.
  destruct (arp_cache_insert _ _ _ _) as [m1|f] eqn:E.
  - rewrite Ok_bind. by destruct (io_submit _ _ _ _ _).
  - rewrite Fault_bind. unfold arp_cache_insert in E. case_match; [|done]. injection E as <-. by right.
Qed.

Lemma drop_packet_spec m pk :
  view_ok pk ->
  drop_packet m pk = Ok (false, PacketView (pk_end pk) (pk_end pk), store64 m net_stats (load64 m net_stats + 1)).
Proof.
  intros Hv. unfold drop_packet. rewrite view_len, trim_spec by (done || (unfold view_ok in Hv; lia)).
  rewrite Z.leb_refl, Ok_bind. do 4 f_equal. lia.
Qed.

(** A non-empty packet gets shorter. *)
Lemma net_input_one_progress m pk :
  view_ok pk -> pk_start pk < pk_end pk ->
  match net_input_one m pk with
  | Ok (_, pk', _) => trimmed 1 pk pk'
  | Fault f => input_fault f
  end.
Proof.
  intros Hv Hne. unfold net_input_one. rewrite view_len by done. unfold sizeof_ethhdr.
  destruct (Z.ltb_spec (pk_end pk - pk_start pk) 14).
  { rewrite drop_packet_spec by done. unfold trimmed. cbn. lia. }
  rewrite trim_spec by (done || lia). rewrite (proj2 (Z.leb_le 14 _)), Ok_bind by lia.
  set (pk1 := PacketView (pk_start pk + 14) (pk_end pk)).
  assert (view_ok pk1) as Hv1 by (unfold view_ok in *; cbn; lia).
  destruct (_ =? ntohs ETH_P_IP).
  { pose proof (ip_input_progress m pk1 Hv1) as Hi. destruct (ip_input m pk1) as [[[r pk'] m']|]; [|done].
    unfold trimmed in *. cbn in Hi. lia. }
  destruct (_ =? ntohs ETH_P_ARP).
  { pose proof (arp_input_fault m pk1) as Ha. destruct (arp_input m pk1) as [m'|]; [|done].
    rewrite Ok_bind. unfold trimmed. cbn. lia. }
  rewrite drop_packet_spec by done. unfold trimmed. cbn. lia.
Qed.

Lemma net_input_loop_spec fuel : forall m pk ret,
  view_ok pk -> pk_end pk - pk_start pk <= Z.of_nat fuel ->
  match net_input_loop fuel m pk ret with
  | Ok (_, pk', _) => pk_start pk' = pk_end pk /\ pk_end pk' = pk_end pk
  | Fault f => input_fault f
  end.
Proof.
  induction fuel as [|fuel IH]; intros m pk ret Hv Hf; cbn [net_input_loop]; rewrite view_len by done;
    destruct (Z.ltb_spec 0 (pk_end pk - pk_start pk)); cbn [negb]; unfold view_ok in Hv; try lia.
  pose proof (net_input_one_progress m pk Hv ltac:(lia)) as H1.
  destruct (net_input_one m pk) as [[[r pk'] m']|]; [rewrite Ok_bind|done].
  specialize (IH m' pk' (ret || r) ltac:(unfold trimmed, view_ok in *; lia) ltac:(unfold trimmed in *; lia)).
  destruct (net_input_loop fuel m' pk' (ret || r)) as [[[r' pk''] m'']|]; [|done]. unfold trimmed in *. lia.
Qed.
End Input.

(** C22: [net_input] terminates on every packet, whatever its bytes: it either
    consumes the whole packet and returns its buffer to the driver with a
    completion command, or a process-ending fault stops it, and that is an
    assertion of [udp_input] or the null pointer of a full ARP cache. *)
Theorem net_input_consumes (G : NetGlobals) (HH : HostHeaders) (m : mem) (pk : packet_view) (Hv : view_ok pk) :
  match net_input m pk with
  | Ok (_, pk', m') => pk_start pk' = pk_end pk /\ pk_end pk' = pk_end pk /\
      exists m1, m' = snd (io_complete m1 frame (load64 m1 liblinux_eth_ioqueue) (pk_start pk) (pk_end pk - pk_start pk))
  | Fault f => f = AssertFailed \/ f = NullDeref
  end.
Proof.
  unfold net_input. pose proof (net_input_loop_spec (Z.to_nat (packet_view_len pk)) m pk false Hv) as H.
  rewrite view_len in * by done. unfold view_ok in Hv. specialize (H ltac:(lia)).
  destruct (net_input_loop _ m pk false) as [[[r pk'] m']|]; [rewrite Ok_bind|done].
  destruct (io_complete _ _ _ _ _) as [r' m1] eqn:E. split_and!; [apply H..|]. exists m'. by rewrite E.
Qed.

(** ** Answering ARP requests

    [arp_input] and [arp_reply] of usr/liblinux/src/internal/arp.c. *)

(** The Ethernet frame of an ARP reply from [smac], [sip] to [dmac], [dip]. *)
Definition arp_reply_frame (dmac smac : list Z) (sip dip : Z) : list Z :=
  eth_header dmac smac ETH_P_ARP ++ be16 1 ++ be16 ETH_P_IP ++ [6; 4] ++ be16 2 ++
  smac ++ le_split 4 sip ++ dmac ++ le_split 4 dip.

(** ** Writing a buffer from its start *)

(** [m'] is [m] with the [k] bytes [l] written at [tx]. *)
Definition written (m : mem) (tx : Z) (l : list Z) (k : Z) (m' : mem) : Prop :=
  m' = store_bytes m tx l /\ Z.of_nat (length l) = k.

Lemma written_nil m tx : written m tx [] 0 m.
Proof. done. Qed.

Lemma written_bytes m tx l k m' a bs :
  written m tx l k m' -> a = tx + k ->
  written m tx (l ++ bs) (k + Z.of_nat (length bs)) (store_bytes m' a bs).
Proof. intros [-> <-] ->. split; [by rewrite store_bytes_app|]. rewrite length_app. lia. Qed.

Lemma written_out m tx l k m' x : written m tx l k m' -> x < tx \/ tx + k <= x -> load8 m' x = load8 m x.
Proof. intros [-> <-] Hx. by apply load8_store_bytes_out. Qed.

Lemma written_copy m tx l k m' a s n :
  written m tx l k m' -> a = tx + k -> s + Z.of_nat n <= tx \/ tx + k + Z.of_nat n <= s ->
  written m tx (l ++ load_bytes m s n) (k + Z.of_nat n) (memcpy m' a s n).
Proof.
  intros W -> Hs. assert (0 <= k) by (destruct W as [_ <-]; lia). rewrite memcpy_store_bytes by lia.
  rewrite (load_bytes_ext m m') by (intros; eapply written_out; [done|lia]).
  pose proof (written_bytes m tx l k m' _ (load_bytes m s n) W eq_refl) as W'. by rewrite length_load_bytes in W'.
Qed.

Lemma written_load m tx l k m' n a :
  written m tx l k m' -> a + Z.of_nat n <= tx \/ tx + k <= a -> load n m' a = load n m a.
Proof. intros W Ha. apply load_ext. intros. eapply written_out; [done|lia]. Qed.

#[local] Set Default Proof Using "All".

(** One more step of a buffer being written, naming the memory after it. *)
Ltac wcopy W a s n W' m' :=
  unshelve epose proof (written_copy _ _ _ _ _ a s n W _ _) as W'; [cbn; lia..|];
  match type of W' with written _ _ _ _ ?e => set (m' := e) in * end.
Ltac wbytes W a bs W' m' :=
  unshelve epose proof (written_bytes _ _ _ _ _ a bs W _) as W'; [cbn; lia..|];
  match type of W' with written _ _ _ _ ?e => set (m' := e) in * end.

Section Reply.
Context {G : NetGlobals}.
#[local] Existing Instance rfc_headers.
Context (q n p : Z).
Context (Hq : 0 < q) (Hn : 0 < n) (Hfit : rb_data q + sizeof_io_cmd * n <= 2 ^ 64).
Context (Hcache : 0 < liblinux_arp_cache).

Definition arp_objects : list (Z * Z) :=
  [(arp_tx_buf, 128); (frame, 24); (q, queue_size n); (liblinux_arp_cache, sizeof_arp_cache);
   (liblinux_mac_addr, 6); (liblinux_host_ip, 4); (liblinux_eth_ioqueue, 8); (p, 28)].

Context (Hsep : separate arp_objects = true).

(** The sender's addresses in the request at [p]. *)
Definition request_ip (m : mem) : Z := load32 m (ar_sip (p + 8)).
Definition request_mac (m : mem) : list Z := load_bytes m (ar_smac (p + 8)) 6.

(** What follows the update of the cache. *)
Lemma arp_reply_steps m m1 :
  arp_cache_insert m liblinux_arp_cache (load32 m (ar_sip (p + 8))) (ar_smac (p + 8)) = Ok m1 ->
  arp_reply m p =
    let m2 := store_bytes m1 arp_tx_buf
      (arp_reply_frame (request_mac m1) (load_bytes m1 liblinux_mac_addr 6) (load32 m1 liblinux_host_ip) (request_ip m1)) in
    Ok (snd (io_submit m2 frame (load64 m2 liblinux_eth_ioqueue) arp_tx_buf 42)).
Proof.
  intros E. unfold arp_reply.
  change (@sizeof_arphdr rfc_headers) with 8. rewrite E, Ok_bind. cbv zeta.
  apart Hsep 0%nat 4%nat. apart Hsep 0%nat 5%nat. apart Hsep 0%nat 7%nat.
  unfold h_dest, h_source, h_proto, ar_smac, ar_sip, ar_dmac, ar_dip, request_ip, request_mac, sizeof_ethhdr.
  change (Z.to_nat ETH_ALEN) with 6%nat. rewrite !store16_htons, !store8_bytes. unfold store32.
  change (@ar_hrd rfc_headers) with 0. change (@ar_pro rfc_headers) with 2. change (@ar_hln rfc_headers) with 4.
  change (@ar_pln rfc_headers) with 5. change (@ar_op rfc_headers) with 6.
  change (@ARPHRD_ETHER rfc_headers) with 1. change (@ARPOP_REPLY rfc_headers) with 2.
  rewrite !store_split.
  wcopy (written_nil m1 arp_tx_buf) arp_tx_buf (p + 8) 6%nat W1 m2.
  wcopy W1 (arp_tx_buf + 6) liblinux_mac_addr 6%nat W2 m3.
  wbytes W2 (arp_tx_buf + 12) (be16 ETH_P_ARP) W3 m4.
  wbytes W3 (arp_tx_buf + 14 + 0) (be16 1) W4 m5.
  wbytes W4 (arp_tx_buf + 14 + 2) (be16 ETH_P_IP) W5 m6.
  wbytes W5 (arp_tx_buf + 14 + 4) [ETH_ALEN] W6 m7.
  wbytes W6 (arp_tx_buf + 14 + 5) [4] W7 m8.
  wbytes W7 (arp_tx_buf + 14 + 6) (be16 2) W8 m9.
  wcopy W8 (arp_tx_buf + 14 + 8) liblinux_mac_addr 6%nat W9 m10.
  assert (load32 m10 liblinux_host_ip = load32 m1 liblinux_host_ip) as -> by (apply (written_load _ _ _ _ _ 4 _ W9); cbn; lia).
  wbytes W9 (arp_tx_buf + 14 + 8 + 6) (le_split 4 (load32 m1 liblinux_host_ip)) W10 m11.
  wcopy W10 (arp_tx_buf + 14 + 8 + 10) (p + 8) 6%nat W11 m12.
  assert (load32 m12 (p + 8 + 6) = load32 m1 (p + 8 + 6)) as -> by (apply (written_load _ _ _ _ _ 4 _ W11); cbn; lia).
  wbytes W11 (arp_tx_buf + 14 + 8 + 16) (le_split 4 (load32 m1 (p + 8 + 6))) W12 m13.
  assert (m13 = store_bytes m1 arp_tx_buf (arp_reply_frame (load_bytes m1 (p + 8) 6) (load_bytes m1 liblinux_mac_addr 6)
    (load32 m1 liblinux_host_ip) (load32 m1 (p + 8 + 6)))) as ->.
  { destruct W12 as [-> _]. unfold arp_reply_frame, eth_header. by rewrite <- !app_assoc. }
  change (14 + 8 + sizeof_arp_ip4) with 42. by destruct (io_submit _ _ _ _ _).
Qed.

(** What answering a request writes. *)
Definition arp_area (x : Z) : Prop :=
  arp_tx_buf <= x < arp_tx_buf + 42 \/ frame <= x < frame + 24 \/ q <= x < q + queue_size n \/
  liblinux_arp_cache <= x < liblinux_arp_cache + sizeof_arp_cache.

Lemma arp_input_spec m M xs pk :
  pk_start pk = p -> load16 m (p + 6) = htons 1 -> request_ip m <> 0 ->
  holds liblinux_arp_cache m M -> is_Some (M !! request_ip m) \/ (size M < 128)%nat ->
  load64 m liblinux_eth_ioqueue = q -> fifo_rep q 24 n m xs -> Z.of_nat (length xs) < n - 1 ->
  exists m' x, arp_input m pk = Ok m' /\
    load_bytes m' arp_tx_buf 42 = arp_reply_frame (request_mac m) (load_bytes m liblinux_mac_addr 6)
      (load32 m liblinux_host_ip) (request_ip m) /\
    holds liblinux_arp_cache m' (<[request_ip m := request_mac m]> M) /\
    fifo_rep q 24 n m' (xs ++ [x]) /\ is_io_cmd x IO_OPCODE_SUBMIT arp_tx_buf 42 /\
    changes arp_area m m'.
Proof.
  intros Hp Hop Hnz HM Hroom Eq HR Hlen. unfold arp_input. rewrite Hp.
  change (@ar_op rfc_headers) with 6. rewrite Hop. change (ntohs (htons 1) =? @ARPOP_REQUEST rfc_headers) with true.
  apart Hsep 0%nat 1%nat. apart Hsep 0%nat 2%nat. apart Hsep 0%nat 3%nat. apart Hsep 0%nat 6%nat.
  apart Hsep 1%nat 2%nat. apart Hsep 1%nat 3%nat. apart Hsep 2%nat 3%nat. apart Hsep 3%nat 4%nat.
  apart Hsep 3%nat 5%nat. apart Hsep 3%nat 6%nat. apart Hsep 3%nat 7%nat.
  destruct (insert_spec liblinux_arp_cache Hcache m M (request_ip m) (ar_smac (p + 8)) HM Hnz (load32_range _ _))
    as (m1 & E1 & HM1 & C1); [unfold ar_smac; lia|done|].
  rewrite (arp_reply_steps m m1 E1). cbv zeta. set (F := arp_reply_frame _ _ _ _).
  assert (F = arp_reply_frame (request_mac m) (load_bytes m liblinux_mac_addr 6) (load32 m liblinux_host_ip) (request_ip m)) as EF.
  { unfold F, request_mac, request_ip, ar_smac, ar_sip. f_equal.
    - apply load_bytes_ext. intros. apply C1. lia.
    - apply load_bytes_ext. intros. apply C1. lia.
    - apply load_ext. intros. apply C1. lia.
    - apply load_ext. intros. apply C1. lia. }
  assert (length F = 42%nat /\ Forall is_byte F) as [LF BF].
  { unfold F, arp_reply_frame, eth_header, request_mac. split.
    - rewrite !length_app, !length_load_bytes. done.
    - repeat apply Forall_app_2; try apply be16_bytes; try apply le_split_bytes; try apply load_bytes_bytes.
      repeat constructor; unfold is_byte; lia. }
  set (m2 := store_bytes m1 arp_tx_buf F).
  assert (changes (fun x => arp_tx_buf <= x < arp_tx_buf + 42) m1 m2) as C2 by (apply changes_store_bytes; rewrite LF; lia).
  assert (load64 m2 liblinux_eth_ioqueue = q) as ->.
  { rewrite <- Eq. apply load_ext. intros. rewrite C2 by lia. apply C1. lia. }
  assert (fifo_rep q 24 n m2 xs) as HR2.
  { apply (fifo_rep_ext q n Hq Hn Hfit m); [done|]. intros x Hx. rewrite C2 by lia. apply C1. lia. }
  destruct (io_append_spec q n Hq Hn Hfit m2 xs frame IO_OPCODE_SUBMIT arp_tx_buf 42 HR2 Hlen) as [(x & HR3 & Hx) C3]; [lia|].
  exists (snd (io_submit m2 frame q arp_tx_buf 42)), x. split; [done|]. split_and!; [| |done|done|].
  - transitivity (load_bytes m2 arp_tx_buf 42); [apply load_bytes_ext; intros; apply C3; lia|].
    rewrite <- EF. unfold m2. rewrite <- LF at 1. by apply load_bytes_store_bytes.
  - apply (holds_ext liblinux_arp_cache Hcache m1); [exact HM1|]. intros y Hy. rewrite <- C2 by lia. apply C3. lia.
  - intros y Hy. unfold arp_area in Hy. rewrite <- C1, <- C2 by lia. apply C3. lia.
Qed.
End Reply.

(** An ARP request is answered: the reply frame in the transmit buffer is
    addressed to the sender of the request and gives the host's own addresses,
    a command to send its 42 bytes is queued, and the cache has learned the
    sender's MAC address. *)
Theorem arp_request_answered (G : NetGlobals) (HH : HostHeaders) (Hrfc : HH = rfc_headers)
    (q n : Z) (m : mem) (M : gmap Z (list Z)) (xs : list (list Z)) (pk : packet_view)
    (Hq : 0 < q) (Hn : 0 < n) (Hfit : rb_data q + sizeof_io_cmd * n <= 2 ^ 64)
    (Hcache : 0 < liblinux_arp_cache) (Hsep : separate (arp_objects q n (pk_start pk)) = true)
    (Hop : load16 m (pk_start pk + 6) = htons 1) (Hnz : request_ip (pk_start pk) m <> 0)
    (HM : holds liblinux_arp_cache m M)
    (Hroom : is_Some (M !! request_ip (pk_start pk) m) \/ (size M < 128)%nat)
    (Eq : load64 m liblinux_eth_ioqueue = q) (HR : fifo_rep q 24 n m xs) (Hlen : Z.of_nat (length xs) < n - 1) :
  let ip := request_ip (pk_start pk) m in
  let mac := request_mac (pk_start pk) m in
  exists m' x, arp_input m pk = Ok m' /\
    load_bytes m' arp_tx_buf 42 =
      arp_reply_frame mac (load_bytes m liblinux_mac_addr 6) (load32 m liblinux_host_ip) ip /\
    holds liblinux_arp_cache m' (<[ip := mac]> M) /\
    fifo_rep q 24 n m' (xs ++ [x]) /\ is_io_cmd x IO_OPCODE_SUBMIT arp_tx_buf 42.
Proof.
  subst HH. destruct (arp_input_spec q n (pk_start pk) Hq Hn Hfit Hcache Hsep m M xs pk)
    as (m' & x & ? & ? & ? & ? & ? & _); [done..|]. by exists m', x.
Qed.
