(* ===== verification/NetUdp.v ===== *)
(** * Receiving a datagram, and the echo server

    [udp_input], [udp_recvfrom] (usr/liblinux/src/internal/ip.c), [recvfrom]
    (usr/liblinux/src/socket.c) and [echo] (usr/echod/echod.c). *)

From S2P Require Import Prelude Mem RingBuffer Inet ArpCache Net NetProof NetSend NetInput.

Lemma bswap16_involutive x : 0 <= x < 2 ^ 16 -> bswap16 (bswap16 x) = x.
Proof.
  intros Hx. unfold bswap16 at 1. unfold bswap16. rewrite u8_digit, div_digit by apply u8_range.
  rewrite (u8_small (u8 x)) by apply u8_range.
  rewrite (u8_small (x / 2 ^ 8)) by (split; [apply Z.div_pos; lia|apply Z.div_lt_upper_bound; lia]).
  unfold u8. pose proof (Z.div_mod x (2 ^ 8) ltac:(done)). lia.
Qed.

(** An IPv4 packet with a UDP datagram: what a socket receives. *)
Definition udp_packet (saddr daddr sport dport : Z) (payload : list Z) (ip_ck udp_ck : Z) : list Z :=
  let len := Z.of_nat (length payload) in
  ip_header (28 + len) IPPROTO_UDP ip_ck saddr daddr ++ udp_header sport dport (8 + len) udp_ck ++ payload.

Lemma udp_frame_packet dmac smac saddr daddr sport dport payload c1 c2 :
  udp_frame dmac smac saddr daddr sport dport payload c1 c2 =
  eth_header dmac smac ETH_P_IP ++ udp_packet saddr daddr sport dport payload c1 c2.
Proof. done. Qed.

Lemma length_udp_packet saddr daddr sport dport payload c1 c2 :
  length (udp_packet saddr daddr sport dport payload c1 c2) = (28 + length payload)%nat.
Proof. unfold udp_packet. rewrite !length_app, length_ip_header, length_udp_header. lia. Qed.

(** ** The fields of a packet in memory *)

#[local] Set Default Proof Using "All".

Section Packet.
Context (m : mem) (a saddr daddr sport dport c1 c2 : Z) (payload : list Z).
Context (Hs : is_u32 saddr) (Hsp : 0 <= sport < 2 ^ 16) (Hdp : 0 <= dport < 2 ^ 16).
Context (Hlen : Z.of_nat (length payload) <= 1472).
Context (HP : load_bytes m a (28 + length payload) = udp_packet saddr daddr sport dport payload c1 c2).

Lemma packet_field k v l1 l2 :
  udp_packet saddr daddr sport dport payload c1 c2 = l1 ++ le_split k v ++ l2 -> 0 <= v < 2 ^ (8 * Z.of_nat k) ->
  load k m (a + Z.of_nat (length l1)) = v.
Proof. intros E Hv. rewrite E in HP. apply load_field in HP. rewrite HP. by apply Z.mod_small. Qed.

Lemma packet_byte x l1 l2 :
  udp_packet saddr daddr sport dport payload c1 c2 = l1 ++ [x] ++ l2 -> load8 m (a + Z.of_nat (length l1)) = x.
Proof. intros E. rewrite E in HP. apply load_bytes_part in HP. by injection HP. Qed.

Let len := Z.of_nat (length payload).
Let ip1 := [0x45; 0].
Let ip2 := ip1 ++ be16 (28 + len) ++ [0; 0].
Let ip3 := ip2 ++ be16 IP_DF ++ [64].
Let ip4 := ip3 ++ [IPPROTO_UDP] ++ le_split 2 c1.
Let udp1 := ip4 ++ le_split 4 saddr ++ le_split 4 daddr.

Lemma packet_version : iph_version m a = 4.
Proof.
  unfold iph_version. pose proof (packet_byte 0x45 [] (drop 1 (udp_packet saddr daddr sport dport payload c1 c2)) eq_refl) as E.
  rewrite Z.add_0_r in E. by rewrite E.
Qed.

Lemma packet_tot_len : ntohs (load16 m (iph_tot_len a)) = 28 + len.
Proof.
  assert (load16 m (iph_tot_len a) = htons (28 + len)) as ->.
  { apply (packet_field 2 (htons (28 + len)) ip1 (drop 4 (udp_packet saddr daddr sport dport payload c1 c2)));
      [|apply bswap16_range]. by rewrite le_split_htons. }
  apply bswap16_involutive. lia.
Qed.

Lemma packet_not_fragment : ip_is_fragment (ntohs (load16 m (iph_frag_off a))) = false.
Proof.
  assert (load16 m (iph_frag_off a) = htons IP_DF) as ->; [|done].
  apply (packet_field 2 (htons IP_DF) ip2 (drop 8 (udp_packet saddr daddr sport dport payload c1 c2))); [done|done].
Qed.

Lemma packet_protocol : load8 m (iph_protocol a) = IPPROTO_UDP.
Proof. apply (packet_byte IPPROTO_UDP ip3 (drop 10 (udp_packet saddr daddr sport dport payload c1 c2))). done. Qed.

Lemma packet_saddr : load32 m (iph_saddr a) = saddr.
Proof.
  apply (packet_field 4 saddr ip4 (drop 16 (udp_packet saddr daddr sport dport payload c1 c2))); [done|exact Hs].
Qed.

Lemma packet_source : load16 m (a + 20) = sport.
Proof.
  apply (packet_field 2 sport udp1 (drop 22 (udp_packet saddr daddr sport dport payload c1 c2))); [done|exact Hsp].
Qed.

Lemma packet_dest : load16 m (a + 20 + 2) = dport.
Proof.
  rewrite <- Z.add_assoc.
  apply (packet_field 2 dport (udp1 ++ le_split 2 sport) (drop 24 (udp_packet saddr daddr sport dport payload c1 c2)));
    [done|exact Hdp].
Qed.

Lemma packet_udp_len : ntohs (load16 m (a + 20 + 4)) = 8 + len.
Proof.
  assert (load16 m (a + 20 + 4) = htons (8 + len)) as ->.
  { rewrite <- Z.add_assoc.
    apply (packet_field 2 (htons (8 + len)) (udp1 ++ le_split 2 sport ++ le_split 2 dport)
      (drop 26 (udp_packet saddr daddr sport dport payload c1 c2))); [|apply bswap16_range]. by rewrite le_split_htons. }
  apply bswap16_involutive. lia.
Qed.

Lemma packet_payload : load_bytes m (a + 28) (length payload) = payload.
Proof.
  apply (load_bytes_part m a (28 + length payload)
    (ip_header (28 + len) IPPROTO_UDP c1 saddr daddr ++ udp_header sport dport (8 + len) c2) payload []).
  rewrite HP, app_nil_r, <- app_assoc. done.
Qed.
End Packet.

(** ** [udp_recvfrom] *)

Section Recv.
Context {G : NetGlobals}.
#[local] Existing Instance rfc_headers.
Context (sk buf cap src_addr addrlen : Z).
Context (Hbuf : 0 <= cap < 2 ^ 63) (Hsrc : src_addr <> 0) (Hal : addrlen <> 0).

Definition recv_objects : list (Z * Z) :=
  [(sk, sizeof_socket); (src_addr, sizeof_sockaddr_in); (buf, cap); (addrlen, 4)].

Context (Hsep : separate recv_objects = true).

(** What receiving writes. *)
Definition recv_area (x : Z) : Prop :=
  buf <= x < buf + cap \/ src_addr + 4 <= x < src_addr + sizeof_sockaddr_in \/ addrlen <= x < addrlen + 4.

Lemma udp_recvfrom_spec m flags saddr daddr sport dport payload c1 c2 :
  is_u32 saddr -> 0 <= sport < 2 ^ 16 -> 0 <= dport < 2 ^ 16 -> Z.of_nat (length payload) <= 1472 ->
  load_bytes m (sk_rx_buffer sk) (28 + length payload) = udp_packet saddr daddr sport dport payload c1 c2 ->
  sizeof_sockaddr_in <= load32 m addrlen ->
  let nr := Z.min (Z.of_nat (length payload)) cap in
  exists m', udp_recvfrom m sk buf cap flags src_addr addrlen = Ok (nr, m') /\
    load_bytes m' buf (Z.to_nat nr) = take (Z.to_nat nr) payload /\
    load32 m' (sin_addr src_addr) = saddr /\ load16 m' (sin_port src_addr) = sport /\
    load32 m' addrlen = sizeof_sockaddr_in /\ changes recv_area m m'.
Proof.
  intros Hs Hsp Hdp Hlen HP Hcap nr.
  apart Hsep 0%nat 1%nat. apart Hsep 0%nat 2%nat. apart Hsep 0%nat 3%nat.
  apart Hsep 1%nat 2%nat. apart Hsep 1%nat 3%nat. apart Hsep 2%nat 3%nat.
  pose proof (packet_saddr m (sk_rx_buffer sk) saddr daddr sport dport c1 c2 payload Hs Hsp Hdp Hlen HP) as E1.
  pose proof (packet_source m (sk_rx_buffer sk) saddr daddr sport dport c1 c2 payload Hs Hsp Hdp Hlen HP) as E2.
  pose proof (packet_udp_len m (sk_rx_buffer sk) saddr daddr sport dport c1 c2 payload Hs Hsp Hdp Hlen HP) as E3.
  pose proof (packet_payload m (sk_rx_buffer sk) saddr daddr sport dport c1 c2 payload Hs Hsp Hdp Hlen HP) as E4.
  unfold udp_recvfrom. cbv zeta. change (@udp_len_field rfc_headers) with 4. change (@sizeof_udphdr rfc_headers) with 8.
  change (@udp_source rfc_headers) with 0. change sizeof_iphdr with 20 in *.
  unfold sizeof_sockaddr_in, sizeof_socket, sin_addr, sin_port, iph_saddr, sk_rx_buffer in *.
  rewrite E1, E3. rewrite (u64_small (8 + _ - 8)) by lia.
  replace (8 + Z.of_nat (length payload) - 8) with (Z.of_nat (length payload)) by lia.
  rewrite (proj2 (Z.eqb_neq addrlen 0) Hal), (proj2 (Z.eqb_neq src_addr 0) Hsrc).
  rewrite (proj2 (Z.ltb_ge (load32 m addrlen) 12) Hcap).
  replace (if cap <? Z.of_nat (length payload) then cap else Z.of_nat (length payload)) with nr
    by (unfold nr; destruct (Z.ltb_spec cap (Z.of_nat (length payload))); lia).
  set (m1 := store32 m (src_addr + 8) saddr).
  assert (load16 m1 (sk + 10 + 20 + 0) = sport) as ->.
  { rewrite Z.add_0_r. unfold m1, load16, store32. rewrite load_store_ne by (cbn; lia). exact E2. }
  set (m3 := store32 (store16 m1 (src_addr + 4) sport) addrlen 12).
  assert (0 <= nr <= cap) as Hnr by (unfold nr; lia).
  exists (memcpy m3 buf (sk + 10 + (20 + 8)) (Z.to_nat nr)).
  assert (changes (fun x => src_addr + 4 <= x < src_addr + 12 \/ addrlen <= x < addrlen + 4) m m3) as C3.
  { unfold m3, m1, store32, store16. intros x Hx. rewrite !load8_store_out by lia. done. }
  split_and!.
  - do 2 f_equal. unfold s64. rewrite u64_small by lia. by destruct (Z.ltb_spec nr (2 ^ 63)); [|lia].
  - rewrite load_bytes_memcpy by lia. change (sk + 10 + (20 + 8)) with (sk + 10 + 28).
    rewrite (load_bytes_ext m m3) by (intros; apply C3; lia).
    rewrite <- (take_load_bytes m _ (length payload)) by (unfold nr; lia). by rewrite E4.
  - transitivity (load32 m3 (src_addr + 8)); [apply load_ext; intros; apply load8_memcpy_out; lia|].
    unfold m3, m1, load32, store16, store32. rewrite !load_store_ne, load_store_eq by (cbn; lia). apply Z.mod_small, Hs.
  - transitivity (load16 m3 (src_addr + 4)); [apply load_ext; intros; apply load8_memcpy_out; lia|].
    unfold m3, m1, load16, store16, store32. rewrite load_store_ne, load_store_eq by (cbn; lia). apply Z.mod_small, Hsp.
  - transitivity (load32 m3 addrlen); [apply load_ext; intros; apply load8_memcpy_out; lia|].
    unfold m3. by rewrite load32_store32_eq.
  - intros x Hx. unfold recv_area, sizeof_sockaddr_in in Hx. rewrite load8_memcpy_out by lia. apply C3. lia.
Qed.
End Recv.

(** ** Delivery *)

Section Deliver.
Context {G : NetGlobals}.
#[local] Existing Instance rfc_headers.
Context (q n a i : Z) (dmac smac payload : list Z) (saddr daddr sport dport c1 c2 : Z).
Context (Hq : 0 < q) (Hn : 0 < n) (Hfit : rb_data q + sizeof_io_cmd * n <= 2 ^ 64).
Context (Hi : 0 <= i < MAX_SOCKETS) (Hsk : 0 < sockets).
Context (Hs : is_u32 saddr) (Hsp : 0 <= sport < 2 ^ 16) (Hdp : 0 <= dport < 2 ^ 16).
Context (Hlen : Z.of_nat (length payload) <= 1472).
Context (Ld : length dmac = 6%nat) (Ls : length smac = 6%nat).

Let len := Z.of_nat (length payload).

Definition deliver_objects : list (Z * Z) :=
  [(frame, 24); (q, queue_size n); (liblinux_eth_ioqueue, 8); (sockets, sizeof_socket * MAX_SOCKETS);
   (a, 42 + Z.of_nat (length payload))].

Context (Hsep : separate deliver_objects = true).

(** Socket [i] is the first one bound to the port. *)
Definition bound (m : mem) (port : Z) : Prop :=
  load16 m (sk_local_port (sockets_at i)) = port /\
  forall j, 0 <= j < i -> load16 m (sk_local_port (sockets_at j)) <> port.

Lemma socket_lookup_loop_spec m port : bound m port ->
  forall fuel j, 0 <= j <= i -> i < j + Z.of_nat fuel -> socket_lookup_loop m port j fuel = sockets_at i.
Proof.
  intros [Hp Hf]. induction fuel as [|fuel IH]; intros j Hj Hfu; [lia|]. cbn [socket_lookup_loop].
  destruct (Z.eqb_spec (load16 m (sk_local_port (sockets_at j))) port) as [E|E].
  - destruct (Z.eq_dec j i) as [->|]; [done|]. by destruct (Hf j ltac:(lia)).
  - apply IH; [|lia]. destruct (Z.eq_dec j i) as [->|]; [congruence|lia].
Qed.

Lemma ip_input_udp m :
  load_bytes m a (Z.to_nat (42 + len)) = udp_frame dmac smac saddr daddr sport dport payload c1 c2 ->
  bound m dport ->
  let e := a + 42 + len in
  ip_input m (PacketView (a + 14) e) =
    Ok (true, PacketView e e, memcpy m (sk_rx_buffer (sockets_at i)) (a + 14) (Z.to_nat (28 + len))).
Proof.
  intros HF Hb e. set (p := a + 14). set (pk := PacketView p e).
  assert (load_bytes m p (28 + length payload) = udp_packet saddr daddr sport dport payload c1 c2) as HP.
  { rewrite udp_frame_packet in HF. rewrite <- (app_nil_r (udp_packet _ _ _ _ _ _ _)) in HF.
    apply load_bytes_part in HF. rewrite length_udp_packet, (length_eth_header _ _ _ Ld Ls) in HF. exact HF. }
  assert (view_ok pk) as Hv by (unfold view_ok, pk, e, p; cbn; lia).
  unfold ip_input. cbn [pk_start pk]. rewrite view_len by done. cbn [pk_start pk_end pk].
  replace (e - p) with (28 + len) by (unfold e, p; lia). change sizeof_iphdr with 20.
  destruct (Z.ltb_spec (28 + len) 20); [lia|].
  rewrite (packet_tot_len m p saddr daddr sport dport c1 c2 payload Hs Hsp Hdp Hlen HP).
  destruct (Z.ltb_spec (28 + Z.of_nat (length payload)) 20); [lia|].
  rewrite (packet_version m p saddr daddr sport dport c1 c2 payload Hs Hsp Hdp Hlen HP).
  rewrite (packet_not_fragment m p saddr daddr sport dport c1 c2 payload Hs Hsp Hdp Hlen HP).
  rewrite (packet_protocol m p saddr daddr sport dport c1 c2 payload Hs Hsp Hdp Hlen HP).
  rewrite Z.eqb_refl. cbn [negb Z.eqb Pos.eqb]. rewrite Z.eqb_refl.
  unfold udp_input. cbn [pk_start pk]. change sizeof_iphdr with 20.
  change (@udp_len_field rfc_headers) with 4. change (@udp_dest rfc_headers) with 2.
  rewrite (packet_udp_len m p saddr daddr sport dport c1 c2 payload Hs Hsp Hdp Hlen HP).
  rewrite (packet_dest m p saddr daddr sport dport c1 c2 payload Hs Hsp Hdp Hlen HP).
  unfold socket_lookup_by_flow. unfold MAX_SOCKETS in Hi. change (Z.to_nat MAX_SOCKETS) with 8%nat.
  rewrite (socket_lookup_loop_spec m dport Hb) by lia.
  destruct (Z.eqb_spec (sockets_at i) 0) as [E|_]; [unfold sockets_at, sizeof_socket in E; lia|]. cbn [negb].
  rewrite trim_spec by (done || lia). cbn [pk_start pk_end pk].
  replace (e - p) with (28 + len) by (unfold e, p; lia).
  destruct (Z.leb_spec (20 + (8 + Z.of_nat (length payload))) (28 + len)); [|lia]. rewrite !Ok_bind.
  unfold socket_input. rewrite view_len by done. cbn [pk_start pk_end pk].
  replace (e - p) with (28 + len) by (unfold e, p; lia).
  replace (p + (20 + (8 + Z.of_nat (length payload)))) with e by (unfold e, p; lia). done.
Qed.

(** What delivery writes. *)
Definition deliver_area (x : Z) : Prop :=
  sk_rx_buffer (sockets_at i) <= x < sk_rx_buffer (sockets_at i) + 28 + len \/
  frame <= x < frame + 24 \/ q <= x < q + queue_size n.

Lemma net_input_udp m xs :
  load_bytes m a (Z.to_nat (42 + len)) = udp_frame dmac smac saddr daddr sport dport payload c1 c2 ->
  bound m dport ->
  load64 m liblinux_eth_ioqueue = q -> fifo_rep q 24 n m xs -> Z.of_nat (length xs) < n - 1 ->
  let e := a + 42 + len in
  exists m' x, net_input m (PacketView a e) = Ok (true, PacketView e e, m') /\
    load_bytes m' (sk_rx_buffer (sockets_at i)) (28 + length payload) =
      udp_packet saddr daddr sport dport payload c1 c2 /\
    fifo_rep q 24 n m' (xs ++ [x]) /\ is_io_cmd x IO_OPCODE_COMPLETE a (42 + len) /\
    changes deliver_area m m'.
Proof.
  intros HF Hb Eq HR Hroom e. pose proof (ip_input_udp m HF Hb) as Hip. fold e in Hip.
  apart Hsep 0%nat 1%nat. apart Hsep 0%nat 2%nat. apart Hsep 0%nat 3%nat. apart Hsep 1%nat 2%nat.
  apart Hsep 1%nat 3%nat. apart Hsep 2%nat 3%nat. apart Hsep 3%nat 4%nat.
  unfold sizeof_socket, MAX_SOCKETS, sk_rx_buffer, sockets_at, sizeof_socket in *.
  set (rx := sockets + 1512 * i + 10) in *. set (m1 := memcpy m rx (a + 14) (Z.to_nat (28 + len))) in *.
  assert (load16 m (h_proto a) = htons ETH_P_IP) as Hproto.
  { rewrite udp_frame_packet in HF. unfold eth_header in HF. rewrite <- !app_assoc, (app_assoc dmac), <- le_split_htons in HF.
    apply load_field in HF. rewrite length_app, Ld, Ls in HF. exact HF. }
  assert (view_ok (PacketView a e)) as Hv by (unfold view_ok, e; cbn; lia).
  assert (net_input_one m (PacketView a e) = Ok (true, PacketView e e, m1)) as H1.
  { unfold net_input_one. rewrite view_len by done. cbn [pk_start pk_end]. change sizeof_ethhdr with 14.
    destruct (Z.ltb_spec (e - a) 14); [unfold e in *; lia|]. rewrite trim_spec by (done || lia). cbn [pk_start pk_end].
    rewrite (proj2 (Z.leb_le 14 (e - a))), Ok_bind by lia. rewrite Hproto. change (ntohs ETH_P_IP) with (htons ETH_P_IP).
    rewrite Z.eqb_refl. exact Hip. }
  assert (net_input_loop (Z.to_nat (e - a)) m (PacketView a e) false = Ok (true, PacketView e e, m1)) as HL.
  { replace (Z.to_nat (e - a)) with (S (Z.to_nat (41 + len))) by (unfold e; lia). cbn [net_input_loop].
    rewrite view_len by done. cbn [pk_start pk_end]. destruct (Z.ltb_spec 0 (e - a)); [|unfold e in *; lia]. cbn [negb].
    rewrite H1, Ok_bind. destruct (Z.to_nat (41 + len)); cbn [net_input_loop];
      unfold packet_view_len; cbn [pk_start pk_end]; by rewrite Z.sub_diag. }
  assert (changes (fun x => rx <= x < rx + (28 + len)) m m1) as C1 by (intros x Hx; apply load8_memcpy_out; lia).
  unfold net_input. rewrite view_len by done. cbn [pk_start pk_end]. rewrite HL, Ok_bind.
  assert (load64 m1 liblinux_eth_ioqueue = q) as -> by (rewrite <- Eq; apply load_ext; intros; apply C1; lia).
  assert (fifo_rep q 24 n m1 xs) as HR1
    by (apply (fifo_rep_ext q n Hq Hn Hfit m); [done|]; intros; apply C1; lia).
  destruct (io_append_spec q n Hq Hn Hfit m1 xs frame IO_OPCODE_COMPLETE a (42 + len) HR1 Hroom) as [(x & HR2 & Hx) C2]; [lia|].
  replace (e - a) with (42 + len) by (unfold e; lia).
  change (io_queue_append m1 frame q IO_OPCODE_COMPLETE) with (io_complete m1 frame q) in *.
  destruct (io_complete m1 frame q a (42 + len)) as [r m2]. cbn [snd] in *.
  exists m2, x. split_and!; [done| |done|done|].
  - transitivity (load_bytes m1 rx (28 + length payload)); [apply load_bytes_ext; intros; apply C2; lia|].
    unfold m1. replace (28 + length payload)%nat with (Z.to_nat (28 + len)) by lia. rewrite load_bytes_memcpy by lia.
    rewrite udp_frame_packet, <- (app_nil_r (udp_packet _ _ _ _ _ _ _)) in HF.
    apply load_bytes_part in HF. rewrite length_udp_packet, (length_eth_header _ _ _ Ld Ls) in HF.
    replace (Z.to_nat (28 + len)) with (28 + length payload)%nat by lia. exact HF.
  - intros y Hy. unfold deliver_area, sk_rx_buffer, sockets_at, sizeof_socket in Hy. rewrite C2 by lia. apply C1. lia.
Qed.
End Deliver.
