(* ===== verification/NetEcho.v ===== *)
(** * The echo server end to end

    A datagram that reaches the network card is delivered to its socket, and
    [echo] of usr/echod/echod.c sends it back to where it came from. *)

From S2P Require Import Prelude Mem RingBuffer Inet ArpCache Net NetProof NetSend NetInput NetUdp.

#[local] Set Default Proof Using "All".

Section Echo.
Context {G : NetGlobals}.
#[local] Existing Instance rfc_headers.
Context (q n i addr buf addrlen : Z).
Context (Hq : 0 < q) (Hn : 0 < n) (Hfit : rb_data q + sizeof_io_cmd * n <= 2 ^ 64).
Context (Hi : 0 <= i < MAX_SOCKETS) (Hsk : 0 < sockets) (Hops : udp_socket_ops <> 0).
Context (Htx : 0 < _tx_buf) (Hcache : 0 < liblinux_arp_cache) (Haddr : 0 < addr) (Hal : addrlen <> 0).

Definition echo_objects : list (Z * Z) :=
  [(_tx_buf, 4096); (frame, 24); (q, queue_size n); (liblinux_arp_cache, sizeof_arp_cache);
   (liblinux_mac_addr, 6); (liblinux_host_ip, 4); (liblinux_eth_ioqueue, 8);
   (sockets, sizeof_socket * MAX_SOCKETS); (addr, sizeof_sockaddr_storage); (buf, maxbuf); (addrlen, 4)].

Context (Hsep : separate echo_objects = true).

Lemma send_separate len : 0 <= len <= maxbuf -> separate (send_objects q n addr buf len) = true.
Proof.
  intros Hl. destruct (separate_app (take 10 echo_objects) (drop 10 echo_objects)) as [H _].
  { by rewrite take_drop. }
  eapply separate_within; [|exact H]. unfold send_objects. cbn [take echo_objects].
  repeat apply Forall2_cons_2; try apply Forall2_nil_2; unfold within, sizeof_sockaddr_in, sizeof_sockaddr_storage; cbn [fst snd]; lia.
Qed.

Lemma recv_separate : separate (recv_objects (sockets_at i) buf maxbuf addr addrlen) = true.
Proof.
  destruct (separate_app (take 7 echo_objects) (drop 7 echo_objects)) as [_ H].
  { by rewrite take_drop. }
  eapply separate_within; [|exact H]. unfold recv_objects. cbn [drop echo_objects].
  unfold MAX_SOCKETS in *.
  repeat apply Forall2_cons_2; try apply Forall2_nil_2;
    unfold within, sockets_at, sizeof_socket, sizeof_sockaddr_in, sizeof_sockaddr_storage; cbn [fst snd]; lia.
Qed.

(** A file descriptor of the table gives its socket. *)
Lemma with_socket_fd m (k : Z -> outcome (Z * mem)) : with_socket m (SOCKET_FD_OFFSET + i) k = k (sockets_at i).
Proof.
  unfold with_socket, socket_lookup_by_fd, SOCKET_FD_OFFSET, MAX_SOCKETS in *.
  destruct (Z.ltb_spec (100 + i) 100); [lia|]. destruct (Z.ltb_spec 8 (100 + i - 100)); [lia|].
  replace (100 + i - 100) with i by lia.
  destruct (Z.eqb_spec (sockets_at i) 0) as [E|]; [|done]. unfold sockets_at, sizeof_socket in E. lia.
Qed.

(** What the receiving half of [echo] writes: its local variables. *)
Definition user_area (x : Z) : Prop :=
  addr <= x < addr + sizeof_sockaddr_storage \/ buf <= x < buf + maxbuf \/ addrlen <= x < addrlen + 4.

Lemma user_disjoint (k : nat) b sz x :
  echo_objects !! k = Some (b, sz) -> (k < 8)%nat -> b <= x < b + sz -> ~ user_area x.
Proof.
  intros Hk Hlt Hx. unfold user_area.
  pose proof (separate_lookup _ k 8 _ _ Hsep Hk eq_refl ltac:(lia)) as H8.
  pose proof (separate_lookup _ k 9 _ _ Hsep Hk eq_refl ltac:(lia)) as H9.
  pose proof (separate_lookup _ k 10 _ _ Hsep Hk eq_refl ltac:(lia)) as H10.
  cbn [fst snd] in *. lia.
Qed.

(** The first half of [echo]: the datagram is in [buf], its sender in [addr]. *)
Lemma echo_receives m saddr daddr sport dport payload c1 c2 :
  is_u32 saddr -> 0 <= sport < 2 ^ 16 -> 0 <= dport < 2 ^ 16 -> Z.of_nat (length payload) <= 1472 ->
  load64 m (sk_ops (sockets_at i)) = udp_socket_ops ->
  load_bytes m (sk_rx_buffer (sockets_at i)) (28 + length payload) = udp_packet saddr daddr sport dport payload c1 c2 ->
  let m1 := store32 (memset m addr 0 (Z.to_nat sizeof_sockaddr_storage)) addrlen sizeof_sockaddr_storage in
  exists m2, recvfrom m1 (SOCKET_FD_OFFSET + i) buf maxbuf MSG_DONTWAIT addr addrlen = Ok (Z.of_nat (length payload), m2) /\
    load_bytes m2 buf (length payload) = payload /\
    load32 m2 (sin_addr addr) = saddr /\ load16 m2 (sin_port addr) = sport /\
    load32 m2 addrlen = sizeof_sockaddr_in /\ changes user_area m m2.
Proof.
  intros Hs Hsp Hdp Hlen Hop HP m1.
  assert (changes user_area m m1) as C1.
  { unfold m1, store32. intros x Hx. unfold user_area in Hx. rewrite load8_store_out by lia.
    apply (memset_same_outside m addr 0 20). unfold sizeof_sockaddr_storage in Hx. lia. }
  assert (forall x, sockets_at i <= x < sockets_at i + sizeof_socket -> load8 m1 x = load8 m x) as Hsk1.
  { intros x Hx. apply C1. apply (user_disjoint 7 sockets (sizeof_socket * MAX_SOCKETS)); [done|lia|].
    unfold sockets_at, sizeof_socket, MAX_SOCKETS in *. lia. }
  unfold recvfrom. rewrite with_socket_fd. unfold socket_recvfrom.
  assert (load64 m1 (sk_ops (sockets_at i)) = udp_socket_ops) as ->.
  { rewrite <- Hop. apply load_ext. unfold sk_ops. intros. apply Hsk1. unfold sizeof_socket. lia. }
  rewrite (proj2 (Z.eqb_neq _ 0) Hops), Z.eqb_refl.
  destruct (udp_recvfrom_spec (sockets_at i) buf maxbuf addr addrlen ltac:(done) ltac:(lia) Hal recv_separate
    m1 MSG_DONTWAIT saddr daddr sport dport payload c1 c2) as (m2 & E & Hb & Ha & Hp & Hl & C2); [done..| | |].
  - rewrite <- HP. apply load_bytes_ext. unfold sk_rx_buffer. intros. apply Hsk1. unfold sizeof_socket. lia.
  - unfold m1. rewrite load32_store32_eq. done.
  - replace (Z.min (Z.of_nat (length payload)) maxbuf) with (Z.of_nat (length payload)) in E, Hb by (unfold maxbuf; lia).
    rewrite Nat2Z.id, firstn_all in Hb. exists m2. split_and!; [done..|].
    eapply changes_trans; [exact C1|]. eapply changes_mono, C2. unfold recv_area, user_area, sizeof_sockaddr_in, sizeof_sockaddr_storage. lia.
Qed.

Lemma echo_spec m M mac xs saddr daddr sport dport payload c1 c2 :
  is_u32 saddr -> saddr <> 0 -> 0 <= sport < 2 ^ 16 -> 0 <= dport < 2 ^ 16 -> Z.of_nat (length payload) <= 1472 ->
  load64 m (sk_ops (sockets_at i)) = udp_socket_ops ->
  load_bytes m (sk_rx_buffer (sockets_at i)) (28 + length payload) = udp_packet saddr daddr sport dport payload c1 c2 ->
  holds liblinux_arp_cache m M -> M !! saddr = Some mac ->
  load64 m liblinux_eth_ioqueue = q -> fifo_rep q 24 n m xs -> Z.of_nat (length xs) < n - 1 ->
  exists m' k1 k2 x, echo m buf addr addrlen (SOCKET_FD_OFFSET + i) = Ok m' /\
    load_bytes m' _tx_buf (42 + length payload) =
      udp_frame mac (load_bytes m liblinux_mac_addr 6) (load32 m liblinux_host_ip) saddr
        (load16 m (sk_local_port (sockets_at i))) sport payload k1 k2 /\
    ipv4_checksum m' (_tx_buf + 14) 20 = Ok 0 /\
    udp_checksum m' (_tx_buf + 34) (8 + Z.of_nat (length payload)) saddr (load32 m liblinux_host_ip) = Ok 0 /\
    fifo_rep q 24 n m' (xs ++ [x]) /\ is_io_cmd x IO_OPCODE_SUBMIT _tx_buf (42 + Z.of_nat (length payload)) /\
    changes (fun x => user_area x \/ send_area q n x) m m'.
Proof.
  intros Hs Hsnz Hsp Hdp Hlen Hop HP HM Hmac Eq HR Hroom.
  destruct (echo_receives m saddr daddr sport dport payload c1 c2) as (m2 & E2 & Hb & Ha & Hp & Hl & C2); [done..|].
  assert (forall (k : nat) b sz, echo_objects !! k = Some (b, sz) -> (k < 8)%nat ->
    forall x, b <= x < b + sz -> load8 m2 x = load8 m x) as Hsame.
  { intros k b sz Hk Hlt x Hx. apply C2. by eapply user_disjoint. }
  assert (forall x, sockets_at i <= x < sockets_at i + sizeof_socket -> load8 m2 x = load8 m x) as Hsk2.
  { intros x Hx. apply (Hsame 7%nat sockets (sizeof_socket * MAX_SOCKETS)); [done|lia|].
    unfold sockets_at, sizeof_socket, MAX_SOCKETS in *. lia. }
  unfold echo. rewrite E2, Ok_bind. destruct (Z.ltb_spec (Z.of_nat (length payload)) 0); [lia|].
  rewrite Hl. unfold sendto. rewrite with_socket_fd. unfold socket_sendto.
  assert (load64 m2 (sk_ops (sockets_at i)) = udp_socket_ops) as ->.
  { rewrite <- Hop. apply load_ext. unfold sk_ops. intros. apply Hsk2. unfold sizeof_socket. lia. }
  rewrite (proj2 (Z.eqb_neq _ 0) Hops), Z.eqb_refl.
  destruct (udp_sendto_spec q n addr buf (Z.of_nat (length payload)) i Hq Hn Hfit Htx Hcache Haddr Hi ltac:(lia) ltac:(lia)
    ltac:(apply send_separate; unfold maxbuf; lia) m2 M mac xs MSG_DONTWAIT) as (m3 & k1 & k2 & x & E3 & HF & V1 & V2 & HR3 & Hx & C3);
    rewrite ?Ha; [| |done| | |done|].
  - apply (holds_ext liblinux_arp_cache Hcache m); [done|]. exact (Hsame 3%nat _ _ eq_refl ltac:(lia)).
  - done.
  - rewrite <- Eq. apply load_ext. exact (Hsame 6%nat _ _ eq_refl ltac:(lia)).
  - apply (fifo_rep_ext q n Hq Hn Hfit m); [done|]. exact (Hsame 2%nat _ _ eq_refl ltac:(lia)).
  - rewrite E3, Ok_bind, Z.eqb_refl. exists m3, k1, k2, x. rewrite Ha in V2.
    assert (load32 m2 liblinux_host_ip = load32 m liblinux_host_ip) as Eip by (apply load_ext; exact (Hsame 5%nat _ _ eq_refl ltac:(lia))).
    rewrite Eip in V2. split_and!; [done| |done|done|done|done|].
    2: { eapply changes_trans; (eapply changes_mono; [|eassumption]); cbn; auto. }
    replace (42 + length payload)%nat with (Z.to_nat (42 + Z.of_nat (length payload))) by lia. rewrite HF.
    unfold sent_frame. rewrite Ha, Hp, Nat2Z.id, Hb, Eip. f_equal.
    + apply load_bytes_ext. exact (Hsame 4%nat _ _ eq_refl ltac:(lia)).
    + apply load_ext. unfold sk_local_port. intros. apply Hsk2. unfold sizeof_socket. lia.
Qed.
End Echo.

(** All objects of the round trip: those of [echo], and the received frame. *)
Definition round_trip_objects {G : NetGlobals} (q n addr buf addrlen a len : Z) : list (Z * Z) :=
  echo_objects q n addr buf addrlen ++ [(a, 42 + len)].

(** A UDP datagram comes back.  The frame of a datagram for a bound port is
    received by [net_input], which reports an event, gives the receive buffer
    back and leaves the packet in the socket; [echo] then builds the frame that
    carries the same payload to the sender's MAC address, IP address and port,
    from the socket's own port, with correct checksums, and queues it. *)
Theorem udp_echo_round_trip (G : NetGlobals) (HH : HostHeaders) (Hrfc : HH = rfc_headers)
    (q n i addr buf addrlen a saddr daddr sport dport c1 c2 : Z) (dmac smac mac payload : list Z)
    (m : mem) (M : gmap Z (list Z)) (xs : list (list Z))
    (Hq : 0 < q) (Hn : 0 < n) (Hfit : rb_data q + sizeof_io_cmd * n <= 2 ^ 64)
    (Hi : 0 <= i < MAX_SOCKETS) (Hsk : 0 < sockets) (Hops : udp_socket_ops <> 0)
    (Htx : 0 < _tx_buf) (Hcache : 0 < liblinux_arp_cache) (Haddr : 0 < addr) (Hal : addrlen <> 0)
    (Hsep : separate (round_trip_objects q n addr buf addrlen a (Z.of_nat (length payload))) = true)
    (Hs : is_u32 saddr) (Hsnz : saddr <> 0) (Hsp : 0 <= sport < 2 ^ 16) (Hdp : 0 <= dport < 2 ^ 16)
    (Hlen : Z.of_nat (length payload) <= 1472) (Ld : length dmac = 6%nat) (Ls : length smac = 6%nat)
    (HF : load_bytes m a (42 + length payload) = udp_frame dmac smac saddr daddr sport dport payload c1 c2)
    (Hop : load64 m (sk_ops (sockets_at i)) = udp_socket_ops) (Hb : bound i m dport)
    (HM : holds liblinux_arp_cache m M) (Hmac : M !! saddr = Some mac)
    (Eq : load64 m liblinux_eth_ioqueue = q) (HR : fifo_rep q 24 n m xs) (Hroom : Z.of_nat (length xs) < n - 2) :
  let len := Z.of_nat (length payload) in
  let host := load32 m liblinux_host_ip in
  exists m1 m2 pk x y k1 k2,
    net_input m (PacketView a (a + 42 + len)) = Ok (true, pk, m1) /\
    echo m1 buf addr addrlen (SOCKET_FD_OFFSET + i) = Ok m2 /\
    load_bytes m2 _tx_buf (42 + length payload) =
      udp_frame mac (load_bytes m liblinux_mac_addr 6) host saddr dport sport payload k1 k2 /\
    ipv4_checksum m2 (_tx_buf + 14) 20 = Ok 0 /\ udp_checksum m2 (_tx_buf + 34) (8 + len) saddr host = Ok 0 /\
    fifo_rep q 24 n m2 (xs ++ [x; y]) /\
    is_io_cmd x IO_OPCODE_COMPLETE a (42 + len) /\ is_io_cmd y IO_OPCODE_SUBMIT _tx_buf (42 + len).
Proof.
  subst HH. intros len host.
  assert (separate (deliver_objects q n a payload) = true) as Hds.
  { eapply separate_sublist, Hsep. unfold round_trip_objects, echo_objects, deliver_objects. cbn [app].
    repeat (apply sublist_skip || apply sublist_cons || apply sublist_nil). }
  destruct (separate_app _ _ Hsep) as [Hes _].
  destruct (net_input_udp q n a i dmac smac payload saddr daddr sport dport c1 c2 Hq Hn Hfit Hi Hsk Hs Hsp Hdp Hlen Ld Ls Hds m xs)
    as (m1 & x & E1 & HP1 & HR1 & Hx & C1); [|done..|lia|].
  { by replace (Z.to_nat (42 + Z.of_nat (length payload))) with (42 + length payload)%nat by lia. }
  assert (forall (k : nat) b sz, echo_objects q n addr buf addrlen !! k = Some (b, sz) -> (3 <= k < 7)%nat ->
    forall z, b <= z < b + sz -> load8 m1 z = load8 m z) as Hsame.
  { intros k b sz Hk Hkr z Hz. apply C1. unfold deliver_area.
    pose proof (separate_lookup _ k 1 _ _ Hes Hk eq_refl ltac:(lia)) as H1.
    pose proof (separate_lookup _ k 2 _ _ Hes Hk eq_refl ltac:(lia)) as H2.
    pose proof (separate_lookup _ k 7 _ _ Hes Hk eq_refl ltac:(lia)) as H7.
    cbn [fst snd] in *. unfold sk_rx_buffer, sockets_at, sizeof_socket, MAX_SOCKETS in *. lia. }
  assert (forall z, sockets_at i <= z < sockets_at i + 10 -> load8 m1 z = load8 m z) as Hsk1.
  { intros z Hz. apply C1. unfold deliver_area. apart Hes 1%nat 7%nat. apart Hes 2%nat 7%nat.
    unfold sk_rx_buffer, sockets_at, sizeof_socket, MAX_SOCKETS in *. lia. }
  destruct (echo_spec q n i addr buf addrlen Hq Hn Hfit Hi Hsk Hops Htx Hcache Haddr Hal Hes m1 M mac (xs ++ [x])
    saddr daddr sport dport payload c1 c2) as (m2 & k1 & k2 & y & E2 & HF2 & V1 & V2 & HR2 & Hy & _);
    [done..| |done| |done| |done| |].
  - rewrite <- Hop. apply load_ext. unfold sk_ops. intros. apply Hsk1. lia.
  - apply (holds_ext liblinux_arp_cache Hcache m); [done|]. exact (Hsame 3%nat _ _ eq_refl ltac:(lia)).
  - rewrite <- Eq. apply load_ext. exact (Hsame 6%nat _ _ eq_refl ltac:(lia)).
  - rewrite length_app. cbn. lia.
  - assert (load32 m1 liblinux_host_ip = host) as Eh by (apply load_ext; exact (Hsame 5%nat _ _ eq_refl ltac:(lia))).
    rewrite Eh in HF2, V2. rewrite <- app_assoc in HR2.
    exists m1, m2, (PacketView (a + 42 + len) (a + 42 + len)), x, y, k1, k2. split_and!; try done.
    rewrite HF2. f_equal; [apply load_bytes_ext; exact (Hsame 4%nat _ _ eq_refl ltac:(lia))|].
    rewrite <- (proj1 Hb). apply load_ext. unfold sk_local_port. intros. apply Hsk1. lia.
Qed.
