(* ===== verification/NetTheorems.v ===== *)
(** * Sending: the property, and a concrete machine for the network theorems *)

From S2P Require Import Prelude Mem RingBuffer Inet ArpCache Net NetProof NetSend NetInput NetUdp NetEcho.

(** [udp_sendto] to an address in the ARP cache returns the length of the
    payload and leaves in the transmit buffer one Ethernet frame: the cached MAC
    address, the host's addresses and the socket's port as source, the
    destination's address and port, lengths in network order, the payload, and
    an IP and a UDP checksum that a receiver accepts; a command to send the
    frame is the last one of the I/O queue. *)
Theorem udp_sendto_frame (G : NetGlobals) (HH : HostHeaders) (Hrfc : HH = rfc_headers)
    (q n dest_addr buf len i flags : Z) (m : mem) (M : gmap Z (list Z)) (mac : list Z) (xs : list (list Z))
    (Hq : 0 < q) (Hn : 0 < n) (Hfit : rb_data q + sizeof_io_cmd * n <= 2 ^ 64)
    (Htx : 0 < _tx_buf) (Hcache : 0 < liblinux_arp_cache) (Hdest : 0 < dest_addr)
    (Hi : 0 <= i < MAX_SOCKETS) (Hlen : 0 <= len) (Hmax : 42 + len < 4096)
    (Hsep : separate (send_objects q n dest_addr buf len) = true)
    (HM : holds liblinux_arp_cache m M) (Hnz : load32 m (sin_addr dest_addr) <> 0)
    (Hmac : M !! load32 m (sin_addr dest_addr) = Some mac)
    (Eq : load64 m liblinux_eth_ioqueue = q) (HR : fifo_rep q 24 n m xs) (Hroom : Z.of_nat (length xs) < n - 1) :
  let dip := load32 m (sin_addr dest_addr) in
  let sip := load32 m liblinux_host_ip in
  exists m' c1 c2 x,
    udp_sendto m (sockets_at i) buf len flags dest_addr sizeof_sockaddr_in = Ok (len, m') /\
    load_bytes m' _tx_buf (Z.to_nat (42 + len)) =
      udp_frame mac (load_bytes m liblinux_mac_addr 6) sip dip (load16 m (sk_local_port (sockets_at i)))
        (load16 m (sin_port dest_addr)) (load_bytes m buf (Z.to_nat len)) c1 c2 /\
    ipv4_checksum m' (_tx_buf + 14) 20 = Ok 0 /\ udp_checksum m' (_tx_buf + 34) (8 + len) dip sip = Ok 0 /\
    fifo_rep q 24 n m' (xs ++ [x]) /\ is_io_cmd x IO_OPCODE_SUBMIT _tx_buf (42 + len).
Proof.
  subst HH. destruct (udp_sendto_spec q n dest_addr buf len i Hq Hn Hfit Htx Hcache Hdest Hi Hlen Hmax Hsep m M mac xs flags)
    as (m' & c1 & c2 & x & ? & ? & ? & ? & ? & ? & _); [done..|]. by exists m', c1, c2, x.
Qed.

Lemma append_too_long m pk buf len :
  0 <= pb_len pk <= 4096 -> 0 <= len < 2 ^ 63 -> pb_capacity pk <= pb_len pk + len ->
  packet_buf_append m pk buf len = Fault AssertFailed.
Proof.
  intros. unfold packet_buf_append, packet_buf_reserve. rewrite u64_small by lia.
  by rewrite (proj2 (Z.ltb_ge _ _)) by lia.
Qed.

(** When it cannot send: an address of the wrong size is refused with
    [EINVAL]; an address without a known MAC address, and a payload that with
    its headers does not fit in less than 4096 bytes, end the process by a
    failed assertion. *)
Theorem udp_sendto_errors (G : NetGlobals) (HH : HostHeaders) (Hrfc : HH = rfc_headers)
    (sk buf len flags dest_addr addrlen : Z) (m : mem) (M : gmap Z (list Z))
    (Htx : 0 < _tx_buf) (Hcache : 0 < liblinux_arp_cache) (Hdest : 0 < dest_addr)
    (HM : holds liblinux_arp_cache m M) (Hnz : load32 m (sin_addr dest_addr) <> 0) :
  (addrlen <> sizeof_sockaddr_in ->
   udp_sendto m sk buf len flags dest_addr addrlen = Ok (-1, store32 m errno EINVAL)) /\
  (M !! load32 m (sin_addr dest_addr) = None ->
   udp_sendto m sk buf len flags dest_addr sizeof_sockaddr_in = Fault AssertFailed) /\
  (4096 <= 42 + len < 2 ^ 63 ->
   udp_sendto m sk buf len flags dest_addr sizeof_sockaddr_in = Fault AssertFailed).
Proof.
  subst HH. pose proof (lookup_spec liblinux_arp_cache Hcache m M _ HM Hnz) as Hl. split_and!.
  - intros Hne. unfold udp_sendto. by rewrite (proj2 (Z.eqb_neq addrlen sizeof_sockaddr_in) Hne).
  - intros HN. rewrite HN in Hl. unfold udp_sendto. rewrite Z.eqb_refl, Hl.
    by rewrite (proj2 (Z.eqb_neq dest_addr 0)) by lia.
  - intros Hlong. unfold udp_sendto. rewrite Z.eqb_refl. rewrite (proj2 (Z.eqb_neq dest_addr 0)) by lia.
    cbn [negb]. destruct (arp_cache_lookup m _ _ =? 0); [done|]. cbn [negb].
    unfold ethhdr_append, iphdr_append, udphdr_append, packet_buf_init. change (@sizeof_udphdr rfc_headers) with 8.
    unfold sizeof_ethhdr, sizeof_iphdr.
    rewrite reserve_ok, Ok_bind by (cbn; lia). cbn [pb_buf pb_len pb_capacity].
    rewrite (proj2 (Z.eqb_neq (_tx_buf + 0) 0)) by lia. rewrite Ok_bind.
    rewrite reserve_ok, Ok_bind by (cbn; lia). cbn [pb_buf pb_len pb_capacity].
    rewrite (proj2 (Z.eqb_neq (_tx_buf + (0 + 14)) 0)) by lia. rewrite Ok_bind.
    rewrite reserve_ok, Ok_bind by (cbn; lia). cbn [pb_buf pb_len pb_capacity].
    rewrite (proj2 (Z.eqb_neq (_tx_buf + (0 + 14 + 20)) 0)) by lia. rewrite Ok_bind.
    rewrite append_too_long by (cbn; lia). done.
Qed.

(** ** A machine with one bound socket and one known neighbour *)

#[local] Instance ex_globals : NetGlobals := {|
  liblinux_arp_cache := 0x10000; liblinux_mac_addr := 0x11000; liblinux_host_ip := 0x11010;
  liblinux_eth_ioqueue := 0x11020; sockets := 0x20000; nr_sockets := 0x11030; udp_socket_ops := 0x11040;
  arp_tx_buf := 0x12000; _tx_buf := 0x13000; ip_stats := 0x11050; net_stats := 0x11058;
  errno := 0x11060; nr_epoll_fds := 0x11064; interest_set := 0x11070; frame := 0x15000;
|}.

Definition ok_or {A} (a : A) (o : outcome A) : A := match o with Ok a' => a' | Fault _ => a end.

(** A queue of three commands at 0x16000; the host is 10.0.2.15; a socket bound
    to port 7777 in network order, by the socket calls. *)
Definition ex_q : Z := 0x16000.
Definition ex_base : mem :=
  let m := snd (ok_or (0, ∅) (atomic_ring_buffer_new ∅ ex_q (192 + 24 * 4) 24)) in
  let m := store64 m liblinux_eth_ioqueue ex_q in
  let m := store_bytes m liblinux_mac_addr [0x52; 0x54; 0; 0x12; 0x34; 0x56] in
  let m := store_bytes m liblinux_host_ip [10; 0; 2; 15] in
  let m := snd (ok_or (0, m) (socket m AF_INET SOCK_DGRAM 0)) in
  let m := store16 m (0x18000 + 4) (htons 7777) in
  let m := snd (ok_or (0, m) (bind m 100 0x18000 12)) in
  (* the MAC address of the neighbour *)
  store_bytes m 0x18200 [0x52; 0x55; 10; 0; 2; 2].

(** 10.0.2.2 *)
Definition ex_peer : Z := 0x0202000a.
Definition ex_mac : list Z := [0x52; 0x55; 10; 0; 2; 2].
Definition ex_net : mem :=
  ok_or ∅ (arp_cache_insert (arp_cache_init ex_base liblinux_arp_cache) liblinux_arp_cache ex_peer 0x18200).

Lemma ex_holds : holds liblinux_arp_cache ex_net {[ex_peer := ex_mac]}.
Proof.
  assert (Hc : 0 < liblinux_arp_cache) by done.
  destruct (insert_spec liblinux_arp_cache Hc (arp_cache_init ex_base liblinux_arp_cache) ∅ ex_peer 0x18200)
    as (m' & E & Hh & _); [by apply init_holds|done|unfold is_u32, ex_peer; lia|right; vm_compute; discriminate|right; vm_compute; lia|].
  unfold ex_net. rewrite E. cbn [ok_or].
  replace (load_bytes (arp_cache_init ex_base liblinux_arp_cache) 98816 6) with ex_mac in Hh by (vm_compute; reflexivity).
  exact Hh.
Defined.

(** Writes outside the cache keep it. *)
Lemma ex_holds_ext m :
  (forall x, 65536 <= x < 67072 -> load8 m x = load8 ex_net x) -> holds liblinux_arp_cache m {[ex_peer := ex_mac]}.
Proof. exact (holds_ext liblinux_arp_cache ltac:(done) ex_net m _ ex_holds). Defined.

Lemma ex_fifo m :
  load64 m (rb_element_size ex_q) = 24 -> load64 m (rb_capacity ex_q) = 96 ->
  load64 m (rb_tail ex_q) = 0 -> load64 m (rb_head ex_q) = 0 -> fifo_rep ex_q 24 4 m [].
Proof. intros H1 H2 H3 H4. exists 0, 0. by split. Defined.

Lemma udp_sendto_frame_witness :
  exists m' c1 c2 x,
    @udp_sendto ex_globals rfc_headers (store_bytes (store32 ex_net 0x18008 ex_peer) 0x30000 [104; 105]) (sockets_at 0)
      0x30000 2 0 0x18000 12 = Ok (2, m') /\
    load_bytes m' _tx_buf 44 =
      udp_frame ex_mac [0x52; 0x54; 0; 0x12; 0x34; 0x56] 0x0f02000a ex_peer (htons 7777) (htons 7777) [104; 105] c1 c2 /\
    ipv4_checksum m' (_tx_buf + 14) 20 = Ok 0 /\ udp_checksum m' (_tx_buf + 34) (8 + 2) ex_peer 0x0f02000a = Ok 0 /\
    fifo_rep ex_q 24 4 m' ([] ++ [x]) /\ is_io_cmd x IO_OPCODE_SUBMIT _tx_buf (42 + 2).
Proof.
  set (m := store_bytes (store32 ex_net 0x18008 ex_peer) 0x30000 [104; 105]).
  assert (HM : holds liblinux_arp_cache m {[ex_peer := ex_mac]}).
  { apply ex_holds_ext. intros x Hx. unfold m, store32. rewrite load8_store_bytes_out by lia. apply load8_store_out. lia. }
  exact (udp_sendto_frame ex_globals rfc_headers eq_refl ex_q 4 0x18000 0x30000 2 0 0 m {[ex_peer := ex_mac]} ex_mac []
    eq_refl eq_refl ltac:(vm_compute; discriminate) eq_refl eq_refl eq_refl ltac:(done) ltac:(done) eq_refl
    ltac:(vm_compute; reflexivity) HM ltac:(vm_compute; discriminate) ltac:(vm_compute; reflexivity)
    ltac:(vm_compute; reflexivity) ltac:(apply ex_fifo; vm_compute; reflexivity) eq_refl).
Defined.

Lemma udp_sendto_errors_witness :
  @udp_sendto ex_globals rfc_headers (store32 ex_net 0x18008 ex_peer) (sockets_at 0) 0x30000 2 0 0x18000 16
    = Ok (-1, store32 (store32 ex_net 0x18008 ex_peer) errno EINVAL) /\
  @udp_sendto ex_globals rfc_headers (store32 ex_net 0x18008 ex_peer) (sockets_at 0) 0x30000 4054 0 0x18000 12
    = Fault AssertFailed.
Proof.
  set (m := store32 ex_net 0x18008 ex_peer).
  assert (HM : holds liblinux_arp_cache m {[ex_peer := ex_mac]}).
  { apply ex_holds_ext. intros x Hx. apply load8_store_out. lia. }
  split.
  - apply (udp_sendto_errors ex_globals rfc_headers eq_refl (sockets_at 0) 0x30000 2 0 0x18000 16 m {[ex_peer := ex_mac]}
      eq_refl eq_refl eq_refl HM ltac:(vm_compute; discriminate)). done.
  - apply (udp_sendto_errors ex_globals rfc_headers eq_refl (sockets_at 0) 0x30000 4054 0 0x18000 12 m {[ex_peer := ex_mac]}
      eq_refl eq_refl eq_refl HM ltac:(vm_compute; discriminate)). lia.
Defined.

(** Four bytes that are no frame are consumed and dropped. *)
Lemma net_input_consumes_witness :
  match @net_input ex_globals rfc_headers ex_net (PacketView 0x19000 0x19004) with
  | Ok (_, pk', m') => pk_start pk' = 0x19004 /\ pk_end pk' = 0x19004 /\
      exists m1, m' = snd (io_complete m1 frame (load64 m1 liblinux_eth_ioqueue) 0x19000 (0x19004 - 0x19000))
  | Fault f => f = AssertFailed \/ f = NullDeref
  end.
Proof. exact (net_input_consumes ex_globals rfc_headers ex_net (PacketView 0x19000 0x19004) ltac:(unfold view_ok; cbn; lia)). Defined.

(** A request from 10.0.2.3 at 0x19000. *)
Definition ex_arp : mem :=
  store_bytes ex_net 0x19000 ([0; 1; 8; 0; 6; 4; 0; 1] ++ [0x52; 0x55; 10; 0; 2; 3] ++ [10; 0; 2; 3]).

Lemma ex_arp_holds : holds liblinux_arp_cache ex_arp {[ex_peer := ex_mac]}.
Proof. apply ex_holds_ext. intros x Hx. apply load8_store_bytes_out. lia. Defined.

Lemma arp_request_answered_witness :
  exists m' x, @arp_input ex_globals rfc_headers ex_arp (PacketView 0x19000 0x1901c) = Ok m' /\
    load_bytes m' arp_tx_buf 42 =
      arp_reply_frame [0x52; 0x55; 10; 0; 2; 3] [0x52; 0x54; 0; 0x12; 0x34; 0x56] 0x0f02000a 0x0302000a /\
    holds liblinux_arp_cache m' (<[0x0302000a := [0x52; 0x55; 10; 0; 2; 3]]> {[ex_peer := ex_mac]}) /\
    fifo_rep ex_q 24 4 m' ([] ++ [x]) /\ is_io_cmd x IO_OPCODE_SUBMIT arp_tx_buf 42.
Proof.
  exact (arp_request_answered ex_globals rfc_headers eq_refl ex_q 4 ex_arp {[ex_peer := ex_mac]} [] (PacketView 0x19000 0x1901c)
    eq_refl eq_refl ltac:(vm_compute; discriminate) eq_refl ltac:(vm_compute; reflexivity) ltac:(vm_compute; reflexivity)
    ltac:(vm_compute; discriminate) ex_arp_holds ltac:(right; vm_compute; lia) ltac:(vm_compute; reflexivity)
    ltac:(apply ex_fifo; vm_compute; reflexivity) eq_refl).
Defined.

(** "hi" from 10.0.2.2, port 5555, to port 7777, received at 0x19000. *)
Definition ex_frame : list Z :=
  udp_frame [0x52; 0x54; 0; 0x12; 0x34; 0x56] ex_mac ex_peer 0x0f02000a (htons 5555) (htons 7777) [104; 105] 0 0.
Definition ex_rx : mem := store_bytes ex_net 0x19000 ex_frame.

Lemma ex_rx_holds : holds liblinux_arp_cache ex_rx {[ex_peer := ex_mac]}.
Proof. apply ex_holds_ext. intros x Hx. apply load8_store_bytes_out. lia. Defined.

Lemma udp_echo_round_trip_witness :
  exists m1 m2 pk x y k1 k2,
    @net_input ex_globals rfc_headers ex_rx (PacketView 0x19000 (0x19000 + 42 + 2)) = Ok (true, pk, m1) /\
    @echo ex_globals rfc_headers m1 0x30000 0x18000 0x18100 100 = Ok m2 /\
    load_bytes m2 _tx_buf 44 =
      udp_frame ex_mac [0x52; 0x54; 0; 0x12; 0x34; 0x56] 0x0f02000a ex_peer (htons 7777) (htons 5555) [104; 105] k1 k2 /\
    ipv4_checksum m2 (_tx_buf + 14) 20 = Ok 0 /\ udp_checksum m2 (_tx_buf + 34) (8 + 2) ex_peer 0x0f02000a = Ok 0 /\
    fifo_rep ex_q 24 4 m2 ([] ++ [x; y]) /\
    is_io_cmd x IO_OPCODE_COMPLETE 0x19000 (42 + 2) /\ is_io_cmd y IO_OPCODE_SUBMIT _tx_buf (42 + 2).
Proof.
  exact (udp_echo_round_trip ex_globals rfc_headers eq_refl ex_q 4 0 0x18000 0x30000 0x18100 0x19000 ex_peer 0x0f02000a
    (htons 5555) (htons 7777) 0 0 [0x52; 0x54; 0; 0x12; 0x34; 0x56] ex_mac ex_mac [104; 105] ex_rx {[ex_peer := ex_mac]} []
    eq_refl eq_refl ltac:(vm_compute; discriminate) ltac:(done) eq_refl ltac:(done) eq_refl eq_refl eq_refl ltac:(done)
    ltac:(vm_compute; reflexivity) ltac:(unfold is_u32, ex_peer; lia) ltac:(done) ltac:(vm_compute; split; congruence)
    ltac:(vm_compute; split; congruence) ltac:(cbn; lia) eq_refl eq_refl ltac:(vm_compute; reflexivity) ltac:(vm_compute; reflexivity)
    ltac:(split; [vm_compute; reflexivity|lia]) ex_rx_holds ltac:(vm_compute; reflexivity)
    ltac:(vm_compute; reflexivity) ltac:(apply ex_fifo; vm_compute; reflexivity) eq_refl).
Defined.

(** ** What remote input can do *)

(** The machine after receiving a datagram of [payload] for [port], whose UDP
    header says [ulen]. *)
Definition ex_receive (port ulen : Z) (payload : list Z) : outcome (bool * packet_view * mem) :=
  let len := Z.of_nat (length payload) in
  let bytes := eth_header [0x52; 0x54; 0; 0x12; 0x34; 0x56] ex_mac ETH_P_IP ++
    ip_header (28 + len) IPPROTO_UDP 0 ex_peer 0x0f02000a ++ udp_header (htons 5555) (htons port) ulen 0 ++ payload in
  @net_input ex_globals rfc_headers (store_bytes ex_net 0x40000 bytes) (PacketView 0x40000 (0x40000 + 42 + len)).

Definition rx_ops (r : outcome (bool * packet_view * mem)) (i : Z) : outcome Z :=
  '(_, _, m) ← r; Ok (load64 m (sk_ops (sockets_at i))).

