(* ===== verification/Echod.v ===== *)
(** * The echo server

    [main] of usr/echod/echod.c on the socket calls and [epoll_wait] of the C
    library, and the start of a process, [__liblinux_setup] of
    usr/liblinux/src/internal/setup.c.  The system calls are arguments: a result
    and the memory that the kernel leaves.  Local variables are addresses. *)

From Stdlib Require Import Strings.String.
From S2P Require Import Prelude Mem RingBuffer Printf PrintfProof Stdio LibcString Malloc Inet ArpCache Net NetProof NetSend NetInput NetUdp NetEcho NetTheorems.
#[local] Open Scope Z_scope.

Module Echod.

Definition DEFAULT_PORT : Z := 7777.
Definition EPOLLHUP : Z := 0x0010.
Definition EPOLL_CTL_ADD : Z := 1.
Definition INADDR_ANY : Z := 0.
Definition maxevents : Z := 64.

(** [data.fd] of a [struct epoll_event]. *)
Definition ev_fd (p : Z) : Z := p + 4.

(** The addresses of the local variables of [vfprintf], [main] and [echo]. *)
Record locals := {
  l_text : Z;
  l_addr : Z;
  l_ev : Z;
  l_events : Z;
  l_buf : Z;
  l_src : Z;
  l_srclen : Z;
}.

(** [wait] and [getevents] of one round. *)
Record kernel := {
  k_wait : mem -> Z * mem;
  k_getevents : mem -> Z * Z * mem;
}.

Definition ENOSYS : Z := 38.

Definition strerror (errnum : Z) : string :=
  if errnum =? EBADF then "Bad file descriptor"
  else if errnum =? EINVAL then "Invalid argument"
  else if errnum =? EMFILE then "Too many open files"
  else if errnum =? ENOSYS then "Invalid system call number"
  else "Unknown error".

(** The process goes on, or has left with a status. *)
Inductive run (C A : Type) :=
  | Goes (a : A)
  | Exits (status : Z) (m : mem) (con : C).
Arguments Goes {C A} a.
Arguments Exits {C A} status m con.

Section Server.
Context {G : NetGlobals} {HH : HostHeaders} {C : Type} (console_print : list Z -> C -> C) (L : locals).

Definition exit {A} (status : Z) (m : mem) (con : C) : outcome (run C A) := Ok (Exits status m con).
Definition abort {A} (m : mem) (con : C) : outcome (run C A) := exit 1 m con.

Definition die {A} (msg : string) (m : mem) (con : C) : outcome (run C A) :=
  '(m, con) ← Stdio.fprintf console_print (l_text L) m (cstr "error: %s: %s
") [VStr (Some (cstr msg)); VStr (Some (cstr (strerror (s32 (load32 m errno)))))] con;
  abort m con.

(** [echo], where [Net.echo] has a fault for [die]. *)
Definition echo_or_die (m : mem) (con : C) (sockfd : Z) : outcome (run C (mem * C)) :=
  let addr := l_src L in
  let addrlen := l_srclen L in
  let m := memset m addr 0 (Z.to_nat sizeof_sockaddr_storage) in
  let m := store32 m addrlen sizeof_sockaddr_storage in
  '(nr, m) ← recvfrom m sockfd (l_buf L) maxbuf MSG_DONTWAIT addr addrlen;
  if nr <? 0 then die "recv" m con else
  '(sent, m) ← sendto m sockfd (l_buf L) nr MSG_DONTWAIT addr (load32 m addrlen);
  if negb (sent =? nr) then die "send" m con else Ok (Goes (m, con)).

(** [main] before its loop: the socket and the epoll instance. *)
Definition start (m : mem) (con : C) : outcome (run C (Z * Z * mem * C)) :=
  '(m, con) ← Stdio.fprintf console_print (l_text L) m (cstr "Echo server listening to port %d ...
") [VInt DEFAULT_PORT] con;
  '(sockfd, m) ← socket m AF_INET SOCK_DGRAM 0;
  if sockfd <? 0 then die "socket" m con else
  let addr := l_addr L in
  let m := memset m addr 0 (Z.to_nat sizeof_sockaddr_in) in
  let m := store32 m (sin_family addr) AF_INET in
  let m := store16 m (sin_port addr) (htons DEFAULT_PORT) in
  let m := store32 m (sin_addr addr) INADDR_ANY in
  '(ret, m) ← bind m sockfd addr sizeof_sockaddr_in;
  if ret <? 0 then die "bind" m con else
  '(efd, m) ← epoll_create1 m 0;
  if efd <? 0 then die "epoll_create1" m con else
  let ev := l_ev L in
  let m := memset m ev 0 (Z.to_nat sizeof_epoll_event) in
  let m := store32 m (ev_events ev) (Z.lor EPOLLIN EPOLLHUP) in
  let m := store32 m (ev_fd ev) sockfd in
  '(ret, m) ← epoll_ctl m efd EPOLL_CTL_ADD sockfd ev;
  if ret <? 0 then die "epoll_ctl" m con else Ok (Goes (sockfd, efd, m, con)).

(** [for (int i = 0; i < nr; i++)], [n] rounds of it left. *)
Fixpoint serve (n : nat) (i : Z) (m : mem) (con : C) : outcome (run C (mem * C)) :=
  match n with
  | O => Ok (Goes (m, con))
  | S n =>
      let ev := l_events L + sizeof_epoll_event * i in
      r ← echo_or_die m con (s32 (load32 m (ev_fd ev)));
      match r with
      | Goes (m, con) => serve n (i + 1) m con
      | Exits status m con => Ok (Exits status m con)
      end
  end.

(** One round of the loop.  [fuel] bounds the events of the queue. *)
Definition round (K : kernel) (fuel : nat) (efd : Z) (m : mem) (con : C) : outcome (run C (mem * C)) :=
  '(nr, m) ← epoll_wait (k_wait K) (k_getevents K) fuel m efd (l_events L) maxevents (-1);
  if nr <? 0 then die "epoll_wait" m con else serve (Z.to_nat nr) 0 m con.

(** The loop, for as many rounds as the kernel answers. *)
Fixpoint loop (Ks : list kernel) (fuel : nat) (efd : Z) (m : mem) (con : C) : outcome (run C (mem * C)) :=
  match Ks with
  | [] => Ok (Goes (m, con))
  | K :: Ks =>
      r ← round K fuel efd m con;
      match r with
      | Goes (m, con) => loop Ks fuel efd m con
      | Exits status m con => Ok (Exits status m con)
      end
  end.

Definition main (Ks : list kernel) (fuel : nat) (m : mem) (con : C) : outcome (run C (mem * C)) :=
  r ← start m con;
  match r with
  | Goes (_, efd, m, con) => loop Ks fuel efd m con
  | Exits status m con => Ok (Exits status m con)
  end.

End Server.

(** ** The start of a process *)

Definition CONFIG_ETHERNET_MAC_ADDRESS : Z := 0.
Definition CONFIG_IO_QUEUE : Z := 1.
Definition HOST_IP_ADDR : string := "10.0.2.15".

Section Setup.
Context {G : NetGlobals} {C : Type} (console_print : list Z -> C -> C) (text malloc_default_heap malloc_page_empty : Z).
(** The system calls. *)
Context (acquire : list Z -> Z -> mem -> Z * mem) (get_config : Z -> Z -> Z -> Z -> mem -> Z * mem).

(** A byte of the address as the [char] that is passed to [fprintf]. *)
Definition mac_arg (m : mem) (i : Z) : va_arg := VInt (Libc.s8 (load8 m (liblinux_mac_addr + i))).

Definition liblinux_setup (m : mem) (con : C) : outcome (mem * C) :=
  let '(eth_desc, m) := acquire (bytes_of "/dev/eth") 0 m in
  assert! (negb (eth_desc <? 0)) ;;
  let '(_, m) := get_config eth_desc CONFIG_IO_QUEUE liblinux_eth_ioqueue 8 m in
  let '(_, m) := get_config eth_desc CONFIG_ETHERNET_MAC_ADDRESS liblinux_mac_addr ETH_ALEN m in
  '(m, con) ← Stdio.fprintf console_print text m (cstr "MAC address = %02x:%02x:%02x:%02x:%02x:%02x
") (map (mac_arg m) (seqZ 0 6)) con;
  ip ← inet_addr (cstr HOST_IP_ADDR);
  let m := store32 m liblinux_host_ip ip in
  '(m, con) ← Stdio.fprintf console_print text m (cstr "IP address = %s
") [VStr (Some (cstr HOST_IP_ADDR))] con;
  let m := arp_cache_init m liblinux_arp_cache in
  Ok (__liblinux_malloc_init malloc_default_heap malloc_page_empty m, con).

End Setup.

End Echod.

(** ** Words of blocks *)

(** A word of a copied object. *)
Lemma load_memcpy_in n m d s k off :
  (off + n <= k)%nat -> d + Z.of_nat k <= s \/ s + Z.of_nat k <= d ->
  load n (memcpy m d s k) (d + Z.of_nat off) = load n m (s + Z.of_nat off).
Proof.
  intros Hk Hd. pose proof (load_bytes_memcpy m d s k Hd) as Hc. rewrite !load_join. f_equal.
  replace k with (off + (n + (k - off - n)))%nat in Hc at 2 3 by lia. rewrite !load_bytes_app in Hc.
  apply app_inj_1 in Hc as [_ Hc]; [|by rewrite !length_load_bytes]. apply app_inj_1 in Hc as [Hc _]; [done|by rewrite !length_load_bytes].
Qed.

Lemma load_memset_ne n m a v k b :
  b + Z.of_nat n <= a \/ a + Z.of_nat k <= b -> load n (memset m a v k) b = load n m b.
Proof. intros Hd. apply load_ext. intros x Hx. apply (memset_same_outside m a v k). lia. Qed.

Lemma load_memcpy_ne n m d s k b :
  b + Z.of_nat n <= d \/ d + Z.of_nat k <= b -> load n (memcpy m d s k) b = load n m b.
Proof. intros Hd. apply load_ext. intros x Hx. apply load8_memcpy_out. lia. Qed.

Lemma changes_memset (P : Z -> Prop) m a v k : (forall x, a <= x < a + Z.of_nat k -> P x) -> changes P m (memset m a v k).
Proof.
  intros HP x Hx. apply (memset_same_outside m a v k).
  destruct (decide (a <= x < a + Z.of_nat k)); [exfalso; auto|lia].
Qed.

Lemma changes_memcpy (P : Z -> Prop) m d s k : (forall x, d <= x < d + Z.of_nat k -> P x) -> changes P m (memcpy m d s k).
Proof.
  intros HP x Hx. apply load8_memcpy_out. destruct (decide (d <= x < d + Z.of_nat k)); [exfalso; auto|lia].
Qed.

(** ** The server gets ready *)

Section Start.
Context {G : NetGlobals} {HH : HostHeaders} {C : Type} (cp : list Z -> C -> C) (L : Echod.locals).

Definition start_objects : list (Z * Z) :=
  [(Echod.l_text L, Stdio.text_size); (Echod.l_addr L, sizeof_sockaddr_in); (Echod.l_ev L, sizeof_epoll_event);
   (nr_sockets, 8); (nr_epoll_fds, 4); (interest_set, sizeof_epoll_event); (sockets, sizeof_socket * MAX_SOCKETS)].

(** What the loop relies on: the socket, its port and the event to report. *)
Definition serving (m : mem) : Prop :=
  load64 m (sk_ops (sockets_at 0)) = udp_socket_ops /\ load16 m (sk_local_port (sockets_at 0)) = htons Echod.DEFAULT_PORT /\
  load32 m (Echod.ev_fd interest_set) = SOCKET_FD_OFFSET.

Definition start_area (x : Z) : Prop := exists (k : nat) b sz, start_objects !! k = Some (b, sz) /\ b <= x < b + sz.

Lemma start_area_in (k : nat) b sz : start_objects !! k = Some (b, sz) -> forall x, b <= x < b + sz -> start_area x.
Proof. intros Hk x Hx. by exists k, b, sz. Qed.

(** The first socket of the process, bound to the port. *)
Lemma bind_spec m :
  separate start_objects = true -> 0 < Echod.l_addr L -> 0 < sockets -> 0 < udp_socket_ops < 2 ^ 64 -> load64 m nr_sockets = 0 ->
  let addr := Echod.l_addr L in
  exists m1 m2, socket m AF_INET SOCK_DGRAM 0 = Ok (SOCKET_FD_OFFSET, m1) /\
    bind (store32 (store16 (store32 (memset m1 addr 0 (Z.to_nat sizeof_sockaddr_in)) (sin_family addr) AF_INET) (sin_port addr)
      (htons Echod.DEFAULT_PORT)) (sin_addr addr) Echod.INADDR_ANY) SOCKET_FD_OFFSET addr sizeof_sockaddr_in = Ok (0, m2) /\
    load64 m2 (sk_ops (sockets_at 0)) = udp_socket_ops /\ load16 m2 (sk_local_port (sockets_at 0)) = htons Echod.DEFAULT_PORT /\
    load32 m2 nr_epoll_fds = load32 m nr_epoll_fds /\ changes start_area m m2.
Proof.
  intros Hsep Ha Hsk Hops Hn. pose proof (start_area_in 1 _ _ eq_refl) as A1. pose proof (start_area_in 3 _ _ eq_refl) as A3.
  pose proof (start_area_in 6 _ _ eq_refl) as A6. apart Hsep 1%nat 4%nat. apart Hsep 1%nat 6%nat. apart Hsep 3%nat 4%nat. apart Hsep 3%nat 6%nat.
  apart Hsep 4%nat 6%nat. unfold sizeof_socket, MAX_SOCKETS, sizeof_sockaddr_in in *. cbv zeta. set (addr := Echod.l_addr L) in *. clearbody addr.
  unfold socket, socket_alloc. rewrite Hn. change (MAX_SOCKETS <=? 0) with false.
  change (find_socket_ops AF_INET SOCK_DGRAM 0) with udp_socket_ops. cbv iota. rewrite (proj2 (Z.eqb_neq udp_socket_ops 0)) by lia.
  eexists _, _. split; [reflexivity|]. unfold bind, with_socket, socket_lookup_by_fd.
  change (SOCKET_FD_OFFSET <? SOCKET_FD_OFFSET) with false. change (MAX_SOCKETS <? SOCKET_FD_OFFSET - SOCKET_FD_OFFSET) with false.
  change (SOCKET_FD_OFFSET - SOCKET_FD_OFFSET) with 0. cbv iota zeta.
  assert (sockets_at 0 = sockets) as Hat by (unfold sockets_at; lia). rewrite Hat, (proj2 (Z.eqb_neq sockets 0)) by lia.
  unfold socket_bind. rewrite Z.eqb_refl. cbn [negb]. rewrite (proj2 (Z.eqb_neq addr 0)) by lia.
  split; [reflexivity|].
  unfold sk_ops, sk_local_port, sin_family, sin_port, sin_addr in *. split_and!.
  - mem_simpl. rewrite load_memset_ne by lia. mem_simpl. rewrite Z.mod_small by lia. done.
  - mem_simpl. reflexivity.
  - mem_simpl. rewrite load_memset_ne by lia. by mem_simpl.
  - unfold store64, store32, store16.
    repeat (first [apply changes_refl | eapply changes_trans; [|apply changes_store; intros; solve [apply A1; lia | apply A3; lia | apply A6; lia]]
      | eapply changes_trans; [|apply changes_memset; intros; apply A1; lia]]).
Qed.

Lemma start_spec m con :
  separate start_objects = true -> 0 < Echod.l_addr L -> 0 < Echod.l_ev L -> 0 < sockets -> 0 < udp_socket_ops < 2 ^ 64 ->
  load64 m nr_sockets = 0 -> load32 m nr_epoll_fds = 0 ->
  exists m', Echod.start cp L m con =
      Ok (Echod.Goes (SOCKET_FD_OFFSET, EPOLL_FD, m', cp (bytes_of "Echo server listening to port 7777 ...
") con)) /\ serving m' /\ changes start_area m m'.
Proof.
  intros Hsep Ha He Hsk Hops Hn Hef. unfold Echod.start.
  destruct (stdio_printf_prints cp (Echod.l_text L) m (cstr "Echo server listening to port %d ...
") [VInt Echod.DEFAULT_PORT] con (bytes_of "Echo server listening to port 7777 ...
")) as (m1 & Hp & Hs1 & _); [reflexivity|vm_compute; reflexivity|].
  change (Stdio.printf cp (Echod.l_text L) m) with (Stdio.vfprintf cp (Echod.l_text L) m) in Hp.
  unfold Stdio.fprintf. rewrite Hp, !Ok_bind. specialize (Hs1 ltac:(vm_compute; reflexivity)). clear Hp. change Stdio.text_size with 1024 in Hs1.
  assert (changes start_area m m1) as C1.
  { intros x Hx. apply Hs1. destruct (decide (Echod.l_text L <= x < Echod.l_text L + 1024)); [|lia].
    destruct Hx. by apply (start_area_in 0 _ _ eq_refl). }
  pose proof (start_area_in 2 _ _ eq_refl) as A2. pose proof (start_area_in 4 _ _ eq_refl) as A4. pose proof (start_area_in 5 _ _ eq_refl) as A5.
  apart Hsep 0%nat 3%nat. apart Hsep 0%nat 4%nat. apart Hsep 2%nat 5%nat. apart Hsep 2%nat 6%nat. apart Hsep 4%nat 6%nat. apart Hsep 5%nat 6%nat.
  unfold Stdio.text_size in *.
  destruct (bind_spec m1) as (m2 & m3 & E2 & E3 & Hop & Hport & Hepoll & C3); [done..|rewrite <- Hn; apply load_ext; intros; apply Hs1; lia|].
  rewrite E2, Ok_bind. change (SOCKET_FD_OFFSET <? 0) with false. cbv iota. rewrite E3, Ok_bind. change (0 <? 0) with false. cbv iota.
  assert (load32 m3 nr_epoll_fds = 0) as He3 by (rewrite Hepoll, <- Hef; apply load_ext; intros; apply Hs1; lia).
  unfold epoll_create1, do_epoll_create. rewrite He3. change (s32 0) with 0. change (negb (0 =? 0)) with false. change (0 <? 0) with false.
  cbv iota zeta. rewrite Ok_bind. change (EPOLL_FD <? 0) with false. cbv iota.
  unfold epoll_ctl. change (negb (EPOLL_FD =? EPOLL_FD)) with false. cbv iota. set (ev := Echod.l_ev L) in *. clearbody ev.
  rewrite (proj2 (Z.eqb_neq ev 0)) by lia. rewrite Ok_bind. change (0 <? 0) with false. cbv iota.
  eexists. split; [reflexivity|]. unfold serving, ev_events, Echod.ev_fd, sizeof_epoll_event, sizeof_socket, MAX_SOCKETS in *.
  change (Z.to_nat 12) with 12%nat in *.
  assert (sockets_at 0 = sockets) as Hat by (unfold sockets_at; lia). rewrite Hat in *. unfold sk_ops, sk_local_port in *.
  split_and!.
  - rewrite <- Hop. unfold load64. rewrite load_memcpy_ne by lia.
    unfold store32. rewrite !load_store_ne, load_memset_ne by lia. apply load_store_ne. lia.
  - rewrite <- Hport. unfold load16. rewrite load_memcpy_ne by lia.
    unfold store32. rewrite !load_store_ne, load_memset_ne by lia. apply load_store_ne. lia.
  - unfold load32. rewrite (load_memcpy_in 4 _ interest_set ev 12 4) by lia. unfold store32. by rewrite load_store_eq.
  - eapply changes_trans; [exact C1|]. eapply changes_trans; [exact C3|]. unfold store32.
    eapply changes_trans; [|apply changes_memcpy; intros; apply A5; lia].
    eapply changes_trans; [|apply changes_store; intros; apply A2; lia]. eapply changes_trans; [|apply changes_store; intros; apply A2; lia].
    eapply changes_trans; [|apply changes_memset; intros; apply A2; lia]. apply changes_store; intros; apply A4; lia.
Qed.
End Start.

(** ** A round of the loop *)

Lemma echo_goes {G : NetGlobals} {HH : HostHeaders} {C : Type} (cp : list Z -> C -> C) (L : Echod.locals) m m' con fd :
  echo m (Echod.l_buf L) (Echod.l_src L) (Echod.l_srclen L) fd = Ok m' -> Echod.echo_or_die cp L m con fd = Ok (Echod.Goes (m', con)).
Proof.
  unfold echo, Echod.echo_or_die. destruct (recvfrom _ _ _ _ _ _ _) as [[nr m1]|f]; [|done]. rewrite !Ok_bind.
  destruct (nr <? 0); [done|]. destruct (sendto _ _ _ _ _ _ _) as [[sent m2]|f]; [|done]. rewrite !Ok_bind.
  destruct (negb _); [done|]. by intros [= ->].
Qed.

Section Round.
Context {G : NetGlobals} (L : Echod.locals).
#[local] Existing Instance rfc_headers.
Context (q n eq ne a : Z) (dmac smac payload : list Z) (saddr daddr sport c1 c2 : Z).
Context (Hq : 0 < q) (Hn : 0 < n) (Hfit : rb_data q + sizeof_io_cmd * n <= 2 ^ 64).
Context (Heq : 0 < eq) (Hne : 0 < ne) (Hefit : rb_data eq + sizeof_io_cmd * ne <= 2 ^ 64).
Context (Hsk : 0 < sockets) (Ha : 0 <= a < 2 ^ 48).
Context (Hs : is_u32 saddr) (Hsp : 0 <= sport < 2 ^ 16) (Hlen : Z.of_nat (length payload) <= 1472).

Notation len := (Z.of_nat (length payload)).
Notation events := (Echod.l_events L).
Notation dport := (htons Echod.DEFAULT_PORT).

(** The objects of a round: those of the round trip of a datagram, the queue
    of events and the events of [epoll_wait]. *)
Definition server_objects : list (Z * Z) :=
  round_trip_objects q n (Echod.l_src L) (Echod.l_buf L) (Echod.l_srclen L) a len ++
  [(eq, queue_size ne); (events, sizeof_epoll_event * Echod.maxevents); (interest_set, sizeof_epoll_event)].

Context (Hsep : separate server_objects = true).

(** The event of a received packet. *)
Definition packet_event : list Z := le_split 8 EVENT_PACKET_RX ++ le_split 8 a ++ le_split 8 (42 + len).

(** What [epoll_wait] writes. *)
Definition epoll_area (x : Z) : Prop :=
  deliver_area q n 0 payload x \/ events <= x < events + sizeof_epoll_event \/ eq <= x < eq + queue_size ne.

Lemma dport_range : 0 <= dport < 2 ^ 16.
Proof. by vm_compute. Qed.

Lemma deliver_separate : separate (deliver_objects q n a payload) = true.
Proof.
  eapply separate_sublist, Hsep. unfold server_objects, round_trip_objects, echo_objects, deliver_objects. cbn [app].
  repeat (apply sublist_skip || apply sublist_cons || apply sublist_nil).
Qed.

(** The event of the queue names the packet. *)
Lemma packet_event_fields m p : load_bytes m p 24 = packet_event ->
  load64 m (event_type p) = EVENT_PACKET_RX /\ load64 m (event_addr p) = a /\ load64 m (event_len p) = 42 + len.
Proof.
  intros HE. unfold packet_event in HE. split_and!.
  - apply (load_field m p 24 [] 8 EVENT_PACKET_RX) in HE. rewrite Z.add_0_r in HE. exact HE.
  - apply (load_field m p 24 (le_split 8 EVENT_PACKET_RX) 8 a) in HE. rewrite length_le_split in HE.
    unfold event_addr. change (p + 8) with (p + Z.of_nat 8). unfold load64. rewrite HE. apply Z.mod_small. lia.
  - rewrite app_assoc, <- (app_nil_r (le_split 8 (42 + len))) in HE. apply load_field in HE.
    rewrite length_app, !length_le_split in HE. unfold event_len. change (p + 16) with (p + Z.of_nat (8 + 8)).
    unfold load64. rewrite HE. apply Z.mod_small. lia.
Qed.

(** Objects of the server do not overlap. *)
Lemma object_out (i j : nat) b sz b' sz' z :
  server_objects !! i = Some (b, sz) -> server_objects !! j = Some (b', sz') -> i <> j -> b <= z < b + sz -> ~ (b' <= z < b' + sz').
Proof using Hsep.
  intros Hi Hj Hij Hz Hz'. pose proof (separate_lookup _ i j _ _ Hsep Hi Hj Hij) as Hd. cbn [fst snd] in Hd. lia.
Qed.

Lemma serving_ext m m' :
  (forall z, sockets <= z < sockets + 10 \/ interest_set <= z < interest_set + 12 -> load8 m' z = load8 m z) -> serving m -> serving m'.
Proof.
  intros Hx (H1 & H2 & H3). unfold serving, sk_ops, sk_local_port, sockets_at, Echod.ev_fd in *.
  split_and!; [rewrite <- H1|rewrite <- H2|rewrite <- H3]; apply load_ext; intros z Hz; apply Hx; lia.
Qed.

(** What [epoll_wait] leaves alone. *)
Lemma epoll_keeps m m' : changes epoll_area m m' ->
  (forall (k : nat) b sz, server_objects !! k = Some (b, sz) -> (3 <= k < 7 \/ k = 14)%nat -> forall z, b <= z < b + sz -> load8 m' z = load8 m z) /\
  (serving m -> serving m').
Proof using Hsep Hlen.
  intros Hc.
  assert (forall (k : nat) b sz, server_objects !! k = Some (b, sz) -> (3 <= k < 7 \/ k = 14)%nat -> forall z, b <= z < b + sz -> load8 m' z = load8 m z) as Ho.
  { intros k b sz Hk Hkr z Hz. apply Hc. unfold epoll_area, deliver_area.
    pose proof (object_out k 1 _ _ _ _ z Hk eq_refl ltac:(lia) Hz). pose proof (object_out k 2 _ _ _ _ z Hk eq_refl ltac:(lia) Hz).
    pose proof (object_out k 7 _ _ _ _ z Hk eq_refl ltac:(lia) Hz). pose proof (object_out k 12 _ _ _ _ z Hk eq_refl ltac:(lia) Hz).
    pose proof (object_out k 13 _ _ _ _ z Hk eq_refl ltac:(lia) Hz).
    unfold sk_rx_buffer, sockets_at, sizeof_socket, MAX_SOCKETS, sizeof_epoll_event, Echod.maxevents in *. lia. }
  split; [exact Ho|]. apply serving_ext. intros z [Hz|Hz]; [|by apply (Ho 14%nat _ _ eq_refl); [lia|]].
  assert (sockets <= z < sockets + sizeof_socket * MAX_SOCKETS) as Hz' by (unfold sizeof_socket, MAX_SOCKETS; lia).
  pose proof (object_out 7 1 _ _ _ _ z eq_refl eq_refl ltac:(lia) Hz'). pose proof (object_out 7 2 _ _ _ _ z eq_refl eq_refl ltac:(lia) Hz').
  pose proof (object_out 7 12 _ _ _ _ z eq_refl eq_refl ltac:(lia) Hz'). pose proof (object_out 7 13 _ _ _ _ z eq_refl eq_refl ltac:(lia) Hz').
  apply Hc. unfold epoll_area, deliver_area, sk_rx_buffer, sockets_at, sizeof_epoll_event, Echod.maxevents in *. lia.
Qed.

(** What [echo] leaves alone. *)
Lemma echo_keeps m m' :
  changes (fun x => user_area (Echod.l_src L) (Echod.l_buf L) (Echod.l_srclen L) x \/ send_area q n x) m m' ->
  (serving m -> serving m') /\ (forall z, eq <= z < eq + queue_size ne -> load8 m' z = load8 m z).
Proof using Hsep.
  intros Hc.
  assert (forall (k : nat) b sz, server_objects !! k = Some (b, sz) -> (k = 7 \/ k = 12 \/ k = 14)%nat -> forall z, b <= z < b + sz -> load8 m' z = load8 m z) as Ho.
  { intros k b sz Hk Hkr z Hz. apply Hc. unfold user_area, send_area.
    intros [[Hx|[Hx|Hx]]|[Hx|[Hx|Hx]]]; revert Hx;
      [apply (object_out k 8 b sz)|apply (object_out k 9 b sz)|apply (object_out k 10 b sz)
      |apply (object_out k 0 b sz)|apply (object_out k 1 b sz)|apply (object_out k 2 b sz)]; done || lia. }
  split; [|exact (Ho 12%nat _ _ eq_refl ltac:(lia))]. apply serving_ext. intros z [Hz|Hz].
  - apply (Ho 7%nat _ _ eq_refl); unfold sizeof_socket, MAX_SOCKETS; lia.
  - apply (Ho 14%nat _ _ eq_refl); [lia|done].
Qed.
(** A packet is delivered and its event reported. *)
Context (Ld : length dmac = 6%nat) (Ls : length smac = 6%nat).

Lemma epoll_packet fuel m xs :
  load_bytes m a (42 + length payload) = udp_frame dmac smac saddr daddr sport dport payload c1 c2 ->
  serving m -> load64 m liblinux_eth_ioqueue = q -> fifo_rep q 24 n m xs -> Z.of_nat (length xs) < n - 1 ->
  fifo_rep eq 24 ne m [packet_event] ->
  exists m' x, epoll_loop (S fuel) m eq events Echod.maxevents 0 = Ok (1, m') /\
    load_bytes m' (sk_rx_buffer (sockets_at 0)) (28 + length payload) = udp_packet saddr daddr sport dport payload c1 c2 /\
    fifo_rep q 24 n m' (xs ++ [x]) /\ is_io_cmd x IO_OPCODE_COMPLETE a (42 + len) /\ fifo_rep eq 24 ne m' [] /\
    load32 m' (Echod.ev_fd events) = SOCKET_FD_OFFSET /\ changes epoll_area m m'.
Proof.
  intros HF (Hop & Hport & Hint) Eq HR Hroom (t & h & R).
  destruct (front_spec eq 24 ne ltac:(done) Hne Heq Hefit m t h _ R) as [Hnz HE].
  destruct (packet_event_fields m _ HE) as (Ht & Had & Hl).
  assert (bound 0 m dport) as Hb by (split; [done|lia]).
  destruct (net_input_udp q n a 0 dmac smac payload saddr daddr sport dport c1 c2 Hq Hn Hfit ltac:(by vm_compute) Hsk Hs Hsp dport_range Hlen Ld Ls
    deliver_separate m xs) as (m1 & x & E1 & HP1 & HR1 & Hx & C1); [|done..|].
  { by replace (Z.to_nat (42 + len)) with (42 + length payload)%nat by lia. }
  set (m3 := store32 (memcpy m1 events interest_set 12) events EPOLLIN).
  set (area x := deliver_area q n 0 payload x \/ events <= x < events + 12).
  assert (changes area m m3) as C3.
  { eapply changes_trans; [eapply changes_mono, C1; unfold area; auto|]. unfold m3, store32.
    eapply changes_trans; [|apply changes_store; unfold area; lia]. apply changes_memcpy. unfold area. lia. }
  assert (forall x, eq <= x < eq + queue_size ne \/ interest_set <= x < interest_set + 12 -> ~ area x) as Hout.
  { unfold area, deliver_area, server_objects, round_trip_objects, echo_objects in *. cbn [app] in Hsep.
    apart Hsep 1%nat 12%nat. apart Hsep 2%nat 12%nat. apart Hsep 7%nat 12%nat. apart Hsep 12%nat 13%nat.
    apart Hsep 1%nat 14%nat. apart Hsep 2%nat 14%nat. apart Hsep 7%nat 14%nat. apart Hsep 13%nat 14%nat.
    unfold sk_rx_buffer, sockets_at, sizeof_socket, MAX_SOCKETS, sizeof_epoll_event, Echod.maxevents in *. lia. }
  assert (fifo_rep eq 24 ne m3 [packet_event]) as (t3 & h3 & R3).
  { apply (fifo_rep_ext eq ne Heq Hne Hefit m); [by exists t, h|]. intros z Hz. apply C3, Hout. auto. }
  set (m4 := atomic_ring_buffer_pop m3 eq).
  assert (ring eq 24 ne m4 ((t3 + 1) mod ne) h3 []) as R4 by (by eapply pop_spec).
  assert (changes (fun x => eq <= x < eq + queue_size ne) m3 m4) as C4.
  { unfold m4, atomic_ring_buffer_pop, store64. apply changes_store. unfold rb_tail, queue_size, ATOMIC_RING_BUFFER_ALIGN. lia. }
  assert (forall z, area z -> load8 m4 z = load8 m3 z) as Hkeep by (intros z Hz; apply C4; intros Hz'; apply (Hout z); auto).
  assert (forall z, deliver_area q n 0 payload z -> load8 m4 z = load8 m1 z) as Hdel.
  { intros z Hz. rewrite Hkeep by (by left). unfold m3, store32, server_objects, round_trip_objects, echo_objects, deliver_area in *. cbn [app] in Hsep.
    apart Hsep 1%nat 13%nat. apart Hsep 2%nat 13%nat. apart Hsep 7%nat 13%nat.
    unfold sk_rx_buffer, sockets_at, sizeof_socket, MAX_SOCKETS, sizeof_epoll_event, Echod.maxevents in *.
    rewrite load8_store_out, load8_memcpy_out by lia. done. }
  exists m4, x. split_and!.
  - cbn [epoll_loop]. destruct (atomic_ring_buffer_is_empty m eq) eqn:Em.
    { by apply (is_empty_spec eq 24 ne ltac:(done) Hne Heq Hefit m t h _ R) in Em. }
    cbn [negb andb]. change (0 <? Echod.maxevents) with true. cbv iota. unfold epoll_one.
    rewrite (proj2 (Z.eqb_neq _ 0) Hnz), Ht, Z.eqb_refl, Had, Hl. rewrite Z.add_assoc, E1, !Ok_bind.
    replace (events + sizeof_epoll_event * 0) with events by (unfold sizeof_epoll_event; lia). cbn [fst snd].
    change (store32 (memcpy m1 events interest_set (Z.to_nat sizeof_epoll_event)) (ev_events events) EPOLLIN) with m3. fold m4.
    change (0 + 1) with 1. destruct fuel; cbn [epoll_loop];
      by rewrite (proj2 (is_empty_spec eq 24 ne ltac:(done) Hne Heq Hefit m4 _ _ _ R4)).
  - rewrite <- HP1. apply load_bytes_ext. intros z Hz. apply Hdel. left. lia.
  - apply (fifo_rep_ext q n Hq Hn Hfit m1); [done|]. intros z Hz. apply Hdel. right. auto.
  - done.
  - by exists ((t3 + 1) mod ne), h3.
  - transitivity (load32 m3 (Echod.ev_fd events)); [apply load_ext; intros; apply Hkeep; right; unfold Echod.ev_fd in *; lia|].
    rewrite <- Hint. unfold m3, Echod.ev_fd, load32, store32. rewrite load_store_ne by lia.
    unfold server_objects, round_trip_objects, echo_objects in Hsep. cbn [app] in Hsep. apart Hsep 13%nat 14%nat.
    unfold sizeof_epoll_event, Echod.maxevents in *. rewrite (load_memcpy_in 4 m1 events interest_set 12 4) by lia.
    apply load_ext. intros z Hz. apply C1. intros Hz'. apply (Hout z); [right; lia|by left].
  - eapply changes_trans; [eapply changes_mono, C3|eapply changes_mono, C4]; unfold area, epoll_area, sizeof_epoll_event; tauto.
Qed.

End Round.

(** C21: a round of the echo server answers a datagram.  [epoll_wait] returns
    with one packet event in the queue of the kernel, the frame of a datagram
    for the port of the server.  The server delivers it, gives the receive
    buffer back to the card, and queues the frame that carries the same payload
    to the MAC address, IP address and port of the sender, from the port of the
    server, with correct checksums; the event is consumed and the server is
    ready for the next round. *)
Theorem echo_server_answers (G : NetGlobals) (HH : HostHeaders) (Hrfc : HH = rfc_headers) {C : Type} (cp : list Z -> C -> C) (con : C) (L : Echod.locals) (K : Echod.kernel) (fuel : nat)
    (q n eq ne a saddr daddr sport c1 c2 : Z) (dmac smac mac payload : list Z) (m0 m1 m : mem) (M : gmap Z (list Z)) (xs : list (list Z))
    (Hwait : Echod.k_wait K m0 = (0, m1)) (Hevents : Echod.k_getevents K m1 = (0, eq, m))
    (Hq : 0 < q) (Hn : 0 < n) (Hfit : rb_data q + sizeof_io_cmd * n <= 2 ^ 64)
    (Heq : 0 < eq) (Hne : 0 < ne) (Hefit : rb_data eq + sizeof_io_cmd * ne <= 2 ^ 64) (Ha : 0 <= a < 2 ^ 48)
    (Hsk : 0 < sockets) (Hops : udp_socket_ops <> 0) (Htx : 0 < _tx_buf) (Hcache : 0 < liblinux_arp_cache)
    (Haddr : 0 < Echod.l_src L) (Hal : Echod.l_srclen L <> 0)
    (Hs : is_u32 saddr) (Hsnz : saddr <> 0) (Hsp : 0 <= sport < 2 ^ 16)
    (Hlen : Z.of_nat (length payload) <= 1472) (Ld : length dmac = 6%nat) (Ls : length smac = 6%nat)
    (Hsep : separate (server_objects L q n eq ne a payload) = true) (Hserv : serving m)
    (HF : load_bytes m a (42 + length payload) = udp_frame dmac smac saddr daddr sport (htons Echod.DEFAULT_PORT) payload c1 c2)
    (HE : fifo_rep eq 24 ne m [packet_event a payload])
    (HM : holds liblinux_arp_cache m M) (Hmac : M !! saddr = Some mac)
    (Eq : load64 m liblinux_eth_ioqueue = q) (HR : fifo_rep q 24 n m xs) (Hroom : Z.of_nat (length xs) < n - 2) :
  let len := Z.of_nat (length payload) in
  let host := load32 m liblinux_host_ip in
  exists m' x y k1 k2, Echod.round cp L K (S fuel) EPOLL_FD m0 con = Ok (Echod.Goes (m', con)) /\
    load_bytes m' _tx_buf (42 + length payload) =
      udp_frame mac (load_bytes m liblinux_mac_addr 6) host saddr (htons Echod.DEFAULT_PORT) sport payload k1 k2 /\
    ipv4_checksum m' (_tx_buf + 14) 20 = Ok 0 /\ udp_checksum m' (_tx_buf + 34) (8 + len) saddr host = Ok 0 /\
    fifo_rep q 24 n m' (xs ++ [x; y]) /\
    is_io_cmd x IO_OPCODE_COMPLETE a (42 + len) /\ is_io_cmd y IO_OPCODE_SUBMIT _tx_buf (42 + len) /\
    fifo_rep eq 24 ne m' [] /\ serving m'.
Proof.
  subst HH. intros len host. destruct (separate_app _ _ Hsep) as [Hrs _]. destruct (separate_app _ _ Hrs) as [Hes _].
  destruct (epoll_packet L q n eq ne a dmac smac payload saddr daddr sport c1 c2 Hq Hn Hfit Heq Hne Hefit Hsk Ha Hs Hsp Hlen Hsep Ld Ls fuel m xs)
    as (m2 & x & E2 & HP & HR2 & Hx & HE2 & Hfd & C2); [done..|lia|done|].
  destruct (epoll_keeps L q n eq ne a payload Hlen Hsep m m2 C2) as [Hsame Hserv2]. specialize (Hserv2 Hserv). pose proof Hserv2 as (Hop & Hport & _).
  destruct (echo_spec q n 0 (Echod.l_src L) (Echod.l_buf L) (Echod.l_srclen L) Hq Hn Hfit ltac:(by vm_compute) Hsk Hops Htx Hcache Haddr Hal Hes
    m2 M mac (xs ++ [x]) saddr daddr sport (htons Echod.DEFAULT_PORT) payload c1 c2)
    as (m3 & k1 & k2 & y & E3 & HF3 & V1 & V2 & HR3 & Hy & C3); [done..|by vm_compute|done|done|done| |done| |done| |].
  - apply (holds_ext liblinux_arp_cache Hcache m); [done|]. exact (Hsame 3%nat _ _ eq_refl ltac:(lia)).
  - rewrite <- Eq. apply load_ext. exact (Hsame 6%nat _ _ eq_refl ltac:(lia)).
  - rewrite length_app. cbn. lia.
  - assert (load32 m2 liblinux_host_ip = host) as Eh by (apply load_ext; exact (Hsame 5%nat _ _ eq_refl ltac:(lia))).
    rewrite Eh in HF3, V2. rewrite <- app_assoc in HR3. destruct (echo_keeps L q n eq ne a payload Hsep m2 m3 C3) as [Hserv3 Hk3].
    exists m3, x, y, k1, k2. split_and!; try done; [| |by apply (fifo_rep_ext eq ne Heq Hne Hefit m2)|by apply Hserv3].
    + unfold Echod.round, epoll_wait. rewrite Z.eqb_refl. cbn [negb]. change (Echod.maxevents <=? 0) with false. cbv iota.
      rewrite Hwait, Hevents. change (negb (0 =? 0)) with false. cbv iota. rewrite E2, Ok_bind. change (1 <? 0) with false. cbv iota.
      change (Z.to_nat 1) with 1%nat. cbn [Echod.serve]. replace (Echod.l_events L + sizeof_epoll_event * 0) with (Echod.l_events L) by lia.
      rewrite Hfd. change (s32 SOCKET_FD_OFFSET) with (SOCKET_FD_OFFSET + 0).
      by rewrite (echo_goes cp L m2 m3 con _ E3), Ok_bind.
    + rewrite HF3, Hport. f_equal. apply load_bytes_ext; exact (Hsame 4%nat _ _ eq_refl ltac:(lia)).
Qed.

(** ** The server of the machine of [NetTheorems] *)

Module EchodExamples.
Definition ex_locals : Echod.locals := {|
  Echod.l_text := 0x50000; Echod.l_addr := 0x18300; Echod.l_ev := 0x18340; Echod.l_events := 0x51000;
  Echod.l_buf := 0x30000; Echod.l_src := 0x18000; Echod.l_srclen := 0x18100 |}.

(** The queue of events, of four slots. *)
Definition ex_eq : Z := 0x42000.

(** The card leaves the frame of a datagram at 0x19000 and the kernel its event. *)
Definition ex_getevents (m : mem) : Z * Z * mem :=
  let m := store_bytes m 0x19000 ex_frame in
  let m := snd (ok_or (0, m) (atomic_ring_buffer_new m ex_eq (192 + 24 * 4) 24)) in
  let m := store_bytes m 0x52000 (packet_event 0x19000 [104; 105]) in
  (0, ex_eq, snd (atomic_ring_buffer_emplace m ex_eq 0x52000)).
Definition ex_kernel : Echod.kernel := {| Echod.k_wait m := (0, m); Echod.k_getevents := ex_getevents |}.

(** The process before [main], and when the loop is reached. *)
Definition ex_boot : mem := store64 ex_net (@nr_sockets ex_globals) 0.
Definition ex_served : mem * list Z :=
  match @Echod.start ex_globals _ (fun bs con => con ++ bs) ex_locals ex_boot [] with
  | Ok (Echod.Goes (_, _, m, con)) => (m, con)
  | _ => (∅, [])
  end.
Definition ex_event : mem := snd (ex_getevents (fst ex_served)).

Lemma ex_event_holds : holds (@liblinux_arp_cache ex_globals) ex_event {[ex_peer := ex_mac]}.
Proof.
  apply ex_holds_ext. intros x Hx.
  assert (forallb (fun x => load8 ex_event x =? load8 ex_net x) (seqZ 65536 1536) = true) as H by (vm_compute; reflexivity).
  rewrite List.forallb_forall in H. apply Z.eqb_eq, H, list_elem_of_In, elem_of_seqZ. lia.
Qed.

Lemma ex_getevents_result m : ex_getevents m = (0, ex_eq, snd (ex_getevents m)).
Proof. reflexivity. Qed.

Lemma ex_event_queue : fifo_rep ex_eq 24 4 ex_event [packet_event 0x19000 [104; 105]].
Proof.
  exists 0, 1.
  split; [lia | lia | vm_compute; reflexivity | vm_compute; reflexivity | vm_compute; reflexivity
         | vm_compute; reflexivity | vm_compute; reflexivity |].
  intros [|i] x Hi; [injection Hi as <-; vm_compute; reflexivity | done].
Qed.

Lemma echo_server_answers_witness :
  exists m' x y k1 k2, @Echod.round ex_globals rfc_headers _ (fun bs con => con ++ bs) ex_locals ex_kernel 1 EPOLL_FD (fst ex_served) [] = Ok (Echod.Goes (m', [])) /\
    load_bytes m' (@_tx_buf ex_globals) 44 =
      udp_frame ex_mac [0x52; 0x54; 0; 0x12; 0x34; 0x56] 0x0f02000a ex_peer (htons 7777) (htons 5555) [104; 105] k1 k2 /\
    fifo_rep ex_q 24 4 m' [x; y] /\ fifo_rep ex_eq 24 4 m' [] /\ @serving ex_globals m'.
Proof.
  destruct (echo_server_answers ex_globals rfc_headers eq_refl (fun bs con => con ++ bs) [] ex_locals ex_kernel 0 ex_q 4 ex_eq 4 0x19000 ex_peer 0x0f02000a (htons 5555) 0 0
    [0x52; 0x54; 0; 0x12; 0x34; 0x56] ex_mac ex_mac [104; 105] (fst ex_served) (fst ex_served) ex_event {[ex_peer := ex_mac]} []
    eq_refl (ex_getevents_result _) eq_refl eq_refl ltac:(vm_compute; discriminate) eq_refl eq_refl ltac:(vm_compute; discriminate) ltac:(lia)
    eq_refl ltac:(vm_compute; discriminate) eq_refl eq_refl eq_refl ltac:(vm_compute; discriminate)
    ltac:(unfold is_u32, ex_peer; lia) ltac:(vm_compute; discriminate) ltac:(vm_compute; split; congruence) ltac:(cbn; lia) eq_refl eq_refl
    ltac:(vm_compute; reflexivity) ltac:(split_and!; vm_compute; reflexivity) ltac:(vm_compute; reflexivity) ex_event_queue
    ex_event_holds ltac:(vm_compute; reflexivity) ltac:(vm_compute; reflexivity) ltac:(apply ex_fifo; vm_compute; reflexivity) eq_refl)
    as (m' & x & y & k1 & k2 & E & HF & _ & _ & HR & _ & _ & HE & Hs).
  exists m', x, y, k1, k2. split_and!; [exact E| |exact HR|exact HE|exact Hs].
  etransitivity; [exact HF|]. f_equal; vm_compute; reflexivity.
Defined.

(** A process that has no socket left says so and leaves. *)
Lemma start_dies_example :
  match @Echod.start ex_globals _ (fun bs con => con ++ bs) ex_locals (store64 ex_net (@nr_sockets ex_globals) 8) [] with
  | Ok (Echod.Exits status m con) => status = 1 /\ con = bytes_of "Echo server listening to port 7777 ...
error: socket: Too many open files
"
  | _ => False
  end.
Proof. vm_compute. split; reflexivity. Qed.

(** A process starts: it prints its addresses and knows its host.  A byte of the
    MAC address is a signed [char], and [format_str] cuts a number to the width
    of its field: a byte from 0x80 on, here 0xfe, is printed as ff. *)
Definition ex_get_config (desc opt buf size : Z) (m : mem) : Z * mem :=
  if opt =? Echod.CONFIG_IO_QUEUE then (0, store64 m buf ex_q) else (0, store_bytes m buf [0x52; 0x54; 0; 0x12; 0x34; 0xfe]).

Lemma liblinux_setup_example :
  match @Echod.liblinux_setup ex_globals _ (fun bs con => con ++ bs) 0x50000 0x60000 0x61000 (fun _ _ m => (0, m)) ex_get_config ∅ [] with
  | Ok (m, con) => con = bytes_of "MAC address = 52:54:00:12:34:ff
IP address = 10.0.2.15
" /\ load_bytes m (@liblinux_host_ip ex_globals) 4 = [10; 0; 2; 15] /\ load64 m (@liblinux_eth_ioqueue ex_globals) = ex_q /\
      arp_cache_lookup m (@liblinux_arp_cache ex_globals) ex_peer = 0
  | Fault _ => False
  end.
Proof. vm_compute. split_and!; reflexivity. Qed.
End EchodExamples.
