(* ===== verification/Fdt.v ===== *)
(** * Flattened device trees: the structure block

    lib/libfdt/{libfdt_env,fdt,libfdt,libfdt_internal}.h and lib/libfdt/fdt.c.

    A blob is memory at the address [fdt]; an [int] is a [Z], with the
    conversions to unsigned written out where the code mixes the two.  A name
    that a caller passes is the list of its characters.  A loop takes as fuel
    the number of bytes of the blob: every tag that [fdt_next_tag] accepts
    occupies at least four of them.  The exception, a property whose length
    field makes the size wrap, is the subject of [next_tag_stuck] in FdtProof. *)

From S2P Require Import Prelude Mem Inet.

(** ** libfdt_env.h: big-endian numbers, on a little-endian machine *)

Definition bswap64 (x : Z) : Z := bswap32 (x mod 2 ^ 32) * 2 ^ 32 + bswap32 (x / 2 ^ 32).

Definition fdt16_to_cpu (x : Z) : Z := bswap16 x.
Definition cpu_to_fdt16 (x : Z) : Z := bswap16 x.
Definition fdt32_to_cpu (x : Z) : Z := bswap32 x.
Definition cpu_to_fdt32 (x : Z) : Z := bswap32 x.
Definition fdt64_to_cpu (x : Z) : Z := bswap64 x.
Definition cpu_to_fdt64 (x : Z) : Z := bswap64 x.

(** ** fdt.h *)

Definition hdr_magic (fdt : Z) : Z := fdt.
Definition hdr_totalsize (fdt : Z) : Z := fdt + 4.
Definition hdr_off_dt_struct (fdt : Z) : Z := fdt + 8.
Definition hdr_off_dt_strings (fdt : Z) : Z := fdt + 12.
Definition hdr_off_mem_rsvmap (fdt : Z) : Z := fdt + 16.
Definition hdr_version (fdt : Z) : Z := fdt + 20.
Definition hdr_last_comp_version (fdt : Z) : Z := fdt + 24.
Definition hdr_boot_cpuid_phys (fdt : Z) : Z := fdt + 28.
Definition hdr_size_dt_strings (fdt : Z) : Z := fdt + 32.
Definition hdr_size_dt_struct (fdt : Z) : Z := fdt + 36.
Definition sizeof_fdt_header : Z := 40.

(** [struct fdt_reserve_entry], [struct fdt_node_header], [struct fdt_property] *)
Definition re_address (p : Z) : Z := p.
Definition re_size (p : Z) : Z := p + 8.
Definition sizeof_fdt_reserve_entry : Z := 16.
Definition nh_tag (p : Z) : Z := p.
Definition nh_name (p : Z) : Z := p + 4.
Definition sizeof_fdt_node_header : Z := 4.
Definition prop_tag (p : Z) : Z := p.
Definition prop_len (p : Z) : Z := p + 4.
Definition prop_nameoff (p : Z) : Z := p + 8.
Definition prop_data (p : Z) : Z := p + 12.
Definition sizeof_fdt_property : Z := 12.

Definition FDT_MAGIC : Z := 0xd00dfeed.
Definition FDT_TAGSIZE : Z := 4.
Definition FDT_BEGIN_NODE : Z := 0x1.
Definition FDT_END_NODE : Z := 0x2.
Definition FDT_PROP : Z := 0x3.
Definition FDT_NOP : Z := 0x4.
Definition FDT_END : Z := 0x9.

(** ** libfdt.h *)

Definition FDT_FIRST_SUPPORTED_VERSION : Z := 0x10.
Definition FDT_LAST_SUPPORTED_VERSION : Z := 0x11.
Definition FDT_ERR_NOTFOUND : Z := 1.
Definition FDT_ERR_EXISTS : Z := 2.
Definition FDT_ERR_NOSPACE : Z := 3.
Definition FDT_ERR_BADOFFSET : Z := 4.
Definition FDT_ERR_BADPATH : Z := 5.
Definition FDT_ERR_BADPHANDLE : Z := 6.
Definition FDT_ERR_BADSTATE : Z := 7.
Definition FDT_ERR_TRUNCATED : Z := 8.
Definition FDT_ERR_BADMAGIC : Z := 9.
Definition FDT_ERR_BADVERSION : Z := 10.
Definition FDT_ERR_BADSTRUCTURE : Z := 11.
Definition FDT_ERR_BADLAYOUT : Z := 12.
Definition FDT_ERR_INTERNAL : Z := 13.
Definition FDT_ERR_BADNCELLS : Z := 14.
Definition FDT_ERR_BADVALUE : Z := 15.
Definition FDT_MAX_NCELLS : Z := 4.

Definition fdt_magic (m : mem) (fdt : Z) : Z := fdt32_to_cpu (load32 m (hdr_magic fdt)).
Definition fdt_totalsize (m : mem) (fdt : Z) : Z := fdt32_to_cpu (load32 m (hdr_totalsize fdt)).
Definition fdt_off_dt_struct (m : mem) (fdt : Z) : Z := fdt32_to_cpu (load32 m (hdr_off_dt_struct fdt)).
Definition fdt_off_dt_strings (m : mem) (fdt : Z) : Z := fdt32_to_cpu (load32 m (hdr_off_dt_strings fdt)).
Definition fdt_off_mem_rsvmap (m : mem) (fdt : Z) : Z := fdt32_to_cpu (load32 m (hdr_off_mem_rsvmap fdt)).
Definition fdt_version (m : mem) (fdt : Z) : Z := fdt32_to_cpu (load32 m (hdr_version fdt)).
Definition fdt_last_comp_version (m : mem) (fdt : Z) : Z := fdt32_to_cpu (load32 m (hdr_last_comp_version fdt)).
Definition fdt_boot_cpuid_phys (m : mem) (fdt : Z) : Z := fdt32_to_cpu (load32 m (hdr_boot_cpuid_phys fdt)).
Definition fdt_size_dt_strings (m : mem) (fdt : Z) : Z := fdt32_to_cpu (load32 m (hdr_size_dt_strings fdt)).
Definition fdt_size_dt_struct (m : mem) (fdt : Z) : Z := fdt32_to_cpu (load32 m (hdr_size_dt_struct fdt)).

Definition fdt_set_magic (m : mem) (fdt val : Z) : mem := store32 m (hdr_magic fdt) (cpu_to_fdt32 (u32 val)).
Definition fdt_set_totalsize (m : mem) (fdt val : Z) : mem := store32 m (hdr_totalsize fdt) (cpu_to_fdt32 (u32 val)).
Definition fdt_set_off_dt_struct (m : mem) (fdt val : Z) : mem := store32 m (hdr_off_dt_struct fdt) (cpu_to_fdt32 (u32 val)).
Definition fdt_set_off_dt_strings (m : mem) (fdt val : Z) : mem := store32 m (hdr_off_dt_strings fdt) (cpu_to_fdt32 (u32 val)).
Definition fdt_set_off_mem_rsvmap (m : mem) (fdt val : Z) : mem := store32 m (hdr_off_mem_rsvmap fdt) (cpu_to_fdt32 (u32 val)).
Definition fdt_set_version (m : mem) (fdt val : Z) : mem := store32 m (hdr_version fdt) (cpu_to_fdt32 (u32 val)).
Definition fdt_set_last_comp_version (m : mem) (fdt val : Z) : mem := store32 m (hdr_last_comp_version fdt) (cpu_to_fdt32 (u32 val)).
Definition fdt_set_boot_cpuid_phys (m : mem) (fdt val : Z) : mem := store32 m (hdr_boot_cpuid_phys fdt) (cpu_to_fdt32 (u32 val)).
Definition fdt_set_size_dt_strings (m : mem) (fdt val : Z) : mem := store32 m (hdr_size_dt_strings fdt) (cpu_to_fdt32 (u32 val)).
Definition fdt_set_size_dt_struct (m : mem) (fdt val : Z) : mem := store32 m (hdr_size_dt_struct fdt) (cpu_to_fdt32 (u32 val)).

(** ** libfdt_internal.h *)

(** [FDT_TAGALIGN] of an [int], as the [size_t] it is and converted back to [int]. *)
Definition tagalign_size (x : Z) : Z := u64 (x + 3) / 4 * 4.
Definition FDT_TAGALIGN (x : Z) : Z := s32 (tagalign_size x).
Definition FDT_SW_MAGIC : Z := u32 (Z.lnot FDT_MAGIC).

Definition _fdt_offset_ptr (m : mem) (fdt offset : Z) : Z := fdt + fdt_off_dt_struct m fdt + offset.
Definition _fdt_mem_rsv (m : mem) (fdt n : Z) : Z := fdt + fdt_off_mem_rsvmap m fdt + sizeof_fdt_reserve_entry * n.

(** ** fdt.c *)

Definition fdt_check_header (m : mem) (fdt : Z) : Z :=
  if fdt_magic m fdt =? FDT_MAGIC then
    if fdt_version m fdt <? FDT_FIRST_SUPPORTED_VERSION then - FDT_ERR_BADVERSION
    else if FDT_LAST_SUPPORTED_VERSION <? fdt_last_comp_version m fdt then - FDT_ERR_BADVERSION
    else 0
  else if fdt_magic m fdt =? FDT_SW_MAGIC then
    if fdt_size_dt_struct m fdt =? 0 then - FDT_ERR_BADSTATE else 0
  else - FDT_ERR_BADMAGIC.

(** [FDT_CHECK_HEADER]: return the error of the check. *)
Notation "'check_header!' m , fdt ;; k" :=
  (if negb (fdt_check_header m fdt =? 0) then Ok (fdt_check_header m fdt) else k)
  (at level 100, m at next level, fdt at next level, k at level 200, right associativity) : c_scope.

Definition fdt_offset_ptr (m : mem) (fdt offset len : Z) : Z :=
  let len := u32 len in
  let absoffset := u32 (offset + fdt_off_dt_struct m fdt) in
  if (absoffset <? u32 offset) || (u32 (absoffset + len) <? absoffset) ||
     (fdt_totalsize m fdt <? u32 (absoffset + len)) then 0
  else if (0x11 <=? fdt_version m fdt) &&
          ((u32 (offset + len) <? u32 offset) || (fdt_size_dt_struct m fdt <? u32 (offset + len))) then 0
  else _fdt_offset_ptr m fdt offset.

Definition fdt_fuel (m : mem) (fdt : Z) : nat := S (Z.to_nat (fdt_totalsize m fdt)).

(** [do { p = fdt_offset_ptr(fdt, offset++, 1); } while (p && ( *p != '\0'));]:
    the offset after the terminator, or [None] when [p] is null. *)
Fixpoint skip_name (fuel : nat) (m : mem) (fdt offset : Z) : outcome (option Z) :=
  let p := fdt_offset_ptr m fdt offset 1 in
  if p =? 0 then Ok None
  else if load8 m p =? 0 then Ok (Some (s32 (offset + 1)))
  else
    match fuel with
    | O => Fault OutOfFuel
    | S fuel => skip_name fuel m fdt (s32 (offset + 1))
    end.

(** The tag at [startoffset] and [*nextoffset]. *)
Definition fdt_next_tag (m : mem) (fdt startoffset : Z) : outcome (Z * Z) :=
  let tagp := fdt_offset_ptr m fdt startoffset FDT_TAGSIZE in
  if tagp =? 0 then Ok (FDT_END, - FDT_ERR_TRUNCATED) else
  let tag := fdt32_to_cpu (load32 m tagp) in
  let offset := s32 (startoffset + FDT_TAGSIZE) in
  after ←
    (if tag =? FDT_BEGIN_NODE then skip_name (fdt_fuel m fdt) m fdt offset
     else if tag =? FDT_PROP then
       let lenp := fdt_offset_ptr m fdt offset 4 in
       if lenp =? 0 then Ok None
       else Ok (Some (s32 (offset + (sizeof_fdt_property - FDT_TAGSIZE) + fdt32_to_cpu (load32 m lenp))))
     else if (tag =? FDT_END) || (tag =? FDT_END_NODE) || (tag =? FDT_NOP) then Ok (Some offset)
     else Ok None);
  match after with
  | None => Ok (FDT_END, - FDT_ERR_BADSTRUCTURE)
  | Some offset =>
      if fdt_offset_ptr m fdt startoffset (offset - startoffset) =? 0 then Ok (FDT_END, - FDT_ERR_BADSTRUCTURE)
      else Ok (tag, FDT_TAGALIGN offset)
  end.

Definition _fdt_check_node_offset (m : mem) (fdt offset : Z) : outcome Z :=
  if (offset <? 0) || negb (offset mod FDT_TAGSIZE =? 0) then Ok (- FDT_ERR_BADOFFSET) else
  '(tag, offset) ← fdt_next_tag m fdt offset;
  if negb (tag =? FDT_BEGIN_NODE) then Ok (- FDT_ERR_BADOFFSET) else Ok offset.

Definition _fdt_check_prop_offset (m : mem) (fdt offset : Z) : outcome Z :=
  if (offset <? 0) || negb (offset mod FDT_TAGSIZE =? 0) then Ok (- FDT_ERR_BADOFFSET) else
  '(tag, offset) ← fdt_next_tag m fdt offset;
  if negb (tag =? FDT_PROP) then Ok (- FDT_ERR_BADOFFSET) else Ok offset.

(** The loop of [fdt_next_node]; [depth] is [None] for a null pointer. *)
Fixpoint next_node_loop (fuel : nat) (m : mem) (fdt offset : Z) (depth : option Z) : outcome (Z * option Z) :=
  match fuel with
  | O => Fault OutOfFuel
  | S fuel =>
      '(tag, nextoffset) ← fdt_next_tag m fdt offset;
      if tag =? FDT_BEGIN_NODE then Ok (offset, (fun d => d + 1) <$> depth)
      else if tag =? FDT_END_NODE then
        match depth with
        | Some d => if d - 1 <? 0 then Ok (nextoffset, Some (d - 1))
                    else next_node_loop fuel m fdt nextoffset (Some (d - 1))
        | None => next_node_loop fuel m fdt nextoffset None
        end
      else if tag =? FDT_END then
        if (0 <=? nextoffset) ||
           ((nextoffset =? - FDT_ERR_TRUNCATED) && match depth with None => true | Some _ => false end)
        then Ok (- FDT_ERR_NOTFOUND, depth) else Ok (nextoffset, depth)
      else next_node_loop fuel m fdt nextoffset depth
  end.

Definition fdt_next_node (m : mem) (fdt offset : Z) (depth : option Z) : outcome (Z * option Z) :=
  nextoffset ← (if 0 <=? offset then _fdt_check_node_offset m fdt offset else Ok 0);
  if nextoffset <? 0 then Ok (nextoffset, depth)
  else next_node_loop (fdt_fuel m fdt) m fdt nextoffset depth.

(** The depth after a call that was given one. *)
Definition the_depth (d : option Z) : Z := default 0 d.

Definition fdt_first_subnode (m : mem) (fdt offset : Z) : outcome Z :=
  '(offset, depth) ← fdt_next_node m fdt offset (Some 0);
  if (offset <? 0) || negb (the_depth depth =? 1) then Ok (- FDT_ERR_NOTFOUND) else Ok offset.

Fixpoint next_subnode_loop (fuel : nat) (m : mem) (fdt offset depth : Z) : outcome Z :=
  match fuel with
  | O => Fault OutOfFuel
  | S fuel =>
      '(offset, depth) ← fdt_next_node m fdt offset (Some depth);
      let depth := the_depth depth in
      if (offset <? 0) || (depth <? 1) then Ok (- FDT_ERR_NOTFOUND)
      else if 1 <? depth then next_subnode_loop fuel m fdt offset depth else Ok offset
  end.

Definition fdt_next_subnode (m : mem) (fdt offset : Z) : outcome Z :=
  next_subnode_loop (fdt_fuel m fdt) m fdt offset 1.

(** [memcmp(p, s, n) == 0] for a string [s] of the caller. *)
Definition memeq (m : mem) (p : Z) (s : list Z) : bool := bool_decide (load_bytes m p (length s) = s).

(** [_fdt_find_string]: [n] is the number of positions left, [last - p + 1]. *)
Fixpoint find_string_loop (m : mem) (p : Z) (s : list Z) (n : nat) : Z :=
  match n with
  | O => 0
  | S n => if memeq m p s then p else find_string_loop m (p + 1) s n
  end.

Definition _fdt_find_string (m : mem) (strtab tabsize : Z) (s : list Z) : Z :=
  let len := Z.of_nat (length s) + 1 in
  find_string_loop m strtab (s ++ [0]) (Z.to_nat (tabsize - len + 1)).

(** [memmove] copies as through a temporary buffer. *)
Definition memmove (m : mem) (dest src : Z) (n : Z) : mem := store_bytes m dest (load_bytes m src (Z.to_nat n)).

Definition fdt_move (m : mem) (fdt buf bufsize : Z) : outcome (Z * mem) :=
  if negb (fdt_check_header m fdt =? 0) then Ok (fdt_check_header m fdt, m) else
  if u32 bufsize <? fdt_totalsize m fdt then Ok (- FDT_ERR_NOSPACE, m) else
  Ok (0, memmove m buf fdt (fdt_totalsize m fdt)).
