(* ===== verification/FdtRo.v ===== *)
(** * Flattened device trees: reading

    lib/libfdt/fdt_ro.c, lib/libfdt/fdt_addresses.c and
    lib/libfdt/fdt_strerror.c. *)

From Stdlib Require Import Strings.String.
From S2P Require Import Prelude Mem Printf Inet LibcString Fdt.
#[local] Open Scope Z_scope.

Definition chr_slash : Z := 47.
Definition chr_at : Z := 64.

(** [memchr(s, c, n)] in a string of the caller: the index of [c]. *)
Fixpoint find_char (c : Z) (s : list Z) : option nat :=
  match s with
  | [] => None
  | x :: s => if x =? c then Some O else S <$> find_char c s
  end.

Definition _fdt_nodename_eq (m : mem) (fdt offset : Z) (s : list Z) : bool :=
  let len := Z.of_nat (length s) in
  let p := fdt_offset_ptr m fdt (s32 (offset + FDT_TAGSIZE)) (len + 1) in
  if p =? 0 then false
  else if negb (memeq m p s) then false
  else if load8 m (p + len) =? 0 then true
  else if negb (bool_decide (is_Some (find_char chr_at s))) && (load8 m (p + len) =? chr_at) then true
  else false.

Definition fdt_string (m : mem) (fdt stroffset : Z) : Z := fdt + fdt_off_dt_strings m fdt + stroffset.

Definition _fdt_string_eq (m : mem) (fdt stroffset : Z) (s : list Z) : outcome bool :=
  let p := fdt_string m fdt stroffset in
  len ← Libc.strlen m p;
  Ok ((len =? Z.of_nat (length s)) && memeq m p s).

Definition fdt_get_mem_rsv (m : mem) (fdt n : Z) : Z * Z * Z :=
  if negb (fdt_check_header m fdt =? 0) then (fdt_check_header m fdt, 0, 0) else
  (0, fdt64_to_cpu (load64 m (re_address (_fdt_mem_rsv m fdt n))),
   fdt64_to_cpu (load64 m (re_size (_fdt_mem_rsv m fdt n)))).

(** The scan stops at unmapped memory at the latest, which reads as zero. *)
Fixpoint num_mem_rsv_loop (fuel : nat) (m : mem) (fdt i : Z) : outcome Z :=
  if fdt64_to_cpu (load64 m (re_size (_fdt_mem_rsv m fdt i))) =? 0 then Ok i else
  match fuel with
  | O => Fault OutOfFuel
  | S fuel => num_mem_rsv_loop fuel m fdt (i + 1)
  end.

Definition fdt_num_mem_rsv (m : mem) (fdt : Z) : outcome Z := num_mem_rsv_loop (size m) m fdt 0.

Fixpoint nextprop_loop (fuel : nat) (m : mem) (fdt offset : Z) : outcome Z :=
  match fuel with
  | O => Fault OutOfFuel
  | S fuel =>
      '(tag, nextoffset) ← fdt_next_tag m fdt offset;
      if tag =? FDT_END then Ok (if 0 <=? nextoffset then - FDT_ERR_BADSTRUCTURE else nextoffset)
      else if tag =? FDT_PROP then Ok offset
      else if tag =? FDT_NOP then nextprop_loop fuel m fdt nextoffset
      else Ok (- FDT_ERR_NOTFOUND)
  end.

Definition _nextprop (m : mem) (fdt offset : Z) : outcome Z := nextprop_loop (fdt_fuel m fdt) m fdt offset.

(** ** Nodes and paths *)

Fixpoint subnode_loop (fuel : nat) (m : mem) (fdt offset depth : Z) (name : list Z) : outcome Z :=
  if (0 <=? offset) && (0 <=? depth) then
    if (depth =? 1) && _fdt_nodename_eq m fdt offset name then Ok offset
    else
      match fuel with
      | O => Fault OutOfFuel
      | S fuel =>
          '(offset, depth) ← fdt_next_node m fdt offset (Some depth);
          subnode_loop fuel m fdt offset (the_depth depth) name
      end
  else if depth <? 0 then Ok (- FDT_ERR_NOTFOUND)
  else Ok offset.

Definition fdt_subnode_offset_namelen (m : mem) (fdt offset : Z) (name : list Z) : outcome Z :=
  check_header! m, fdt ;;
  subnode_loop (fdt_fuel m fdt) m fdt offset 0 name.

Definition fdt_subnode_offset (m : mem) (fdt parentoffset : Z) (name : list Z) : outcome Z :=
  fdt_subnode_offset_namelen m fdt parentoffset name.

Fixpoint skip_slashes (p : list Z) : list Z :=
  match p with
  | x :: p' => if x =? chr_slash then skip_slashes p' else p
  | [] => []
  end.

(** A path component and the rest of the path from the next slash. *)
Definition component (p : list Z) : list Z * list Z :=
  match find_char chr_slash p with
  | Some q => (take q p, drop q p)
  | None => (p, [])
  end.

(** [while (p < end)]: [fuel] is the length of the path. *)
Fixpoint path_loop (fuel : nat) (m : mem) (fdt offset : Z) (p : list Z) : outcome Z :=
  match p with
  | [] => Ok offset
  | _ =>
      match skip_slashes p with
      | [] => Ok offset
      | p =>
          match fuel with
          | O => Fault OutOfFuel
          | S fuel =>
              let '(name, rest) := component p in
              offset ← fdt_subnode_offset_namelen m fdt offset name;
              if offset <? 0 then Ok offset else path_loop fuel m fdt offset rest
          end
      end
  end.

(** ** Properties *)

Definition fdt_get_name (m : mem) (fdt nodeoffset : Z) : outcome (Z * Z) :=
  let nh := _fdt_offset_ptr m fdt nodeoffset in
  let err := fdt_check_header m fdt in
  if negb (err =? 0) then Ok (0, err) else
  err ← _fdt_check_node_offset m fdt nodeoffset;
  if err <? 0 then Ok (0, err) else
  len ← Libc.strlen m (nh_name nh);
  Ok (nh_name nh, s32 len).

Definition fdt_first_property_offset (m : mem) (fdt nodeoffset : Z) : outcome Z :=
  offset ← _fdt_check_node_offset m fdt nodeoffset;
  if offset <? 0 then Ok offset else _nextprop m fdt offset.

Definition fdt_next_property_offset (m : mem) (fdt offset : Z) : outcome Z :=
  offset ← _fdt_check_prop_offset m fdt offset;
  if offset <? 0 then Ok offset else _nextprop m fdt offset.

(** A property and [*lenp]. *)
Definition fdt_get_property_by_offset (m : mem) (fdt offset : Z) : outcome (Z * Z) :=
  err ← _fdt_check_prop_offset m fdt offset;
  if err <? 0 then Ok (0, err) else
  let prop := _fdt_offset_ptr m fdt offset in
  Ok (prop, s32 (fdt32_to_cpu (load32 m (prop_len prop)))).

Fixpoint get_property_loop (fuel : nat) (m : mem) (fdt offset : Z) (name : list Z) : outcome (Z * Z) :=
  if offset <? 0 then Ok (0, offset) else
  '(prop, len) ← fdt_get_property_by_offset m fdt offset;
  if prop =? 0 then Ok (0, - FDT_ERR_INTERNAL) else
  eq ← _fdt_string_eq m fdt (s32 (fdt32_to_cpu (load32 m (prop_nameoff prop)))) name;
  if (eq : bool) then Ok (prop, len) else
  match fuel with
  | O => Fault OutOfFuel
  | S fuel =>
      offset ← fdt_next_property_offset m fdt offset;
      get_property_loop fuel m fdt offset name
  end.

Definition fdt_get_property_namelen (m : mem) (fdt offset : Z) (name : list Z) : outcome (Z * Z) :=
  offset ← fdt_first_property_offset m fdt offset;
  get_property_loop (fdt_fuel m fdt) m fdt offset name.

Definition fdt_get_property (m : mem) (fdt nodeoffset : Z) (name : list Z) : outcome (Z * Z) :=
  fdt_get_property_namelen m fdt nodeoffset name.

Definition fdt_getprop_namelen (m : mem) (fdt nodeoffset : Z) (name : list Z) : outcome (Z * Z) :=
  '(prop, len) ← fdt_get_property_namelen m fdt nodeoffset name;
  if prop =? 0 then Ok (0, len) else Ok (prop_data prop, len).

Definition fdt_getprop_by_offset (m : mem) (fdt offset : Z) : outcome (Z * Z * Z) :=
  '(prop, len) ← fdt_get_property_by_offset m fdt offset;
  if prop =? 0 then Ok (0, 0, len) else
  Ok (prop_data prop, fdt_string m fdt (s32 (fdt32_to_cpu (load32 m (prop_nameoff prop)))), len).

Definition fdt_getprop (m : mem) (fdt nodeoffset : Z) (name : list Z) : outcome (Z * Z) :=
  fdt_getprop_namelen m fdt nodeoffset name.

(** ** Phandles, aliases and paths *)

Definition fdt_get_phandle (m : mem) (fdt nodeoffset : Z) : outcome Z :=
  '(php, len) ← fdt_getprop m fdt nodeoffset (bytes_of "phandle");
  if (php =? 0) || negb (len =? 4) then
    '(php, len) ← fdt_getprop m fdt nodeoffset (bytes_of "linux,phandle");
    if (php =? 0) || negb (len =? 4) then Ok 0 else Ok (fdt32_to_cpu (load32 m php))
  else Ok (fdt32_to_cpu (load32 m php)).

Fixpoint max_phandle_loop (fuel : nat) (m : mem) (fdt offset max_phandle : Z) : outcome Z :=
  if offset =? - FDT_ERR_NOTFOUND then Ok max_phandle
  else if offset <? 0 then Ok (2 ^ 32 - 1)
  else
    phandle ← fdt_get_phandle m fdt offset;
    let max_phandle := if negb (phandle =? 2 ^ 32 - 1) && (max_phandle <? phandle) then phandle else max_phandle in
    match fuel with
    | O => Fault OutOfFuel
    | S fuel =>
        '(offset, _) ← fdt_next_node m fdt offset None;
        max_phandle_loop fuel m fdt offset max_phandle
    end.

Definition fdt_get_max_phandle (m : mem) (fdt : Z) : outcome Z :=
  '(offset, _) ← fdt_next_node m fdt (-1) None;
  max_phandle_loop (fdt_fuel m fdt) m fdt offset 0.

(** [fdt_path_offset_namelen], with the alias lookup it shares with
    [fdt_get_alias_namelen].  The value of an alias is a path again, and may
    name an alias: [fuel] bounds the depth of the recursion, which the code does
    not bound. *)
Definition aliases_offset (m : mem) (fdt : Z) : outcome Z :=
  check_header! m, fdt ;;
  path_loop (length (bytes_of "/aliases")) m fdt 0 (bytes_of "/aliases").

Definition fdt_get_alias_namelen (m : mem) (fdt : Z) (name : list Z) : outcome Z :=
  aliasoffset ← aliases_offset m fdt;
  if aliasoffset <? 0 then Ok 0 else
  '(p, _) ← fdt_getprop_namelen m fdt aliasoffset name;
  Ok p.

Definition fdt_get_alias (m : mem) (fdt : Z) (name : list Z) : outcome Z := fdt_get_alias_namelen m fdt name.

Fixpoint fdt_path_offset_namelen (fuel : nat) (m : mem) (fdt : Z) (path : list Z) : outcome Z :=
  check_header! m, fdt ;;
  if bool_decide (head path = Some chr_slash) then path_loop (length path) m fdt 0 path
  else
    let '(alias, rest) := component path in
    p ← fdt_get_alias_namelen m fdt alias;
    if p =? 0 then Ok (- FDT_ERR_BADPATH) else
    match fuel with
    | O => Fault OutOfFuel
    | S fuel =>
        len ← Libc.strlen m p;
        offset ← fdt_path_offset_namelen fuel m fdt (load_bytes m p (Z.to_nat len));
        path_loop (length rest) m fdt offset rest
    end.

Definition fdt_path_offset (fuel : nat) (m : mem) (fdt : Z) (path : list Z) : outcome Z :=
  fdt_path_offset_namelen fuel m fdt path.

(** [do { p--; } while (buf[p-1] != '/');] *)
Fixpoint path_up (fuel : nat) (m : mem) (buf p : Z) : outcome Z :=
  let p := p - 1 in
  if load8 m (buf + p - 1) =? chr_slash then Ok p else
  match fuel with
  | O => Fault OutOfFuel
  | S fuel => path_up fuel m buf p
  end.

(** [while (pdepth > depth) { ...; pdepth--; }] *)
Fixpoint path_ups (fuel : nat) (m : mem) (buf buflen depth pdepth p : Z) : outcome (Z * Z) :=
  if depth <? pdepth then
    match fuel with
    | O => Fault OutOfFuel
    | S fuel =>
        p ← path_up (Z.to_nat buflen) m buf p;
        path_ups fuel m buf buflen depth (pdepth - 1) p
    end
  else Ok (pdepth, p).

Fixpoint get_path_loop (fuel : nat) (m : mem) (fdt nodeoffset buf buflen offset depth pdepth p : Z) : outcome (Z * mem) :=
  if (0 <=? offset) && (offset <=? nodeoffset) then
    '(pdepth, p) ← path_ups (Z.to_nat pdepth) m buf buflen depth pdepth p;
    named ←
      (if depth <=? pdepth then
         '(name, namelen) ← fdt_get_name m fdt offset;
         if name =? 0 then Ok (inl namelen)
         else if p + namelen + 1 <=? buflen then
           let m := memcpy m (buf + p) name (Z.to_nat namelen) in
           let m := store8 m (buf + p + namelen) chr_slash in
           Ok (inr (pdepth + 1, p + namelen + 1, m))
         else Ok (inr (pdepth, p, m))
       else Ok (inr (pdepth, p, m)));
    match named with
    | inl err => Ok (err, m)
    | inr (pdepth, p, m) =>
        if offset =? nodeoffset then
          if pdepth <? depth + 1 then Ok (- FDT_ERR_NOSPACE, m)
          else
            let p := if 1 <? p then p - 1 else p in
            Ok (0, store8 m (buf + p) 0)
        else
          match fuel with
          | O => Fault OutOfFuel
          | S fuel =>
              '(offset, d) ← fdt_next_node m fdt offset (Some depth);
              get_path_loop fuel m fdt nodeoffset buf buflen offset (the_depth d) pdepth p
          end
    end
  else if (offset =? - FDT_ERR_NOTFOUND) || (0 <=? offset) then Ok (- FDT_ERR_BADOFFSET, m)
  else if offset =? - FDT_ERR_BADOFFSET then Ok (- FDT_ERR_BADSTRUCTURE, m)
  else Ok (offset, m).

Definition fdt_get_path (m : mem) (fdt nodeoffset buf buflen : Z) : outcome (Z * mem) :=
  if negb (fdt_check_header m fdt =? 0) then Ok (fdt_check_header m fdt, m) else
  if buflen <? 2 then Ok (- FDT_ERR_NOSPACE, m) else
  get_path_loop (fdt_fuel m fdt) m fdt nodeoffset buf buflen 0 0 0 0.

(** The result and [*nodedepth]. *)
Fixpoint supernode_loop (fuel : nat) (m : mem) (fdt nodeoffset supernodedepth offset depth supernodeoffset : Z)
  : outcome (Z * option Z) :=
  if (0 <=? offset) && (offset <=? nodeoffset) then
    let supernodeoffset := if depth =? supernodedepth then offset else supernodeoffset in
    if offset =? nodeoffset then
      Ok (if depth <? supernodedepth then - FDT_ERR_NOTFOUND else supernodeoffset, Some depth)
    else
      match fuel with
      | O => Fault OutOfFuel
      | S fuel =>
          '(offset, d) ← fdt_next_node m fdt offset (Some depth);
          supernode_loop fuel m fdt nodeoffset supernodedepth offset (the_depth d) supernodeoffset
      end
  else if (offset =? - FDT_ERR_NOTFOUND) || (0 <=? offset) then Ok (- FDT_ERR_BADOFFSET, None)
  else if offset =? - FDT_ERR_BADOFFSET then Ok (- FDT_ERR_BADSTRUCTURE, None)
  else Ok (offset, None).

Definition fdt_supernode_atdepth_offset (m : mem) (fdt nodeoffset supernodedepth : Z) : outcome (Z * option Z) :=
  if negb (fdt_check_header m fdt =? 0) then Ok (fdt_check_header m fdt, None) else
  if supernodedepth <? 0 then Ok (- FDT_ERR_NOTFOUND, None) else
  supernode_loop (fdt_fuel m fdt) m fdt nodeoffset supernodedepth 0 0 (- FDT_ERR_INTERNAL).

Definition fdt_node_depth (m : mem) (fdt nodeoffset : Z) : outcome Z :=
  '(err, nodedepth) ← fdt_supernode_atdepth_offset m fdt nodeoffset 0;
  if negb (err =? 0) then Ok (if err <? 0 then err else - FDT_ERR_INTERNAL) else Ok (the_depth nodedepth).

Definition fdt_parent_offset (m : mem) (fdt nodeoffset : Z) : outcome Z :=
  nodedepth ← fdt_node_depth m fdt nodeoffset;
  if nodedepth <? 0 then Ok nodedepth else
  '(offset, _) ← fdt_supernode_atdepth_offset m fdt nodeoffset (nodedepth - 1);
  Ok offset.

(** ** Searching all nodes *)

(** [for (offset = fdt_next_node(fdt, startoffset, NULL); offset >= 0; ...)]:
    [test] is the body, [Some r] to return [r]. *)
Fixpoint each_node (fuel : nat) (m : mem) (fdt offset : Z) (test : Z -> outcome (option Z)) : outcome Z :=
  if offset <? 0 then Ok offset else
  found ← test offset;
  match found with
  | Some r => Ok r
  | None =>
      match fuel with
      | O => Fault OutOfFuel
      | S fuel =>
          '(offset, _) ← fdt_next_node m fdt offset None;
          each_node fuel m fdt offset test
      end
  end.

Definition fdt_node_offset_by_prop_value (m : mem) (fdt startoffset : Z) (propname propval : list Z) : outcome Z :=
  check_header! m, fdt ;;
  '(offset, _) ← fdt_next_node m fdt startoffset None;
  each_node (fdt_fuel m fdt) m fdt offset (fun offset =>
    '(val, len) ← fdt_getprop m fdt offset propname;
    Ok (if negb (val =? 0) && (len =? Z.of_nat (length propval)) && memeq m val propval then Some offset else None)).

Definition fdt_node_offset_by_phandle (m : mem) (fdt phandle : Z) : outcome Z :=
  if (phandle =? 0) || (phandle =? 2 ^ 32 - 1) then Ok (- FDT_ERR_BADPHANDLE) else
  check_header! m, fdt ;;
  '(offset, _) ← fdt_next_node m fdt (-1) None;
  each_node (fdt_fuel m fdt) m fdt offset (fun offset =>
    p ← fdt_get_phandle m fdt offset;
    Ok (if p =? phandle then Some offset else None)).

(** ** String lists *)

Fixpoint stringlist_contains_loop (fuel : nat) (m : mem) (strlist listlen : Z) (str : list Z) : outcome bool :=
  let len := Z.of_nat (length str) in
  if len <=? listlen then
    if memeq m strlist (str ++ [0]) then Ok true else
    let p := Libc.memchr m strlist 0 (Z.to_nat listlen) in
    if p =? 0 then Ok false else
    match fuel with
    | O => Fault OutOfFuel
    | S fuel => stringlist_contains_loop fuel m (p + 1) (listlen - (p - strlist + 1)) str
    end
  else Ok false.

(** Every round consumes a byte of the list. *)
Definition fdt_stringlist_contains (m : mem) (strlist listlen : Z) (str : list Z) : outcome bool :=
  stringlist_contains_loop (S (Z.to_nat listlen)) m strlist listlen str.

(** [while (list < end)] over the strings of a list: [body] gets the index, the
    string and its length with the terminator, and may return.  The result is
    [inr] the number of strings when the loop runs to the end; every round
    consumes a byte of the list. *)
Fixpoint stringlist_loop (fuel : nat) (m : mem) (list end_ idx : Z) (body : Z -> Z -> Z -> option (Z * Z))
  : outcome (Z * Z + Z) :=
  if list <? end_ then
    let length := Libc.strnlen m list (end_ - list) + 1 in
    if end_ <? list + length then Ok (inl (0, - FDT_ERR_BADVALUE)) else
    match body idx list length with
    | Some r => Ok (inl r)
    | None =>
        match fuel with
        | O => Fault OutOfFuel
        | S fuel => stringlist_loop fuel m (list + length) end_ (idx + 1) body
        end
    end
  else Ok (inr idx).

Definition fdt_stringlist_count (m : mem) (fdt nodeoffset : Z) (property : list Z) : outcome Z :=
  '(list, length) ← fdt_getprop m fdt nodeoffset property;
  if list =? 0 then Ok length else
  r ← stringlist_loop (Z.to_nat length) m list (list + length) 0 (fun _ _ _ => None);
  match r with
  | inl (_, err) => Ok err
  | inr count => Ok count
  end.

Definition fdt_stringlist_search (m : mem) (fdt nodeoffset : Z) (property string : list Z) : outcome Z :=
  '(list, len) ← fdt_getprop m fdt nodeoffset property;
  if list =? 0 then Ok len else
  r ← stringlist_loop (Z.to_nat len) m list (list + len) 0 (fun idx p l =>
        if (l =? Z.of_nat (length string) + 1) && memeq m p (string ++ [0]) then Some (p, idx) else None);
  match r with
  | inl (_, r) => Ok r
  | inr _ => Ok (- FDT_ERR_NOTFOUND)
  end.

(** The string and [*lenp]; the loop counts [idx] down, here up to it. *)
Definition fdt_stringlist_get (m : mem) (fdt nodeoffset : Z) (property : list Z) (idx : Z) : outcome (Z * Z) :=
  '(list, length) ← fdt_getprop m fdt nodeoffset property;
  if list =? 0 then Ok (0, length) else
  r ← stringlist_loop (Z.to_nat length) m list (list + length) 0 (fun i p l =>
        if idx - i =? 0 then Some (p, l - 1) else None);
  match r with
  | inl r => Ok r
  | inr _ => Ok (0, - FDT_ERR_NOTFOUND)
  end.

Definition fdt_node_check_compatible (m : mem) (fdt nodeoffset : Z) (compatible : list Z) : outcome Z :=
  '(prop, len) ← fdt_getprop m fdt nodeoffset (bytes_of "compatible");
  if prop =? 0 then Ok len else
  b ← fdt_stringlist_contains m prop len compatible;
  Ok (if (b : bool) then 0 else 1).

Definition fdt_node_offset_by_compatible (m : mem) (fdt startoffset : Z) (compatible : list Z) : outcome Z :=
  check_header! m, fdt ;;
  '(offset, _) ← fdt_next_node m fdt startoffset None;
  each_node (fdt_fuel m fdt) m fdt offset (fun offset =>
    err ← fdt_node_check_compatible m fdt offset compatible;
    Ok (if (err <? 0) && negb (err =? - FDT_ERR_NOTFOUND) then Some err
        else if err =? 0 then Some offset else None)).

(** ** fdt_addresses.c *)

Definition fdt_address_cells (m : mem) (fdt nodeoffset : Z) : outcome Z :=
  '(ac, len) ← fdt_getprop m fdt nodeoffset (bytes_of "#address-cells");
  if ac =? 0 then Ok 2 else
  if negb (len =? 4) then Ok (- FDT_ERR_BADNCELLS) else
  let val := s32 (fdt32_to_cpu (load32 m ac)) in
  if (val <=? 0) || (FDT_MAX_NCELLS <? val) then Ok (- FDT_ERR_BADNCELLS) else Ok val.

Definition fdt_size_cells (m : mem) (fdt nodeoffset : Z) : outcome Z :=
  '(sc, len) ← fdt_getprop m fdt nodeoffset (bytes_of "#size-cells");
  if sc =? 0 then Ok 2 else
  if negb (len =? 4) then Ok (- FDT_ERR_BADNCELLS) else
  let val := s32 (fdt32_to_cpu (load32 m sc)) in
  if (val <? 0) || (FDT_MAX_NCELLS <? val) then Ok (- FDT_ERR_BADNCELLS) else Ok val.

(** ** fdt_strerror.c *)

Definition fdt_errtable : list (option (list Z)) :=
  [None; Some (bytes_of "FDT_ERR_NOTFOUND"); Some (bytes_of "FDT_ERR_EXISTS"); Some (bytes_of "FDT_ERR_NOSPACE");
   Some (bytes_of "FDT_ERR_BADOFFSET"); Some (bytes_of "FDT_ERR_BADPATH"); Some (bytes_of "FDT_ERR_BADPHANDLE");
   Some (bytes_of "FDT_ERR_BADSTATE"); Some (bytes_of "FDT_ERR_TRUNCATED"); Some (bytes_of "FDT_ERR_BADMAGIC");
   Some (bytes_of "FDT_ERR_BADVERSION"); Some (bytes_of "FDT_ERR_BADSTRUCTURE"); Some (bytes_of "FDT_ERR_BADLAYOUT");
   Some (bytes_of "FDT_ERR_INTERNAL"); Some (bytes_of "FDT_ERR_BADNCELLS"); Some (bytes_of "FDT_ERR_BADVALUE");
   Some (bytes_of "FDT_ERR_BADOVERLAY"); Some (bytes_of "FDT_ERR_NOPHANDLES")].

(** [errval > -FDT_ERRTABSIZE] compares as [size_t]. *)
Definition fdt_strerror (errval : Z) : list Z :=
  if 0 <? errval then bytes_of "<valid offset/length>"
  else if errval =? 0 then bytes_of "<no error>"
  else if u64 (- Z.of_nat (length fdt_errtable)) <? u64 errval then
    match fdt_errtable !! Z.to_nat (- errval) with
    | Some (Some s) => s
    | _ => bytes_of "<unknown error>"
    end
  else bytes_of "<unknown error>".
