(* ===== verification/FdtSw.v ===== *)
(** * Flattened device trees: sequential write and write in place

    lib/libfdt/fdt_sw.c and lib/libfdt/fdt_wip.c, with the helpers of libfdt.h
    that call them.  Every operation returns its error code and the memory. *)

From S2P Require Import Prelude Mem Inet LibcString Fdt FdtRo.

(** ** fdt_sw.c *)

Definition _fdt_sw_check_header (m : mem) (fdt : Z) : Z :=
  if negb (fdt_magic m fdt =? FDT_SW_MAGIC) then - FDT_ERR_BADMAGIC else 0.

(** The space and the memory; null when there is not enough left. *)
Definition _fdt_grab_space (m : mem) (fdt len : Z) : Z * mem :=
  let offset := s32 (fdt_size_dt_struct m fdt) in
  let spaceleft := s32 (fdt_totalsize m fdt - fdt_off_dt_struct m fdt - fdt_size_dt_strings m fdt) in
  if (u64 (offset + len) <? u64 offset) || (u64 spaceleft <? u64 (offset + len)) then (0, m) else
  let m := fdt_set_size_dt_struct m fdt (offset + len) in
  (_fdt_offset_ptr m fdt offset, m).

(** A negative [bufsize] passes the test as a huge [size_t]; the [memset] then
    leaves the buffer. *)
Definition fdt_create (m : mem) (buf bufsize : Z) : outcome (Z * mem) :=
  if u64 bufsize <? sizeof_fdt_header then Ok (- FDT_ERR_NOSPACE, m) else
  if bufsize <? 0 then Fault OutOfBounds else
  let m := memset m buf 0 (Z.to_nat bufsize) in
  let m := fdt_set_magic m buf FDT_SW_MAGIC in
  let m := fdt_set_version m buf FDT_LAST_SUPPORTED_VERSION in
  let m := fdt_set_last_comp_version m buf FDT_FIRST_SUPPORTED_VERSION in
  let m := fdt_set_totalsize m buf bufsize in
  let m := fdt_set_off_mem_rsvmap m buf 48 in
  let m := fdt_set_off_dt_struct m buf (fdt_off_mem_rsvmap m buf) in
  let m := fdt_set_off_dt_strings m buf bufsize in
  Ok (0, m).

Definition fdt_resize (m : mem) (fdt buf bufsize : Z) : Z * mem :=
  if negb (_fdt_sw_check_header m fdt =? 0) then (_fdt_sw_check_header m fdt, m) else
  let headsize := fdt_off_dt_struct m fdt in
  let tailsize := fdt_size_dt_strings m fdt in
  if u64 bufsize <? headsize + tailsize then (- FDT_ERR_NOSPACE, m) else
  let oldtail := fdt + fdt_totalsize m fdt - tailsize in
  let newtail := buf + bufsize - tailsize in
  let m :=
    if buf <=? fdt then memmove (memmove m buf fdt headsize) newtail oldtail tailsize
    else memmove (memmove m newtail oldtail tailsize) buf fdt headsize in
  let m := fdt_set_off_dt_strings m buf bufsize in
  (0, fdt_set_totalsize m buf bufsize).

Definition fdt_add_reservemap_entry (m : mem) (fdt addr size : Z) : Z * mem :=
  if negb (_fdt_sw_check_header m fdt =? 0) then (_fdt_sw_check_header m fdt, m) else
  if negb (fdt_size_dt_struct m fdt =? 0) then (- FDT_ERR_BADSTATE, m) else
  let offset := s32 (fdt_off_dt_struct m fdt) in
  if fdt_totalsize m fdt <? u64 (offset + sizeof_fdt_reserve_entry) then (- FDT_ERR_NOSPACE, m) else
  let re := fdt + offset in
  let m := store64 m (re_address re) (cpu_to_fdt64 addr) in
  let m := store64 m (re_size re) (cpu_to_fdt64 size) in
  (0, fdt_set_off_dt_struct m fdt (offset + sizeof_fdt_reserve_entry)).

Definition fdt_finish_reservemap (m : mem) (fdt : Z) : Z * mem := fdt_add_reservemap_entry m fdt 0 0.

Definition fdt_begin_node (m : mem) (fdt : Z) (name : list Z) : Z * mem :=
  let namelen := Z.of_nat (length name) + 1 in
  if negb (_fdt_sw_check_header m fdt =? 0) then (_fdt_sw_check_header m fdt, m) else
  let '(nh, m) := _fdt_grab_space m fdt (sizeof_fdt_node_header + tagalign_size namelen) in
  if nh =? 0 then (- FDT_ERR_NOSPACE, m) else
  let m := store32 m (nh_tag nh) (cpu_to_fdt32 FDT_BEGIN_NODE) in
  (0, store_bytes m (nh_name nh) (name ++ [0])).

Definition fdt_end_node (m : mem) (fdt : Z) : Z * mem :=
  if negb (_fdt_sw_check_header m fdt =? 0) then (_fdt_sw_check_header m fdt, m) else
  let '(en, m) := _fdt_grab_space m fdt FDT_TAGSIZE in
  if en =? 0 then (- FDT_ERR_NOSPACE, m) else
  (0, store32 m en (cpu_to_fdt32 FDT_END_NODE)).

(** The strings grow down from the end of the buffer: an offset is negative, 0
    means that there is no room. *)
Definition sw_find_add_string (m : mem) (fdt : Z) (s : list Z) : Z * mem :=
  let strtab := fdt + fdt_totalsize m fdt in
  let strtabsize := s32 (fdt_size_dt_strings m fdt) in
  let len := Z.of_nat (length s) + 1 in
  let p := _fdt_find_string m (strtab - strtabsize) strtabsize s in
  if negb (p =? 0) then (s32 (p - strtab), m) else
  let offset := s32 (- strtabsize - len) in
  let struct_top := s32 (fdt_off_dt_struct m fdt + fdt_size_dt_struct m fdt) in
  if u32 (fdt_totalsize m fdt + offset) <? u32 struct_top then (0, m) else
  let m := store_bytes m (strtab + offset) (s ++ [0]) in
  (offset, fdt_set_size_dt_strings m fdt (strtabsize + len)).

Definition fdt_property (m : mem) (fdt : Z) (name val : list Z) : Z * mem :=
  let len := Z.of_nat (length val) in
  if negb (_fdt_sw_check_header m fdt =? 0) then (_fdt_sw_check_header m fdt, m) else
  let '(nameoff, m) := sw_find_add_string m fdt name in
  if nameoff =? 0 then (- FDT_ERR_NOSPACE, m) else
  let '(prop, m) := _fdt_grab_space m fdt (sizeof_fdt_property + tagalign_size len) in
  if prop =? 0 then (- FDT_ERR_NOSPACE, m) else
  let m := store32 m (prop_tag prop) (cpu_to_fdt32 FDT_PROP) in
  let m := store32 m (prop_nameoff prop) (cpu_to_fdt32 (u32 nameoff)) in
  let m := store32 m (prop_len prop) (cpu_to_fdt32 (u32 len)) in
  (0, store_bytes m (prop_data prop) val).

(** The walk of [fdt_finish] that corrects the string offsets: [nextoffset] of
    the end tag and the memory. *)
Fixpoint fix_strings (fuel : nat) (m : mem) (fdt offset : Z) : outcome (Z * mem) :=
  match fuel with
  | O => Fault OutOfFuel
  | S fuel =>
      '(tag, nextoffset) ← fdt_next_tag m fdt offset;
      if tag =? FDT_END then Ok (nextoffset, m) else
      let m :=
        if tag =? FDT_PROP then
          let prop := _fdt_offset_ptr m fdt offset in
          let nameoff := s32 (fdt32_to_cpu (load32 m (prop_nameoff prop))) in
          let nameoff := s32 (nameoff + fdt_size_dt_strings m fdt) in
          store32 m (prop_nameoff prop) (cpu_to_fdt32 (u32 nameoff))
        else m in
      fix_strings fuel m fdt nextoffset
  end.

Definition fdt_finish (m : mem) (fdt : Z) : outcome (Z * mem) :=
  if negb (_fdt_sw_check_header m fdt =? 0) then Ok (_fdt_sw_check_header m fdt, m) else
  let '(end_, m) := _fdt_grab_space m fdt 4 in
  if end_ =? 0 then Ok (- FDT_ERR_NOSPACE, m) else
  let m := store32 m end_ (cpu_to_fdt32 FDT_END) in
  let oldstroffset := s32 (fdt_totalsize m fdt - fdt_size_dt_strings m fdt) in
  let newstroffset := s32 (fdt_off_dt_struct m fdt + fdt_size_dt_struct m fdt) in
  let m := memmove m (fdt + newstroffset) (fdt + oldstroffset) (fdt_size_dt_strings m fdt) in
  let m := fdt_set_off_dt_strings m fdt newstroffset in
  '(nextoffset, m) ← fix_strings (fdt_fuel m fdt) m fdt 0;
  if nextoffset <? 0 then Ok (nextoffset, m) else
  let m := fdt_set_totalsize m fdt (newstroffset + fdt_size_dt_strings m fdt) in
  Ok (0, fdt_set_magic m fdt FDT_MAGIC).

(** A value in big-endian order. *)
Definition be32 (v : Z) : list Z := le_split 4 (cpu_to_fdt32 v).
Definition be64 (v : Z) : list Z := le_split 8 (cpu_to_fdt64 v).

Definition fdt_property_u32 (m : mem) (fdt : Z) (name : list Z) (val : Z) : Z * mem := fdt_property m fdt name (be32 val).
Definition fdt_property_u64 (m : mem) (fdt : Z) (name : list Z) (val : Z) : Z * mem := fdt_property m fdt name (be64 val).
Definition fdt_property_cell (m : mem) (fdt : Z) (name : list Z) (val : Z) : Z * mem := fdt_property_u32 m fdt name val.
Definition fdt_property_string (m : mem) (fdt : Z) (name str : list Z) : Z * mem := fdt_property m fdt name (str ++ [0]).

(** ** fdt_wip.c *)

Definition fdt_setprop_inplace_namelen_partial (m : mem) (fdt nodeoffset : Z) (name : list Z) (idx : Z) (val : list Z)
  : outcome (Z * mem) :=
  let len := Z.of_nat (length val) in
  '(propval, proplen) ← fdt_getprop_namelen m fdt nodeoffset name;
  if propval =? 0 then Ok (proplen, m) else
  if u32 proplen <? u32 (len + idx) then Ok (- FDT_ERR_NOSPACE, m) else
  Ok (0, store_bytes m (propval + idx) val).

Definition fdt_setprop_inplace (m : mem) (fdt nodeoffset : Z) (name val : list Z) : outcome (Z * mem) :=
  '(propval, proplen) ← fdt_getprop m fdt nodeoffset name;
  if propval =? 0 then Ok (proplen, m) else
  if negb (proplen =? Z.of_nat (length val)) then Ok (- FDT_ERR_NOSPACE, m) else
  fdt_setprop_inplace_namelen_partial m fdt nodeoffset name 0 val.

Fixpoint nop_words (m : mem) (p : Z) (n : nat) : mem :=
  match n with
  | O => m
  | S n => nop_words (store32 m p (cpu_to_fdt32 FDT_NOP)) (p + 4) n
  end.

(** One word for every started four bytes of [len]. *)
Definition _fdt_nop_region (m : mem) (start len : Z) : mem := nop_words m start (Z.to_nat ((len + 3) / 4)).

Definition fdt_nop_property (m : mem) (fdt nodeoffset : Z) (name : list Z) : outcome (Z * mem) :=
  '(prop, len) ← fdt_get_property m fdt nodeoffset name;
  if prop =? 0 then Ok (len, m) else
  Ok (0, _fdt_nop_region m prop (s32 (len + sizeof_fdt_property))).

Fixpoint node_end_loop (fuel : nat) (m : mem) (fdt offset depth : Z) : outcome Z :=
  if (0 <=? offset) && (0 <=? depth) then
    match fuel with
    | O => Fault OutOfFuel
    | S fuel =>
        '(offset, depth) ← fdt_next_node m fdt offset (Some depth);
        node_end_loop fuel m fdt offset (the_depth depth)
    end
  else Ok offset.

Definition _fdt_node_end_offset (m : mem) (fdt offset : Z) : outcome Z :=
  node_end_loop (fdt_fuel m fdt) m fdt offset 0.

Definition fdt_nop_node (m : mem) (fdt nodeoffset : Z) : outcome (Z * mem) :=
  endoffset ← _fdt_node_end_offset m fdt nodeoffset;
  if endoffset <? 0 then Ok (endoffset, m) else
  let p := fdt_offset_ptr m fdt nodeoffset 0 in
  nonnull! p ;;
  Ok (0, _fdt_nop_region m p (endoffset - nodeoffset)).

Definition fdt_setprop_inplace_u32 (m : mem) (fdt nodeoffset : Z) (name : list Z) (val : Z) : outcome (Z * mem) :=
  fdt_setprop_inplace m fdt nodeoffset name (be32 val).
Definition fdt_setprop_inplace_u64 (m : mem) (fdt nodeoffset : Z) (name : list Z) (val : Z) : outcome (Z * mem) :=
  fdt_setprop_inplace m fdt nodeoffset name (be64 val).
Definition fdt_setprop_inplace_cell (m : mem) (fdt nodeoffset : Z) (name : list Z) (val : Z) : outcome (Z * mem) :=
  fdt_setprop_inplace_u32 m fdt nodeoffset name val.
