(* ===== verification/FdtRw.v ===== *)
(** * Flattened device trees: editing

    lib/libfdt/fdt_rw.c and lib/libfdt/fdt_empty_tree.c, with the helpers of
    libfdt.h that call them.  Every operation returns its result and the memory;
    a value that a caller passes is the list of its bytes. *)

From S2P Require Import Prelude Mem Inet LibcString Fdt FdtRo FdtSw.

(** [FDT_ALIGN(sizeof(struct fdt_header), 8)] *)
Definition header_size8 : Z := 40.

Definition _fdt_blocks_misordered (m : mem) (fdt mem_rsv_size struct_size : Z) : bool :=
  (fdt_off_mem_rsvmap m fdt <? header_size8) ||
  (fdt_off_dt_struct m fdt <? u32 (fdt_off_mem_rsvmap m fdt + mem_rsv_size)) ||
  (fdt_off_dt_strings m fdt <? u32 (fdt_off_dt_struct m fdt + struct_size)) ||
  (fdt_totalsize m fdt <? u32 (fdt_off_dt_strings m fdt + fdt_size_dt_strings m fdt)).

Definition _fdt_rw_check_header (m : mem) (fdt : Z) : Z * mem :=
  if negb (fdt_check_header m fdt =? 0) then (fdt_check_header m fdt, m) else
  if fdt_version m fdt <? 17 then (- FDT_ERR_BADVERSION, m) else
  if _fdt_blocks_misordered m fdt sizeof_fdt_reserve_entry (fdt_size_dt_struct m fdt) then (- FDT_ERR_BADLAYOUT, m) else
  (0, if 17 <? fdt_version m fdt then fdt_set_version m fdt 17 else m).

(** [FDT_RW_CHECK_HEADER]: return the error, or go on in the new memory. *)
Notation "'rw_check_header!' m , fdt ;; k" :=
  (let '(__err, __m) := _fdt_rw_check_header m fdt in
   if negb (__err =? 0) then Ok (__err, __m) else (fun m => k) __m)
  (at level 100, m name, fdt at next level, k at level 200, right associativity) : c_scope.

Definition _fdt_data_size (m : mem) (fdt : Z) : Z := s32 (fdt_off_dt_strings m fdt + fdt_size_dt_strings m fdt).

Definition _fdt_splice (m : mem) (fdt p oldlen newlen : Z) : Z * mem :=
  let end_ := fdt + _fdt_data_size m fdt in
  if (p + oldlen <? p) || (end_ <? p + oldlen) then (- FDT_ERR_BADOFFSET, m) else
  if (p <? fdt) || (end_ - oldlen + newlen <? fdt) then (- FDT_ERR_BADOFFSET, m) else
  if fdt + fdt_totalsize m fdt <? end_ - oldlen + newlen then (- FDT_ERR_NOSPACE, m) else
  (0, memmove m (p + newlen) (p + oldlen) (end_ - p - oldlen)).

Definition _fdt_splice_mem_rsv (m : mem) (fdt p oldn newn : Z) : Z * mem :=
  let delta := s32 ((newn - oldn) * sizeof_fdt_reserve_entry) in
  let '(err, m) := _fdt_splice m fdt p (s32 (oldn * sizeof_fdt_reserve_entry)) (s32 (newn * sizeof_fdt_reserve_entry)) in
  if negb (err =? 0) then (err, m) else
  let m := fdt_set_off_dt_struct m fdt (fdt_off_dt_struct m fdt + delta) in
  (0, fdt_set_off_dt_strings m fdt (fdt_off_dt_strings m fdt + delta)).

Definition _fdt_splice_struct (m : mem) (fdt p oldlen newlen : Z) : Z * mem :=
  let delta := s32 (newlen - oldlen) in
  let '(err, m) := _fdt_splice m fdt p oldlen newlen in
  if negb (err =? 0) then (err, m) else
  let m := fdt_set_size_dt_struct m fdt (fdt_size_dt_struct m fdt + delta) in
  (0, fdt_set_off_dt_strings m fdt (fdt_off_dt_strings m fdt + delta)).

Definition _fdt_splice_string (m : mem) (fdt newlen : Z) : Z * mem :=
  let p := fdt + fdt_off_dt_strings m fdt + fdt_size_dt_strings m fdt in
  let '(err, m) := _fdt_splice m fdt p 0 newlen in
  if negb (err =? 0) then (err, m) else
  (0, fdt_set_size_dt_strings m fdt (fdt_size_dt_strings m fdt + newlen)).

Definition rw_find_add_string (m : mem) (fdt : Z) (s : list Z) : Z * mem :=
  let strtab := fdt + fdt_off_dt_strings m fdt in
  let len := Z.of_nat (length s) + 1 in
  let p := _fdt_find_string m strtab (s32 (fdt_size_dt_strings m fdt)) s in
  if negb (p =? 0) then (s32 (p - strtab), m) else
  let new := strtab + fdt_size_dt_strings m fdt in
  let '(err, m) := _fdt_splice_string m fdt len in
  if negb (err =? 0) then (err, m) else
  (s32 (new - strtab), store_bytes m new (s ++ [0])).

Definition fdt_add_mem_rsv (m : mem) (fdt address size : Z) : outcome (Z * mem) :=
  rw_check_header! m, fdt ;;
  n ← fdt_num_mem_rsv m fdt;
  let re := _fdt_mem_rsv m fdt n in
  let '(err, m) := _fdt_splice_mem_rsv m fdt re 0 1 in
  if negb (err =? 0) then Ok (err, m) else
  let m := store64 m (re_address re) (cpu_to_fdt64 address) in
  Ok (0, store64 m (re_size re) (cpu_to_fdt64 size)).

Definition fdt_del_mem_rsv (m : mem) (fdt n : Z) : outcome (Z * mem) :=
  let re := _fdt_mem_rsv m fdt n in
  rw_check_header! m, fdt ;;
  num ← fdt_num_mem_rsv m fdt;
  if num <=? n then Ok (- FDT_ERR_NOTFOUND, m) else Ok (_fdt_splice_mem_rsv m fdt re 1 0).

(** The error, [*prop] and the memory. *)
Definition _fdt_resize_property (m : mem) (fdt nodeoffset : Z) (name : list Z) (len : Z) : outcome (Z * Z * mem) :=
  '(prop, oldlen) ← fdt_get_property m fdt nodeoffset name;
  if prop =? 0 then Ok (oldlen, prop, m) else
  let '(err, m) := _fdt_splice_struct m fdt (prop_data prop) (FDT_TAGALIGN oldlen) (FDT_TAGALIGN len) in
  if negb (err =? 0) then Ok (err, prop, m) else
  Ok (0, prop, store32 m (prop_len prop) (cpu_to_fdt32 (u32 len))).

Definition _fdt_add_property (m : mem) (fdt nodeoffset : Z) (name : list Z) (len prop : Z) : outcome (Z * Z * mem) :=
  nextoffset ← _fdt_check_node_offset m fdt nodeoffset;
  if nextoffset <? 0 then Ok (nextoffset, prop, m) else
  let '(namestroff, m) := rw_find_add_string m fdt name in
  if namestroff <? 0 then Ok (namestroff, prop, m) else
  let prop := _fdt_offset_ptr m fdt nextoffset in
  let proplen := s32 (sizeof_fdt_property + tagalign_size len) in
  let '(err, m) := _fdt_splice_struct m fdt prop 0 proplen in
  if negb (err =? 0) then Ok (err, prop, m) else
  let m := store32 m (prop_tag prop) (cpu_to_fdt32 FDT_PROP) in
  let m := store32 m (prop_nameoff prop) (cpu_to_fdt32 (u32 namestroff)) in
  Ok (0, prop, store32 m (prop_len prop) (cpu_to_fdt32 (u32 len))).

Definition fdt_set_name (m : mem) (fdt nodeoffset : Z) (name : list Z) : outcome (Z * mem) :=
  rw_check_header! m, fdt ;;
  '(namep, oldlen) ← fdt_get_name m fdt nodeoffset;
  if namep =? 0 then Ok (oldlen, m) else
  let newlen := Z.of_nat (length name) in
  let '(err, m) := _fdt_splice_struct m fdt namep (FDT_TAGALIGN (oldlen + 1)) (FDT_TAGALIGN (newlen + 1)) in
  if negb (err =? 0) then Ok (err, m) else
  Ok (0, store_bytes m namep (name ++ [0])).

Definition fdt_setprop (m : mem) (fdt nodeoffset : Z) (name val : list Z) : outcome (Z * mem) :=
  let len := Z.of_nat (length val) in
  rw_check_header! m, fdt ;;
  '(err, prop, m) ← _fdt_resize_property m fdt nodeoffset name len;
  '(err, prop, m) ← (if err =? - FDT_ERR_NOTFOUND then _fdt_add_property m fdt nodeoffset name len prop
                     else Ok (err, prop, m));
  if negb (err =? 0) then Ok (err, m) else
  Ok (0, store_bytes m (prop_data prop) val).

Definition fdt_appendprop (m : mem) (fdt nodeoffset : Z) (name val : list Z) : outcome (Z * mem) :=
  let len := Z.of_nat (length val) in
  rw_check_header! m, fdt ;;
  '(prop, oldlen) ← fdt_get_property m fdt nodeoffset name;
  if negb (prop =? 0) then
    let newlen := s32 (len + oldlen) in
    let '(err, m) := _fdt_splice_struct m fdt (prop_data prop) (FDT_TAGALIGN oldlen) (FDT_TAGALIGN newlen) in
    if negb (err =? 0) then Ok (err, m) else
    let m := store32 m (prop_len prop) (cpu_to_fdt32 (u32 newlen)) in
    Ok (0, store_bytes m (prop_data prop + oldlen) val)
  else
    '(err, prop, m) ← _fdt_add_property m fdt nodeoffset name len prop;
    if negb (err =? 0) then Ok (err, m) else
    Ok (0, store_bytes m (prop_data prop) val).

Definition fdt_delprop (m : mem) (fdt nodeoffset : Z) (name : list Z) : outcome (Z * mem) :=
  rw_check_header! m, fdt ;;
  '(prop, len) ← fdt_get_property m fdt nodeoffset name;
  if prop =? 0 then Ok (len, m) else
  Ok (_fdt_splice_struct m fdt prop (s32 (sizeof_fdt_property + tagalign_size len)) 0).

(** [do { offset = nextoffset; tag = fdt_next_tag(...); } while (...)]: the offset
    behind the properties. *)
Fixpoint skip_props (fuel : nat) (m : mem) (fdt offset : Z) : outcome Z :=
  '(tag, nextoffset) ← fdt_next_tag m fdt offset;
  if (tag =? FDT_PROP) || (tag =? FDT_NOP) then
    match fuel with
    | O => Fault OutOfFuel
    | S fuel => skip_props fuel m fdt nextoffset
    end
  else Ok offset.

Definition fdt_add_subnode_namelen (m : mem) (fdt parentoffset : Z) (name : list Z) : outcome (Z * mem) :=
  let namelen := Z.of_nat (length name) in
  rw_check_header! m, fdt ;;
  offset ← fdt_subnode_offset_namelen m fdt parentoffset name;
  if 0 <=? offset then Ok (- FDT_ERR_EXISTS, m) else
  if negb (offset =? - FDT_ERR_NOTFOUND) then Ok (offset, m) else
  '(_, nextoffset) ← fdt_next_tag m fdt parentoffset;
  offset ← skip_props (fdt_fuel m fdt) m fdt nextoffset;
  let nh := _fdt_offset_ptr m fdt offset in
  let nodelen := s32 (sizeof_fdt_node_header + tagalign_size (namelen + 1) + FDT_TAGSIZE) in
  let '(err, m) := _fdt_splice_struct m fdt nh 0 nodelen in
  if negb (err =? 0) then Ok (err, m) else
  let m := store32 m (nh_tag nh) (cpu_to_fdt32 FDT_BEGIN_NODE) in
  let m := memset m (nh_name nh) 0 (Z.to_nat (tagalign_size (namelen + 1))) in
  let m := store_bytes m (nh_name nh) name in
  let endtag := nh + nodelen - FDT_TAGSIZE in
  Ok (offset, store32 m endtag (cpu_to_fdt32 FDT_END_NODE)).

Definition fdt_add_subnode (m : mem) (fdt parentoffset : Z) (name : list Z) : outcome (Z * mem) :=
  fdt_add_subnode_namelen m fdt parentoffset name.

Definition fdt_del_node (m : mem) (fdt nodeoffset : Z) : outcome (Z * mem) :=
  rw_check_header! m, fdt ;;
  endoffset ← _fdt_node_end_offset m fdt nodeoffset;
  if endoffset <? 0 then Ok (endoffset, m) else
  Ok (_fdt_splice_struct m fdt (_fdt_offset_ptr m fdt nodeoffset) (endoffset - nodeoffset) 0).

(** [old] and [new] may be the same blob: the header of [old] is read as it is
    at that point. *)
Definition _fdt_packblocks (m : mem) (old new mem_rsv_size struct_size : Z) : mem :=
  let mem_rsv_off := header_size8 in
  let struct_off := s32 (mem_rsv_off + mem_rsv_size) in
  let strings_off := s32 (struct_off + struct_size) in
  let m := memmove m (new + mem_rsv_off) (old + fdt_off_mem_rsvmap m old) mem_rsv_size in
  let m := fdt_set_off_mem_rsvmap m new mem_rsv_off in
  let m := memmove m (new + struct_off) (old + fdt_off_dt_struct m old) struct_size in
  let m := fdt_set_off_dt_struct m new struct_off in
  let m := fdt_set_size_dt_struct m new struct_size in
  let m := memmove m (new + strings_off) (old + fdt_off_dt_strings m old) (fdt_size_dt_strings m old) in
  let m := fdt_set_off_dt_strings m new strings_off in
  fdt_set_size_dt_strings m new (fdt_size_dt_strings m old).

(** [while (fdt_next_tag(fdt, struct_size, &struct_size) != FDT_END);] *)
Fixpoint struct_end (fuel : nat) (m : mem) (fdt offset : Z) : outcome Z :=
  '(tag, nextoffset) ← fdt_next_tag m fdt offset;
  if tag =? FDT_END then Ok nextoffset else
  match fuel with
  | O => Fault OutOfFuel
  | S fuel => struct_end fuel m fdt nextoffset
  end.

Definition fdt_open_into (m : mem) (fdt buf bufsize : Z) : outcome (Z * mem) :=
  let fdtstart := fdt in
  let fdtend := fdtstart + fdt_totalsize m fdt in
  if negb (fdt_check_header m fdt =? 0) then Ok (fdt_check_header m fdt, m) else
  num ← fdt_num_mem_rsv m fdt;
  let mem_rsv_size := s32 ((num + 1) * sizeof_fdt_reserve_entry) in
  struct_size ← (if 17 <=? fdt_version m fdt then Ok (s32 (fdt_size_dt_struct m fdt))
                 else struct_end (fdt_fuel m fdt) m fdt 0);
  if (fdt_version m fdt <? 17) && (struct_size <? 0) then Ok (struct_size, m) else
  if negb (_fdt_blocks_misordered m fdt mem_rsv_size struct_size) then
    '(err, m) ← fdt_move m fdt buf bufsize;
    if negb (err =? 0) then Ok (err, m) else
    let m := fdt_set_version m buf 17 in
    let m := fdt_set_size_dt_struct m buf struct_size in
    Ok (0, fdt_set_totalsize m buf bufsize)
  else
  let newsize := s32 (header_size8 + mem_rsv_size + struct_size + fdt_size_dt_strings m fdt) in
  if bufsize <? newsize then Ok (- FDT_ERR_NOSPACE, m) else
  let overlap := (fdtstart <? buf + newsize) && (buf <? fdtend) in
  let tmp := if overlap then fdtend else buf in
  if overlap && (buf + bufsize <? tmp + newsize) then Ok (- FDT_ERR_NOSPACE, m) else
  let m := _fdt_packblocks m fdt tmp mem_rsv_size struct_size in
  let m := memmove m buf tmp newsize in
  let m := fdt_set_magic m buf FDT_MAGIC in
  let m := fdt_set_totalsize m buf bufsize in
  let m := fdt_set_version m buf 17 in
  let m := fdt_set_last_comp_version m buf 16 in
  Ok (0, fdt_set_boot_cpuid_phys m buf (fdt_boot_cpuid_phys m fdt)).

Definition fdt_pack (m : mem) (fdt : Z) : outcome (Z * mem) :=
  rw_check_header! m, fdt ;;
  num ← fdt_num_mem_rsv m fdt;
  let mem_rsv_size := s32 ((num + 1) * sizeof_fdt_reserve_entry) in
  let m := _fdt_packblocks m fdt fdt mem_rsv_size (s32 (fdt_size_dt_struct m fdt)) in
  Ok (0, fdt_set_totalsize m fdt (_fdt_data_size m fdt)).

(** ** libfdt.h *)

Definition fdt_setprop_u32 (m : mem) (fdt nodeoffset : Z) (name : list Z) (val : Z) : outcome (Z * mem) :=
  fdt_setprop m fdt nodeoffset name (be32 val).
Definition fdt_setprop_u64 (m : mem) (fdt nodeoffset : Z) (name : list Z) (val : Z) : outcome (Z * mem) :=
  fdt_setprop m fdt nodeoffset name (be64 val).
Definition fdt_setprop_cell (m : mem) (fdt nodeoffset : Z) (name : list Z) (val : Z) : outcome (Z * mem) :=
  fdt_setprop_u32 m fdt nodeoffset name val.
Definition fdt_setprop_string (m : mem) (fdt nodeoffset : Z) (name str : list Z) : outcome (Z * mem) :=
  fdt_setprop m fdt nodeoffset name (str ++ [0]).
Definition fdt_appendprop_u32 (m : mem) (fdt nodeoffset : Z) (name : list Z) (val : Z) : outcome (Z * mem) :=
  fdt_appendprop m fdt nodeoffset name (be32 val).
Definition fdt_appendprop_u64 (m : mem) (fdt nodeoffset : Z) (name : list Z) (val : Z) : outcome (Z * mem) :=
  fdt_appendprop m fdt nodeoffset name (be64 val).
Definition fdt_appendprop_cell (m : mem) (fdt nodeoffset : Z) (name : list Z) (val : Z) : outcome (Z * mem) :=
  fdt_appendprop_u32 m fdt nodeoffset name val.
Definition fdt_appendprop_string (m : mem) (fdt nodeoffset : Z) (name str : list Z) : outcome (Z * mem) :=
  fdt_appendprop m fdt nodeoffset name (str ++ [0]).

(** ** fdt_empty_tree.c *)

Definition fdt_create_empty_tree (m : mem) (buf bufsize : Z) : outcome (Z * mem) :=
  '(err, m) ← fdt_create m buf bufsize;
  if negb (err =? 0) then Ok (err, m) else
  let '(err, m) := fdt_finish_reservemap m buf in
  if negb (err =? 0) then Ok (err, m) else
  let '(err, m) := fdt_begin_node m buf [] in
  if negb (err =? 0) then Ok (err, m) else
  let '(err, m) := fdt_end_node m buf in
  if negb (err =? 0) then Ok (err, m) else
  '(err, m) ← fdt_finish m buf;
  if negb (err =? 0) then Ok (err, m) else
  fdt_open_into m buf buf bufsize.
