(* ===== verification/FdtProof.v ===== *)
(** * Flattened device trees: tokens, trees and the walks over them

    A device tree is a [dt]; [blob m fdt root] says that the memory at [fdt]
    holds one in the flattened format, with any padding bytes and any layout of
    the strings block.  The walks of fdt.c and fdt_ro.c are shown to compute
    functions of the token list, and those to search the tree. *)

From Stdlib Require Import Strings.String.
From S2P Require Import Prelude Mem Printf Inet LibcString Fdt FdtRo.
#[local] Open Scope Z_scope.

(** ** The format *)

Inductive token :=
  | TBegin (name : list Z)
  | TEndNode
  | TProp (name val : list Z)
  | TNop.

Definition round4 (n : Z) : Z := (n + 3) / 4 * 4.

Definition len (bs : list Z) : Z := Z.of_nat (length bs).

Definition tok_tag (t : token) : Z :=
  match t with
  | TBegin _ => FDT_BEGIN_NODE
  | TEndNode => FDT_END_NODE
  | TProp _ _ => FDT_PROP
  | TNop => FDT_NOP
  end.

Definition tok_size (t : token) : Z :=
  match t with
  | TBegin name => 4 + round4 (len name + 1)
  | TProp _ val => 12 + round4 (len val)
  | _ => 4
  end.

Fixpoint toks_size (ts : list token) : Z :=
  match ts with
  | [] => 0
  | t :: ts => tok_size t + toks_size ts
  end.

Section Format.
Variables (m : mem) (fdt strs : Z).

(** A big-endian word of the blob. *)
Definition be32_at (p : Z) : Z := fdt32_to_cpu (load32 m p).

(** The token [t] at the address [p]; the strings block is at [strs]. *)
Definition tok_at (p : Z) (t : token) : Prop :=
  be32_at p = tok_tag t /\
  match t with
  | TBegin name => string_at m (nh_name p) name
  | TProp name val =>
      be32_at (prop_len p) = len val /\ load_bytes m (prop_data p) (length val) = val /\
      string_at m (strs + s32 (be32_at (prop_nameoff p))) name
  | _ => True
  end.

Fixpoint toks_at (p : Z) (ts : list token) : Prop :=
  match ts with
  | [] => True
  | t :: ts => tok_at p t /\ toks_at (p + tok_size t) ts
  end.

(** A structure block inside of a blob of less than 2 GiB. *)
Record layout_ok : Prop := {
  hdr_addr : 0 < fdt;
  hdr_struct_ok : fdt_off_dt_struct m fdt + fdt_size_dt_struct m fdt <= fdt_totalsize m fdt;
  hdr_total_ok : fdt_totalsize m fdt < 2 ^ 31
}.

(** A header that [fdt_check_header] accepts. *)
Record header_ok : Prop := {
  hdr_layout :> layout_ok;
  hdr_magic_ok : fdt_magic m fdt = FDT_MAGIC;
  hdr_version_ok : FDT_FIRST_SUPPORTED_VERSION <= fdt_version m fdt;
  hdr_last_comp_ok : fdt_last_comp_version m fdt <= FDT_LAST_SUPPORTED_VERSION
}.

(** From the offset [q] of the structure block on, the tokens [ts] and the end tag. *)
Record sees_in (q : Z) (ts : list token) : Prop := {
  sees_nonneg : 0 <= q;
  sees_aligned : q mod 4 = 0;
  sees_inside : q + toks_size ts + 4 <= fdt_size_dt_struct m fdt;
  sees_toks : toks_at (fdt + fdt_off_dt_struct m fdt + q) ts;
  sees_end : be32_at (fdt + fdt_off_dt_struct m fdt + q + toks_size ts) = FDT_END
}.

End Format.

Notation sees m fdt := (sees_in m fdt (fdt + fdt_off_dt_strings m fdt)).

(** ** Trees *)

#[local] Set Warnings "-register-all".
(** A node or, between nodes, an [FDT_NOP]; among the properties [None] is one. *)
Inductive dt :=
  | Nop
  | Node (name : list Z) (props : list (option (list Z * list Z))) (kids : list dt).

Definition prop_tok (p : option (list Z * list Z)) : token :=
  match p with
  | Some (name, val) => TProp name val
  | None => TNop
  end.

Fixpoint flatten (t : dt) : list token :=
  match t with
  | Nop => [TNop]
  | Node name props kids => TBegin name :: map prop_tok props ++ flat_map flatten kids ++ [TEndNode]
  end.

Definition dt_size (t : dt) : Z := toks_size (flatten t).

Definition dt_props (t : dt) : list (option (list Z * list Z)) :=
  match t with
  | Nop => []
  | Node _ props _ => props
  end.

(** The offset of the first child of the node [t] at [q], and its children. *)
Definition kids_offset (q : Z) (t : dt) : Z :=
  match t with
  | Nop => q
  | Node name props _ => q + tok_size (TBegin name) + toks_size (map prop_tok props)
  end.

Definition dt_kids (t : dt) : list dt :=
  match t with
  | Nop => []
  | Node _ _ kids => kids
  end.

(** The blob at [fdt] holds the tree [root]. *)
Definition blob (m : mem) (fdt : Z) (root : dt) : Prop :=
  header_ok m fdt /\ sees m fdt 0 (flatten root) /\ root <> Nop.

(** The name [s] of a path selects a node named [s], or [s] and a unit address. *)
Definition name_matches (s n : list Z) : bool :=
  bool_decide (n = s) ||
  negb (bool_decide (is_Some (find_char chr_at s))) && bool_decide (take (S (length s)) n = s ++ [chr_at]).

Definition selects (s : list Z) (t : dt) : bool :=
  match t with
  | Nop => false
  | Node n _ _ => name_matches s n
  end.

(** The first selected tree of [ts], which starts at [q], with its offset. *)
Fixpoint find_child (s : list Z) (ts : list dt) (q : Z) : option (Z * dt) :=
  match ts with
  | [] => None
  | t :: ts => if selects s t then Some (q, t) else find_child s ts (q + dt_size t)
  end.

Fixpoint dt_lookup (path : list (list Z)) (q : Z) (t : dt) : option (Z * dt) :=
  match path with
  | [] => Some (q, t)
  | s :: path => '(q, t) ← find_child s (dt_kids t) (kids_offset q t); dt_lookup path q t
  end.

(** The value of the first property with a name. *)
Fixpoint find_prop (name : list Z) (props : list (option (list Z * list Z))) : option (list Z) :=
  match props with
  | [] => None
  | Some (n, v) :: props => if bool_decide (n = name) then Some v else find_prop name props
  | None :: props => find_prop name props
  end.

Section DtInd.
Variable P : dt -> Prop.
Hypotheses (HNop : P Nop) (HNode : forall n ps ks, Forall P ks -> P (Node n ps ks)).

Fixpoint dt_ind' (t : dt) : P t :=
  match t with
  | Nop => HNop
  | Node n ps ks =>
      HNode n ps ks ((fix go ks : Forall P ks :=
        match ks with
        | [] => Forall_nil_2 P
        | k :: ks => Forall_cons_2 P k ks (dt_ind' k) (go ks)
        end) ks)
  end.

End DtInd.

(** ** Arithmetic *)

Lemma s32_small z : - 2 ^ 31 <= z < 2 ^ 31 -> s32 z = z.
Proof.
  intros Hz. unfold s32, u32. destruct (Z.ltb_spec (z mod 2 ^ 32) (2 ^ 31)).
  - destruct (Z.lt_ge_cases z 0); [|by rewrite Z.mod_small by lia].
    rewrite <- (Z_mod_plus_full z 1), Z.mod_small in H by lia. lia.
  - destruct (Z.lt_ge_cases z 0); [|rewrite Z.mod_small in H; lia].
    rewrite <- (Z_mod_plus_full z 1), Z.mod_small by lia. lia.
Qed.

Lemma round4_bounds n : n <= round4 n < n + 4.
Proof. unfold round4. pose proof (Z.mod_pos_bound (n + 3) 4). pose proof (Z.div_mod (n + 3) 4). lia. Qed.

Lemma round4_mod n : round4 n mod 4 = 0.
Proof. apply Z_mod_mult. Qed.

Lemma round4_shift n k : k mod 4 = 0 -> round4 (k + n) = k + round4 n.
Proof.
  intros Hk. apply Z.mod_divide in Hk as [c ->]; [|lia]. unfold round4.
  replace (c * 4 + n + 3) with (n + 3 + c * 4) by lia. rewrite Z.div_add by lia. lia.
Qed.

Lemma TAGALIGN_small n : 0 <= n -> round4 n < 2 ^ 31 -> FDT_TAGALIGN n = round4 n.
Proof.
  intros Hn Hr. pose proof (round4_bounds n). unfold FDT_TAGALIGN, tagalign_size. rewrite u64_small by lia. fold (round4 n).
  apply s32_small. lia.
Qed.

Lemma tok_size_bounds t : 4 <= tok_size t.
Proof.
  destruct t as [n| |n v|]; simpl; unfold len; [|lia| |lia].
  - pose proof (round4_bounds (Z.of_nat (length n) + 1)). lia.
  - pose proof (round4_bounds (Z.of_nat (length v))). lia.
Qed.

Lemma tok_size_mod t : tok_size t mod 4 = 0.
Proof.
  destruct t as [n| |n v|]; simpl; [|done| |done]; rewrite Z.add_comm, <- Z.add_mod_idemp_l, round4_mod by lia; done.
Qed.

Lemma toks_size_bounds ts : 4 * Z.of_nat (length ts) <= toks_size ts.
Proof. induction ts as [|t ts IH]; simpl; [lia|]. pose proof (tok_size_bounds t). lia. Qed.

Lemma toks_size_app ts ts' : toks_size (ts ++ ts') = toks_size ts + toks_size ts'.
Proof. induction ts as [|t ts IH]; simpl; lia. Qed.

Lemma header_checked m fdt : header_ok m fdt -> fdt_check_header m fdt = 0.
Proof.
  intros []. unfold fdt_check_header. rewrite hdr_magic_ok0, Z.eqb_refl.
  destruct (Z.ltb_spec (fdt_version m fdt) FDT_FIRST_SUPPORTED_VERSION); [lia|].
  destruct (Z.ltb_spec FDT_LAST_SUPPORTED_VERSION (fdt_last_comp_version m fdt)); [lia|]. done.
Qed.

(** ** Tags *)

Section Walk.
Context {m : mem} {fdt strs : Z} (Hh : layout_ok m fdt).

Lemma bswap32_range x : 0 <= bswap32 x < 2 ^ 32.
Proof.
  unfold bswap32. pose proof (u8_range x). pose proof (u8_range (x / 2 ^ 8)).
  pose proof (u8_range (x / 2 ^ 16)). pose proof (u8_range (x / 2 ^ 24)). lia.
Qed.

Lemma header_bounds :
  0 <= fdt_off_dt_struct m fdt /\ 0 <= fdt_size_dt_struct m fdt /\
  fdt_off_dt_struct m fdt + fdt_size_dt_struct m fdt <= fdt_totalsize m fdt < 2 ^ 31.
Proof.
  destruct Hh. unfold fdt_off_dt_struct, fdt_size_dt_struct, fdt32_to_cpu in *.
  pose proof (bswap32_range (load32 m (hdr_off_dt_struct fdt))).
  pose proof (bswap32_range (load32 m (hdr_size_dt_struct fdt))). lia.
Qed.

Lemma offset_ptr_in q n :
  0 <= q -> 0 <= n -> q + n <= fdt_size_dt_struct m fdt ->
  fdt_offset_ptr m fdt q n = fdt + fdt_off_dt_struct m fdt + q.
Proof.
  intros Hq Hn Hin. pose proof header_bounds. unfold fdt_offset_ptr.
  rewrite !u32_small by (rewrite ?u32_small; lia).
  repeat match goal with |- context[?a <? ?b] => destruct (Z.ltb_spec a b); try lia end.
  cbn [orb]. rewrite andb_false_r. done.
Qed.

Lemma offset_ptr_some q n :
  fdt_offset_ptr m fdt q n <> 0 -> fdt_offset_ptr m fdt q n = fdt + fdt_off_dt_struct m fdt + q.
Proof. unfold fdt_offset_ptr. repeat case_match; done. Qed.

Lemma skip_name_spec n fuel q :
  0 <= q -> q + len n + 1 <= fdt_size_dt_struct m fdt -> (length n <= fuel)%nat ->
  string_at m (fdt + fdt_off_dt_struct m fdt + q) n ->
  skip_name fuel m fdt q = Ok (Some (q + len n + 1)).
Proof.
  pose proof header_bounds. pose proof (hdr_addr _ _ Hh). unfold len.
  revert fuel q. induction n as [|b n IH]; intros fuel q Hq Hin Hf Hs; cbn [length] in *;
    destruct fuel as [|fuel]; cbn [skip_name]; try lia;
    rewrite offset_ptr_in by lia; (destruct (Z.eqb_spec (fdt + fdt_off_dt_struct m fdt + q) 0); [lia|]).
  - apply string_at_nil in Hs. rewrite Hs. simpl. do 2 f_equal. rewrite s32_small; lia.
  - apply string_at_nil in Hs. rewrite Hs. simpl. do 2 f_equal. rewrite s32_small; lia.
  - apply string_at_cons in Hs as (-> & Hb & Hs). destruct (Z.eqb_spec b 0); [done|].
    rewrite s32_small by lia. rewrite IH by (try lia; by rewrite Z.add_assoc). do 2 f_equal. lia.
Qed.

Lemma next_tag_end q : sees_in m fdt strs q [] -> fdt_next_tag m fdt q = Ok (FDT_END, q + 4).
Proof.
  intros [Hq Ha Hin _ Hs]. cbn [toks_size] in *. rewrite Z.add_0_r in Hs. pose proof header_bounds. pose proof (hdr_addr _ _ Hh).
  unfold fdt_next_tag. rewrite offset_ptr_in by (change FDT_TAGSIZE with 4; lia).
  destruct (Z.eqb_spec (fdt + fdt_off_dt_struct m fdt + q) 0); [lia|]. unfold be32_at in Hs. rewrite Hs.
  cbn [Z.eqb FDT_END FDT_BEGIN_NODE FDT_PROP Pos.eqb orb]. rewrite Ok_bind. change FDT_TAGSIZE with 4.
  rewrite s32_small by lia. rewrite offset_ptr_in by lia.
  destruct (Z.eqb_spec (fdt + fdt_off_dt_struct m fdt + q) 0); [lia|].
  assert (round4 (q + 4) = q + 4) as Hr by (by rewrite round4_shift).
  rewrite TAGALIGN_small by lia. by rewrite Hr.
Qed.

(** The offset behind a token, before it is rounded up. *)
Definition tok_end (t : token) : Z :=
  match t with
  | TBegin name => 4 + len name + 1
  | TProp _ val => 12 + len val
  | _ => 4
  end.

Lemma tok_end_round q t : q mod 4 = 0 -> round4 (q + tok_end t) = q + tok_size t.
Proof.
  intros Hq. destruct t; cbn [tok_end tok_size]; rewrite round4_shift by done; f_equal; try done.
  all: rewrite <- ?Z.add_assoc; by rewrite round4_shift.
Qed.

Lemma tok_end_bounds t : 4 <= tok_end t <= tok_size t.
Proof.
  destruct t; cbn [tok_end tok_size]; unfold len; try lia.
  all: match goal with |- context[round4 ?n] => pose proof (round4_bounds n) end; lia.
Qed.

Lemma next_tag_tok q t ts :
  sees_in m fdt strs q (t :: ts) -> fdt_next_tag m fdt q = Ok (tok_tag t, q + tok_size t).
Proof.
  intros [Hq Ha Hin [[Ht Hp] _] _]. cbn [toks_size] in Hin. pose proof header_bounds. pose proof (hdr_addr _ _ Hh).
  pose proof (toks_size_bounds ts). pose proof (tok_end_bounds t). pose proof (tok_end_round q t Ha).
  set (base := fdt + fdt_off_dt_struct m fdt) in *.
  unfold fdt_next_tag. rewrite offset_ptr_in by (change FDT_TAGSIZE with 4; lia). fold base.
  destruct (Z.eqb_spec (base + q) 0) as [|_]; [lia|]. unfold be32_at in Ht. rewrite Ht. change FDT_TAGSIZE with 4.
  rewrite s32_small by lia.
  match goal with |- (?o ≫= _) = _ => assert (o = Ok (Some (q + tok_end t))) as -> end.
  { destruct t as [n| |n v|]; cbn [tok_tag tok_end] in *.
    - cbn [Z.eqb FDT_BEGIN_NODE Pos.eqb].
      rewrite (skip_name_spec n) by (unfold fdt_fuel, len in *; try lia; fold base; by rewrite Z.add_assoc).
      do 2 f_equal. lia.
    - done.
    - cbn [Z.eqb FDT_BEGIN_NODE FDT_PROP Pos.eqb]. rewrite offset_ptr_in by lia. fold base.
      destruct (Z.eqb_spec (base + (q + 4)) 0); [lia|]. destruct Hp as (Hl & _).
      unfold be32_at, prop_len in Hl. rewrite Z.add_assoc, Hl. change (sizeof_fdt_property - 4) with 8.
      unfold len in *. rewrite s32_small by lia. do 2 f_equal. lia.
    - done. }
  rewrite Ok_bind. rewrite offset_ptr_in by lia. fold base. destruct (Z.eqb_spec (base + q) 0); [lia|].
  rewrite TAGALIGN_small by lia. by rewrite tok_end_round.
Qed.

Lemma sees_tail q t ts : sees_in m fdt strs q (t :: ts) -> sees_in m fdt strs (q + tok_size t) ts.
Proof.
  intros [Hq Ha Hin [_ Hs] He]. cbn [toks_size] in *. pose proof (tok_size_bounds t).
  split; [lia| |lia|by rewrite Z.add_assoc|by rewrite Z.add_assoc, <- (Z.add_assoc _ (tok_size t))].
  rewrite Z.add_mod, Ha, tok_size_mod by lia. done.
Qed.

Lemma sees_app q ts ts' : sees_in m fdt strs q (ts ++ ts') -> sees_in m fdt strs (q + toks_size ts) ts'.
Proof.
  revert q. induction ts as [|t ts IH]; intros q Hs; cbn [app toks_size] in *; [by rewrite Z.add_0_r|].
  rewrite Z.add_assoc. apply IH. by apply sees_tail in Hs.
Qed.

Lemma sees_fuel q ts : sees_in m fdt strs q ts -> (length ts < fdt_fuel m fdt)%nat.
Proof.
  intros [Hq _ Hin _ _]. pose proof header_bounds. pose proof (toks_size_bounds ts). unfold fdt_fuel. lia.
Qed.

End Walk.
