(* ===== verification/FdtLookup.v ===== *)
(** * Flattened device trees: node and property lookup

    [fdt_next_node], [fdt_subnode_offset], [fdt_path_offset] and [fdt_getprop]
    on a blob that holds a tree ([blob] of FdtProof). *)

From Stdlib Require Import Strings.String.
From S2P Require Import Prelude Mem Printf Inet LibcString Fdt FdtRo FdtProof.
#[local] Open Scope Z_scope.
#[local] Set Default Proof Using "All".

(** ** What the walks compute from the tokens *)

(** [fdt_next_node] from the offset [q], where the tokens [ts] start. *)
Fixpoint to_node (ts : list token) (q : Z) (d : option Z) : Z * option Z :=
  match ts with
  | [] => (- FDT_ERR_NOTFOUND, d)
  | TBegin _ :: _ => (q, (fun d => d + 1) <$> d)
  | TEndNode :: ts =>
      match d with
      | Some d => if d - 1 <? 0 then (q + 4, Some (d - 1)) else to_node ts (q + 4) (Some (d - 1))
      | None => to_node ts (q + 4) None
      end
  | t :: ts => to_node ts (q + tok_size t) d
  end.

(** [fdt_subnode_offset_namelen]: the first node of depth 1 that [s] selects. *)
Fixpoint scan_child (s : list Z) (ts : list token) (q d : Z) : Z :=
  match ts with
  | [] => - FDT_ERR_NOTFOUND
  | TBegin n :: ts =>
      if (d + 1 =? 1) && name_matches s n then q else scan_child s ts (q + tok_size (TBegin n)) (d + 1)
  | TEndNode :: ts => if d - 1 <? 0 then - FDT_ERR_NOTFOUND else scan_child s ts (q + 4) (d - 1)
  | t :: ts => scan_child s ts (q + tok_size t) d
  end.

(** [_nextprop]. *)
Fixpoint to_prop (ts : list token) (q : Z) : Z :=
  match ts with
  | [] => - FDT_ERR_BADSTRUCTURE
  | TProp _ _ :: _ => q
  | TNop :: ts => to_prop ts (q + 4)
  | _ :: _ => - FDT_ERR_NOTFOUND
  end.

(** [fdt_get_property_namelen]: the offset and the value. *)
Fixpoint scan_prop (s : list Z) (ts : list token) (q : Z) : Z + Z * list Z :=
  match ts with
  | [] => inl (- FDT_ERR_BADSTRUCTURE)
  | TProp n v :: ts => if bool_decide (n = s) then inr (q, v) else scan_prop s ts (q + tok_size (TProp n v))
  | TNop :: ts => scan_prop s ts (q + 4)
  | _ :: _ => inl (- FDT_ERR_NOTFOUND)
  end.

Section Lookup.
Context {m : mem} {fdt : Z} (Hh : header_ok m fdt).

Notation base := (fdt + fdt_off_dt_struct m fdt).

(** ** Nodes *)

Lemma next_node_loop_spec ts fuel q d :
  sees m fdt q ts -> (length ts < fuel)%nat -> next_node_loop fuel m fdt q d = Ok (to_node ts q d).
Proof.
  revert fuel q d. induction ts as [|t ts IH]; intros fuel q d Hs Hf;
    (destruct fuel as [|fuel]; cbn [length] in Hf; [lia|]); cbn [next_node_loop].
  - rewrite (next_tag_end Hh) by done. rewrite Ok_bind. cbn [Z.eqb FDT_END FDT_BEGIN_NODE FDT_END_NODE Pos.eqb].
    pose proof (sees_nonneg _ _ _ _ _ Hs). destruct (Z.leb_spec 0 (q + 4)); [done|lia].
  - rewrite (next_tag_tok Hh _ t ts) by done. rewrite Ok_bind.
    pose proof (sees_tail q t ts Hs) as Hs'.
    destruct t as [n| |n v|]; cbn [tok_tag Z.eqb FDT_END FDT_BEGIN_NODE FDT_END_NODE FDT_PROP FDT_NOP Pos.eqb to_node].
    + done.
    + destruct d as [d|]; [destruct (Z.ltb_spec (d - 1) 0); [done|]|]; apply IH; auto with lia.
    + apply IH; auto with lia.
    + apply IH; auto with lia.
Qed.

Lemma check_node_offset_spec q n ts :
  sees m fdt q (TBegin n :: ts) -> _fdt_check_node_offset m fdt q = Ok (q + tok_size (TBegin n)).
Proof.
  intros Hs. pose proof (sees_nonneg _ _ _ _ _ Hs). pose proof (sees_aligned _ _ _ _ _ Hs) as Ha.
  unfold _fdt_check_node_offset. destruct (Z.ltb_spec q 0); [lia|]. change FDT_TAGSIZE with 4. rewrite Ha.
  cbn [orb negb Z.eqb]. rewrite (next_tag_tok Hh _ _ _ Hs), Ok_bind. done.
Qed.

Lemma next_node_spec q n ts d :
  sees m fdt q (TBegin n :: ts) -> fdt_next_node m fdt q d = Ok (to_node ts (q + tok_size (TBegin n)) d).
Proof.
  intros Hs. pose proof (sees_nonneg _ _ _ _ _ Hs). unfold fdt_next_node.
  destruct (Z.leb_spec 0 q); [|lia]. rewrite (check_node_offset_spec q n ts), Ok_bind by done.
  pose proof (tok_size_bounds (TBegin n)). destruct (Z.ltb_spec (q + tok_size (TBegin n)) 0); [lia|].
  pose proof (sees_tail q _ ts Hs) as Hs'. apply next_node_loop_spec; [done|]. by eapply (sees_fuel Hh).
Qed.

Lemma next_node_first q ts d :
  sees m fdt 0 ts -> q < 0 -> fdt_next_node m fdt q d = Ok (to_node ts 0 d).
Proof.
  intros Hs Hq. unfold fdt_next_node. destruct (Z.leb_spec 0 q); [lia|]. rewrite Ok_bind.
  apply next_node_loop_spec; [done|]. by eapply (sees_fuel Hh).
Qed.

(** *** Names *)

Lemma string_prefix p (n s : list Z) :
  string_at m p n -> (length s <= length n)%nat -> load_bytes m p (length s) = take (length s) n.
Proof. intros [Hb _ _] Hl. rewrite <- Hb. by rewrite take_load_bytes. Qed.

Lemma string_byte p n i :
  string_at m p n -> (i < length n)%nat -> n !! i = Some (load8 m (p + Z.of_nat i)).
Proof. intros [Hb _ _] Hl. rewrite <- Hb. by apply load_bytes_lookup. Qed.

(** A longer string without zeros is not at [p]. *)
Lemma string_longer p (n s : list Z) :
  string_at m p n -> Forall (fun b => b <> 0) s -> (length n < length s)%nat -> load_bytes m p (length s) <> s.
Proof.
  intros [_ _ He] Hz Hl Heq. rewrite Forall_forall in Hz. apply (Hz 0); [|done].
  rewrite <- Heq. apply list_elem_of_lookup. exists (length n). rewrite load_bytes_lookup by lia. by rewrite He.
Qed.

Lemma name_matches_short s n : (length n < length s)%nat -> name_matches s n = false.
Proof.
  intros Hl. unfold name_matches. rewrite bool_decide_eq_false_2 by (intros ->; lia).
  rewrite (bool_decide_eq_false_2 (take _ _ = _)); [by rewrite andb_false_r|].
  intros Heq. apply (f_equal length) in Heq. rewrite length_take, length_app in Heq. cbn [length] in Heq. lia.
Qed.

Lemma take_all_iff {A} (s n : list A) : length n = length s -> take (length s) n = s <-> n = s.
Proof. intros Hl. rewrite <- Hl, firstn_all. done. Qed.

Lemma nodename_eq_spec q n ts s :
  sees m fdt q (TBegin n :: ts) -> Forall (fun b => b <> 0) s ->
  _fdt_nodename_eq m fdt q s = name_matches s n.
Proof.
  intros [Hq Ha Hin [[_ Hn] _] _] Hz. pose proof (header_bounds Hh). cbn [toks_size tok_size] in *.
  pose proof (round4_bounds (len n + 1)). pose proof (toks_size_bounds ts).
  change (nh_name (base + q)) with (base + q + 4) in Hn.
  unfold _fdt_nodename_eq. change FDT_TAGSIZE with 4. rewrite s32_small by (unfold len in *; lia).
  destruct (decide (length n < length s)%nat) as [Hl|Hl].
  { rewrite name_matches_short by done. destruct (Z.eqb_spec (fdt_offset_ptr m fdt (q + 4) (Z.of_nat (length s) + 1)) 0) as [|Hp]; [done|].
    rewrite (offset_ptr_some _ _ Hp), Z.add_assoc. unfold memeq.
    rewrite bool_decide_eq_false_2 by (by apply (string_longer _ n)). done. }
  rewrite (offset_ptr_in Hh) by (unfold len in *; lia). rewrite Z.add_assoc.
  pose proof (hdr_addr _ _ Hh). destruct (Z.eqb_spec (base + q + 4) 0); [lia|].
  unfold memeq. rewrite (string_prefix _ n s) by (done || lia). unfold name_matches.
  destruct (decide (length n = length s)) as [He|He].
  - destruct Hn as [_ _ Hend]. rewrite <- He, Hend, firstn_all. cbn [Z.eqb].
    rewrite (bool_decide_eq_false_2 (take (S _) n = _)); [|intros Hc; apply (f_equal length) in Hc; rewrite length_take, length_app in Hc; cbn [length] in Hc; lia].
    rewrite andb_false_r, orb_false_r. by destruct (bool_decide (n = s)).
  - rewrite (bool_decide_eq_false_2 (n = s)) by congruence. cbn [orb].
    pose proof (string_byte _ n (length s) Hn ltac:(lia)) as Hb.
    pose proof (string_nonzero _ _ _ Hn) as Hnz. rewrite Forall_lookup in Hnz. specialize (Hnz _ _ Hb).
    rewrite (take_S_r _ _ _ Hb). destruct (Z.eqb_spec (load8 m (base + q + 4 + Z.of_nat (length s))) 0); [done|].
    set (b := load8 m (base + q + 4 + Z.of_nat (length s))) in *.
    destruct (decide (take (length s) n = s)) as [Ht|Ht].
    + rewrite Ht, (bool_decide_eq_true_2 (s = s)) by done. cbn [negb]. destruct (Z.eqb_spec b chr_at) as [->|Hc].
      * rewrite (bool_decide_eq_true_2 (s ++ [chr_at] = _)) by done. by destruct (negb _).
      * rewrite (bool_decide_eq_false_2 (s ++ [b] = _)) by (intros [_ [= ->]]%app_inj_1; done). by rewrite !andb_false_r.
    + rewrite (bool_decide_eq_false_2 (take _ n = s)) by done. cbn [negb].
      rewrite (bool_decide_eq_false_2 (_ ++ _ = _)); [by rewrite andb_false_r|].
      intros [? _]%app_inj_2; done.
Qed.

(** *** Children *)

Lemma subnode_loop_spec s ts fuel q d :
  Forall (fun b => b <> 0) s -> 0 <= d -> sees m fdt q ts -> (length ts <= fuel)%nat ->
  (let '(q', d') := to_node ts q (Some d) in subnode_loop fuel m fdt q' (the_depth d') s) =
  Ok (scan_child s ts q d).
Proof.
  intros Hz. revert fuel q d. induction ts as [|t ts IH]; intros fuel q d Hd Hs Hf; cbn [length] in Hf.
  - cbn [to_node]. change (the_depth (Some d)) with d. destruct fuel; cbn [subnode_loop];
      change (0 <=? - FDT_ERR_NOTFOUND) with false; cbn [andb]; (destruct (Z.ltb_spec d 0); [lia|done]).
  - pose proof (sees_tail q t ts Hs) as Hs'. pose proof (sees_nonneg _ _ _ _ _ Hs).
    destruct t as [n| |n v|]; cbn [to_node scan_child]; [| |apply IH; auto with lia..].
    + change (the_depth _) with (d + 1). destruct fuel as [|fuel]; [lia|]. cbn [subnode_loop].
      destruct (Z.leb_spec 0 q); [|lia]. destruct (Z.leb_spec 0 (d + 1)); [|lia]. cbn [andb].
      rewrite (nodename_eq_spec q n ts s) by done.
      destruct ((d + 1 =? 1) && name_matches s n); [done|].
      rewrite (next_node_spec q n ts), Ok_bind by done. apply IH; auto with lia.
    + destruct (Z.ltb_spec (d - 1) 0); [|apply IH; auto with lia].
      change (the_depth _) with (d - 1). destruct fuel; [lia|]. cbn [subnode_loop].
      destruct (Z.leb_spec 0 (d - 1)); [lia|]. rewrite andb_false_r. destruct (Z.ltb_spec (d - 1) 0); [done|lia].
Qed.

Lemma subnode_offset_scan s q n ts :
  Forall (fun b => b <> 0) s -> sees m fdt q (TBegin n :: ts) ->
  fdt_subnode_offset_namelen m fdt q s = Ok (scan_child s ts (q + tok_size (TBegin n)) 0).
Proof.
  intros Hz Hs. unfold fdt_subnode_offset_namelen. rewrite (header_checked _ _ Hh). cbn [Z.eqb negb].
  pose proof (sees_nonneg _ _ _ _ _ Hs). pose proof (sees_fuel Hh _ _ Hs) as Hf. cbn [length] in Hf.
  unfold fdt_fuel in *. cbn [subnode_loop]. destruct (Z.leb_spec 0 q); [|lia].
  cbn [andb Z.leb Z.eqb Z.compare]. rewrite (next_node_spec q n ts), Ok_bind by done.
  apply subnode_loop_spec; [done|lia| |lia]. by apply sees_tail in Hs.
Qed.

End Lookup.

(** ** Searching a tree *)

Lemma scan_props s ps ts q d :
  scan_child s (map prop_tok ps ++ ts) q d = scan_child s ts (q + toks_size (map prop_tok ps)) d.
Proof.
  revert q. induction ps as [|[[n v]|] ps IH]; intros q; cbn [map prop_tok app scan_child toks_size].
  - by rewrite Z.add_0_r.
  - by rewrite IH, Z.add_assoc.
  - by rewrite IH, Z.add_assoc.
Qed.

(** A subtree below the children is skipped. *)
Lemma scan_subtree s t ts q d :
  1 <= d -> scan_child s (flatten t ++ ts) q d = scan_child s ts (q + dt_size t) d.
Proof.
  unfold dt_size. revert ts q d. induction t as [|n ps ks IH] using dt_ind'; intros ts q d Hd; [done|].
  assert (forall ts q d, 2 <= d ->
    scan_child s (flat_map flatten ks ++ ts) q d = scan_child s ts (q + toks_size (flat_map flatten ks)) d) as Hks.
  { clear -IH. induction IH as [|k ks Hk _ IH]; intros ts q d Hd; cbn [flat_map app toks_size].
    - by rewrite Z.add_0_r.
    - rewrite <- app_assoc, Hk, IH by lia. rewrite toks_size_app. f_equal. lia. }
  cbn [flatten app scan_child toks_size]. destruct (Z.eqb_spec (d + 1) 1); [lia|]. cbn [andb].
  rewrite <- !app_assoc, scan_props, Hks by lia. cbn [app scan_child].
  destruct (Z.ltb_spec (d + 1 - 1) 0); [lia|]. rewrite !toks_size_app. cbn [toks_size tok_size]. f_equal; lia.
Qed.

Definition found (o : option (Z * dt)) : Z :=
  match o with
  | Some (q, _) => q
  | None => - FDT_ERR_NOTFOUND
  end.

Lemma scan_children s ks ts q :
  scan_child s (flat_map flatten ks ++ TEndNode :: ts) q 0 = found (find_child s ks q).
Proof.
  revert q. induction ks as [|[|n ps kk] ks IH]; intros q; cbn [flat_map app find_child selects]; [done|..].
  - apply IH.
  - unfold dt_size. cbn [flatten app scan_child]. change (0 + 1 =? 1) with true. cbn [andb].
    destruct (name_matches s n); [done|]. rewrite <- !app_assoc, scan_props.
    assert (forall ts q, scan_child s (flat_map flatten kk ++ ts) q 1 = scan_child s ts (q + toks_size (flat_map flatten kk)) 1) as Hkk.
    { clear. induction kk as [|k kk IH]; intros ts q; cbn [flat_map app toks_size]; [by rewrite Z.add_0_r|].
      rewrite <- app_assoc, scan_subtree, IH by lia. unfold dt_size. rewrite toks_size_app. f_equal. lia. }
    rewrite Z.add_0_l, Hkk. cbn [app scan_child]. change (1 - 1 <? 0) with false. cbn iota.
    rewrite IH. do 2 f_equal. cbn [toks_size]. rewrite !toks_size_app. cbn [toks_size tok_size]. lia.
Qed.

(** ** Paths *)

(** The node [t] is at the offset [q]. *)
Definition tree_at (m : mem) (fdt q : Z) (t : dt) : Prop := t <> Nop /\ exists ts, sees m fdt q (flatten t ++ ts).

(** A path: its names, each behind a slash, and [k] slashes at the end. *)
Fixpoint path_of (names : list (list Z)) (k : nat) : list Z :=
  match names with
  | [] => replicate k chr_slash
  | s :: names => chr_slash :: s ++ path_of names k
  end.

Definition path_name (s : list Z) : Prop := s <> [] /\ Forall (fun b => b <> 0 /\ b <> chr_slash) s.

Lemma skip_slashes_replicate k : skip_slashes (replicate k chr_slash) = [].
Proof. by induction k. Qed.

Lemma skip_slashes_name s rest : path_name s -> skip_slashes (chr_slash :: s ++ rest) = s ++ rest.
Proof.
  intros [Hne Hs]. destruct s as [|b s]; [done|]. apply Forall_cons in Hs as [[_ Hb] _].
  cbn [skip_slashes app]. change (chr_slash =? chr_slash) with true. cbn iota.
  destruct (Z.eqb_spec b chr_slash); [done|done].
Qed.

Lemma find_slash_app s rest :
  Forall (fun b => b <> 0 /\ b <> chr_slash) s ->
  find_char chr_slash (s ++ rest) = (fun i => (length s + i)%nat) <$> find_char chr_slash rest.
Proof.
  induction 1 as [|b s [_ Hb] _ IH]; cbn [app find_char length].
  - by destruct (find_char chr_slash rest).
  - destruct (Z.eqb_spec b chr_slash); [done|]. rewrite IH. by destruct (find_char chr_slash rest).
Qed.

Lemma component_name s names k :
  path_name s -> component (s ++ path_of names k) = (s, path_of names k).
Proof.
  intros [Hne Hs]. unfold component. rewrite find_slash_app by done.
  assert (path_of names k = [] \/ find_char chr_slash (path_of names k) = Some O) as [->| ->].
  { destruct names as [|s' names]; [|by right]. destruct k; [by left|by right]. }
  - cbn [find_char fmap option_fmap option_map]. by rewrite app_nil_r.
  - cbn [fmap option_fmap option_map]. rewrite Nat.add_0_r. by rewrite take_app_length, drop_app_length.
Qed.

Lemma path_name_nonzero s : path_name s -> Forall (fun b => b <> 0) s.
Proof. intros [_ Hs]. eapply Forall_impl; [done|]. by intros b []. Qed.

Section Paths.
Context {m : mem} {fdt : Z} (Hh : header_ok m fdt).

Lemma subnode_offset_finds q t s :
  tree_at m fdt q t -> Forall (fun b => b <> 0) s ->
  fdt_subnode_offset_namelen m fdt q s = Ok (found (find_child s (dt_kids t) (kids_offset q t))).
Proof.
  intros [Hn [ts Hs]] Hz. destruct t as [|n ps ks]; [done|]. cbn [flatten app] in Hs.
  rewrite (subnode_offset_scan Hh s q _ _ Hz Hs). rewrite <- !app_assoc, scan_props. cbn [app].
  by rewrite scan_children.
Qed.

Lemma find_child_at s q t q' t' :
  tree_at m fdt q t -> find_child s (dt_kids t) (kids_offset q t) = Some (q', t') -> tree_at m fdt q' t'.
Proof.
  intros [Hn [ts Hs]]. destruct t as [|n ps ks]; [done|]. cbn [flatten app dt_kids kids_offset] in *.
  apply sees_tail in Hs. rewrite <- !app_assoc in Hs. apply sees_app in Hs.
  revert Hs. generalize (q + tok_size (TBegin n) + toks_size (map prop_tok ps)).
  generalize ([TEndNode] ++ ts). intros ts' q0. clear Hn. revert q0.
  induction ks as [|k ks IH]; intros q0 Hs Hf; cbn [flat_map find_child] in *; [done|].
  rewrite <- app_assoc in Hs. destruct (selects s k) eqn:Hk.
  - injection Hf as <- <-. split; [by intros ->|by eexists].
  - apply sees_app in Hs. by apply (IH (q0 + dt_size k)).
Qed.

Lemma path_loop_spec names k : Forall path_name names -> forall fuel q t,
  tree_at m fdt q t -> (length (path_of names k) <= fuel)%nat ->
  path_loop fuel m fdt q (path_of names k) = Ok (found (dt_lookup names q t)).
Proof.
  induction 1 as [|s names Hs Hnames IH]; intros fuel q t Ht Hf; cbn [path_of dt_lookup] in *.
  - destruct fuel; cbn [path_loop]; rewrite skip_slashes_replicate; by destruct k.
  - destruct fuel as [|fuel]; [cbn in Hf; lia|]. cbn [path_loop].
    assert (length (path_of names k) <= fuel)%nat by (cbn [length] in Hf; rewrite length_app in Hf; lia). rewrite skip_slashes_name by done.
    destruct (s ++ path_of names k) as [|c cs] eqn:Hc; [by destruct s, Hs|]. rewrite <- Hc.
    rewrite component_name by done. rewrite (subnode_offset_finds q t s) by auto using path_name_nonzero.
    rewrite Ok_bind. destruct (find_child s (dt_kids t) (kids_offset q t)) as [[q' t']|] eqn:Hfc; [|done].
    cbn [found mbind option_bind]. apply find_child_at in Hfc as Ht'; [|done].
    destruct Ht' as [Hn' [ts Hs']]. pose proof (sees_nonneg _ _ _ _ _ Hs'). destruct (Z.ltb_spec q' 0); [lia|].
    apply IH; [by split; [|exists ts]|done].
Qed.

Lemma blob_tree root : sees m fdt 0 (flatten root) -> root <> Nop -> tree_at m fdt 0 root.
Proof. intros Hs Hr. split; [done|]. exists []. by rewrite app_nil_r. Qed.

(** ** Properties *)

Lemma nextprop_spec ts fuel q :
  sees m fdt q ts -> (length ts < fuel)%nat -> nextprop_loop fuel m fdt q = Ok (to_prop ts q).
Proof.
  revert fuel q. induction ts as [|t ts IH]; intros fuel q Hs Hf;
    (destruct fuel as [|fuel]; cbn [length] in Hf; [lia|]); cbn [nextprop_loop].
  - rewrite (next_tag_end Hh), Ok_bind by done. change (FDT_END =? FDT_END) with true. cbn iota.
    pose proof (sees_nonneg _ _ _ _ _ Hs). destruct (Z.leb_spec 0 (q + 4)); [done|lia].
  - rewrite (next_tag_tok Hh _ t ts), Ok_bind by done. pose proof (sees_tail q t ts Hs) as Hs'.
    destruct t as [n| |n v|]; cbn [tok_tag Z.eqb FDT_END FDT_BEGIN_NODE FDT_END_NODE FDT_PROP FDT_NOP Pos.eqb to_prop];
      [done|done|done|]. apply IH; auto with lia.
Qed.

Lemma check_prop_offset_spec q n v ts :
  sees m fdt q (TProp n v :: ts) -> _fdt_check_prop_offset m fdt q = Ok (q + tok_size (TProp n v)).
Proof.
  intros Hs. pose proof (sees_nonneg _ _ _ _ _ Hs). pose proof (sees_aligned _ _ _ _ _ Hs) as Ha.
  unfold _fdt_check_prop_offset. destruct (Z.ltb_spec q 0); [lia|]. change FDT_TAGSIZE with 4. rewrite Ha.
  cbn [orb negb Z.eqb]. rewrite (next_tag_tok Hh _ _ _ Hs), Ok_bind. done.
Qed.

Lemma next_property_offset_spec q n v ts :
  sees m fdt q (TProp n v :: ts) ->
  fdt_next_property_offset m fdt q = Ok (to_prop ts (q + tok_size (TProp n v))).
Proof.
  intros Hs. pose proof (sees_nonneg _ _ _ _ _ Hs). unfold fdt_next_property_offset.
  rewrite (check_prop_offset_spec q n v ts), Ok_bind by done. pose proof (tok_size_bounds (TProp n v)).
  destruct (Z.ltb_spec (q + tok_size (TProp n v)) 0); [lia|]. apply sees_tail in Hs.
  apply nextprop_spec; [done|]. by eapply (sees_fuel Hh).
Qed.

Lemma string_eq_spec p n s :
  string_at m p n -> (eq ← Libc.strlen m p; Ok ((eq =? Z.of_nat (length s)) && memeq m p s)) = Ok (bool_decide (n = s)).
Proof.
  intros Hn. rewrite (strlen_found _ _ _ Hn), Ok_bind. f_equal. unfold memeq.
  destruct (Z.eqb_spec (Z.of_nat (length n)) (Z.of_nat (length s))) as [Hl|Hl]; cbn [andb].
  - apply Nat2Z.inj in Hl. rewrite <- Hl, (string_bytes _ _ _ Hn). done.
  - symmetry. apply bool_decide_eq_false_2. congruence.
Qed.

(** What [fdt_get_property_namelen] returns for the result of the scan. *)
Definition prop_result (r : Z + Z * list Z) : Z * Z :=
  match r with
  | inl err => (0, err)
  | inr (q, v) => (fdt + fdt_off_dt_struct m fdt + q, len v)
  end.

Lemma get_property_by_offset_spec q n v ts :
  sees m fdt q (TProp n v :: ts) ->
  fdt_get_property_by_offset m fdt q = Ok (fdt + fdt_off_dt_struct m fdt + q, len v).
Proof.
  intros Hs. unfold fdt_get_property_by_offset. rewrite (check_prop_offset_spec q n v ts), Ok_bind by done.
  destruct Hs as [Hq _ Hin [(_ & Hl & _) _] _]. pose proof (tok_size_bounds (TProp n v)).
  pose proof (header_bounds Hh). pose proof (toks_size_bounds ts). cbn [toks_size tok_size] in *.
  pose proof (round4_bounds (len v)). destruct (Z.ltb_spec (q + (12 + round4 (len v))) 0); [lia|].
  unfold be32_at in Hl. change (_fdt_offset_ptr m fdt q) with (fdt + fdt_off_dt_struct m fdt + q).
  rewrite Hl. rewrite s32_small by (unfold len in *; lia). done.
Qed.

Lemma get_property_loop_spec s ts fuel q :
  sees m fdt q ts -> (length ts <= fuel)%nat ->
  get_property_loop fuel m fdt (to_prop ts q) s = Ok (prop_result (scan_prop s ts q)).
Proof.
  revert fuel q. induction ts as [|t ts IH]; intros fuel q Hs Hf; cbn [length to_prop scan_prop] in *.
  - by destruct fuel.
  - pose proof (sees_tail q t ts Hs) as Hs'. pose proof (sees_nonneg _ _ _ _ _ Hs).
    destruct t as [n| |n v|]; [by destruct fuel|by destruct fuel| |apply IH; auto with lia].
    destruct fuel as [|fuel]; [lia|]. cbn [get_property_loop]. destruct (Z.ltb_spec q 0); [lia|].
    rewrite (get_property_by_offset_spec q n v ts), Ok_bind by done.
    pose proof (header_bounds Hh). pose proof (hdr_addr _ _ Hh).
    destruct (Z.eqb_spec (fdt + fdt_off_dt_struct m fdt + q) 0); [lia|].
    destruct (sees_toks _ _ _ _ _ Hs) as [(_ & _ & _ & Hn) _]. unfold _fdt_string_eq, fdt_string.
    unfold be32_at in Hn. rewrite (string_eq_spec _ n s Hn), Ok_bind.
    destruct (bool_decide (n = s)); [done|]. rewrite (next_property_offset_spec q n v ts), Ok_bind by done.
    apply IH; auto with lia.
Qed.

Lemma get_property_spec s q n ts :
  sees m fdt q (TBegin n :: ts) ->
  fdt_get_property_namelen m fdt q s = Ok (prop_result (scan_prop s ts (q + tok_size (TBegin n)))).
Proof.
  intros Hs. pose proof (sees_nonneg _ _ _ _ _ Hs). unfold fdt_get_property_namelen, fdt_first_property_offset.
  rewrite (check_node_offset_spec Hh q n ts), Ok_bind by done. pose proof (tok_size_bounds (TBegin n)).
  destruct (Z.ltb_spec (q + tok_size (TBegin n)) 0); [lia|]. apply sees_tail in Hs.
  pose proof (sees_fuel Hh _ _ Hs). unfold _nextprop. rewrite (nextprop_spec ts), Ok_bind by done.
  apply get_property_loop_spec; [done|lia].
Qed.

Lemma scan_prop_value s ts q q' v :
  sees m fdt q ts -> scan_prop s ts q = inr (q', v) ->
  0 <= q' /\ load_bytes m (prop_data (fdt + fdt_off_dt_struct m fdt + q')) (length v) = v.
Proof.
  revert q. induction ts as [|t ts IH]; intros q Hs Hp; cbn [scan_prop] in Hp; [done|].
  pose proof (sees_tail q t ts Hs) as Hs'. destruct t as [n| |n v0|]; [done|done| |eauto].
  destruct (bool_decide (n = s)); [|eauto]. injection Hp as <- <-.
  destruct Hs as [Hq _ _ [(_ & _ & Hv & _) _] _]. done.
Qed.

(** The properties of the token list are those of the node. *)
Lemma scan_prop_tree s ps ks ts q :
  match scan_prop s (map prop_tok ps ++ flat_map flatten ks ++ TEndNode :: ts) q with
  | inr (_, v) => find_prop s ps = Some v
  | inl err => find_prop s ps = None /\ err = - FDT_ERR_NOTFOUND
  end.
Proof using.
  revert q. induction ps as [|[[n v]|] ps IH]; intros q; cbn [map prop_tok app scan_prop find_prop].
  - revert q. induction ks as [|[|n ps kk] ks IH]; intros q; cbn [flat_map flatten app scan_prop]; [done| |done]. apply IH.
  - destruct (bool_decide (n = s)); [done|]. apply IH.
  - apply IH.
Qed.

Lemma getprop_finds q t s :
  tree_at m fdt q t ->
  match find_prop s (dt_props t) with
  | Some v => exists p, p <> 0 /\ fdt_getprop m fdt q s = Ok (p, len v) /\ load_bytes m p (length v) = v
  | None => fdt_getprop m fdt q s = Ok (0, - FDT_ERR_NOTFOUND)
  end.
Proof.
  intros [Hn [ts Hs]]. destruct t as [|n ps ks]; [done|]. cbn [flatten app dt_props] in *.
  rewrite <- !app_assoc in Hs. unfold fdt_getprop, fdt_getprop_namelen.
  rewrite (get_property_spec s q n _ Hs), Ok_bind. cbn [app] in *.
  pose proof (scan_prop_tree s ps ks ts (q + tok_size (TBegin n))) as Hp. apply sees_tail in Hs.
  destruct (scan_prop s _ _) as [err|[q' v]] eqn:Hsc; cbn [prop_result].
  - destruct Hp as [-> ->]. done.
  - rewrite Hp. destruct (scan_prop_value _ _ _ _ _ Hs Hsc) as [Hq' Hv].
    pose proof (header_bounds Hh). pose proof (hdr_addr _ _ Hh).
    exists (prop_data (fdt + fdt_off_dt_struct m fdt + q')). split_and!; [unfold prop_data; lia| |done].
    destruct (Z.eqb_spec (fdt + fdt_off_dt_struct m fdt + q') 0); [lia|done].
Qed.

End Paths.
