(* ===== verification/FdtBuild.v ===== *)
(** * Flattened device trees: building a tree with the sequential-write calls

    The calls of fdt_sw.c that write a tree, one for each of its tokens, leave a
    blob that holds the tree: the readers of FdtLookup then find its nodes and
    properties. *)

From S2P Require Import Prelude Mem Inet LibcString Fdt FdtRo FdtSw FdtProof.

(** ** The calls *)

(** The call that writes a token; there is none for an [FDT_NOP]. *)
Definition sw_call (m : mem) (fdt : Z) (t : token) : Z * mem :=
  match t with
  | TBegin name => fdt_begin_node m fdt name
  | TProp name val => fdt_property m fdt name val
  | TEndNode => fdt_end_node m fdt
  | TNop => (0, m)
  end.

Fixpoint sw_calls (m : mem) (fdt : Z) (ts : list token) : Z * mem :=
  match ts with
  | [] => (0, m)
  | t :: ts => let '(err, m) := sw_call m fdt t in if negb (err =? 0) then (err, m) else sw_calls m fdt ts
  end.

(** A client that builds the tree [t] in a buffer, without reserved memory. *)
Definition sw_build (m : mem) (buf bufsize : Z) (t : dt) : outcome (Z * mem) :=
  '(err, m) ← fdt_create m buf bufsize;
  if negb (err =? 0) then Ok (err, m) else
  let '(err, m) := fdt_finish_reservemap m buf in
  if negb (err =? 0) then Ok (err, m) else
  let '(err, m) := sw_calls m buf (flatten t) in
  if negb (err =? 0) then Ok (err, m) else
  fdt_finish m buf.

(** ** Words of a blob *)

Lemma bswap32_twice x : bswap32 (bswap32 x) = u32 x.
Proof.
  pose proof (le_join_split 4 x) as Hx. change (2 ^ (8 * Z.of_nat 4)) with (2 ^ 32) in Hx. fold (u32 x) in Hx.
  rewrite <- Hx. cbn [le_split].
  rewrite <- bswap32_bytes by (unfold is_byte; apply u8_range).
  f_equal. unfold bswap32. rewrite !Z.div_div by lia. 
  change (2 ^ 8 * 2 ^ 8) with (2 ^ 16). change (2 ^ 16 * 2 ^ 8) with (2 ^ 24). lia.
Qed.

Lemma be32_store_eq m a v : be32_at (store32 m a (cpu_to_fdt32 v)) a = u32 v.
Proof.
  unfold be32_at, fdt32_to_cpu, cpu_to_fdt32. rewrite load32_store32_eq.
  rewrite u32_small by apply bswap32_range. apply bswap32_twice.
Qed.

Lemma be32_changes P m m' a :
  changes P m m' -> (forall x, a <= x < a + 4 -> ~ P x) -> be32_at m' a = be32_at m a.
Proof. intros Hc Ha. unfold be32_at. f_equal. by apply (load_changes 4 P). Qed.

Lemma string_changes P m m' p n :
  changes P m m' -> (forall x, p <= x < p + len n + 1 -> ~ P x) -> string_at m p n -> string_at m' p n.
Proof.
  unfold len. intros Hc Ha [Hb Hn He]. split; [| done |].
  - rewrite <- Hb at 2. apply (load_bytes_changes _ P); [done|]. intros x Hx. apply Ha. lia.
  - rewrite <- He. apply Hc. apply Ha. lia.
Qed.

(** The characters of a name. *)
Definition is_name (n : list Z) : Prop := Forall (fun b => 0 < b < 2 ^ 8) n.

Lemma is_name_bytes n : is_name n -> Forall is_byte n.
Proof. intros Hn. eapply Forall_impl; [done|]. unfold is_byte. simpl. lia. Qed.

Lemma is_name_nonzero n : is_name n -> Forall (fun b => b <> 0) n.
Proof. intros Hn. eapply Forall_impl; [done|]. simpl. lia. Qed.

Lemma string_stored m a n : is_name n -> load_bytes m a (length n + 1) = n ++ [0] -> string_at m a n.
Proof.
  intros Hn Hl. rewrite load_bytes_app in Hl. apply app_inj_1 in Hl as [Hb He]; [|by rewrite length_load_bytes].
  split; [done|by apply is_name_nonzero|]. cbn [load_bytes] in He. by injection He.
Qed.

Lemma name_bytes n : is_name n -> Forall is_byte (n ++ [0]).
Proof. intros Hn. apply Forall_app. split; [by apply is_name_bytes|]. constructor; [unfold is_byte; lia|done]. Qed.

Lemma string_store m a n : is_name n -> string_at (store_bytes m a (n ++ [0])) a n.
Proof.
  intros Hn. apply string_stored; [done|].
  rewrite <- (load_bytes_store_bytes m a (n ++ [0])) at 2 by (by apply name_bytes). by rewrite length_app.
Qed.

(** ** Tokens with their names in a range *)

(** The name of a property lies between [strs + lo] and [strs + hi]. *)
Definition name_in (m : mem) (lo hi p : Z) (t : token) : Prop :=
  match t with
  | TProp name _ =>
      lo <= s32 (be32_at m (prop_nameoff p)) /\ s32 (be32_at m (prop_nameoff p)) + len name + 1 <= hi
  | _ => True
  end.

Fixpoint toks_in (m : mem) (strs lo hi p : Z) (ts : list token) : Prop :=
  match ts with
  | [] => True
  | t :: ts => (tok_at m strs p t /\ name_in m lo hi p t) /\ toks_in m strs lo hi (p + tok_size t) ts
  end.

Lemma toks_in_app m strs lo hi p ts ts' :
  toks_in m strs lo hi p (ts ++ ts') <-> toks_in m strs lo hi p ts /\ toks_in m strs lo hi (p + toks_size ts) ts'.
Proof.
  revert p. induction ts as [|t ts IH]; intros p; cbn [app toks_in toks_size].
  - rewrite Z.add_0_r. tauto.
  - rewrite IH, Z.add_assoc. tauto.
Qed.

Lemma toks_in_at m strs lo hi p ts : toks_in m strs lo hi p ts -> toks_at m strs p ts.
Proof. revert p. induction ts as [|t ts IH]; intros p; cbn [toks_in toks_at]; [done|]. intros [[] ?]. auto. Qed.

Lemma toks_in_mono m strs lo lo' hi p ts : lo' <= lo -> toks_in m strs lo hi p ts -> toks_in m strs lo' hi p ts.
Proof.
  intros Hlo. revert p. induction ts as [|t ts IH]; intros p; cbn [toks_in]; [done|].
  intros [[Ht Hn] Hts]. split_and!; [done| |auto]. destruct t; cbn [name_in] in *; lia.
Qed.

Lemma toks_in_hi m strs lo hi hi' p ts : hi <= hi' -> toks_in m strs lo hi p ts -> toks_in m strs lo hi' p ts.
Proof.
  intros Hhi. revert p. induction ts as [|t ts IH]; intros p; cbn [toks_in]; [done|].
  intros [[Ht Hn] Hts]. split_and!; [done| |auto]. destruct t; cbn [name_in] in *; lia.
Qed.

Lemma load_bytes_moved m m' p p' n :
  (forall i, 0 <= i < Z.of_nat n -> load8 m' (p' + i) = load8 m (p + i)) -> load_bytes m' p' n = load_bytes m p n.
Proof.
  intros Hi. apply list_eq. intros i. destruct (decide (i < n)%nat).
  - by rewrite !load_bytes_lookup, Hi by lia.
  - rewrite !lookup_ge_None_2; rewrite ?length_load_bytes; (done || lia).
Qed.

Lemma load_moved m m' p p' n :
  (forall i, 0 <= i < Z.of_nat n -> load8 m' (p' + i) = load8 m (p + i)) -> load n m' p' = load n m p.
Proof. intros Hi. rewrite !load_join. f_equal. by apply load_bytes_moved. Qed.

Lemma string_moved m m' p p' n :
  (forall i, 0 <= i < len n + 1 -> load8 m' (p' + i) = load8 m (p + i)) -> string_at m p n -> string_at m' p' n.
Proof.
  unfold len. intros Hi [Hb Hn He]. split; [|done|].
  - rewrite <- Hb at 2. apply load_bytes_moved. intros i Hi'. apply Hi. lia.
  - rewrite <- He. apply Hi. lia.
Qed.

(** Tokens in a memory with the same bytes, moved or not. *)
Lemma tok_in_moved m m' strs strs' lo hi p p' t :
  (forall i, 0 <= i < tok_size t -> load8 m' (p' + i) = load8 m (p + i)) ->
  (forall i, lo <= i < hi -> load8 m' (strs' + i) = load8 m (strs + i)) ->
  tok_at m strs p t /\ name_in m lo hi p t -> tok_at m' strs' p' t /\ name_in m' lo hi p' t.
Proof.
  intros Hp Hstr [[Ht Hb] Hn]. pose proof (tok_size_bounds t).
  assert (forall k, 0 <= k -> k + 4 <= tok_size t -> be32_at m' (p' + k) = be32_at m (p + k)) as Hw.
  { intros k Hk1 Hk2. unfold be32_at. f_equal. apply load_moved. intros i Hi. rewrite <- !Z.add_assoc. apply Hp. lia. }
  pose proof (Hw 0 ltac:(lia) ltac:(lia)) as H0. rewrite !Z.add_0_r in H0.
  unfold tok_at. rewrite H0. destruct t as [n| |n v|]; cbn [name_in tok_size] in *; try done.
  - pose proof (round4_bounds (len n + 1)). split_and!; [done| |done].
    apply (string_moved m _ (nh_name p)); [|done]. unfold nh_name, len in *. intros i Hi.
    rewrite <- !Z.add_assoc. apply Hp. lia.
  - pose proof (round4_bounds (len v)). destruct Hb as (Hl & Hv & Hs). unfold prop_len, prop_data, prop_nameoff in *.
    rewrite !Hw by (unfold len in *; lia). split_and!; [done|done| | |lia|lia].
    + rewrite <- Hv at 2. apply load_bytes_moved. intros i Hi. rewrite <- !Z.add_assoc. apply Hp. unfold len in *. lia.
    + eapply string_moved; [|exact Hs]. intros i Hi. rewrite <- !Z.add_assoc. apply Hstr. lia.
Qed.

Lemma toks_in_moved m m' strs strs' lo hi p p' ts :
  (forall i, 0 <= i < toks_size ts -> load8 m' (p' + i) = load8 m (p + i)) ->
  (forall i, lo <= i < hi -> load8 m' (strs' + i) = load8 m (strs + i)) ->
  toks_in m strs lo hi p ts -> toks_in m' strs' lo hi p' ts.
Proof.
  intros Hp Hs. revert p p' Hp. induction ts as [|t ts IH]; intros p p' Hp; cbn [toks_in toks_size] in *; [done|].
  pose proof (toks_size_bounds ts). pose proof (tok_size_bounds t).
  intros [Ht Hts]. split; [eapply tok_in_moved; [..|exact Ht]; auto with lia|].
  apply (IH (p + tok_size t)); [|done]. intros i Hi. rewrite <- !Z.add_assoc. apply Hp. lia.
Qed.

Lemma toks_in_changes P m m' strs lo hi p ts :
  changes P m m' ->
  (forall x, p <= x < p + toks_size ts -> ~ P x) -> (forall x, strs + lo <= x < strs + hi -> ~ P x) ->
  toks_in m strs lo hi p ts -> toks_in m' strs lo hi p ts.
Proof.
  intros Hc Hp Hs. apply toks_in_moved; intros i Hi; [apply Hc, Hp|apply Hc, Hs]; lia.
Qed.

(** ** A blob under construction *)

(** The buffer has [T] bytes, the structure block starts at [O] and holds the
    tokens [ts], the strings are the last [Sz] bytes. *)
Record writing (m : mem) (fdt T O Sz : Z) (ts : list token) : Prop := {
  w_addr : 0 < fdt;
  w_O : sizeof_fdt_header <= O;
  w_T : T < 2 ^ 31;
  w_magic : fdt_magic m fdt = FDT_SW_MAGIC;
  w_version : fdt_version m fdt = FDT_LAST_SUPPORTED_VERSION;
  w_last : fdt_last_comp_version m fdt = FDT_FIRST_SUPPORTED_VERSION;
  w_total : fdt_totalsize m fdt = T;
  w_struct : fdt_off_dt_struct m fdt = O;
  w_strings : fdt_off_dt_strings m fdt = T;
  w_size : fdt_size_dt_struct m fdt = toks_size ts;
  w_strsize : fdt_size_dt_strings m fdt = Sz;
  w_pos : 0 <= Sz;
  w_room : O + toks_size ts + Sz <= T;
  w_toks : toks_in m (fdt + T) (- Sz) 0 (fdt + O) ts
}.

Lemma toks_size_nonneg ts : 0 <= toks_size ts.
Proof. pose proof (toks_size_bounds ts). lia. Qed.

(** Writing beyond the tokens and below the strings. *)
Lemma writing_grows P m m' fdt T O Sz Sz' ts ts' :
  writing m fdt T O Sz ts -> changes P m m' -> (forall x, P x -> fdt + 32 <= x) ->
  (forall x, P x -> x < fdt + O + toks_size ts -> x < fdt + sizeof_fdt_header) ->
  (forall x, P x -> fdt + T - Sz <= x -> fdt + T <= x) ->
  fdt_size_dt_struct m' fdt = toks_size ts + toks_size ts' -> fdt_size_dt_strings m' fdt = Sz' ->
  Sz <= Sz' -> O + toks_size ts + toks_size ts' + Sz' <= T ->
  toks_in m' (fdt + T) (- Sz') 0 (fdt + O + toks_size ts) ts' ->
  writing m' fdt T O Sz' (ts ++ ts').
Proof.
  intros [] Hc Hh Hp Hs Hsz Hstr Hle Hroom Hin. unfold sizeof_fdt_header in *.
  assert (forall k, 0 <= k <= 28 -> be32_at m' (fdt + k) = be32_at m (fdt + k)) as Hk.
  { intros k Hk. apply (be32_changes P); [done|]. intros x Hx Hpx. apply Hh in Hpx. lia. }
  pose proof (Hk 0 ltac:(lia)) as H0. rewrite Z.add_0_r in H0.
  split; try done; try lia.
  - by rewrite <- w_magic0.
  - rewrite <- w_version0. apply (Hk 20). lia.
  - rewrite <- w_last0. apply (Hk 24). lia.
  - rewrite <- w_total0. apply (Hk 4). lia.
  - rewrite <- w_struct0. apply (Hk 8). lia.
  - rewrite <- w_strings0. apply (Hk 12). lia.
  - by rewrite toks_size_app.
  - rewrite toks_size_app. lia.
  - apply toks_in_app. split; [|done]. apply (toks_in_mono _ _ (- Sz)); [lia|].
    apply (toks_in_changes P m); try done.
    + intros x Hx Hpx. apply Hp in Hpx; lia.
    + intros x Hx Hpx. apply Hs in Hpx; lia.
Qed.

Lemma sw_header_checked m fdt T O Sz ts : writing m fdt T O Sz ts -> _fdt_sw_check_header m fdt = 0.
Proof. intros []. unfold _fdt_sw_check_header. by rewrite w_magic0. Qed.

(** The memory after [_fdt_grab_space] of [n] bytes. *)
Definition grabbed (m : mem) (fdt : Z) (ts : list token) (n : Z) : mem :=
  fdt_set_size_dt_struct m fdt (toks_size ts + n).

Lemma grab_space_spec m fdt T O Sz ts n :
  writing m fdt T O Sz ts -> 0 <= n -> O + toks_size ts + n + Sz <= T ->
  _fdt_grab_space m fdt n = (fdt + O + toks_size ts, grabbed m fdt ts n).
Proof.
  intros [] Hn Hr. pose proof (toks_size_nonneg ts). unfold sizeof_fdt_header in *.
  unfold _fdt_grab_space. rewrite w_size0, w_total0, w_struct0, w_strsize0, !s32_small, !u64_small by lia.
  destruct (Z.ltb_spec (toks_size ts + n) (toks_size ts)); [lia|].
  destruct (Z.ltb_spec (T - O - Sz) (toks_size ts + n)); [lia|]. cbn [orb].
  f_equal. unfold _fdt_offset_ptr. f_equal. f_equal. fold (grabbed m fdt ts n). rewrite <- w_struct0.
  apply (be32_changes (fun x => fdt + 36 <= x < fdt + 40) m).
  - apply (changes_store 4). unfold hdr_size_dt_struct. simpl. lia.
  - unfold hdr_off_dt_struct. lia.
Qed.

(** Appending one token: [m'] is the memory after the stores into the new space. *)
Lemma writing_token m m' fdt T O Sz ts t :
  writing m fdt T O Sz ts -> O + toks_size ts + tok_size t + Sz <= T ->
  changes (fun x => fdt + O + toks_size ts <= x < fdt + O + toks_size ts + tok_size t)
    (grabbed m fdt ts (tok_size t)) m' ->
  tok_at m' (fdt + T) (fdt + O + toks_size ts) t -> name_in m' (- Sz) 0 (fdt + O + toks_size ts) t ->
  writing m' fdt T O Sz (ts ++ [t]).
Proof.
  intros Hw Hr Hc Ht Hn. pose proof (toks_size_nonneg ts). pose proof (tok_size_bounds t).
  destruct (Hw). unfold sizeof_fdt_header in *.
  set (p := fdt + O + toks_size ts) in *.
  set (P := fun x => fdt + 36 <= x < fdt + 40 \/ p <= x < p + tok_size t).
  assert (changes P m (grabbed m fdt ts (tok_size t))) as Hg.
  { apply (changes_store 4). unfold hdr_size_dt_struct, P. simpl. lia. }
  assert (changes P m m') as Hc'.
  { eapply changes_trans; [exact Hg|]. eapply changes_mono; [|exact Hc]. unfold P. simpl. lia. }
  apply (writing_grows P m m' fdt T O Sz Sz); try done; try (intros; unfold P, p, sizeof_fdt_header in *; cbn [toks_size] in *; lia).
  - transitivity (fdt_size_dt_struct (grabbed m fdt ts (tok_size t)) fdt).
    + apply (be32_changes _ _ _ _ Hc). unfold hdr_size_dt_struct. lia.
    + unfold grabbed. etransitivity; [apply be32_store_eq|]. cbn [toks_size]. rewrite !u32_small; rewrite ?u32_small; lia.
  - rewrite <- w_strsize0. apply (be32_changes _ _ _ _ Hc'). unfold hdr_size_dt_strings, P. lia.
Qed.

Lemma tagalign_small n : 0 <= n < 2 ^ 31 -> tagalign_size n = round4 n.
Proof. intros Hn. unfold tagalign_size. by rewrite u64_small by lia. Qed.

Lemma be32_store_ne m a b v : a + 4 <= b \/ b + 4 <= a -> be32_at (store32 m b v) a = be32_at m a.
Proof. intros Hab. unfold be32_at. f_equal. apply load_store_ne. lia. Qed.

Lemma be32_store_bytes_ne m a b bs :
  a + 4 <= b \/ b + len bs <= a -> be32_at (store_bytes m b bs) a = be32_at m a.
Proof.
  unfold len. intros Hab. apply (be32_changes (fun x => b <= x < b + Z.of_nat (length bs))).
  - by apply changes_store_bytes.
  - intros x Hx. lia.
Qed.

Lemma begin_node_writes m fdt T O Sz ts n :
  writing m fdt T O Sz ts -> is_name n -> O + toks_size ts + tok_size (TBegin n) + Sz <= T ->
  exists m', fdt_begin_node m fdt n = (0, m') /\ writing m' fdt T O Sz (ts ++ [TBegin n]).
Proof.
  intros Hw Hn Hr. pose proof (toks_size_nonneg ts). destruct (Hw). unfold sizeof_fdt_header in *.
  pose proof (round4_bounds (len n + 1)). cbn [tok_size] in Hr. unfold fdt_begin_node.
  rewrite (sw_header_checked _ _ _ _ _ _ Hw). cbn [Z.eqb negb].
  rewrite tagalign_small by (unfold len in *; lia). change (Z.of_nat (length n)) with (len n).
  change (sizeof_fdt_node_header + round4 (len n + 1)) with (tok_size (TBegin n)).
  rewrite (grab_space_spec _ _ T O Sz ts) by (done || cbn [tok_size]; unfold len in *; lia).
  set (p := fdt + O + toks_size ts). destruct (Z.eqb_spec p 0); [lia|].
  eexists. split; [done|]. unfold nh_tag, nh_name. apply (writing_token m); [done|cbn [tok_size]; lia| |split|done].
  - fold p. eapply changes_trans; [apply (changes_store 4)|apply changes_store_bytes].
    + intros x Hx. cbn [tok_size]. unfold len in *. lia.
    + intros x Hx. rewrite length_app in Hx. cbn [tok_size length] in *. unfold len in *. lia.
  - fold p. rewrite be32_store_bytes_ne by lia. rewrite be32_store_eq. done.
  - fold p. by apply string_store.
Qed.

Lemma end_node_writes m fdt T O Sz ts :
  writing m fdt T O Sz ts -> O + toks_size ts + tok_size TEndNode + Sz <= T ->
  exists m', fdt_end_node m fdt = (0, m') /\ writing m' fdt T O Sz (ts ++ [TEndNode]).
Proof.
  intros Hw Hr. pose proof (toks_size_nonneg ts). destruct (Hw). unfold sizeof_fdt_header in *.
  unfold fdt_end_node. rewrite (sw_header_checked _ _ _ _ _ _ Hw). cbn [Z.eqb negb].
  rewrite (grab_space_spec _ _ T O Sz ts) by (done || cbn [tok_size FDT_TAGSIZE] in *; unfold FDT_TAGSIZE; lia).
  set (p := fdt + O + toks_size ts). destruct (Z.eqb_spec p 0); [lia|].
  eexists. split; [done|]. apply (writing_token m); [done|lia| |split|done].
  - fold p. apply (changes_store 4). cbn [tok_size]. lia.
  - fold p. by rewrite be32_store_eq.
  - done.
Qed.

Lemma find_string_loop_spec m n p s :
  0 < p -> let r := find_string_loop m p s n in
  r = 0 \/ (p <= r < p + Z.of_nat n /\ load_bytes m r (length s) = s).
Proof.
  revert p. induction n as [|n IH]; intros p Hp; cbn [find_string_loop]; [by left|].
  unfold memeq. destruct (bool_decide_reflect (load_bytes m p (length s) = s)) as [He|He].
  - right. split; [lia|done].
  - destruct (IH (p + 1) ltac:(lia)) as [|[? ?]]; [by left|right]. split; [lia|done].
Qed.

(** The name of a property: it is found or added. *)
Lemma find_add_string_writes m fdt T O Sz ts s :
  writing m fdt T O Sz ts -> is_name s -> O + toks_size ts + Sz + len s + 1 <= T ->
  exists off m' Sz', sw_find_add_string m fdt s = (off, m') /\ Sz <= Sz' <= Sz + len s + 1 /\
    - Sz' <= off /\ off + len s + 1 <= 0 /\ string_at m' (fdt + T + off) s /\ writing m' fdt T O Sz' ts.
Proof.
  intros Hw Hs Hr. pose proof (toks_size_nonneg ts). destruct (Hw). unfold sizeof_fdt_header, len in *.
  unfold sw_find_add_string, _fdt_find_string. rewrite w_total0, w_strsize0, w_struct0, w_size0.
  rewrite (s32_small Sz) by lia. set (strtab := fdt + T) in *.
  pose proof (find_string_loop_spec m (Z.to_nat (Sz - (Z.of_nat (length s) + 1) + 1)) (strtab - Sz) (s ++ [0]) ltac:(lia)) as Hf.
  cbn zeta in Hf. set (r := find_string_loop _ _ _ _) in *. destruct (Z.eqb_spec r 0) as [Hr0|Hr0]; cbn [negb].
  - rewrite !s32_small by lia. rewrite !u32_small by lia.
    destruct (Z.ltb_spec (T + (- Sz - (Z.of_nat (length s) + 1))) (O + toks_size ts)); [lia|].
    set (off := - Sz - (Z.of_nat (length s) + 1)). set (m1 := store_bytes m (strtab + off) (s ++ [0])).
    eexists off, _, (Sz + (Z.of_nat (length s) + 1)). split; [done|]. split_and!; try lia.
    + apply (string_changes (fun x => fdt + 32 <= x < fdt + 36) m1).
      * apply (changes_store 4). unfold hdr_size_dt_strings. lia.
      * unfold len. intros x Hx. lia.
      * by apply string_store.
    + rewrite <- (app_nil_r ts).
      apply (writing_grows (fun x => fdt + 32 <= x < fdt + 36 \/ strtab + off <= x < strtab - Sz) m _ _ _ _ Sz);
        try done; try (cbn [toks_size]; lia).
      * eapply changes_trans; [apply changes_store_bytes|apply (changes_store 4)].
        -- intros x Hx. rewrite length_app in Hx. cbn [length] in Hx. lia.
        -- unfold hdr_size_dt_strings. lia.
      * unfold sizeof_fdt_header. lia.
      * cbn [toks_size]. rewrite Z.add_0_r, <- w_size0. unfold fdt_size_dt_struct. etransitivity.
        { apply be32_store_ne. unfold hdr_size_dt_struct, hdr_size_dt_strings. lia. }
        apply be32_store_bytes_ne. unfold hdr_size_dt_struct. lia.
      * etransitivity; [apply be32_store_eq|]. rewrite !u32_small; rewrite ?u32_small; lia.
  - destruct Hf as [|[Hin Hl]]; [done|]. rewrite length_app in Hl. cbn [length] in Hl.
    eexists _, m, Sz. split; [done|]. rewrite !s32_small by lia. split_and!; try lia; [|done].
    replace (strtab + (r - strtab)) with r by lia. by apply string_stored.
Qed.

Lemma property_writes m fdt T O Sz ts n v :
  writing m fdt T O Sz ts -> is_name n -> Forall is_byte v ->
  O + toks_size ts + tok_size (TProp n v) + Sz + len n + 1 <= T ->
  exists m' Sz', fdt_property m fdt n v = (0, m') /\ Sz <= Sz' <= Sz + len n + 1 /\
    writing m' fdt T O Sz' (ts ++ [TProp n v]).
Proof.
  intros Hw Hn Hv Hr. pose proof (round4_bounds (len v)). cbn [tok_size] in Hr.
  unfold fdt_property. rewrite (sw_header_checked _ _ _ _ _ _ Hw). cbn [Z.eqb negb].
  destruct (find_add_string_writes _ _ _ _ _ _ n Hw Hn) as (off & m1 & Sz' & -> & HSz & Hlo & Hhi & Hs & Hw1);
    [unfold len in *; lia|].
  pose proof (toks_size_nonneg ts). destruct (Hw1). unfold sizeof_fdt_header in *.
  destruct (Z.eqb_spec off 0); [unfold len in *; lia|]. change (Z.of_nat (length v)) with (len v).
  rewrite tagalign_small by (unfold len in *; lia).
  change (sizeof_fdt_property + round4 (len v)) with (tok_size (TProp n v)).
  rewrite (grab_space_spec _ _ T O Sz' ts) by (done || cbn [tok_size]; unfold len in *; lia).
  set (p := fdt + O + toks_size ts). destruct (Z.eqb_spec p 0); [lia|].
  unfold prop_tag, prop_nameoff, prop_len, prop_data.
  eexists _, Sz'. split; [done|]. split; [done|].
  set (m2 := store32 (grabbed m1 fdt ts (tok_size (TProp n v))) p (cpu_to_fdt32 FDT_PROP)).
  set (m3 := store32 m2 (p + 8) (cpu_to_fdt32 (u32 off))). set (m4 := store32 m3 (p + 4) (cpu_to_fdt32 (u32 (len v)))).
  set (m5 := store_bytes m4 (p + 12) v).
  assert (changes (fun x => p <= x < p + tok_size (TProp n v)) (grabbed m1 fdt ts (tok_size (TProp n v))) m5) as Hc.
  { cbn [tok_size]. unfold len in *. eapply changes_trans; [|apply changes_store_bytes; lia].
    eapply changes_trans; [|apply (changes_store 4); lia]. eapply changes_trans; apply (changes_store 4); lia. }
  assert (s32 (be32_at m5 (p + 8)) = off) as Hoff.
  { unfold m5, m4, m3. rewrite be32_store_bytes_ne, be32_store_ne, be32_store_eq by (unfold len in *; lia).
    unfold s32, u32. rewrite !Z.mod_mod by lia. apply (s32_small off). unfold len in *. lia. }
  apply (writing_token m1); [done|cbn [tok_size]; unfold len in *; lia|done| |].
  - fold p. split; [|unfold prop_len, prop_data, prop_nameoff; rewrite Hoff; split_and!].
    + unfold m5, m4, m3, m2. rewrite be32_store_bytes_ne, !be32_store_ne, be32_store_eq by (unfold len in *; lia). done.
    + unfold m5, m4. rewrite be32_store_bytes_ne, be32_store_eq by (unfold len in *; lia).
      unfold len in *. rewrite !u32_small; rewrite ?u32_small; lia.
    + by apply load_bytes_store_bytes.
    + apply (string_changes _ _ _ _ _ Hc).
      { cbn [tok_size]. unfold len in *. intros x Hx. lia. }
      apply (string_changes (fun x => fdt + 36 <= x < fdt + 40) m1); [|unfold len in *; lia|done].
      apply (changes_store 4). unfold hdr_size_dt_struct. lia.
  - fold p. cbn [name_in]. unfold prop_nameoff. rewrite Hoff. lia.
Qed.

(** ** A sequence of calls *)

Definition tok_ok (t : token) : Prop :=
  match t with
  | TBegin n => is_name n
  | TProp n v => is_name n /\ Forall is_byte v
  | TEndNode => True
  | TNop => False
  end.

(** The bytes of the property names, counted once for every property. *)
Fixpoint names_size (ts : list token) : Z :=
  match ts with
  | [] => 0
  | TProp n _ :: ts => len n + 1 + names_size ts
  | _ :: ts => names_size ts
  end.

Lemma names_size_nonneg ts : 0 <= names_size ts.
Proof. induction ts as [|[] ts IH]; cbn [names_size]; unfold len; lia. Qed.

Lemma sw_calls_write m fdt T O Sz ts ts' :
  writing m fdt T O Sz ts -> Forall tok_ok ts' ->
  O + toks_size ts + toks_size ts' + Sz + names_size ts' <= T ->
  exists m' Sz', sw_calls m fdt ts' = (0, m') /\ Sz <= Sz' <= Sz + names_size ts' /\
    writing m' fdt T O Sz' (ts ++ ts').
Proof.
  intros Hw Hok. revert m Sz ts Hw. induction Hok as [|t ts' Ht Hts IH]; intros m Sz ts Hw Hr.
  { exists m, Sz. rewrite app_nil_r. cbn [names_size]. split_and!; [done|lia|lia|done]. }
  pose proof (names_size_nonneg ts'). pose proof (toks_size_nonneg ts'). cbn [toks_size sw_calls] in *.
  assert (exists m' Sz', sw_call m fdt t = (0, m') /\ Sz <= Sz' /\ Sz' + names_size ts' <= Sz + names_size (t :: ts') /\
    writing m' fdt T O Sz' (ts ++ [t])) as (m1 & Sz1 & -> & HSz & HSz' & Hw1).
  { destruct t as [n| |n v|]; cbn [sw_call tok_ok names_size] in *; [| | |done].
    - destruct (begin_node_writes _ _ _ _ _ _ n Hw Ht ltac:(lia)) as (m1 & -> & ?).
      exists m1, Sz. split_and!; (done || lia).
    - destruct (end_node_writes _ _ _ _ _ _ Hw ltac:(lia)) as (m1 & -> & ?).
      exists m1, Sz. split_and!; (done || lia).
    - destruct Ht as [Hn Hv]. destruct (property_writes _ _ _ _ _ _ n v Hw Hn Hv ltac:(lia)) as (m1 & Sz1 & -> & ? & ?).
      exists m1, Sz1. split_and!; (done || lia). }
  cbn [Z.eqb negb]. destruct (IH m1 Sz1 (ts ++ [t]) Hw1) as (m2 & Sz2 & -> & ? & Hw2).
  { rewrite toks_size_app. cbn [toks_size]. lia. }
  exists m2, Sz2. rewrite <- app_assoc in Hw2. split_and!; (done || lia).
Qed.

(** ** The empty blob *)

Lemma be32_memset m a n b : a <= b -> b + 4 <= a + Z.of_nat n -> be32_at (memset m a 0 n) b = 0.
Proof.
  intros Ha Hb. unfold be32_at, load32. rewrite load_memset_0 by (simpl; lia). done.
Qed.

Ltac hdr_word :=
  repeat first [ rewrite be32_store_eq | rewrite be32_store_ne by lia ].

Lemma create_writes m buf T :
  0 < buf -> 48 <= T < 2 ^ 31 -> exists m', fdt_create m buf T = Ok (0, m') /\ writing m' buf T 48 0 [].
Proof.
  intros Hb HT. unfold fdt_create. rewrite u64_small by lia. unfold sizeof_fdt_header.
  destruct (Z.ltb_spec T 40); [lia|]. destruct (Z.ltb_spec T 0); [lia|]. eexists. split; [done|].
  unfold fdt_set_magic, fdt_set_version, fdt_set_last_comp_version, fdt_set_totalsize, fdt_set_off_mem_rsvmap,
    fdt_set_off_dt_struct, fdt_set_off_dt_strings, fdt_off_mem_rsvmap.
  split; unfold fdt_magic, fdt_version, fdt_last_comp_version, fdt_totalsize, fdt_off_dt_struct, fdt_off_dt_strings,
    fdt_size_dt_struct, fdt_size_dt_strings, hdr_magic, hdr_version, hdr_last_comp_version, hdr_totalsize,
    hdr_off_dt_struct, hdr_off_dt_strings, hdr_off_mem_rsvmap, hdr_size_dt_struct, hdr_size_dt_strings; try done; try lia.
  all: repeat match goal with |- context[fdt32_to_cpu (load32 ?m ?a)] => change (fdt32_to_cpu (load32 m a)) with (be32_at m a) end.
  all: hdr_word.
  all: try done.
  all: try (rewrite !u32_small; rewrite ?u32_small; lia).
  all: cbn [toks_size]; first [lia|rewrite be32_memset by lia; done].
Qed.

Lemma finish_reservemap_writes m fdt T O :
  writing m fdt T O 0 [] -> O + 16 <= T ->
  exists m', fdt_finish_reservemap m fdt = (0, m') /\ writing m' fdt T (O + 16) 0 [].
Proof.
  intros Hw HO. destruct (Hw). unfold sizeof_fdt_header in *. cbn [toks_size] in *.
  unfold fdt_finish_reservemap, fdt_add_reservemap_entry. rewrite (sw_header_checked _ _ _ _ _ _ Hw), w_size0, w_struct0, w_total0.
  cbn [Z.eqb negb]. rewrite s32_small, u64_small by (unfold sizeof_fdt_reserve_entry; lia).
  unfold sizeof_fdt_reserve_entry. destruct (Z.ltb_spec T (O + 16)); [lia|]. eexists. split; [done|].
  unfold re_address, re_size. set (m1 := store64 _ _ _).
  assert (changes (fun x => fdt + 40 <= x) m m1) as Hc.
  { eapply changes_trans; apply (changes_store 8); lia. }
  assert (forall k, 0 <= k <= 4 \/ 12 <= k <= 36 ->
    be32_at (fdt_set_off_dt_struct m1 fdt (O + 16)) (fdt + k) = be32_at m (fdt + k)) as Hk.
  { intros k Hk. transitivity (be32_at m1 (fdt + k)).
    - apply be32_store_ne. unfold hdr_off_dt_struct. lia.
    - apply (be32_changes _ _ _ _ Hc). lia. }
  pose proof (Hk 0 ltac:(lia)) as H0. rewrite Z.add_0_r in H0.
  split; try done; cbn [toks_size]; unfold sizeof_fdt_header; try lia.
  - by rewrite <- w_magic0.
  - rewrite <- w_version0. apply (Hk 20). lia.
  - rewrite <- w_last0. apply (Hk 24). lia.
  - rewrite <- w_total0. apply (Hk 4). lia.
  - etransitivity; [apply be32_store_eq|]. rewrite !u32_small; rewrite ?u32_small; lia.
  - rewrite <- w_strings0. apply (Hk 12). lia.
  - rewrite <- w_size0. apply (Hk 36). lia.
  - rewrite <- w_strsize0. apply (Hk 32). lia.
Qed.

(** ** Correcting the string offsets *)

Lemma toks_size_mod ts : toks_size ts mod 4 = 0.
Proof. induction ts as [|t ts IH]; cbn [toks_size]; [done|]. rewrite Z.add_mod, tok_size_mod, IH by lia. done. Qed.

Section Fix.
Context (m0 : mem) (fdt O Sz : Z) (all : list token).
Context (Hl : layout_ok m0 fdt) (HO : sizeof_fdt_header <= O) (HSz : 0 <= Sz < 2 ^ 31).
Context (HsO : fdt_off_dt_struct m0 fdt = O) (Hsz : fdt_size_dt_struct m0 fdt = toks_size all + 4).
Context (Hstr : fdt_size_dt_strings m0 fdt = Sz) (Hend : be32_at m0 (fdt + O + toks_size all) = FDT_END).
#[local] Set Default Proof Using "All".

(** The new place of the strings, behind the structure block. *)
Notation B := (fdt + O + (toks_size all + 4)).
Notation block := (fun x => fdt + O <= x < fdt + O + toks_size all).

Lemma fix_header m k : changes block m0 m -> 0 <= k <= 36 -> be32_at m (fdt + k) = be32_at m0 (fdt + k).
Proof. intros Hc Hk. apply (be32_changes _ _ _ _ Hc). unfold sizeof_fdt_header in *. lia. Qed.

Lemma fix_layout m :
  changes block m0 m ->
  layout_ok m fdt /\ fdt_off_dt_struct m fdt = O /\ fdt_size_dt_struct m fdt = toks_size all + 4 /\
  fdt_size_dt_strings m fdt = Sz /\ be32_at m (fdt + O + toks_size all) = FDT_END.
Proof.
  intros Hc. pose proof (fun k => fix_header m k Hc) as Hk.
  pose proof (Hk 4 ltac:(lia)) as H4. pose proof (Hk 8 ltac:(lia)) as H8.
  pose proof (Hk 36 ltac:(lia)) as H36. pose proof (Hk 32 ltac:(lia)) as H32.
  change (fdt_off_dt_struct m fdt = fdt_off_dt_struct m0 fdt) in H8.
  change (fdt_totalsize m fdt = fdt_totalsize m0 fdt) in H4.
  change (fdt_size_dt_struct m fdt = fdt_size_dt_struct m0 fdt) in H36.
  change (fdt_size_dt_strings m fdt = fdt_size_dt_strings m0 fdt) in H32.
  destruct Hl. split_and!; [split; lia|congruence|congruence|congruence|].
  rewrite <- Hend. apply (be32_changes _ _ _ _ Hc). lia.
Qed.

Lemma fix_prop m n v p :
  fdt + O <= p -> p + tok_size (TProp n v) <= fdt + O + toks_size all ->
  tok_at m (B + Sz) p (TProp n v) /\ name_in m (- Sz) 0 p (TProp n v) ->
  let nameoff := s32 (s32 (be32_at m (p + 8)) + Sz) in
  let m' := store32 m (p + 8) (cpu_to_fdt32 (u32 nameoff)) in
  tok_at m' B p (TProp n v) /\ name_in m' 0 Sz p (TProp n v).
Proof.
  intros Hp1 Hp2 [(Ht & Hlen & Hv & Hs) [Hlo Hhi]]. cbn [tok_size] in *. unfold prop_nameoff, prop_len, prop_data in *.
  set (off := s32 (be32_at m (p + 8))) in *. pose proof (round4_bounds (len v)).
  cbn zeta. rewrite (s32_small (off + Sz)) by (unfold len in *; lia).
  set (m' := store32 m (p + 8) _).
  assert (s32 (be32_at m' (p + 8)) = off + Sz) as Hoff.
  { unfold m'. rewrite be32_store_eq. unfold len in *. rewrite !u32_small by (rewrite ?u32_small; lia). apply s32_small. lia. }
  assert (changes (fun x => p + 8 <= x < p + 12) m m') as Hc by (apply (changes_store 4); lia).
  unfold tok_at, name_in, prop_nameoff, prop_len, prop_data. rewrite Hoff. split_and!; try (unfold len in *; lia).
  - rewrite <- Ht. apply (be32_changes _ _ _ _ Hc). lia.
  - rewrite <- Hlen. apply (be32_changes _ _ _ _ Hc). lia.
  - rewrite <- Hv at 2. apply (load_bytes_changes _ _ _ _ _ Hc). lia.
  - replace (B + (off + Sz)) with (B + Sz + off) by lia. apply (string_changes _ _ _ _ _ Hc); [|done].
    unfold len in *. lia.
Qed.

Lemma fix_strings_spec ts2 : forall ts1 m fuel,
  all = ts1 ++ ts2 -> changes block m0 m -> (length ts2 < fuel)%nat ->
  toks_in m B 0 Sz (fdt + O) ts1 -> toks_in m (B + Sz) (- Sz) 0 (fdt + O + toks_size ts1) ts2 ->
  exists m', fix_strings fuel m fdt (toks_size ts1) = Ok (toks_size all + 4, m') /\
    changes block m0 m' /\ toks_in m' B 0 Sz (fdt + O) all.
Proof.
  induction ts2 as [|t ts2 IH]; intros ts1 m fuel Hall Hc Hf H1 H2;
    (destruct fuel as [|fuel]; cbn [length] in Hf; [lia|]); cbn [fix_strings];
    destruct (fix_layout m Hc) as (Hlm & HOm & Hszm & Hstrm & Hendm).
  - rewrite app_nil_r in Hall. subst ts1. rewrite (next_tag_end (strs := B) Hlm).
    2: { split; rewrite ?HOm; cbn [toks_size toks_at]; [apply toks_size_nonneg|apply toks_size_mod|lia|done|by rewrite Z.add_0_r]. }
    rewrite Ok_bind. change (FDT_END =? FDT_END) with true. cbn iota. by exists m.
  - pose proof (f_equal toks_size Hall) as Hsum. rewrite toks_size_app in Hsum. cbn [toks_size] in Hsum.
    pose proof (toks_size_nonneg ts1). pose proof (toks_size_nonneg ts2). pose proof (tok_size_bounds t).
    rewrite (next_tag_tok (strs := B + Sz) Hlm _ t ts2).
    2: { split; rewrite ?HOm; cbn [toks_size]; [lia|apply toks_size_mod|lia|by eapply toks_in_at|].
         rewrite <- Hendm. f_equal. lia. }
    rewrite Ok_bind. cbn [toks_in] in H2. destruct H2 as [Ht Hts2].
    assert (exists m', changes (fun x => fdt + O + toks_size ts1 <= x < fdt + O + toks_size ts1 + tok_size t) m m' /\
      tok_at m' B (fdt + O + toks_size ts1) t /\ name_in m' 0 Sz (fdt + O + toks_size ts1) t /\
      (if tok_tag t =? FDT_PROP then
         store32 m (prop_nameoff (_fdt_offset_ptr m fdt (toks_size ts1)))
           (cpu_to_fdt32 (u32 (s32 (s32 (fdt32_to_cpu (load32 m (prop_nameoff (_fdt_offset_ptr m fdt (toks_size ts1))))) +
              fdt_size_dt_strings m fdt))))
       else m) = m') as (m' & Hc' & Ht' & Hn' & Hm').
    { unfold _fdt_offset_ptr. rewrite HOm, Hstrm. destruct t as [n| |n v|].
      - exists m. split_and!; [apply changes_refl|apply Ht|done|done].
      - exists m. split_and!; [apply changes_refl|apply Ht|done|done].
      - eexists. split_and!; [| | |done].
        + apply (changes_store 4). unfold prop_nameoff. cbn [tok_size] in *. pose proof (round4_bounds (len v)). unfold len in *. lia.
        + eapply (fix_prop m n v); [lia|lia|done].
        + eapply (fix_prop m n v); [lia|lia|done].
      - exists m. split_and!; [apply changes_refl|apply Ht|done|done]. }
    assert ((tok_tag t =? FDT_END) = false) as -> by (by destruct t). cbn zeta. rewrite Hm'.
    destruct (IH (ts1 ++ [t]) m' fuel) as (m2 & Hfix & Hc2 & Hin2).
    + by rewrite <- app_assoc.
    + eapply changes_trans; [done|]. eapply changes_mono; [|exact Hc']. simpl. lia.
    + lia.
    + apply toks_in_app. split; [|cbn [toks_in]; done].
      apply (toks_in_changes _ _ _ _ _ _ _ _ Hc'); [lia|lia|done].
    + rewrite (toks_size_app ts1 [t]). cbn [toks_size].
      replace (fdt + O + (toks_size ts1 + (tok_size t + 0))) with (fdt + O + toks_size ts1 + tok_size t) by lia.
      apply (toks_in_changes _ _ _ _ _ _ _ _ Hc'); [lia|lia|done].
    + rewrite toks_size_app in Hfix. cbn [toks_size] in Hfix. rewrite Z.add_0_r in Hfix. by exists m2.
Qed.

End Fix.

Lemma load8_memmove_in m d s n i : 0 <= i < n -> load8 (memmove m d s n) (d + i) = load8 m (s + i).
Proof.
  intros Hi. unfold memmove.
  pose proof (load8_store_bytes_in m d (load_bytes m s (Z.to_nat n)) (Z.to_nat i) (load8 m (s + i))) as Hl.
  rewrite Z2Nat.id in Hl by lia. rewrite Hl.
  - apply u8_small, load8_range.
  - rewrite load_bytes_lookup by lia. do 3 f_equal. lia.
Qed.

Lemma changes_memmove (P : Z -> Prop) m d s n :
  0 <= n -> (forall x, d <= x < d + n -> P x) -> changes P m (memmove m d s n).
Proof.
  intros Hn HP. apply changes_store_bytes. rewrite length_load_bytes, Z2Nat.id by lia. done.
Qed.

(** ** Finishing *)

Section Finish.
Context (m : mem) (fdt T O Sz : Z) (ts : list token).
Context (Hw : writing m fdt T O Sz ts) (Hr : O + toks_size ts + 4 + Sz <= T).
#[local] Set Default Proof Using "All".

(** The memory before the string offsets are corrected. *)
Definition fin_end : mem := store32 (grabbed m fdt ts 4) (fdt + O + toks_size ts) (cpu_to_fdt32 FDT_END).
Definition fin_moved : mem :=
  fdt_set_off_dt_strings (memmove fin_end (fdt + (O + (toks_size ts + 4))) (fdt + (T - Sz)) Sz) fdt
    (O + (toks_size ts + 4)).

Notation new := (fun x => fdt + 12 <= x < fdt + 16 \/ fdt + 36 <= x < fdt + 40 \/
                          fdt + O + toks_size ts <= x < fdt + O + (toks_size ts + 4) + Sz).

Lemma fin_end_changes :
  changes (fun x => fdt + 36 <= x < fdt + 40 \/ fdt + O + toks_size ts <= x < fdt + O + toks_size ts + 4) m fin_end.
Proof. eapply changes_trans; apply (changes_store 4); unfold hdr_size_dt_struct; lia. Qed.

Lemma fin_end_header :
  fdt_totalsize fin_end fdt = T /\ fdt_size_dt_strings fin_end fdt = Sz /\ fdt_off_dt_struct fin_end fdt = O /\
  fdt_size_dt_struct fin_end fdt = toks_size ts + 4.
Proof.
  destruct (Hw). pose proof (toks_size_nonneg ts). unfold sizeof_fdt_header in *. pose proof fin_end_changes as Hc.
  split_and!; [rewrite <- w_total0|rewrite <- w_strsize0|rewrite <- w_struct0|].
  1-3: apply (be32_changes _ _ _ _ Hc); unfold hdr_totalsize, hdr_size_dt_strings, hdr_off_dt_struct; lia.
  etransitivity; [apply be32_store_ne; unfold hdr_size_dt_struct; lia|].
  etransitivity; [apply be32_store_eq|]. rewrite !u32_small; rewrite ?u32_small; lia.
Qed.

Lemma fin_moved_changes : changes new m fin_moved.
Proof.
  destruct (Hw). pose proof (toks_size_nonneg ts). unfold sizeof_fdt_header in *.
  eapply changes_trans; [eapply changes_mono; [|apply fin_end_changes]; simpl; lia|].
  eapply changes_trans; [|apply (changes_store 4); unfold hdr_off_dt_strings; lia].
  apply changes_memmove; cbv beta; lia.
Qed.

Lemma fin_moved_kept a : fdt + 40 <= a -> a + 4 <= fdt + O + (toks_size ts + 4) -> be32_at fin_moved a = be32_at fin_end a.
Proof.
  intros Ha1 Ha2. destruct (Hw). etransitivity.
  - apply (be32_changes (fun x => fdt + 12 <= x < fdt + 16)); [|lia]. apply (changes_store 4). unfold hdr_off_dt_strings. lia.
  - apply (be32_changes (fun x => fdt + O + (toks_size ts + 4) <= x)); [|lia]. apply changes_memmove; cbv beta; lia.
Qed.

Lemma fin_moved_spec :
  layout_ok fin_moved fdt /\ fdt_off_dt_struct fin_moved fdt = O /\
  fdt_size_dt_struct fin_moved fdt = toks_size ts + 4 /\ fdt_size_dt_strings fin_moved fdt = Sz /\
  fdt_off_dt_strings fin_moved fdt = O + (toks_size ts + 4) /\
  be32_at fin_moved (fdt + O + toks_size ts) = FDT_END /\
  toks_in fin_moved (fdt + O + (toks_size ts + 4) + Sz) (- Sz) 0 (fdt + O) ts.
Proof.
  pose proof fin_end_header as (H1 & H2 & H3 & H4). pose proof fin_end_changes as Hce.
  pose proof fin_moved_changes as Hc. pose proof (toks_size_nonneg ts). destruct (Hw). unfold sizeof_fdt_header in *.
  assert (forall k, 0 <= k <= 8 \/ 16 <= k <= 36 -> be32_at fin_moved (fdt + k) = be32_at fin_end (fdt + k)) as Hk.
  { intros k Hk. etransitivity; [apply be32_store_ne; unfold hdr_off_dt_strings; lia|].
    apply (be32_changes (fun x => fdt + O + (toks_size ts + 4) <= x)); [|lia]. apply changes_memmove; cbv beta; lia. }
  assert (fdt_totalsize fin_moved fdt = T) as HT by (rewrite <- H1; apply (Hk 4); lia).
  assert (fdt_off_dt_struct fin_moved fdt = O) as HO by (rewrite <- H3; apply (Hk 8); lia).
  assert (fdt_size_dt_struct fin_moved fdt = toks_size ts + 4) as HS by (rewrite <- H4; apply (Hk 36); lia).
  split_and!; [split; lia|done|done|rewrite <- H2; apply (Hk 32); lia| | |].
  - etransitivity; [apply be32_store_eq|]. rewrite !u32_small; rewrite ?u32_small; lia.
  - rewrite fin_moved_kept by lia. apply be32_store_eq.
  - apply (toks_in_moved m _ (fdt + T) _ _ _ (fdt + O)); [| |done].
    + intros x Hx. apply Hc. lia.
    + intros i Hi. transitivity (load8 fin_end (fdt + T + i)); [|apply Hce; lia].
      replace (fdt + O + (toks_size ts + 4) + Sz + i) with (fdt + (O + (toks_size ts + 4)) + (Sz + i)) by lia.
      transitivity (load8 (memmove fin_end (fdt + (O + (toks_size ts + 4))) (fdt + (T - Sz)) Sz) (fdt + (O + (toks_size ts + 4)) + (Sz + i))).
      * apply (load8_store_out 4). unfold hdr_off_dt_strings. lia.
      * rewrite load8_memmove_in by lia. f_equal. lia.
Qed.

Lemma finish_writes :
  exists m', fdt_finish m fdt = Ok (0, m') /\ header_ok m' fdt /\ sees m' fdt 0 ts.
Proof.
  pose proof fin_end_header as (H1 & H2 & H3 & H4). pose proof fin_moved_changes as Hcm.
  pose proof fin_moved_spec as (Hl & HO & HS & HSz & Hoff & Hend & Htoks). destruct (Hw).
  pose proof (toks_size_nonneg ts). pose proof (toks_size_bounds ts). unfold sizeof_fdt_header in *.
  unfold fdt_finish. rewrite (sw_header_checked _ _ _ _ _ _ Hw). cbn [Z.eqb negb].
  rewrite (grab_space_spec _ _ T O Sz ts) by (done || lia).
  destruct (Z.eqb_spec (fdt + O + toks_size ts) 0); [lia|]. fold fin_end. rewrite H1, H2, H3, H4.
  rewrite !s32_small by lia. fold fin_moved.
  destruct (fix_strings_spec fin_moved fdt O Sz ts Hl ltac:(done) ltac:(lia) HO HS HSz Hend ts [] fin_moved (fdt_fuel fin_moved fdt))
    as (m' & Hfix & Hc' & Hin'); [done|apply changes_refl| |done|by rewrite Z.add_0_r|].
  { unfold fdt_fuel. pose proof (hdr_struct_ok _ _ Hl). lia. }
  cbn [toks_size] in Hfix. rewrite Hfix, Ok_bind. destruct (Z.ltb_spec (toks_size ts + 4) 0); [lia|].
  destruct (fix_layout fin_moved fdt O Sz ts Hl ltac:(done) ltac:(lia) HO HS HSz Hend m' Hc') as (_ & _ & _ & HSz' & Hend').
  pose proof (fix_header fin_moved fdt O Sz ts Hl ltac:(done) ltac:(lia) HO HS HSz Hend m') as Hk.
  rewrite HSz'. eexists. split; [done|]. set (m2 := fdt_set_magic _ _ _).
  assert (changes (fun x => fdt <= x < fdt + 8) m' m2) as Hc2.
  { eapply changes_trans; apply (changes_store 4); unfold hdr_totalsize, hdr_magic; lia. }
  assert (forall k, 8 <= k <= 36 -> be32_at m2 (fdt + k) = be32_at fin_moved (fdt + k)) as Hk2.
  { intros k Hk'. rewrite <- (Hk k) by (done || lia). apply (be32_changes _ _ _ _ Hc2). lia. }
  assert (forall k, 16 <= k <= 32 -> be32_at m2 (fdt + k) = be32_at m (fdt + k)) as Hk0.
  { intros k Hk'. rewrite Hk2 by lia. apply (be32_changes _ _ _ _ Hcm). lia. }
  assert (fdt_off_dt_struct m2 fdt = O) as HO2 by (rewrite <- HO; apply (Hk2 8); lia).
  assert (fdt_size_dt_struct m2 fdt = toks_size ts + 4) as HS2 by (rewrite <- HS; apply (Hk2 36); lia).
  assert (fdt_off_dt_strings m2 fdt = O + (toks_size ts + 4)) as Hoff2 by (rewrite <- Hoff; apply (Hk2 12); lia).
  assert (fdt_totalsize m2 fdt = O + (toks_size ts + 4) + Sz) as HT2.
  { etransitivity; [apply be32_store_ne; unfold hdr_totalsize, hdr_magic; lia|].
    etransitivity; [apply be32_store_eq|]. rewrite !u32_small; rewrite ?u32_small; lia. }
  split; split.
  - split; lia.
  - etransitivity; [apply be32_store_eq|done].
  - etransitivity; [|apply Z.eq_le_incl; symmetry; apply (Hk0 20); lia].
    change (be32_at m (fdt + 20)) with (fdt_version m fdt). by rewrite w_version0.
  - etransitivity; [apply Z.eq_le_incl, (Hk0 24); lia|].
    change (be32_at m (fdt + 24)) with (fdt_last_comp_version m fdt). by rewrite w_last0.
  - lia.
  - done.
  - lia.
  - rewrite HO2, Hoff2, Z.add_0_r, Z.add_assoc. apply (toks_in_at _ _ 0 Sz).
    apply (toks_in_changes _ _ _ _ _ _ _ _ Hc2); [lia|lia|done].
  - rewrite HO2, Z.add_0_r. rewrite <- Hend'. apply (be32_changes _ _ _ _ Hc2). lia.
Qed.

End Finish.

(** The calls leave a blob that holds the tree. *)
Lemma sw_build_blob m buf T t :
  0 < buf -> T < 2 ^ 31 -> t <> Nop -> Forall tok_ok (flatten t) ->
  64 + dt_size t + names_size (flatten t) + 4 <= T ->
  exists m', sw_build m buf T t = Ok (0, m') /\ blob m' buf t.
Proof.
  intros Hb HT Ht Hok Hr. unfold dt_size in Hr.
  pose proof (toks_size_nonneg (flatten t)). pose proof (names_size_nonneg (flatten t)). unfold sw_build.
  destruct (create_writes m buf T Hb ltac:(lia)) as (m1 & -> & Hw1). rewrite Ok_bind. cbn [Z.eqb negb].
  destruct (finish_reservemap_writes _ _ _ _ Hw1 ltac:(lia)) as (m2 & -> & Hw2). cbn [Z.eqb negb].
  destruct (sw_calls_write _ _ _ _ _ _ (flatten t) Hw2 Hok) as (m3 & Sz & -> & HSz & Hw3); [cbn [toks_size]; lia|].
  cbn [Z.eqb negb app] in *. destruct (finish_writes _ _ _ _ _ _ Hw3 ltac:(lia)) as (m4 & -> & Hh & Hs). by exists m4.
Qed.
