(* ===== verification/FdtTheorems.v ===== *)
(** * Flattened device trees: the theorems

    Lookup of nodes and properties in every blob, the round trip from the
    sequential-write calls to the readers, and the blobs on which the walks do
    not end. *)

From Stdlib Require Import Strings.String.
From S2P Require Import Prelude Mem Printf Inet LibcString Fdt FdtRo FdtSw FdtRw FdtProof FdtLookup FdtBuild.
#[local] Open Scope Z_scope.

(** ** Lookup *)

Lemma path_offset_found m fdt root names k fuel :
  blob m fdt root -> Forall path_name names -> path_of names k <> [] ->
  fdt_path_offset fuel m fdt (path_of names k) = Ok (found (dt_lookup names 0 root)).
Proof.
  intros (Hh & Hs & Hr) Hn Hne. unfold fdt_path_offset.
  assert (head (path_of names k) = Some chr_slash) as Hhd.
  { destruct names as [|s names]; [destruct k|]; done. }
  destruct fuel; cbn [fdt_path_offset_namelen]; rewrite (header_checked _ _ Hh), Hhd, bool_decide_eq_true_2 by done;
    cbn [Z.eqb negb]; apply (path_loop_spec Hh); auto; by apply blob_tree.
Qed.

Lemma lookup_at m fdt (Hh : header_ok m fdt) names : forall q t q' t',
  tree_at m fdt q t -> dt_lookup names q t = Some (q', t') -> tree_at m fdt q' t'.
Proof.
  induction names as [|s names IH]; intros q t q' t' Ht Hl; cbn [dt_lookup] in Hl; [by simplify_eq|].
  destruct (find_child s (dt_kids t) (kids_offset q t)) as [[q1 t1]|] eqn:Hf; [|done].
  eapply IH; [|exact Hl]. by eapply (find_child_at Hh).
Qed.

(** What the properties of the node [t] at [q] read as. *)
Definition reads_props (m : mem) (fdt q : Z) (t : dt) : Prop :=
  forall name, match find_prop name (dt_props t) with
               | Some v => exists p, p <> 0 /\ fdt_getprop m fdt q name = Ok (p, len v) /\ load_bytes m p (length v) = v
               | None => fdt_getprop m fdt q name = Ok (0, - FDT_ERR_NOTFOUND)
               end.

Lemma lookup_reads m fdt root names q t :
  blob m fdt root -> dt_lookup names 0 root = Some (q, t) -> reads_props m fdt q t.
Proof.
  intros (Hh & Hs & Hr) Hl name. apply (getprop_finds Hh). eapply lookup_at; [done| |done]. by apply blob_tree.
Qed.

(** C28: [fdt_path_offset] returns, for every absolute path, the offset of the
    node that the path selects in the tree: for each name the first child with
    that name, or with that name and a unit address when the name has none; and
    [-FDT_ERR_NOTFOUND] when there is no such node.  It always returns. *)
Theorem fdt_path_offset_finds m fdt root names k fuel
    (Hb : blob m fdt root) (Hn : Forall path_name names) (Hne : path_of names k <> []) :
  fdt_path_offset fuel m fdt (path_of names k) =
    Ok (match dt_lookup names 0 root with Some (q, _) => q | None => - FDT_ERR_NOTFOUND end).
Proof. rewrite (path_offset_found _ _ _ _ _ _ Hb Hn Hne). by destruct (dt_lookup _ _ _) as [[]|]. Qed.

(** At a node that a path selects, [fdt_getprop] returns for every name the
    address and length of the value of the first property with that name, and
    the bytes there are the value; [-FDT_ERR_NOTFOUND] if the node has none. *)
Theorem fdt_getprop_finds m fdt root names q t name
    (Hb : blob m fdt root) (Hl : dt_lookup names 0 root = Some (q, t)) :
  match find_prop name (dt_props t) with
  | Some v => exists p, p <> 0 /\ fdt_getprop m fdt q name = Ok (p, len v) /\ load_bytes m p (length v) = v
  | None => fdt_getprop m fdt q name = Ok (0, - FDT_ERR_NOTFOUND)
  end.
Proof. exact (lookup_reads _ _ _ _ _ _ Hb Hl name). Qed.

(** C26: writing a tree with [fdt_create], [fdt_finish_reservemap], the
    [fdt_begin_node], [fdt_property] and [fdt_end_node] calls of the tree and
    [fdt_finish] succeeds in every buffer that is large enough, and the readers
    then find exactly the nodes and the properties of the tree. *)
Theorem fdt_sw_round_trip m buf bufsize t
    (Hb : 0 < buf) (Hs : bufsize < 2 ^ 31) (Ht : t <> Nop) (Hok : Forall tok_ok (flatten t))
    (Hr : 64 + dt_size t + names_size (flatten t) + 4 <= bufsize) :
  exists m', sw_build m buf bufsize t = Ok (0, m') /\
    forall names k, Forall path_name names -> path_of names k <> [] ->
      fdt_path_offset 0 m' buf (path_of names k) = Ok (found (dt_lookup names 0 t)) /\
      (forall q node, dt_lookup names 0 t = Some (q, node) -> reads_props m' buf q node).
Proof.
  destruct (sw_build_blob m buf bufsize t Hb Hs Ht Hok Hr) as (m' & Hm' & Hblob). exists m'. split; [done|].
  intros names k Hn Hne. split; [by apply path_offset_found|]. intros q node Hl. by eapply lookup_reads.
Qed.

(** ** A walk that does not end *)

(** A property whose length field makes the end of the tag wrap to its start. *)
Definition stuck_prop (m : mem) (fdt q : Z) : Prop :=
  0 <= q /\ q mod 4 = 0 /\ q + 8 <= fdt_size_dt_struct m fdt /\
  be32_at m (fdt + fdt_off_dt_struct m fdt + q) = FDT_PROP /\
  be32_at m (fdt + fdt_off_dt_struct m fdt + q + 4) = 2 ^ 32 - 12.

Lemma stuck_next_tag m fdt q :
  layout_ok m fdt -> stuck_prop m fdt q -> fdt_next_tag m fdt q = Ok (FDT_PROP, q).
Proof.
  intros Hl (Hq & Ha & Hin & Ht & Hlen). pose proof (header_bounds Hl). pose proof (hdr_addr _ _ Hl).
  unfold fdt_next_tag. change FDT_TAGSIZE with 4. rewrite (offset_ptr_in Hl) by lia.
  destruct (Z.eqb_spec (fdt + fdt_off_dt_struct m fdt + q) 0) as [|_]; [lia|].
  unfold be32_at in *. rewrite Ht. change (FDT_PROP =? FDT_BEGIN_NODE) with false.
  change (FDT_PROP =? FDT_PROP) with true. cbn iota. rewrite (s32_small (q + 4)), (offset_ptr_in Hl) by lia.
  destruct (Z.eqb_spec (fdt + fdt_off_dt_struct m fdt + (q + 4)) 0) as [|_]; [lia|].
  rewrite Z.add_assoc, Hlen, Ok_bind. change (sizeof_fdt_property - 4) with 8.
  assert (s32 (q + 4 + 8 + (2 ^ 32 - 12)) = q) as ->.
  { unfold s32, u32. replace (q + 4 + 8 + (2 ^ 32 - 12)) with (q + 1 * 2 ^ 32) by lia.
    rewrite Z_mod_plus_full. apply (s32_small q). lia. }
  rewrite Z.sub_diag, (offset_ptr_in Hl) by lia.
  destruct (Z.eqb_spec (fdt + fdt_off_dt_struct m fdt + q) 0) as [|_]; [lia|].
  assert (round4 q = q) as Hr by (rewrite <- (Z.add_0_r q), round4_shift by done; done).
  rewrite TAGALIGN_small, Hr by lia. done.
Qed.

(** C29: [fdt_next_tag] accepts a property whose length field is 2^32 - 12 and
    returns the property's own offset as the next one: the loops of
    [fdt_next_node], [fdt_open_into] and [fdt_add_subnode] that reach it do not
    end in any number of rounds. *)
Theorem stuck_prop_never_ends m fdt q
    (Hl : layout_ok m fdt) (Hq : stuck_prop m fdt q) :
  fdt_next_tag m fdt q = Ok (FDT_PROP, q) /\
  forall rounds, (forall depth, next_node_loop rounds m fdt q depth = Fault OutOfFuel) /\
    struct_end rounds m fdt q = Fault OutOfFuel /\ skip_props rounds m fdt q = Fault OutOfFuel.
Proof.
  pose proof (stuck_next_tag m fdt q Hl Hq) as Ht. split; [done|].
  induction rounds as [|rounds (IHn & IHs & IHp)]; cbn [next_node_loop struct_end skip_props];
    rewrite !Ht, !Ok_bind; split_and!; auto.
Qed.

(** ** An example *)

Definition ex_dtb : Z := 0x40000000.

(** A board with memory at 0x40000000. *)
Definition ex_memory_node : dt :=
  Node (bytes_of "memory@40000000")
    [Some (bytes_of "device_type", bytes_of "memory" ++ [0]); Some (bytes_of "reg", be64 0x40000000 ++ be64 0x8000000)] [].
Definition ex_tree : dt :=
  Node [] [Some (bytes_of "#address-cells", be32 2); Some (bytes_of "#size-cells", be32 2)]
    [Node (bytes_of "cpus") [] [Node (bytes_of "cpu@0") [] []]; ex_memory_node].

Lemma ex_tree_ok : Forall tok_ok (flatten ex_tree).
Proof.
  cbv -[is_byte is_name]. unfold is_name. repeat constructor; unfold is_byte; simpl; lia.
Qed.

Lemma ex_blob : exists m, sw_build ∅ ex_dtb 1024 ex_tree = Ok (0, m) /\ blob m ex_dtb ex_tree.
Proof.
  apply sw_build_blob; [reflexivity|reflexivity|done|apply ex_tree_ok|]. vm_compute. discriminate.
Qed.

Lemma path_name_memory : path_name (bytes_of "memory").
Proof. split; [done|]. repeat constructor; vm_compute; discriminate. Qed.

Lemma fdt_path_offset_finds_witness :
  exists m, blob m ex_dtb ex_tree /\ fdt_path_offset 0 m ex_dtb (bytes_of "/memory") = Ok 72.
Proof.
  destruct ex_blob as (m & _ & Hb). exists m. split; [done|].
  apply (fdt_path_offset_finds m ex_dtb ex_tree [bytes_of "memory"] 0 0 Hb);
    [apply Forall_singleton, path_name_memory|discriminate].
Defined.

Lemma fdt_getprop_finds_witness :
  exists m p, blob m ex_dtb ex_tree /\ fdt_getprop m ex_dtb 72 (bytes_of "reg") = Ok (p, 16) /\
    load_bytes m p 16 = be64 0x40000000 ++ be64 0x8000000.
Proof.
  destruct ex_blob as (m & _ & Hb). exists m.
  destruct (fdt_getprop_finds m ex_dtb ex_tree [bytes_of "memory"] 72 ex_memory_node (bytes_of "reg") Hb) as (p & _ & Hp).
  - reflexivity.
  - by exists p.
Defined.

Lemma fdt_sw_round_trip_witness :
  exists m, sw_build ∅ ex_dtb 1024 ex_tree = Ok (0, m) /\
    fdt_path_offset 0 m ex_dtb (bytes_of "/cpus/cpu") = Ok 52 /\ reads_props m ex_dtb 72 ex_memory_node.
Proof.
  destruct (fdt_sw_round_trip ∅ ex_dtb 1024 ex_tree) as (m & Hm & Hr);
    [reflexivity|reflexivity|done|apply ex_tree_ok|vm_compute; discriminate|].
  exists m. split; [done|]. split.
  - apply (Hr [bytes_of "cpus"; bytes_of "cpu"] 0%nat); [|discriminate].
    repeat constructor; vm_compute; discriminate.
  - apply (Hr [bytes_of "memory"] 0%nat); [apply Forall_singleton, path_name_memory|discriminate|reflexivity].
Defined.

(** The length of the first property of the root is overwritten. *)
Definition ex_stuck : mem :=
  match sw_build ∅ ex_dtb 1024 ex_tree with
  | Ok (_, m) => store32 m (_fdt_offset_ptr m ex_dtb 12) (cpu_to_fdt32 (2 ^ 32 - 12))
  | Fault _ => ∅
  end.

Lemma ex_stuck_ok :
  layout_ok ex_stuck ex_dtb /\ stuck_prop ex_stuck ex_dtb 8 /\
  fdt_subnode_offset ex_stuck ex_dtb 0 (bytes_of "memory") = Fault OutOfFuel.
Proof.
  split_and!; [split|unfold stuck_prop; split_and!|].
  all: vm_compute; (reflexivity || discriminate).
Qed.

Lemma stuck_prop_never_ends_witness :
  fdt_subnode_offset ex_stuck ex_dtb 0 (bytes_of "memory") = Fault OutOfFuel /\
  forall rounds, next_node_loop rounds ex_stuck ex_dtb 8 None = Fault OutOfFuel.
Proof.
  destruct ex_stuck_ok as (Hl & Hs & Hf). split; [done|]. intros rounds. apply (stuck_prop_never_ends ex_stuck ex_dtb 8 Hl Hs).
Defined.

(** An alias whose value is its own name: the recursion of [fdt_path_offset]
    does not end at any depth. *)
Lemma self_alias_never_ends m fdt name p :
  fdt_check_header m fdt = 0 -> head name <> Some chr_slash -> find_char chr_slash name = None ->
  fdt_get_alias_namelen m fdt name = Ok p -> p <> 0 -> string_at m p name ->
  forall depth, fdt_path_offset depth m fdt name = Fault OutOfFuel.
Proof.
  intros Hh Hhd Hsl Ha Hp Hs. unfold fdt_path_offset.
  induction depth as [|depth IH]; cbn [fdt_path_offset_namelen]; rewrite Hh, bool_decide_eq_false_2 by done;
    cbn [Z.eqb negb]; unfold component; rewrite Hsl, Ha, Ok_bind; (destruct (Z.eqb_spec p 0); [done|]); [done|].
  rewrite (strlen_found _ _ _ Hs), Ok_bind, Nat2Z.id, (string_bytes _ _ _ Hs), IH. done.
Qed.

Definition ex_alias_tree : dt :=
  Node [] [] [Node (bytes_of "aliases") [Some (bytes_of "serial0", bytes_of "serial0" ++ [0])] []].

Example self_alias_recursion :
  ('(_, m) ← sw_build ∅ ex_dtb 1024 ex_alias_tree; fdt_path_offset 8 m ex_dtb (bytes_of "serial0")) = Fault OutOfFuel.
Proof. vm_compute. reflexivity. Qed.

(** [fdt_resize] copies the header and the strings but not the structure block:
    the node that was begun is gone from the new buffer. *)
Definition resized_tree (resize : bool) : outcome Z :=
  '(_, m) ← fdt_create ∅ ex_dtb 1024;
  let '(_, m) := fdt_finish_reservemap m ex_dtb in
  let '(_, m) := fdt_begin_node m ex_dtb [] in
  let '(fdt, m) := if resize then (ex_dtb + 4096, (fdt_resize m ex_dtb (ex_dtb + 4096) 2048).2) else (ex_dtb, m) in
  let '(_, m) := fdt_end_node m fdt in
  '(err, m) ← fdt_finish m fdt;
  Ok err.

Example resize_loses_nodes : resized_tree false = Ok 0 /\ resized_tree true = Ok (- FDT_ERR_BADSTRUCTURE).
Proof. vm_compute. done. Qed.
