(* ===== verification/FdtOverlay.v ===== *)
(** * Flattened device trees: overlays

    lib/libfdt/fdt_overlay.c.  The base tree and the overlay are two blobs in one
    memory.  A name or a value that the code passes on as a pointer is read where
    the pointer is taken; a pointer to the characters of a name is the list of
    them for the functions that get a length.

    [fdt_for_each_property_offset] and [fdt_for_each_subnode] are loops over the
    offset, with the size of the blob as fuel; the recursions over a tree have it
    as the bound of their depth, and an alias that names itself runs out of it.
    [garbage] is the value of the variable [ret] of
    [overlay_update_local_node_references] before it is set. *)

From Stdlib Require Import Strings.String.
From S2P Require Import Prelude Mem Printf Inet LibcString Fdt FdtRo FdtSw FdtRw.
#[local] Open Scope Z_scope.

Definition FDT_ERR_BADOVERLAY : Z := 16.
Definition FDT_ERR_NOPHANDLES : Z := 17.

(** The string at a pointer. *)
Definition c_string (m : mem) (p : Z) : outcome (list Z) :=
  nonnull! p ;;
  len ← Libc.strlen m p;
  Ok (load_bytes m p (Z.to_nat len)).

(** ** [strtoul], in base 10: the value and the end pointer *)

Definition is_space (b : Z) : bool := (b =? 32) || ((9 <=? b) && (b <=? 13)).
Definition is_digit (b : Z) : bool := (48 <=? b) && (b <=? 57).
Definition ULONG_MAX : Z := 2 ^ 64 - 1.

Fixpoint skip_spaces (fuel : nat) (m : mem) (p : Z) : outcome Z :=
  if is_space (load8 m p) then
    match fuel with
    | O => Fault OutOfFuel
    | S fuel => skip_spaces fuel m (p + 1)
    end
  else Ok p.

Fixpoint read_digits (fuel : nat) (m : mem) (p acc : Z) : outcome (Z * Z) :=
  if is_digit (load8 m p) then
    match fuel with
    | O => Fault OutOfFuel
    | S fuel => read_digits fuel m (p + 1) (acc * 10 + (load8 m p - 48))
    end
  else Ok (acc, p).

Definition strtoul (m : mem) (nptr : Z) : outcome (Z * Z) :=
  p ← skip_spaces (size m) m nptr;
  let c := load8 m p in
  let start := if (c =? 43) || (c =? 45) then p + 1 else p in
  '(acc, end_) ← read_digits (size m) m start 0;
  if end_ =? start then Ok (0, nptr)
  else if ULONG_MAX <? acc then Ok (ULONG_MAX, end_)
  else Ok (if c =? 45 then u64 (- acc) else acc, end_).

(** ** Targets *)

Definition overlay_get_target_phandle (m : mem) (fdto fragment : Z) : outcome Z :=
  '(val, len) ← fdt_getprop m fdto fragment (bytes_of "target");
  if val =? 0 then Ok 0 else
  if negb (len =? 4) || (load32 m val =? 2 ^ 32 - 1) then Ok (2 ^ 32 - 1) else
  Ok (fdt32_to_cpu (load32 m val)).

Definition overlay_get_target (m : mem) (fdt fdto fragment : Z) : outcome Z :=
  phandle ← overlay_get_target_phandle m fdto fragment;
  if phandle =? 2 ^ 32 - 1 then Ok (- FDT_ERR_BADPHANDLE) else
  if negb (phandle =? 0) then fdt_node_offset_by_phandle m fdt phandle else
  '(path, path_len) ← fdt_getprop m fdto fragment (bytes_of "target-path");
  if path =? 0 then
    Ok (if path_len =? - FDT_ERR_NOTFOUND then - FDT_ERR_BADOVERLAY else path_len)
  else
    path ← c_string m path;
    fdt_path_offset (fdt_fuel m fdt) m fdt path.

(** ** Phandles of the overlay *)

Definition overlay_phandle_add_offset (m : mem) (fdt node : Z) (name : list Z) (delta : Z) : outcome (Z * mem) :=
  '(val, len) ← fdt_getprop m fdt node name;
  if val =? 0 then Ok (len, m) else
  if negb (len =? 4) then Ok (- FDT_ERR_BADPHANDLE, m) else
  let adj_val := fdt32_to_cpu (load32 m val) in
  if u32 (adj_val + delta) <? adj_val then Ok (- FDT_ERR_NOPHANDLES, m) else
  let adj_val := u32 (adj_val + delta) in
  if adj_val =? 2 ^ 32 - 1 then Ok (- FDT_ERR_NOPHANDLES, m) else
  fdt_setprop_inplace_u32 m fdt node name adj_val.

(** [fdt_for_each_subnode] and [fdt_for_each_property_offset]: [body] gets a
    variable of the function, and returns an error, which ends the function, the
    variable and the memory. *)
Fixpoint for_each_subnode {X} (fuel : nat) (m : mem) (fdt : Z) (x : X) (child : Z)
    (body : mem -> X -> Z -> outcome (Z * X * mem)) : outcome (Z * X * mem) :=
  if child <? 0 then Ok (0, x, m) else
  '(ret, x, m) ← body m x child;
  if negb (ret =? 0) then Ok (ret, x, m) else
  match fuel with
  | O => Fault OutOfFuel
  | S fuel =>
      child ← fdt_next_subnode m fdt child;
      for_each_subnode fuel m fdt x child body
  end.

Fixpoint for_each_property {X} (fuel : nat) (m : mem) (fdt : Z) (x : X) (property : Z)
    (body : mem -> X -> Z -> outcome (Z * X * mem)) : outcome (Z * X * mem) :=
  if property <? 0 then Ok (0, x, m) else
  '(ret, x, m) ← body m x property;
  if negb (ret =? 0) then Ok (ret, x, m) else
  match fuel with
  | O => Fault OutOfFuel
  | S fuel =>
      property ← fdt_next_property_offset m fdt property;
      for_each_property fuel m fdt x property body
  end.

(** A body without a variable. *)
Definition plain (body : mem -> Z -> outcome (Z * mem)) (m : mem) (x : unit) (offset : Z) : outcome (Z * unit * mem) :=
  '(ret, m) ← body m offset;
  Ok (ret, x, m).

Definition each_subnode (m : mem) (fdt node : Z) (body : mem -> Z -> outcome (Z * mem)) : outcome (Z * mem) :=
  child ← fdt_first_subnode m fdt node;
  '(ret, _, m) ← for_each_subnode (fdt_fuel m fdt) m fdt tt child (plain body);
  Ok (ret, m).

Definition each_property (m : mem) (fdt node : Z) (body : mem -> Z -> outcome (Z * mem)) : outcome (Z * mem) :=
  property ← fdt_first_property_offset m fdt node;
  '(ret, _, m) ← for_each_property (fdt_fuel m fdt) m fdt tt property (plain body);
  Ok (ret, m).

Fixpoint overlay_adjust_node_phandles (fuel : nat) (m : mem) (fdto node delta : Z) : outcome (Z * mem) :=
  match fuel with
  | O => Fault OutOfFuel
  | S fuel =>
      '(ret, m) ← overlay_phandle_add_offset m fdto node (bytes_of "phandle") delta;
      if negb (ret =? 0) && negb (ret =? - FDT_ERR_NOTFOUND) then Ok (ret, m) else
      '(ret, m) ← overlay_phandle_add_offset m fdto node (bytes_of "linux,phandle") delta;
      if negb (ret =? 0) && negb (ret =? - FDT_ERR_NOTFOUND) then Ok (ret, m) else
      each_subnode m fdto node (fun m child => overlay_adjust_node_phandles fuel m fdto child delta)
  end.

Definition overlay_adjust_local_phandles (m : mem) (fdto delta : Z) : outcome (Z * mem) :=
  overlay_adjust_node_phandles (fdt_fuel m fdto) m fdto 0 delta.

(** ** References inside of the overlay *)

(** The loop over the words of a fixup property, [n] of them left: the error, [ret]
    and the memory. *)
Fixpoint update_words (n : nat) (m : mem) (fdto tree_node : Z) (name : list Z) (tree_val fixup_val delta ret : Z)
  : outcome (Z * Z * mem) :=
  match n with
  | O => Ok (0, ret, m)
  | S n =>
      let poffset := fdt32_to_cpu (load32 m fixup_val) in
      let adj_val := fdt32_to_cpu (load32 m (tree_val + poffset)) in
      let adj_val := u32 (adj_val + delta) in
      '(ret, m) ← fdt_setprop_inplace_namelen_partial m fdto tree_node name poffset (be32 adj_val);
      if ret =? - FDT_ERR_NOSPACE then Ok (- FDT_ERR_BADOVERLAY, ret, m) else
      if negb (ret =? 0) then Ok (ret, ret, m) else
      update_words n m fdto tree_node name tree_val (fixup_val + 4) delta ret
  end.

Definition update_property (m : mem) (fdto tree_node delta ret fixup_prop : Z) : outcome (Z * Z * mem) :=
  '(fixup_val, name, fixup_len) ← fdt_getprop_by_offset m fdto fixup_prop;
  if fixup_val =? 0 then Ok (fixup_len, ret, m) else
  if negb (u64 fixup_len mod 4 =? 0) then Ok (- FDT_ERR_BADOVERLAY, ret, m) else
  name ← c_string m name;
  '(tree_val, tree_len) ← fdt_getprop m fdto tree_node name;
  if tree_val =? 0 then
    Ok (if tree_len =? - FDT_ERR_NOTFOUND then - FDT_ERR_BADOVERLAY else tree_len, ret, m)
  else update_words (Z.to_nat (u64 fixup_len / 4)) m fdto tree_node name tree_val fixup_val delta ret.

Fixpoint overlay_update_local_node_references (garbage : Z) (fuel : nat) (m : mem) (fdto tree_node fixup_node delta : Z)
  : outcome (Z * mem) :=
  match fuel with
  | O => Fault OutOfFuel
  | S fuel =>
      fixup_prop ← fdt_first_property_offset m fdto fixup_node;
      '(err, ret, m) ← for_each_property (fdt_fuel m fdto) m fdto garbage fixup_prop (fun m ret fixup_prop =>
                         update_property m fdto tree_node delta ret fixup_prop);
      if negb (err =? 0) then Ok (err, m) else
      fixup_child ← fdt_first_subnode m fdto fixup_node;
      '(err, _, m) ← for_each_subnode (fdt_fuel m fdto) m fdto ret fixup_child (fun m ret fixup_child =>
        '(fixup_child_name, _) ← fdt_get_name m fdto fixup_child;
        fixup_child_name ← c_string m fixup_child_name;
        tree_child ← fdt_subnode_offset m fdto tree_node fixup_child_name;
        if ret =? - FDT_ERR_NOTFOUND then Ok (- FDT_ERR_BADOVERLAY, ret, m) else
        if tree_child <? 0 then Ok (tree_child, ret, m) else
        '(ret, m) ← overlay_update_local_node_references garbage fuel m fdto tree_child fixup_child delta;
        Ok (ret, ret, m));
      Ok (err, m)
  end.

Definition overlay_update_local_references (garbage : Z) (m : mem) (fdto delta : Z) : outcome (Z * mem) :=
  fixups ← fdt_path_offset (fdt_fuel m fdto) m fdto (bytes_of "/__local_fixups__");
  if fixups <? 0 then Ok (if fixups =? - FDT_ERR_NOTFOUND then 0 else fixups, m)
  else overlay_update_local_node_references garbage (fdt_fuel m fdto) m fdto 0 fixups delta.

(** ** References from the overlay to the base tree *)

Definition overlay_fixup_one_phandle (m : mem) (fdt fdto symbols_off : Z) (path name : list Z) (poffset : Z) (label : list Z)
  : outcome (Z * mem) :=
  if symbols_off <? 0 then Ok (symbols_off, m) else
  '(symbol_path, prop_len) ← fdt_getprop m fdt symbols_off label;
  if symbol_path =? 0 then Ok (prop_len, m) else
  symbol_path ← c_string m symbol_path;
  symbol_off ← fdt_path_offset (fdt_fuel m fdt) m fdt symbol_path;
  if symbol_off <? 0 then Ok (symbol_off, m) else
  phandle ← fdt_get_phandle m fdt symbol_off;
  if phandle =? 0 then Ok (- FDT_ERR_NOTFOUND, m) else
  fixup_off ← fdt_path_offset_namelen (fdt_fuel m fdto) m fdto path;
  if fixup_off =? - FDT_ERR_NOTFOUND then Ok (- FDT_ERR_BADOVERLAY, m) else
  if fixup_off <? 0 then Ok (fixup_off, m) else
  fdt_setprop_inplace_namelen_partial m fdto fixup_off name (u32 poffset) (be32 phandle).

Definition chr_colon : Z := 58.

(** One round of the loop of [overlay_fixup_phandle]: the string at [value], and
    [fixup_len] as it is at the end of the round's parsing. *)
Definition fixup_one (m : mem) (fdt fdto symbols_off value fixup_len : Z) (label : list Z) : outcome (Z * mem) :=
  let bad := Ok (- FDT_ERR_BADOVERLAY, m) in
  let path := value in
  let sep := Libc.memchr m value chr_colon (Z.to_nat fixup_len) in
  if (sep =? 0) || negb (load8 m sep =? chr_colon) then bad else
  let path_len := u32 (sep - path) in
  if path_len =? u32 (fixup_len - 1) then bad else
  let fixup_len := u32 (fixup_len - (path_len + 1)) in
  let name := sep + 1 in
  let sep := Libc.memchr m name chr_colon (Z.to_nat fixup_len) in
  if (sep =? 0) || negb (load8 m sep =? chr_colon) then bad else
  let name_len := u32 (sep - name) in
  if name_len =? 0 then bad else
  '(poffset, endptr) ← strtoul m (sep + 1);
  let poffset := s32 poffset in
  if negb (load8 m endptr =? 0) || (endptr <=? sep + 1) then bad else
  overlay_fixup_one_phandle m fdt fdto symbols_off (load_bytes m path (Z.to_nat path_len))
    (load_bytes m name (Z.to_nat name_len)) poffset label.

(** [do { ... } while (len > 0)]: every round takes a byte at least. *)
Fixpoint fixup_loop (fuel : nat) (m : mem) (fdt fdto symbols_off value len : Z) (label : list Z) : outcome (Z * mem) :=
  let fixup_end := Libc.memchr m value 0 (Z.to_nat len) in
  if fixup_end =? 0 then Ok (- FDT_ERR_BADOVERLAY, m) else
  let fixup_len := u32 (fixup_end - value) in
  let len := s32 (len - (fixup_len + 1)) in
  '(ret, m) ← fixup_one m fdt fdto symbols_off value fixup_len label;
  if negb (ret =? 0) then Ok (ret, m) else
  if 0 <? len then
    match fuel with
    | O => Fault OutOfFuel
    | S fuel => fixup_loop fuel m fdt fdto symbols_off (value + (fixup_len + 1)) len label
    end
  else Ok (0, m).

Definition overlay_fixup_phandle (m : mem) (fdt fdto symbols_off property : Z) : outcome (Z * mem) :=
  '(value, label, len) ← fdt_getprop_by_offset m fdto property;
  if value =? 0 then Ok (if len =? - FDT_ERR_NOTFOUND then - FDT_ERR_INTERNAL else len, m) else
  label ← c_string m label;
  fixup_loop (Z.to_nat len) m fdt fdto symbols_off value len label.

Definition overlay_fixup_phandles (m : mem) (fdt fdto : Z) : outcome (Z * mem) :=
  fixups_off ← fdt_path_offset (fdt_fuel m fdto) m fdto (bytes_of "/__fixups__");
  if fixups_off =? - FDT_ERR_NOTFOUND then Ok (0, m) else
  if fixups_off <? 0 then Ok (fixups_off, m) else
  symbols_off ← fdt_path_offset (fdt_fuel m fdt) m fdt (bytes_of "/__symbols__");
  if (symbols_off <? 0) && negb (symbols_off =? - FDT_ERR_NOTFOUND) then Ok (symbols_off, m) else
  each_property m fdto fixups_off (fun m property => overlay_fixup_phandle m fdt fdto symbols_off property).

(** ** Merging *)

Definition apply_property (m : mem) (fdt target fdto property : Z) : outcome (Z * mem) :=
  '(prop, name, prop_len) ← fdt_getprop_by_offset m fdto property;
  if prop_len =? - FDT_ERR_NOTFOUND then Ok (- FDT_ERR_INTERNAL, m) else
  if prop_len <? 0 then Ok (prop_len, m) else
  name ← c_string m name;
  fdt_setprop m fdt target name (load_bytes m prop (Z.to_nat prop_len)).

Fixpoint overlay_apply_node (fuel : nat) (m : mem) (fdt target fdto node : Z) : outcome (Z * mem) :=
  match fuel with
  | O => Fault OutOfFuel
  | S fuel =>
      '(ret, m) ← each_property m fdto node (fun m property => apply_property m fdt target fdto property);
      if negb (ret =? 0) then Ok (ret, m) else
      each_subnode m fdto node (fun m subnode =>
        '(name, _) ← fdt_get_name m fdto subnode;
        name ← c_string m name;
        '(nnode, m) ← fdt_add_subnode m fdt target name;
        nnode ← (if nnode =? - FDT_ERR_EXISTS then
                   nnode ← fdt_subnode_offset m fdt target name;
                   Ok (if nnode =? - FDT_ERR_NOTFOUND then - FDT_ERR_INTERNAL else nnode)
                 else Ok nnode);
        if nnode <? 0 then Ok (nnode, m) else
        overlay_apply_node fuel m fdt nnode fdto subnode)
  end.

Definition overlay_merge (m : mem) (fdt fdto : Z) : outcome (Z * mem) :=
  each_subnode m fdto 0 (fun m fragment =>
    overlay ← fdt_subnode_offset m fdto fragment (bytes_of "__overlay__");
    if overlay =? - FDT_ERR_NOTFOUND then Ok (0, m) else
    if overlay <? 0 then Ok (overlay, m) else
    target ← overlay_get_target m fdt fdto fragment;
    if target <? 0 then Ok (target, m) else
    overlay_apply_node (fdt_fuel m fdto) m fdt target fdto overlay).

Definition overlay_steps (garbage : Z) (m : mem) (fdt fdto delta : Z) : outcome (Z * mem) :=
  '(ret, m) ← overlay_adjust_local_phandles m fdto delta;
  if negb (ret =? 0) then Ok (ret, m) else
  '(ret, m) ← overlay_update_local_references garbage m fdto delta;
  if negb (ret =? 0) then Ok (ret, m) else
  '(ret, m) ← overlay_fixup_phandles m fdt fdto;
  if negb (ret =? 0) then Ok (ret, m) else
  overlay_merge m fdt fdto.

Definition fdt_overlay_apply (garbage : Z) (m : mem) (fdt fdto : Z) : outcome (Z * mem) :=
  delta ← fdt_get_max_phandle m fdt;
  if negb (fdt_check_header m fdt =? 0) then Ok (fdt_check_header m fdt, m) else
  if negb (fdt_check_header m fdto =? 0) then Ok (fdt_check_header m fdto, m) else
  '(ret, m) ← overlay_steps garbage m fdt fdto delta;
  let m := fdt_set_magic m fdto (Z.lnot 0) in
  if negb (ret =? 0) then Ok (ret, fdt_set_magic m fdt (Z.lnot 0)) else Ok (0, m).
