(* ===== verification/FdtEdit.v ===== *)
(** * Flattened device trees: the editing calls

    [fdt_setprop] and [fdt_add_subnode] of fdt_rw.c on a blob that holds a tree:
    they make room in the structure block, move what is behind, and leave a blob
    that holds the tree with the property set or the node added. *)

From Stdlib Require Import Strings.String.
From S2P Require Import Prelude Mem Printf Inet LibcString Fdt FdtRo FdtSw FdtRw FdtProof FdtLookup FdtBuild.
#[local] Open Scope Z_scope.

(** The comparisons of the goal that cannot hold. *)
Ltac no_less := repeat match goal with |- context[?a <? ?b] => destruct (Z.ltb_spec a b) as [|_]; [lia|] end.

(** ** Blobs with their extent *)

(** A blob of [T] bytes at [fdt]: the structure block is at [O] and holds the
    tokens [ts], the strings are the [Sz] bytes at [S]. *)
Record intact (m : mem) (fdt T O S Sz : Z) (ts : list token) : Prop := {
  in_addr : 0 < fdt;
  in_T : T < 2 ^ 31;
  in_magic : fdt_magic m fdt = FDT_MAGIC;
  in_version : FDT_FIRST_SUPPORTED_VERSION <= fdt_version m fdt;
  in_last : fdt_last_comp_version m fdt <= FDT_LAST_SUPPORTED_VERSION;
  in_total : fdt_totalsize m fdt = T;
  in_struct : fdt_off_dt_struct m fdt = O;
  in_O : sizeof_fdt_header <= O;
  in_size : toks_size ts + 4 <= fdt_size_dt_struct m fdt;
  in_strings : fdt_off_dt_strings m fdt = S;
  in_order : O + fdt_size_dt_struct m fdt <= S;
  in_Sz : 0 <= Sz;
  in_room : S + Sz <= T;
  in_toks : toks_in m (fdt + S) 0 Sz (fdt + O) ts;
  in_end : be32_at m (fdt + O + toks_size ts) = FDT_END
}.

(** A blob that the editing calls accept. *)
Record editable (m : mem) (fdt T O S Sz : Z) (ts : list token) : Prop := {
  ed_intact :> intact m fdt T O S Sz ts;
  ed_version : fdt_version m fdt = 17;
  ed_rsv : header_size8 <= fdt_off_mem_rsvmap m fdt /\ fdt_off_mem_rsvmap m fdt + sizeof_fdt_reserve_entry <= O;
  ed_size : fdt_size_dt_struct m fdt = toks_size ts + 4;
  ed_strsize : fdt_size_dt_strings m fdt = Sz
}.

Lemma intact_header m fdt T O S Sz ts : intact m fdt T O S Sz ts -> header_ok m fdt.
Proof. intros []. split; [split|..]; try done; lia. Qed.

Lemma intact_sees m fdt T O S Sz ts : intact m fdt T O S Sz ts -> sees m fdt 0 ts.
Proof.
  intros []. split; [lia|done|lia| |].
  - rewrite in_struct0, in_strings0, Z.add_0_r. by apply toks_in_at in in_toks0.
  - by rewrite in_struct0, Z.add_0_r.
Qed.

(** The words of the header. *)
Lemma header_word m m' fdt k :
  (forall x, fdt + k <= x < fdt + k + 4 -> load8 m' x = load8 m x) -> be32_at m' (fdt + k) = be32_at m (fdt + k).
Proof. intros Hx. unfold be32_at. f_equal. apply load_ext. intros x Hx'. apply Hx. lia. Qed.

(** The same bytes in the blob. *)
Lemma intact_same m m' fdt T O S Sz ts :
  (forall x, fdt <= x < fdt + T -> load8 m' x = load8 m x) -> intact m fdt T O S Sz ts -> intact m' fdt T O S Sz ts.
Proof.
  intros Hx []. unfold sizeof_fdt_header in *. pose proof (toks_size_nonneg ts).
  assert (forall k, 0 <= k <= 36 -> be32_at m' (fdt + k) = be32_at m (fdt + k)) as Hk.
  { intros k Hk. apply header_word. intros x Hx'. apply Hx. lia. }
  pose proof (Hk 0 ltac:(lia)) as H0. rewrite Z.add_0_r in H0. pose proof (Hk 36 ltac:(lia)) as H36.
  change (fdt_size_dt_struct m' fdt = fdt_size_dt_struct m fdt) in H36.
  split; try done; rewrite ?H36; try done.
  - by rewrite <- in_magic0.
  - etransitivity; [exact in_version0|]. apply Z.eq_le_incl. symmetry. apply (Hk 20). lia.
  - etransitivity; [|exact in_last0]. apply Z.eq_le_incl. apply (Hk 24). lia.
  - rewrite <- in_total0. apply (Hk 4). lia.
  - rewrite <- in_struct0. apply (Hk 8). lia.
  - rewrite <- in_strings0. apply (Hk 12). lia.
  - apply (toks_in_moved m _ (fdt + S) _ _ _ (fdt + O)); [| |done]; intros i Hi; apply Hx; lia.
  - rewrite <- in_end0. unfold be32_at. f_equal. apply load_ext. intros x Hx'. apply Hx. lia.
Qed.

Lemma rw_checked m fdt T O S Sz ts : editable m fdt T O S Sz ts -> _fdt_rw_check_header m fdt = (0, m).
Proof.
  intros [Hi]. pose proof (header_checked _ _ (intact_header _ _ _ _ _ _ _ Hi)) as Hc. destruct (Hi). unfold sizeof_fdt_header in *.
  pose proof (toks_size_nonneg ts). unfold _fdt_rw_check_header. rewrite Hc. cbn [Z.eqb negb]. rewrite ed_version0. cbn [Z.ltb Z.compare Pos.compare Pos.compare_cont].
  unfold _fdt_blocks_misordered, header_size8, sizeof_fdt_reserve_entry in *. rewrite in_struct0, in_strings0, in_total0, ed_strsize0.
  rewrite !u32_small by lia.
  no_less. done.
Qed.

(** ** Making room *)

(** The two words of the header that change with the structure block. *)
Definition size_word (fdt x : Z) : Prop := fdt + 12 <= x < fdt + 16 \/ fdt + 36 <= x < fdt + 40.

Lemma splice_struct_spec m fdt T O S Sz ts p old new :
  editable m fdt T O S Sz ts -> fdt + O <= p -> 0 <= old -> 0 <= new ->
  p + old <= fdt + O + toks_size ts -> S + Sz - old + new <= T ->
  exists m', _fdt_splice_struct m fdt p old new = (0, m') /\
    (forall x, x < p -> ~ size_word fdt x -> load8 m' x = load8 m x) /\
    (forall x, p + old <= x < fdt + S + Sz -> load8 m' (x + (new - old)) = load8 m x) /\
    fdt_size_dt_struct m' fdt = toks_size ts + 4 + (new - old) /\ fdt_off_dt_strings m' fdt = S + (new - old) /\
    changes (fun x => fdt <= x < fdt + T) m m'.
Proof.
  intros He Hp Ho Hn Hpo Hr. destruct He as [[] ? ? ? ?]. unfold sizeof_fdt_header, header_size8, sizeof_fdt_reserve_entry in *.
  unfold _fdt_splice_struct, _fdt_splice, _fdt_data_size. rewrite in_strings0, ed_strsize0, in_total0, !s32_small by lia.
  no_less. cbn [orb negb Z.eqb].
  set (n := fdt + (S + Sz) - p - old). set (m1 := memmove m (p + new) (p + old) n).
  assert (changes (fun x => p <= x < fdt + T) m m1) as Hc1.
  { apply changes_memmove; unfold n; [lia|]. intros x Hx. lia. }
  assert (fdt_size_dt_struct m1 fdt = toks_size ts + 4) as H1.
  { rewrite <- ed_size0. apply (header_word m m1 fdt 36). intros x Hx. apply Hc1. lia. }
  assert (fdt_off_dt_strings m1 fdt = S) as H2.
  { rewrite <- in_strings0. apply (header_word m m1 fdt 12). intros x Hx. apply Hc1. lia. }
  rewrite H1. set (m2 := fdt_set_size_dt_struct _ _ _).
  assert (changes (fun x => fdt + 36 <= x < fdt + 40) m1 m2) as Hc2 by (apply (changes_store 4); unfold hdr_size_dt_struct; lia).
  assert (fdt_off_dt_strings m2 fdt = S) as H3.
  { rewrite <- H2. apply (header_word m1 m2 fdt 12). intros x Hx. apply Hc2. lia. }
  rewrite H3. eexists. split; [reflexivity|]. set (m3 := fdt_set_off_dt_strings _ _ _).
  assert (changes (fun x => fdt + 12 <= x < fdt + 16) m2 m3) as Hc3 by (apply (changes_store 4); unfold hdr_off_dt_strings; lia).
  assert (changes (size_word fdt) m1 m3) as Hc.
  { eapply changes_trans; [eapply changes_mono; [|exact Hc2]|eapply changes_mono; [|exact Hc3]]; unfold size_word; simpl; lia. }
  split_and!.
  - intros x Hx Hw. rewrite Hc by done. apply Hc1. lia.
  - intros x Hx. rewrite Hc by (unfold size_word; lia). replace (x + (new - old)) with (p + new + (x - (p + old))) by lia.
    unfold m1. rewrite load8_memmove_in by (unfold n; lia). f_equal. lia.
  - transitivity (fdt_size_dt_struct m2 fdt); [apply (header_word m2 m3 fdt 36); intros x Hx; apply Hc3; lia|].
    etransitivity; [apply be32_store_eq|]. pose proof (toks_size_nonneg ts). rewrite !u32_small; rewrite ?u32_small; lia.
  - etransitivity; [apply be32_store_eq|]. pose proof (toks_size_nonneg ts). rewrite !u32_small; rewrite ?u32_small; lia.
  - eapply changes_trans; [eapply changes_mono; [|exact Hc1]; simpl; lia|].
    eapply changes_mono; [|exact Hc]. unfold size_word. simpl. lia.
Qed.

(** What is left to show after the room has been filled: the tokens [old] have
    become [new], everything behind has moved. *)
Lemma editable_edit m m' fdt T O S Sz ts1 old new ts2 :
  editable m fdt T O S Sz (ts1 ++ old ++ ts2) ->
  let d := toks_size new - toks_size old in
  let p := fdt + O + toks_size ts1 in
  (forall x, x < p -> ~ size_word fdt x -> load8 m' x = load8 m x) ->
  (forall x, p + toks_size old <= x < fdt + S + Sz -> load8 m' (x + d) = load8 m x) ->
  fdt_size_dt_struct m' fdt = toks_size (ts1 ++ old ++ ts2) + 4 + d -> fdt_off_dt_strings m' fdt = S + d ->
  S + d + Sz <= T -> toks_in m' (fdt + (S + d)) 0 Sz p new ->
  editable m' fdt T O (S + d) Sz (ts1 ++ new ++ ts2).
Proof.
  intros [[] ? ? ? ?] d p Hlo Hhi Hsz Hoff Hroom Hnew. unfold sizeof_fdt_header, header_size8, sizeof_fdt_reserve_entry in *.
  rewrite !toks_size_app in *. apply toks_in_app in in_toks0 as [Ht1 [_ Ht2]%toks_in_app].
  pose proof (toks_size_nonneg ts1). pose proof (toks_size_nonneg ts2). pose proof (toks_size_nonneg old). pose proof (toks_size_nonneg new).
  assert (forall k, 0 <= k <= 8 \/ 16 <= k <= 32 -> be32_at m' (fdt + k) = be32_at m (fdt + k)) as Hk.
  { intros k Hk. apply header_word. intros x Hx. apply Hlo; [lia|]. unfold size_word. lia. }
  pose proof (Hk 0 ltac:(lia)) as Hk0. rewrite Z.add_0_r in Hk0.
  pose proof (Hk 16 ltac:(lia)) as Hk16. change (fdt_off_mem_rsvmap m' fdt = fdt_off_mem_rsvmap m fdt) in Hk16.
  assert (forall i, 0 <= i < Sz -> load8 m' (fdt + (S + d) + i) = load8 m (fdt + S + i)) as Hstr.
  { intros i Hi. rewrite <- Hhi by lia. f_equal. lia. }
  split; [split|..]; rewrite ?toks_size_app, ?Hsz; try done; try lia.
  - by rewrite <- in_magic0.
  - etransitivity; [exact in_version0|]. apply Z.eq_le_incl. symmetry. apply (Hk 20). lia.
  - etransitivity; [|exact in_last0]. apply Z.eq_le_incl. apply (Hk 24). lia.
  - rewrite <- in_total0. apply (Hk 4). lia.
  - rewrite <- in_struct0. apply (Hk 8). lia.
  - apply toks_in_app. split; [|apply toks_in_app; split; [done|]].
    + apply (toks_in_moved m _ (fdt + S) _ _ _ (fdt + O)); [|done|done]. intros i Hi. apply Hlo; [lia|]. unfold size_word. lia.
    + apply (toks_in_moved m _ (fdt + S) _ _ _ (p + toks_size old)); [|done|done]. intros i Hi.
      rewrite <- Hhi by lia. f_equal. lia.
  - rewrite <- in_end0. unfold be32_at. f_equal. apply load_moved. intros i Hi.
    rewrite <- (Hhi (fdt + O + (toks_size ts1 + (toks_size old + toks_size ts2)) + i)) by lia. f_equal. lia.
  - rewrite <- ed_version0. apply (Hk 20). lia.
  - unfold header_size8, sizeof_fdt_reserve_entry. lia.
  - rewrite <- ed_strsize0. apply (Hk 32). lia.
Qed.

(** ** Names of properties *)

Lemma splice_string_spec m fdt T O S Sz ts n :
  editable m fdt T O S Sz ts -> 0 <= n -> S + Sz + n <= T ->
  exists m', _fdt_splice_string m fdt n = (0, m') /\ fdt_size_dt_strings m' fdt = Sz + n /\
    (forall x, x < fdt + S + Sz -> ~ (fdt + 32 <= x < fdt + 36) -> load8 m' x = load8 m x) /\
    changes (fun x => fdt <= x < fdt + T) m m'.
Proof.
  intros He Hn Hr. destruct He as [[] ? ? ? ?]. unfold sizeof_fdt_header, header_size8, sizeof_fdt_reserve_entry in *.
  pose proof (toks_size_nonneg ts).
  unfold _fdt_splice_string, _fdt_splice, _fdt_data_size. rewrite in_strings0, ed_strsize0, in_total0, !s32_small by lia.
  no_less. cbn [orb negb Z.eqb]. rewrite !Z.add_0_r.
  replace (fdt + (S + Sz) - (fdt + S + Sz) - 0) with 0 by lia.
  set (m1 := memmove m (fdt + S + Sz + n) (fdt + S + Sz) 0).
  assert (changes (fun _ => False) m m1) as Hc1 by (apply changes_memmove; [lia|intros x Hx; lia]).
  assert (fdt_size_dt_strings m1 fdt = Sz) as H1.
  { rewrite <- ed_strsize0. apply (header_word m m1 fdt 32). intros x Hx. apply Hc1. by intros []. }
  rewrite H1. eexists. split; [done|]. set (m2 := fdt_set_size_dt_strings _ _ _).
  assert (changes (fun x => fdt + 32 <= x < fdt + 36) m1 m2) as Hc2 by (apply (changes_store 4); unfold hdr_size_dt_strings; lia).
  split_and!.
  - etransitivity; [apply be32_store_eq|]. rewrite !u32_small; rewrite ?u32_small; lia.
  - intros x Hx Hw. rewrite Hc2 by done. apply Hc1. by intros [].
  - eapply changes_trans; [eapply changes_mono; [|exact Hc1]; done|]. eapply changes_mono; [|exact Hc2]. simpl. lia.
Qed.

(** The strings have grown, nothing else has changed. *)
Lemma editable_strings m m' fdt T O S Sz Sz' ts :
  editable m fdt T O S Sz ts -> Sz <= Sz' -> S + Sz' <= T ->
  (forall x, x < fdt + S + Sz -> ~ (fdt + 32 <= x < fdt + 36) -> load8 m' x = load8 m x) ->
  fdt_size_dt_strings m' fdt = Sz' -> editable m' fdt T O S Sz' ts.
Proof.
  intros [[] ? ? ? ?] HSz Hr Hx Hsz. unfold sizeof_fdt_header, header_size8, sizeof_fdt_reserve_entry in *.
  pose proof (toks_size_nonneg ts).
  assert (forall k, 0 <= k <= 28 \/ 36 <= k <= 36 -> be32_at m' (fdt + k) = be32_at m (fdt + k)) as Hk.
  { intros k Hk. apply header_word. intros x Hx'. apply Hx; lia. }
  pose proof (Hk 0 ltac:(lia)) as Hk0. rewrite Z.add_0_r in Hk0.
  pose proof (Hk 16 ltac:(lia)) as Hk16. change (fdt_off_mem_rsvmap m' fdt = fdt_off_mem_rsvmap m fdt) in Hk16.
  pose proof (Hk 36 ltac:(lia)) as Hk36. change (fdt_size_dt_struct m' fdt = fdt_size_dt_struct m fdt) in Hk36.
  split; [split|..]; rewrite ?Hk36; try done; try lia.
  - by rewrite <- in_magic0.
  - etransitivity; [exact in_version0|]. apply Z.eq_le_incl. symmetry. apply (Hk 20). lia.
  - etransitivity; [|exact in_last0]. apply Z.eq_le_incl. apply (Hk 24). lia.
  - rewrite <- in_total0. apply (Hk 4). lia.
  - rewrite <- in_struct0. apply (Hk 8). lia.
  - rewrite <- in_strings0. apply (Hk 12). lia.
  - apply (toks_in_hi _ _ _ Sz); [lia|].
    apply (toks_in_moved m _ (fdt + S) _ _ _ (fdt + O)); [| |done]; intros i Hi; apply Hx; lia.
  - rewrite <- in_end0. unfold be32_at. f_equal. apply load_ext. intros x Hx'. apply Hx; lia.
  - rewrite <- ed_version0. apply (Hk 20). lia.
  - unfold header_size8, sizeof_fdt_reserve_entry. lia.
Qed.

Lemma rw_find_add_string_spec m fdt T O S Sz ts s :
  editable m fdt T O S Sz ts -> is_name s -> S + Sz + len s + 1 <= T ->
  exists off m' Sz', rw_find_add_string m fdt s = (off, m') /\ Sz <= Sz' <= Sz + len s + 1 /\
    0 <= off /\ off + len s + 1 <= Sz' /\ string_at m' (fdt + S + off) s /\ editable m' fdt T O S Sz' ts /\
    changes (fun x => fdt <= x < fdt + T) m m'.
Proof.
  intros He Hs Hr. destruct (He) as [[] ? ? ? ?]. unfold sizeof_fdt_header, len in *. pose proof (toks_size_nonneg ts).
  unfold rw_find_add_string, _fdt_find_string. rewrite in_strings0, ed_strsize0, (s32_small Sz) by lia.
  pose proof (find_string_loop_spec m (Z.to_nat (Sz - (Z.of_nat (length s) + 1) + 1)) (fdt + S) (s ++ [0]) ltac:(lia)) as Hf.
  cbn zeta in Hf. set (r := find_string_loop _ _ _ _) in *. destruct (Z.eqb_spec r 0) as [Hr0|Hr0]; cbn [negb].
  - destruct (splice_string_spec _ _ _ _ _ _ _ (Z.of_nat (length s) + 1) He) as (m1 & -> & Hsz & Hx & Hc); [lia|lia|].
    cbn [Z.eqb negb]. rewrite s32_small by lia. replace (fdt + S + Sz - (fdt + S)) with Sz by lia.
    eexists _, _, (Sz + (Z.of_nat (length s) + 1)). split; [done|]. set (m2 := store_bytes m1 _ _).
    assert (changes (fun x => fdt + S + Sz <= x < fdt + S + Sz + (Z.of_nat (length s) + 1)) m1 m2) as Hc2.
    { apply changes_store_bytes. rewrite length_app. cbn [length]. lia. }
    split_and!; try lia.
    + by apply string_store.
    + apply (editable_strings m _ _ _ _ _ Sz); try done; try lia.
      * intros x Hx1 Hx2. rewrite Hc2 by lia. by apply Hx.
      * rewrite <- Hsz. apply (header_word m1 m2 fdt 32). intros x Hx'. apply Hc2. lia.
    + eapply changes_trans; [exact Hc|]. eapply changes_mono; [|exact Hc2]. simpl. lia.
  - destruct Hf as [|[Hin Hl]]; [done|]. rewrite length_app in Hl. cbn [length] in Hl.
    eexists _, m, Sz. split; [done|]. rewrite !s32_small by lia.
    split_and!; [lia..|replace (fdt + S + (r - (fdt + S))) with r by lia; by apply string_stored|done|apply changes_refl].
Qed.

(** ** Properties *)

(** A new value in the place of an old one. *)
Lemma set_value_spec m fdt T O S Sz ts1 name old v ts2 :
  editable m fdt T O S Sz (ts1 ++ TProp name old :: ts2) -> Forall is_byte v ->
  S + Sz + (round4 (len v) - round4 (len old)) <= T ->
  let p := fdt + O + toks_size ts1 in
  exists m1, _fdt_splice_struct m fdt (prop_data p) (round4 (len old)) (round4 (len v)) = (0, m1) /\
    let m' := store_bytes (store32 m1 (prop_len p) (cpu_to_fdt32 (u32 (len v)))) (prop_data p) v in
    editable m' fdt T O (S + (round4 (len v) - round4 (len old))) Sz (ts1 ++ TProp name v :: ts2) /\
    changes (fun x => fdt <= x < fdt + T) m m'.
Proof.
  intros He Hv Hr p. destruct (He) as [[] ? ? ? ?]. unfold sizeof_fdt_header, prop_data, prop_len in *.
  pose proof (round4_bounds (len v)). pose proof (round4_bounds (len old)). pose proof (toks_size_nonneg ts1). pose proof (toks_size_nonneg ts2).
  assert (0 <= len v /\ 0 <= len old) as [] by (unfold len; lia).
  apply toks_in_app in in_toks0 as [_ [[[Ht (Hl & Hb & Hs)] Hn] _]]. unfold prop_len, prop_data, prop_nameoff in *.
  cbn [name_in] in Hn. unfold prop_nameoff in Hn. fold p in Ht, Hl, Hb, Hs, Hn.
  pose proof ed_size0 as Hsize. rewrite toks_size_app in Hsize. cbn [toks_size tok_size] in Hsize.
  destruct (splice_struct_spec m fdt T O S Sz _ (p + 12) (round4 (len old)) (round4 (len v)) He) as (m1 & Hm1 & Hlo & Hhi & Hsz & Hoff & Hc);
    [lia|lia|lia|rewrite toks_size_app; cbn [toks_size tok_size]; lia|lia|].
  set (d := round4 (len v) - round4 (len old)) in *.
  exists m1. split; [done|]. set (m2 := store32 m1 (p + 4) _). set (m' := store_bytes m2 (p + 12) v). cbn zeta.
  assert (changes (fun x => p + 4 <= x < p + 8 \/ p + 12 <= x < p + 12 + len v) m1 m') as Hc'.
  { apply (changes_trans _ _ m2); [apply (changes_store 4); lia|apply changes_store_bytes; unfold len; lia]. }
  assert (forall x, x < p + 4 \/ p + 8 <= x < p + 12 -> ~ size_word fdt x -> load8 m' x = load8 m x) as Hlo'.
  { intros x Hx Hw. rewrite Hc' by lia. apply Hlo; [lia|done]. }
  assert (forall x, p + 12 + round4 (len old) <= x < fdt + S + Sz -> load8 m' (x + d) = load8 m x) as Hhi'.
  { intros x Hx. rewrite Hc' by lia. by apply Hhi. }
  assert (forall k, k = 12 \/ k = 36 -> be32_at m' (fdt + k) = be32_at m1 (fdt + k)) as Hk.
  { intros k Hk. apply header_word. intros x Hx. apply Hc'. lia. }
  split.
  - assert (d = toks_size [TProp name v] - toks_size [TProp name old]) as Hd by (cbn [toks_size tok_size]; lia).
    rewrite Hd. apply (editable_edit m m' fdt T O S Sz ts1 [TProp name old] [TProp name v] ts2); rewrite <- ?Hd; try done; fold p.
    + intros x Hx Hw. apply Hlo'; [lia|done].
    + cbn [toks_size tok_size]. intros x Hx. apply Hhi'. lia.
    + etransitivity; [apply (Hk 36); lia|exact Hsz].
    + etransitivity; [apply (Hk 12); lia|exact Hoff].
    + lia.
    + assert (be32_at m' (p + 8) = be32_at m (p + 8)) as H8.
      { apply header_word. intros x Hx. apply Hlo'; [lia|]. unfold size_word. lia. }
      cbn [toks_in]. split; [|done]. unfold tok_at, name_in, prop_len, prop_data, prop_nameoff. rewrite H8. split_and!; try lia.
      * etransitivity; [|exact Ht]. unfold be32_at. f_equal. apply load_ext. intros x Hx. apply Hlo'; [lia|]. unfold size_word. lia.
      * unfold m', m2. rewrite be32_store_bytes_ne by lia. rewrite be32_store_eq. rewrite !u32_small; rewrite ?u32_small; lia.
      * by apply load_bytes_store_bytes.
      * eapply string_moved; [|exact Hs]. intros i Hi. rewrite <- Hhi' by lia. f_equal. lia.
  - eapply changes_trans; [exact Hc|]. eapply changes_mono; [|exact Hc']. simpl. lia.
Qed.

(** Room for [n] bytes between two tokens, to be filled with new ones. *)
Lemma splice_insert_spec m fdt T O S Sz ts1 ts2 n :
  editable m fdt T O S Sz (ts1 ++ ts2) -> 0 <= n -> S + Sz + n <= T ->
  let p := fdt + O + toks_size ts1 in
  exists m1, _fdt_splice_struct m fdt p 0 n = (0, m1) /\
    changes (fun x => fdt <= x < fdt + T) m m1 /\
    (forall i, 0 <= i < Sz -> load8 m1 (fdt + (S + n) + i) = load8 m (fdt + S + i)) /\
    forall m' new, toks_size new = n -> changes (fun x => p <= x < p + n) m1 m' ->
      toks_in m' (fdt + (S + n)) 0 Sz p new -> editable m' fdt T O (S + n) Sz (ts1 ++ new ++ ts2).
Proof.
  intros He Hn Hr p. destruct (He) as [[] ? ? ? ?]. unfold sizeof_fdt_header in *.
  pose proof (toks_size_nonneg ts1). pose proof (toks_size_nonneg ts2).
  pose proof ed_size0 as Hsize. rewrite toks_size_app in Hsize.
  destruct (splice_struct_spec m fdt T O S Sz _ p 0 n He) as (m1 & Hm1 & Hlo & Hhi & Hsz & Hoff & Hc);
    [lia|lia|lia|rewrite toks_size_app; lia|lia|]. rewrite Z.sub_0_r in *.
  exists m1. split_and!; [done|done| |].
  - intros i Hi. rewrite <- Hhi by lia. f_equal. lia.
  - intros m' new Hnew Hc' Hin.
    assert (forall k, k = 12 \/ k = 36 -> be32_at m' (fdt + k) = be32_at m1 (fdt + k)) as Hk.
    { intros k Hk. apply header_word. intros x Hx. apply Hc'. lia. }
    assert (n = toks_size new - toks_size []) as Hd by (cbn [toks_size]; lia). rewrite Hd in *.
    apply (editable_edit m m' fdt T O S Sz ts1 [] new ts2); rewrite <- ?Hd in *; try done; fold p.
    + intros x Hx Hw. rewrite Hc' by lia. by apply Hlo.
    + cbn [toks_size]. intros x Hx. rewrite Hc' by lia. apply Hhi. lia.
    + etransitivity; [apply (Hk 36); lia|exact Hsz].
    + etransitivity; [apply (Hk 12); lia|exact Hoff].
    + lia.
Qed.

Lemma editable_offset_ptr m fdt T O S Sz ts q : editable m fdt T O S Sz ts -> _fdt_offset_ptr m fdt q = fdt + O + q.
Proof. intros [[]]. unfold _fdt_offset_ptr. by rewrite in_struct0. Qed.

Lemma name_bytes_length (v : list Z) : Z.of_nat (length v) = len v.
Proof. done. Qed.

(** A new property in front of the others. *)
Lemma add_property_spec m fdt T O S Sz pre n name v prop post :
  editable m fdt T O S Sz (pre ++ TBegin n :: post) -> is_name name -> Forall is_byte v ->
  S + Sz + tok_size (TProp name v) + len name + 1 <= T ->
  exists m1 p S' Sz', _fdt_add_property m fdt (toks_size pre) name (len v) prop = Ok (0, p, m1) /\
    S' + Sz' <= S + Sz + tok_size (TProp name v) + len name + 1 /\
    editable (store_bytes m1 (prop_data p) v) fdt T O S' Sz' (pre ++ TBegin n :: TProp name v :: post) /\
    changes (fun x => fdt <= x < fdt + T) m (store_bytes m1 (prop_data p) v).
Proof.
  intros He Hn Hv Hr. pose proof (intact_header _ _ _ _ _ _ _ He) as Hh. pose proof (intact_sees _ _ _ _ _ _ _ He) as Hs.
  apply sees_app in Hs. rewrite Z.add_0_l in Hs. pose proof (round4_bounds (len v)). cbn [tok_size] in *. unfold _fdt_add_property.
  pose proof (toks_size_nonneg pre). pose proof (tok_size_bounds (TBegin n)). assert (0 <= len v /\ 0 <= len name) as [] by (unfold len; lia).
  rewrite (check_node_offset_spec Hh _ n post), Ok_bind by done.
  destruct (Z.ltb_spec (toks_size pre + tok_size (TBegin n)) 0); [lia|].
  destruct (rw_find_add_string_spec _ _ _ _ _ _ _ name He Hn) as (off & m1 & Sz' & -> & HSz & Hlo & Hhi & Hstr & He1 & Hc1); [lia|].
  destruct (Z.ltb_spec off 0); [lia|]. rewrite (editable_offset_ptr _ _ _ _ _ _ _ _ He1).
  assert (pre ++ TBegin n :: post = (pre ++ [TBegin n]) ++ post) as Happ by (by rewrite <- app_assoc).
  rewrite Happ in He1. destruct (He1) as [[] _ _ Hsize _]. unfold sizeof_fdt_header in *.
  rewrite !toks_size_app in Hsize. cbn [toks_size tok_size] in Hsize. pose proof (toks_size_nonneg post). pose proof (round4_bounds (len n + 1)).
  assert (0 <= len n) by (unfold len; lia).
  rewrite tagalign_small, s32_small by (unfold sizeof_fdt_property; lia).
  change (sizeof_fdt_property + round4 (len v)) with (tok_size (TProp name v)).
  destruct (splice_insert_spec _ _ _ _ _ _ _ _ (tok_size (TProp name v)) He1) as (m2 & Hm2 & Hc2 & Hmove & Hfill); [cbn [tok_size]; lia..|].
  rewrite toks_size_app in Hm2, Hfill. cbn [toks_size tok_size] in Hm2, Hfill |- *. rewrite !Z.add_0_r in Hm2, Hfill. rewrite Hm2. cbn [Z.eqb negb].
  set (p := fdt + O + (toks_size pre + (4 + round4 (len n + 1)))) in *.
  unfold prop_tag, prop_nameoff, prop_len, prop_data.
  set (m3 := store32 m2 p (cpu_to_fdt32 FDT_PROP)). set (m4 := store32 m3 (p + 8) (cpu_to_fdt32 (u32 off))).
  set (m5 := store32 m4 (p + 4) (cpu_to_fdt32 (u32 (len v)))). set (m6 := store_bytes m5 (p + 12) v).
  assert (changes (fun x => p <= x < p + (12 + round4 (len v))) m2 m6) as Hc6.
  { apply (changes_trans _ _ m5); [|apply changes_store_bytes; rewrite name_bytes_length; lia].
    apply (changes_trans _ _ m4); [|apply (changes_store 4); lia].
    apply (changes_trans _ _ m3); apply (changes_store 4); lia. }
  eexists m5, p, (S + (12 + round4 (len v))), Sz'. split; [done|]. split; [lia|].
  assert (s32 (be32_at m6 (p + 8)) = off) as Hoff.
  { unfold m6, m5, m4. rewrite be32_store_bytes_ne, be32_store_ne, be32_store_eq by lia.
    unfold s32, u32. rewrite !Z.mod_mod by lia. apply (s32_small off). lia. }
  split.
  - change (TBegin n :: TProp name v :: post) with ([TBegin n] ++ [TProp name v] ++ post). rewrite app_assoc.
    apply Hfill; [cbn [toks_size tok_size]; lia|done|]. cbn [toks_in]. split; [|done].
    unfold tok_at, name_in, prop_len, prop_data, prop_nameoff. fold m6. rewrite Hoff. split_and!; try lia.
    + unfold m6, m5, m4, m3. rewrite be32_store_bytes_ne, !be32_store_ne, be32_store_eq by lia. done.
    + unfold m6, m5. rewrite be32_store_bytes_ne, be32_store_eq by lia. rewrite !u32_small; rewrite ?u32_small; lia.
    + by apply load_bytes_store_bytes.
    + apply (string_changes _ _ _ _ _ Hc6); [lia|].
      eapply string_moved; [|exact Hstr]. intros i Hi. replace (fdt + S + off + i) with (fdt + S + (off + i)) by lia.
      rewrite <- Hmove by lia. f_equal. cbn [tok_size]. lia.
  - eapply changes_trans; [exact Hc1|]. eapply changes_trans; [exact Hc2|]. eapply changes_mono; [|exact Hc6].
    simpl. lia.
Qed.

(** ** Trees *)

(** At most [U] bytes of the blob are in use. *)
Definition held (m : mem) (fdt T O U : Z) (ts : list token) : Prop :=
  exists S Sz, S + Sz <= U /\ editable m fdt T O S Sz ts.

Notation prop_list := (list (option (list Z * list Z))).

(** [fdt_setprop]: the first property with the name gets the new value, or a
    property is added in front. *)
Fixpoint replace_prop (name v : list Z) (ps : prop_list) : option prop_list :=
  match ps with
  | [] => None
  | Some (n, w) :: ps =>
      if bool_decide (n = name) then Some (Some (name, v) :: ps) else cons (Some (n, w)) <$> replace_prop name v ps
  | None :: ps => cons None <$> replace_prop name v ps
  end.

Definition set_prop (name v : list Z) (ps : prop_list) : prop_list := default (Some (name, v) :: ps) (replace_prop name v ps).

Lemma find_set_prop name v ps s :
  find_prop s (set_prop name v ps) = if bool_decide (s = name) then Some v else find_prop s ps.
Proof.
  assert (match replace_prop name v ps with
          | Some ps' => find_prop s ps' = if bool_decide (s = name) then Some v else find_prop s ps
          | None => True
          end) as Hr.
  { induction ps as [|[[n w]|] ps IH]; cbn [replace_prop]; [done| |].
    - destruct (bool_decide_reflect (n = name)) as [->|Hn]; cbn [find_prop].
      + destruct (bool_decide_reflect (name = s)), (bool_decide_reflect (s = name)); congruence.
      + destruct (replace_prop name v ps); [|done]. cbn [fmap option_fmap option_map find_prop]. rewrite IH.
        destruct (bool_decide_reflect (n = s)), (bool_decide_reflect (s = name)); congruence.
    - destruct (replace_prop name v ps); [|done]. cbn [fmap option_fmap option_map find_prop]. done. }
  unfold set_prop. destruct (replace_prop name v ps); [done|]. cbn [default find_prop].
  destruct (bool_decide_reflect (name = s)), (bool_decide_reflect (s = name)); congruence.
Qed.

(** The first property with a name, if there is one, and what the scan of the
    tokens finds. *)
Lemma find_prop_split name ps :
  match find_prop name ps with
  | Some v => exists ps1 ps2, ps = ps1 ++ Some (name, v) :: ps2 /\
      (forall w, replace_prop name w ps = Some (ps1 ++ Some (name, w) :: ps2)) /\
      forall ts q, scan_prop name (map prop_tok ps ++ ts) q = inr (q + toks_size (map prop_tok ps1), v)
  | None => (forall w, replace_prop name w ps = None) /\
      forall ks ts q, scan_prop name (map prop_tok ps ++ flat_map flatten ks ++ TEndNode :: ts) q = inl (- FDT_ERR_NOTFOUND)
  end.
Proof.
  induction ps as [|[[n w]|] ps IH]; cbn [find_prop replace_prop map prop_tok app scan_prop].
  - split; [done|]. induction ks as [|[|n ps kk] ks IH]; intros ts q; cbn [flat_map flatten app scan_prop]; [done| |done]. apply IH.
  - destruct (bool_decide_reflect (n = name)) as [->|Hn].
    + exists [], ps. cbn [app map toks_size]. split_and!; [done|done|]. intros ts q. by rewrite Z.add_0_r.
    + destruct (find_prop name ps) as [v|].
      * destruct IH as (ps1 & ps2 & -> & Hr & Hs). exists (Some (n, w) :: ps1), ps2. split_and!; [done|intros w'; by rewrite Hr|].
        intros ts q. rewrite Hs. cbn [map prop_tok toks_size]. by rewrite Z.add_assoc.
      * destruct IH as [Hr Hs]. split; [intros w'; by rewrite Hr|]. intros ks ts q. apply Hs.
  - destruct (find_prop name ps) as [v|].
    + destruct IH as (ps1 & ps2 & -> & Hr & Hs). exists (None :: ps1), ps2. split_and!; [done|intros w'; by rewrite Hr|].
      intros ts q. rewrite Hs. cbn [map prop_tok toks_size tok_size]. by rewrite Z.add_assoc.
    + destruct IH as [Hr Hs]. split; [intros w'; by rewrite Hr|]. intros ks ts q. apply Hs.
Qed.

Lemma flatten_app n ps ks ts : flatten (Node n ps ks) ++ ts = TBegin n :: map prop_tok ps ++ flat_map flatten ks ++ TEndNode :: ts.
Proof. cbn [flatten app]. by rewrite <- !app_assoc. Qed.

Lemma setprop_spec m fdt T O U pre n ps ks post name v :
  held m fdt T O U (pre ++ flatten (Node n ps ks) ++ post) -> is_name name -> Forall is_byte v ->
  U + tok_size (TProp name v) + len name + 1 <= T ->
  exists m', fdt_setprop m fdt (toks_size pre) name v = Ok (0, m') /\
    held m' fdt T O (U + tok_size (TProp name v) + len name + 1) (pre ++ flatten (Node n (set_prop name v ps) ks) ++ post) /\
    changes (fun x => fdt <= x < fdt + T) m m'.
Proof.
  intros (S & Sz & HU & He) Hn Hv Hr. rewrite flatten_app in *.
  pose proof (intact_header _ _ _ _ _ _ _ He) as Hh. pose proof (intact_sees _ _ _ _ _ _ _ He) as Hs.
  apply sees_app in Hs. rewrite Z.add_0_l in Hs. pose proof (round4_bounds (len v)). cbn [tok_size] in Hr.
  assert (0 <= len v /\ 0 <= len name) as [] by (unfold len; lia).
  unfold fdt_setprop. rewrite name_bytes_length, (rw_checked _ _ _ _ _ _ _ He). cbn [Z.eqb negb].
  unfold _fdt_resize_property, fdt_get_property. rewrite (get_property_spec Hh name _ n _ Hs), Ok_bind.
  pose proof (find_prop_split name ps) as Hsc. unfold set_prop. destruct (find_prop name ps) as [old|].
  - destruct Hsc as (ps1 & ps2 & -> & -> & ->). cbn [prop_result default from_option id].
    set (ts1 := pre ++ TBegin n :: map prop_tok ps1). set (ts2 := map prop_tok ps2 ++ flat_map flatten ks ++ TEndNode :: post).
    assert (forall w, pre ++ TBegin n :: map prop_tok (ps1 ++ Some (name, w) :: ps2) ++ flat_map flatten ks ++ TEndNode :: post
      = ts1 ++ TProp name w :: ts2) as Hts.
    { intros w. unfold ts1, ts2. rewrite map_app, <- !app_assoc. cbn [map prop_tok app]. by rewrite <- ?app_assoc. }
    rewrite Hts in He |- *. destruct (He) as [[] _ _ Hsize _]. unfold sizeof_fdt_header in *.
    rewrite toks_size_app in Hsize. cbn [toks_size tok_size] in Hsize. pose proof (round4_bounds (len old)).
    pose proof (toks_size_nonneg ts1). pose proof (toks_size_nonneg ts2). assert (0 <= len old) by (unfold len; lia).
    destruct (set_value_spec _ _ _ _ _ _ _ _ _ v _ He Hv ltac:(lia)) as (m1 & Hm1 & He' & Hc). cbn zeta in He', Hc.
    rewrite in_struct0. assert (toks_size pre + tok_size (TBegin n) + toks_size (map prop_tok ps1) = toks_size ts1) as ->
      by (unfold ts1; rewrite toks_size_app; cbn [toks_size]; lia).
    destruct (Z.eqb_spec (fdt + O + toks_size ts1) 0); [lia|]. rewrite !TAGALIGN_small, Hm1 by lia. cbn [Z.eqb negb]. rewrite !Ok_bind.
    change (0 =? - FDT_ERR_NOTFOUND) with false. cbn iota. rewrite Ok_bind. cbn [Z.eqb negb].
    eexists. split; [done|]. split; [|exact Hc]. eexists _, _. split; [|exact He']. cbn [tok_size]. lia.
  - destruct Hsc as [-> ->]. cbn [prop_result default from_option]. cbn [Z.eqb]. rewrite Ok_bind. change (- FDT_ERR_NOTFOUND =? - FDT_ERR_NOTFOUND) with true. cbn iota.
    destruct (add_property_spec _ _ _ _ _ _ _ _ name v 0 _ He Hn Hv) as (m1 & p & S' & Sz' & -> & HS & He' & Hc); [cbn [tok_size]; lia|].
    rewrite Ok_bind. cbn [Z.eqb negb map prop_tok app]. eexists. split; [done|]. split; [|exact Hc].
    exists S', Sz'. split; [|exact He']. lia.
Qed.

(** [fdt_add_subnode]: the new node comes in front of the other children, behind
    the tokens without meaning. *)
Fixpoint insert_kid (k : dt) (ks : list dt) : list dt :=
  match ks with
  | Nop :: ks => Nop :: insert_kid k ks
  | _ => k :: ks
  end.

(** The offset behind the properties. *)
Fixpoint to_body (ts : list token) (q : Z) : Z :=
  match ts with
  | TProp n v :: ts => to_body ts (q + tok_size (TProp n v))
  | TNop :: ts => to_body ts (q + 4)
  | _ => q
  end.

Lemma skip_props_spec m fdt (Hh : header_ok m fdt) ts fuel q :
  sees m fdt q ts -> (length ts <= fuel)%nat -> skip_props fuel m fdt q = Ok (to_body ts q).
Proof.
  revert fuel q. induction ts as [|t ts IH]; intros fuel q Hs Hf; cbn [length to_body] in *.
  - destruct fuel; cbn [skip_props]; rewrite (next_tag_end Hh), Ok_bind by done; done.
  - pose proof (sees_tail q t ts Hs) as Hs'. destruct fuel as [|fuel]; [lia|]. cbn [skip_props].
    rewrite (next_tag_tok Hh _ t ts), Ok_bind by done.
    destruct t; cbn [tok_tag Z.eqb FDT_BEGIN_NODE FDT_END_NODE FDT_PROP FDT_NOP Pos.eqb orb]; [done|done|apply IH; auto with lia..].
Qed.

(** The place of the new node among the tokens. *)
Lemma insert_kid_split ks : exists ks1 ks2, ks = ks1 ++ ks2 /\ (forall k, insert_kid k ks = ks1 ++ k :: ks2) /\
  forall ps ts q, to_body (map prop_tok ps ++ flat_map flatten ks ++ TEndNode :: ts) q =
    q + toks_size (map prop_tok ps) + toks_size (flat_map flatten ks1).
Proof.
  assert (forall ps ts q, to_body (map prop_tok ps ++ ts) q = to_body ts (q + toks_size (map prop_tok ps))) as Hps.
  { induction ps as [|[[n v]|] ps IH]; intros ts q; cbn [map prop_tok app to_body toks_size]; [by rewrite Z.add_0_r|..];
      rewrite IH; f_equal; cbn [tok_size]; lia. }
  induction ks as [|[|n ps kk] ks (ks1 & ks2 & -> & Hi & Hb)].
  - exists [], []. split_and!; [done|done|]. intros ps ts q. rewrite Hps. cbn. lia.
  - exists (Nop :: ks1), ks2. split_and!; [done|intros k; cbn [insert_kid]; by rewrite Hi|].
    intros ps ts q. specialize (Hb [] ts (q + toks_size (map prop_tok ps) + 4)). rewrite Hps. cbn [flat_map flatten app map toks_size to_body tok_size] in *.
    rewrite Hb. lia.
  - exists [], (Node n ps kk :: ks1 ++ ks2). split_and!; [done|done|]. intros ps' ts q. rewrite Hps. cbn [flat_map flatten app to_body toks_size]. lia.
Qed.

Lemma new_node_toks m name p strs Sz :
  is_name name ->
  let n := 4 + round4 (len name + 1) in
  let m1 := store32 m p (cpu_to_fdt32 FDT_BEGIN_NODE) in
  let m2 := memset m1 (p + 4) 0 (Z.to_nat (round4 (len name + 1))) in
  let m3 := store_bytes m2 (p + 4) name in
  let m4 := store32 m3 (p + n) (cpu_to_fdt32 FDT_END_NODE) in
  changes (fun x => p <= x < p + (n + 4)) m m4 /\ toks_in m4 strs 0 Sz p [TBegin name; TEndNode].
Proof.
  intros Hn n m1 m2 m3 m4. pose proof (round4_bounds (len name + 1)). assert (0 <= len name) by (unfold len; lia).
  assert (changes (fun x => p + 4 <= x < p + n) m1 m2) as Hc2.
  { intros x Hx. unfold m2. rewrite load8_memset. rewrite Z2Nat.id by lia.
    destruct (Z.leb_spec (p + 4) x); [|done]. destruct (Z.ltb_spec x (p + 4 + round4 (len name + 1))); [|done]. unfold n in Hx. lia. }
  assert (changes (fun x => p + 4 <= x < p + 4 + len name) m2 m3) as Hc3 by (apply changes_store_bytes; rewrite name_bytes_length; lia).
  assert (changes (fun x => p + n <= x < p + n + 4) m3 m4) as Hc4 by (apply (changes_store 4); lia).
  split.
  - apply (changes_trans _ _ m3); [|eapply changes_mono; [|exact Hc4]; simpl; lia].
    apply (changes_trans _ _ m2); [|eapply changes_mono; [|exact Hc3]; simpl; lia].
    apply (changes_trans _ _ m1); [|eapply changes_mono; [|exact Hc2]; simpl; lia]. apply (changes_store 4). lia.
  - cbn [toks_in name_in tok_size]. unfold tok_at. cbn [tok_tag]. split_and!; try done.
    + unfold m4. rewrite be32_store_ne by lia. unfold m3. rewrite be32_store_bytes_ne by lia.
      rewrite (be32_changes _ _ _ _ Hc2) by lia. unfold m1. by rewrite be32_store_eq.
    + unfold nh_name. apply (string_changes _ _ _ _ _ Hc4); [lia|]. split.
      * apply load_bytes_store_bytes. by apply is_name_bytes.
      * by apply is_name_nonzero.
      * rewrite name_bytes_length, Hc3 by lia. unfold m2. rewrite load8_memset, Z2Nat.id by lia.
        destruct (Z.leb_spec (p + 4) (p + 4 + len name)); [|lia].
        destruct (Z.ltb_spec (p + 4 + len name) (p + 4 + round4 (len name + 1))); [done|lia].
    + unfold m4. fold n. by rewrite be32_store_eq.
Qed.

Lemma add_subnode_new m fdt T O U pre n ps ks post name :
  held m fdt T O U (pre ++ flatten (Node n ps ks) ++ post) -> is_name name ->
  find_child name ks (kids_offset (toks_size pre) (Node n ps ks)) = None ->
  U + dt_size (Node name [] []) <= T ->
  exists m' ks1 ks2, ks = ks1 ++ ks2 /\ (forall k, insert_kid k ks = ks1 ++ k :: ks2) /\
    fdt_add_subnode m fdt (toks_size pre) name =
      Ok (toks_size (pre ++ TBegin n :: map prop_tok ps ++ flat_map flatten ks1), m') /\
    held m' fdt T O (U + dt_size (Node name [] [])) (pre ++ flatten (Node n ps (ks1 ++ Node name [] [] :: ks2)) ++ post) /\
    changes (fun x => fdt <= x < fdt + T) m m'.
Proof.
  intros (S & Sz & HU & He) Hn Hf Hr. unfold dt_size in *. cbn [flatten map flat_map app toks_size tok_size] in Hr.
  pose proof (intact_header _ _ _ _ _ _ _ He) as Hh. pose proof (intact_sees _ _ _ _ _ _ _ He) as Hs.
  apply sees_app in Hs. rewrite Z.add_0_l in Hs. pose proof (round4_bounds (len name + 1)). assert (0 <= len name) by (unfold len; lia).
  destruct (insert_kid_split ks) as (ks1 & ks2 & Hks & Hi & Hb).
  set (ts1 := pre ++ TBegin n :: map prop_tok ps ++ flat_map flatten ks1). set (ts2 := flat_map flatten ks2 ++ TEndNode :: post).
  assert (pre ++ flatten (Node n ps ks) ++ post = ts1 ++ ts2) as Hts.
  { unfold ts1, ts2. rewrite flatten_app, Hks, flat_map_app, <- !app_assoc. cbn [app]. by rewrite <- !app_assoc. }
  unfold fdt_add_subnode, fdt_add_subnode_namelen. rewrite name_bytes_length, (rw_checked _ _ _ _ _ _ _ He). cbn [Z.eqb negb].
  rewrite (subnode_offset_finds Hh _ (Node n ps ks) name) by (by apply is_name_nonzero || (split; [done|by exists post])).
  cbn [dt_kids]. rewrite Hf, Ok_bind. cbn [found]. change (0 <=? - FDT_ERR_NOTFOUND) with false.
  change (negb (- FDT_ERR_NOTFOUND =? - FDT_ERR_NOTFOUND)) with false. cbn iota. rewrite flatten_app in Hs.
  rewrite (next_tag_tok Hh _ _ _ Hs), Ok_bind. pose proof (sees_tail _ _ _ Hs) as Hs'.
  rewrite (skip_props_spec m fdt Hh _ _ _ Hs') by (pose proof (sees_fuel Hh _ _ Hs'); lia). rewrite Ok_bind, Hb.
  rewrite (editable_offset_ptr _ _ _ _ _ _ _ _ He).
  assert (toks_size pre + tok_size (TBegin n) + toks_size (map prop_tok ps) + toks_size (flat_map flatten ks1) = toks_size ts1) as ->
    by (unfold ts1; rewrite toks_size_app; cbn [toks_size]; rewrite toks_size_app; lia).
  rewrite Hts in He. destruct (He) as [[] _ _ Hsize _]. unfold sizeof_fdt_header in *. rewrite toks_size_app in Hsize.
  pose proof (toks_size_nonneg ts1). pose proof (toks_size_nonneg ts2).
  rewrite tagalign_small, s32_small by (unfold sizeof_fdt_node_header, FDT_TAGSIZE; lia).
  change (sizeof_fdt_node_header + round4 (len name + 1) + FDT_TAGSIZE) with (4 + round4 (len name + 1) + 4).
  destruct (splice_insert_spec _ _ _ _ _ _ _ _ (4 + round4 (len name + 1) + 4) He) as (m1 & -> & Hc1 & _ & Hfill); [lia..|].
  cbn [Z.eqb negb]. set (p := fdt + O + toks_size ts1) in *. unfold nh_tag, nh_name, FDT_TAGSIZE.
  replace (p + (4 + round4 (len name + 1) + 4) - 4) with (p + (4 + round4 (len name + 1))) by lia.
  destruct (new_node_toks m1 name p (fdt + (S + (4 + round4 (len name + 1) + 4))) Sz Hn) as [Hc2 Htoks]. cbn zeta in Hc2, Htoks.
  eexists _, ks1, ks2. split; [done|]. split; [exact Hi|]. split; [done|]. split.
  - eexists _, Sz. split; [|rewrite flatten_app, flat_map_app; cbn [flat_map flatten map app]].
    2: { match goal with |- editable _ _ _ _ _ _ ?l => replace l with (ts1 ++ [TBegin name; TEndNode] ++ ts2) end.
         - apply Hfill; [cbn [toks_size tok_size]; lia| |exact Htoks]. exact Hc2.
         - unfold ts1, ts2. rewrite <- !app_assoc. cbn [app]. by rewrite <- !app_assoc. }
    cbn [flatten map flat_map app toks_size tok_size]. lia.
  - eapply changes_trans; [exact Hc1|]. eapply changes_mono; [|exact Hc2]. simpl. lia.
Qed.

Lemma add_subnode_exists m fdt T O U pre n ps ks post name q t :
  held m fdt T O U (pre ++ flatten (Node n ps ks) ++ post) -> is_name name ->
  find_child name ks (kids_offset (toks_size pre) (Node n ps ks)) = Some (q, t) ->
  fdt_add_subnode m fdt (toks_size pre) name = Ok (- FDT_ERR_EXISTS, m) /\
  fdt_subnode_offset m fdt (toks_size pre) name = Ok q.
Proof.
  intros (S & Sz & HU & He) Hn Hf.
  pose proof (intact_header _ _ _ _ _ _ _ He) as Hh. pose proof (intact_sees _ _ _ _ _ _ _ He) as Hs.
  apply sees_app in Hs. rewrite Z.add_0_l in Hs.
  assert (tree_at m fdt (toks_size pre) (Node n ps ks)) as Ht by (split; [done|by exists post]).
  pose proof (find_child_at Hh name _ _ _ _ Ht Hf) as [_ [ts Hq]]. pose proof (sees_nonneg _ _ _ _ _ Hq).
  pose proof (subnode_offset_finds Hh _ _ name Ht (is_name_nonzero _ Hn)) as Hsub. cbn [dt_kids] in Hsub. rewrite Hf in Hsub.
  cbn [found] in Hsub. split; [|exact Hsub]. unfold fdt_add_subnode, fdt_add_subnode_namelen. rewrite (rw_checked _ _ _ _ _ _ _ He).
  cbn [Z.eqb negb]. rewrite Hsub, Ok_bind. destruct (Z.leb_spec 0 q); [done|lia].
Qed.
