(* ===== verification/FdtMerge.v ===== *)
(** * Flattened device trees: merging an overlay

    The loops over the properties and the children of a node, and
    [overlay_apply_node] of fdt_overlay.c: it leaves the base tree with the node
    of the overlay merged into the target. *)

From Stdlib Require Import Strings.String.
From S2P Require Import Prelude Mem Printf Inet LibcString Fdt FdtRo FdtSw FdtRw FdtProof FdtLookup FdtBuild FdtOverlay FdtEdit.
#[local] Open Scope Z_scope.

(** ** Children *)

(** [fdt_first_subnode] and [fdt_next_subnode] on the tokens behind a node. *)
Fixpoint scan_sub (ts : list token) (q d : Z) : Z :=
  match ts with
  | [] => - FDT_ERR_NOTFOUND
  | TBegin n :: ts => if 1 <? d + 1 then scan_sub ts (q + tok_size (TBegin n)) (d + 1) else q
  | TEndNode :: ts => if d - 1 <? 0 then - FDT_ERR_NOTFOUND else scan_sub ts (q + 4) (d - 1)
  | t :: ts => scan_sub ts (q + tok_size t) d
  end.

(** The offset of the first node of a list that starts at [q]. *)
Fixpoint first_kid (ks : list dt) (q : Z) : Z :=
  match ks with
  | [] => - FDT_ERR_NOTFOUND
  | Nop :: ks => first_kid ks (q + 4)
  | Node _ _ _ :: _ => q
  end.

Lemma scan_sub_props ps ts q d : scan_sub (map prop_tok ps ++ ts) q d = scan_sub ts (q + toks_size (map prop_tok ps)) d.
Proof.
  revert q. induction ps as [|[[n v]|] ps IH]; intros q; cbn [map prop_tok app scan_sub toks_size].
  - by rewrite Z.add_0_r.
  - by rewrite IH, Z.add_assoc.
  - by rewrite IH, Z.add_assoc.
Qed.

Lemma scan_sub_kids ks ts q d :
  1 <= d -> Forall (fun t => forall ts q d, 1 <= d -> scan_sub (flatten t ++ ts) q d = scan_sub ts (q + dt_size t) d) ks ->
  scan_sub (flat_map flatten ks ++ ts) q d = scan_sub ts (q + toks_size (flat_map flatten ks)) d.
Proof.
  intros Hd Hks. revert ts q. induction Hks as [|k ks Hk _ IH]; intros ts q; cbn [flat_map app toks_size].
  - by rewrite Z.add_0_r.
  - rewrite <- app_assoc, Hk, IH by done. unfold dt_size. rewrite toks_size_app. f_equal. lia.
Qed.

Lemma scan_sub_tree t ts q d : 1 <= d -> scan_sub (flatten t ++ ts) q d = scan_sub ts (q + dt_size t) d.
Proof.
  revert ts q d. induction t as [|n ps ks IH] using dt_ind'; intros ts q d Hd; [done|].
  rewrite flatten_app. unfold dt_size. cbn [flatten scan_sub toks_size]. destruct (Z.ltb_spec 1 (d + 1)); [|lia].
  rewrite scan_sub_props, scan_sub_kids by (lia || done). cbn [scan_sub]. destruct (Z.ltb_spec (d + 1 - 1) 0); [lia|].
  rewrite !toks_size_app. cbn [toks_size tok_size]. f_equal; lia.
Qed.

Lemma scan_sub_first ks ts q : scan_sub (flat_map flatten ks ++ TEndNode :: ts) q 0 = first_kid ks q.
Proof.
  revert q. induction ks as [|[|n ps kk] ks IH]; intros q; cbn [flat_map app first_kid]; [done|apply IH|]. by rewrite <- app_assoc, flatten_app.
Qed.

Lemma scan_sub_next n ps ks ts q :
  scan_sub (map prop_tok ps ++ flat_map flatten ks ++ TEndNode :: ts) (q + tok_size (TBegin n)) 1 =
  scan_sub ts (q + dt_size (Node n ps ks)) 0.
Proof.
  rewrite scan_sub_props, scan_sub_kids; [|lia|apply Forall_forall; intros t _ ts' q' d Hd; by apply scan_sub_tree].
  cbn [scan_sub]. change (1 - 1 <? 0) with false. cbn iota. f_equal. unfold dt_size. cbn [flatten toks_size]. rewrite !toks_size_app.
  cbn [toks_size tok_size]. lia.
Qed.

Section Subnodes.
Context {m : mem} {fdt : Z} (Hh : header_ok m fdt).

Lemma next_subnode_loop_spec ts fuel q d :
  0 <= d -> sees m fdt q ts -> (length ts <= fuel)%nat ->
  (let '(q', d') := to_node ts q (Some d) in
   if (q' <? 0) || (the_depth d' <? 1) then Ok (- FDT_ERR_NOTFOUND)
   else if 1 <? the_depth d' then next_subnode_loop fuel m fdt q' (the_depth d') else Ok q') = Ok (scan_sub ts q d).
Proof using Hh.
  revert fuel q d. induction ts as [|t ts IH]; intros fuel q d Hd Hs Hf; cbn [length] in Hf; [done|].
  pose proof (sees_tail q t ts Hs) as Hs'. pose proof (sees_nonneg _ _ _ _ _ Hs).
  destruct t as [n| |n v|]; cbn [to_node scan_sub]; [| |apply IH; auto with lia..].
  - change (the_depth _) with (d + 1). destruct (Z.ltb_spec q 0); [lia|]. destruct (Z.ltb_spec (d + 1) 1); [lia|]. cbn [orb].
    destruct (Z.ltb_spec 1 (d + 1)); [|done]. destruct fuel as [|fuel]; [lia|]. cbn [next_subnode_loop].
    rewrite (next_node_spec Hh q n ts), Ok_bind by done. apply IH; auto with lia.
  - destruct (Z.ltb_spec (d - 1) 0); [|apply IH; auto with lia]. change (the_depth _) with (d - 1).
    destruct (Z.ltb_spec (d - 1) 1); [|lia]. by rewrite orb_true_r.
Qed.

Lemma first_subnode_spec q n ps ks ts :
  sees m fdt q (flatten (Node n ps ks) ++ ts) ->
  fdt_first_subnode m fdt q = Ok (first_kid ks (kids_offset q (Node n ps ks))).
Proof using Hh.
  rewrite flatten_app. intros Hs. unfold fdt_first_subnode. rewrite (next_node_spec Hh q n _ _ Hs), Ok_bind.
  pose proof (sees_tail _ _ _ Hs) as Hs'. pose proof (next_subnode_loop_spec _ _ _ 0 ltac:(lia) Hs' (Nat.le_refl _)) as Hl.
  rewrite scan_sub_props, scan_sub_first in Hl. cbn [kids_offset].
  assert (forall ts q q' d', to_node ts q (Some 0) = (q', d') -> (q' <? 0) = true \/ the_depth d' <= 1) as Hd.
  { clear. induction ts as [|[n| |n v|] ts IH]; intros q q' d' Ht; cbn [to_node] in Ht; simplify_eq; [by left|by right| |eauto..].
    change (0 - 1 <? 0) with true in Ht. cbn iota in Ht. simplify_eq. right. unfold the_depth. cbn. lia. }
  destruct (to_node _ _ _) as [q' d'] eqn:Ht. apply Hd in Ht. destruct (q' <? 0) eqn:Hq; cbn [orb] in *; [done|].
  destruct Ht as [|Ht]; [done|]. destruct (Z.ltb_spec (the_depth d') 1).
  - destruct (Z.eqb_spec (the_depth d') 1); [lia|]. done.
  - destruct (Z.ltb_spec 1 (the_depth d')); [lia|]. destruct (Z.eqb_spec (the_depth d') 1); [|lia]. done.
Qed.

Lemma next_subnode_spec q n ps kk ks ts :
  sees m fdt q (flatten (Node n ps kk) ++ flat_map flatten ks ++ TEndNode :: ts) ->
  fdt_next_subnode m fdt q = Ok (first_kid ks (q + dt_size (Node n ps kk))).
Proof using Hh.
  rewrite flatten_app. intros Hs. unfold fdt_next_subnode. pose proof (sees_fuel Hh _ _ Hs) as Hf. cbn [length] in Hf.
  unfold fdt_fuel in *. cbn [next_subnode_loop]. rewrite (next_node_spec Hh q n _ _ Hs), Ok_bind. pose proof (sees_tail _ _ _ Hs) as Hs'.
  rewrite (next_subnode_loop_spec _ _ _ 1 ltac:(lia) Hs') by lia. by rewrite scan_sub_next, scan_sub_first.
Qed.

End Subnodes.

(** ** The loops *)

Lemma length_flat_map_flatten ks : (length ks <= length (flat_map flatten ks))%nat.
Proof.
  induction ks as [|k ks IH]; cbn [flat_map length]; [done|]. rewrite length_app.
  assert (1 <= length (flatten k))%nat by (destruct k; cbn [flatten length]; lia). lia.
Qed.

Lemma plain_spec body m c m' : body m c = Ok (0, m') -> plain body m tt c = Ok (0, tt, m').
Proof. intros Hb. unfold plain. by rewrite Hb. Qed.

(** [fdt_for_each_subnode] with an invariant of the memory, the variable of the
    loop, the children done and the children to do; a child may change, its size
    does not. *)
Lemma for_subnodes_spec {X} fdt q n ps (I : mem -> X -> list dt -> list dt -> Prop) body m x ks :
  let off := kids_offset q (Node n ps []) in
  (forall m x l r, I m x l r -> header_ok m fdt /\ exists post, sees m fdt q (flatten (Node n ps (l ++ r)) ++ post)) ->
  (forall m x l r, I m x l (Nop :: r) -> I m x (l ++ [Nop]) r) ->
  (forall m x l k r, k <> Nop -> I m x l (k :: r) -> exists m' x' k', k' <> Nop /\ dt_size k' = dt_size k /\
     body m x (off + toks_size (flat_map flatten l)) = Ok (0, x', m') /\ I m' x' (l ++ [k']) r) ->
  I m x [] ks -> exists child m' x' ks', fdt_first_subnode m fdt q = Ok child /\
    for_each_subnode (fdt_fuel m fdt) m fdt x child body = Ok (0, x', m') /\ I m' x' ks' [].
Proof.
  intros off Hsee Hnop Hstep Hi.
  assert (forall r fuel m x l, (length r <= fuel)%nat -> I m x l r ->
    exists m' x' ks', for_each_subnode fuel m fdt x (first_kid r (off + toks_size (flat_map flatten l))) body = Ok (0, x', m') /\
      I m' x' ks' []) as Hloop.
  { clear Hi m x. induction r as [|k r IH]; intros fuel m x l Hf Hi; cbn [length first_kid] in *.
    - exists m, x, l. split; [destruct fuel; reflexivity|done].
    - destruct (Hsee _ _ _ _ Hi) as [Hh [post Hs]]. destruct k as [|nk psk kk].
      + destruct (IH fuel m x (l ++ [Nop])) as (m' & x' & ks' & Hl & Hi'); [lia|by apply Hnop|]. exists m', x', ks'. split; [|done].
        rewrite <- Hl. f_equal. f_equal. rewrite flat_map_app, toks_size_app. cbn. lia.
      + destruct (Hstep m x l (Node nk psk kk) r ltac:(done) Hi) as (m1 & x1 & k' & Hk' & Hsz & Hb & Hi1). destruct fuel as [|fuel]; [lia|].
        set (c := off + toks_size (flat_map flatten l)) in *.
        assert (0 <= c) as Hc.
        { rewrite flatten_app in Hs. apply sees_tail, sees_app in Hs. rewrite flat_map_app, <- app_assoc in Hs. apply sees_app in Hs.
          unfold c, off. cbn [kids_offset]. apply (sees_nonneg _ _ _ _ _ Hs). }
        cbn [for_each_subnode]. destruct (Z.ltb_spec c 0); [lia|]. rewrite Hb, Ok_bind. cbn [Z.eqb negb].
        destruct (Hsee _ _ _ _ Hi1) as [Hh1 [post1 Hs1]]. rewrite flatten_app in Hs1. apply sees_tail, sees_app in Hs1.
        rewrite <- (app_assoc l), flat_map_app, <- app_assoc in Hs1. apply sees_app in Hs1. cbn [app flat_map] in Hs1. rewrite <- app_assoc in Hs1.
        change (q + tok_size (TBegin n) + toks_size (map prop_tok ps) + toks_size (flat_map flatten l)) with c in Hs1.
        destruct k' as [|n1 ps1 kk1]; [done|]. rewrite (next_subnode_spec Hh1 _ _ _ _ _ _ Hs1), Ok_bind, Hsz.
        destruct (IH fuel m1 x1 (l ++ [Node n1 ps1 kk1])) as (m' & x' & ks' & Hl & Hi'); [lia|done|]. exists m', x', ks'. split; [|done].
        rewrite <- Hl. f_equal. f_equal. rewrite flat_map_app, toks_size_app. cbn [flat_map]. rewrite app_nil_r. fold (dt_size (Node n1 ps1 kk1)).
        unfold c in *. lia. }
  destruct (Hsee _ _ _ _ Hi) as [Hh [post Hs]]. cbn [app] in Hs. eexists. rewrite (first_subnode_spec Hh _ _ _ _ _ Hs).
  destruct (Hloop ks (fdt_fuel m fdt) m x []) as (m' & x' & ks' & Hl & Hi'); [|done|].
  { pose proof (sees_fuel Hh _ _ Hs) as Hf. rewrite flatten_app in Hf. cbn [length] in Hf. rewrite !length_app in Hf.
    pose proof (length_flat_map_flatten ks). lia. }
  cbn [flat_map toks_size] in Hl. rewrite Z.add_0_r in Hl. by exists m', x', ks'.
Qed.

Lemma each_subnode_spec fdt q n ps post (I : mem -> list dt -> list dt -> Prop) body m ks :
  let off := kids_offset q (Node n ps []) in
  (forall m l r, I m l r -> header_ok m fdt /\ sees m fdt q (flatten (Node n ps (l ++ r)) ++ post)) ->
  (forall m l r, I m l (Nop :: r) -> I m (l ++ [Nop]) r) ->
  (forall m l k r, k <> Nop -> I m l (k :: r) ->
     exists m' k', k' <> Nop /\ dt_size k' = dt_size k /\ body m (off + toks_size (flat_map flatten l)) = Ok (0, m') /\ I m' (l ++ [k']) r) ->
  I m [] ks -> exists m' ks', each_subnode m fdt q body = Ok (0, m') /\ I m' ks' [].
Proof.
  intros off Hsee Hnop Hstep Hi.
  destruct (for_subnodes_spec fdt q n ps (fun m (_ : unit) l r => I m l r) (plain body) m tt ks) as (child & m' & [] & ks' & Hc & Hl & Hi'); [| | |done|].
  - intros m1 _ l r Hi1. destruct (Hsee _ _ _ Hi1). split; [done|by exists post].
  - intros m1 _ l r. apply Hnop.
  - intros m1 [] l k r Hk Hi1. destruct (Hstep _ _ _ _ Hk Hi1) as (m2 & k' & Hk' & Hsz & Hb & Hi2). exists m2, tt, k'. split_and!; try done. by apply plain_spec.
  - exists m', ks'. unfold each_subnode. by rewrite Hc, Ok_bind, Hl, Ok_bind.
Qed.

Lemma to_prop_kids ks ts q : to_prop (flat_map flatten ks ++ TEndNode :: ts) q = - FDT_ERR_NOTFOUND.
Proof. revert q. induction ks as [|[|n ps kk] ks IH]; intros q; cbn [flat_map flatten app to_prop]; [done| |done]. apply IH. Qed.

(** [fdt_for_each_property_offset] on a node that does not change. *)
Lemma for_properties_spec {X} fdt q n ps ks (I : mem -> X -> prop_list -> Prop) body m x :
  (forall m x r, I m x r -> header_ok m fdt /\ exists post, sees m fdt q (flatten (Node n ps ks) ++ post)) ->
  (forall m x r, I m x (None :: r) -> I m x r) ->
  (forall m x l s v r, ps = l ++ Some (s, v) :: r -> I m x (Some (s, v) :: r) ->
     exists m' x', body m x (q + tok_size (TBegin n) + toks_size (map prop_tok l)) = Ok (0, x', m') /\ I m' x' r) ->
  I m x ps -> exists property m' x', fdt_first_property_offset m fdt q = Ok property /\
    for_each_property (fdt_fuel m fdt) m fdt x property body = Ok (0, x', m') /\ I m' x' [].
Proof.
  intros Hsee Hnop Hstep Hi. set (rest := fun post => flat_map flatten ks ++ TEndNode :: post).
  assert (forall m x r, I m x r -> exists post, sees m fdt q (TBegin n :: map prop_tok ps ++ rest post)) as Hsees.
  { intros m' x' r Hi'. destruct (Hsee _ _ _ Hi') as [_ [post Hs]]. exists post. by rewrite flatten_app in Hs. }
  assert (forall r fuel m x l post, ps = l ++ r -> (length r <= fuel)%nat -> I m x r ->
    exists m' x', for_each_property fuel m fdt x (to_prop (map prop_tok r ++ rest post) (q + tok_size (TBegin n) + toks_size (map prop_tok l))) body
      = Ok (0, x', m') /\ I m' x' []) as Hloop.
  { clear Hi m x. induction r as [|p r IH]; intros fuel m x l post Hps Hf Hi; cbn [length map app] in *.
    - exists m, x. unfold rest. rewrite to_prop_kids. split; [destruct fuel; reflexivity|done].
    - destruct p as [[s v]|]; cbn [prop_tok to_prop].
      + destruct (Hstep m x l s v r Hps Hi) as (m1 & x1 & Hb & Hi1). destruct fuel as [|fuel]; [lia|].
        set (c := q + tok_size (TBegin n) + toks_size (map prop_tok l)) in *.
        destruct (Hsee _ _ _ Hi1) as [Hh1 _]. destruct (Hsees _ _ _ Hi1) as [post1 Hs1]. apply sees_tail in Hs1.
        rewrite Hps, map_app, <- app_assoc in Hs1. apply sees_app in Hs1. cbn [map prop_tok app] in Hs1. fold c in Hs1.
        pose proof (sees_nonneg _ _ _ _ _ Hs1). cbn [for_each_property]. destruct (Z.ltb_spec c 0); [lia|].
        rewrite Hb, Ok_bind. cbn [Z.eqb negb]. rewrite (next_property_offset_spec Hh1 _ _ _ _ Hs1), Ok_bind.
        destruct (IH fuel m1 x1 (l ++ [Some (s, v)]) post1) as (m' & x' & Hl & Hi'); [by rewrite <- app_assoc|lia|done|]. exists m', x'. split; [|done].
        rewrite <- Hl. f_equal. f_equal. unfold c. rewrite map_app, toks_size_app. cbn [map prop_tok toks_size]. lia.
      + destruct (IH fuel m x (l ++ [None]) post) as (m' & x' & Hl & Hi'); [by rewrite <- app_assoc|lia|by apply Hnop|]. exists m', x'. split; [|done].
        rewrite <- Hl. f_equal. f_equal. rewrite map_app, toks_size_app. cbn [map prop_tok toks_size tok_size]. lia. }
  destruct (Hsee _ _ _ Hi) as [Hh _]. destruct (Hsees _ _ _ Hi) as [post Hs]. unfold fdt_first_property_offset.
  rewrite (check_node_offset_spec Hh _ _ _ Hs), Ok_bind. pose proof (sees_tail _ _ _ Hs) as Hs'. pose proof (sees_nonneg _ _ _ _ _ Hs').
  destruct (Z.ltb_spec (q + tok_size (TBegin n)) 0); [lia|]. pose proof (sees_fuel Hh _ _ Hs') as Hf.
  unfold _nextprop. rewrite (nextprop_spec Hh _ _ _ Hs' Hf).
  destruct (Hloop ps (fdt_fuel m fdt) m x [] post) as (m' & x' & Hl & Hi'); [done| |done|].
  { rewrite !length_app, length_map in Hf. lia. }
  cbn [map toks_size] in Hl. rewrite Z.add_0_r in Hl. eexists _, m', x'. split; [done|]. split; [exact Hl|done].
Qed.

Lemma each_property_spec fdt q n ps ks (I : mem -> prop_list -> Prop) body m :
  (forall m r, I m r -> header_ok m fdt /\ exists post, sees m fdt q (flatten (Node n ps ks) ++ post)) ->
  (forall m r, I m (None :: r) -> I m r) ->
  (forall m l s v r, ps = l ++ Some (s, v) :: r -> I m (Some (s, v) :: r) ->
     exists m', body m (q + tok_size (TBegin n) + toks_size (map prop_tok l)) = Ok (0, m') /\ I m' r) ->
  I m ps -> exists m', each_property m fdt q body = Ok (0, m') /\ I m' [].
Proof.
  intros Hsee Hnop Hstep Hi.
  destruct (for_properties_spec fdt q n ps ks (fun m (_ : unit) r => I m r) (plain body) m tt) as (property & m' & [] & Hp & Hl & Hi'); [| | |done|].
  - intros m1 _ r. apply Hsee.
  - intros m1 _ r. apply Hnop.
  - intros m1 [] l s v r Hps Hi1. destruct (Hstep _ _ _ _ _ Hps Hi1) as (m2 & Hb & Hi2). exists m2, tt. split; [by apply plain_spec|done].
  - exists m'. unfold each_property. by rewrite Hp, Ok_bind, Hl, Ok_bind.
Qed.

(** ** The merged tree *)

Definition set_props (ops ps : prop_list) : prop_list :=
  fold_left (fun ps p => match p with Some (s, v) => set_prop s v ps | None => ps end) ops ps.

(** [f] at the first child that the name [s] selects. *)
Fixpoint try_kid (f : dt -> option dt) (s : list Z) (ks : list dt) : option (list dt) :=
  match ks with
  | [] => None
  | k :: ks => if selects s k then (fun k => k :: ks) <$> f k else cons k <$> try_kid f s ks
  end.

Definition update_kid (f : dt -> dt) (s : list Z) (ks : list dt) : option (list dt) := try_kid (fun k => Some (f k)) s ks.

Definition merge_kid (f : dt -> dt) (s : list Z) (ks : list dt) : list dt :=
  default (insert_kid (f (Node s [] [])) ks) (update_kid f s ks).

(** The node [o] of an overlay merged into the node [t]. *)
Fixpoint dt_merge (t o : dt) {struct o} : dt :=
  match o, t with
  | Node _ ops oks, Node n ps ks =>
      Node n (set_props ops ps)
        (fold_left (fun ks o => match o with Nop => ks | Node s _ _ => merge_kid (fun t => dt_merge t o) s ks end) oks ks)
  | _, _ => t
  end.

Definition merge_kids (oks ks : list dt) : list dt :=
  fold_left (fun ks o => match o with Nop => ks | Node s _ _ => merge_kid (fun t => dt_merge t o) s ks end) oks ks.

Lemma find_child_split s ks q :
  match find_child s ks q with
  | Some (q', t) => exists ks1 ks2, ks = ks1 ++ t :: ks2 /\ t <> Nop /\ q' = q + toks_size (flat_map flatten ks1) /\
      forall f, try_kid f s ks = (fun k => ks1 ++ k :: ks2) <$> f t
  | None => forall f, try_kid f s ks = None
  end.
Proof.
  revert q. induction ks as [|k ks IH]; intros q; cbn [find_child try_kid]; [done|]. destruct (selects s k) eqn:Hk.
  - exists [], ks. split_and!; [done|by intros ->|cbn; lia|done].
  - specialize (IH (q + dt_size k)). destruct (find_child s ks (q + dt_size k)) as [[q' t]|].
    + destruct IH as (ks1 & ks2 & -> & Ht & -> & Hu). exists (k :: ks1), ks2. split_and!; [done|done| |].
      * cbn [flat_map]. rewrite toks_size_app. unfold dt_size. lia.
      * intros f. rewrite Hu. by destruct (f t).
    + intros f. by rewrite IH.
Qed.

(** What the tokens of an overlay can take in the base tree: their bytes, and the
    names of the properties. *)
Definition cost (ts : list token) : Z := toks_size ts + names_size ts.

Lemma cost_app ts ts' : cost (ts ++ ts') = cost ts + cost ts'.
Proof.
  assert (names_size (ts ++ ts') = names_size ts + names_size ts') as Hn.
  { induction ts as [|[n| |n v|] ts IH]; cbn [app names_size]; lia. }
  unfold cost. rewrite toks_size_app, Hn. lia.
Qed.

Lemma cost_nonneg ts : 0 <= cost ts.
Proof. unfold cost. pose proof (toks_size_nonneg ts). pose proof (names_size_nonneg ts). lia. Qed.

(** ** Reading the overlay *)

Lemma string_is_name m p n : string_at m p n -> is_name n.
Proof.
  intros [Hb Hn _]. apply Forall_lookup. intros i b Hi. rewrite Forall_lookup in Hn. specialize (Hn _ _ Hi).
  pose proof (load_bytes_bytes m p (length n)) as Hbs. rewrite Hb, Forall_lookup in Hbs. specialize (Hbs _ _ Hi). unfold is_byte in Hbs. lia.
Qed.

Lemma c_string_spec m p n : string_at m p n -> p <> 0 -> c_string m p = Ok n.
Proof.
  intros Hs Hp. unfold c_string. destruct (Z.eqb_spec p 0); [done|]. rewrite (strlen_found _ _ _ Hs), Ok_bind, Nat2Z.id.
  by rewrite (string_bytes _ _ _ Hs).
Qed.

Lemma intact_prop m fdt T O S Sz ts1 s v ts2 :
  intact m fdt T O S Sz (ts1 ++ TProp s v :: ts2) ->
  exists p name, fdt_getprop_by_offset m fdt (toks_size ts1) = Ok (p, name, len v) /\ p = fdt + O + toks_size ts1 + 12 /\
    load_bytes m p (length v) = v /\ c_string m name = Ok s /\ is_name s.
Proof.
  intros Hi. pose proof (intact_header _ _ _ _ _ _ _ Hi) as Hh. pose proof (intact_sees _ _ _ _ _ _ _ Hi) as Hs.
  apply sees_app in Hs. rewrite Z.add_0_l in Hs. destruct Hi as [Ha _ _ _ _ _ HO HO40 Hsz HS Hord _ _ Htoks _]. apply toks_in_app in Htoks as [_ [[[_ (_ & Hv & Hn)] Hin] _]].
  cbn [name_in] in Hin. unfold sizeof_fdt_header, prop_data in *. pose proof (toks_size_nonneg ts1).
  pose proof (toks_size_nonneg (ts1 ++ TProp s v :: ts2)).
  unfold fdt_getprop_by_offset. rewrite (get_property_by_offset_spec Hh _ _ _ _ Hs), Ok_bind, HO.
  destruct (Z.eqb_spec (fdt + O + toks_size ts1) 0); [lia|]. eexists _, _. split; [done|]. split_and!; [done|done| |by eapply string_is_name].
  unfold fdt_string. rewrite HS. apply c_string_spec; [exact Hn|]. unfold be32_at in Hin. lia.
Qed.

Lemma intact_name m fdt T O S Sz ts1 n ts2 :
  intact m fdt T O S Sz (ts1 ++ TBegin n :: ts2) ->
  exists p l, fdt_get_name m fdt (toks_size ts1) = Ok (p, l) /\ c_string m p = Ok n /\ is_name n.
Proof.
  intros Hi. pose proof (intact_header _ _ _ _ _ _ _ Hi) as Hh. pose proof (intact_sees _ _ _ _ _ _ _ Hi) as Hs.
  apply sees_app in Hs. rewrite Z.add_0_l in Hs. destruct Hi as [Ha _ _ _ _ _ HO HO40 Hsz HS Hord _ _ Htoks _]. apply toks_in_app in Htoks as [_ [[[_ Hn] _] _]].
  unfold sizeof_fdt_header in *. pose proof (toks_size_nonneg ts1). pose proof (tok_size_bounds (TBegin n)).
  unfold fdt_get_name. rewrite (header_checked _ _ Hh). cbn [Z.eqb negb]. rewrite (check_node_offset_spec Hh _ _ _ Hs), Ok_bind.
  destruct (Z.ltb_spec (toks_size ts1 + tok_size (TBegin n)) 0); [lia|]. unfold _fdt_offset_ptr. rewrite HO.
  rewrite (strlen_found _ _ _ Hn), Ok_bind. eexists _, _. split; [done|]. split; [|by eapply string_is_name].
  apply c_string_spec; [exact Hn|]. unfold nh_name. lia.
Qed.

Lemma tree_focus pre n ps ks1 t ks2 post :
  pre ++ flatten (Node n ps (ks1 ++ t :: ks2)) ++ post =
  (pre ++ TBegin n :: map prop_tok ps ++ flat_map flatten ks1) ++ flatten t ++ flat_map flatten ks2 ++ TEndNode :: post.
Proof. rewrite flatten_app, flat_map_app. cbn [flat_map]. rewrite <- !app_assoc. cbn [app]. by rewrite <- !app_assoc. Qed.

(** ** [overlay_apply_node] *)

Section Apply.
Context (fdt T O fdto To Oo So Szo : Z) (ots : list token).
Context (Hsep : fdt + T <= fdto \/ fdto + To <= fdt).
#[local] Set Default Proof Using "All".

Notation base := (fun x => fdt <= x < fdt + T).
Notation overlay m := (intact m fdto To Oo So Szo ots).

Lemma overlay_kept m m' : overlay m -> changes base m m' -> overlay m'.
Proof. intros Ho Hc. apply (intact_same m); [|done]. intros x Hx. apply Hc. lia. Qed.

Lemma overlay_node m opre o opost :
  overlay m -> ots = opre ++ flatten o ++ opost -> header_ok m fdto /\ sees m fdto (toks_size opre) (flatten o ++ opost).
Proof.
  intros Ho ->. split; [by eapply intact_header|]. pose proof (intact_sees _ _ _ _ _ _ _ Ho) as Hs. apply sees_app in Hs.
  by rewrite Z.add_0_l in Hs.
Qed.

(** The loop over the properties. *)
Lemma apply_props_spec m0 U opre on ops oks opost pre n ps ks post :
  ots = opre ++ flatten (Node on ops oks) ++ opost -> overlay m0 ->
  held m0 fdt T O U (pre ++ flatten (Node n ps ks) ++ post) -> U + cost (map prop_tok ops) <= T ->
  exists m, each_property m0 fdto (toks_size opre) (fun m property => apply_property m fdt (toks_size pre) fdto property) = Ok (0, m) /\
    held m fdt T O (U + cost (map prop_tok ops)) (pre ++ flatten (Node n (set_props ops ps) ks) ++ post) /\ changes base m0 m.
Proof.
  intros Hots Ho0 Hh0 Hcost.
  set (I := fun (m : mem) (r : prop_list) => exists l, ops = l ++ r /\
    held m fdt T O (U + cost (map prop_tok l)) (pre ++ flatten (Node n (set_props l ps) ks) ++ post) /\ changes base m0 m).
  destruct (each_property_spec fdto (toks_size opre) on ops oks I
    (fun m property => apply_property m fdt (toks_size pre) fdto property) m0) as (m & Hm & l & Hl & Hh & Hc).
  - intros m r (l & _ & _ & Hc). destruct (overlay_node m opre (Node on ops oks) opost (overlay_kept m0 m Ho0 Hc) Hots). split; [done|by exists opost].
  - intros m r (l & -> & Hh & Hc). exists (l ++ [None]). split; [by rewrite <- app_assoc|]. split; [|done].
    unfold set_props in *. rewrite fold_left_app, map_app, cost_app. cbn [fold_left map prop_tok].
    destruct Hh as (S & Sz & HU & He). exists S, Sz. split; [|done]. pose proof (cost_nonneg [TNop]). lia.
  - intros m l s v r Hops (l' & Hops' & Hh & Hc).
    assert (l' = l) as -> by (rewrite Hops in Hops'; by apply app_inv_tail in Hops').
    pose proof (overlay_kept _ _ Ho0 Hc) as Ho. rewrite Hots, flatten_app, Hops, map_app, <- !app_assoc in Ho.
    cbn [map prop_tok app] in Ho. rewrite app_comm_cons, app_assoc in Ho.
    destruct (intact_prop _ _ _ _ _ _ _ _ _ _ Ho) as (p & name & Hp & _ & Hv & Hn & Hname).
    assert (toks_size (opre ++ TBegin on :: map prop_tok l) = toks_size opre + tok_size (TBegin on) + toks_size (map prop_tok l)) as Hq
      by (rewrite toks_size_app; cbn [toks_size]; lia).
    rewrite Hq in Hp. unfold apply_property. rewrite Hp, Ok_bind.
    destruct (Z.eqb_spec (len v) (- FDT_ERR_NOTFOUND)) as [Hbad|_]; [unfold len, FDT_ERR_NOTFOUND in Hbad; lia|].
    destruct (Z.ltb_spec (len v) 0) as [Hbad|_]; [unfold len in Hbad; lia|]. rewrite Hn, Ok_bind. unfold len. rewrite Nat2Z.id, Hv.
    assert (cost (map prop_tok ops) = cost (map prop_tok l) + (tok_size (TProp s v) + len s + 1) + cost (map prop_tok r)) as Hco.
    { rewrite Hops, map_app, cost_app. cbn [map prop_tok]. change (TProp s v :: map prop_tok r) with ([TProp s v] ++ map prop_tok r).
      rewrite cost_app. unfold cost at 2. cbn [toks_size names_size]. lia. }
    pose proof (cost_nonneg (map prop_tok r)).
    destruct (setprop_spec m fdt T O _ pre n _ ks post s v Hh Hname) as (m' & Hset & Hh' & Hc'); [|lia|].
    { rewrite <- Hv. apply load_bytes_bytes. }
    exists m'. split; [done|]. exists (l ++ [Some (s, v)]). split; [by rewrite <- app_assoc|]. split; [|by eapply changes_trans].
    unfold set_props in *. rewrite fold_left_app, map_app, cost_app. cbn [fold_left map prop_tok].
    destruct Hh' as (S & Sz & HU & He). exists S, Sz. split; [|done]. unfold cost in *. cbn [toks_size names_size] in *. lia.
  - exists []. cbn [app map set_props fold_left]. split; [done|]. split; [|apply changes_refl].
    destruct Hh0 as (S & Sz & HU & He). exists S, Sz. split; [unfold cost; cbn; lia|done].
  - rewrite app_nil_r in Hl. subst l. exists m. done.
Qed.

(** The node [o] of the overlay, without its name. *)
Definition inner_cost (o : dt) : Z :=
  match o with
  | Nop => 0
  | Node _ ops oks => cost (map prop_tok ops) + cost (flat_map flatten oks)
  end.

Lemma inner_cost_kid s ops oks : cost (flatten (Node s ops oks)) = dt_size (Node s [] []) + inner_cost (Node s ops oks).
Proof using.
  cbn [flatten inner_cost]. change (TBegin s :: map prop_tok ops ++ flat_map flatten oks ++ [TEndNode])
    with ([TBegin s] ++ map prop_tok ops ++ flat_map flatten oks ++ [TEndNode]). rewrite !cost_app.
  unfold dt_size, cost. cbn [flatten map flat_map app toks_size names_size tok_size]. lia.
Qed.

Definition applies (o : dt) : Prop := forall fuel m0 U opre opost pre n ps ks post,
  ots = opre ++ flatten o ++ opost -> o <> Nop -> (length (flatten o) <= fuel)%nat -> overlay m0 ->
  held m0 fdt T O U (pre ++ flatten (Node n ps ks) ++ post) -> U + inner_cost o <= T ->
  exists m, overlay_apply_node fuel m0 fdt (toks_size pre) fdto (toks_size opre) = Ok (0, m) /\
    held m fdt T O (U + inner_cost o) (pre ++ flatten (dt_merge (Node n ps ks) o) ++ post) /\ changes base m0 m.

Lemma dt_merge_node n ps ks o : exists ps' ks', dt_merge (Node n ps ks) o = Node n ps' ks'.
Proof using. destruct o; cbn [dt_merge]; by eexists _, _. Qed.

(** One child of the overlay. *)
Lemma apply_kid_spec s ops oks fuel m0 U opre opost pre n ps ks post :
  applies (Node s ops oks) -> ots = opre ++ flatten (Node s ops oks) ++ opost -> (length (flatten (Node s ops oks)) <= fuel)%nat ->
  overlay m0 -> held m0 fdt T O U (pre ++ flatten (Node n ps ks) ++ post) -> U + cost (flatten (Node s ops oks)) <= T ->
  exists m, ('(name, _) ← fdt_get_name m0 fdto (toks_size opre);
      name ← c_string m0 name;
      '(nnode, m) ← fdt_add_subnode m0 fdt (toks_size pre) name;
      nnode ← (if nnode =? - FDT_ERR_EXISTS then
                 nnode ← fdt_subnode_offset m fdt (toks_size pre) name;
                 Ok (if nnode =? - FDT_ERR_NOTFOUND then - FDT_ERR_INTERNAL else nnode)
               else Ok nnode);
      if nnode <? 0 then Ok (nnode, m) else
      overlay_apply_node fuel m fdt nnode fdto (toks_size opre)) = Ok (0, m) /\
    held m fdt T O (U + cost (flatten (Node s ops oks)))
      (pre ++ flatten (Node n ps (merge_kid (fun t => dt_merge t (Node s ops oks)) s ks)) ++ post) /\ changes base m0 m.
Proof.
  intros Happ Hots Hf Ho Hh Hcost. rewrite inner_cost_kid in *. set (o := Node s ops oks) in *.
  pose proof Ho as Ho'. rewrite Hots in Ho'. unfold o in Ho'. rewrite flatten_app in Ho'.
  destruct (intact_name _ _ _ _ _ _ _ _ _ Ho') as (p & l & -> & Hn & Hname). clear Ho'. rewrite Ok_bind, Hn, Ok_bind.
  pose proof (find_child_split s ks (kids_offset (toks_size pre) (Node n ps ks))) as Hfc. unfold merge_kid, update_kid.
  destruct (find_child s ks _) as [[q t]|] eqn:Hfind.
  - destruct (add_subnode_exists _ _ _ _ _ _ _ _ _ _ _ _ _ Hh Hname Hfind) as [-> Hsub]. rewrite Ok_bind. cbn [Z.eqb].
    change (- FDT_ERR_EXISTS =? - FDT_ERR_EXISTS) with true. cbn iota. rewrite Hsub, !Ok_bind.
    destruct Hfc as (ks1 & ks2 & -> & Ht & Hq & Hu). rewrite Hu. cbn [fmap option_fmap option_map default from_option id].
    destruct t as [|tn tps tks]; [done|]. rewrite tree_focus in Hh.
    assert (q = toks_size (pre ++ TBegin n :: map prop_tok ps ++ flat_map flatten ks1)) as Hq'.
    { rewrite Hq. cbn [kids_offset]. rewrite toks_size_app. cbn [toks_size]. rewrite toks_size_app. lia. }
    pose proof (toks_size_nonneg (pre ++ TBegin n :: map prop_tok ps ++ flat_map flatten ks1)).
    destruct (Z.eqb_spec q (- FDT_ERR_NOTFOUND)) as [Hbad|_]; [unfold FDT_ERR_NOTFOUND in Hbad; lia|].
    destruct (Z.ltb_spec q 0) as [|_]; [lia|]. rewrite Hq'.
    pose proof (toks_size_nonneg (flatten (Node s [] []))) as Hsz. fold (dt_size (Node s [] [])) in Hsz.
    destruct (Happ fuel m0 U opre opost _ tn tps tks _ Hots ltac:(done) Hf Ho Hh ltac:(lia)) as (m & Hm & Hh' & Hc).
    exists m. split; [done|]. split; [|done]. rewrite tree_focus. destruct Hh' as (S & Sz & HU & He). exists S, Sz. split; [lia|done].
  - destruct (add_subnode_new _ _ _ _ _ _ _ _ _ _ _ Hh Hname Hfind) as (m1 & ks1 & ks2 & -> & Hi & -> & Hh1 & Hc1).
    { assert (0 <= inner_cost o); [|lia]. unfold o. cbn [inner_cost]. pose proof (cost_nonneg (map prop_tok ops)). pose proof (cost_nonneg (flat_map flatten oks)). lia. }
    rewrite Hfc. cbn [default from_option]. rewrite Ok_bind. set (q := toks_size (pre ++ _)).
    assert (0 <= q) by apply toks_size_nonneg.
    destruct (Z.eqb_spec q (- FDT_ERR_EXISTS)) as [Hbad|_]; [unfold FDT_ERR_EXISTS in Hbad; lia|]. rewrite Ok_bind.
    destruct (Z.ltb_spec q 0) as [|_]; [lia|]. rewrite tree_focus in Hh1.
    destruct (Happ fuel m1 _ opre opost _ s [] [] _ Hots ltac:(done) Hf (overlay_kept _ _ Ho Hc1) Hh1 ltac:(lia)) as (m & Hm & Hh' & Hc).
    exists m. split; [done|]. split; [|by eapply changes_trans].
    rewrite Hi, tree_focus. destruct Hh' as (S & Sz & HU & He). exists S, Sz. split; [lia|done].
Qed.

Lemma apply_node_spec o : applies o.
Proof.
  induction o as [|on ops oks IH] using dt_ind'; intros fuel m0 U opre opost pre n ps ks post Hots Hne Hf Ho Hh Hcost; [done|].
  destruct fuel as [|fuel]; [cbn [flatten length] in Hf; lia|]. cbn [overlay_apply_node]. cbn [inner_cost] in *.
  pose proof (cost_nonneg (map prop_tok ops)). pose proof (cost_nonneg (flat_map flatten oks)).
  destruct (apply_props_spec m0 U opre on ops oks opost pre n ps ks post Hots Ho Hh ltac:(lia)) as (m1 & -> & Hh1 & Hc1).
  rewrite Ok_bind. cbn [Z.eqb negb]. set (U1 := U + cost (map prop_tok ops)) in *. set (ps1 := set_props ops ps) in *.
  set (I := fun (m : mem) (l r : list dt) => l ++ r = oks /\
    held m fdt T O (U1 + cost (flat_map flatten l)) (pre ++ flatten (Node n ps1 (merge_kids l ks)) ++ post) /\ changes base m0 m).
  edestruct (each_subnode_spec fdto (toks_size opre) on ops opost I) as (m & l & Hm & Hl & Hh2 & Hc2); [| | | |exists m; split; [exact Hm|]].
  - intros m l r (Hl & _ & Hc). rewrite Hl. apply overlay_node; [by apply (overlay_kept m0)|done].
  - intros m l r (Hl & Hm & Hc). split; [by rewrite <- app_assoc|]. split; [|done]. unfold merge_kids in *. rewrite fold_left_app, flat_map_app, cost_app.
    cbn [fold_left flat_map flatten app]. destruct Hm as (S & Sz & HU & He). exists S, Sz. split; [|done]. pose proof (cost_nonneg [TNop]). lia.
  - intros m l [|s kps kks] r Hk (Hl & Hm & Hc); [done|].
    set (kpre := opre ++ TBegin on :: map prop_tok ops ++ flat_map flatten l). set (kpost := flat_map flatten r ++ TEndNode :: opost).
    assert (ots = kpre ++ flatten (Node s kps kks) ++ kpost) as Hkots by (rewrite Hots, <- Hl; apply tree_focus).
    assert (kids_offset (toks_size opre) (Node on ops []) + toks_size (flat_map flatten l) = toks_size kpre) as ->.
    { unfold kpre. cbn [kids_offset]. rewrite toks_size_app. cbn [toks_size]. rewrite toks_size_app. lia. }
    assert (In (Node s kps kks) oks) as Hin by (rewrite <- Hl; apply in_or_app; right; by left).
    rewrite Forall_forall in IH. specialize (IH _ ltac:(by apply list_elem_of_In)).
    assert (cost (flat_map flatten oks) = cost (flat_map flatten l) + cost (flatten (Node s kps kks)) + cost (flat_map flatten r)) as Hco.
    { rewrite <- Hl, flat_map_app, cost_app. cbn [flat_map]. rewrite cost_app. lia. }
    pose proof (cost_nonneg (flat_map flatten r)).
    destruct (apply_kid_spec s kps kks fuel m (U1 + cost (flat_map flatten l)) kpre kpost pre n ps1 (merge_kids l ks) post IH Hkots)
      as (m' & Hm' & Hh' & Hc'); [|by apply (overlay_kept m0)|done|unfold U1; lia|].
    { rewrite <- Hl in Hf. cbn [flatten length] in Hf. rewrite flat_map_app in Hf. cbn [flat_map] in Hf. rewrite !length_app in Hf. lia. }
    exists m', (Node s kps kks). split; [done|]. split; [done|]. split; [exact Hm'|]. split; [by rewrite <- app_assoc|]. split; [|by eapply changes_trans].
    unfold merge_kids in *. rewrite fold_left_app, flat_map_app, cost_app. cbn [fold_left flat_map]. rewrite app_nil_r.
    destruct Hh' as (S & Sz & HU & He). exists S, Sz. split; [lia|done].
  - split; [done|]. split; [|done]. cbn [flat_map merge_kids fold_left]. destruct Hh1 as (S & Sz & HU & He). exists S, Sz. split; [unfold cost; cbn; lia|done].
  - rewrite app_nil_r in Hl. subst l. split; [|done]. cbn [dt_merge]. fold ps1. unfold merge_kids in Hh2.
    destruct Hh2 as (S & Sz & HU & He). exists S, Sz. split; [unfold U1 in HU; lia|done].
Qed.

End Apply.
