(* ===== verification/FdtPhandle.v ===== *)
(** * Flattened device trees: phandles and targets of an overlay

    The phandles of a tree, [overlay_adjust_local_phandles], which moves those of
    the overlay behind those of the base tree, and the node that a fragment of the
    overlay names as its target. *)

From Stdlib Require Import Strings.String.
From S2P Require Import Prelude Mem Printf Inet LibcString Fdt FdtRo FdtSw FdtRw FdtProof FdtLookup FdtBuild FdtOverlay FdtEdit FdtMerge.
#[local] Open Scope Z_scope.

(** ** Values written in place *)

(** [w] over the bytes of [v] from [i] on. *)
Definition patch (i : nat) (w v : list Z) : list Z := take i v ++ w ++ drop (i + length w) v.

Lemma length_patch i w v : (i + length w <= length v)%nat -> length (patch i w v) = length v.
Proof. intros Hi. unfold patch. rewrite !length_app, length_take, length_drop. lia. Qed.

Lemma load_patch m p i w v :
  load_bytes m p (length v) = v -> (i + length w <= length v)%nat -> Forall is_byte w ->
  load_bytes (store_bytes m (p + Z.of_nat i) w) p (length v) = patch i w v.
Proof.
  intros Hv Hi Hw. unfold patch. replace (Z.of_nat i) with (Z.of_nat (length (take i v))) by (rewrite length_take; lia).
  apply (load_bytes_patch _ _ _ _ (take (length w) (drop i v))); [|rewrite length_take, length_drop; lia|done].
  rewrite Hv, <- (take_drop i v) at 1. f_equal. by rewrite <- drop_drop, take_drop.
Qed.

Lemma intact_patch m fdt T O S Sz ts1 s v ts2 i w :
  intact m fdt T O S Sz (ts1 ++ TProp s v :: ts2) -> (i + length w <= length v)%nat -> Forall is_byte w ->
  let m' := store_bytes m (fdt + O + toks_size ts1 + 12 + Z.of_nat i) w in
  intact m' fdt T O S Sz (ts1 ++ TProp s (patch i w v) :: ts2) /\ changes (fun x => fdt <= x < fdt + T) m m'.
Proof.
  intros [Ha HT Hmg Hver Hlast Htot HO HO40 Hsz HS Hord HSz Hroom Htoks Hend] Hi Hw m'. unfold sizeof_fdt_header in *.
  pose proof (toks_size_nonneg ts1). pose proof (toks_size_nonneg ts2). pose proof (round4_bounds (len v)).
  rewrite toks_size_app in Hsz, Hend. cbn [toks_size tok_size] in Hsz, Hend.
  assert (len (patch i w v) = len v) as Hlen by (unfold len; by rewrite length_patch).
  set (p := fdt + O + toks_size ts1) in *.
  assert (changes (fun x => p + 12 <= x < p + 12 + len v) m m') as Hc by (apply changes_store_bytes; unfold len; lia).
  assert (forall k, 0 <= k <= 36 -> be32_at m' (fdt + k) = be32_at m (fdt + k)) as Hk.
  { intros k Hk. apply header_word. intros x Hx. apply Hc. lia. }
  pose proof (Hk 0 ltac:(lia)) as Hk0. rewrite Z.add_0_r in Hk0. pose proof (Hk 36 ltac:(lia)) as Hk36.
  change (fdt_size_dt_struct m' fdt = fdt_size_dt_struct m fdt) in Hk36.
  apply toks_in_app in Htoks as [Ht1 [[[Ht (Hl & Hv & Hs)] Hn] Ht2]]. cbn [name_in] in Hn. unfold prop_len, prop_data, prop_nameoff in *. fold p in Ht1, Ht, Hl, Hv, Hs, Hn, Ht2.
  split; [split|]; rewrite ?toks_size_app; cbn [toks_size tok_size]; rewrite ?Hk36, ?Hlen; try done; try lia.
  - by rewrite <- Hmg.
  - etransitivity; [exact Hver|]. apply Z.eq_le_incl. symmetry. apply (Hk 20). lia.
  - etransitivity; [|exact Hlast]. apply Z.eq_le_incl. apply (Hk 24). lia.
  - rewrite <- Htot. apply (Hk 4). lia.
  - rewrite <- HO. apply (Hk 8). lia.
  - rewrite <- HS. apply (Hk 12). lia.
  - apply toks_in_app. fold p. split; [|cbn [toks_in tok_size] in *; rewrite Hlen; split].
    + apply (toks_in_changes _ _ _ _ _ _ _ _ Hc); [lia|lia|done].
    + unfold tok_at, name_in, prop_len, prop_data, prop_nameoff. rewrite Hlen.
      rewrite !(be32_changes _ _ _ _ Hc) by lia. split_and!; try done; try lia.
      * rewrite length_patch by done. by apply load_patch.
      * apply (string_changes _ _ _ _ _ Hc); [|done]. unfold len in *. lia.
    + apply (toks_in_changes _ _ _ _ _ _ _ _ Hc); [lia|lia|done].
  - rewrite <- Hend. unfold p in *. apply (be32_changes _ _ _ _ Hc). lia.
  - eapply changes_mono; [|exact Hc]. simpl. lia.
Qed.

(** The whole value. *)
Lemma patch_all w v : length w = length v -> patch 0 w v = w.
Proof. intros Hl. unfold patch. rewrite take_0, drop_ge by lia. by rewrite app_nil_r. Qed.

(** A property of a node, with its address and its place. *)
Lemma intact_getprop m fdt T O S Sz pre n ps ks post s :
  intact m fdt T O S Sz (pre ++ flatten (Node n ps ks) ++ post) ->
  match find_prop s ps with
  | Some v => exists ps1 ps2, ps = ps1 ++ Some (s, v) :: ps2 /\ (forall w, replace_prop s w ps = Some (ps1 ++ Some (s, w) :: ps2)) /\
      let p := fdt + O + toks_size (pre ++ TBegin n :: map prop_tok ps1) + 12 in
      fdt_getprop m fdt (toks_size pre) s = Ok (p, len v) /\ load_bytes m p (length v) = v /\ 0 < p
  | None => fdt_getprop m fdt (toks_size pre) s = Ok (0, - FDT_ERR_NOTFOUND) /\ forall w, replace_prop s w ps = None
  end.
Proof.
  intros Hi. pose proof (intact_header _ _ _ _ _ _ _ Hi) as Hh. pose proof (intact_sees _ _ _ _ _ _ _ Hi) as Hs.
  rewrite flatten_app in Hi, Hs. apply sees_app in Hs. rewrite Z.add_0_l in Hs. unfold fdt_getprop, fdt_getprop_namelen.
  rewrite (get_property_spec Hh s _ n _ Hs), Ok_bind. pose proof (find_prop_split s ps) as Hsc. destruct (find_prop s ps) as [v|].
  - destruct Hsc as (ps1 & ps2 & Hps & Hr & Hsc). exists ps1, ps2. split; [done|]. split; [done|]. rewrite Hsc. cbn [prop_result].
    rewrite Hps, map_app, <- app_assoc in Hi. cbn [map prop_tok app] in Hi. rewrite app_comm_cons, app_assoc in Hi.
    destruct (intact_prop _ _ _ _ _ _ _ _ _ _ Hi) as (p & _ & _ & -> & Hv & _). destruct Hi as [Ha _ _ _ _ _ HO HO40 _ _ _ _ _ _ _].
    unfold sizeof_fdt_header in *. set (ts1 := pre ++ TBegin n :: map prop_tok ps1) in *. pose proof (toks_size_nonneg ts1).
    assert (toks_size pre + tok_size (TBegin n) + toks_size (map prop_tok ps1) = toks_size ts1) as ->
      by (unfold ts1; rewrite toks_size_app; cbn [toks_size]; lia).
    rewrite HO. destruct (Z.eqb_spec (fdt + O + toks_size ts1) 0); [lia|]. cbn zeta. split_and!; [done|done|lia].
  - destruct Hsc as [Hr Hsc]. rewrite Hsc. done.
Qed.

Lemma intact_prop_len m fdt T O S Sz ts1 s v ts2 : intact m fdt T O S Sz (ts1 ++ TProp s v :: ts2) -> len v < 2 ^ 31.
Proof.
  intros [Ha HT _ _ _ _ _ HO40 Hsz _ Hord HSz Hroom _ _]. unfold sizeof_fdt_header in *.
  rewrite toks_size_app in Hsz. cbn [toks_size tok_size] in Hsz. pose proof (round4_bounds (len v)).
  pose proof (toks_size_nonneg ts1). pose proof (toks_size_nonneg ts2). lia.
Qed.

Lemma intact_value m fdt T O S Sz pre n ps ks post s v :
  intact m fdt T O S Sz (pre ++ flatten (Node n ps ks) ++ post) -> find_prop s ps = Some v -> len v < 2 ^ 31.
Proof.
  intros Hi Hv. pose proof (find_prop_split s ps) as Hsp. rewrite Hv in Hsp. destruct Hsp as (ps1 & ps2 & -> & _).
  rewrite flatten_app, map_app, <- app_assoc in Hi. cbn [map prop_tok app] in Hi. rewrite app_comm_cons, app_assoc in Hi.
  by apply intact_prop_len in Hi.
Qed.

Lemma set_prop_found s v ps : find_prop s ps = Some v ->
  exists ps1 ps2, ps = ps1 ++ Some (s, v) :: ps2 /\ forall w, set_prop s w ps = ps1 ++ Some (s, w) :: ps2.
Proof.
  intros Hv. pose proof (find_prop_split s ps) as Hsp. rewrite Hv in Hsp. destruct Hsp as (ps1 & ps2 & Hps & Hr & _).
  exists ps1, ps2. split; [done|]. intros w. unfold set_prop. by rewrite Hr.
Qed.

(** The same number of bytes. *)
Lemma set_prop_size s v w ps : find_prop s ps = Some v -> length w = length v ->
  toks_size (map prop_tok (set_prop s w ps)) = toks_size (map prop_tok ps).
Proof.
  intros Hv Hl. destruct (set_prop_found s v ps Hv) as (ps1 & ps2 & -> & ->). rewrite !map_app, !toks_size_app. cbn [map prop_tok toks_size tok_size].
  unfold len. by rewrite Hl.
Qed.

(** [fdt_setprop_inplace_namelen_partial]. *)
Lemma inplace_spec m fdt T O S Sz pre n ps ks post s v off w :
  intact m fdt T O S Sz (pre ++ flatten (Node n ps ks) ++ post) -> find_prop s ps = Some v ->
  0 <= off -> off + len w <= len v -> Forall is_byte w ->
  exists m', fdt_setprop_inplace_namelen_partial m fdt (toks_size pre) s off w = Ok (0, m') /\
    intact m' fdt T O S Sz (pre ++ flatten (Node n (set_prop s (patch (Z.to_nat off) w v) ps) ks) ++ post) /\
    changes (fun x => fdt <= x < fdt + T) m m'.
Proof.
  intros Hi Hfp Hoff Hlen Hw. pose proof (intact_value _ _ _ _ _ _ _ _ _ _ _ _ _ Hi Hfp) as Hv31.
  pose proof (intact_getprop _ _ _ _ _ _ _ _ _ _ _ s Hi) as Hg. rewrite Hfp in Hg. destruct Hg as (ps1 & ps2 & Hps & Hr & Hg & Hv & Hp).
  unfold fdt_setprop_inplace_namelen_partial. change (fdt_getprop_namelen m fdt) with (fdt_getprop m fdt). rewrite Hg, Ok_bind.
  set (ts1 := pre ++ TBegin n :: map prop_tok ps1) in *. set (p := fdt + O + toks_size ts1 + 12) in *.
  set (ts2 := map prop_tok ps2 ++ flat_map flatten ks ++ TEndNode :: post). unfold len in *.
  destruct (Z.eqb_spec p 0); [lia|]. rewrite !u32_small by lia. destruct (Z.ltb_spec (Z.of_nat (length v)) (Z.of_nat (length w) + off)); [lia|].
  eexists. split; [done|].
  assert (forall w, pre ++ flatten (Node n (ps1 ++ Some (s, w) :: ps2) ks) ++ post = ts1 ++ TProp s w :: ts2) as Hts.
  { intros x. unfold ts1, ts2. rewrite flatten_app, map_app, <- !app_assoc. cbn [map prop_tok app]. by rewrite <- ?app_assoc. }
  unfold set_prop. rewrite Hr. cbn [default from_option id]. rewrite Hts. rewrite Hps, Hts in Hi.
  destruct (intact_patch _ _ _ _ _ _ _ _ _ _ (Z.to_nat off) w Hi) as [Hi' Hc]; [lia|done|]. cbn zeta in Hi', Hc.
  rewrite Z2Nat.id in Hi', Hc by done. done.
Qed.

(** ** Phandles of a tree *)

(** The number that four bytes of a property hold. *)
Definition be_value (v : list Z) : Z := fdt32_to_cpu (le_join v).

Lemma be_value_range v : 0 <= be_value v < 2 ^ 32.
Proof. apply bswap32_range. Qed.

Lemma load_be_value m p v : load_bytes m p (length v) = v -> length v = 4%nat -> fdt32_to_cpu (load32 m p) = be_value v.
Proof. intros Hv Hl. unfold be_value, load32. rewrite load_join. rewrite Hl in Hv. by rewrite Hv. Qed.

(** [overlay_phandle_add_offset] on the properties of a node. *)
Definition add_offset (delta : Z) (s : list Z) (ps : prop_list) : prop_list :=
  match find_prop s ps with
  | Some v => set_prop s (be32 (be_value v + delta)) ps
  | None => ps
  end.

Definition offset_ok (delta : Z) (s : list Z) (ps : prop_list) : bool :=
  match find_prop s ps with
  | Some v => (length v =? 4)%nat && (be_value v + delta <? 2 ^ 32 - 1)
  | None => true
  end.

Lemma be32_bytes x : Forall is_byte (be32 x).
Proof. apply le_split_bytes. Qed.

Lemma length_be32 x : length (be32 x) = 4%nat.
Proof. done. Qed.

Lemma add_offset_spec m fdt T O S Sz pre n ps ks post s delta :
  intact m fdt T O S Sz (pre ++ flatten (Node n ps ks) ++ post) -> offset_ok delta s ps = true -> 0 <= delta < 2 ^ 32 ->
  exists ret m', overlay_phandle_add_offset m fdt (toks_size pre) s delta = Ok (ret, m') /\
    negb (ret =? 0) && negb (ret =? - FDT_ERR_NOTFOUND) = false /\
    intact m' fdt T O S Sz (pre ++ flatten (Node n (add_offset delta s ps) ks) ++ post) /\
    changes (fun x => fdt <= x < fdt + T) m m' /\
    toks_size (map prop_tok (add_offset delta s ps)) = toks_size (map prop_tok ps).
Proof.
  intros Hi Hok Hd. unfold overlay_phandle_add_offset, offset_ok, add_offset in *.
  pose proof (intact_getprop _ _ _ _ _ _ _ _ _ _ _ s Hi) as Hg. destruct (find_prop s ps) as [v|] eqn:Hfp.
  - destruct Hg as (ps1 & ps2 & Hps & Hr & Hg & Hv & Hp). apply andb_prop in Hok as [Hl Hlt]. apply Nat.eqb_eq in Hl. apply Z.ltb_lt in Hlt.
    pose proof (be_value_range v). rewrite Hg, Ok_bind. set (ts1 := pre ++ TBegin n :: map prop_tok ps1) in *.
    set (p := fdt + O + toks_size ts1 + 12) in *. destruct (Z.eqb_spec p 0); [lia|].
    change (len v) with (Z.of_nat (length v)). rewrite Hl. change (negb (Z.of_nat 4 =? 4)) with false. cbn iota.
    rewrite (load_be_value _ _ _ Hv Hl), u32_small by lia. destruct (Z.ltb_spec (be_value v + delta) (be_value v)); [lia|].
    destruct (Z.eqb_spec (be_value v + delta) (2 ^ 32 - 1)); [lia|].
    unfold fdt_setprop_inplace_u32, fdt_setprop_inplace. rewrite Hg, Ok_bind. destruct (Z.eqb_spec p 0); [lia|]. rewrite length_be32. unfold len. rewrite Hl.
    change (negb (Z.of_nat 4 =? Z.of_nat 4)) with false. cbn iota.
    destruct (inplace_spec _ _ _ _ _ _ _ _ _ _ _ s v 0 (be32 (be_value v + delta)) Hi Hfp) as (m' & -> & Hi' & Hc);
      [lia|unfold len; rewrite length_be32; lia|apply be32_bytes|]. change (Z.to_nat 0) with 0%nat in Hi'. rewrite patch_all in Hi' by done.
    exists 0, m'. split_and!; [done|done|exact Hi'|exact Hc|by apply (set_prop_size s v)].
  - destruct Hg as [-> Hr]. rewrite Ok_bind. cbn [Z.eqb]. eexists _, m. split; [done|]. split_and!; [done|done|apply changes_refl|done].
Qed.

Definition ph : list Z := bytes_of "phandle".
Definition linux_ph : list Z := bytes_of "linux,phandle".

(** [overlay_adjust_node_phandles] on a tree. *)
Fixpoint adjust (delta : Z) (t : dt) : dt :=
  match t with
  | Nop => Nop
  | Node n ps ks => Node n (add_offset delta linux_ph (add_offset delta ph ps)) (map (adjust delta) ks)
  end.

(** Every phandle has four bytes and stays below the largest one. *)
Fixpoint adjustable (delta : Z) (t : dt) : bool :=
  match t with
  | Nop => true
  | Node n ps ks => offset_ok delta ph ps && offset_ok delta linux_ph ps && forallb (adjustable delta) ks
  end.

Lemma offset_ok_other delta s s' ps : s <> s' -> offset_ok delta s (add_offset delta s' ps) = offset_ok delta s ps.
Proof.
  intros Hs. unfold offset_ok, add_offset. destruct (find_prop s' ps) as [v|]; [|done].
  rewrite find_set_prop, bool_decide_eq_false_2 by done. done.
Qed.

Lemma dt_size_node n n' ps ps' ks ks' :
  len n = len n' -> toks_size (map prop_tok ps) = toks_size (map prop_tok ps') ->
  toks_size (flat_map flatten ks) = toks_size (flat_map flatten ks') -> dt_size (Node n ps ks) = dt_size (Node n' ps' ks').
Proof. intros Hn Hp Hk. unfold dt_size. cbn [flatten toks_size tok_size]. rewrite !toks_size_app, Hn, Hp, Hk. done. Qed.

Section Adjust.
Context (fdto T O S Sz delta : Z) (Hd : 0 <= delta < 2 ^ 32).
#[local] Set Default Proof Using "All".
Notation inside := (fun x => fdto <= x < fdto + T).

Definition adjusts (t : dt) : Prop := forall fuel m0 pre post,
  t <> Nop -> (length (flatten t) <= fuel)%nat -> intact m0 fdto T O S Sz (pre ++ flatten t ++ post) -> adjustable delta t = true ->
  exists m, overlay_adjust_node_phandles fuel m0 fdto (toks_size pre) delta = Ok (0, m) /\
    intact m fdto T O S Sz (pre ++ flatten (adjust delta t) ++ post) /\ changes inside m0 m /\ dt_size (adjust delta t) = dt_size t.

Lemma adjust_kids_size ks : Forall (fun k => dt_size (adjust delta k) = dt_size k) ks ->
  toks_size (flat_map flatten (map (adjust delta) ks)) = toks_size (flat_map flatten ks).
Proof.
  induction 1 as [|k ks Hk _ IH]; [done|]. cbn [map flat_map]. rewrite !toks_size_app, IH. unfold dt_size in Hk. by rewrite Hk.
Qed.

Lemma adjust_node_spec t : adjusts t.
Proof.
  induction t as [|n ps ks IH] using dt_ind'; intros fuel m0 pre post Hne Hf Hi Hok; [done|].
  cbn [adjustable] in Hok. apply andb_prop in Hok as [[Hok1 Hok2]%andb_prop Hkids].
  destruct fuel as [|fuel]; [cbn [flatten length] in Hf; lia|]. cbn [overlay_adjust_node_phandles]. fold ph linux_ph.
  destruct (add_offset_spec _ _ _ _ _ _ _ _ _ _ _ ph delta Hi Hok1 Hd) as (r1 & m1 & -> & Hr1 & Hi1 & Hc1 & Hs1). rewrite Ok_bind, Hr1.
  rewrite <- (offset_ok_other delta linux_ph ph) in Hok2 by done.
  destruct (add_offset_spec _ _ _ _ _ _ _ _ _ _ _ linux_ph delta Hi1 Hok2 Hd) as (r2 & m2 & -> & Hr2 & Hi2 & Hc2 & Hs2). rewrite Ok_bind, Hr2.
  set (ps' := add_offset delta linux_ph (add_offset delta ph ps)) in *. cbn [adjust].
  set (I := fun (m : mem) (l r : list dt) => exists done, done ++ r = ks /\ l = map (adjust delta) done /\
    Forall (fun k => dt_size (adjust delta k) = dt_size k) done /\
    intact m fdto T O S Sz (pre ++ flatten (Node n ps' (l ++ r)) ++ post) /\ changes inside m0 m).
  edestruct (each_subnode_spec fdto (toks_size pre) n ps' post I) as (m & l & Hm & done & Hl & -> & Hsz & Him & Hc);
    [| | | |exists m; split; [exact Hm|]].
  - intros m l r (done & _ & _ & _ & Him & _). split; [by eapply intact_header|]. pose proof (intact_sees _ _ _ _ _ _ _ Him) as Hs.
    apply sees_app in Hs. by rewrite Z.add_0_l in Hs.
  - intros m l r (done & Hl & -> & Hsz & Him & Hc). exists (done ++ [Nop]). rewrite map_app, <- !app_assoc. cbn [map adjust app].
    split_and!; try done. apply Forall_app. split; [done|]. by apply Forall_singleton.
  - intros m l k r Hk (done & Hl & -> & Hsz & Him & Hc). rewrite tree_focus in Him.
    rewrite Forall_forall in IH. specialize (IH k). rewrite forallb_forall in Hkids. specialize (Hkids k).
    assert (In k ks) as Hin by (rewrite <- Hl; apply in_or_app; right; by left).
    assert (length (flatten k) <= fuel)%nat as Hfk.
    { rewrite <- Hl in Hf. cbn [flatten length] in Hf. rewrite flat_map_app in Hf. cbn [flat_map] in Hf. rewrite !length_app in Hf. lia. }
    destruct (IH ltac:(by apply list_elem_of_In) fuel m _ _ Hk Hfk Him (Hkids Hin)) as (m' & Hm' & Hi' & Hc' & Hsz').
    exists m', (adjust delta k). split_and!.
    + destruct k; [done|]. done.
    + done.
    + rewrite <- Hm'. f_equal. cbn [kids_offset]. rewrite toks_size_app. cbn [toks_size]. rewrite toks_size_app. lia.
    + exists (done ++ [k]). rewrite map_app, <- !app_assoc. cbn [map app]. split_and!; [done|done| |by rewrite tree_focus|by eapply changes_trans].
      apply Forall_app. split; [done|]. by apply Forall_singleton.
  - exists []. split_and!; [done|done|by apply Forall_nil|exact Hi2|by eapply changes_trans].
  - rewrite app_nil_r in Hl. subst done. rewrite app_nil_r in Him. split_and!; [done|done|].
    apply dt_size_node; [done|by etransitivity; [exact Hs2|]|by apply adjust_kids_size].
Qed.

Lemma adjust_local_spec m n ps ks :
  intact m fdto T O S Sz (flatten (Node n ps ks)) -> adjustable delta (Node n ps ks) = true ->
  exists m', overlay_adjust_local_phandles m fdto delta = Ok (0, m') /\
    intact m' fdto T O S Sz (flatten (adjust delta (Node n ps ks))) /\ changes inside m m'.
Proof.
  intros Hi Hok. pose proof (sees_fuel (intact_header _ _ _ _ _ _ _ Hi) _ _ (intact_sees _ _ _ _ _ _ _ Hi)) as Hf.
  destruct (adjust_node_spec (Node n ps ks) (fdt_fuel m fdto) m [] []) as (m' & Hm' & Hi' & Hc & _); [done|lia|by rewrite app_nil_r|done|].
  exists m'. cbn [app toks_size] in *. rewrite app_nil_r in Hi'. done.
Qed.

End Adjust.

(** ** The nodes of a tree and their phandles *)

(** [fdt_get_phandle]: a property of another length counts as missing. *)
Definition four (v : option (list Z)) : option Z :=
  match v with
  | Some v => if len v =? 4 then Some (be_value v) else None
  | None => None
  end.

Definition phandle_by (get : list Z -> option (list Z)) : Z :=
  match four (get ph), four (get linux_ph) with
  | Some p, _ | None, Some p => p
  | None, None => 0
  end.

Definition phandle_of (ps : prop_list) : Z := phandle_by (fun s => find_prop s ps).

Definition value_at (ts : list token) (s : list Z) : option (list Z) :=
  match scan_prop s ts 0 with
  | inr (_, v) => Some v
  | inl _ => None
  end.

(** The nodes that [fdt_next_node] visits from [q] on: offset and phandle. *)
Fixpoint nodes (ts : list token) (q : Z) : list (Z * Z) :=
  match ts with
  | [] => []
  | TBegin n :: ts => (q, phandle_by (value_at ts)) :: nodes ts (q + tok_size (TBegin n))
  | t :: ts => nodes ts (q + tok_size t)
  end.

Fixpoint first_with (p : Z) (l : list (Z * Z)) : Z :=
  match l with
  | [] => - FDT_ERR_NOTFOUND
  | (q, x) :: l => if x =? p then q else first_with p l
  end.

(** The phandles of a tree, in the order of the blob. *)
Fixpoint phandles (t : dt) : list Z :=
  match t with
  | Nop => []
  | Node _ ps ks => phandle_of ps :: flat_map phandles ks
  end.

Definition max_step (acc p : Z) : Z := if negb (p =? 2 ^ 32 - 1) && (acc <? p) then p else acc.

(** [fdt_get_max_phandle]. *)
Definition max_phandle (t : dt) : Z := fold_left max_step (phandles t) 0.

(** [f] at the first node with the phandle [p]. *)
Fixpoint update_phandle (f : dt -> dt) (p : Z) (t : dt) : option dt :=
  match t with
  | Nop => None
  | Node n ps ks =>
      if phandle_of ps =? p then Some (f t)
      else Node n ps <$>
        (fix go ks := match ks with
                      | [] => None
                      | k :: ks => match update_phandle f p k with
                                   | Some k => Some (k :: ks)
                                   | None => cons k <$> go ks
                                   end
                      end) ks
  end.

Lemma scan_prop_at s ts q : 
  match scan_prop s ts q with
  | inr (q', v) => scan_prop s ts 0 = inr (q' - q, v)
  | inl e => scan_prop s ts 0 = inl e
  end.
Proof.
  assert (forall ts q q0, match scan_prop s ts (q + q0) with
    | inr (q', v) => scan_prop s ts q0 = inr (q' - q, v) | inl e => scan_prop s ts q0 = inl e end) as H.
  { clear. induction ts as [|t ts IH]; intros q q0; cbn [scan_prop]; [done|]. destruct t as [n| |n v|]; cbn [scan_prop]; try done.
    - destruct (bool_decide (n = s)); [repeat f_equal; lia|]. rewrite <- Z.add_assoc. apply IH.
    - rewrite <- Z.add_assoc. apply IH. }
  specialize (H ts q 0). by rewrite Z.add_0_r in H.
Qed.

Lemma value_at_props s ps ks ts : value_at (map prop_tok ps ++ flat_map flatten ks ++ TEndNode :: ts) s = find_prop s ps.
Proof.
  unfold value_at. pose proof (scan_prop_tree s ps ks ts 0) as Hp. destruct (scan_prop s _ _) as [err|[q v]]; [by destruct Hp|done].
Qed.

Section Nodes.
Context {m : mem} {fdt : Z} (Hh : header_ok m fdt).
#[local] Set Default Proof Using "All".

Lemma getprop_at q n ts s :
  sees m fdt q (TBegin n :: ts) ->
  exists p l, fdt_getprop m fdt q s = Ok (p, l) /\
    match value_at ts s with
    | Some v => p <> 0 /\ l = len v /\ load_bytes m p (length v) = v
    | None => p = 0
    end.
Proof.
  intros Hs. unfold fdt_getprop, fdt_getprop_namelen. rewrite (get_property_spec Hh s q n _ Hs), Ok_bind. unfold value_at.
  pose proof (scan_prop_at s ts (q + tok_size (TBegin n))) as Hat. apply sees_tail in Hs.
  destruct (scan_prop s ts (q + _)) as [err|[q' v]] eqn:Hsc; rewrite Hat; cbn [prop_result]; [by eexists _, _|].
  destruct (scan_prop_value Hh _ _ _ _ _ Hs Hsc) as [Hq' Hv]. pose proof (header_bounds Hh). pose proof (hdr_addr _ _ Hh).
  destruct (Z.eqb_spec (fdt + fdt_off_dt_struct m fdt + q') 0); [lia|]. eexists _, _. split; [done|]. split_and!; [unfold prop_data; lia|done|done].
Qed.

Lemma get_phandle_at q n ts : sees m fdt q (TBegin n :: ts) -> fdt_get_phandle m fdt q = Ok (phandle_by (value_at ts)).
Proof.
  intros Hs. unfold fdt_get_phandle, phandle_by. fold ph linux_ph.
  assert (forall s, exists p l, fdt_getprop m fdt q s = Ok (p, l) /\
    match four (value_at ts s) with Some x => (p =? 0) || negb (l =? 4) = false /\ fdt32_to_cpu (load32 m p) = x | None => (p =? 0) || negb (l =? 4) = true end) as Hg.
  { intros s. destruct (getprop_at q n ts s Hs) as (p & l & Hg & Hv). exists p, l. split; [done|].
    destruct (value_at ts s) as [v|]; cbn [four]; [|by subst p]. destruct Hv as (Hp & -> & Hv). destruct (Z.eqb_spec (len v) 4) as [Hl|]; [|by rewrite orb_true_r].
    destruct (Z.eqb_spec p 0); [done|]. split; [done|]. apply load_be_value; [done|]. unfold len in Hl. lia. }
  destruct (Hg ph) as (p1 & l1 & -> & H1). rewrite Ok_bind. destruct (four (value_at ts ph)); [by destruct H1 as [-> ->]|]. rewrite H1.
  destruct (Hg linux_ph) as (p2 & l2 & -> & H2). rewrite Ok_bind. destruct (four (value_at ts linux_ph)); [by destruct H2 as [-> ->]|]. by rewrite H2.
Qed.

Lemma max_phandle_loop_spec ts fuel q acc :
  sees m fdt q ts -> (length ts <= fuel)%nat ->
  max_phandle_loop fuel m fdt (to_node ts q None).1 acc = Ok (fold_left max_step (map snd (nodes ts q)) acc).
Proof.
  revert fuel q acc. induction ts as [|t ts IH]; intros fuel q acc Hs Hf; cbn [length] in Hf.
  - destruct fuel; reflexivity.
  - pose proof (sees_tail q t ts Hs) as Hs'. pose proof (sees_nonneg _ _ _ _ _ Hs).
    destruct t as [n| |n v|]; cbn [to_node nodes]; [|apply IH; auto with lia..]. cbn [fst map snd fold_left].
    destruct fuel as [|fuel]; [lia|]. cbn [max_phandle_loop]. destruct (Z.eqb_spec q (- FDT_ERR_NOTFOUND)) as [Hb|_]; [unfold FDT_ERR_NOTFOUND in Hb; lia|].
    destruct (Z.ltb_spec q 0); [lia|]. rewrite (get_phandle_at _ _ _ Hs), Ok_bind, (next_node_spec Hh _ _ _ _ Hs), Ok_bind.
    specialize (IH fuel _ (max_step acc (phandle_by (value_at ts))) Hs' ltac:(lia)). destruct (to_node ts _ None) as [q' d']. exact IH.
Qed.

Lemma by_phandle_loop_spec p ts fuel q :
  sees m fdt q ts -> (length ts <= fuel)%nat ->
  each_node fuel m fdt (to_node ts q None).1 (fun offset => x ← fdt_get_phandle m fdt offset; Ok (if x =? p then Some offset else None)) =
  Ok (first_with p (nodes ts q)).
Proof.
  revert fuel q. induction ts as [|t ts IH]; intros fuel q Hs Hf; cbn [length] in Hf.
  - destruct fuel; reflexivity.
  - pose proof (sees_tail q t ts Hs) as Hs'. pose proof (sees_nonneg _ _ _ _ _ Hs).
    destruct t as [n| |n v|]; cbn [to_node nodes]; [|apply IH; auto with lia..]. cbn [fst first_with].
    destruct fuel as [|fuel]; [lia|]. cbn [each_node].
    destruct (Z.ltb_spec q 0); [lia|]. rewrite (get_phandle_at _ _ _ Hs), !Ok_bind. destruct (_ =? p); [done|].
    rewrite (next_node_spec Hh _ _ _ _ Hs), Ok_bind.
    specialize (IH fuel _ Hs' ltac:(lia)). destruct (to_node ts _ None) as [q' d']. exact IH.
Qed.

Lemma get_max_phandle_at ts : sees m fdt 0 ts -> fdt_get_max_phandle m fdt = Ok (fold_left max_step (map snd (nodes ts 0)) 0).
Proof.
  intros Hs. unfold fdt_get_max_phandle. rewrite (next_node_first Hh _ _ _ Hs), Ok_bind by lia.
  pose proof (max_phandle_loop_spec ts (fdt_fuel m fdt) 0 0 Hs) as Hl. destruct (to_node ts 0 None). apply Hl.
  pose proof (sees_fuel Hh _ _ Hs). lia.
Qed.

Lemma by_phandle_at p ts :
  sees m fdt 0 ts -> p <> 0 -> p <> 2 ^ 32 - 1 -> fdt_node_offset_by_phandle m fdt p = Ok (first_with p (nodes ts 0)).
Proof.
  intros Hs H0 H1. unfold fdt_node_offset_by_phandle. destruct (Z.eqb_spec p 0); [done|]. destruct (Z.eqb_spec p (2 ^ 32 - 1)); [done|].
  cbn [orb]. rewrite (header_checked _ _ Hh). cbn [Z.eqb negb]. rewrite (next_node_first Hh _ _ _ Hs), Ok_bind by lia.
  pose proof (by_phandle_loop_spec p ts (fdt_fuel m fdt) 0 Hs) as Hl. destruct (to_node ts 0 None). apply Hl.
  pose proof (sees_fuel Hh _ _ Hs). lia.
Qed.

End Nodes.

Lemma nodes_props ps ts q : nodes (map prop_tok ps ++ ts) q = nodes ts (q + toks_size (map prop_tok ps)).
Proof.
  revert q. induction ps as [|[[n v]|] ps IH]; intros q; cbn [map prop_tok app nodes toks_size]; [by rewrite Z.add_0_r|by rewrite IH, Z.add_assoc..].
Qed.

Lemma nodes_phandles t ts q : map snd (nodes (flatten t ++ ts) q) = phandles t ++ map snd (nodes ts (q + dt_size t)).
Proof.
  unfold dt_size. revert ts q. induction t as [|n ps ks IH] using dt_ind'; intros ts q; [done|].
  assert (forall ts q, map snd (nodes (flat_map flatten ks ++ ts) q) =
    flat_map phandles ks ++ map snd (nodes ts (q + toks_size (flat_map flatten ks)))) as Hks.
  { clear -IH. induction IH as [|k ks Hk _ IH]; intros ts q; cbn [flat_map app toks_size]; [by rewrite Z.add_0_r|].
    rewrite <- !app_assoc, Hk, IH, toks_size_app, Z.add_assoc. done. }
  rewrite flatten_app. cbn [nodes map snd phandles]. rewrite nodes_props, Hks. cbn [nodes app]. unfold phandle_of, phandle_by.
  rewrite !value_at_props. do 4 f_equal. cbn [flatten toks_size]. rewrite !toks_size_app. cbn [toks_size tok_size]. lia.
Qed.

Lemma get_max_phandle_spec m fdt t : header_ok m fdt -> sees m fdt 0 (flatten t) -> fdt_get_max_phandle m fdt = Ok (max_phandle t).
Proof.
  intros Hh Hs. rewrite (get_max_phandle_at Hh _ Hs). pose proof (nodes_phandles t [] 0) as Hn. rewrite app_nil_r in Hn.
  rewrite Hn. cbn [nodes map]. by rewrite app_nil_r.
Qed.

(** ** Places in a tree *)

(** The node [x] is at the offset [q] of [t], and [upd] applies a function to it. *)
Definition spot (t : dt) (q : Z) (x : dt) (upd : (dt -> dt) -> option dt) : Prop :=
  x <> Nop /\ exists pre post, q = toks_size pre /\ flatten t = pre ++ flatten x ++ post /\
    forall f, f x <> Nop -> exists t', upd f = Some t' /\ t' <> Nop /\ flatten t' = pre ++ flatten (f x) ++ post.

Lemma spot_here n ps ks upd : (forall f, upd f = Some (f (Node n ps ks))) -> spot (Node n ps ks) 0 (Node n ps ks) upd.
Proof.
  intros Hu. split; [done|]. exists [], []. split_and!; [done|by rewrite app_nil_r|]. intros f Hf. eexists. split; [apply Hu|]. by rewrite app_nil_r.
Qed.

Lemma spot_kid n ps ks1 k ks2 q x upd upd' :
  spot k q x upd -> (forall f k', upd f = Some k' -> upd' f = Some (Node n ps (ks1 ++ k' :: ks2))) ->
  spot (Node n ps (ks1 ++ k :: ks2)) (tok_size (TBegin n) + toks_size (map prop_tok ps) + toks_size (flat_map flatten ks1) + q) x upd'.
Proof.
  intros (Hx & pre & post & -> & Hk & Hf) Hu. split; [done|]. pose proof (tree_focus [] n ps ks1) as Hfoc. cbn [app] in Hfoc.
  exists (TBegin n :: map prop_tok ps ++ flat_map flatten ks1 ++ pre), (post ++ flat_map flatten ks2 ++ [TEndNode]).
  split_and!.
  - cbn [toks_size]. rewrite !toks_size_app. lia.
  - specialize (Hfoc k ks2 []). rewrite app_nil_r in Hfoc. rewrite Hfoc, Hk. cbn [app]. by rewrite <- !app_assoc.
  - intros f Hne. destruct (Hf f Hne) as (k' & Hk' & _ & Hfl). eexists. split; [by apply Hu|]. split; [done|].
    specialize (Hfoc k' ks2 []). rewrite app_nil_r in Hfoc. rewrite Hfoc, Hfl. cbn [app]. by rewrite <- !app_assoc.
Qed.

(** [update_phandle] on a list of trees. *)
Fixpoint update_phandles (f : dt -> dt) (p : Z) (ks : list dt) : option (list dt) :=
  match ks with
  | [] => None
  | k :: ks => match update_phandle f p k with
               | Some k => Some (k :: ks)
               | None => cons k <$> update_phandles f p ks
               end
  end.

Lemma update_phandle_node f p n ps ks :
  update_phandle f p (Node n ps ks) =
  if phandle_of ps =? p then Some (f (Node n ps ks)) else Node n ps <$> update_phandles f p ks.
Proof.
  cbn [update_phandle]. destruct (phandle_of ps =? p); [done|]. f_equal.
  induction ks as [|k ks IH]; cbn [update_phandles]; [done|]. by rewrite IH.
Qed.

Definition finds_phandle (p : Z) (t : dt) : Prop :=
  (exists q x, spot t q x (fun f => update_phandle f p t) /\ forall ts q0, first_with p (nodes (flatten t ++ ts) q0) = q0 + q) \/
  (forall f, update_phandle f p t = None) /\
    forall ts q0, first_with p (nodes (flatten t ++ ts) q0) = first_with p (nodes ts (q0 + dt_size t)).

Lemma update_phandles_spec p ks : Forall (finds_phandle p) ks ->
  (exists ks1 k ks2 q x upd, ks = ks1 ++ k :: ks2 /\ spot k q x upd /\
     (forall f k', upd f = Some k' -> update_phandles f p ks = Some (ks1 ++ k' :: ks2)) /\
     forall ts q0, first_with p (nodes (flat_map flatten ks ++ ts) q0) = q0 + toks_size (flat_map flatten ks1) + q) \/
  (forall f, update_phandles f p ks = None) /\
    forall ts q0, first_with p (nodes (flat_map flatten ks ++ ts) q0) = first_with p (nodes ts (q0 + toks_size (flat_map flatten ks))).
Proof.
  induction 1 as [|k ks Hk _ IH]; [by right; split; [|intros ts q0; cbn [flat_map toks_size app]; rewrite Z.add_0_r]|].
  destruct Hk as [(q & x & Hsp & Hq)|[Hn Hq]].
  - left. exists [], k, ks, q, x, (fun f => update_phandle f p k). split_and!; [done|done| |].
    + intros f k' Hf. cbn [update_phandles]. by rewrite Hf.
    + intros ts q0. cbn [flat_map toks_size]. rewrite <- app_assoc, Hq. lia.
  - destruct IH as [(ks1 & k1 & ks2 & q & x & upd & -> & Hsp & Hu & Hq1)|[Hn1 Hq1]].
    + left. exists (k :: ks1), k1, ks2, q, x, upd. split_and!; [done|done| |].
      * intros f k' Hf. cbn [update_phandles]. by rewrite Hn, (Hu _ _ Hf).
      * intros ts q0. cbn [flat_map]. rewrite <- app_assoc, Hq, Hq1, toks_size_app. unfold dt_size. lia.
    + right. split; [intros f; cbn [update_phandles]; by rewrite Hn, Hn1|]. intros ts q0. cbn [flat_map].
      rewrite <- app_assoc, Hq, Hq1, toks_size_app, Z.add_assoc. done.
Qed.

Lemma update_phandle_spec p t : finds_phandle p t.
Proof.
  induction t as [|n ps ks IH] using dt_ind'; [right; by split|].
  pose proof (fun f => update_phandle_node f p n ps ks) as Hupd.
  assert (forall ts q0, first_with p (nodes (flatten (Node n ps ks) ++ ts) q0) = if phandle_of ps =? p then q0 else
    first_with p (nodes (flat_map flatten ks ++ TEndNode :: ts) (q0 + tok_size (TBegin n) + toks_size (map prop_tok ps)))) as Hnodes.
  { intros ts q0. rewrite flatten_app. cbn [nodes first_with]. rewrite nodes_props. unfold phandle_of, phandle_by. by rewrite !value_at_props. }
  destruct (phandle_of ps =? p).
  - left. exists 0, (Node n ps ks). split; [by apply spot_here|]. intros ts q0. rewrite Hnodes. lia.
  - destruct (update_phandles_spec p ks IH) as [(ks1 & k & ks2 & q & x & upd & -> & Hsp & Hu & Hq)|[Hn Hq]].
    + left. eexists _, x. split; [apply (spot_kid _ _ _ _ _ _ _ _ _ Hsp)|].
      * intros f k' Hf. by rewrite Hupd, (Hu _ _ Hf).
      * intros ts q0. rewrite Hnodes, Hq. lia.
    + right. split; [intros f; by rewrite Hupd, Hn|]. intros ts q0. rewrite Hnodes, Hq. cbn [nodes]. do 2 f_equal.
      unfold dt_size. cbn [flatten toks_size]. rewrite !toks_size_app. cbn [toks_size tok_size]. lia.
Qed.
