(* ===== verification/FdtOverlayProof.v ===== *)
(** * Flattened device trees: applying an overlay

    The target of a fragment, the merge of all fragments and [fdt_overlay_apply]:
    on a base tree and an overlay in two separate blobs, the base blob holds the
    merged tree afterwards. *)

From Stdlib Require Import Strings.String.
From S2P Require Import Prelude Mem Printf Inet LibcString Fdt FdtRo FdtSw FdtRw FdtProof FdtLookup FdtBuild FdtOverlay FdtEdit FdtMerge FdtPhandle.
#[local] Open Scope Z_scope.

(** ** Paths as bytes *)

(** The names of a path. *)
Fixpoint path_names (fuel : nat) (p : list Z) : list (list Z) :=
  match skip_slashes p, fuel with
  | [], _ | _, O => []
  | p, S fuel => let '(name, rest) := component p in name :: path_names fuel rest
  end.

(** [f] at the node of a path. *)
Fixpoint update_path (f : dt -> dt) (names : list (list Z)) (t : dt) : option dt :=
  match names, t with
  | [], _ => Some (f t)
  | s :: names, Node n ps ks => Node n ps <$> try_kid (update_path f names) s ks
  | _ :: _, Nop => None
  end.

Lemma skip_slashes_suffix p : exists l, p = l ++ skip_slashes p.
Proof.
  induction p as [|b p [l IH]]; [by exists []|]. cbn [skip_slashes]. destruct (b =? chr_slash); [|by exists []].
  exists (b :: l). cbn [app]. by rewrite <- IH.
Qed.

Lemma skip_slashes_head p b p' : skip_slashes p = b :: p' -> b <> chr_slash.
Proof. induction p as [|c p IH]; cbn [skip_slashes]; [done|]. destruct (Z.eqb_spec c chr_slash); [done|]. by intros [= <- <-]. Qed.

Lemma component_app p : p = (component p).1 ++ (component p).2.
Proof. unfold component. destruct (find_char chr_slash p); cbn [fst snd]; [by rewrite take_drop|by rewrite app_nil_r]. Qed.

Lemma component_progress b p : b <> chr_slash -> (length (component (b :: p)).2 <= length p)%nat.
Proof.
  intros Hb. unfold component. cbn [find_char]. destruct (Z.eqb_spec b chr_slash); [done|].
  destruct (find_char chr_slash p); cbn [fmap option_fmap option_map snd drop length]; [rewrite length_drop; lia|lia].
Qed.

Lemma path_loop_names m fdt (Hh : header_ok m fdt) fuel : forall p q t,
  tree_at m fdt q t -> Forall (fun b => b <> 0) p -> (length p <= fuel)%nat ->
  path_loop fuel m fdt q p = Ok (found (dt_lookup (path_names fuel p) q t)).
Proof.
  induction fuel as [|fuel IH]; intros p q t Ht Hz Hf; (destruct p as [|b p]; [done|]); [cbn [length] in Hf; lia|].
  cbn [path_loop path_names]. destruct (skip_slashes_suffix (b :: p)) as [l Hl].
  destruct (skip_slashes (b :: p)) as [|c p'] eqn:Hsk; [done|]. apply skip_slashes_head in Hsk.
  pose proof (component_app (c :: p')) as Happ. pose proof (component_progress c p' Hsk) as Hlen.
  destruct (component (c :: p')) as [name rest]. cbn [fst snd] in *. rewrite Happ in Hl.
  rewrite Hl, !Forall_app in Hz. destruct Hz as (_ & Hname & Hrest). rewrite (subnode_offset_finds Hh _ _ _ Ht Hname), Ok_bind.
  cbn [dt_lookup]. destruct (find_child name (dt_kids t) (kids_offset q t)) as [[q' t']|] eqn:Hfc; [|done].
  cbn [found mbind option_bind]. apply (find_child_at Hh) in Hfc as Ht'; [|done]. pose proof Ht' as [_ [ts Hs]].
  pose proof (sees_nonneg _ _ _ _ _ Hs). destruct (Z.ltb_spec q' 0); [lia|]. apply IH; [done|done|].
  apply (f_equal length) in Hl, Happ. rewrite !length_app in Hl. rewrite length_app in Happ. cbn [length] in *. lia.
Qed.

Lemma path_spot names : forall t q0, t <> Nop ->
  match dt_lookup names q0 t with
  | Some (q, x) => spot t (q - q0) x (fun f => update_path f names t)
  | None => forall f, update_path f names t = None
  end.
Proof.
  induction names as [|s names IH]; intros t q0 Ht; (destruct t as [|n ps ks]; [done|]); cbn [dt_lookup update_path dt_kids].
  - rewrite Z.sub_diag. by apply spot_here.
  - pose proof (find_child_split s ks (kids_offset q0 (Node n ps ks))) as Hfc. destruct (find_child s ks _) as [[q1 t1]|]; cbn [mbind option_bind].
    + destruct Hfc as (ks1 & ks2 & -> & Ht1 & -> & Hu). specialize (IH t1 (kids_offset q0 (Node n ps (ks1 ++ t1 :: ks2)) + toks_size (flat_map flatten ks1)) Ht1).
      destruct (dt_lookup names _ t1) as [[q t']|].
      * cbn [kids_offset] in *. eassert (Hq : q - q0 = _); [|rewrite Hq; apply (spot_kid _ _ _ _ _ _ _ _ _ IH)]; [lia|].
        intros f k' Hf. by rewrite Hu, Hf.
      * intros f. by rewrite Hu, IH.
    + intros f. by rewrite Hfc.
Qed.

(** ** The target of a fragment *)

(** The string that a value starts with. *)
Fixpoint c_str (v : list Z) : option (list Z) :=
  match v with
  | [] => None
  | b :: v => if b =? 0 then Some [] else cons b <$> c_str v
  end.

Lemma c_str_at m p v s : load_bytes m p (length v) = v -> c_str v = Some s -> string_at m p s.
Proof.
  revert p s. induction v as [|b v IH]; intros p s Hv Hs; cbn [c_str] in Hs; [done|]. cbn [length load_bytes] in Hv. injection Hv as Hb Hv.
  destruct (Z.eqb_spec b 0) as [->|Hb0].
  - injection Hs as <-. by apply string_at_nil.
  - destruct (c_str v) as [s'|]; [|done]. injection Hs as <-. apply string_at_cons. auto.
Qed.

Definition update_by_path (f : dt -> dt) (base : dt) (ps : prop_list) : option dt :=
  v ← find_prop (bytes_of "target-path") ps;
  path ← c_str v;
  if bool_decide (head path = Some chr_slash) then update_path f (path_names (length path) path) base else None.

(** [f] at the node of the base tree that a fragment with the properties [ps] has
    as its target.  A path that starts with an alias is left out. *)
Definition update_target (f : dt -> dt) (base : dt) (ps : prop_list) : option dt :=
  match find_prop (bytes_of "target") ps with
  | Some v =>
      if negb (len v =? 4) || (be_value v =? 2 ^ 32 - 1) then None
      else if be_value v =? 0 then update_by_path f base ps
      else update_phandle f (be_value v) base
  | None => update_by_path f base ps
  end.

Definition find_kid (s : list Z) (ks : list dt) : option dt := snd <$> find_child s ks 0.

(** One fragment of the overlay, and all of them. *)
Definition merge_fragment (base : dt) (fragment : dt) : option dt :=
  match fragment with
  | Nop => Some base
  | Node _ ps ks =>
      match find_kid (bytes_of "__overlay__") ks with
      | Some o => update_target (fun t => dt_merge t o) base ps
      | None => Some base
      end
  end.

Fixpoint merge_fragments (base : dt) (fragments : list dt) : option dt :=
  match fragments with
  | [] => Some base
  | fr :: fragments => base ← merge_fragment base fr; merge_fragments base fragments
  end.

Section Target.
Context {m : mem} {fdt fdto : Z} {base : dt} (Hh : header_ok m fdt) (Hs : sees m fdt 0 (flatten base)) (Hbase : base <> Nop).
Context {T O S Sz : Z} {pre post : list token} {n : list Z} {ps : prop_list} {ks : list dt}.
Context (Hi : intact m fdto T O S Sz (pre ++ flatten (Node n ps ks) ++ post)).
#[local] Set Default Proof Using "All".

Lemma target_path_spec f base' : update_by_path f base ps = Some base' ->
  exists q, ('(path, path_len) ← fdt_getprop m fdto (toks_size pre) (bytes_of "target-path");
      if path =? 0 then Ok (if path_len =? - FDT_ERR_NOTFOUND then - FDT_ERR_BADOVERLAY else path_len)
      else path ← c_string m path; fdt_path_offset (fdt_fuel m fdt) m fdt path) = Ok q /\
    0 <= q /\ exists x, spot base q x (fun f => update_by_path f base ps).
Proof.
  unfold update_by_path. pose proof (intact_getprop _ _ _ _ _ _ _ _ _ _ _ (bytes_of "target-path") Hi) as Hg.
  destruct (find_prop _ ps) as [v|]; [|done]. destruct Hg as (ps1 & ps2 & _ & _ & -> & Hv & Hp).
  cbn [mbind option_bind]. rewrite Ok_bind. set (p := fdto + O + _ + 12) in *. destruct (Z.eqb_spec p 0); [lia|].
  destruct (c_str v) as [path|] eqn:Hc; [|done]. cbn [mbind option_bind]. pose proof (c_str_at _ _ _ _ Hv Hc) as Hstr.
  rewrite (c_string_spec _ _ _ Hstr ltac:(lia)), Ok_bind. unfold fdt_path_offset, fdt_fuel. cbn [fdt_path_offset_namelen].
  rewrite (header_checked _ _ Hh). cbn [Z.eqb negb]. destruct (bool_decide _); [|done]. intros Hu.
  rewrite (path_loop_names _ _ Hh _ _ _ base (blob_tree Hh _ Hs Hbase) (string_nonzero _ _ _ Hstr)) by done.
  pose proof (path_spot (path_names (length path) path) base 0 Hbase) as Hsp.
  destruct (dt_lookup _ 0 base) as [[q t]|]; [|by rewrite Hsp in Hu]. rewrite Z.sub_0_r in Hsp.
  exists q. split; [done|]. split; [|by eexists]. destruct Hsp as (_ & pre' & _ & -> & _). apply toks_size_nonneg.
Qed.

Lemma get_target_spec f base' : update_target f base ps = Some base' ->
  exists q, overlay_get_target m fdt fdto (toks_size pre) = Ok q /\ 0 <= q /\ exists x, spot base q x (fun f => update_target f base ps).
Proof.
  unfold update_target, overlay_get_target, overlay_get_target_phandle.
  pose proof (intact_getprop _ _ _ _ _ _ _ _ _ _ _ (bytes_of "target") Hi) as Hg.
  destruct (find_prop (bytes_of "target") ps) as [v|].
  - destruct Hg as (ps1 & ps2 & _ & _ & -> & Hv & Hp). rewrite !Ok_bind. set (p := fdto + O + _ + 12) in *.
    destruct (Z.eqb_spec p 0); [lia|]. destruct (Z.eqb_spec (len v) 4) as [Hl|]; [|done]. cbn [orb negb].
    pose proof (load_be_value _ _ _ Hv ltac:(unfold len in Hl; lia)) as Hbe.
    destruct (Z.eqb_spec (be_value v) (2 ^ 32 - 1)) as [|Hne]; [done|].
    destruct (Z.eqb_spec (load32 m p) (2 ^ 32 - 1)) as [He|_]; [rewrite He in Hbe; by destruct Hne|].
    rewrite Ok_bind, Hbe. destruct (Z.eqb_spec (be_value v) (2 ^ 32 - 1)); [done|].
    destruct (Z.eqb_spec (be_value v) 0) as [|H0]; cbn [negb]; [apply target_path_spec|]. intros Hu.
    rewrite (by_phandle_at Hh _ _ Hs H0 Hne). destruct (update_phandle_spec (be_value v) base) as [(q & x & Hsp & Hq)|[Hn _]]; [|by rewrite Hn in Hu].
    specialize (Hq [] 0). rewrite app_nil_r, Z.add_0_l in Hq. rewrite Hq. exists q. split; [done|]. split; [|by exists x].
    destruct Hsp as (_ & pre' & _ & -> & _). apply toks_size_nonneg.
  - destruct Hg as [-> _]. rewrite !Ok_bind. cbn [Z.eqb]. change (0 =? 2 ^ 32 - 1) with false. cbn [negb]. apply target_path_spec.
Qed.

End Target.

(** ** All fragments *)

Lemma find_kid_split s ks q :
  match find_child s ks q with
  | Some (q', t) => find_kid s ks = Some t
  | None => find_kid s ks = None
  end.
Proof.
  unfold find_kid. generalize 0. revert q. induction ks as [|k ks IH]; intros q q0; cbn [find_child]; [done|]. destruct (selects s k); [done|]. apply IH.
Qed.

Lemma inner_cost_le n ps ks1 o ks2 : inner_cost o <= cost (flatten (Node n ps (ks1 ++ o :: ks2))).
Proof.
  pose proof (tree_focus [] n ps ks1 o ks2 []) as Hf. rewrite app_nil_r in Hf. cbn [app] in Hf. rewrite Hf.
  rewrite app_comm_cons, cost_app. cbn [app]. rewrite cost_app.
  pose proof (cost_nonneg (TBegin n :: map prop_tok ps ++ flat_map flatten ks1)). pose proof (cost_nonneg (flat_map flatten ks2 ++ [TEndNode])).
  assert (inner_cost o <= cost (flatten o)); [|lia]. destruct o as [|s ops oks]; [done|].
  rewrite inner_cost_kid. pose proof (toks_size_nonneg (flatten (Node s [] []))). unfold dt_size. lia.
Qed.

Lemma held_more m fdt T O U U' ts : U <= U' -> held m fdt T O U ts -> held m fdt T O U' ts.
Proof. intros HU (S & Sz & Hle & He). exists S, Sz. split; [lia|done]. Qed.

Section Merge.
Context (fdt T O fdto To Oo So Szo : Z) (on : list Z) (ops : prop_list) (oks : list dt).
Context (Hsep : fdt + T <= fdto \/ fdto + To <= fdt).
#[local] Set Default Proof Using "All".

Notation base_bytes := (fun x => fdt <= x < fdt + T).
Notation overlay m := (intact m fdto To Oo So Szo (flatten (Node on ops oks))).

Lemma merge_fragment_spec m0 U opre fn fps fks opost base base' :
  flatten (Node on ops oks) = opre ++ flatten (Node fn fps fks) ++ opost -> overlay m0 ->
  held m0 fdt T O U (flatten base) -> base <> Nop -> U + cost (flatten (Node fn fps fks)) <= T ->
  merge_fragment base (Node fn fps fks) = Some base' ->
  exists m, (overlay ← fdt_subnode_offset m0 fdto (toks_size opre) (bytes_of "__overlay__");
      if overlay =? - FDT_ERR_NOTFOUND then Ok (0, m0) else
      if overlay <? 0 then Ok (overlay, m0) else
      target ← overlay_get_target m0 fdt fdto (toks_size opre);
      if target <? 0 then Ok (target, m0) else
      overlay_apply_node (fdt_fuel m0 fdto) m0 fdt target fdto overlay) = Ok (0, m) /\
    held m fdt T O (U + cost (flatten (Node fn fps fks))) (flatten base') /\ base' <> Nop /\ changes base_bytes m0 m.
Proof.
  intros Hots Ho Hh Hb Hroom Hm. pose proof Ho as Ho'. rewrite Hots in Ho'.
  pose proof (intact_header _ _ _ _ _ _ _ Ho') as Hho. pose proof (intact_sees _ _ _ _ _ _ _ Ho') as Hso.
  pose proof (sees_fuel Hho _ _ Hso) as Hfuel. apply sees_app in Hso. rewrite Z.add_0_l in Hso.
  assert (tree_at m0 fdto (toks_size opre) (Node fn fps fks)) as Hat by (split; [done|by eexists]).
  unfold fdt_subnode_offset. rewrite (subnode_offset_finds Hho _ _ _ Hat) by (by repeat constructor). rewrite Ok_bind.
  cbn [merge_fragment] in Hm. cbn [dt_kids].
  pose proof (find_kid_split (bytes_of "__overlay__") fks (kids_offset (toks_size opre) (Node fn fps fks))) as Hk.
  pose proof (find_child_split (bytes_of "__overlay__") fks (kids_offset (toks_size opre) (Node fn fps fks))) as Hsplit.
  destruct (find_child _ fks _) as [[q o]|]; rewrite Hk in Hm; cbn [found].
  - destruct Hsplit as (ks1 & ks2 & -> & Hone & Hq & _).
    set (okpre := opre ++ TBegin fn :: map prop_tok fps ++ flat_map flatten ks1).
    assert (q = toks_size okpre) as ->.
    { rewrite Hq. unfold okpre. cbn [kids_offset]. rewrite toks_size_app. cbn [toks_size]. rewrite toks_size_app. lia. }
    pose proof (toks_size_nonneg okpre). destruct (Z.eqb_spec (toks_size okpre) (- FDT_ERR_NOTFOUND)) as [Hbad|_]; [unfold FDT_ERR_NOTFOUND in Hbad; lia|].
    destruct (Z.ltb_spec (toks_size okpre) 0); [lia|]. pose proof Hh as (S & Sz & HU & [Hi _ _ _ _]).
    destruct (get_target_spec (intact_header _ _ _ _ _ _ _ Hi) (intact_sees _ _ _ _ _ _ _ Hi) Hb Ho' _ _ Hm) as (tq & -> & Htq & x & Hx & pre & post & -> & Hfl & Hupd).
    destruct x as [|n ps ks]; [done|].
    rewrite Ok_bind. destruct (Z.ltb_spec (toks_size pre) 0); [lia|]. rewrite tree_focus in Hots, Hfuel. fold okpre in Hots, Hfuel.
    rewrite Hfl in Hh. pose proof (inner_cost_le fn fps ks1 o ks2) as Hcost.
    destruct (apply_node_spec fdt T O fdto To Oo So Szo (flatten (Node on ops oks)) Hsep o (fdt_fuel m0 fdto) m0 U okpre _ pre n ps ks post Hots Hone) as (m & Hap & Hh' & Hc);
      [rewrite !length_app in Hfuel; lia|done|done|lia|].
    exists m. split; [exact Hap|]. destruct (dt_merge_node n ps ks o) as (ps' & ks' & Hnode).
    destruct (Hupd (fun t => dt_merge t o)) as (t' & Ht' & Hne & Hfl'); [by rewrite Hnode|]. rewrite Hm in Ht'. injection Ht' as <-.
    rewrite Hfl'. split; [|done]. eapply held_more; [|exact Hh']. lia.
  - exists m0. change (- FDT_ERR_NOTFOUND =? - FDT_ERR_NOTFOUND) with true. cbn iota. split; [done|]. injection Hm as <-.
    split; [|split; [done|apply changes_refl]]. eapply held_more; [|exact Hh]. pose proof (cost_nonneg (flatten (Node fn fps fks))). lia.
Qed.

Lemma overlay_merge_spec m0 U base base' :
  overlay m0 -> held m0 fdt T O U (flatten base) -> base <> Nop -> merge_fragments base oks = Some base' ->
  U + cost (flat_map flatten oks) <= T ->
  exists m, overlay_merge m0 fdt fdto = Ok (0, m) /\ held m fdt T O (U + cost (flat_map flatten oks)) (flatten base') /\
    base' <> Nop /\ changes base_bytes m0 m.
Proof.
  intros Ho Hh Hb Hm Hroom. unfold overlay_merge.
  set (I := fun (m : mem) (l r : list dt) => l ++ r = oks /\ exists b, b <> Nop /\ merge_fragments b r = Some base' /\
    held m fdt T O (U + cost (flat_map flatten l)) (flatten b) /\ changes base_bytes m0 m).
  edestruct (each_subnode_spec fdto 0 on ops [] I) as (m & l & Hm' & Hl & b & Hbn & Hmb & Hhb & Hc); [| | | |exists m; split; [exact Hm'|]].
  - intros m l r (Hl & b & _ & _ & _ & Hc). rewrite Hl. apply (overlay_node fdt T O fdto To Oo So Szo (flatten (Node on ops oks)) Hsep m []); [|by rewrite app_nil_r].
    by apply (overlay_kept fdt T O fdto To Oo So Szo _ Hsep m0).
  - intros m l r (Hl & b & Hbn & Hmb & Hhb & Hc). split; [by rewrite <- app_assoc|]. exists b. split_and!; [done|done| |done].
    rewrite flat_map_app, cost_app. eapply held_more; [|exact Hhb]. pose proof (cost_nonneg (flat_map flatten [Nop])). lia.
  - intros m l [|fn fps fks] r Hne (Hl & b & Hbn & Hmb & Hhb & Hc); [done|]. cbn [merge_fragments] in Hmb.
    destruct (merge_fragment b (Node fn fps fks)) as [b1|] eqn:Hb1; [|done]. cbn [mbind option_bind] in Hmb.
    pose proof (tree_focus [] on ops l (Node fn fps fks) r []) as Hfoc. rewrite Hl, app_nil_r, app_nil_l in Hfoc.
    assert (cost (flat_map flatten oks) = cost (flat_map flatten l) + cost (flatten (Node fn fps fks)) + cost (flat_map flatten r)) as Hco.
    { rewrite <- Hl, flat_map_app, cost_app. cbn [flat_map]. rewrite cost_app. lia. }
    pose proof (cost_nonneg (flat_map flatten r)).
    destruct (merge_fragment_spec m _ _ fn fps fks _ b b1 Hfoc (overlay_kept fdt T O fdto To Oo So Szo _ Hsep _ _ Ho Hc) Hhb Hbn ltac:(lia) Hb1) as (m' & Hap & Hh' & Hbn' & Hc').
    exists m', (Node fn fps fks). split; [done|]. split; [done|]. split.
    { eassert (Hoff : kids_offset 0 (Node on ops []) + toks_size (flat_map flatten l) = _); [|rewrite Hoff; exact Hap].
      cbn [app kids_offset toks_size]. rewrite toks_size_app. lia. }
    split; [by rewrite <- app_assoc|]. exists b1. split_and!; [done|done| |by eapply changes_trans].
    rewrite flat_map_app, cost_app. cbn [flat_map]. rewrite app_nil_r, Z.add_assoc. done.
  - split; [done|]. exists base. split_and!; [done|done| |apply changes_refl]. eapply held_more; [|exact Hh]. unfold cost. cbn. lia.
  - rewrite app_nil_r in Hl. subst l. injection Hmb as <-. done.
Qed.

End Merge.
