(* ===== verification/FdtFixup.v ===== *)
(** * Flattened device trees: references of an overlay

    [overlay_update_local_references], which moves the references inside of the
    overlay along with its phandles, and [overlay_fixup_phandles], which fills in
    the phandles of the base tree that the overlay names by their labels.  Both
    read a node of the overlay and patch values of others. *)

From Stdlib Require Import Strings.String.
From S2P Require Import Prelude Mem Printf Inet LibcString Fdt FdtRo FdtSw FdtRw FdtProof FdtLookup FdtBuild FdtOverlay FdtEdit FdtMerge FdtPhandle FdtTheorems FdtOverlayProof.
#[local] Open Scope Z_scope.

(** ** Parts of a token list *)

(** The tokens [s] are at the offset [q] of [ts]. *)
Definition part (ts : list token) (q : Z) (s : list token) : Prop := exists pre post, ts = pre ++ s ++ post /\ q = toks_size pre.

Lemma toks_split (l1 l2 l3 l4 : list token) :
  l1 ++ l2 = l3 ++ l4 -> toks_size l1 <= toks_size l3 -> exists k, l3 = l1 ++ k /\ l2 = k ++ l4.
Proof.
  intros Heq Hle. apply app_eq_inv in Heq as [(k & -> & ->)|(k & -> & ->)]; [|by exists k]. exists [].
  rewrite toks_size_app in Hle. pose proof (toks_size_bounds k). destruct k; [|cbn [length] in *; lia]. by rewrite !app_nil_r.
Qed.

(** A part stays where it is when other tokens are replaced. *)
Lemma part_swap ts1 x y ts2 q s :
  part (ts1 ++ x ++ ts2) q s -> toks_size x = toks_size y ->
  toks_size ts1 + toks_size x <= q \/ q + toks_size s <= toks_size ts1 -> part (ts1 ++ y ++ ts2) q s.
Proof.
  intros (pre & post & Heq & ->) Hxy [Hle|Hle].
  - rewrite app_assoc in Heq. apply toks_split in Heq as (k & -> & ->); [|by rewrite toks_size_app].
    exists (ts1 ++ y ++ k), post. rewrite <- !app_assoc. split; [done|]. rewrite !toks_size_app. lia.
  - symmetry in Heq. rewrite app_assoc in Heq. apply toks_split in Heq as (k & -> & ->); [|by rewrite toks_size_app].
    exists pre, (k ++ y ++ ts2). by rewrite <- !app_assoc.
Qed.

Lemma part_part ts q a s b : part ts q (a ++ s ++ b) -> part ts (q + toks_size a) s.
Proof. intros (pre & post & -> & ->). exists (pre ++ a), (b ++ post). rewrite toks_size_app, <- !app_assoc. done. Qed.

Lemma part_sees m fdt T O S Sz ts q s : intact m fdt T O S Sz ts -> part ts q s -> header_ok m fdt /\ exists post, sees m fdt q (s ++ post).
Proof.
  intros Hi (pre & post & -> & ->). split; [by eapply intact_header|]. exists post. pose proof (intact_sees _ _ _ _ _ _ _ Hi) as Hs.
  apply sees_app in Hs. by rewrite Z.add_0_l in Hs.
Qed.

(** ** References inside of the overlay *)

(** The words of a fixup property. *)
Fixpoint words (v : list Z) : option (list Z) :=
  match v with
  | [] => Some []
  | b0 :: b1 :: b2 :: b3 :: v => cons (be_value [b0; b1; b2; b3]) <$> words v
  | _ => None
  end.

(** The phandles at the offsets [offs] of a value, moved by [delta]. *)
Fixpoint patch_words (delta : Z) (offs v : list Z) : option (list Z) :=
  match offs with
  | [] => Some v
  | off :: offs =>
      if off + 4 <=? len v then
        patch_words delta offs (patch (Z.to_nat off) (be32 (u32 (be_value (take 4 (drop (Z.to_nat off) v)) + delta))) v)
      else None
  end.

Definition ref_prop (delta : Z) (p : option (list Z * list Z)) (ps : prop_list) : option prop_list :=
  match p with
  | Some (s, fv) => offs ← words fv; v ← find_prop s ps; v ← patch_words delta offs v; Some (set_prop s v ps)
  | None => Some ps
  end.

Fixpoint ref_props (delta : Z) (fps ps : prop_list) : option prop_list :=
  match fps with
  | [] => Some ps
  | p :: fps => ps ← ref_prop delta p ps; ref_props delta fps ps
  end.

(** [overlay_update_local_node_references]: the node [t] and the node [fx] of the
    fixups. *)
Fixpoint refs (delta : Z) (t fx : dt) {struct fx} : option dt :=
  match fx, t with
  | Node _ fps fks, Node n ps ks =>
      ps ← ref_props delta fps ps;
      ks ← (fix go fks ks := match fks with
                             | [] => Some ks
                             | Nop :: fks => go fks ks
                             | (Node s _ _) as fk :: fks => ks ← try_kid (fun k => refs delta k fk) s ks; go fks ks
                             end) fks ks;
      Some (Node n ps ks)
  | _, _ => None
  end.

Fixpoint ref_kids (delta : Z) (fks ks : list dt) : option (list dt) :=
  match fks with
  | [] => Some ks
  | Nop :: fks => ref_kids delta fks ks
  | (Node s _ _) as fk :: fks => ks ← try_kid (fun k => refs delta k fk) s ks; ref_kids delta fks ks
  end.

Lemma refs_node delta fn fps fks n ps ks :
  refs delta (Node n ps ks) (Node fn fps fks) = ps ← ref_props delta fps ps; ks ← ref_kids delta fks ks; Some (Node n ps ks).
Proof.
  cbn [refs]. destruct (ref_props delta fps ps) as [ps'|]; [|done]. cbn [mbind option_bind]. f_equal.
  clear. revert ks. induction fks as [|[|s fps' fks'] fks IH]; intros ks; cbn [ref_kids]; [done|apply IH|].
  destruct (try_kid _ s ks) as [ks'|]; [|done]. cbn [mbind option_bind]. apply IH.
Qed.

Lemma words_length v offs : words v = Some offs -> length v = (4 * length offs)%nat.
Proof.
  revert v. induction offs as [|o offs IH]; intros [|b0 [|b1 [|b2 [|b3 v]]]] Hw; try done; cbn [words] in Hw.
  - by destruct (words v).
  - destruct (words v) as [offs'|] eqn:Hv; [|done]. injection Hw as _ ->. apply IH in Hv. cbn [length]. lia.
Qed.

Definition words_at (m : mem) (p : Z) (offs : list Z) : Prop :=
  forall i off, offs !! i = Some off -> fdt32_to_cpu (load32 m (p + 4 * Z.of_nat i)) = off.

Lemma load_words m p v offs : load_bytes m p (length v) = v -> words v = Some offs -> words_at m p offs.
Proof.
  revert p v. induction offs as [|o offs IH]; intros p v Hv Hw; [by intros i off Hi|].
  destruct v as [|b0 [|b1 [|b2 [|b3 v]]]]; try done. cbn [words] in Hw.
  destruct (words v) as [offs'|] eqn:Hv'; [|done]. injection Hw as Ho ->. cbn [length load_bytes] in Hv. injection Hv as H0 H1 H2 H3 Hv.
  intros [|i] off Hi; cbn in Hi.
  - injection Hi as <-. rewrite <- Ho, Z.add_0_r. apply load_be_value; [|done]. cbn [length load_bytes]. by rewrite H0, H1, H2, H3.
  - replace (p + 4 * Z.of_nat (S i)) with (p + 1 + 1 + 1 + 1 + 4 * Z.of_nat i) by lia. by apply (IH _ v).
Qed.

Lemma patch_words_length delta offs v v' : patch_words delta offs v = Some v' -> Forall (fun o => 0 <= o) offs -> length v' = length v.
Proof.
  revert v. induction offs as [|o offs IH]; intros v Hp Ho; cbn [patch_words] in Hp; [by injection Hp as ->|].
  apply Forall_cons in Ho as [Ho Hos]. destruct (Z.leb_spec (o + 4) (len v)) as [Hle|]; [|done]. apply IH in Hp; [|done].
  rewrite Hp. apply length_patch. rewrite length_be32. unfold len in Hle. lia.
Qed.

Lemma words_nonneg v offs : words v = Some offs -> Forall (fun o => 0 <= o) offs.
Proof.
  revert v. induction offs as [|o offs IH]; intros v Hw; [by apply Forall_nil|].
  destruct v as [|b0 [|b1 [|b2 [|b3 v]]]]; try done. cbn [words] in Hw.
  destruct (words v) as [offs'|] eqn:Hv; [|done]. injection Hw as <- ->. apply Forall_cons. split; [apply be_value_range|by apply (IH v)].
Qed.

Lemma replace_prop_twice s x y ps ps' : replace_prop s x ps = Some ps' -> replace_prop s y ps' = replace_prop s y ps.
Proof.
  revert ps'. induction ps as [|[[n w]|] ps IH]; intros ps' Hr; cbn [replace_prop] in Hr; [done|..].
  - destruct (bool_decide (n = s)) eqn:Hn.
    + injection Hr as <-. cbn [replace_prop]. by rewrite Hn, bool_decide_eq_true_2.
    + destruct (replace_prop s x ps) as [ps0|] eqn:Hr0; [|done]. injection Hr as <-. cbn [replace_prop]. rewrite Hn. by rewrite (IH ps0).
  - destruct (replace_prop s x ps) as [ps0|] eqn:Hr0; [|done]. injection Hr as <-. cbn [replace_prop]. by rewrite (IH ps0).
Qed.

Lemma set_prop_twice s x y ps : set_prop s y (set_prop s x ps) = set_prop s y ps.
Proof.
  unfold set_prop. pose proof (find_prop_split s ps) as Hsp. destruct (find_prop s ps) as [v|].
  - destruct Hsp as (ps1 & ps2 & _ & Hr & _). pose proof (replace_prop_twice s x y ps _ (Hr x)) as Ht. rewrite !Hr in *.
    cbn [default from_option id]. by rewrite Ht.
  - destruct Hsp as [Hr _]. rewrite !Hr. cbn [default from_option id replace_prop]. by rewrite bool_decide_eq_true_2.
Qed.

Lemma set_prop_same s v ps : find_prop s ps = Some v -> set_prop s v ps = ps.
Proof. intros Hv. destruct (set_prop_found s v ps Hv) as (ps1 & ps2 & Hps & ->). done. Qed.

Lemma load_word_in m p v off :
  load_bytes m p (length v) = v -> 0 <= off -> off + 4 <= len v ->
  fdt32_to_cpu (load32 m (p + off)) = be_value (take 4 (drop (Z.to_nat off) v)).
Proof.
  intros Hv H0 Hle. unfold len in Hle. set (w := take 4 (drop (Z.to_nat off) v)).
  assert (length w = 4%nat) as Hw by (unfold w; rewrite length_take, length_drop; lia). apply load_be_value; [|done].
  assert (v = take (Z.to_nat off) v ++ w ++ drop 4 (drop (Z.to_nat off) v)) as Hsplit by (unfold w; by rewrite take_drop, take_drop).
  rewrite Hsplit in Hv. apply load_bytes_part in Hv. rewrite length_take in Hv.
  replace (p + off) with (p + Z.of_nat (Z.to_nat off `min` length v)) by lia. done.
Qed.

Section Values.
Context (fdto T O S Sz delta : Z) (pre post : list token) (n : list Z) (ps : prop_list) (ks : list dt) (s v : list Z) (tree_val : Z).
Notation W y := (pre ++ flatten (Node n (set_prop s y ps) ks) ++ post).
Notation inside := (fun x => fdto <= x < fdto + T).
Context (Hread : forall m y, length y = length v -> intact m fdto T O S Sz (W y) -> load_bytes m tree_val (length y) = y).
#[local] Set Default Proof Using "All".

Lemma update_words_spec offs : forall m x x' fixup_val ret,
  length x = length v -> intact m fdto T O S Sz (W x) -> patch_words delta offs x = Some x' -> Forall (fun o => 0 <= o) offs ->
  (forall m y, length y = length v -> intact m fdto T O S Sz (W y) -> words_at m fixup_val offs) ->
  exists m' ret', update_words (length offs) m fdto (toks_size pre) s tree_val fixup_val delta ret = Ok (0, ret', m') /\
    (ret' = ret \/ ret' = 0) /\ intact m' fdto T O S Sz (W x') /\ changes inside m m'.
Proof.
  induction offs as [|off offs IH]; intros m x x' fixup_val ret Hx Hi Hp Ho Hat; cbn [patch_words length update_words] in *.
  - injection Hp as <-. exists m, ret. split_and!; [done|by left|done|apply changes_refl].
  - apply Forall_cons in Ho as [Ho Hos]. destruct (Z.leb_spec (off + 4) (len x)) as [Hle|]; [|done].
    pose proof (Hat m x Hx Hi 0%nat off eq_refl) as Hoff. rewrite Z.add_0_r in Hoff. rewrite Hoff.
    rewrite (load_word_in m tree_val x off (Hread _ _ Hx Hi) Ho Hle). set (w := be32 _) in *.
    destruct (inplace_spec _ _ _ _ _ _ _ _ _ _ _ s x off w Hi) as (m1 & -> & Hi1 & Hc1);
      [by rewrite find_set_prop, bool_decide_eq_true_2|done|exact Hle|apply be32_bytes|].
    rewrite Ok_bind. change (0 =? - FDT_ERR_NOSPACE) with false. cbn [Z.eqb negb]. rewrite set_prop_twice in Hi1.
    assert (length (patch (Z.to_nat off) w x) = length v) as Hlen by (rewrite length_patch; [done|unfold len in Hle; unfold w; rewrite length_be32; lia]).
    destruct (IH m1 _ x' (fixup_val + 4) 0 Hlen Hi1 Hp Hos) as (m' & ret' & -> & Hret & Hi' & Hc').
    { intros m' y Hy Hi' i o Hio. rewrite <- (Hat m' y Hy Hi' (Datatypes.S i) o Hio). do 2 f_equal. lia. }
    exists m', ret'. split_and!; [done|right; by destruct Hret|done|by eapply changes_trans].
Qed.

End Values.

(** A node at [q] and the tokens at [qF] do not overlap, or these are in its
    children. *)
Definition apart (q : Z) (n : list Z) (ps : prop_list) (qF sF : Z) : Prop := qF + sF <= q \/ kids_offset q (Node n ps []) <= qF.

Lemma value_split pre n ps ks post s v : find_prop s ps = Some v ->
  exists ts1 ts2, (forall y, pre ++ flatten (Node n (set_prop s y ps) ks) ++ post = ts1 ++ TProp s y :: ts2) /\
    toks_size pre <= toks_size ts1 /\ toks_size ts1 + tok_size (TProp s v) <= kids_offset (toks_size pre) (Node n ps []).
Proof.
  intros Hv. destruct (set_prop_found s v ps Hv) as (ps1 & ps2 & Hps & Hset).
  exists (pre ++ TBegin n :: map prop_tok ps1), (map prop_tok ps2 ++ flat_map flatten ks ++ TEndNode :: post). split_and!.
  - intros y. rewrite Hset, flatten_app, map_app, <- !app_assoc. done.
  - rewrite toks_size_app. pose proof (toks_size_nonneg (TBegin n :: map prop_tok ps1)). lia.
  - rewrite Hps. cbn [kids_offset]. rewrite toks_size_app, map_app, toks_size_app. cbn [map prop_tok toks_size].
    pose proof (toks_size_nonneg (map prop_tok ps2)). lia.
Qed.

Lemma set_prop_part pre n ps ks post s v y qF F :
  find_prop s ps = Some v -> length y = length v -> part (pre ++ flatten (Node n ps ks) ++ post) qF F ->
  apart (toks_size pre) n ps qF (toks_size F) -> part (pre ++ flatten (Node n (set_prop s y ps) ks) ++ post) qF F.
Proof.
  intros Hv Hy HF Ha. destruct (value_split pre n ps ks post s v Hv) as (ts1 & ts2 & HW & H1 & H2).
  rewrite <- (set_prop_same s v ps Hv) in HF. rewrite HW in HF. rewrite HW. apply (part_swap _ [TProp s v] [TProp s y]); [done|cbn; unfold len; by rewrite Hy|].
  cbn [toks_size]. unfold apart in Ha. lia.
Qed.

Lemma ref_prop_set delta p ps ps' : ref_prop delta p ps = Some ps' ->
  ps' = ps \/ exists s v y, find_prop s ps = Some v /\ length y = length v /\ ps' = set_prop s y ps.
Proof.
  destruct p as [[s fv]|]; cbn [ref_prop]; [|intros [= ->]; by left]. destruct (words fv) as [offs|] eqn:Hw; [|done]. cbn [mbind option_bind].
  destruct (find_prop s ps) as [v|] eqn:Hv; [|done]. cbn [mbind option_bind]. destruct (patch_words delta offs v) as [y|] eqn:Hp; [|done].
  cbn [mbind option_bind]. intros [= <-]. right. exists s, v, y. split_and!; [done| |done]. by eapply patch_words_length; [|eapply words_nonneg].
Qed.

Lemma ref_prop_part delta p pre n ps ps' ks post qF F :
  ref_prop delta p ps = Some ps' -> part (pre ++ flatten (Node n ps ks) ++ post) qF F -> apart (toks_size pre) n ps qF (toks_size F) ->
  part (pre ++ flatten (Node n ps' ks) ++ post) qF F /\ toks_size (map prop_tok ps') = toks_size (map prop_tok ps).
Proof.
  intros Hr HF Ha. destruct (ref_prop_set _ _ _ _ Hr) as [->|(s & v & y & Hv & Hy & ->)]; [done|].
  split; [by eapply set_prop_part|by eapply set_prop_size].
Qed.

Section Local.
Context (fdto T O S Sz delta : Z).
Notation inside := (fun x => fdto <= x < fdto + T).
#[local] Set Default Proof Using "All".

Lemma update_property_spec m pre n ps ps' ks post qp fs fv ret :
  intact m fdto T O S Sz (pre ++ flatten (Node n ps ks) ++ post) -> part (pre ++ flatten (Node n ps ks) ++ post) qp [TProp fs fv] ->
  apart (toks_size pre) n ps qp (toks_size [TProp fs fv]) -> ref_prop delta (Some (fs, fv)) ps = Some ps' ->
  exists m' ret', update_property m fdto (toks_size pre) delta ret qp = Ok (0, ret', m') /\ (ret' = ret \/ ret' = 0) /\
    intact m' fdto T O S Sz (pre ++ flatten (Node n ps' ks) ++ post) /\ changes inside m m'.
Proof.
  intros Hi HF Ha Hr. cbn [ref_prop] in Hr. destruct (words fv) as [offs|] eqn:Hw; [|done]. cbn [mbind option_bind] in Hr.
  destruct (find_prop fs ps) as [v|] eqn:Hv; [|done]. cbn [mbind option_bind] in Hr. destruct (patch_words delta offs v) as [x|] eqn:Hp; [|done].
  injection Hr as <-. pose proof HF as (fpre & fpost & Hts & ->). pose proof Hi as Hi'. rewrite Hts in Hi'. cbn [app] in Hi'.
  destruct (intact_prop _ _ _ _ _ _ _ _ _ _ Hi') as (fixup_val & name & Hg & Hfv & Hload & Hname & _).
  unfold update_property. rewrite Hg, Ok_bind. pose proof (in_addr _ _ _ _ _ _ _ Hi). pose proof (in_O _ _ _ _ _ _ _ Hi) as HO. unfold sizeof_fdt_header in HO.
  pose proof (toks_size_nonneg fpre). destruct (Z.eqb_spec fixup_val 0); [lia|]. pose proof (words_length _ _ Hw) as Hfl.
  pose proof (intact_prop_len _ _ _ _ _ _ _ _ _ _ Hi') as Hf31.
  unfold len in Hf31 |- *. rewrite !u64_small by lia. rewrite Hfl. replace (Z.of_nat (4 * length offs)) with (Z.of_nat (length offs) * 4) by lia.
  rewrite Z_mod_mult, Z_div_mult by lia. cbn [Z.eqb negb]. rewrite Hname, Ok_bind.
  pose proof (intact_getprop _ _ _ _ _ _ _ _ _ _ _ fs Hi) as Hgp. rewrite Hv in Hgp. destruct Hgp as (ps1 & ps2 & Hps & Hrep & -> & Hval & Hpos).
  rewrite Ok_bind. set (tree_val := fdto + O + toks_size (pre ++ _) + 12) in *. destruct (Z.eqb_spec tree_val 0); [lia|]. rewrite Nat2Z.id.
  assert (set_prop fs v ps = ps) as Hsame by (by apply set_prop_same).
  eapply (update_words_spec fdto T O S Sz delta pre post n ps ks fs v tree_val); [|exact eq_refl|by rewrite Hsame|done|by eapply words_nonneg|].
  - intros m1 y Hy Hi1. assert (set_prop fs y ps = ps1 ++ Some (fs, y) :: ps2) as Hset by (unfold set_prop; by rewrite Hrep).
    rewrite Hset, flatten_app, map_app, <- app_assoc in Hi1. cbn [map prop_tok app] in Hi1. rewrite app_comm_cons, app_assoc in Hi1.
    destruct (intact_prop _ _ _ _ _ _ _ _ _ _ Hi1) as (p & _ & _ & -> & Hl & _). exact Hl.
  - intros m1 y Hy Hi1. pose proof (set_prop_part _ _ _ _ _ _ _ _ _ _ Hv Hy HF Ha) as (fpre1 & fpost1 & Hts1 & Hq). rewrite Hts1 in Hi1. cbn [app] in Hi1.
    destruct (intact_prop _ _ _ _ _ _ _ _ _ _ Hi1) as (p & _ & _ & Hp1 & Hl & _). rewrite <- Hq, <- Hfv in Hp1. subst p. by apply (load_words _ _ fv).
Qed.

End Local.

Lemma find_child_selects s ks q q' t : find_child s ks q = Some (q', t) -> selects s t = true.
Proof. revert q. induction ks as [|k ks IH]; intros q; cbn [find_child]; [done|]. destruct (selects s k) eqn:Hk; [by intros [= <- <-]|apply IH]. Qed.

Lemma flat_map_size_swap ks1 k k' ks2 : dt_size k' = dt_size k ->
  toks_size (flat_map flatten (ks1 ++ k' :: ks2)) = toks_size (flat_map flatten (ks1 ++ k :: ks2)).
Proof. intros Hk. rewrite !flat_map_app, !toks_size_app. cbn [flat_map]. rewrite !toks_size_app. unfold dt_size in Hk. lia. Qed.

Section LocalNodes.
Context (fdto T O S Sz delta garbage : Z) (Hgarbage : garbage <> - FDT_ERR_NOTFOUND) (FX : dt) (qF : Z).
Notation inside := (fun x => fdto <= x < fdto + T).
Notation fixed ts := (part ts qF (flatten FX)).
#[local] Set Default Proof Using "All".

(** The node [fx] of the fixups is at [qx]. *)
Definition within (fx : dt) (qx : Z) : Prop := exists a b, flatten FX = a ++ flatten fx ++ b /\ qx = qF + toks_size a.

(** The tree [t] at [q] is outside of the fixups. *)
Definition clear_of (q : Z) (t : dt) : Prop := qF + dt_size FX <= q \/ q + dt_size t <= qF.

Lemma within_part ts fx qx : fixed ts -> within fx qx -> part ts qx (flatten fx).
Proof using. intros HF (a & b & Ha & ->). rewrite Ha in HF. by apply part_part in HF. Qed.

Lemma within_kid fn fps l k r qx :
  within (Node fn fps (l ++ k :: r)) qx -> within k (kids_offset qx (Node fn fps []) + toks_size (flat_map flatten l)).
Proof using.
  intros (a & b & Ha & ->). rewrite tree_focus in Ha. eexists _, _. split; [exact Ha|]. cbn [kids_offset].
  rewrite toks_size_app. cbn [toks_size]. rewrite toks_size_app. lia.
Qed.

Lemma within_prop ts fn l s v r fks qx : fixed ts -> within (Node fn (l ++ Some (s, v) :: r) fks) qx ->
  let qp := qx + tok_size (TBegin fn) + toks_size (map prop_tok l) in
  part ts qp [TProp s v] /\ qF <= qp /\ qp + toks_size [TProp s v] <= qF + dt_size FX.
Proof using.
  intros HF (a & b & Ha & ->) qp. rewrite flatten_app, map_app, <- app_assoc in Ha. cbn [map prop_tok app] in Ha. rewrite app_comm_cons, app_assoc in Ha.
  change (TProp s v :: map prop_tok r ++ ?x) with ([TProp s v] ++ map prop_tok r ++ x) in Ha.
  assert (qp = qF + toks_size (a ++ TBegin fn :: map prop_tok l)) as -> by (unfold qp; rewrite toks_size_app; cbn [toks_size]; lia).
  split_and!.
  - rewrite Ha in HF. by apply part_part in HF.
  - pose proof (toks_size_nonneg (a ++ TBegin fn :: map prop_tok l)). lia.
  - unfold dt_size. rewrite Ha, !(toks_size_app (a ++ _)), (toks_size_app [_]).
    pose proof (toks_size_nonneg (map prop_tok r ++ flat_map flatten fks ++ TEndNode :: b)). lia.
Qed.

Definition refs_ok (fx : dt) : Prop := forall fuel m pre n ps ks post qx t',
  (length (flatten fx) <= fuel)%nat -> intact m fdto T O S Sz (pre ++ flatten (Node n ps ks) ++ post) ->
  fixed (pre ++ flatten (Node n ps ks) ++ post) -> within fx qx -> clear_of (toks_size pre) (Node n ps ks) ->
  refs delta (Node n ps ks) fx = Some t' ->
  exists m', overlay_update_local_node_references garbage fuel m fdto (toks_size pre) qx delta = Ok (0, m') /\
    intact m' fdto T O S Sz (pre ++ flatten t' ++ post) /\ changes inside m m' /\ dt_size t' = dt_size (Node n ps ks).

(** One child of the fixups. *)
Lemma refs_kid_spec fuel m pre n ps ks post s fps fks qx ret ks' :
  refs_ok (Node s fps fks) -> (length (flatten (Node s fps fks)) <= fuel)%nat ->
  intact m fdto T O S Sz (pre ++ flatten (Node n ps ks) ++ post) -> fixed (pre ++ flatten (Node n ps ks) ++ post) ->
  within (Node s fps fks) qx -> ret <> - FDT_ERR_NOTFOUND -> try_kid (fun k => refs delta k (Node s fps fks)) s ks = Some ks' ->
  (forall ks1 k ks2, ks = ks1 ++ k :: ks2 -> selects s k = true ->
     clear_of (kids_offset (toks_size pre) (Node n ps []) + toks_size (flat_map flatten ks1)) k) ->
  exists m' ks1 k k' ks2,
    ('(fixup_child_name, _) ← fdt_get_name m fdto qx;
     fixup_child_name ← c_string m fixup_child_name;
     tree_child ← fdt_subnode_offset m fdto (toks_size pre) fixup_child_name;
     if ret =? - FDT_ERR_NOTFOUND then Ok (- FDT_ERR_BADOVERLAY, ret, m) else
     if tree_child <? 0 then Ok (tree_child, ret, m) else
     '(ret, m) ← overlay_update_local_node_references garbage fuel m fdto tree_child qx delta;
     Ok (ret, ret, m)) = Ok (0, 0, m') /\
    ks = ks1 ++ k :: ks2 /\ ks' = ks1 ++ k' :: ks2 /\ selects s k = true /\ dt_size k' = dt_size k /\
    intact m' fdto T O S Sz (pre ++ flatten (Node n ps ks') ++ post) /\ fixed (pre ++ flatten (Node n ps ks') ++ post) /\ changes inside m m'.
Proof.
  intros IH Hf Hi HF Hw Hret Htry Hclear. pose proof (within_part _ _ _ HF Hw) as Hpart. pose proof Hpart as (fpre & fpost & Hts & ->).
  pose proof Hi as Hi'. rewrite Hts, flatten_app in Hi'. destruct (intact_name _ _ _ _ _ _ _ _ _ Hi') as (p & l & -> & Hname & Hn). clear Hi'.
  rewrite Ok_bind, Hname, Ok_bind. pose proof (intact_header _ _ _ _ _ _ _ Hi) as Hh. pose proof (intact_sees _ _ _ _ _ _ _ Hi) as Hs.
  apply sees_app in Hs. rewrite Z.add_0_l in Hs.
  assert (tree_at m fdto (toks_size pre) (Node n ps ks)) as Hat by (split; [done|by eexists]).
  unfold fdt_subnode_offset. rewrite (subnode_offset_finds Hh _ _ s Hat) by (by apply is_name_nonzero). rewrite Ok_bind.
  cbn [dt_kids]. change (kids_offset _ (Node n ps ks)) with (kids_offset (toks_size pre) (Node n ps [])).
  pose proof (find_child_split s ks (kids_offset (toks_size pre) (Node n ps []))) as Hsp.
  destruct (find_child s ks _) as [[q k]|] eqn:Hfc; [|by rewrite Hsp in Htry]. apply find_child_selects in Hfc.
  destruct Hsp as (ks1 & ks2 & -> & Hk & -> & Htr). rewrite Htr in Htry. destruct (refs delta k (Node s fps fks)) as [k'|] eqn:Hr; [|done]. injection Htry as <-.
  cbn [found]. destruct (Z.eqb_spec ret (- FDT_ERR_NOTFOUND)); [done|]. specialize (Hclear ks1 k ks2 eq_refl Hfc).
  rewrite tree_focus in Hi, HF. set (kpre := pre ++ TBegin n :: map prop_tok ps ++ flat_map flatten ks1) in *.
  assert (kids_offset (toks_size pre) (Node n ps []) + toks_size (flat_map flatten ks1) = toks_size kpre) as Hq.
  { unfold kpre. cbn [kids_offset]. rewrite toks_size_app. cbn [toks_size]. rewrite toks_size_app. lia. }
  rewrite Hq in *. pose proof (toks_size_nonneg kpre). destruct (Z.ltb_spec (toks_size kpre) 0); [lia|]. destruct k as [|kn kps kks]; [done|].
  destruct (IH fuel m kpre kn kps kks _ _ k' Hf Hi HF Hw Hclear Hr) as (m' & -> & Hi' & Hc & Hsz). rewrite Ok_bind.
  exists m', ks1, (Node kn kps kks), k', ks2. rewrite tree_focus. fold kpre. split_and!; try done.
  apply (part_swap _ (flatten (Node kn kps kks))); [done|done|]. unfold clear_of, dt_size in *. lia.
Qed.

(** The properties of a node of the fixups. *)
Lemma refs_props_spec m0 pre n ps ks post fn fps fks qx ps' :
  intact m0 fdto T O S Sz (pre ++ flatten (Node n ps ks) ++ post) -> fixed (pre ++ flatten (Node n ps ks) ++ post) ->
  within (Node fn fps fks) qx -> apart (toks_size pre) n ps qF (dt_size FX) -> ref_props delta fps ps = Some ps' ->
  exists property m ret, fdt_first_property_offset m0 fdto qx = Ok property /\
    for_each_property (fdt_fuel m0 fdto) m0 fdto garbage property (fun m ret fixup_prop => update_property m fdto (toks_size pre) delta ret fixup_prop)
      = Ok (0, ret, m) /\ ret <> - FDT_ERR_NOTFOUND /\
    intact m fdto T O S Sz (pre ++ flatten (Node n ps' ks) ++ post) /\ fixed (pre ++ flatten (Node n ps' ks) ++ post) /\
    toks_size (map prop_tok ps') = toks_size (map prop_tok ps) /\ changes inside m0 m.
Proof.
  intros Hi HF Hw Ha Hr.
  set (I := fun (m : mem) (ret : Z) (r : prop_list) => exists ps1, ref_props delta r ps1 = Some ps' /\ (ret = garbage \/ ret = 0) /\
    intact m fdto T O S Sz (pre ++ flatten (Node n ps1 ks) ++ post) /\ fixed (pre ++ flatten (Node n ps1 ks) ++ post) /\
    toks_size (map prop_tok ps1) = toks_size (map prop_tok ps) /\ changes inside m0 m).
  destruct (for_properties_spec fdto qx fn fps fks I (fun m ret fixup_prop => update_property m fdto (toks_size pre) delta ret fixup_prop) m0 garbage)
    as (property & m & ret & Hp & Hl & ps1 & Hps & Hret & Hi1 & HF1 & Hsz & Hc).
  - intros m ret r (ps1 & _ & _ & Hi1 & HF1 & _). apply (part_sees _ _ _ _ _ _ _ _ _ Hi1). by apply within_part.
  - intros m ret r (ps1 & Hps & H). by exists ps1.
  - intros m ret l s v r Hfps (ps1 & Hps & Hret & Hi1 & HF1 & Hsz & Hc). cbn [ref_props] in Hps.
    destruct (ref_prop delta (Some (s, v)) ps1) as [ps2|] eqn:Hr1; [|done]. cbn [mbind option_bind] in Hps. rewrite Hfps in Hw.
    destruct (within_prop _ _ _ _ _ _ _ _ HF1 Hw) as (Hpart & Hlo & Hhi). set (qp := qx + _ + _) in *.
    assert (apart (toks_size pre) n ps1 qF (dt_size FX)) as Ha1 by (unfold apart in *; cbn [kids_offset] in *; lia).
    assert (apart (toks_size pre) n ps1 qp (toks_size [TProp s v])) as Hap by (unfold apart in *; lia).
    destruct (update_property_spec fdto T O S Sz delta _ _ _ _ _ _ _ _ _ _ ret Hi1 Hpart Hap Hr1) as (m2 & ret2 & Hm2 & Hret2 & Hi2 & Hc2).
    destruct (ref_prop_part _ _ _ _ _ _ _ _ _ _ Hr1 HF1 Ha1) as [HF2 Hsz2].
    exists m2, ret2. split; [done|]. exists ps2. split_and!; [done|destruct Hret2 as [-> | ->]; tauto|done|done|lia|by eapply changes_trans].
  - exists ps. split_and!; try done. by left.
  - injection Hps as ->. exists property, m, ret. split_and!; try done. destruct Hret as [-> | ->]; done.
Qed.

(** A node of the fixups, with a property [K] of the children of the tree node that
    tells those the fixups change from the fixups themselves. *)
Lemma refs_node_spec fuel m0 pre n ps ks post fn fps fks qx t' (K : list dt -> Prop) :
  Forall refs_ok fks -> (length (flatten (Node fn fps fks)) <= fuel)%nat ->
  intact m0 fdto T O S Sz (pre ++ flatten (Node n ps ks) ++ post) -> fixed (pre ++ flatten (Node n ps ks) ++ post) ->
  within (Node fn fps fks) qx -> apart (toks_size pre) n ps qF (dt_size FX) -> refs delta (Node n ps ks) (Node fn fps fks) = Some t' ->
  (forall s kps kks ks1 k ks2, In (Node s kps kks) fks -> K (ks1 ++ k :: ks2) -> selects s k = true ->
     clear_of (kids_offset (toks_size pre) (Node n ps []) + toks_size (flat_map flatten ks1)) k /\
     forall k', dt_size k' = dt_size k -> K (ks1 ++ k' :: ks2)) ->
  K ks ->
  exists m ps' ks', overlay_update_local_node_references garbage fuel m0 fdto (toks_size pre) qx delta = Ok (0, m) /\ t' = Node n ps' ks' /\
    intact m fdto T O S Sz (pre ++ flatten t' ++ post) /\ changes inside m0 m /\ K ks' /\
    toks_size (map prop_tok ps') = toks_size (map prop_tok ps) /\ dt_size t' = dt_size (Node n ps ks).
Proof.
  intros IH Hf Hi HF Hw Ha Hr HK HKks. destruct fuel as [|fuel]; [cbn [flatten length] in Hf; lia|]. rewrite refs_node in Hr.
  destruct (ref_props delta fps ps) as [ps'|] eqn:Hps; [|done]. cbn [mbind option_bind] in Hr.
  destruct (ref_kids delta fks ks) as [ks'|] eqn:Hks; [|done]. injection Hr as <-.
  destruct (refs_props_spec m0 pre n ps ks post fn fps fks qx ps' Hi HF Hw Ha Hps) as (property & m1 & ret1 & Hp1 & Hl1 & Hret1 & Hi1 & HF1 & Hsz1 & Hc1).
  cbn [overlay_update_local_node_references]. rewrite Hp1, Ok_bind, Hl1, Ok_bind. cbn [Z.eqb negb].
  set (I := fun (m : mem) (ret : Z) (l r : list dt) => l ++ r = fks /\ exists kk, ref_kids delta r kk = Some ks' /\ ret <> - FDT_ERR_NOTFOUND /\
    intact m fdto T O S Sz (pre ++ flatten (Node n ps' kk) ++ post) /\ fixed (pre ++ flatten (Node n ps' kk) ++ post) /\ K kk /\
    toks_size (flat_map flatten kk) = toks_size (flat_map flatten ks) /\ changes inside m0 m).
  edestruct (for_subnodes_spec fdto qx fn fps I) as (child & m & ret & l & Hch & Hl & Hll & kk & Hkk & _ & Hi2 & HF2 & HKk & Hsz2 & Hc2);
    [| | | |rewrite Hch, Ok_bind, Hl, Ok_bind].
  - intros m ret l r (-> & kk & _ & _ & Hi2 & HF2 & _). apply (part_sees _ _ _ _ _ _ _ _ _ Hi2). by apply within_part.
  - intros m ret l r (Hl & kk & Hkk & H). split; [by rewrite <- app_assoc|]. by exists kk.
  - intros m ret l [|s kps kks] r Hk (Hl & kk & Hkk & Hret & Hi2 & HF2 & HKk & Hsz2 & Hc2); [done|]. cbn [ref_kids] in Hkk.
    destruct (try_kid _ s kk) as [kk1|] eqn:Htry; [|done]. cbn [mbind option_bind] in Hkk.
    assert (In (Node s kps kks) fks) as Hin by (rewrite <- Hl; apply in_or_app; right; by left). rewrite Forall_forall in IH.
    rewrite <- Hl in Hw. apply within_kid in Hw.
    assert (length (flatten (Node s kps kks)) <= fuel)%nat as Hfk.
    { rewrite <- Hl in Hf. cbn [flatten length] in Hf. rewrite flat_map_app in Hf. cbn [flat_map flatten] in Hf. rewrite !length_app in Hf. cbn [flatten length] in *. rewrite !length_app in *. lia. }
    apply list_elem_of_In in Hin as Hel.
    destruct (refs_kid_spec fuel m pre n ps' kk post s kps kks _ ret kk1 (IH _ Hel) Hfk Hi2 HF2 Hw Hret Htry)
      as (m' & k1 & k & k' & k2 & Hb & -> & -> & Hsel & Hsz & Hi' & HF' & Hc').
    { intros k1 k k2 -> Hsel. destruct (HK s kps kks k1 k k2 Hin HKk Hsel) as [Hcl _]. cbn [kids_offset] in *. by rewrite Hsz1. }
    exists m', 0, (Node s kps kks). split; [done|]. split; [done|]. split; [exact Hb|]. split; [by rewrite <- app_assoc|].
    exists (k1 ++ k' :: k2). split_and!; try done; [by apply (HK s kps kks k1 k k2)|by rewrite (flat_map_size_swap _ _ _ _ Hsz)|by eapply changes_trans].
  - split; [done|]. exists ks. split_and!; try done.
  - rewrite app_nil_r in Hll. subst l. injection Hkk as ->. exists m, ps', ks'. split_and!; try done. by apply dt_size_node.
Qed.

Lemma refs_spec fx : refs_ok fx.
Proof.
  induction fx as [|fn fps fks IH] using dt_ind'; intros fuel m pre n ps ks post qx t' Hf Hi HF Hw Hcl Hr; [by destruct t'|].
  pose proof (toks_size_nonneg (flat_map flatten ks)) as Hks0.
  assert (kids_offset (toks_size pre) (Node n ps []) + toks_size (flat_map flatten ks) <= toks_size pre + dt_size (Node n ps ks) /\
    toks_size pre <= kids_offset (toks_size pre) (Node n ps [])) as [Hend Hbeg].
  { unfold dt_size. cbn [flatten kids_offset toks_size]. rewrite !toks_size_app. cbn [toks_size tok_size]. pose proof (toks_size_nonneg (map prop_tok ps)).
    pose proof (tok_size_bounds (TBegin n)). cbn [tok_size] in *. lia. }
  edestruct (refs_node_spec fuel m pre n ps ks post fn fps fks qx t' (fun kk => toks_size (flat_map flatten kk) = toks_size (flat_map flatten ks)))
    as (m' & ps' & ks' & Hm' & -> & Hi' & Hc & _ & _ & Hsz); [done|done|done|done|done| |done| |done|by exists m'].
  - unfold apart, clear_of in *. lia.
  - intros s kps kks ks1 k ks2 _ Hsz Hsel. split; [|intros k' Hk'; by rewrite (flat_map_size_swap _ _ _ _ Hk')].
    rewrite flat_map_app, toks_size_app in Hsz. cbn [flat_map] in Hsz. rewrite toks_size_app in Hsz.
    pose proof (toks_size_nonneg (flat_map flatten ks1)). pose proof (toks_size_nonneg (flat_map flatten ks2)). unfold clear_of, dt_size in *. lia.
Qed.

End LocalNodes.

(** No name in the fixups leads back to them. *)
Definition leads_away (FX : dt) : bool :=
  forallb (fun k => match k with Node s _ _ => negb (selects s FX) | Nop => true end) (dt_kids FX).

(** [overlay_update_local_references]. *)
Definition local_references (delta : Z) (ov : dt) : option dt :=
  match find_kid (bytes_of "__local_fixups__") (dt_kids ov) with
  | Some FX => if leads_away FX then refs delta ov FX else None
  | None => Some ov
  end.

(** The children around one that the name [s] does not select. *)
Lemma other_kid s ks1 k ks2 L F R :
  ks1 ++ k :: ks2 = L ++ F :: R -> selects s k = true -> selects s F = false ->
  (exists d, L = ks1 ++ k :: d /\ ks2 = d ++ F :: R) \/ (exists d, ks1 = L ++ F :: d /\ R = d ++ k :: ks2).
Proof.
  intros Heq Hk HF. apply app_eq_inv in Heq as [([|x d] & -> & Hd)|([|x d] & -> & Hd)]; cbn [app] in Hd; injection Hd as -> ->.
  - congruence.
  - right. by exists d.
  - congruence.
  - left. by exists d.
Qed.

Lemma leads_away_spec FX s ps ks : leads_away FX = true -> In (Node s ps ks) (dt_kids FX) -> selects s FX = false.
Proof.
  unfold leads_away. rewrite forallb_forall. intros Hl Hin. specialize (Hl _ Hin). cbn in Hl. by destruct (selects s FX).
Qed.

(** A node among the children of the root: its tokens, and what it takes to keep it. *)
Lemma kid_part n ps L F R : part (flatten (Node n ps (L ++ F :: R))) (kids_offset 0 (Node n ps []) + toks_size (flat_map flatten L)) (flatten F).
Proof.
  pose proof (tree_focus [] n ps L F R []) as Hf. rewrite app_nil_r, app_nil_l in Hf. eexists _, _. split; [exact Hf|].
  cbn [app kids_offset toks_size]. rewrite toks_size_app. lia.
Qed.

Lemma local_references_spec fdto T O S Sz delta garbage m n ps ks ov' :
  garbage <> - FDT_ERR_NOTFOUND -> intact m fdto T O S Sz (flatten (Node n ps ks)) -> local_references delta (Node n ps ks) = Some ov' ->
  exists m' ps' ks', overlay_update_local_references garbage m fdto delta = Ok (0, m') /\ ov' = Node n ps' ks' /\
    intact m' fdto T O S Sz (flatten ov') /\ changes (fun x => fdto <= x < fdto + T) m m'.
Proof.
  intros Hg Hi Hr. pose proof (intact_header _ _ _ _ _ _ _ Hi) as Hh. pose proof (intact_sees _ _ _ _ _ _ _ Hi) as Hs.
  unfold overlay_update_local_references. set (s := bytes_of "__local_fixups__") in *.
  change (bytes_of "/__local_fixups__") with (path_of [s] 0).
  rewrite (path_offset_found m fdto (Node n ps ks) [s] 0 (fdt_fuel m fdto)), Ok_bind; [|by split_and!| |done].
  2:{ apply Forall_cons. split; [|done]. split; [done|]. by repeat constructor. }
  cbn [dt_lookup dt_kids]. pose proof (find_kid_split s ks (kids_offset 0 (Node n ps ks))) as Hk.
  pose proof (find_child_split s ks (kids_offset 0 (Node n ps ks))) as Hsp. unfold local_references in Hr. cbn [dt_kids] in Hr. fold s in Hr.
  destruct (find_child s ks _) as [[q FX]|] eqn:Hfc; rewrite Hk in Hr; cbn [mbind option_bind found].
  - destruct (leads_away FX) eqn:Haway; [|done]. destruct Hsp as (L & R & -> & HFX & -> & _).
    change (kids_offset 0 (Node n ps (L ++ FX :: R))) with (kids_offset 0 (Node n ps [])).
    pose proof (kid_part n ps L FX R) as Hpart. set (qF := kids_offset 0 (Node n ps []) + toks_size (flat_map flatten L)) in *.
    assert (kids_offset 0 (Node n ps []) <= qF) as HqF by (pose proof (toks_size_nonneg (flat_map flatten L)); lia).
    assert (0 <= qF) by (destruct Hpart as (pre & _ & _ & ->); apply toks_size_nonneg).
    destruct (Z.ltb_spec qF 0); [lia|]. destruct FX as [|fn fps fks] eqn:HeqFX; [done|]. rewrite <- HeqFX in *.
    pose proof (sees_fuel Hh _ _ Hs) as Hfuel.
    destruct (refs_node_spec fdto T O S Sz delta garbage Hg FX qF (fdt_fuel m fdto) m [] n ps (L ++ FX :: R) [] fn fps fks qF ov'
      (fun kk => exists L' R', kk = L' ++ FX :: R' /\ toks_size (flat_map flatten L') = toks_size (flat_map flatten L)))
      as (m' & ps' & ks' & Hm' & -> & Hi' & Hc & _); rewrite ?app_nil_r; cbn [app]; try done.
    + apply Forall_forall. intros k _. by apply refs_spec.
    + destruct Hpart as (pre & post & Hfl & _). rewrite Hfl, HeqFX, !length_app in Hfuel. lia.
    + rewrite HeqFX. exists [], []. cbn [toks_size]. split; [by rewrite app_nil_r|lia].
    + right. exact HqF.
    + by rewrite <- HeqFX.
    + intros ks0 kps kks ks1 k ks2 Hin (L' & R' & Heq & Hsz) Hsel.
      assert (selects ks0 FX = false) as HnF by (apply (leads_away_spec _ _ kps kks Haway); by rewrite HeqFX).
      destruct (other_kid _ _ _ _ _ _ _ Heq Hsel HnF) as [(d & -> & ->)|(d & -> & ->)]; cbn [toks_size].
      * split; [right|intros k' Hk'; exists (ks1 ++ k' :: d), R'; rewrite <- app_assoc; split; [done|]; by rewrite (flat_map_size_swap _ _ _ _ Hk')].
        unfold qF. rewrite <- Hsz, flat_map_app, toks_size_app. cbn [flat_map]. rewrite toks_size_app.
        pose proof (toks_size_nonneg (flat_map flatten d)). unfold dt_size. lia.
      * split; [left|intros k' Hk'; exists L', (d ++ k' :: ks2); by rewrite <- app_assoc].
        unfold qF. rewrite flat_map_app, toks_size_app. cbn [flat_map]. rewrite toks_size_app, Hsz.
        pose proof (toks_size_nonneg (flat_map flatten d)). unfold dt_size. lia.
    + by exists L, R.
    + rewrite app_nil_r in Hi'. exists m', ps', ks'. done.
  - injection Hr as <-. exists m, ps, ks. split_and!; [done|done|done|apply changes_refl].
Qed.
