(* ===== verification/FdtSymbol.v ===== *)
(** * Flattened device trees: references of an overlay to the base tree

    [overlay_fixup_phandles]: each property of the node [__fixups__] is a label of
    the base tree with strings [path:property:offset], the places of the overlay
    that get the phandle of the label's node. *)

From Stdlib Require Import Strings.String.
From S2P Require Import Prelude Mem Printf Inet LibcString Fdt FdtRo FdtSw FdtRw FdtProof FdtLookup FdtBuild FdtOverlay FdtEdit FdtMerge FdtPhandle FdtTheorems FdtOverlayProof FdtFixup.
#[local] Open Scope Z_scope.

(** ** What the fixups say *)

Fixpoint fold_opt {A B} (f : A -> B -> option A) (a : A) (l : list B) : option A :=
  match l with
  | [] => Some a
  | b :: l => a ← f a b; fold_opt f a l
  end.

Definition decimal (acc : Z) (ds : list Z) : Z := fold_left (fun acc b => acc * 10 + (b - 48)) ds acc.

(** A string [path:property:offset]. *)
Definition parse_fixup (s : list Z) : option (list Z * list Z * Z) :=
  i ← find_char chr_colon s;
  let rest := drop (S i) s in
  j ← find_char chr_colon rest;
  let digits := drop (S j) rest in
  if (0 <? j)%nat && (0 <? length digits)%nat && forallb is_digit digits && (decimal 0 digits <? 2 ^ 31)
  then Some (take i s, take j rest, decimal 0 digits) else None.

(** The strings of a value. *)
Fixpoint strings (fuel : nat) (v : list Z) : option (list (list Z)) :=
  i ← find_char 0 v;
  match drop (S i) v, fuel with
  | [], _ => Some [take i v]
  | _, O => None
  | rest, S fuel => cons (take i v) <$> strings fuel rest
  end.

(** The phandle of a label of the base tree. *)
Definition symbol (base : dt) (label : list Z) : option Z :=
  '(_, symbols) ← dt_lookup [bytes_of "__symbols__"] 0 base;
  v ← find_prop label (dt_props symbols);
  path ← c_str v;
  if bool_decide (head path = Some chr_slash) then
    '(_, t) ← dt_lookup (path_names (length path) path) 0 base;
    if phandle_of (dt_props t) =? 0 then None else Some (phandle_of (dt_props t))
  else None.

(** [phandle] at the offset [off] of the property [name]. *)
Definition patch_node (name : list Z) (off phandle : Z) (t : dt) : option dt :=
  match t with
  | Node n ps ks =>
      v ← find_prop name ps;
      if off + 4 <=? len v then Some (Node n (set_prop name (patch (Z.to_nat off) (be32 phandle) v) ps) ks) else None
  | Nop => None
  end.

(** A path that does not lead to the node [FX] of the root. *)
Definition avoids (names : list (list Z)) (FX : dt) : bool :=
  match names with
  | [] => true
  | s :: _ => negb (selects s FX)
  end.

Definition fixup_string (FX base : dt) (label : list Z) (ov : dt) (s : list Z) : option dt :=
  '(path, name, off) ← parse_fixup s;
  phandle ← symbol base label;
  let names := path_names (length path) path in
  if bool_decide (head path = Some chr_slash) && avoids names FX then
    '(_, t) ← dt_lookup names 0 ov;
    t ← patch_node name off phandle t;
    update_path (fun _ => t) names ov
  else None.

Definition fixup_prop (FX base ov : dt) (p : option (list Z * list Z)) : option dt :=
  match p with
  | Some (label, v) => ss ← strings (length v) v; fold_opt (fixup_string FX base label) ov ss
  | None => Some ov
  end.

(** [overlay_fixup_phandles]. *)
Definition external_references (base ov : dt) : option dt :=
  match find_kid (bytes_of "__fixups__") (dt_kids ov) with
  | Some FX => fold_opt (fixup_prop FX base) ov (dt_props FX)
  | None => Some ov
  end.

(** ** Strings in memory *)

Lemma find_char_split c s i : find_char c s = Some i -> s = take i s ++ c :: drop (S i) s /\ (i < length s)%nat.
Proof.
  revert i. induction s as [|b s IH]; intros i Hf; cbn [find_char] in Hf; [done|]. destruct (Z.eqb_spec b c) as [->|].
  - injection Hf as <-. cbn. split; [done|lia].
  - destruct (find_char c s) as [k|] eqn:Hk; [|done]. injection Hf as <-. destruct (IH k eq_refl) as [Hs Hl]. cbn [take drop app length].
    split; [by f_equal|lia].
Qed.

Lemma memchr_find m p c n : 0 <= c < 128 ->
  Libc.memchr m p c n = match find_char c (load_bytes m p n) with Some i => p + Z.of_nat i | None => 0 end.
Proof.
  intros Hc. revert p. induction n as [|n IH]; intros p; cbn [Libc.memchr load_bytes find_char]; [done|].
  assert ((Libc.s8 (load8 m p) =? c) = (load8 m p =? c)) as ->.
  { pose proof (load8_range m p). unfold Libc.s8. destruct (Z.ltb_spec (load8 m p) (2 ^ 7)); [done|].
    destruct (Z.eqb_spec (load8 m p - 2 ^ 8) c), (Z.eqb_spec (load8 m p) c); lia. }
  destruct (load8 m p =? c); [lia|]. rewrite IH. destruct (find_char c (load_bytes m (p + 1) n)); cbn [fmap option_fmap option_map]; lia.
Qed.

Lemma string_at_suffix m p a b : string_at m p (a ++ b) -> string_at m (p + len a) b.
Proof.
  unfold len. revert p. induction a as [|x a IH]; intros p Hs; [by rewrite Z.add_0_r|]. apply string_at_cons in Hs as (_ & _ & Hs).
  apply IH in Hs. cbn [length]. by replace (p + Z.of_nat (S (length a))) with (p + 1 + Z.of_nat (length a)) by lia.
Qed.

Lemma read_digits_spec m ds : forall fuel p acc, string_at m p ds -> forallb is_digit ds = true -> (length ds <= fuel)%nat ->
  read_digits fuel m p acc = Ok (decimal acc ds, p + len ds).
Proof.
  induction ds as [|d ds IH]; intros fuel p acc Hs Hd Hf.
  - apply string_at_nil in Hs. destruct fuel; cbn [read_digits]; rewrite Hs; unfold len; cbn; by rewrite Z.add_0_r.
  - apply string_at_cons in Hs as (Hb & _ & Hs). cbn [forallb] in Hd. apply andb_prop in Hd as [Hd Hds]. cbn [length] in Hf.
    destruct fuel as [|fuel]; [lia|]. cbn [read_digits]. rewrite Hb, Hd, (IH fuel _ _ Hs Hds) by lia. cbn [decimal fold_left].
    f_equal. f_equal. unfold len. cbn [length]. lia.
Qed.

Lemma decimal_nonneg ds : forall acc, 0 <= acc -> forallb is_digit ds = true -> 0 <= decimal acc ds.
Proof.
  induction ds as [|d ds IH]; intros acc Ha Hd; [done|]. cbn [forallb] in Hd. apply andb_prop in Hd as [Hd Hds].
  unfold is_digit in Hd. cbn [decimal fold_left]. apply IH; [lia|done].
Qed.

Lemma strtoul_spec m p ds :
  string_at m p ds -> forallb is_digit ds = true -> (0 < length ds)%nat -> decimal 0 ds < 2 ^ 31 -> strtoul m p = Ok (decimal 0 ds, p + len ds).
Proof.
  intros Hs Hd Hne Hlt. pose proof (decimal_nonneg ds 0 ltac:(lia) Hd).
  destruct (string_exists m p) as (ds' & Hs' & Hl). rewrite <- (string_at_unique _ _ _ _ Hs Hs') in Hl.
  destruct ds as [|d ds]; [cbn in Hne; lia|]. pose proof Hs as (Hb & _ & _)%string_at_cons. pose proof Hd as [Hd0 _]%andb_prop. unfold is_digit in Hd0.
  assert (is_space d = false /\ (d =? 43) || (d =? 45) = false /\ (d =? 45) = false) as (H1 & H2 & H3) by (unfold is_space; lia).
  unfold strtoul. assert (skip_spaces (size m) m p = Ok p) as -> by (destruct (size m); cbn [skip_spaces]; by rewrite Hb, H1).
  rewrite Ok_bind, Hb, H2, (read_digits_spec _ _ _ _ _ Hs Hd Hl), Ok_bind. unfold len in *.
  destruct (Z.eqb_spec (p + Z.of_nat (length (d :: ds))) p); [cbn [length] in *; lia|]. unfold ULONG_MAX.
  destruct (Z.ltb_spec (2 ^ 64 - 1) (decimal 0 (d :: ds))); [lia|]. by rewrite H3.
Qed.

(** ** One reference *)

(** An absolute path in a blob. *)
Lemma path_offset_absolute m fdt t path fuel : blob m fdt t -> Forall (fun b => b <> 0) path -> head path = Some chr_slash ->
  fdt_path_offset_namelen fuel m fdt path = Ok (found (dt_lookup (path_names (length path) path) 0 t)).
Proof.
  intros (Hh & Hs & Ht) Hz Hhd. destruct fuel; cbn [fdt_path_offset_namelen]; rewrite (header_checked _ _ Hh), bool_decide_eq_true_2 by done;
    cbn [Z.eqb negb]; apply (path_loop_names _ _ Hh); [by apply blob_tree|done|done|by apply blob_tree|done|done].
Qed.

Lemma found_nonneg m fdt t names q x : blob m fdt t -> dt_lookup names 0 t = Some (q, x) -> tree_at m fdt q x /\ 0 <= q.
Proof.
  intros (Hh & Hs & Ht) Hl. pose proof (lookup_at _ _ Hh _ _ _ _ _ (blob_tree Hh _ Hs Ht) Hl) as Hat. split; [done|].
  destruct Hat as [_ [ts Hs']]. by apply (sees_nonneg _ _ _ _ _ Hs').
Qed.

Lemma get_phandle_spec m fdt q t : header_ok m fdt -> tree_at m fdt q t -> fdt_get_phandle m fdt q = Ok (phandle_of (dt_props t)).
Proof.
  intros Hh [Ht [ts Hs]]. destruct t as [|n ps ks]; [done|]. rewrite flatten_app in Hs. rewrite (get_phandle_at Hh _ _ _ Hs).
  unfold phandle_of, phandle_by. cbn [dt_props]. by rewrite !value_at_props.
Qed.

Lemma update_path_spot names t q x : t <> Nop -> dt_lookup names 0 t = Some (q, x) -> spot t q x (fun f => update_path f names t).
Proof. intros Ht Hl. pose proof (path_spot names t 0 Ht) as Hsp. by rewrite Hl, Z.sub_0_r in Hsp. Qed.

Section Symbols.
Context (fdt fdto T O S Sz : Z) (base : dt).
Notation inside := (fun x => fdto <= x < fdto + T).
#[local] Set Default Proof Using "All".

(** The offset of the symbols, as [overlay_fixup_phandles] computes it. *)
Definition symbols_at (symbols_off : Z) : Prop := symbols_off = found (dt_lookup [bytes_of "__symbols__"] 0 base).

Lemma symbol_spec m symbols_off label ph :
  blob m fdt base -> symbols_at symbols_off -> symbol base label = Some ph ->
  0 <= symbols_off /\ ph <> 0 /\ exists p l spath q, fdt_getprop m fdt symbols_off label = Ok (p, l) /\ p <> 0 /\ c_string m p = Ok spath /\
    fdt_path_offset (fdt_fuel m fdt) m fdt spath = Ok q /\ 0 <= q /\ fdt_get_phandle m fdt q = Ok ph.
Proof.
  intros Hb Hsym Hspec. unfold symbols_at in Hsym. unfold symbol in Hspec.
  destruct (dt_lookup [bytes_of "__symbols__"] 0 base) as [[qs syms]|] eqn:Hls; [|done]. cbn [found mbind option_bind] in Hsym, Hspec. subst qs.
  destruct (found_nonneg _ _ _ _ _ _ Hb Hls) as [Hats Hs0]. pose proof Hb as (Hh & _ & _). pose proof (getprop_finds Hh _ _ label Hats) as Hg.
  destruct (find_prop label (dt_props syms)) as [v|]; [|done]. cbn [mbind option_bind] in Hspec. destruct Hg as (p & Hp & Hg & Hv).
  destruct (c_str v) as [spath|] eqn:Hc; [|done]. cbn [mbind option_bind] in Hspec. pose proof (c_str_at _ _ _ _ Hv Hc) as Hstr.
  destruct (bool_decide_reflect (head spath = Some chr_slash)) as [Hhd|]; [|done].
  pose proof (path_offset_absolute m fdt base spath (fdt_fuel m fdt) Hb (string_nonzero _ _ _ Hstr) Hhd) as Hpath.
  destruct (dt_lookup (path_names _ spath) 0 base) as [[q t]|] eqn:Hl; [|done]. cbn [found mbind option_bind] in Hpath, Hspec.
  destruct (found_nonneg _ _ _ _ _ _ Hb Hl) as [Hat Hq]. destruct (Z.eqb_spec (phandle_of (dt_props t)) 0); [done|]. injection Hspec as <-.
  split; [done|]. split; [done|]. exists p, (len v), spath, q. split_and!; try done; [by apply c_string_spec|by apply get_phandle_spec].
Qed.

Lemma fixup_one_phandle_spec m symbols_off path name off label ph ov q n ps ks v ov' :
  let names := path_names (length path) path in
  blob m fdt base -> symbols_at symbols_off -> ov <> Nop -> intact m fdto T O S Sz (flatten ov) ->
  Forall (fun b => b <> 0) path -> head path = Some chr_slash -> symbol base label = Some ph -> dt_lookup names 0 ov = Some (q, Node n ps ks) ->
  find_prop name ps = Some v -> 0 <= off -> off + 4 <= len v ->
  update_path (fun _ => Node n (set_prop name (patch (Z.to_nat off) (be32 ph) v) ps) ks) names ov = Some ov' ->
  exists m', overlay_fixup_one_phandle m fdt fdto symbols_off path name off label = Ok (0, m') /\
    intact m' fdto T O S Sz (flatten ov') /\ changes inside m m'.
Proof.
  intros names Hb Hsym Hov Hi Hz Hhd Hsy Hl Hv H0 Hoff Hu.
  destruct (symbol_spec _ _ _ _ Hb Hsym Hsy) as (Hs0 & Hph & p & l & spath & sq & Hg & Hp & Hstr & Hpo & Hsq & Hgp).
  unfold overlay_fixup_one_phandle. destruct (Z.ltb_spec symbols_off 0); [lia|]. rewrite Hg, Ok_bind. destruct (Z.eqb_spec p 0); [done|].
  rewrite Hstr, Ok_bind, Hpo, Ok_bind. destruct (Z.ltb_spec sq 0); [lia|]. rewrite Hgp, Ok_bind. destruct (Z.eqb_spec ph 0); [done|].
  assert (blob m fdto ov) as Hbo by (split_and!; [by eapply intact_header|by eapply intact_sees|done]).
  rewrite (path_offset_absolute m fdto ov path (fdt_fuel m fdto) Hbo Hz Hhd), Ok_bind. fold names. rewrite Hl. cbn [found].
  destruct (update_path_spot _ _ _ _ Hov Hl) as (_ & pre & post & -> & Hfl & Hupd). pose proof (toks_size_nonneg pre).
  destruct (Z.eqb_spec (toks_size pre) (- FDT_ERR_NOTFOUND)) as [Hbad|_]; [unfold FDT_ERR_NOTFOUND in Hbad; lia|].
  destruct (Z.ltb_spec (toks_size pre) 0); [lia|]. rewrite Hfl in Hi. pose proof (intact_value _ _ _ _ _ _ _ _ _ _ _ _ _ Hi Hv). rewrite u32_small by lia.
  destruct (inplace_spec _ _ _ _ _ _ _ _ _ _ _ name v off (be32 ph) Hi Hv H0) as (m' & -> & Hi' & Hc); [done|apply be32_bytes|].
  exists m'. split; [done|]. split; [|done]. destruct (Hupd (fun _ => Node n (set_prop name (patch (Z.to_nat off) (be32 ph) v) ps) ks)) as (t' & Ht' & _ & Hfl'); [done|].
  rewrite Hu in Ht'. injection Ht' as <-. by rewrite Hfl'.
Qed.

(** What a fixup string needs. *)
Lemma fixup_string_inv FX label ov s ov' : fixup_string FX base label ov s = Some ov' ->
  exists path name off ph q n ps ks v, parse_fixup s = Some (path, name, off) /\ symbol base label = Some ph /\
    let names := path_names (length path) path in
    head path = Some chr_slash /\ avoids names FX = true /\ dt_lookup names 0 ov = Some (q, Node n ps ks) /\ find_prop name ps = Some v /\
    off + 4 <= len v /\ update_path (fun _ => Node n (set_prop name (patch (Z.to_nat off) (be32 ph) v) ps) ks) names ov = Some ov'.
Proof using.
  unfold fixup_string. destruct (parse_fixup s) as [[[path name] off]|]; [|done]. cbn [mbind option_bind].
  destruct (symbol base label) as [ph|]; [|done]. cbn [mbind option_bind]. destruct (bool_decide_reflect (head path = Some chr_slash)) as [Hhd|]; [|done].
  cbn [andb]. destruct (avoids _ FX) eqn:Hav; [|done]. destruct (dt_lookup _ 0 ov) as [[q [|n ps ks]]|] eqn:Hl; cbn [mbind option_bind patch_node]; [done| |done].
  destruct (find_prop name ps) as [v|] eqn:Hv; [|done]. cbn [mbind option_bind]. destruct (Z.leb_spec (off + 4) (len v)); [|done]. cbn [mbind option_bind].
  intros Hu. by exists path, name, off, ph, q, n, ps, ks, v.
Qed.

Lemma parse_fixup_inv s path name off : parse_fixup s = Some (path, name, off) ->
  exists digits, s = path ++ chr_colon :: name ++ chr_colon :: digits /\ find_char chr_colon s = Some (length path) /\
    find_char chr_colon (name ++ chr_colon :: digits) = Some (length name) /\ (0 < length name)%nat /\ (0 < length digits)%nat /\
    forallb is_digit digits = true /\ off = decimal 0 digits /\ off < 2 ^ 31.
Proof using.
  unfold parse_fixup. destruct (find_char chr_colon s) as [i|] eqn:Hi; [|done]. cbn [mbind option_bind].
  destruct (find_char_split _ _ _ Hi) as [Hs Hil]. set (rest := drop (Datatypes.S i) s) in *. destruct (find_char chr_colon rest) as [j|] eqn:Hj; [|done].
  cbn [mbind option_bind]. destruct (find_char_split _ _ _ Hj) as [Hrest Hjl]. set (digits := drop (Datatypes.S j) rest) in *.
  destruct (_ && _) eqn:Hc; [|done]. intros [= <- <- <-]. apply andb_prop in Hc as [[[H1 H2]%andb_prop H3]%andb_prop H4].
  exists digits. apply Nat.ltb_lt in H1, H2. apply Z.ltb_lt in H4. rewrite <- Hrest. rewrite !length_take_le by lia. by split_and!.
Qed.

Lemma fixup_one_spec FX m symbols_off value s label ov ov' :
  blob m fdt base -> symbols_at symbols_off -> ov <> Nop -> intact m fdto T O S Sz (flatten ov) ->
  string_at m value s -> 0 < value -> len s < 2 ^ 31 -> fixup_string FX base label ov s = Some ov' ->
  exists m', fixup_one m fdt fdto symbols_off value (len s) label = Ok (0, m') /\ intact m' fdto T O S Sz (flatten ov') /\ changes inside m m'.
Proof.
  intros Hb Hsym Hov Hi Hstr Hpos Hlen Hspec.
  destruct (fixup_string_inv _ _ _ _ _ Hspec) as (path & name & off & ph & q & n & ps & ks & v & Hparse & Hsy & Hhd & _ & Hl & Hv & Hoff & Hu).
  destruct (parse_fixup_inv _ _ _ _ Hparse) as (digits & Hs & Hf1 & Hf2 & Hn0 & Hd0 & Hdig & -> & Hdec).
  pose proof (decimal_nonneg digits 0 ltac:(lia) Hdig) as Hdec0. set (rest := name ++ chr_colon :: digits) in *.
  assert (len s = len path + 1 + len rest /\ len rest = len name + 1 + len digits) as [Hls Hlr].
  { rewrite Hs. unfold rest, len. rewrite !length_app. cbn [length]. rewrite length_app. cbn [length]. lia. }
  assert (0 < len name /\ 0 < len digits /\ 0 <= len path) as (Hn & Hd & Hp0) by (unfold len; lia).
  assert (string_at m (value + len path) (chr_colon :: rest)) as Hstr1 by (apply string_at_suffix; by rewrite <- Hs).
  apply string_at_cons in Hstr1 as (Hc1 & _ & Hstr1). pose proof (string_at_suffix _ _ _ _ Hstr1) as Hstr2.
  apply string_at_cons in Hstr2 as (Hc2 & _ & Hstr2).
  set (sep := value + len path) in *. set (sep2 := sep + 1 + len name) in *.
  assert (Libc.memchr m value chr_colon (Z.to_nat (len s)) = sep) as Hm1.
  { rewrite memchr_find by (unfold chr_colon; lia). unfold len at 1. by rewrite Nat2Z.id, (string_bytes _ _ _ Hstr), Hf1. }
  assert (Libc.memchr m (sep + 1) chr_colon (Z.to_nat (len rest)) = sep2) as Hm2.
  { rewrite memchr_find by (unfold chr_colon; lia). unfold len at 1. by rewrite Nat2Z.id, (string_bytes _ _ _ Hstr1), Hf2. }
  unfold fixup_one. rewrite Hm1. cbv zeta. destruct (Z.eqb_spec sep 0); [lia|]. rewrite Hc1. change (chr_colon =? chr_colon) with true. cbn [orb negb].
  replace (sep - value) with (len path) by lia. rewrite !(u32_small (len _)), (u32_small (len s - 1)) by lia. destruct (Z.eqb_spec (len path) (len s - 1)); [lia|].
  replace (len s - (len path + 1)) with (len rest) by lia. rewrite (u32_small (len rest)) by lia. rewrite Hm2. destruct (Z.eqb_spec sep2 0); [lia|].
  rewrite Hc2. change (chr_colon =? chr_colon) with true. cbn [orb negb]. replace (sep2 - (sep + 1)) with (len name) by lia. rewrite (u32_small (len name)) by lia.
  destruct (Z.eqb_spec (len name) 0); [lia|]. rewrite (strtoul_spec _ _ _ Hstr2 Hdig Hd0 Hdec), Ok_bind. rewrite s32_small by lia.
  pose proof (string_end _ _ _ Hstr2) as Hend. fold (len digits) in Hend. rewrite Hend. cbn [Z.eqb negb orb].
  destruct (Z.leb_spec (sep2 + 1 + len digits) (sep2 + 1)); [lia|]. unfold len. rewrite !Nat2Z.id.
  assert (load_bytes m value (length path) = path) as ->.
  { pose proof (string_bytes _ _ _ Hstr) as Hbs. rewrite Hs, length_app, load_bytes_app in Hbs. apply app_inj_1 in Hbs as [Hbs _]; [done|by rewrite length_load_bytes]. }
  assert (load_bytes m (sep + 1) (length name) = name) as ->.
  { pose proof (string_bytes _ _ _ Hstr1) as Hbs. unfold rest in Hbs. rewrite length_app, load_bytes_app in Hbs. apply app_inj_1 in Hbs as [Hbs _]; [done|by rewrite length_load_bytes]. }
  eapply fixup_one_phandle_spec; try done. pose proof (string_nonzero _ _ _ Hstr) as Hnz. rewrite Hs in Hnz. by apply Forall_app in Hnz as [].
Qed.

(** The node of the fixups stays where it is. *)
Definition around (FX : dt) (n : list Z) (P Q : Z) (ov : dt) : Prop :=
  exists ps L R, ov = Node n ps (L ++ FX :: R) /\ toks_size (map prop_tok ps) = P /\ toks_size (flat_map flatten L) = Q.

Lemma fixup_string_keeps FX label s n P Q ov ov' :
  around FX n P Q ov -> fixup_string FX base label ov s = Some ov' -> around FX n P Q ov'.
Proof using.
  intros (ps & L & R & -> & HP & HQ) Hspec.
  destruct (fixup_string_inv _ _ _ _ _ Hspec) as (path & name & off & ph & q & tn & tps & tks & v & Hparse & _ & _ & Hav & Hl & Hv & Hoff & Hu).
  destruct (parse_fixup_inv _ _ _ _ Hparse) as (digits & _ & _ & _ & _ & _ & Hdig & -> & _). pose proof (decimal_nonneg digits 0 ltac:(lia) Hdig).
  clear Hspec Hparse. set (v' := patch _ _ v) in *.
  assert (toks_size (map prop_tok (set_prop name v' tps)) = toks_size (map prop_tok tps)) as Hsz.
  { apply (set_prop_size name v); [done|]. apply length_patch. rewrite length_be32. unfold len in Hoff. lia. }
  destruct (path_names _ path) as [|s0 names]; cbn [avoids dt_lookup update_path dt_kids] in *.
  - injection Hl as _ <- <- <-. injection Hu as <-. exists (set_prop name v' ps), L, R. by rewrite Hsz.
  - pose proof (find_child_split s0 (L ++ FX :: R) (kids_offset 0 (Node n ps (L ++ FX :: R)))) as Hsp.
    destruct (find_child s0 _ _) as [[q1 k]|] eqn:Hfc; [|done]. cbn [mbind option_bind] in Hl. apply find_child_selects in Hfc.
    destruct Hsp as (ks1 & ks2 & Heq & Hk & _ & Htry). rewrite Htry in Hu. pose proof (path_spot names k q1 Hk) as Hspot. rewrite Hl in Hspot.
    destruct Hspot as (_ & pre & post & _ & Hfl & Hupd). destruct (Hupd (fun _ => Node tn (set_prop name v' tps) tks)) as (k' & Hk' & _ & Hfl'); [done|].
    rewrite Hk' in Hu. injection Hu as <-.
    assert (dt_size k' = dt_size k) as Hks.
    { pose proof (dt_size_node tn tn (set_prop name v' tps) tps tks tks eq_refl Hsz eq_refl) as Hnode. unfold dt_size in *. rewrite Hfl, Hfl', !toks_size_app. lia. }
    destruct (other_kid _ _ _ _ _ _ _ (eq_sym Heq) Hfc) as [(d & -> & ->)|(d & -> & ->)]; [by destruct (selects s0 FX)| |].
    + exists ps, (ks1 ++ k' :: d), R. rewrite <- app_assoc. split_and!; [done|done|]. by rewrite (flat_map_size_swap _ _ _ _ Hks).
    + exists ps, L, (d ++ k' :: ks2). rewrite <- app_assoc. by split_and!.
Qed.

End Symbols.

Lemma find_char_c_str v i : find_char 0 v = Some i -> c_str v = Some (take i v).
Proof.
  revert i. induction v as [|b v IH]; intros i Hf; cbn [find_char c_str] in *; [done|]. destruct (b =? 0); [by injection Hf as <-|].
  destruct (find_char 0 v) as [k|]; [|done]. injection Hf as <-. by rewrite (IH k).
Qed.

(** ** All references *)

Section Fixups.
Context (fdt Tb Ob Sb Szb fdto T O S Sz symbols_off P Q : Z) (n : list Z) (base FX : dt).
Context (Hsep : fdt + Tb <= fdto \/ fdto + T <= fdt) (Hbase : base <> Nop) (Hsym : symbols_at base symbols_off).
Notation inside := (fun x => fdto <= x < fdto + T).
#[local] Set Default Proof Using "All".

(** The two blobs while the fixups are made. *)
Definition fixing (m : mem) (ov : dt) : Prop :=
  around FX n P Q ov /\ intact m fdto T O S Sz (flatten ov) /\ intact m fdt Tb Ob Sb Szb (flatten base).

Lemma fixing_string m value s label ov ov' :
  fixing m ov -> string_at m value s -> 0 < value -> len s < 2 ^ 31 -> fixup_string FX base label ov s = Some ov' ->
  exists m', fixup_one m fdt fdto symbols_off value (len s) label = Ok (0, m') /\ fixing m' ov' /\ changes inside m m'.
Proof.
  intros (Har & Hi & Hib) Hs Hv Hl Hspec. pose proof (fixup_string_keeps _ _ _ _ _ _ _ _ _ Har Hspec) as Har'.
  assert (ov <> Nop) as Hov by (by destruct Har as (? & ? & ? & -> & _)).
  assert (blob m fdt base) as Hb by (split_and!; [by eapply intact_header|by eapply intact_sees|done]).
  destruct (fixup_one_spec fdt fdto T O S Sz base FX m symbols_off value s label ov ov' Hb Hsym Hov Hi Hs Hv Hl Hspec) as (m' & Hm' & Hi' & Hc).
  exists m'. split; [done|]. split; [|done]. split_and!; try done. apply (intact_same m); [|done]. intros x Hx. apply Hc. lia.
Qed.

Lemma fixup_loop_spec label : forall fuel v value m ov ov' ss,
  strings fuel v = Some ss -> fold_opt (fixup_string FX base label) ov ss = Some ov' -> fixing m ov -> 0 < value -> len v < 2 ^ 31 ->
  (forall m ov, fixing m ov -> load_bytes m value (length v) = v) ->
  exists m', fixup_loop fuel m fdt fdto symbols_off value (len v) label = Ok (0, m') /\ fixing m' ov' /\ changes inside m m'.
Proof.
  intros fuel. induction fuel as [|fuel IH]; intros v value m ov ov' ss Hss Hfold Hst Hpos Hlen Hval; cbn [strings] in Hss;
    (destruct (find_char 0 v) as [i|] eqn:Hi; [|done]); cbn [mbind option_bind] in Hss;
    pose proof (find_char_split _ _ _ Hi) as [Hv Hil]; pose proof (Hval m ov Hst) as Hload;
    pose proof (c_str_at _ _ _ _ Hload (find_char_c_str _ _ Hi)) as Hstr;
    (assert (len (take i v) = Z.of_nat i) as Hlt by (unfold len; rewrite length_take_le by lia; done));
    (assert (Libc.memchr m value 0 (Z.to_nat (len v)) = value + Z.of_nat i) as Hmem
       by (rewrite memchr_find by lia; unfold len; by rewrite Nat2Z.id, Hload, Hi));
    cbn [fixup_loop]; rewrite Hmem; (destruct (Z.eqb_spec (value + Z.of_nat i) 0); [lia|]);
    replace (value + Z.of_nat i - value) with (Z.of_nat i) by lia; unfold len in Hlen; rewrite !u32_small by lia; rewrite s32_small by (unfold len; lia);
    (assert (len v - (Z.of_nat i + 1) = len (drop (Datatypes.S i) v)) as -> by (unfold len; rewrite length_drop; lia)); rewrite <- Hlt.
  - destruct (drop (Datatypes.S i) v); [|done]. injection Hss as <-. cbn [fold_opt] in Hfold.
    destruct (fixup_string FX base label ov (take i v)) as [ov1|] eqn:H1; [|done]. injection Hfold as <-.
    destruct (fixing_string _ _ _ _ _ _ Hst Hstr Hpos ltac:(lia) H1) as (m' & -> & Hst' & Hc). rewrite Ok_bind. by exists m'.
  - destruct (drop (Datatypes.S i) v) as [|b rest] eqn:Hd.
    + injection Hss as <-. cbn [fold_opt] in Hfold.
      destruct (fixup_string FX base label ov (take i v)) as [ov1|] eqn:H1; [|done]. injection Hfold as <-.
      destruct (fixing_string _ _ _ _ _ _ Hst Hstr Hpos ltac:(lia) H1) as (m' & -> & Hst' & Hc). rewrite Ok_bind. by exists m'.
    + destruct (strings fuel (b :: rest)) as [ss'|] eqn:Hss'; [|done]. injection Hss as <-. cbn [fold_opt] in Hfold.
      destruct (fixup_string FX base label ov (take i v)) as [ov1|] eqn:H1; [|done]. cbn [mbind option_bind] in Hfold.
      destruct (fixing_string _ _ _ _ _ _ Hst Hstr Hpos ltac:(lia) H1) as (m1 & -> & Hst1 & Hc1). rewrite Ok_bind. cbn [Z.eqb negb].
      destruct (Z.ltb_spec 0 (len (b :: rest))); [|unfold len in *; cbn [length] in *; lia].
      assert (len (b :: rest) < 2 ^ 31) as Hl' by (rewrite <- Hd; unfold len; rewrite length_drop; lia). rewrite Hlt.
      destruct (IH (b :: rest) (value + (Z.of_nat i + 1)) m1 ov1 ov' ss' Hss' Hfold Hst1 ltac:(lia) Hl') as (m' & -> & Hst' & Hc').
      * intros m2 ov2 Hst2. pose proof (Hval m2 ov2 Hst2) as Hl2. 
        assert (v = (take i v ++ [0]) ++ b :: rest) as Hv' by (by rewrite <- app_assoc).
        rewrite Hv' in Hl2 at 1 2. rewrite length_app, load_bytes_app in Hl2. apply app_inj_1 in Hl2 as [_ Hl2]; [|by rewrite length_load_bytes].
        rewrite length_app, length_take_le in Hl2 by lia. cbn [length] in Hl2. rewrite <- Hl2 at 2. f_equal. lia.
      * exists m'. split_and!; [done|done|by eapply changes_trans].
Qed.

(** One property of the fixups, at [qp]. *)
Lemma fixing_prop fn l label v r fks m ov ov' :
  FX = Node fn (l ++ Some (label, v) :: r) fks -> fixing m ov -> fixup_prop FX base ov (Some (label, v)) = Some ov' ->
  let qp := kids_offset 0 (Node n [] []) + P + Q + tok_size (TBegin fn) + toks_size (map prop_tok l) in
  exists m', overlay_fixup_phandle m fdt fdto symbols_off qp = Ok (0, m') /\ fixing m' ov' /\ changes inside m m'.
Proof.
  intros HFX Hst Hspec qp. cbn [fixup_prop] in Hspec. destruct (strings (length v) v) as [ss|] eqn:Hss; [|done]. cbn [mbind option_bind] in Hspec.
  assert (forall m ov, fixing m ov -> exists name, fdt_getprop_by_offset m fdto qp = Ok (fdto + O + qp + 12, name, len v) /\
    load_bytes m (fdto + O + qp + 12) (length v) = v /\ c_string m name = Ok label /\ 0 < fdto + O + qp + 12 /\ len v < 2 ^ 31) as Hread.
  { intros m1 ov1 ((ps & L & R & -> & HP & HQ) & Hi & _). pose proof (kid_part n ps L FX R) as Hpart. cbn [kids_offset] in Hpart. rewrite HP, HQ in Hpart.
    destruct (within_prop FX _ _ fn l label v r fks (0 + tok_size (TBegin n) + P + Q) Hpart) as ((pre & post & Hts & Hq) & _);
      [rewrite <- HFX; exists [], []; split; [by rewrite app_nil_r|cbn [toks_size]; lia]|].
    rewrite Hts in Hi. cbn [app] in Hi. pose proof (toks_size_nonneg pre). pose proof (in_addr _ _ _ _ _ _ _ Hi). pose proof (in_O _ _ _ _ _ _ _ Hi) as HO.
    unfold sizeof_fdt_header in HO. destruct (intact_prop _ _ _ _ _ _ _ _ _ _ Hi) as (p & name & Hg & Hp & Hl & Hn & _).
    assert (qp = toks_size pre) as -> by (unfold qp; cbn [kids_offset map toks_size]; lia). subst p. exists name. split_and!; try done; [lia|by eapply intact_prop_len]. }
  destruct (Hread m ov Hst) as (name & Hg & _ & Hn & Hpos & Hlen). unfold overlay_fixup_phandle. rewrite Hg, Ok_bind.
  destruct (Z.eqb_spec (fdto + O + qp + 12) 0); [lia|]. rewrite Hn, Ok_bind. unfold len. rewrite Nat2Z.id. fold (len v).
  apply (fixup_loop_spec label (length v) v _ m ov ov' ss Hss Hspec Hst Hpos Hlen). intros m1 ov1 Hst1. by destruct (Hread m1 ov1 Hst1) as (_ & _ & Hl & _).
Qed.

End Fixups.

Lemma external_references_spec fdt Tb Ob Sb Szb fdto T O S Sz base m n ps ks ov' :
  fdt + Tb <= fdto \/ fdto + T <= fdt -> base <> Nop -> intact m fdt Tb Ob Sb Szb (flatten base) ->
  intact m fdto T O S Sz (flatten (Node n ps ks)) -> external_references base (Node n ps ks) = Some ov' ->
  exists m' ps' ks', overlay_fixup_phandles m fdt fdto = Ok (0, m') /\ ov' = Node n ps' ks' /\ intact m' fdto T O S Sz (flatten ov') /\
    changes (fun x => fdto <= x < fdto + T) m m'.
Proof.
  intros Hsep Hb Hib Hi Hspec. pose proof (intact_header _ _ _ _ _ _ _ Hi) as Hh. pose proof (intact_sees _ _ _ _ _ _ _ Hi) as Hs.
  assert (forall s root t, blob m t root -> path_name s -> fdt_path_offset (fdt_fuel m t) m t (path_of [s] 0) = Ok (found (dt_lookup [s] 0 root))) as Hpath.
  { intros s root t Hr Hn. apply path_offset_found; [done| |done]. by apply Forall_singleton. }
  unfold overlay_fixup_phandles. set (s := bytes_of "__fixups__") in *. change (bytes_of "/__fixups__") with (path_of [s] 0).
  rewrite (Hpath s (Node n ps ks)), Ok_bind; [|by split_and!|split; [done|by repeat constructor]].
  cbn [dt_lookup dt_kids]. pose proof (find_kid_split s ks (kids_offset 0 (Node n ps ks))) as Hk.
  pose proof (find_child_split s ks (kids_offset 0 (Node n ps ks))) as Hsp. unfold external_references in Hspec. cbn [dt_kids] in Hspec. fold s in Hspec.
  destruct (find_child s ks _) as [[q FX]|] eqn:Hfc; rewrite Hk in Hspec; cbn [mbind option_bind found].
  2:{ injection Hspec as <-. exists m, ps, ks. split_and!; [done|done|done|apply changes_refl]. }
  destruct Hsp as (L & R & -> & HFX & -> & _). set (P := toks_size (map prop_tok ps)). set (Q := toks_size (flat_map flatten L)).
  change (kids_offset 0 (Node n ps (L ++ FX :: R))) with (0 + tok_size (TBegin n) + P). set (qF := 0 + tok_size (TBegin n) + P + Q).
  assert (0 <= qF) as HqF by (unfold qF, P, Q; pose proof (tok_size_bounds (TBegin n)); pose proof (toks_size_nonneg (map prop_tok ps)); pose proof (toks_size_nonneg (flat_map flatten L)); lia).
  destruct (Z.eqb_spec qF (- FDT_ERR_NOTFOUND)) as [Hbad|_]; [unfold FDT_ERR_NOTFOUND in Hbad; lia|]. destruct (Z.ltb_spec qF 0); [lia|].
  change (bytes_of "/__symbols__") with (path_of [bytes_of "__symbols__"] 0).
  assert (blob m fdt base) as Hbb by (split_and!; [by eapply intact_header|by eapply intact_sees|done]).
  rewrite (Hpath (bytes_of "__symbols__") base), Ok_bind; [|done|split; [done|by repeat constructor]].
  set (symbols_off := found _). assert (symbols_at base symbols_off) as Hsym by done.
  assert ((symbols_off <? 0) && negb (symbols_off =? - FDT_ERR_NOTFOUND) = false) as ->.
  { unfold symbols_off. destruct (dt_lookup [_] 0 base) as [[qs t]|] eqn:Hl; [|done]. destruct (found_nonneg _ _ _ _ _ _ Hbb Hl) as [_ Hqs].
    cbn [found]. destruct (Z.ltb_spec qs 0); [lia|done]. }
  destruct FX as [|fn fps fks] eqn:HeqFX; [done|]. rewrite <- HeqFX in *.
  set (I := fun (m1 : mem) (r : prop_list) => exists ov, fixing fdt Tb Ob Sb Szb fdto T O S Sz P Q n base FX m1 ov /\
    fold_opt (fixup_prop FX base) ov r = Some ov' /\ changes (fun x => fdto <= x < fdto + T) m m1).
  edestruct (each_property_spec fdto qF fn fps fks I) as (m' & Hm' & ov & ((ps' & L' & R' & -> & _) & Hi' & _) & Hov & Hc); [| | | |].
  - intros m1 r (ov & ((ps1 & L1 & R1 & -> & HP & HQ) & Hi1 & _) & _). apply (part_sees _ _ _ _ _ _ _ _ _ Hi1). rewrite <- HeqFX.
    pose proof (kid_part n ps1 L1 FX R1) as Hpart. cbn [kids_offset] in Hpart. by rewrite HP, HQ in Hpart.
  - intros m1 r (ov & Hst & Hov & Hc). by exists ov.
  - intros m1 l label v r Hfps (ov & Hst & Hov & Hc). cbn [fold_opt] in Hov. destruct (fixup_prop FX base ov (Some (label, v))) as [ov1|] eqn:H1; [|done].
    cbn [mbind option_bind] in Hov. assert (FX = Node fn (l ++ Some (label, v) :: r) fks) as HFX' by (by rewrite HeqFX, Hfps).
    destruct (fixing_prop fdt Tb Ob Sb Szb fdto T O S Sz symbols_off P Q n base FX Hsep Hb Hsym fn l label v r fks m1 ov ov1 HFX' Hst H1) as (m2 & Hm2 & Hst2 & Hc2).
    exists m2. split; [|exists ov1; split_and!; [done|done|by eapply changes_trans]]. rewrite <- Hm2. f_equal. unfold qF. cbn [kids_offset map toks_size]. lia.
  - exists (Node n ps (L ++ FX :: R)). split_and!; [|rewrite <- Hspec; by rewrite HeqFX|apply changes_refl]. split_and!; [by exists ps, L, R|done|done].
  - injection Hov as <-. exists m', ps', (L' ++ FX :: R'). done.
Qed.
