(* ===== verification/FdtApply.v ===== *)
(** * Flattened device trees: an overlay applied

    [fdt_overlay_apply] as a whole: the overlay is resolved against the base tree
    (its phandles moved, its references filled in) and its fragments are merged
    into the base tree.  Then an example, and what the code does not guard against. *)

From Stdlib Require Import Strings.String.
From S2P Require Import Prelude Mem Printf LibcString Inet Fdt FdtRo FdtSw FdtRw FdtProof FdtLookup FdtBuild FdtTheorems.
From S2P Require Import FdtOverlay FdtEdit FdtMerge FdtPhandle FdtOverlayProof FdtFixup FdtSymbol.
#[local] Open Scope Z_scope.

(** ** What applying an overlay means *)

(** The overlay with all of its phandles and references filled in. *)
Definition resolve (base ov : dt) : option dt :=
  let delta := max_phandle base in
  if adjustable delta ov then
    ov ← local_references delta (adjust delta ov);
    external_references base ov
  else None.

Lemma phandle_by_range get : 0 <= phandle_by get < 2 ^ 32.
Proof.
  unfold phandle_by, four. repeat case_match; simplify_eq; try apply be_value_range; lia.
Qed.

Lemma max_phandle_range t : 0 <= max_phandle t < 2 ^ 32.
Proof.
  unfold max_phandle. assert (Forall (fun p => 0 <= p < 2 ^ 32) (phandles t)) as Hp.
  { induction t as [|n ps ks IH] using dt_ind'; cbn [phandles]; [done|]. apply Forall_cons. split; [apply phandle_by_range|].
    induction IH as [|k ks Hk _ IH]; cbn [flat_map]; [done|]. by apply Forall_app. }
  assert (forall acc, 0 <= acc < 2 ^ 32 -> 0 <= fold_left max_step (phandles t) acc < 2 ^ 32) as Hfold; [|apply Hfold; lia].
  induction Hp as [|p l Hpr _ IH]; intros acc Ha; cbn [fold_left]; [done|]. apply IH. unfold max_step. by destruct (_ && _).
Qed.

(** The same bytes in the blob. *)
Lemma editable_same m m' fdt T O S Sz ts :
  (forall x, fdt <= x < fdt + T -> load8 m' x = load8 m x) -> editable m fdt T O S Sz ts -> editable m' fdt T O S Sz ts.
Proof.
  intros Hx [Hi Hv Hr Hs Hst]. pose proof Hi as [_ _ _ _ _ _ _ HO _ _ Hord HSz Hroom _ _]. unfold sizeof_fdt_header in HO.
  pose proof (toks_size_nonneg ts).
  assert (forall k, 0 <= k <= 36 -> be32_at m' (fdt + k) = be32_at m (fdt + k)) as Hk.
  { intros k Hk. apply header_word. intros x Hx'. apply Hx. lia. }
  pose proof (Hk 16 ltac:(lia)) as H16. change (fdt_off_mem_rsvmap m' fdt = fdt_off_mem_rsvmap m fdt) in H16.
  split; [by apply (intact_same m)| |by rewrite H16| |].
  - rewrite <- Hv. apply (Hk 20). lia.
  - rewrite <- Hs. apply (Hk 36). lia.
  - rewrite <- Hst. apply (Hk 32). lia.
Qed.

Section Apply.
Context (fdt T O S Sz fdto To Oo So Szo : Z) (base : dt).
Context (Hsep : fdt + T <= fdto \/ fdto + To <= fdt) (Hbase : base <> Nop).
#[local] Set Default Proof Using "All".
Notation overlay_bytes := (fun x => fdto <= x < fdto + To).
Notation base_bytes := (fun x => fdt <= x < fdt + T).

Lemma base_kept m m' : changes overlay_bytes m m' -> editable m fdt T O S Sz (flatten base) -> editable m' fdt T O S Sz (flatten base).
Proof. intros Hc. apply editable_same. intros x Hx. apply Hc. lia. Qed.

(** The steps of [fdt_overlay_apply]. *)
Lemma overlay_steps_spec garbage m n ps ks ov' base' :
  editable m fdt T O S Sz (flatten base) -> intact m fdto To Oo So Szo (flatten (Node n ps ks)) -> garbage <> - FDT_ERR_NOTFOUND ->
  resolve base (Node n ps ks) = Some ov' -> merge_fragments base (dt_kids ov') = Some base' ->
  S + Sz + cost (flat_map flatten (dt_kids ov')) <= T ->
  exists m', overlay_steps garbage m fdt fdto (max_phandle base) = Ok (0, m') /\ base' <> Nop /\
    (exists U, held m' fdt T O U (flatten base')) /\ intact m' fdto To Oo So Szo (flatten ov') /\
    changes (fun x => base_bytes x \/ overlay_bytes x) m m'.
Proof.
  intros He Hi Hg Hres Hmerge Hroom. unfold resolve in Hres. destruct (adjustable (max_phandle base) (Node n ps ks)) eqn:Hadj; [|done].
  unfold overlay_steps. destruct (adjust_local_spec _ _ _ _ _ _ (max_phandle_range base) _ _ _ _ Hi Hadj) as (m1 & -> & Hi1 & Hc1).
  rewrite Ok_bind. cbn [Z.eqb negb adjust] in *. pose proof (base_kept _ _ Hc1 He) as He1.
  destruct (local_references _ _) as [ov1|] eqn:Hloc; [|done]. cbn [mbind option_bind] in Hres.
  destruct (local_references_spec _ _ _ _ _ _ garbage _ _ _ _ _ Hg Hi1 Hloc) as (m2 & ps2 & ks2 & -> & -> & Hi2 & Hc2).
  rewrite Ok_bind. cbn [Z.eqb negb]. pose proof (base_kept _ _ Hc2 He1) as He2.
  destruct (external_references_spec _ _ _ _ _ _ _ _ _ _ base _ _ _ _ _ Hsep Hbase He2 Hi2 Hres) as (m3 & ps3 & ks3 & -> & -> & Hi3 & Hc3).
  rewrite Ok_bind. cbn [Z.eqb negb dt_kids] in *. pose proof (base_kept _ _ Hc3 He2) as He3.
  assert (held m3 fdt T O (S + Sz) (flatten base)) as Hh by (by exists S, Sz).
  destruct (overlay_merge_spec fdt T O fdto To Oo So Szo n ps3 ks3 Hsep m3 _ base base' Hi3 Hh Hbase Hmerge Hroom) as (m4 & -> & Hh4 & Hb4 & Hc4).
  exists m4. split_and!; [done|done|by eexists| |].
  - apply (intact_same m3); [|done]. intros x Hx. apply Hc4. lia.
  - intros x Hx. rewrite Hc4, Hc3, Hc2, Hc1 by tauto. done.
Qed.

End Apply.

(** C18: applying an overlay.  When the overlay resolves against the base tree, its
    phandles moved behind those of the base, the references inside of it and those
    to labels of the base patched, and every fragment has a target,
    [fdt_overlay_apply] succeeds on blobs with room for the additions: the base blob
    is the flattened form of the merged tree, the magic number of the overlay is
    erased, and nothing outside of the two blobs changes.  [garbage] is the value
    of the variable that the code does not set. *)
Theorem fdt_overlay_apply_merges garbage m fdt T O S Sz fdto To Oo So Szo base ov ov' base'
  (Hb : editable m fdt T O S Sz (flatten base)) (Ho : intact m fdto To Oo So Szo (flatten ov))
  (Hbase : base <> Nop) (Hov : ov <> Nop) (Hsep : fdt + T <= fdto \/ fdto + To <= fdt)
  (Hg : garbage <> - FDT_ERR_NOTFOUND)
  (Hres : resolve base ov = Some ov') (Hm : merge_fragments base (dt_kids ov') = Some base')
  (Hroom : S + Sz + cost (flat_map flatten (dt_kids ov')) <= T) :
  exists m', fdt_overlay_apply garbage m fdt fdto = Ok (0, m') /\
    (exists S' Sz', editable m' fdt T O S' Sz' (flatten base')) /\ blob m' fdt base' /\
    fdt_magic m' fdto = 2 ^ 32 - 1 /\
    changes (fun x => fdt <= x < fdt + T \/ fdto <= x < fdto + To) m m'.
Proof.
  destruct ov as [|n ps ks]; [done|]. pose proof (ed_intact _ _ _ _ _ _ _ Hb) as Hib.
  unfold fdt_overlay_apply. rewrite (get_max_phandle_spec _ _ base (intact_header _ _ _ _ _ _ _ Hib) (intact_sees _ _ _ _ _ _ _ Hib)), Ok_bind.
  rewrite (header_checked _ _ (intact_header _ _ _ _ _ _ _ Hib)), (header_checked _ _ (intact_header _ _ _ _ _ _ _ Ho)). cbn [Z.eqb negb].
  destruct (overlay_steps_spec fdt T O S Sz fdto To Oo So Szo base Hsep Hbase garbage m n ps ks ov' base' Hb Ho Hg Hres Hm Hroom)
    as (m1 & -> & Hne & (U & S' & Sz' & _ & He) & Hi & Hc).
  rewrite Ok_bind. cbn [Z.eqb negb]. eexists. split; [done|]. set (m2 := fdt_set_magic m1 fdto (Z.lnot 0)).
  assert (changes (fun x => fdto <= x < fdto + 4) m1 m2) as Hc2 by (apply (changes_store 4); unfold hdr_magic; lia).
  pose proof Hi as [_ _ _ _ _ _ _ HO _ _ Hord HSz HT _ _]. pose proof (toks_size_nonneg (flatten ov')). unfold sizeof_fdt_header in HO.
  pose proof (in_size _ _ _ _ _ _ _ Hi).
  assert (editable m2 fdt T O S' Sz' (flatten base')) as He2.
  { apply (editable_same m1); [|done]. intros x Hx. apply Hc2. lia. }
  split; [by exists S', Sz'|]. pose proof (ed_intact _ _ _ _ _ _ _ He2) as Hi2. split_and!.
  - split_and!; [by eapply intact_header|by eapply intact_sees|done].
  - etransitivity; [apply (be32_store_eq m1 fdto)|]. done.
  - apply (changes_trans _ _ m1); [done|]. eapply changes_mono; [|exact Hc2]. simpl. lia.
Qed.

(** C27: [fdt_setprop] sets a property and [fdt_getprop] reads it back.  In a blob
    with room, the new blob is the flattened form of the tree with the property
    replaced or added first at the node, in place of the old one, and nothing
    outside of the blob changes. *)
Theorem fdt_setprop_sets m fdt T O S Sz t names q n ps ks name v
  (Hb : editable m fdt T O S Sz (flatten t)) (Ht : t <> Nop) (Hl : dt_lookup names 0 t = Some (q, Node n ps ks))
  (Hname : is_name name) (Hv : Forall is_byte v) (Hroom : S + Sz + tok_size (TProp name v) + len name + 1 <= T) :
  exists m' t', fdt_setprop m fdt q name v = Ok (0, m') /\
    update_path (fun _ => Node n (set_prop name v ps) ks) names t = Some t' /\
    (exists S' Sz', editable m' fdt T O S' Sz' (flatten t')) /\ blob m' fdt t' /\
    (exists p, fdt_getprop m' fdt q name = Ok (p, len v) /\ load_bytes m' p (length v) = v) /\
    changes (fun x => fdt <= x < fdt + T) m m'.
Proof.
  destruct (update_path_spot _ _ _ _ Ht Hl) as (_ & pre & post & -> & Hfl & Hupd).
  assert (held m fdt T O (S + Sz) (pre ++ flatten (Node n ps ks) ++ post)) as Hh by (exists S, Sz; by rewrite <- Hfl).
  destruct (setprop_spec m fdt T O _ pre n ps ks post name v Hh Hname Hv ltac:(lia)) as (m' & Hm' & (S' & Sz' & _ & He) & Hc).
  destruct (Hupd (fun _ => Node n (set_prop name v ps) ks)) as (t' & Ht' & Hne & Hfl'); [done|].
  pose proof (ed_intact _ _ _ _ _ _ _ He) as Hi. pose proof (intact_getprop _ _ _ _ _ _ _ _ _ _ _ name Hi) as Hg.
  rewrite find_set_prop, bool_decide_eq_true_2 in Hg by done. destruct Hg as (ps1 & ps2 & _ & _ & Hg & Hload & _).
  exists m', t'. rewrite Hfl'. split_and!; try done; [by exists S', Sz'| |by eexists].
  split_and!; [by eapply intact_header|rewrite Hfl'; by eapply intact_sees|done].
Qed.

(** ** Flattened device trees: an overlay applied, by example

    A serial port of a base tree that an overlay enables, with a node added below
    it and references in both directions; and what [fdt_overlay_apply] does not
    guard against. *)

(** ** Checking a blob *)

Definition string_ok (m : mem) (p : Z) (n : list Z) : bool :=
  bool_decide (load_bytes m p (length n) = n) && forallb (fun b => negb (b =? 0)) n && (load8 m (p + len n) =? 0).

Definition tok_ok_in (m : mem) (strs hi p : Z) (t : token) : bool :=
  (be32_at m p =? tok_tag t) &&
  match t with
  | TBegin name => string_ok m (nh_name p) name
  | TProp name val =>
      let off := s32 (be32_at m (prop_nameoff p)) in
      (be32_at m (prop_len p) =? len val) && bool_decide (load_bytes m (prop_data p) (length val) = val) &&
      string_ok m (strs + off) name && (0 <=? off) && (off + len name + 1 <=? hi)
  | _ => true
  end.

Fixpoint toks_ok_in (m : mem) (strs hi p : Z) (ts : list token) : bool :=
  match ts with
  | [] => true
  | t :: ts => tok_ok_in m strs hi p t && toks_ok_in m strs hi (p + tok_size t) ts
  end.

Lemma string_ok_at m p n : string_ok m p n = true -> string_at m p n.
Proof.
  unfold string_ok. intros [[Hb Hn]%andb_prop He]%andb_prop. apply bool_decide_eq_true in Hb. apply Z.eqb_eq in He.
  split; [done| |done]. apply Forall_forall. intros b Hin. rewrite forallb_forall in Hn. apply list_elem_of_In in Hin. specialize (Hn b Hin). lia.
Qed.

Lemma toks_ok_in_spec m strs hi ts : forall p, toks_ok_in m strs hi p ts = true -> toks_in m strs 0 hi p ts.
Proof.
  induction ts as [|t ts IH]; intros p Hok; cbn [toks_ok_in toks_in] in *; [done|]. apply andb_prop in Hok as [Hok Hoks].
  split; [|by apply IH]. unfold tok_ok_in in Hok. apply andb_prop in Hok as [Htag Hok]. apply Z.eqb_eq in Htag.
  unfold tok_at, name_in. destruct t as [name| |name val|]; [split; [|done]; split; [done|by apply string_ok_at]|done| |done].
  apply andb_prop in Hok as [[[[H1 H2]%andb_prop H3]%andb_prop H4]%andb_prop H5]. apply bool_decide_eq_true in H2. apply string_ok_at in H3. lia || split_and!; (done || lia).
Qed.

Definition intact_ok (m : mem) (fdt T O S Sz : Z) (ts : list token) : bool :=
  (0 <? fdt) && (T <? 2 ^ 31) && (fdt_magic m fdt =? FDT_MAGIC) && (FDT_FIRST_SUPPORTED_VERSION <=? fdt_version m fdt) &&
  (fdt_last_comp_version m fdt <=? FDT_LAST_SUPPORTED_VERSION) && (fdt_totalsize m fdt =? T) && (fdt_off_dt_struct m fdt =? O) &&
  (sizeof_fdt_header <=? O) && (toks_size ts + 4 <=? fdt_size_dt_struct m fdt) && (fdt_off_dt_strings m fdt =? S) &&
  (O + fdt_size_dt_struct m fdt <=? S) && (0 <=? Sz) && (S + Sz <=? T) && toks_ok_in m (fdt + S) Sz (fdt + O) ts &&
  (be32_at m (fdt + O + toks_size ts) =? FDT_END).

Lemma intact_ok_spec m fdt T O S Sz ts : intact_ok m fdt T O S Sz ts = true -> intact m fdt T O S Sz ts.
Proof.
  unfold intact_ok. intros H. repeat (apply andb_prop in H; destruct H as [H ?]). split; try (by apply toks_ok_in_spec); lia.
Qed.

(** ** The trees *)

Definition str (s : string) : list Z := bytes_of s ++ [0].
Definition set (name : string) (v : list Z) : option (list Z * list Z) := Some (bytes_of name, v).
Definition node (name : string) (ps : list (option (list Z * list Z))) (ks : list dt) : dt := Node (bytes_of name) ps ks.

(** A board with an interrupt controller and a serial port. *)
Definition ox_base (serial : dt) : dt :=
  node "" [set "#address-cells" (be32 1)]
    [node "soc" [] [node "intc@1000" [set "phandle" (be32 1)] []; serial];
     node "__symbols__" [set "gic" (str "/soc/intc@1000"); set "uart" (str "/soc/serial@2000")] []].
Definition ox_serial : dt := node "serial@2000" [set "status" (str "off"); set "phandle" (be32 2)] [].

(** The overlay enables the port and adds a modem, which it has phandle 1 for. *)
Definition ox_fragment (target parent modem : Z) : dt :=
  node "fragment@0" [set "target" (be32 target)]
    [node "__overlay__" [set "status" (str "okay"); set "interrupt-parent" (be32 parent); set "modem" (be32 modem)]
       [node "modem@0" [set "phandle" (be32 modem)] []]].
Definition ox_overlay (word : Z) : dt :=
  node "" []
    [ox_fragment (2 ^ 32 - 1) (2 ^ 32 - 1) 1;
     node "__fixups__" [set "uart" (str "/fragment@0:target:0"); set "gic" (str "/fragment@0/__overlay__:interrupt-parent:0")] [];
     node "__local_fixups__" [] [node "fragment@0" [] [node "__overlay__" [set "modem" (be32 word)] []]]].

(** The port afterwards: the phandle of the modem comes behind those of the board. *)
Definition ox_merged : dt :=
  ox_base (node "serial@2000"
    [set "modem" (be32 3); set "interrupt-parent" (be32 1); set "status" (str "okay"); set "phandle" (be32 2)]
    [node "modem@0" [set "phandle" (be32 3)] []]).

Definition ox_fdt : Z := 0x40000000.
Definition ox_fdto : Z := 0x40010000.

Definition ox_mem (word : Z) : mem :=
  match ('(_, m) ← sw_build ∅ ox_fdt 1024 (ox_base ox_serial);
         '(_, m) ← fdt_open_into m ox_fdt ox_fdt 1024;
         '(_, m) ← sw_build m ox_fdto 1024 (ox_overlay word);
         Ok m) with
  | Ok m => m
  | Fault _ => ∅
  end.

Lemma ox_base_editable : editable (ox_mem 0) ox_fdt 1024 64 276 39 (flatten (ox_base ox_serial)).
Proof.
  split; [apply intact_ok_spec|..].
  - vm_compute. reflexivity.
  - vm_compute. reflexivity.
  - vm_compute. split; discriminate.
  - vm_compute. reflexivity.
  - vm_compute. reflexivity.
Qed.

Lemma ox_overlay_intact : intact (ox_mem 0) ox_fdto 470 64 416 54 (flatten (ox_overlay 0)).
Proof. apply intact_ok_spec. vm_compute. reflexivity. Qed.

Definition ox_resolved : dt := default Nop (resolve (ox_base ox_serial) (ox_overlay 0)).

Lemma fdt_overlay_apply_merges_witness :
  exists m', fdt_overlay_apply 0 (ox_mem 0) ox_fdt ox_fdto = Ok (0, m') /\ blob m' ox_fdt ox_merged /\ fdt_magic m' ox_fdto = 2 ^ 32 - 1.
Proof.
  destruct (fdt_overlay_apply_merges 0 (ox_mem 0) ox_fdt 1024 64 276 39 ox_fdto 470 64 416 54 (ox_base ox_serial) (ox_overlay 0) ox_resolved ox_merged
    ox_base_editable ox_overlay_intact) as (m' & Hm' & _ & Hb & Hmg & _).
  - discriminate.
  - discriminate.
  - left. vm_compute. discriminate.
  - discriminate.
  - vm_compute. reflexivity.
  - vm_compute. reflexivity.
  - vm_compute. discriminate.
  - exists m'. exact (conj Hm' (conj Hb Hmg)).
Defined.

Definition ox_path : list (list Z) := [bytes_of "soc"; bytes_of "serial@2000"].

Lemma fdt_setprop_sets_witness :
  exists m' p, fdt_setprop (ox_mem 0) ox_fdt 68 (bytes_of "status") (str "okay") = Ok (0, m') /\
    blob m' ox_fdt (ox_base (node "serial@2000" [set "status" (str "okay"); set "phandle" (be32 2)] [])) /\
    fdt_getprop m' ox_fdt 68 (bytes_of "status") = Ok (p, 5) /\ load_bytes m' p 5 = str "okay".
Proof.
  destruct (fdt_setprop_sets (ox_mem 0) ox_fdt 1024 64 276 39 (ox_base ox_serial) ox_path 68 (bytes_of "serial@2000")
    [set "status" (str "off"); set "phandle" (be32 2)] [] (bytes_of "status") (str "okay") ox_base_editable)
    as (m' & t' & Hm' & Ht' & _ & Hb & (p & Hg & Hl) & _).
  - discriminate.
  - vm_compute. reflexivity.
  - repeat constructor; vm_compute; (reflexivity || discriminate).
  - repeat constructor; vm_compute; (reflexivity || discriminate).
  - vm_compute. discriminate.
  - exists m', p. vm_compute in Ht'. injection Ht' as <-. exact (conj Hm' (conj Hb (conj Hg Hl))).
Defined.

(** The result of applying the overlay of the example, and a byte of the memory
    after that. *)
Definition ox_apply (garbage word a : Z) : outcome (Z * Z) :=
  '(ret, m) ← fdt_overlay_apply garbage (ox_mem word) ox_fdt ox_fdto;
  Ok (ret, load8 m a).

