(* ===== verification/Platform.v ===== *)
(** * arch/aarch64/platform.c: finding the memory in the device tree

    [parse_platform_config] reads the memory node of the device tree that the
    boot loader passes and gives the memory behind the kernel to the page
    allocator. *)

From Stdlib Require Import Strings.String.
From S2P Require Import Prelude Align Mem Printf PageAlloc PageAllocProof Inet LibcString.
From S2P Require Import Fdt FdtRo FdtSw FdtProof FdtLookup FdtBuild FdtTheorems.
#[local] Open Scope Z_scope.

(** [for (i = 0; i < n; i++) acc = (acc << 32) | fdt32_to_cpu( *p++ );]: the
    number and the next cell. *)
Fixpoint read_cells (m : mem) (n : nat) (p acc : Z) : Z * Z :=
  match n with
  | O => (acc, p)
  | S n => read_cells m n (p + 4) (Z.lor (u64 (Z.shiftl acc 32)) (fdt32_to_cpu (load32 m p)))
  end.

Section Platform.
Context {T : Type} `{SegmentTree T}.

(** The arenas, the memory and what is printed.  [kernel_end] is the address of
    the linker's symbol.  The path is absolute, so that the lookup resolves no
    alias. *)
Definition parse_platform_config (kernel_end dtb : Z) (a : arenas T) (m : mem)
  : outcome (arenas T * mem * list printf_call) :=
  if dtb =? 0 then Fault Panic else
  if negb (fdt_check_header m dtb =? 0) then Fault Panic else
  let out := [(line_format "Found FDT at address %x", [VInt dtb])] in
  memory_node ← fdt_path_offset 0 m dtb (bytes_of "/memory");
  if memory_node <? 0 then Fault Panic else
  addr_cells ← fdt_address_cells m dtb memory_node;
  if addr_cells <? 0 then Fault Panic else
  size_cells ← fdt_size_cells m dtb memory_node;
  if size_cells <? 0 then Fault Panic else
  '(reg_prop, _) ← fdt_getprop m dtb memory_node (bytes_of "reg");
  if reg_prop =? 0 then Fault Panic else
  let '(memory_addr, reg_prop) := read_cells m (Z.to_nat addr_cells) reg_prop 0 in
  let '(memory_size, reg_prop) := read_cells m (Z.to_nat size_cells) reg_prop 0 in
  let out := out ++ [(line_format "Memory map:", []);
    (line_format "  %016lx-%016lx %4d MiB [available]",
     [VInt memory_addr; VInt (u64 (memory_addr + memory_size)); VInt (memory_size / 1024 / 1024)])] in
  let '(memory_addr, memory_size) :=
    if memory_addr <? kernel_end then (kernel_end, u64 (memory_size - u64 (kernel_end - memory_addr)))
    else (memory_addr, memory_size) in
  let memory_addr := align_up memory_addr PAGE_SIZE_SMALL in
  let memory_size := align_down memory_size PAGE_SIZE_SMALL in
  let '(a, m) := memory_add_span memory_addr memory_size a m in
  Ok (a, m, out).

End Platform.

(** ** Cells *)

(** The number whose bytes, the most significant first, are [bs]. *)
Definition be_int (bs : list Z) : Z := fold_left (fun acc b => acc * 2 ^ 8 + b) bs 0.

Lemma be_int_acc bs acc : fold_left (fun acc b => acc * 2 ^ 8 + b) bs acc = acc * 2 ^ (8 * len bs) + be_int bs.
Proof.
  unfold be_int, len. revert acc. induction bs as [|b bs IH]; intros acc; [cbn [fold_left length]; lia|].
  cbn [fold_left length]. rewrite (IH (acc * 2 ^ 8 + b)), (IH (0 * 2 ^ 8 + b)), pow2_bytes. lia.
Qed.

Lemma be_int_app bs bs' : be_int (bs ++ bs') = be_int bs * 2 ^ (8 * len bs') + be_int bs'.
Proof. unfold be_int at 1. rewrite fold_left_app. apply be_int_acc. Qed.

Lemma be32_int m p : be32_at m p = be_int (load_bytes m p 4).
Proof.
  unfold be32_at, fdt32_to_cpu, load32. rewrite load_join. cbn [load_bytes].
  pose proof (load8_range m p) as Ha. pose proof (load8_range m (p + 1)) as Hb.
  pose proof (load8_range m (p + 1 + 1)) as Hc. pose proof (load8_range m (p + 1 + 1 + 1)) as Hd.
  generalize dependent (load8 m p). generalize dependent (load8 m (p + 1)).
  generalize dependent (load8 m (p + 1 + 1)). generalize dependent (load8 m (p + 1 + 1 + 1)). intros d Hd c Hc b Hb a Ha.
  pose proof (bswap32_bytes d c b a Hd Hc Hb Ha) as Hs. unfold be_int. cbn [fold_left le_join] in *.
  replace (a + 2 ^ 8 * (b + 2 ^ 8 * (c + 2 ^ 8 * (d + 2 ^ 8 * 0)))) with (((d * 2 ^ 8 + c) * 2 ^ 8 + b) * 2 ^ 8 + a) by lia.
  rewrite Hs. lia.
Qed.

Lemma be_int_word m p : 0 <= be_int (load_bytes m p 4) < 2 ^ 32.
Proof. rewrite <- be32_int. apply bswap32_range. Qed.

Lemma read_cells_spec m n : forall p acc, 0 <= acc ->
  read_cells m n p (u64 acc) = (u64 (acc * 2 ^ (8 * Z.of_nat (4 * n)) + be_int (load_bytes m p (4 * n))), p + 4 * Z.of_nat n).
Proof.
  induction n as [|n IH]; intros p acc Hacc; cbn [read_cells].
  - f_equal; [f_equal|]; cbn; lia.
  - change (fdt32_to_cpu (load32 m p)) with (be32_at m p). rewrite be32_int. pose proof (be_int_word m p) as Hw.
    assert (Z.lor (u64 (Z.shiftl (u64 acc) 32)) (be_int (load_bytes m p 4)) =
            u64 (acc * 2 ^ 32 + be_int (load_bytes m p 4))) as ->.
    { rewrite (lor_add_disjoint _ _ 32).
      - unfold u64. rewrite Z.shiftl_mul_pow2 by lia. rewrite Z.mul_mod_idemp_l by lia.
        change (2 ^ 64) with (2 ^ 32 * 2 ^ 32). rewrite Zmult_mod_distr_r.
        rewrite <- (Z.mod_small (acc mod 2 ^ 32 * 2 ^ 32 + be_int (load_bytes m p 4)) (2 ^ 32 * 2 ^ 32)).
        + rewrite <- Zmult_mod_distr_r, Z.add_mod_idemp_l by lia. done.
        + pose proof (Z.mod_pos_bound acc (2 ^ 32)). lia.
      - lia.
      - unfold u64. rewrite Z.shiftl_mul_pow2 by lia. change (2 ^ 64) with (2 ^ 32 * 2 ^ 32).
        rewrite Zmult_mod_distr_r. apply Z_mod_mult.
      - done. }
    rewrite IH by lia. f_equal; [f_equal|lia].
    replace (4 * S n)%nat with (4 + 4 * n)%nat by lia. rewrite load_bytes_app, be_int_app.
    unfold len. rewrite length_load_bytes. change (Z.of_nat 4) with 4.
    replace (8 * Z.of_nat (4 + 4 * n)) with (32 + 8 * Z.of_nat (4 * n)) by lia. rewrite Z.pow_add_r by lia. lia.
Qed.

(** A property of one cell, 2 if there is none. *)
Definition ncells (lo : Z) (name : list Z) (t : dt) : option Z :=
  match find_prop name (dt_props t) with
  | None => Some 2
  | Some v => if (len v =? 4) && (lo <=? be_int v) && (be_int v <=? FDT_MAX_NCELLS) then Some (be_int v) else None
  end.

Lemma cells_in_range m p v val :
  load_bytes m p (length v) = v -> len v = 4 -> val = s32 (fdt32_to_cpu (load32 m p)) ->
  (val = be_int v \/ val < 0 /\ FDT_MAX_NCELLS < be_int v) /\ 0 <= be_int v.
Proof.
  intros Hv Hl ->. unfold len in Hl. assert (length v = 4%nat) as Hl4 by lia. rewrite Hl4 in Hv.
  change (fdt32_to_cpu (load32 m p)) with (be32_at m p). rewrite be32_int, Hv.
  pose proof (be_int_word m p) as Hw. rewrite Hv in Hw. split; [|lia].
  unfold s32, FDT_MAX_NCELLS. rewrite u32_small by lia. destruct (Z.ltb_spec (be_int v) (2 ^ 31)); [by left|right; lia].
Qed.

Lemma address_cells_spec m fdt q t :
  reads_props m fdt q t ->
  fdt_address_cells m fdt q = Ok (default (- FDT_ERR_BADNCELLS) (ncells 1 (bytes_of "#address-cells") t)).
Proof.
  intros Hp. specialize (Hp (bytes_of "#address-cells")). unfold fdt_address_cells, ncells.
  destruct (find_prop _ _) as [v|]; [|by rewrite Hp, Ok_bind].
  destruct Hp as (p & Hp0 & -> & Hv). rewrite Ok_bind. destruct (Z.eqb_spec p 0); [done|].
  destruct (Z.eqb_spec (len v) 4) as [Hl|Hl]; cbn [negb andb]; [|done].
  destruct (cells_in_range m p v _ Hv Hl eq_refl) as [Hval Hnn]. set (val := s32 _) in *. unfold FDT_MAX_NCELLS in *.
  destruct (Z.leb_spec val 0), (Z.ltb_spec 4 val), (Z.leb_spec 1 (be_int v)), (Z.leb_spec (be_int v) 4);
    cbn [orb andb default from_option id]; (lia || done || (f_equal; lia)).
Qed.

Lemma size_cells_spec m fdt q t :
  reads_props m fdt q t ->
  fdt_size_cells m fdt q = Ok (default (- FDT_ERR_BADNCELLS) (ncells 0 (bytes_of "#size-cells") t)).
Proof.
  intros Hp. specialize (Hp (bytes_of "#size-cells")). unfold fdt_size_cells, ncells.
  destruct (find_prop _ _) as [v|]; [|by rewrite Hp, Ok_bind].
  destruct Hp as (p & Hp0 & -> & Hv). rewrite Ok_bind. destruct (Z.eqb_spec p 0); [done|].
  destruct (Z.eqb_spec (len v) 4) as [Hl|Hl]; cbn [negb andb]; [|done].
  destruct (cells_in_range m p v _ Hv Hl eq_refl) as [Hval Hnn]. set (val := s32 _) in *. unfold FDT_MAX_NCELLS in *.
  destruct (Z.ltb_spec val 0), (Z.ltb_spec 4 val), (Z.leb_spec 0 (be_int v)), (Z.leb_spec (be_int v) 4);
    cbn [orb andb default from_option id]; (lia || done || (f_equal; lia)).
Qed.

(** ** The memory node *)

(** The node [t] describes [size] bytes of memory at [addr]. *)
Definition describes_memory (t : dt) (addr size : Z) : Prop :=
  exists ac sc v rest,
    ncells 1 (bytes_of "#address-cells") t = Some (Z.of_nat ac) /\
    ncells 0 (bytes_of "#size-cells") t = Some (Z.of_nat sc) /\
    find_prop (bytes_of "reg") (dt_props t) = Some (v ++ rest) /\ length v = (4 * ac + 4 * sc)%nat /\
    addr = u64 (be_int (take (4 * ac) v)) /\ size = u64 (be_int (drop (4 * ac) v)).

Lemma read_memory m p v rest ac sc :
  load_bytes m p (length (v ++ rest)) = v ++ rest -> length v = (4 * ac + 4 * sc)%nat ->
  read_cells m ac p 0 = (u64 (be_int (take (4 * ac) v)), p + 4 * Z.of_nat ac) /\
  read_cells m sc (p + 4 * Z.of_nat ac) 0 = (u64 (be_int (drop (4 * ac) v)), p + 4 * Z.of_nat ac + 4 * Z.of_nat sc).
Proof.
  intros Hl Hv. rewrite length_app, load_bytes_app in Hl.
  apply app_inj_1 in Hl as [Hl _]; [|by rewrite length_load_bytes].
  rewrite Hv, load_bytes_app in Hl. rewrite <- Hl.
  rewrite take_app_length', drop_app_length' by (by rewrite length_load_bytes).
  pose proof (read_cells_spec m ac p 0 ltac:(lia)) as H1. change (u64 0) with 0 in H1.
  pose proof (read_cells_spec m sc (p + 4 * Z.of_nat ac) 0 ltac:(lia)) as H2. change (u64 0) with 0 in H2.
  rewrite Z.mul_0_l, Z.add_0_l in H1, H2. rewrite H1, H2. split; [done|]. do 4 f_equal. lia.
Qed.

Section PlatformSpec.
Context {T : Type} `{SegmentTree T} `{!SegmentTreeLaws T}.

(** What is read from the tree, up to the call of [memory_add_span]. *)
Lemma platform_config_reads kernel_end dtb root q t addr size (a : arenas T) m :
  blob m dtb root -> dt_lookup [bytes_of "memory"] 0 root = Some (q, t) -> describes_memory t addr size ->
  exists out, parse_platform_config kernel_end dtb a m =
    let '(memory_addr, memory_size) :=
      if addr <? kernel_end then (kernel_end, u64 (size - u64 (kernel_end - addr))) else (addr, size) in
    let '(a, m) := memory_add_span (align_up memory_addr PAGE_SIZE_SMALL) (align_down memory_size PAGE_SIZE_SMALL) a m in
    Ok (a, m, out).
Proof.
  intros Hb Hl (ac & sc & v & rest & Hac & Hsc & Hv & Hlen & -> & ->).
  pose proof (lookup_reads _ _ _ _ _ _ Hb Hl) as Hp. destruct (Hb) as (Hh & Hs & Hr).
  unfold parse_platform_config. pose proof (hdr_addr _ _ Hh). destruct (Z.eqb_spec dtb 0); [lia|].
  rewrite (header_checked _ _ Hh). cbn [Z.eqb negb].
  change (bytes_of "/memory") with (path_of [bytes_of "memory"] 0).
  rewrite (path_offset_found _ _ _ _ _ _ Hb), Ok_bind by (apply Forall_singleton, path_name_memory || discriminate).
  rewrite Hl. cbn [found]. pose proof (lookup_at _ _ Hh _ _ _ _ _ (blob_tree Hh _ Hs Hr) Hl) as [_ [ts Hq]].
  pose proof (sees_nonneg _ _ _ _ _ Hq). destruct (Z.ltb_spec q 0); [lia|].
  rewrite (address_cells_spec _ _ _ _ Hp), Hac, Ok_bind. cbn [default from_option id].
  destruct (Z.ltb_spec (Z.of_nat ac) 0); [lia|].
  rewrite (size_cells_spec _ _ _ _ Hp), Hsc, Ok_bind. cbn [default from_option id].
  destruct (Z.ltb_spec (Z.of_nat sc) 0); [lia|]. rewrite !Nat2Z.id.
  specialize (Hp (bytes_of "reg")). rewrite Hv in Hp. destruct Hp as (p & Hp0 & -> & Hbytes). rewrite Ok_bind.
  destruct (Z.eqb_spec p 0); [done|]. destruct (read_memory _ _ _ _ _ _ Hbytes Hlen) as [-> ->].
  eexists. destruct (_ <? kernel_end); destruct (memory_add_span _ _ _ _); done.
Qed.


End PlatformSpec.

(** Memory at 0x40000000 of 128 MiB, the kernel in its first 100000 bytes. *)
Lemma ex_describes : describes_memory ex_memory_node 0x40000000 0x8000000.
Proof. exists 2%nat, 2%nat, (be64 0x40000000 ++ be64 0x8000000), []. split_and!; reflexivity. Qed.

