(* ===== verification/Sched.v ===== *)
(** * kernel/sched.rs: the process scheduler

    The current process, the queue of runnable and the queue of waiting
    processes, with every operation that moves a process between them, and the
    loop of the idle task (kernel/init.c).  A process is identified by the
    address of its [Rc] allocation.  What the scheduler does not look at is left
    abstract: [V] is the rest of a process, of which only the translation map is
    used, and [W] the rest of the kernel, which [process_io] of the devices
    changes, under the translation map of the process that waits.  The context switches are the list of the actions in order. *)

From S2P Require Import Prelude.

(** ** kernel/process.rs *)

Inductive ProcessState := RUNNABLE | RUNNING | WAITING.

#[global] Instance ProcessState_eq_dec : EqDecision ProcessState.
Proof. solve_decision. Defined.

Record Process (V : Type) := MkProcess {
  state : ProcessState;
  task_state : Z;
  page_fault_fixup : Z;
  rest : V
}.
Arguments MkProcess {V} state task_state page_fault_fixup rest.
Arguments state {V} _.
Arguments task_state {V} _.
Arguments page_fault_fixup {V} _.
Arguments rest {V} _.

(** [Process::new]. *)
Definition Process_new {V} (ts : Z) (v : V) : Process V := MkProcess RUNNABLE ts 0 v.

Definition set_state {V} (st : ProcessState) (p : Process V) : Process V :=
  MkProcess st (task_state p) (page_fault_fixup p) (rest p).

(** ** The scheduler *)

Record sched (V W : Type) := MkSched {
  CURRENT : option Z;
  RUNQUEUE : list Z;
  WAITQUEUE : list Z;
  procs : gmap Z (Process V);
  world : W
}.
Arguments MkSched {V W} CURRENT RUNQUEUE WAITQUEUE procs world.
Arguments CURRENT {V W} _.
Arguments RUNQUEUE {V W} _.
Arguments WAITQUEUE {V W} _.
Arguments procs {V W} _.
Arguments world {V W} _.

(** What the scheduler asks of the processor. *)
Inductive action :=
  | LoadMap (map : Z)               (* [mmu_load_map] *)
  | SwitchTo (old new : Z)          (* [switch_to] *)
  | SwitchToFirst (ts : Z).         (* [switch_to_first] *)

Section Sched.
Context {V W : Type} (mmu_map : V -> Z) (process_io : Z -> W -> outcome W) (idle_task : Z).

Notation sched := (sched V W).

(** The object behind an [Rc]. *)
Definition deref (s : sched) (p : Z) : outcome (Process V) :=
  match procs s !! p with
  | Some proc => Ok proc
  | None => Fault NullDeref
  end.

Definition update (s : sched) (p : Z) (proc : Process V) : sched :=
  MkSched (CURRENT s) (RUNQUEUE s) (WAITQUEUE s) (<[p := proc]> (procs s)) (world s).

(** An intrusive list refuses an object that is already linked. *)
Definition linked (s : sched) (p : Z) : bool := bool_decide (p ∈ RUNQUEUE s ++ WAITQUEUE s).

Definition push_run (s : sched) (p : Z) : outcome sched :=
  if linked s p then Fault Panic
  else Ok (MkSched (CURRENT s) (RUNQUEUE s ++ [p]) (WAITQUEUE s) (procs s) (world s)).

Definition push_wait (s : sched) (p : Z) : outcome sched :=
  if linked s p then Fault Panic
  else Ok (MkSched (CURRENT s) (RUNQUEUE s) (WAITQUEUE s ++ [p]) (procs s) (world s)).

Definition set_current (p : Z) (s : sched) : sched :=
  MkSched (Some p) (RUNQUEUE s) (WAITQUEUE s) (procs s) (world s).

Definition get_current (s : sched) : outcome Z :=
  match CURRENT s with
  | Some p => Ok p
  | None => Fault Panic
  end.

Definition take_current (s : sched) : option Z * sched :=
  (CURRENT s, MkSched None (RUNQUEUE s) (WAITQUEUE s) (procs s) (world s)).

Definition enqueue (p : Z) (s : sched) : outcome sched :=
  proc ← deref s p;
  push_run (update s p (set_state RUNNABLE proc)) p.

Definition dequeue (s : sched) : option Z * sched :=
  match RUNQUEUE s with
  | [] => (None, s)
  | p :: q => (Some p, MkSched (CURRENT s) q (WAITQUEUE s) (procs s) (world s))
  end.

(** [enqueue(prev.clone())] inside of [match *prev.state.borrow()]: the state is
    borrowed until the end of the match, so the [replace] in [enqueue] panics. *)
Definition enqueue_borrowed (p : Z) (s : sched) : outcome sched :=
  proc ← deref s p;
  Fault Panic.

Definition schedule (s : sched) : outcome (sched * list action) :=
  let '(prev, s) := take_current s in
  s ← match prev with
      | Some prev =>
          proc ← deref s prev;
          match state proc with
          | WAITING => push_wait s prev
          | _ => enqueue_borrowed prev s
          end
      | None => Ok s
      end;
  let '(next, s) := dequeue s in
  match next with
  | Some next =>
      let s := set_current next s in
      proc ← deref s next;
      let s := update s next (set_state RUNNING proc) in
      let next_ts := task_state proc in
      match prev with
      | Some prev =>
          prev_proc ← deref s prev;
          let prev_ts := task_state prev_proc in
          if negb (prev_ts =? next_ts) then Ok (s, [LoadMap (mmu_map (rest proc)); SwitchTo prev_ts next_ts])
          else Ok (s, [])
      | None => Ok (s, [LoadMap (mmu_map (rest proc)); SwitchToFirst next_ts])
      end
  | None =>
      match prev with
      | Some prev =>
          prev_proc ← deref s prev;
          Ok (s, [SwitchTo (task_state prev_proc) idle_task])
      | None => Ok (s, [SwitchToFirst idle_task])
      end
  end.

Definition process_wait (s : sched) : outcome (sched * list action) :=
  current ← get_current s;
  proc ← deref s current;
  let s := update s current (set_state WAITING proc) in
  w ← process_io (mmu_map (rest proc)) (world s);
  schedule (MkSched (CURRENT s) (RUNQUEUE s) (WAITQUEUE s) (procs s) w).

(** The loop of [wake_up_processes] ends when the wait queue is empty. *)
Fixpoint wake_loop (waiting : list Z) (s : sched) : outcome sched :=
  match waiting with
  | [] => Ok s
  | p :: waiting =>
      s ← enqueue p (MkSched (CURRENT s) (RUNQUEUE s) waiting (procs s) (world s));
      wake_loop waiting s
  end.

Definition wake_up_processes (s : sched) : outcome sched := wake_loop (WAITQUEUE s) s.

Definition page_fault_set_fixup (fixup : Z) (s : sched) : outcome sched :=
  match CURRENT s with
  | Some p =>
      proc ← deref s p;
      Ok (update s p (MkProcess (state proc) (task_state proc) fixup (rest proc)))
  | None => Ok s
  end.

Definition page_fault_get_fixup (s : sched) : outcome Z :=
  match CURRENT s with
  | Some p => proc ← deref s p; Ok (page_fault_fixup proc)
  | None => Ok 0
  end.

(** The end of [process_spawn]: the new process at the address [p]. *)
Definition spawn (p : Z) (proc : Process V) (s : sched) : outcome sched := enqueue p (update s p proc).

(** One round of the loop of the idle task. *)
Definition idle_round (s : sched) : outcome (sched * list action) :=
  s ← wake_up_processes s;
  schedule s.

End Sched.

(** ** The invariant *)

Definition current_list (c : option Z) : list Z :=
  match c with
  | Some p => [p]
  | None => []
  end.

Section Invariant.
Context {V W : Type}.

(** Every process is in one place. *)
Definition known (s : sched V W) : list Z := current_list (CURRENT s) ++ RUNQUEUE s ++ WAITQUEUE s.

Definition has_state (s : sched V W) (st : ProcessState) (p : Z) : Prop :=
  exists proc, procs s !! p = Some proc /\ state proc = st.

Record sched_inv (s : sched V W) : Prop := {
  si_nodup : NoDup (known s);
  si_procs : forall p, is_Some (procs s !! p) <-> p ∈ known s;
  si_current : Forall (has_state s RUNNING) (current_list (CURRENT s));
  si_run : Forall (has_state s RUNNABLE) (RUNQUEUE s);
  si_wait : Forall (has_state s WAITING) (WAITQUEUE s)
}.

Lemma deref_some (s : sched V W) p x : procs s !! p = Some x -> deref s p = Ok x.
Proof. unfold deref. by intros ->. Qed.

Lemma has_state_update s st p proc q :
  p <> q -> has_state s st q -> has_state (update s p proc) st q.
Proof. intros Hne (x & Hx & Hst). exists x. cbn [procs update]. by rewrite lookup_insert_ne. Qed.

Lemma has_state_update_eq s p proc : has_state (update s p proc) (state proc) p.
Proof. exists proc. cbn [procs update]. by rewrite lookup_insert_eq. Qed.

Lemma Forall_has_state_update s st p proc l :
  p ∉ l -> Forall (has_state s st) l -> Forall (has_state (update s p proc) st) l.
Proof.
  intros Hp. rewrite !Forall_forall. intros Hl q Hq. apply has_state_update; [|auto]. by intros ->.
Qed.

(** Everything but the queues. *)
Lemma has_state_queues s c r w x st p :
  has_state (MkSched c r w (procs s) x) st p <-> has_state s st p.
Proof. done. Qed.

Definition same_tasks (s s' : sched V W) : Prop :=
  forall p, (fun x => (task_state x, rest x)) <$> (procs s' !! p) = (fun x => (task_state x, rest x)) <$> (procs s !! p).

End Invariant.
