(* ===== verification/SchedProof.v ===== *)
(** * The scheduler: no process is lost, and every process runs again

    The queues as an abstract machine, that [process_wait] and the idle task
    implement it, and the number of steps until a process runs. *)

From S2P Require Import Prelude Sched.

(** ** The abstract machine *)

Record queues := Queues { cur : option Z; ready : list Z; waiting : list Z }.

(** The current process waits: the next ready one runs, or none. *)
Definition q_wait (c : Z) (q : queues) : queues :=
  match ready q with
  | [] => Queues None [] (waiting q ++ [c])
  | n :: r => Queues (Some n) r (waiting q ++ [c])
  end.

(** The idle task wakes all waiting processes. *)
Definition q_idle (q : queues) : queues :=
  match ready q ++ waiting q with
  | [] => Queues None [] []
  | n :: r => Queues (Some n) r []
  end.

Definition q_step (q : queues) : queues :=
  match cur q with
  | Some c => q_wait c q
  | None => q_idle q
  end.

Definition abstract {V W} (s : sched V W) : queues := Queues (CURRENT s) (RUNQUEUE s) (WAITQUEUE s).

Definition q_all (q : queues) : list Z := current_list (cur q) ++ ready q ++ waiting q.

Lemma q_step_all q : q_all (q_step q) ≡ₚ q_all q.
Proof.
  destruct q as [[c|] r w]; unfold q_step, q_all, q_wait, q_idle; cbn [cur ready waiting].
  - destruct r as [|n r]; cbn [cur ready waiting current_list app]; solve_Permutation.
  - destruct (r ++ w) as [|n q]; cbn [cur ready waiting current_list app]; [done|]. by rewrite app_nil_r.
Qed.

Fixpoint q_run (k : nat) (q : queues) : queues :=
  match k with
  | O => q
  | S k => q_run k (q_step q)
  end.

Lemma q_run_add j k q : q_run (j + k) q = q_run k (q_run j q).
Proof. revert q. induction j as [|j IH]; intros q; cbn [q_run Nat.add]; auto. Qed.

(** A ready process runs after as many steps as there are processes before it. *)
Lemma q_ready_runs i c r w p :
  r !! i = Some p -> cur (q_run (S i) (Queues (Some c) r w)) = Some p.
Proof.
  revert c r w. induction i as [|i IH]; intros c [|n r] w Hp; [done| |done|].
  - by injection Hp as ->.
  - apply (IH n r (w ++ [c])). exact Hp.
Qed.

(** All processes wait: the idle task runs. *)
Lemma q_drained c r w : q_run (S (length r)) (Queues (Some c) r w) = Queues None [] (w ++ c :: r).
Proof.
  revert c w. induction r as [|n r IH]; intros c w; [done|].
  etransitivity; [exact (IH n (w ++ [c]))|]. by rewrite <- app_assoc.
Qed.

Lemma q_idle_runs i r w p :
  (r ++ w) !! i = Some p -> cur (q_run (S i) (Queues None r w)) = Some p.
Proof.
  intros Hp. change (q_run (S i) (Queues None r w)) with (q_run i (q_idle (Queues None r w))).
  unfold q_idle. cbn [ready waiting]. destruct (r ++ w) as [|n q]; [done|].
  destruct i as [|i]; [by simplify_eq/=|]. by apply q_ready_runs.
Qed.

Lemma q_runs q p : p ∈ q_all q -> exists k, (k <= length (q_all q))%nat /\ cur (q_run k q) = Some p.
Proof.
  destruct q as [[c|] r w]; unfold q_all; cbn [cur ready waiting current_list app]; intros Hp.
  - apply elem_of_cons in Hp as [->|Hp]; [exists O; split; [lia|done]|].
    apply elem_of_app in Hp as [Hp|Hp]; apply list_elem_of_lookup in Hp as [i Hi]; pose proof (lookup_lt_Some _ _ _ Hi).
    + exists (S i). split; [cbn [length]; rewrite length_app; lia|]. by apply q_ready_runs.
    + exists (S (length r) + S i)%nat. cbn [length]. rewrite length_app. split; [lia|].
      rewrite q_run_add, q_drained. apply q_idle_runs. cbn [app]. by apply lookup_app_l_Some.
  - apply list_elem_of_lookup in Hp as [i Hi]. pose proof (lookup_lt_Some _ _ _ Hi).
    exists (S i). split; [lia|]. by apply q_idle_runs.
Qed.

(** ** The operations *)

Section Ops.
Context {V W : Type} (mmu_map : V -> Z) (process_io : Z -> W -> outcome W) (idle_task : Z).
#[local] Set Default Proof Using "All".

Notation sched := (sched V W).

Lemma not_linked (s : sched) p : p ∉ RUNQUEUE s ++ WAITQUEUE s -> linked s p = false.
Proof. intros Hp. unfold linked. by apply bool_decide_eq_false_2. Qed.

(** One process moves from the wait queue to the run queue. *)
Lemma wake_one (s : sched) p w :
  sched_inv s -> WAITQUEUE s = p :: w ->
  exists s', enqueue p (MkSched (CURRENT s) (RUNQUEUE s) w (procs s) (world s)) = Ok s' /\ sched_inv s' /\
    abstract s' = Queues (CURRENT s) (RUNQUEUE s ++ [p]) w /\ world s' = world s /\ same_tasks s s'.
Proof.
  intros [Hnd Hp Hc Hr Hw] Hq. unfold known in *. rewrite Hq in *.
  apply Forall_cons in Hw as [(proc & Hproc & Hst) Hw].
  assert (p ∉ current_list (CURRENT s) /\ p ∉ RUNQUEUE s /\ p ∉ w /\ NoDup (current_list (CURRENT s) ++ RUNQUEUE s ++ w))
    as (Hn1 & Hn2 & Hn3 & Hnd').
  { rewrite app_assoc in Hnd. rewrite (app_assoc _ (RUNQUEUE s)).
    apply NoDup_app in Hnd as (H1 & H2 & H3). apply NoDup_cons in H3 as [H3 H4].
    pose proof (H2 p) as H5. rewrite elem_of_app in H5. split_and!; try done.
    1,2: intros Hin; apply (H2 p); [rewrite elem_of_app; tauto|by left].
    apply NoDup_app. split_and!; [done| |done]. intros x Hx Hx'. apply (H2 x Hx). by right. }
  unfold enqueue, deref. cbn [procs]. rewrite Hproc, Ok_bind. unfold push_run.
  rewrite not_linked by (cbn; rewrite elem_of_app; tauto). eexists. split; [done|].
  split_and!; [split|done|done|]; unfold known; cbn [CURRENT RUNQUEUE WAITQUEUE procs update].
  - rewrite <- !app_assoc. apply (NoDup_Permutation_proper _ (p :: current_list (CURRENT s) ++ RUNQUEUE s ++ w)); [solve_Permutation|].
    apply NoDup_cons. split; [rewrite !elem_of_app; tauto|done].
  - intros q. destruct (decide (p = q)) as [<-|Hne].
    + rewrite lookup_insert_eq. split; [|done]. intros _. rewrite !elem_of_app, list_elem_of_singleton. tauto.
    + rewrite lookup_insert_ne by done. rewrite Hp, !elem_of_app, elem_of_cons, list_elem_of_singleton. intuition congruence.
  - by apply (Forall_has_state_update s).
  - apply Forall_app. split; [by apply (Forall_has_state_update s)|]. apply Forall_singleton.
    exact (has_state_update_eq s p (set_state RUNNABLE proc)).
  - by apply (Forall_has_state_update s).
  - intros q. destruct (decide (p = q)) as [<-|Hne]; cbn [procs update]; [|by rewrite lookup_insert_ne].
    rewrite lookup_insert_eq, Hproc. done.
Qed.

Lemma wake_up_spec (s : sched) :
  sched_inv s -> exists s', wake_up_processes s = Ok s' /\ sched_inv s' /\
    abstract s' = Queues (CURRENT s) (RUNQUEUE s ++ WAITQUEUE s) [] /\ world s' = world s /\ same_tasks s s'.
Proof.
  unfold wake_up_processes. remember (WAITQUEUE s) as w eqn:Hw. symmetry in Hw. revert s Hw.
  induction w as [|p w IH]; intros s Hw Hinv; cbn [wake_loop].
  - exists s. rewrite app_nil_r. split_and!; [done|done| |done|done]. unfold abstract. by rewrite Hw.
  - destruct (wake_one s p w Hinv Hw) as (s1 & -> & Hinv1 & Ha & Hwd & Ht). rewrite Ok_bind.
    injection Ha as Hc Hr Hw1. destruct (IH s1 Hw1 Hinv1) as (s2 & -> & Hinv2 & Ha2 & Hwd2 & Ht2).
    exists s2. split_and!; [done|done| |congruence|].
    + rewrite Ha2, Hc, Hr. by rewrite <- app_assoc.
    + intros q. rewrite (Ht2 q). apply Ht.
Qed.

Lemma spawn_spec (s : sched) p ts v :
  sched_inv s -> procs s !! p = None ->
  exists s', spawn p (Process_new ts v) s = Ok s' /\ sched_inv s' /\
    abstract s' = Queues (CURRENT s) (RUNQUEUE s ++ [p]) (WAITQUEUE s).
Proof.
  intros Hinv Hp. assert (p ∉ known s) as Hn.
  { intros Hin. apply (si_procs s Hinv) in Hin. rewrite Hp in Hin. by destruct Hin. }
  destruct Hinv as [Hnd Hpr Hc Hr Hw]. unfold spawn, enqueue.
  rewrite (deref_some _ p (Process_new ts v)), Ok_bind by apply lookup_insert_eq. unfold push_run.
  unfold known in *. rewrite !elem_of_app in Hn. rewrite not_linked by (cbn; rewrite elem_of_app; tauto).
  eexists. split; [done|]. cbn [update procs CURRENT RUNQUEUE WAITQUEUE]. rewrite insert_insert_eq.
  split; [split|done]; unfold known; cbn [CURRENT RUNQUEUE WAITQUEUE procs].
  - rewrite <- !app_assoc. apply (NoDup_Permutation_proper _ (p :: current_list (CURRENT s) ++ RUNQUEUE s ++ WAITQUEUE s)); [solve_Permutation|].
    apply NoDup_cons. split; [by rewrite !elem_of_app|done].
  - intros q. destruct (decide (p = q)) as [<-|Hne].
    + rewrite lookup_insert_eq. split; [|done]. intros _. rewrite !elem_of_app, list_elem_of_singleton. tauto.
    + rewrite lookup_insert_ne by done. rewrite Hpr, !elem_of_app, list_elem_of_singleton. intuition congruence.
  - apply (Forall_has_state_update s); [tauto|done].
  - apply Forall_app. split; [apply (Forall_has_state_update s); [tauto|done]|]. apply Forall_singleton.
    exact (has_state_update_eq s p (set_state RUNNABLE (Process_new ts v))).
  - apply (Forall_has_state_update s); [tauto|done].
Qed.

(** Called for a running process, [schedule] panics. *)
Lemma schedule_running_panics (s : sched) c :
  sched_inv s -> CURRENT s = Some c -> schedule mmu_map idle_task s = Fault Panic.
Proof.
  intros [_ _ Hst _ _] Hc. rewrite Hc in Hst. apply Forall_singleton in Hst as (proc & Hp & Hst).
  unfold schedule, take_current. rewrite Hc, (deref_some _ c proc), Ok_bind, Hst by done.
  unfold enqueue_borrowed. by rewrite (deref_some _ c proc), Ok_bind by done.
Qed.

(** The next process, or none, when no process is current. *)
Lemma schedule_from_idle (s : sched) :
  sched_inv s -> CURRENT s = None ->
  exists s' acts, schedule mmu_map idle_task s = Ok (s', acts) /\ sched_inv s' /\ world s' = world s /\ same_tasks s s' /\
    abstract s' = match RUNQUEUE s with
                  | [] => Queues None [] (WAITQUEUE s)
                  | n :: r => Queues (Some n) r (WAITQUEUE s)
                  end.
Proof.
  intros Hinv Hc. destruct (Hinv) as [Hnd Hp _ Hr Hw]. unfold known in *. rewrite Hc in *. cbn [current_list app] in *.
  unfold schedule, take_current. rewrite Hc. rewrite Ok_bind. unfold dequeue. cbn [RUNQUEUE].
  destruct (RUNQUEUE s) as [|n r] eqn:Hrq.
  - eexists _, _. split; [done|]. split_and!; try done.
  - apply Forall_cons in Hr as [(proc & Hproc & Hst) Hr]. unfold deref. cbn [procs set_current]. rewrite Hproc, Ok_bind.
    eexists _, _. split; [done|]. cbn [app] in Hnd. apply NoDup_cons in Hnd as [Hn Hnd]. rewrite elem_of_app in Hn.
    split_and!; [split|done| |done]; unfold known; cbn [CURRENT RUNQUEUE WAITQUEUE procs update set_current current_list app].
    + apply NoDup_cons. split; [by rewrite elem_of_app|done].
    + intros q. destruct (decide (n = q)) as [<-|Hne].
      * rewrite lookup_insert_eq. split; [|done]. intros _. by left.
      * rewrite lookup_insert_ne by done. apply Hp.
    + apply Forall_singleton. exact (has_state_update_eq s n (set_state RUNNING proc)).
    + apply (Forall_has_state_update s); [tauto|done].
    + apply (Forall_has_state_update s); [tauto|done].
    + intros q. cbn [procs update set_current]. destruct (decide (n = q)) as [<-|Hne]; [|by rewrite lookup_insert_ne].
      by rewrite lookup_insert_eq, Hproc.
Qed.

(** The current process goes to the wait queue. *)
Definition waits (s : sched) (c : Z) (cp : Process V) (w : W) : sched :=
  MkSched None (RUNQUEUE s) (WAITQUEUE s ++ [c]) (<[c := set_state WAITING cp]> (procs s)) w.

Lemma waits_inv (s : sched) c cp w :
  sched_inv s -> CURRENT s = Some c -> procs s !! c = Some cp -> sched_inv (waits s c cp w).
Proof.
  intros [Hnd Hp _ Hr Hw] Hc Hcp. unfold known in *. rewrite Hc in *. cbn [current_list app] in *.
  apply NoDup_cons in Hnd as [Hn Hnd]. rewrite elem_of_app in Hn.
  split; unfold known; cbn [waits CURRENT RUNQUEUE WAITQUEUE procs current_list app].
  - apply (NoDup_Permutation_proper _ (c :: RUNQUEUE s ++ WAITQUEUE s)); [solve_Permutation|].
    apply NoDup_cons. by rewrite elem_of_app.
  - intros q. destruct (decide (c = q)) as [<-|Hne].
    + rewrite lookup_insert_eq. split; [|done]. intros _. rewrite !elem_of_app, list_elem_of_singleton. tauto.
    + rewrite lookup_insert_ne by done. rewrite Hp, !elem_of_app, elem_of_cons, list_elem_of_singleton, elem_of_app. intuition congruence.
  - done.
  - apply (Forall_has_state_update s); [tauto|done].
  - apply Forall_app. split; [apply (Forall_has_state_update s); [tauto|done]|]. apply Forall_singleton.
    exact (has_state_update_eq s c (set_state WAITING cp)).
Qed.

Lemma current_process_known (s : sched) c : sched_inv s -> CURRENT s = Some c -> exists cp, procs s !! c = Some cp.
Proof. intros Hinv Hc. apply (si_procs _ Hinv). unfold known. rewrite Hc. by left. Qed.

(** [process_wait] is the wait of the current process followed by the choice of
    the next one. *)
Lemma process_wait_spec (s : sched) c cp w :
  sched_inv s -> CURRENT s = Some c -> procs s !! c = Some cp ->
  process_io (mmu_map (rest cp)) (world s) = Ok w ->
  exists s' acts, process_wait mmu_map process_io idle_task s = Ok (s', acts) /\ sched_inv s' /\
    abstract s' = q_wait c (abstract s) /\ world s' = w /\ same_tasks s s'.
Proof.
  intros Hinv Hc Hcp Hio. pose proof (waits_inv s c cp w Hinv Hc Hcp) as Hinv'.
  assert (same_tasks s (waits s c cp w)) as Ht.
  { intros q. cbn [waits procs]. destruct (decide (c = q)) as [<-|Hne]; [|by rewrite lookup_insert_ne].
    by rewrite lookup_insert_eq, Hcp. }
  destruct (schedule_from_idle (waits s c cp w) Hinv' eq_refl) as (s' & acts & Hs & Hinv2 & Hw2 & Ht2 & Ha2).
  unfold process_wait, get_current. rewrite Hc, Ok_bind, (deref_some s c cp), Ok_bind by done.
  cbn [update world CURRENT RUNQUEUE WAITQUEUE procs]. rewrite Hio, Ok_bind, Hc.
  unfold schedule in Hs |- *. cbn [take_current CURRENT RUNQUEUE WAITQUEUE procs world waits] in Hs |- *.
  rewrite (deref_some _ c (set_state WAITING cp)), Ok_bind by apply lookup_insert_eq. cbn [state set_state].
  unfold push_wait. rewrite not_linked.
  2: { pose proof (si_nodup _ Hinv) as Hnd. unfold known in Hnd. rewrite Hc in Hnd. by apply NoDup_cons in Hnd as [Hn _]. }
  rewrite Ok_bind in Hs |- *. cbn [CURRENT RUNQUEUE WAITQUEUE procs world].
  fold (waits s c cp w) in *.
  unfold dequeue in Hs |- *. cbn [RUNQUEUE waits] in *. unfold q_wait, abstract in *. cbn [ready waiting cur] in *.
  destruct (RUNQUEUE s) as [|n r] eqn:Hr.
  - injection Hs as <- <-. rewrite (deref_some _ c (set_state WAITING cp)), Ok_bind by apply lookup_insert_eq.
    eexists _, _. split; [done|]. by split_and!.
  - unfold deref in *. cbn [procs set_current waits] in *. destruct (<[c:=set_state WAITING cp]> (procs s) !! n) as [np|] eqn:Hn; [|done].
    rewrite Ok_bind in Hs |- *. injection Hs as <- <-. cbn [procs update waits set_current].
    assert (n <> c) as Hnc.
    { pose proof (si_nodup _ Hinv) as Hnd. unfold known in Hnd. rewrite Hc, Hr in Hnd. apply NoDup_cons in Hnd as [Hn' _].
      intros ->. apply Hn'. by left. }
    rewrite lookup_insert_ne, lookup_insert_eq, Ok_bind by done.
    destruct (negb _); (eexists _, _; split; [done|]; split_and!; [exact Hinv2|done|done|]);
      intros q; (etransitivity; [apply (Ht2 q)|apply Ht]).
Qed.

Lemma idle_round_spec (s : sched) :
  sched_inv s -> CURRENT s = None ->
  exists s' acts, idle_round mmu_map idle_task s = Ok (s', acts) /\ sched_inv s' /\
    abstract s' = q_idle (abstract s) /\ world s' = world s /\ same_tasks s s'.
Proof.
  intros Hinv Hc. destruct (wake_up_spec s Hinv) as (s1 & Hw & Hinv1 & Ha1 & Hw1 & Ht1). unfold idle_round.
  rewrite Hw, Ok_bind. injection Ha1 as Hc1 Hr1 Hq1. rewrite Hc in Hc1.
  destruct (schedule_from_idle s1 Hinv1 Hc1) as (s2 & acts & -> & Hinv2 & Hw2 & Ht2 & Ha2).
  exists s2, acts. split_and!; [done|done| |congruence|].
  - rewrite Ha2, Hr1, Hq1. unfold q_idle, abstract. cbn [ready waiting]. by destruct (RUNQUEUE s ++ WAITQUEUE s).
  - intros q. rewrite (Ht2 q). apply Ht1.
Qed.

End Ops.

(** ** The machine *)

(** What the waiting process asks of the devices returns. *)
Class DeviceIO {W : Type} (process_io : Z -> W -> outcome W) := {
  world_ok : W -> Prop;
  process_io_ok : forall cr3 w, world_ok w -> exists w', process_io cr3 w = Ok w' /\ world_ok w'
}.

Section Machine.
Context {V W : Type} (mmu_map : V -> Z) (process_io : Z -> W -> outcome W) (idle_task : Z) `{!DeviceIO process_io}.

(** One step: the current process waits, or the idle task makes a round. *)
Definition kernel_step (s : sched V W) : outcome (sched V W * list action) :=
  match CURRENT s with
  | Some _ => process_wait mmu_map process_io idle_task s
  | None => idle_round mmu_map idle_task s
  end.

Fixpoint kernel_steps (k : nat) (s : sched V W) : outcome (sched V W) :=
  match k with
  | O => Ok s
  | S k => '(s, _) ← kernel_step s; kernel_steps k s
  end.

Lemma kernel_step_spec s :
  sched_inv s -> world_ok (world s) ->
  exists s' acts, kernel_step s = Ok (s', acts) /\ sched_inv s' /\ world_ok (world s') /\ same_tasks s s' /\
    abstract s' = q_step (abstract s).
Proof.
  intros Hinv Hw. unfold kernel_step, q_step. change (cur (abstract s)) with (CURRENT s).
  destruct (CURRENT s) as [c|] eqn:Hc.
  - destruct (current_process_known mmu_map process_io idle_task s c Hinv Hc) as [cp Hcp].
    destruct (process_io_ok (mmu_map (rest cp)) (world s) Hw) as (w' & Hio & Hw').
    destruct (process_wait_spec mmu_map process_io idle_task s c cp w' Hinv Hc Hcp Hio) as (s' & acts & -> & ? & ? & <- & ?).
    by exists s', acts.
  - destruct (idle_round_spec mmu_map process_io idle_task s Hinv Hc) as (s' & acts & -> & ? & ? & Hw' & ?).
    exists s', acts. by rewrite Hw'.
Qed.

Lemma kernel_steps_spec k s :
  sched_inv s -> world_ok (world s) ->
  exists s', kernel_steps k s = Ok s' /\ sched_inv s' /\ world_ok (world s') /\ same_tasks s s' /\
    abstract s' = q_run k (abstract s).
Proof.
  revert s. induction k as [|k IH]; intros s Hinv Hw; cbn [kernel_steps q_run]; [by exists s|].
  destruct (kernel_step_spec s Hinv Hw) as (s1 & acts & -> & Hinv1 & Hw1 & Ht1 & Ha1). rewrite Ok_bind.
  destruct (IH s1 Hinv1 Hw1) as (s2 & Hs2 & Hinv2 & Hw2 & Ht2 & Ha2). exists s2.
  split_and!; [done|done|done| |by rewrite Ha2, Ha1]. intros q. etransitivity; [apply Ht2|apply Ht1].
Qed.

(** C8: from every consistent state every process is running again after at most
    as many steps as there are processes: no process is lost or starved, when
    the processes that run call [wait].  The kernel does not stop on the way. *)
Theorem every_process_runs s p
    (Hinv : sched_inv s) (Hw : world_ok (world s)) (Hp : is_Some (procs s !! p)) :
  exists k s', (k <= length (known s))%nat /\ kernel_steps k s = Ok s' /\ CURRENT s' = Some p /\ has_state s' RUNNING p.
Proof.
  destruct (q_runs (abstract s) p) as (k & Hk & Hc); [by apply (si_procs s Hinv)|].
  destruct (kernel_steps_spec k s Hinv Hw) as (s' & Hs & Hinv' & _ & _ & Ha).
  exists k, s'. assert (CURRENT s' = Some p) as Hcur by (rewrite <- Hc, <- Ha; done).
  split_and!; [done|done|done|]. pose proof (si_current s' Hinv') as Hr. rewrite Hcur in Hr.
  by apply Forall_inv in Hr.
Qed.

(** C7: the operations of the scheduler keep the invariant: every process is in
    exactly one of the current place, the run queue and the wait queue, with the
    state that belongs to it.  [process_wait] and the idle task do not panic and
    move the processes as the abstract queues say; a new process is appended to
    the run queue; no operation changes the task of a process.  But [schedule]
    itself panics when it is called for a process that does not wait. *)
Theorem sched_refines_queues s (Hinv : sched_inv s) (Hw : world_ok (world s)) :
  (exists s' acts, kernel_step s = Ok (s', acts) /\ sched_inv s' /\ world_ok (world s') /\ same_tasks s s' /\
     abstract s' = q_step (abstract s)) /\
  (forall p ts v, procs s !! p = None ->
     exists s', spawn p (Process_new ts v) s = Ok s' /\ sched_inv s' /\
       abstract s' = Queues (CURRENT s) (RUNQUEUE s ++ [p]) (WAITQUEUE s)) /\
  (forall p, CURRENT s = Some p -> schedule mmu_map idle_task s = Fault Panic).
Proof.
  split; [by apply kernel_step_spec|]. split; [intros p ts v; by apply (spawn_spec mmu_map process_io idle_task)|].
  intros p. by apply (schedule_running_panics mmu_map process_io idle_task).
Qed.

End Machine.

(** ** Three processes, no devices *)

Definition no_devices (cr3 : Z) (w : unit) : outcome unit := Ok w.

#[global] Instance no_devices_io : DeviceIO no_devices := {| world_ok := fun _ => True; process_io_ok := fun _ w _ => ex_intro _ w (conj eq_refl I) |}.

Definition ex_sched : sched Z unit :=
  MkSched (Some 1) [2] [3]
    {[1 := MkProcess RUNNING 101 0 7; 2 := MkProcess RUNNABLE 102 0 7; 3 := MkProcess WAITING 103 0 8]} tt.

Lemma ex_sched_inv : sched_inv ex_sched.
Proof.
  split.
  - apply (bool_decide_unpack _). reflexivity.
  - intros p. unfold known, ex_sched. cbn [CURRENT RUNQUEUE WAITQUEUE procs current_list app].
    rewrite !lookup_insert_is_Some, !elem_of_cons. split.
    + intros [<-|[_ [<-|[_ Hp]]]]; [tauto|tauto|]. rewrite lookup_singleton_is_Some in Hp. subst. tauto.
    + rewrite lookup_singleton_is_Some, elem_of_nil. destruct (decide (1 = p)), (decide (2 = p)); intuition congruence.
  - apply Forall_singleton. eexists. split; reflexivity.
  - apply Forall_singleton. eexists. split; reflexivity.
  - apply Forall_singleton. eexists. split; reflexivity.
Qed.

Lemma every_process_runs_witness :
  exists k s', (k <= 3)%nat /\ kernel_steps (fun map => map) no_devices 100 k ex_sched = Ok s' /\ CURRENT s' = Some 3.
Proof.
  destruct (every_process_runs (fun map => map) no_devices 100 ex_sched 3 ex_sched_inv ltac:(exact I)) as (k & s' & Hk & Hs & Hc & _).
  - eexists. reflexivity.
  - by exists k, s'.
Defined.

Lemma sched_refines_queues_witness :
  exists s' acts, kernel_step (fun map => map) no_devices 100 ex_sched = Ok (s', acts) /\
    abstract s' = Queues (Some 2) [] [3; 1].
Proof.
  destruct (sched_refines_queues (fun map => map) no_devices 100 ex_sched ex_sched_inv ltac:(exact I)) as ((s' & acts & Hs & _ & _ & _ & Ha) & _).
  by exists s', acts.
Defined.
