(* ===== verification/Vm.v ===== *)
(** * kernel/vm.rs: the address space of a process

    The regions of an address space, their allocation, and filling them with
    pages, on top of the slab allocator (a region lives in a [Box]), the page
    allocator and the page tables.  The red-black tree of the regions is the
    [RBTree] of the crate intrusive_collections: the class [RegionTree] has the
    operations that vm.rs uses, [RegionTreeLaws] what its documentation promises
    of them.  The kernel is built in release mode, so that arithmetic on [usize]
    wraps around. *)

From Stdlib Require Import Sorting.Sorted.
From S2P Require Import Prelude Align Mem PageAlloc Kmem Mmu.
#[local] Open Scope Z_scope.

(** ** kernel/errno.rs *)

Inductive Result (R : Type) :=
  | Success (x : R)
  | Err (err : Z).
Arguments Success {R} x.
Arguments Err {R} err.

(** [Error::errno]. *)
Definition errno (err : Z) : Z := - err.

(** ** Regions *)

Definition VM_PROT_READ : Z := 1.
Definition VM_PROT_WRITE : Z := 2.
Definition VM_PROT_EXEC : Z := 4.
Definition VM_PROT_RX : Z := Z.lor VM_PROT_READ VM_PROT_EXEC.
Definition VM_PROT_RW : Z := Z.lor VM_PROT_READ VM_PROT_WRITE.
Definition VM_PROT_RWX : Z := Z.lor (Z.lor VM_PROT_READ VM_PROT_WRITE) VM_PROT_EXEC.

(** [contains] of the bit flags. *)
Definition contains (prot flag : Z) : bool := Z.land prot flag =? flag.

(** [vr_box] is the address of the [Box] that the region lives in. *)
Record VMRegion := MkVMRegion {
  vr_start : Z;
  vr_end : Z;
  vr_prot : Z;
  vr_page : option Z;
  vr_box : Z
}.

#[global] Instance VMRegion_eq_dec : EqDecision VMRegion.
Proof. solve_decision. Defined.

(** Two words, the protection, the optional page and the three words of the link. *)
Definition sizeof_VMRegion : Z := 64.

Definition VMRegion_new (start last prot box : Z) : VMRegion := MkVMRegion start last prot None box.

Definition set_page (page : option Z) (r : VMRegion) : VMRegion :=
  MkVMRegion (vr_start r) (vr_end r) (vr_prot r) page (vr_box r).

Definition region_mmu_prot (r : VMRegion) : Z :=
  let prot := 0 in
  let prot := if contains (vr_prot r) VM_PROT_READ then Z.lor prot MMU_PROT_READ else prot in
  let prot := if contains (vr_prot r) VM_PROT_WRITE then Z.lor prot MMU_PROT_WRITE else prot in
  let prot := if contains (vr_prot r) VM_PROT_EXEC then Z.lor prot MMU_PROT_EXEC else prot in
  prot.

(** ** The tree of regions *)

(** [last_region] is [upper_bound(Bound::Unbounded)], [range_count] the length of
    [range(Included(lo), Excluded(hi))]; [find_region], [update_region] and
    [remove_region] go to the cursor that [find] returns for a start address;
    [clear_order] lists the regions in the order in which [clear] drops them. *)
Class RegionTree (R : Type) := {
  no_regions : R;
  last_region : R -> option VMRegion;
  range_count : Z -> Z -> R -> nat;
  insert_region : VMRegion -> R -> R;
  find_region : Z -> R -> option VMRegion;
  update_region : Z -> (VMRegion -> VMRegion) -> R -> R;
  remove_region : Z -> R -> R;
  clear_order : R -> list VMRegion
}.

Definition start_le (r r' : VMRegion) : Prop := vr_start r <= vr_start r'.

(** Regions are kept in the order of their start.  Of two with the same start any
    may be found. *)
Class RegionTreeLaws (R : Type) `{RegionTree R} := {
  regions : R -> list VMRegion;
  tree_ok : R -> Prop;
  no_regions_ok : tree_ok no_regions /\ regions no_regions = [];
  regions_sorted t : tree_ok t -> StronglySorted start_le (regions t);
  last_region_ok t : tree_ok t -> last_region t = last (regions t);
  range_count_ok lo hi t : tree_ok t ->
    range_count lo hi t = length (filter (fun r => lo <= vr_start r < hi) (regions t));
  insert_region_ok r t : tree_ok t ->
    tree_ok (insert_region r t) /\ regions (insert_region r t) ≡ₚ r :: regions t;
  find_region_some k t r : tree_ok t -> find_region k t = Some r -> r ∈ regions t /\ vr_start r = k;
  find_region_none k t : tree_ok t -> find_region k t = None -> forall r, r ∈ regions t -> vr_start r <> k;
  update_region_ok k f t r : tree_ok t -> find_region k t = Some r -> vr_start (f r) = vr_start r ->
    tree_ok (update_region k f t) /\
    exists l1 l2, regions t = l1 ++ r :: l2 /\ regions (update_region k f t) = l1 ++ f r :: l2;
  remove_region_ok k t r : tree_ok t -> find_region k t = Some r ->
    tree_ok (remove_region k t) /\
    exists l1 l2, regions t = l1 ++ r :: l2 /\ regions (remove_region k t) = l1 ++ l2;
  clear_order_ok t : tree_ok t -> clear_order t ≡ₚ regions t
}.

(** ** Address spaces *)

Record VMAddressSpace (R : Type) := MkVMAddressSpace {
  vm_regions : R;
  mmu_map : Z
}.
Arguments MkVMAddressSpace {R} vm_regions mmu_map.
Arguments vm_regions {R} _.
Arguments mmu_map {R} _.

Section Vm.
Context {A : Type} `{PageAllocator A} {R : Type} `{RegionTree R}.
Context (kmem_slab_cache kmalloc_caches : Z).

Notation vmspace := (VMAddressSpace R).

(** A [Box] of [size] bytes from the global allocator of the kernel
    (kernel/memory.rs), that panics without memory (manticore.rs). *)
Definition box_new (size : Z) (a : A) (m : mem) : outcome (Z * A * mem) :=
  '(p, a, m) ← kmem_alloc kmem_slab_cache kmalloc_caches size a m;
  if p =? 0 then Fault Panic else Ok (p, a, m).

Definition box_drop (p size : Z) (a : A) (m : mem) : outcome (A * mem) :=
  kmem_free kmalloc_caches p size a m.

(** [VMRegion::delete], the destructor of a region. *)
Definition region_delete (r : VMRegion) (a : A) (m : mem) : A * mem :=
  match vr_page r with
  | Some page => page_free_small page a m
  | None => (a, m)
  end.

Definition region_drop (r : VMRegion) (a : A) (m : mem) : outcome (A * mem) :=
  let '(a, m) := region_delete r a m in
  box_drop (vr_box r) sizeof_VMRegion a m.

Definition VMAddressSpace_new (map : Z) : vmspace := MkVMAddressSpace no_regions map.

Fixpoint drop_regions (l : list VMRegion) (a : A) (m : mem) : outcome (A * mem) :=
  match l with
  | [] => Ok (a, m)
  | r :: l => '(a, m) ← region_drop r a m; drop_regions l a m
  end.

(** [VMAddressSpace::delete]. *)
Definition vmspace_delete (vs : vmspace) (a : A) (m : mem) : outcome (vmspace * A * mem) :=
  '(a, m) ← drop_regions (clear_order (vm_regions vs)) a m;
  Ok (MkVMAddressSpace no_regions (mmu_map vs), a, m).

Definition with_regions (vs : vmspace) (t : R) : vmspace := MkVMAddressSpace t (mmu_map vs).

Definition allocate (size align prot : Z) (vs : vmspace) (a : A) (m : mem)
  : outcome (Result (Z * Z) * vmspace * A * mem) :=
  if negb (is_aligned size PAGE_SIZE_SMALL) then Ok (Err EINVAL, vs, a, m)
  else
    let upper_end := match last_region (vm_regions vs) with
                     | Some region => vr_end region
                     | None => 0
                     end in
    let start := align_up upper_end align in
    let last := u64 (start + size) in
    if (0 <? range_count start last (vm_regions vs))%nat then Ok (Err EINVAL, vs, a, m)
    else
      '(box, a, m) ← box_new sizeof_VMRegion a m;
      Ok (Success (start, last),
          with_regions vs (insert_region (VMRegion_new start last prot box) (vm_regions vs)), a, m).

Definition allocate_fixed (start last prot : Z) (vs : vmspace) (a : A) (m : mem)
  : outcome (Result unit * vmspace * A * mem) :=
  let size := u64 (last - start) in
  if negb (is_aligned size PAGE_SIZE_SMALL) then Ok (Err EINVAL, vs, a, m)
  else if (0 <? range_count start last (vm_regions vs))%nat then Ok (Err EINVAL, vs, a, m)
  else
    '(box, a, m) ← box_new sizeof_VMRegion a m;
    Ok (Success tt,
        with_regions vs (insert_region (VMRegion_new start last prot box) (vm_regions vs)), a, m).

Definition deallocate (start last : Z) (vs : vmspace) (a : A) (m : mem)
  : outcome (Result unit * vmspace * A * mem) :=
  match find_region start (vm_regions vs) with
  | Some region =>
      if negb (vr_end region =? last) then Ok (Err EINVAL, vs, a, m)
      else
        let vs := with_regions vs (remove_region start (vm_regions vs)) in
        '(a, m) ← region_drop region a m;
        Ok (Success tt, vs, a, m)
  | None => Ok (Err EINVAL, vs, a, m)
  end.

(** [map]. *)
Definition map_region (start last page : Z) (vs : vmspace) (a : A) (m : mem)
  : outcome (Result unit * vmspace * A * mem) :=
  match find_region start (vm_regions vs) with
  | Some region =>
      if negb (vr_end region =? last) then Ok (Err EINVAL, vs, a, m)
      else
        let size := u64 (last - start) in
        let vs := with_regions vs (update_region start (set_page (Some page)) (vm_regions vs)) in
        '(err, a, m) ← mmu_map_range (mmu_map vs) start (virt_to_phys page) size
                         (region_mmu_prot region) MMU_USER_PAGE a m;
        if negb (err =? 0) then Ok (Err err, vs, a, m) else Ok (Success tt, vs, a, m)
  | None => Ok (Err EINVAL, vs, a, m)
  end.

Definition populate (start last : Z) (vs : vmspace) (a : A) (m : mem)
  : outcome (Result unit * vmspace * A * mem) :=
  match find_region start (vm_regions vs) with
  | Some region =>
      if negb (vr_end region =? last) then Ok (Err EINVAL, vs, a, m)
      else
        let size := u64 (last - start) in
        match (if size =? PAGE_SIZE_LARGE then Some (page_alloc_large a m)
               else if size =? PAGE_SIZE_SMALL then Some (page_alloc_small a m)
               else None) with
        | None => Ok (Err EINVAL, vs, a, m)
        | Some alloc =>
            '(page, a, m) ← alloc;
            if page =? 0 then Ok (Err ENOMEM, vs, a, m)
            else
              let vs := with_regions vs (update_region start (set_page (Some page)) (vm_regions vs)) in
              '(err, a, m) ← mmu_map_range (mmu_map vs) start (virt_to_phys page) (u64 (last - start))
                               (region_mmu_prot region) MMU_USER_PAGE a m;
              if negb (err =? 0) then Ok (Err err, vs, a, m) else Ok (Success tt, vs, a, m)
        end
  | None => Ok (Err EINVAL, vs, a, m)
  end.

(** The loop of [populate_from]: [n] pages are left. *)
Fixpoint populate_loop (n : nat) (offset start src_start : Z) (region : VMRegion) (vs : vmspace) (a : A) (m : mem)
  : outcome (Result unit * vmspace * A * mem) :=
  match n with
  | O => Ok (Success tt, vs, a, m)
  | S n =>
      '(page, a, m) ← page_alloc_small a m;
      if page =? 0 then Ok (Err ENOMEM, vs, a, m)
      else
        let vs := with_regions vs (update_region start (set_page (Some page)) (vm_regions vs)) in
        let m := memcpy m page (u64 (src_start + offset)) (Z.to_nat PAGE_SIZE_SMALL) in
        '(err, a, m) ← mmu_map_range (mmu_map vs) (u64 (start + offset)) (virt_to_phys page) PAGE_SIZE_SMALL
                         (region_mmu_prot region) MMU_USER_PAGE a m;
        if negb (err =? 0) then Ok (Err err, vs, a, m)
        else populate_loop n (offset + PAGE_SIZE_SMALL) start src_start region vs a m
  end.

Definition populate_from (start last src_start src_end : Z) (vs : vmspace) (a : A) (m : mem)
  : outcome (Result unit * vmspace * A * mem) :=
  let size := u64 (last - start) in
  let src_size := u64 (src_end - src_start) in
  if size <? src_size then Ok (Err EINVAL, vs, a, m)
  else
    match find_region start (vm_regions vs) with
    | Some region =>
        if negb (vr_end region =? last) then Ok (Err EINVAL, vs, a, m)
        else populate_loop (Z.to_nat ((size + PAGE_SIZE_SMALL - 1) / PAGE_SIZE_SMALL)) 0 start src_start region vs a m
    | None => Ok (Err EINVAL, vs, a, m)
    end.

End Vm.

(** ** Regions in a sorted list *)

Definition region_list := list VMRegion.

Fixpoint insert_sorted (r : VMRegion) (l : region_list) : region_list :=
  match l with
  | [] => [r]
  | r' :: l' => if vr_start r <? vr_start r' then r :: l else r' :: insert_sorted r l'
  end.

Fixpoint update_first (k : Z) (f : VMRegion -> VMRegion) (l : region_list) : region_list :=
  match l with
  | [] => []
  | r :: l => if vr_start r =? k then f r :: l else r :: update_first k f l
  end.

Fixpoint remove_first (k : Z) (l : region_list) : region_list :=
  match l with
  | [] => []
  | r :: l => if vr_start r =? k then l else r :: remove_first k l
  end.

#[global] Instance region_list_tree : RegionTree region_list := {
  no_regions := [];
  last_region := last;
  range_count lo hi l := length (List.filter (fun r => (lo <=? vr_start r) && (vr_start r <? hi)) l);
  insert_region := insert_sorted;
  find_region k l := List.find (fun r => vr_start r =? k) l;
  update_region := update_first;
  remove_region := remove_first;
  clear_order l := l
}.
