(* ===== verification/VmProof.v ===== *)
(** * Address spaces: the allocators and the page tables together

    [kernel_inv] is the invariant of the slab allocator, the page allocator and
    the page tables of one address space over one memory.  Each of the calls of
    kernel/vm.rs into them keeps it, and says what it does to everybody else's
    memory and to the translation of addresses. *)

From Stdlib Require Import Sorting.Sorted.
From S2P Require Import Prelude Align Mem PageAlloc PageAllocProof Printf LibcString.
From S2P Require Import Kmem KmemProof KmemAlloc KmemInit KmemTheorems Mmu MmuProof MmuMap MmuTheorems Vm.
#[local] Open Scope Z_scope.

(** ** The list of regions *)

Lemma insert_sorted_perm r l : insert_sorted r l ≡ₚ r :: l.
Proof.
  induction l as [|r' l IH]; [done|]. cbn [insert_sorted]. case_match; [done|]. rewrite IH. constructor.
Qed.

Lemma insert_sorted_sorted r l : StronglySorted start_le l -> StronglySorted start_le (insert_sorted r l).
Proof.
  induction 1 as [|r' l Hl IH Hr]; cbn [insert_sorted]; [repeat constructor|].
  destruct (Z.ltb_spec (vr_start r) (vr_start r')) as [Hlt|Hge].
  - constructor; [by constructor|]. constructor; [unfold start_le; lia|].
    eapply Forall_impl; [exact Hr|]. unfold start_le. intros x Hx. lia.
  - constructor; [done|]. rewrite insert_sorted_perm. constructor; [unfold start_le; lia|done].
Qed.

(** Both of the operations on the first region with a given start. *)
Lemma region_find_split k (l : region_list) r :
  List.find (fun r => vr_start r =? k) l = Some r ->
  exists l1 l2, l = l1 ++ r :: l2 /\ vr_start r = k /\ remove_first k l = l1 ++ l2 /\
    forall f, update_first k f l = l1 ++ f r :: l2.
Proof.
  induction l as [|r' l IH]; cbn [List.find remove_first update_first]; [done|].
  destruct (Z.eqb_spec (vr_start r') k) as [Hk|Hk].
  - intros [= ->]. by exists [], l.
  - intros Hf. destruct (IH Hf) as (l1 & l2 & -> & Hs & Hr & Hu). exists (r' :: l1), l2.
    split_and!; [done|done|by rewrite Hr|]. intros f. by rewrite Hu.
Qed.

Lemma sorted_middle l1 l2 (r r' : VMRegion) :
  vr_start r' = vr_start r -> StronglySorted start_le (l1 ++ r :: l2) -> StronglySorted start_le (l1 ++ r' :: l2).
Proof.
  intros Hr. induction l1 as [|x l1 IH]; cbn [app]; intros Hs; apply StronglySorted_inv in Hs as [Hs Hx].
  - constructor; [done|]. unfold start_le in *. by rewrite Hr.
  - constructor; [auto|]. rewrite Forall_app, Forall_cons in *. unfold start_le in *. by rewrite Hr.
Qed.

Lemma sorted_remove l1 l2 (r : VMRegion) : StronglySorted start_le (l1 ++ r :: l2) -> StronglySorted start_le (l1 ++ l2).
Proof.
  induction l1 as [|x l1 IH]; cbn [app]; intros Hs; apply StronglySorted_inv in Hs as [Hs Hx]; [done|].
  constructor; [auto|]. rewrite Forall_app, Forall_cons in *. tauto.
Qed.

#[export] Instance region_list_laws : RegionTreeLaws region_list.
Proof.
  refine {| regions := fun l => l; tree_ok := StronglySorted start_le |}; try done.
  - split; [constructor|done].
  - intros lo hi t _. cbn [range_count region_list_tree]. induction t as [|r t IH]; [done|].
    rewrite filter_cons. cbn [List.filter]. case_decide; destruct (Z.leb_spec lo (vr_start r)),
      (Z.ltb_spec (vr_start r) hi); cbn [andb]; try lia; cbn [length]; lia.
  - intros r t Ht. split; [by apply insert_sorted_sorted|apply insert_sorted_perm].
  - intros k t r _ Hf. destruct (region_find_split k t r Hf) as (l1 & l2 & -> & Hs & _).
    split; [|done]. rewrite elem_of_app, elem_of_cons. tauto.
  - intros k t _ Hf r Hr Hk. apply list_elem_of_In in Hr. pose proof (List.find_none _ _ Hf r Hr) as Hn. cbv beta in Hn. lia.
  - intros k f t r Ht Hf Hs. destruct (region_find_split k t r Hf) as (l1 & l2 & -> & _ & _ & Hu).
    cbn [update_region region_list_tree]. rewrite Hu. split; [by apply (sorted_middle l1 l2 r)|by exists l1, l2].
  - intros k t r Ht Hf. destruct (region_find_split k t r Hf) as (l1 & l2 & -> & _ & Hu & _).
    cbn [remove_region region_list_tree]. rewrite Hu. split; [by apply (sorted_remove l1 l2 r)|by exists l1, l2].
Defined.

(** ** The regions of an address space *)

Definition apart (r r' : VMRegion) : Prop := vr_end r <= vr_start r' \/ vr_end r' <= vr_start r.

Record region_ok (r : VMRegion) : Prop := {
  rk_range : 0 <= vr_start r < vr_end r /\ vr_end r < 2 ^ 64;
  rk_start : (4096 | vr_start r);
  rk_end : (4096 | vr_end r)
}.

#[global] Instance apart_sym : Symmetric apart.
Proof. intros r r'. unfold apart. tauto. Qed.

(** Pairwise, in any order. *)
Lemma apart_perm l l' : l ≡ₚ l' -> ForallOrdPairs apart l -> ForallOrdPairs apart l'.
Proof.
  induction 1 as [|x l l' Hp IH|x y l|l1 l2 l3 _ IH1 _ IH2]; intros Hl; [done| | |auto].
  - inversion Hl; subst. constructor; [by rewrite <- Hp|auto].
  - inversion Hl as [|? ? H1 H2]; subst. inversion H2; subst. apply Forall_cons in H1 as [H1 H1'].
    constructor; [constructor; [by symmetry|done]|by constructor].
Qed.

Section Spaces.
Context {R : Type} `{RegionTreeLaws R}.

Record vm_ok (vs : VMAddressSpace R) : Prop := {
  vo_tree : tree_ok (vm_regions vs);
  vo_regions : Forall region_ok (regions (vm_regions vs));
  vo_apart : ForallOrdPairs apart (regions (vm_regions vs))
}.

(** The end of the highest region. *)
Definition top (vs : VMAddressSpace R) : Z :=
  match last_region (vm_regions vs) with
  | Some r => vr_end r
  | None => 0
  end.

Lemma sorted_last (l : list VMRegion) r0 :
  StronglySorted start_le l -> Forall region_ok l -> ForallOrdPairs apart l -> last l = Some r0 ->
  forall r, r ∈ l -> vr_end r <= vr_end r0.
Proof.
  induction 1 as [|x l Hl IH Hx]; intros Hok Hap Hlast r Hr; [by apply not_elem_of_nil in Hr|].
  apply Forall_cons in Hok as [Hx' Hok]. inversion Hap as [|? ? Ha Hap']; subst.
  destruct l as [|y l]; [apply list_elem_of_singleton in Hr; simplify_eq/=; lia|].
  change (last (x :: y :: l)) with (last (y :: l)) in Hlast.
  assert (r0 ∈ y :: l) as Hr0 by (by apply last_Some_elem_of).
  apply elem_of_cons in Hr as [->|Hr]; [|by apply IH].
  rewrite Forall_forall in Hx, Ha, Hok. pose proof (Hx r0 Hr0). pose proof (Ha r0 Hr0) as [?|?];
  pose proof (rk_range _ Hx'); pose proof (rk_range _ (Hok r0 Hr0)); unfold start_le in *; lia.
Qed.

Lemma top_spec vs :
  vm_ok vs -> 0 <= top vs < 2 ^ 64 /\ (4096 | top vs) /\
    forall r, r ∈ regions (vm_regions vs) -> vr_end r <= top vs.
Proof.
  intros [Ht Hok Hap]. unfold top. rewrite last_region_ok by done.
  destruct (last (regions (vm_regions vs))) as [r0|] eqn:E.
  - assert (region_ok r0) as [Hr Hs He]. { rewrite Forall_forall in Hok. by apply Hok, last_Some_elem_of. }
    split_and!; [lia|lia|done|]. apply sorted_last; [by apply regions_sorted|done..].
  - apply last_None in E. rewrite E. split_and!; [lia|lia|by exists 0|]. intros r Hr. by apply not_elem_of_nil in Hr.
Qed.

End Spaces.

(** ** The bytes of the page tables *)

Section TableBytes.
Context {A : Type} `{PageAllocatorLaws A}.

Definition table_byte (T : gmap Z role) (x : Z) : Prop := exists t l p, T !! t = Some (l, p) /\ in_table t x.

(** The tables and their meaning depend on their bytes only. *)
Lemma tables_same_entry T (m m' : mem) t l p i :
  (forall x, table_byte T x -> load8 m' x = load8 m x) ->
  T !! t = Some (l, p) -> 0 <= i < 512 -> entry m' t i = entry m t i.
Proof.
  intros Hm Ht Hi. unfold entry. apply load_ext. intros x Hx. apply Hm. exists t, l, p. split; [done|].
  unfold in_table. simpl in Hx. lia.
Qed.

Lemma translate_same T cr3 (a : A) m m' va :
  pt_inv T cr3 a m -> (forall x, table_byte T x -> load8 m' x = load8 m x) ->
  translate m' cr3 va = translate m cr3 va.
Proof.
  intros HT Hm. unfold translate. replace (hw_walk 4 m' cr3 va) with (hw_walk 4 m cr3 va); [done|].
  symmetry. apply (walk_frame T cr3 a m m' cr3 4 0 512 HT (pt_root _ _ _ _ HT)) with (p := 0).
  - intros t l p i Ht Hi _. by apply (tables_same_entry T m m' t l p).
  - apply HT.
  - unfold va_prefix. change (level_shift 4 + 9) with 48. apply Z.div_small, Z.mod_pos_bound. lia.
  - intros _ Hi. pose proof (va_index_range 4 va). lia.
Qed.

Lemma pt_inv_frame T cr3 (a a' : A) m m' :
  pt_inv T cr3 a m -> pa_rep a' m' -> (forall x, pa_own a' x -> KERNEL_VMA <= x /\ ~ table_byte T x) ->
  (forall x, table_byte T x -> load8 m' x = load8 m x) -> pt_inv T cr3 a' m'.
Proof.
  intros [Hpa Hk Hr Hp Ht] Hpa' Hown Hm. split; [done|by intros x Hx; apply Hown|done| |].
  - intros t l p Htt. destruct (Hp t l p Htt) as [->|(t' & H1 & H2 & H3 & H4)]; [by left|right].
    exists t'. assert (0 <= p mod 512 < 512) by (apply Z.mod_pos_bound; lia).
    by rewrite (tables_same_entry T m m' t' _ _ _ Hm H1).
  - intros t l p Htt. destruct (Ht t l p Htt) as [H1 H2 H3 H4 H5]. split; [done..| |].
    + intros x Hx Ho. apply (proj2 (Hown x Ho)). by exists t, l, p.
    + intros i Hl Hi. rewrite (tables_same_entry T m m' t l p i Hm Htt Hi). auto.
Qed.

End TableBytes.

(** ** The allocators and the page tables *)

Section Kernel.
Context {A : Type} `{PageAllocatorLaws A}.
Context (sc kc : Z) (Hkc : 0 < kc).
#[local] Set Default Proof Using "All".

(** The page tables are in memory that the allocators do not use, and what the
    allocators use is in the direct mapping of the kernel. *)
Record kernel_inv (K : kstate) (T : gmap Z role) (cr3 : Z) (a : A) (m : mem) : Prop := {
  ke_kmem : kmem_ready sc kc K a m;
  ke_pt : pt_inv T cr3 a m;
  ke_kernel x : ~ client K a x -> KERNEL_VMA <= x;
  ke_tables t l p x : T !! t = Some (l, p) -> in_table t x -> client K a x
}.

(** The bytes that belong neither to an allocator nor to a page table. *)
Definition others (K : kstate) (T : gmap Z role) (a : A) (x : Z) : Prop := client K a x /\ ~ table_byte T x.

Lemma own_not_client K (a : A) m x : kinv K a m -> pa_own a x -> ~ client K a x.
Proof. intros HK Hx Hc. by apply (client_not_pa K a m x). Qed.

(** What a step may do: nobody loses memory or finds other contents in it. *)
Record keeps (K : kstate) (T : gmap Z role) (a : A) (m : mem)
  (K' : kstate) (T' : gmap Z role) (a' : A) (m' : mem) : Prop := {
  kp_client x : client K a x -> client K' a' x;
  kp_others x : others K T a x -> others K' T' a' x;
  kp_mem x : others K T a x -> load8 m' x = load8 m x
}.

Lemma keeps_refl K T (a : A) m : keeps K T a m K T a m.
Proof. by split. Qed.

Lemma keeps_trans K1 T1 (a1 : A) m1 K2 T2 a2 m2 K3 T3 a3 m3 :
  keeps K1 T1 a1 m1 K2 T2 a2 m2 -> keeps K2 T2 a2 m2 K3 T3 a3 m3 -> keeps K1 T1 a1 m1 K3 T3 a3 m3.
Proof.
  intros [H1 H2 H3] [H4 H5 H6]. split; [by auto|by auto|]. intros x Hx. rewrite (H6 x (H2 x Hx)). auto.
Qed.

(** Memory of the slab allocator. *)
Lemma kmem_alloc_kernel K T cr3 (a : A) m size :
  kernel_inv K T cr3 a m -> 0 <= size ->
  exists p a' m' K', kmem_alloc sc kc size a m = Ok (p, a', m') /\ kernel_inv K' T cr3 a' m' /\
    keeps K T a m K' T a' m' /\ (forall va, translate m' cr3 va = translate m cr3 va).
Proof.
  intros [Hk Ht Hv Htb] Hs.
  destruct (kmem_alloc_spec sc kc Hkc K a m size Hk Hs) as (p & a' & m' & K' & E & Hk' & HP & _ & n & _ & Hg).
  assert (forall x, client K a x -> client K' a' x) as Hc by (intros x; by apply (step_post_client K a m K' a' m')).
  assert (forall x, table_byte T x -> client K a x) as Htc by (intros x (t & l & q & Hl & Hx); eauto).
  assert (forall x, table_byte T x -> load8 m' x = load8 m x) as Htm.
  { intros x Hx. apply (sp_mem _ _ _ _ _ _ HP). auto. }
  exists p, a', m', K'. split_and!; [done| | |by intros va; apply (translate_same T cr3 a)].
  - split; [done| |intros x Hx; apply Hv; auto|eauto].
    apply (pt_inv_frame T cr3 a a' m m'); [done|by apply Hk'| |done].
    intros x Hx. assert (~ client K' a' x) as Hn by (apply (own_not_client K' a' m' x); [apply Hk'|done]).
    split; [apply Hv; auto|]. intros Hx'. apply Hn. auto.
  - split; [done| |]; intros x [Hx Hx']; [split; auto|]. by apply (sp_mem _ _ _ _ _ _ HP).
Qed.

Lemma box_new_kernel K T cr3 (a : A) m size :
  kernel_inv K T cr3 a m -> 0 <= size ->
  (box_new sc kc size a m = Fault Panic /\ exists a' m', kmem_alloc sc kc size a m = Ok (0, a', m')) \/
  exists p a' m' K', box_new sc kc size a m = Ok (p, a', m') /\ kernel_inv K' T cr3 a' m' /\
    keeps K T a m K' T a' m' /\ (forall va, translate m' cr3 va = translate m cr3 va).
Proof.
  intros HK Hs. destruct (kmem_alloc_kernel K T cr3 a m size HK Hs) as (p & a' & m' & K' & E & HP).
  unfold box_new. rewrite E, Ok_bind. destruct (Z.eqb_spec p 0) as [->|_]; [left|right]; eauto 10.
Qed.

(** A page for the process, of either size. *)
Definition page_alloc (size : Z) (a : A) (m : mem) : outcome (Z * A * mem) :=
  if size =? PAGE_SIZE_LARGE then page_alloc_large a m else page_alloc_small a m.

Definition is_page_size (size : Z) : Prop := size = PAGE_SIZE_SMALL \/ size = PAGE_SIZE_LARGE.

Lemma page_alloc_law size (a : A) m :
  is_page_size size -> pa_rep a m ->
  page_alloc size a m = Ok (0, a, m) \/
  exists p a' m', page_alloc size a m = Ok (p, a', m') /\
    0 < p /\ (size | p) /\ p + size < 2 ^ 64 /\ (forall x, p <= x < p + size -> pa_own a x) /\ pa_rep a' m' /\
    (forall x, pa_own a' x <-> pa_own a x /\ ~ p <= x < p + size) /\
    (forall x, ~ pa_own a x -> load8 m' x = load8 m x).
Proof.
  unfold page_alloc. intros [->| ->] Hpa.
  - destruct (pa_alloc_small a m Hpa) as [[_ ?]|?]; [by left|by right].
  - by apply pa_alloc_large.
Qed.

Lemma page_alloc_kernel K T cr3 (a : A) m size :
  kernel_inv K T cr3 a m -> is_page_size size ->
  page_alloc size a m = Ok (0, a, m) \/
  exists p a' m', page_alloc size a m = Ok (p, a', m') /\ kernel_inv K T cr3 a' m' /\
    0 < p /\ (size | p) /\ p + size < 2 ^ 64 /\ KERNEL_VMA <= p /\
    (forall x, p <= x < p + size -> others K T a' x /\ ~ client K a x) /\
    keeps K T a m K T a' m' /\ (forall va, translate m' cr3 va = translate m cr3 va).
Proof.
  intros [Hk Ht Hv Htb] Hs. pose proof (kr_inv _ _ _ _ _ Hk) as HK.
  destruct (page_alloc_law size a m Hs (ki_pa _ _ _ HK)) as [E|(p & a' & m' & E & Hp & Hd & He & Hin & Hpa & Hown & Hm)]; [by left|right].
  assert (forall x, client K a x -> ~ pa_own a x) as Hca by (intros x; by apply (client_not_pa K a m)).
  assert (forall x, table_byte T x -> client K a x) as Htc by (intros x (t & l & q & Hl & Hx); eauto).
  assert (forall x, client K a x -> client K a' x) as Hc.
  { intros x [Hx|[Hx Hx']]; [by left|right]. split; [done|]. rewrite Hown. tauto. }
  assert (forall x, p <= x < p + size -> ~ client K a x) as Hpn by (intros x Hx Hx'; by apply (Hca x), Hin).
  assert (kinv K a' m') as HK'.
  { apply (kinv_frame K a a' m); [done|done| |].
    - intros x Hx. apply Hown in Hx as [Hx _]. by apply (ki_free _ _ _ HK).
    - intros x Hx _. apply Hm. intros Hx'. by apply Hx, (ki_free _ _ _ HK). }
  exists p, a', m'. split_and!; [done| |done|done|done| | | |].
  - split; [| |by intros x Hx; apply Hv; auto|eauto].
    + destruct Hk as [_ H1 H2]. by split.
    + apply (pt_inv_frame T cr3 a a' m); [done|done| |by intros x Hx; apply Hm; auto].
      intros x Hx. apply Hown in Hx as [Hx _]. split; [by apply (pt_kernel _ _ _ _ Ht)|]. intros Hx'. by apply (Hca x); [apply Htc|].
  - apply Hv, Hpn. assert (0 < size) by (by destruct Hs as [-> | ->]). lia.
  - intros x Hx. split; [|by apply Hpn]. split; [right|].
    + split; [by apply (ki_free _ _ _ HK), Hin|]. rewrite Hown. tauto.
    + intros Hx'. by apply (Hpn x Hx), Htc.
  - split; [done| |]; intros x [Hx Hx']; [by split; [apply Hc|]|]. apply Hm. auto.
  - intros va. apply (translate_same T cr3 a); [done|]. intros x Hx. apply Hm. auto.
Qed.

(** Mapping a range. *)
Lemma map_range_kernel K T cr3 (a : A) m vaddr paddr size prot flags :
  kernel_inv K T cr3 a m -> range_ok vaddr paddr size ->
  let lo := va48 vaddr in
  let hi := va48 vaddr + page_bytes size in
  exists r T' a' m', mmu_map_range cr3 vaddr paddr size prot flags a m = Ok (r, a', m') /\
    kernel_inv K T' cr3 a' m' /\ keeps K T a m K T' a' m' /\
    (r = 0 \/ r = - ENOMEM \/ r = - EINVAL) /\
    (r = 0 -> forall va, translate m' cr3 va =
       if decide (lo <= va48 va < hi) then Some (paddr + (va48 va - lo)) else translate m cr3 va) /\
    (forall va, ~ lo <= va48 va < hi -> translate m' cr3 va = translate m cr3 va).
Proof.
  intros [Hk Ht Hv Htb] HR lo hi. pose proof (kr_inv _ _ _ _ _ Hk) as HK.
  destruct (map_range_spec T cr3 a m vaddr paddr size prot flags Ht HR) as (r & p' & T' & a' & m' & E & [I [Gs Gm Gf] B P]).
  assert (forall x, client K a x -> ~ pa_own a x) as Hca by (intros x; by apply (client_not_pa K a m)).
  assert (forall x, table_byte T x -> table_byte T' x) as Hts.
  { intros x (t & l & q & Hl & Hx). exists t, l, q. split; [|done]. by eapply lookup_weaken. }
  assert (forall x, table_byte T' x -> ~ pa_own a' x) as Htn.
  { intros x (t & l & q & Hl & Hx). by apply (to_free _ _ _ _ _ _ (pt_table _ _ _ _ I t l q Hl)). }
  assert (forall x, pa_own a' x -> pa_own a x) as Hsub.
  { intros x Hx. destruct (Gm x (or_introl Hx)) as [?|Hx']; [done|]. by destruct (Htn x); [apply Hts|]. }
  assert (forall x, client K a x -> client K a' x) as Hc.
  { intros x [Hx|[Hx Hx']]; [by left|right]. split; [done|]. auto. }
  assert (forall x, others K T a x -> ~ pt_mem T a x) as Ho.
  { intros x [Hx Hx'] [?|?]; [by apply (Hca x)|done]. }
  exists r, T', a', m'. split_and!; [done| | |tauto| |].
  - split; [|done|by intros x Hx; apply Hv; auto|].
    + destruct Hk as [_ H1 H2]. split; [|done..]. apply (kinv_frame K a a' m); [done|apply I| |].
      * intros x Hx. by apply (ki_free _ _ _ HK), Hsub.
      * intros x Hx Hx'. apply Gf. intros [Hp|(t & l & q & Hl & Hp)]; [by apply Hx, (ki_free _ _ _ HK)|].
        destruct (Htb t l q x Hl Hp) as [?|[? _]]; done.
    + intros t l q x Hl Hx. destruct (Gm x) as [Hp|(t' & l' & q' & Hl' & Hx')]; [right; by exists t, l, q| |eauto].
      right. split; [by apply (ki_free _ _ _ HK)|]. apply Htn. by exists t, l, q.
  - split; [done| |]; intros x Hx; [|by apply Gf, Ho]. split; [apply Hc, Hx|]. intros Hx'.
    apply (Ho x Hx), Gm. by right.
  - intros -> va. destruct P as [(_ & _ & P)|[P|P]]; [|discriminate P..]. rewrite P. subst lo hi. destruct (decide _); [f_equal; lia|done].
  - intros va Hva. by destruct (B va) as [?|[? _]].
Qed.

End Kernel.
