(* ===== verification/VmTheorems.v ===== *)
(** * Theorems on address spaces

    [allocate] returns addresses of its own, and [populate] maps a fresh page there
    and disturbs nobody. *)

From Stdlib Require Import Sorting.Sorted.
From S2P Require Import Prelude Align Mem PageAlloc PageAllocProof Printf LibcString.
From S2P Require Import Kmem KmemProof KmemAlloc KmemInit KmemTheorems Mmu MmuProof MmuMap MmuTheorems Vm VmProof.
#[local] Open Scope Z_scope.

Section Regions.
Context {R : Type} `{RegionTreeLaws R}.

Lemma vm_ok_insert (vs : VMAddressSpace R) r :
  vm_ok vs -> region_ok r -> top vs <= vr_start r ->
  vm_ok (with_regions vs (insert_region r (vm_regions vs))).
Proof.
  intros Hvs Hr Hs. destruct (top_spec vs Hvs) as (_ & _ & Htop). destruct Hvs as [Ht Hok Hap].
  destruct (insert_region_ok r _ Ht) as [Ht' Hp]. split; cbn [vm_regions with_regions]; [done| |].
  - rewrite Hp. by constructor.
  - apply (apart_perm (r :: regions (vm_regions vs))); [done|]. constructor; [|done].
    apply Forall_forall. intros r' Hr'. right. specialize (Htop r' Hr'). lia.
Qed.

(** A change of the page of a region. *)
Lemma set_page_perm (vs : VMAddressSpace R) start page r l :
  tree_ok (vm_regions vs) -> find_region start (vm_regions vs) = Some r -> regions (vm_regions vs) ≡ₚ r :: l ->
  tree_ok (update_region start (set_page page) (vm_regions vs)) /\
  regions (update_region start (set_page page) (vm_regions vs)) ≡ₚ set_page page r :: l.
Proof.
  intros Ht Hf Hl. destruct (update_region_ok start (set_page page) _ r Ht Hf eq_refl) as (Ht' & l1 & l2 & E1 & E2).
  split; [done|]. rewrite E2. rewrite E1 in Hl. rewrite <- Permutation_middle in Hl. apply Permutation_cons_inv in Hl.
  by rewrite <- Permutation_middle, Hl.
Qed.

Lemma vm_ok_same_ranges (vs : VMAddressSpace R) t r r' l :
  vm_ok vs -> tree_ok t -> regions (vm_regions vs) ≡ₚ r :: l -> regions t ≡ₚ r' :: l ->
  vr_start r' = vr_start r -> vr_end r' = vr_end r -> vm_ok (with_regions vs t).
Proof.
  intros [_ Hok Hap] Ht Hl Hl' Hs He. apply (apart_perm _ _ Hl) in Hap. rewrite Hl in Hok.
  apply Forall_cons in Hok as [[K1 K2 K3] Hok]. inversion Hap as [|? ? Ha Hap']; subst.
  split; cbn [vm_regions with_regions]; [done| |].
  - rewrite Hl'. constructor; [|done]. split; by rewrite ?Hs, ?He.
  - apply (apart_perm (r' :: l)); [done|]. constructor; [|done]. unfold apart in *. by rewrite Hs, He.
Qed.

(** The next addresses of an address space. *)
Definition next_start (vs : VMAddressSpace R) (k : Z) : Z := align_up (top vs) (2 ^ k).

Lemma next_start_spec vs k :
  vm_ok vs -> 0 <= k < 64 -> top vs + 2 ^ k - 1 < 2 ^ 64 ->
  top vs <= next_start vs k < top vs + 2 ^ k /\ (2 ^ k | next_start vs k) /\ (4096 | next_start vs k).
Proof.
  intros Hvs Hk Ho. destruct (top_spec vs Hvs) as ([Ht1 Ht2] & Hd & _). unfold next_start.
  assert (2 ^ k | align_up (top vs) (2 ^ k)) as Hdk.
  { apply Z.mod_divide; [pose proof (pow2_pos k); lia|]. by apply align_up_mod. }
  split_and!; [by apply align_up_bounds..|done|]. destruct (decide (12 <= k)) as [Hle|Hgt].
  - apply (Z.divide_trans _ (2 ^ k)); [|done]. change 4096 with (2 ^ 12). exists (2 ^ (k - 12)).
    rewrite <- Z.pow_add_r by lia. f_equal. lia.
  - rewrite align_up_id; [done|lia|lia| |lia]. apply Z.mod_divide; [pose proof (pow2_pos k); lia|].
    apply (Z.divide_trans _ 4096); [|done]. change 4096 with (2 ^ 12). exists (2 ^ (12 - k)).
    rewrite <- Z.pow_add_r by lia. f_equal. lia.
Qed.

(** Nothing starts above the highest end. *)
Lemma range_above vs lo hi : vm_ok vs -> top vs <= lo -> range_count lo hi (vm_regions vs) = 0%nat.
Proof.
  intros Hvs Hlo. destruct (top_spec vs Hvs) as (_ & _ & Htop). destruct Hvs as [Ht Hok _].
  rewrite range_count_ok by done. replace (filter _ _) with ([] : list VMRegion); [done|]. symmetry.
  apply elem_of_nil_inv. intros r Hr. apply list_elem_of_filter in Hr as [Hr' Hr]. rewrite Forall_forall in Hok.
  pose proof (rk_range _ (Hok r Hr)). pose proof (Htop r Hr). lia.
Qed.

Lemma find_top vs r : vm_ok vs -> top vs <= vr_start r ->
  find_region (vr_start r) (insert_region r (vm_regions vs)) = Some r.
Proof.
  intros Hvs Hs. destruct (top_spec vs Hvs) as (_ & _ & Htop). destruct Hvs as [Ht Hok _].
  destruct (insert_region_ok r _ Ht) as [Ht' Hp]. rewrite Forall_forall in Hok.
  destruct (find_region _ _) as [r'|] eqn:E.
  - destruct (find_region_some _ _ _ Ht' E) as [Hin Hst]. rewrite Hp in Hin. apply elem_of_cons in Hin as [->|Hin]; [done|].
    pose proof (rk_range _ (Hok r' Hin)). pose proof (Htop r' Hin). lia.
  - by destruct (find_region_none _ _ Ht' E r); [rewrite Hp; left|].
Qed.

End Regions.

Section Alloc.
Context {A : Type} `{PageAllocatorLaws A} {R : Type} `{RegionTreeLaws R}.
Context (sc kc : Z) (Hkc : 0 < kc).
#[local] Set Default Proof Using "All".

Definition new_region (vs : VMAddressSpace R) (size k prot box : Z) : VMRegion :=
  VMRegion_new (next_start vs k) (next_start vs k + size) prot box.

Lemma new_region_ok vs size k prot box :
  vm_ok vs -> 0 < size -> (4096 | size) -> 0 <= k < 64 -> top vs + 2 ^ k - 1 < 2 ^ 64 -> next_start vs k + size < 2 ^ 64 ->
  region_ok (new_region vs size k prot box).
Proof.
  intros Hvs Hs Hd Hk Ho He. destruct (next_start_spec vs k Hvs Hk Ho) as (Hb & _ & Hn).
  destruct (top_spec vs Hvs) as (Ht & _). split; cbn; [lia|done|by apply Z.divide_add_r].
Qed.

Lemma allocate_spec K T (a : A) m (vs : VMAddressSpace R) size k prot :
  vm_ok vs -> kernel_inv sc kc K T (mmu_map vs) a m -> 0 < size -> (4096 | size) ->
  0 <= k < 64 -> top vs + 2 ^ k - 1 < 2 ^ 64 -> next_start vs k + size < 2 ^ 64 ->
  (allocate sc kc size (2 ^ k) prot vs a m = Fault Panic /\
   exists a' m', kmem_alloc sc kc sizeof_VMRegion a m = Ok (0, a', m')) \/
  exists box a' m' K',
    allocate sc kc size (2 ^ k) prot vs a m =
      Ok (Success (next_start vs k, next_start vs k + size),
          with_regions vs (insert_region (new_region vs size k prot box) (vm_regions vs)), a', m') /\
    kernel_inv sc kc K' T (mmu_map vs) a' m' /\ keeps K T a m K' T a' m' /\
    (forall va, translate m' (mmu_map vs) va = translate m (mmu_map vs) va).
Proof.
  intros Hvs HK Hs Hd Hk Ho He. destruct (next_start_spec vs k Hvs Hk Ho) as (Hb & _ & _).
  destruct (top_spec vs Hvs) as (Ht & _). unfold allocate.
  replace (is_aligned size PAGE_SIZE_SMALL) with true by (symmetry; apply Z.eqb_eq; by apply Z.mod_divide).
  cbn [negb]. fold (top vs). fold (next_start vs k). rewrite u64_small by lia.
  rewrite range_above by (done || lia). cbn [Nat.ltb Nat.leb].
  destruct (box_new_kernel sc kc Hkc K T (mmu_map vs) a m sizeof_VMRegion HK) as [[-> ?]|(box & a' & m' & K' & -> & HP)];
    [done|by left|right]. rewrite Ok_bind. by exists box, a', m', K'.
Qed.

(** The physical address of a page of the kernel, and its range. *)
Lemma page_range_ok page start size :
  is_page_size size -> KERNEL_VMA <= page -> (size | page) -> page + size < 2 ^ 64 ->
  0 <= start -> (4096 | start) -> start + size <= 2 ^ 47 ->
  virt_to_phys page = page - KERNEL_VMA /\ range_ok start (page - KERNEL_VMA) size /\
  va48 start = start /\ page_bytes size = size.
Proof.
  intros Hs Hv Hd He Hs0 Hst Hend.
  assert (0 < size <= 2 ^ 21 /\ page_bytes size = size /\ (4096 | size)) as (Hb & Hpb & Hs4).
  { destruct Hs as [-> | ->]; (split; [done|]); (split; [reflexivity|]); [by exists 1|by exists 512]. }
  assert (va48 start = start) as Hva by (apply Z.mod_small; lia).
  assert (size | KERNEL_VMA) as HdK by (destruct Hs as [-> | ->]; [by exists (KERNEL_VMA / 4096)|by exists (KERNEL_VMA / 2 ^ 21)]).
  split_and!; [apply u64_small; unfold KERNEL_VMA in *; lia| |done|done].
  split; rewrite ?Hpb, ?Hva; change PAGE_SIZE_LARGE with (2 ^ 21); [lia|lia|lia|unfold KERNEL_VMA in *; lia|done| |].
  - apply (Z.divide_trans _ size); [done|]. by apply Z.divide_sub_r.
  - pose proof (align_up_bounds start 21 ltac:(lia) ltac:(lia) ltac:(lia)) as Hu.
    pose proof (align_down_bounds (start + size) 21 ltac:(lia) ltac:(lia)) as Hw.
    intros Hlt. assert (2 ^ 21 | align_up start (2 ^ 21)) as [q Hq].
    { apply Z.mod_divide; [lia|]. apply align_up_mod; lia. }
    assert (2 ^ 21 | align_down (start + size) (2 ^ 21)) as [q' Hq'].
    { apply Z.mod_divide; [lia|]. apply align_down_mod; lia. }
    assert (size = 2 ^ 21 /\ start = align_up start (2 ^ 21)) as [-> Hs'] by lia.
    apply Z.divide_sub_r; [by apply Z.divide_sub_r|]. rewrite Hs', Hq. by apply Z.divide_mul_r.
Qed.

(** What [populate] leaves of the mapping of a region. *)
Definition maps (m m' : mem) (cr3 start size page : Z) : Prop :=
  forall va, translate m' cr3 va =
    if decide (start <= va48 va < start + size) then Some (page - KERNEL_VMA + (va48 va - start))
    else translate m cr3 va.

Definition maps_outside (m m' : mem) (cr3 start size : Z) : Prop :=
  forall va, ~ start <= va48 va < start + size -> translate m' cr3 va = translate m cr3 va.

(** A page that nobody used, not even for page tables, and that no allocator and
    no page table uses now. *)
Definition fresh_page (K : kstate) (a : A) (K' : kstate) (T' : gmap Z role) (a' : A) (page size : Z) : Prop :=
  page + size < 2 ^ 64 /\ forall x, page <= x < page + size -> others K' T' a' x /\ ~ client K a x.

Lemma populate_spec K T (a : A) m (vs : VMAddressSpace R) r start size :
  find_region start (vm_regions vs) = Some r -> vr_end r = start + size -> is_page_size size ->
  0 <= start -> (4096 | start) -> start + size <= 2 ^ 47 -> kernel_inv sc kc K T (mmu_map vs) a m ->
  exists res vs' T' a' m', populate start (start + size) vs a m = Ok (res, vs', a', m') /\
    kernel_inv sc kc K T' (mmu_map vs) a' m' /\ keeps K T a m K T' a' m' /\
    maps_outside m m' (mmu_map vs) start size /\
    ((res = Err ENOMEM /\ vs' = vs) \/
     exists page, vs' = with_regions vs (update_region start (set_page (Some page)) (vm_regions vs)) /\
       fresh_page K a K T' a' page size /\
       (res = Err (- ENOMEM) \/ res = Err (- EINVAL) \/
        (res = Success tt /\ maps m m' (mmu_map vs) start size page))).
Proof.
  intros Hf He Hs Hs0 Hst Hend HK. unfold populate. rewrite Hf, He, Z.eqb_refl. cbn [negb].
  replace (start + size - start) with size by lia.
  assert (0 < size <= 2 ^ 21) as Hb by (by destruct Hs as [-> | ->]). rewrite (u64_small size) by lia.
  replace (if size =? PAGE_SIZE_LARGE then Some (page_alloc_large a m) else if size =? PAGE_SIZE_SMALL then Some (page_alloc_small a m) else None)
    with (Some (page_alloc size a m)) by (by destruct Hs as [-> | ->]).
  destruct (page_alloc_kernel sc kc Hkc K T (mmu_map vs) a m size HK Hs)
    as [->|(page & a1 & m1 & -> & HK1 & Hp & Hd & Hpe & Hv & Hpg & Hkp & Htr)]; rewrite Ok_bind.
  { exists (Err ENOMEM), vs, T, a, m. split_and!; [done|done|by apply (keeps_refl sc kc Hkc)|done|by left]. }
  destruct (Z.eqb_spec page 0) as [?|_]; [lia|].
  destruct (page_range_ok page start size Hs Hv Hd Hpe Hs0 Hst Hend) as (-> & HR & Hva & Hpb).
  destruct (map_range_kernel sc kc Hkc K T (mmu_map vs) a1 m1 start (page - KERNEL_VMA) size (region_mmu_prot r) MMU_USER_PAGE HK1 HR)
    as (e & T' & a' & m' & E & HK' & Hkp' & Her & Hm & Hout). rewrite Hva, Hpb in Hm, Hout.
  cbn [mmu_map with_regions]. rewrite E, Ok_bind.
  exists (if negb (e =? 0) then Err e else Success tt),
    (with_regions vs (update_region start (set_page (Some page)) (vm_regions vs))), T', a', m'.
  split_and!; [by destruct (negb _)|done|by apply (keeps_trans sc kc Hkc K T a m K T a1 m1)| |].
  { intros va Hva'. rewrite Hout by done. apply Htr. }
  right. exists page. split_and!; [done| |].
  - split; [done|]. intros x Hx. destruct (Hpg x Hx) as [Ho Hn]. split; [by apply (kp_others _ _ _ _ _ _ _ _ Hkp')|done].
  - destruct Her as [-> | [-> | ->]]; [|by left|by right; left]. right. right. split; [done|].
    intros va. rewrite Hm by done. by rewrite Htr.
Qed.

(** A store to memory of others. *)
Lemma store_others_kernel K T cr3 (a : A) m m' :
  kernel_inv sc kc K T cr3 a m -> (forall x, ~ others K T a x -> load8 m' x = load8 m x) ->
  kernel_inv sc kc K T cr3 a m' /\ forall va, translate m' cr3 va = translate m cr3 va.
Proof.
  intros [[Hk Hr1 Hr2] Ht Hv Htb] Hm.
  assert (forall x, table_byte T x -> load8 m' x = load8 m x) as Htm by (intros x Hx; apply Hm; by intros [_ ?]).
  assert (kinv K a m') as Hk'.
  { apply (kinv_client_store K a m); [done|]. intros x Hx. apply Hm. by intros [? _]. }
  split; [|by intros va; apply (translate_same T cr3 a)].
  split; [by split| |done|done]. apply (pt_inv_frame T cr3 a a m); [done|apply Hk'| |done].
  intros x Hx. split; [by apply (pt_kernel _ _ _ _ Ht)|]. intros (t & l & p & Hl & Hx').
  by apply (client_not_pa K a m x Hk); [apply (Htb t l p)|].
Qed.

(** What [process_vmspace_alloc] promises, for the address space [vs] before and
    [vs'] after the call. *)
Record vmspace_alloc_post (K : kstate) (T : gmap Z role) (a : A) (m : mem) (vs : VMAddressSpace R) (size k vmr ret : Z)
  (K' : kstate) (T' : gmap Z role) (a' : A) (m' : mem) (vs' : VMAddressSpace R) : Prop := {
  va_inv : kernel_inv sc kc K' T' (mmu_map vs) a' m';
  va_vm : vm_ok vs' /\ mmu_map vs' = mmu_map vs;
  va_ret : ret = 0 \/ ret = - ENOMEM \/ ret = ENOMEM \/ ret = EINVAL;
  va_region : exists box page, regions (vm_regions vs') ≡ₚ
    set_page page (new_region vs size k VM_PROT_RW box) :: regions (vm_regions vs) /\
    (ret = 0 -> exists p, page = Some p /\ load64 m' vmr = next_start vs k /\
       fresh_page K a K' T' a' p size /\ maps m m' (mmu_map vs) (next_start vs k) size p);
  va_maps : maps_outside m m' (mmu_map vs) (next_start vs k) size;
  va_others x : others K T a x -> others K' T' a' x /\ (~ (ret = 0 /\ vmr <= x < vmr + 8) -> load8 m' x = load8 m x)
}.

Lemma alloc_populate_spec K T (a : A) m (vs : VMAddressSpace R) size k :
  vm_ok vs -> kernel_inv sc kc K T (mmu_map vs) a m -> is_page_size size -> 0 <= k < 47 -> top vs + 2 ^ k + size <= 2 ^ 47 ->
  (allocate sc kc size (2 ^ k) VM_PROT_RW vs a m = Fault Panic /\
   exists a' m', kmem_alloc sc kc sizeof_VMRegion a m = Ok (0, a', m')) \/
  exists vs1 a1 m1 res vs' K' T' a' m',
    allocate sc kc size (2 ^ k) VM_PROT_RW vs a m =
      Ok (Success (next_start vs k, next_start vs k + size), vs1, a1, m1) /\
    populate (next_start vs k) (next_start vs k + size) vs1 a1 m1 = Ok (res, vs', a', m') /\
    kernel_inv sc kc K' T' (mmu_map vs) a' m' /\ keeps K T a m K' T' a' m' /\
    vm_ok vs' /\ mmu_map vs' = mmu_map vs /\ maps_outside m m' (mmu_map vs) (next_start vs k) size /\
    exists box page, regions (vm_regions vs') ≡ₚ set_page page (new_region vs size k VM_PROT_RW box) :: regions (vm_regions vs) /\
      (res = Err ENOMEM \/ res = Err (- ENOMEM) \/ res = Err (- EINVAL) \/
       res = Success tt /\ exists p, page = Some p /\ fresh_page K a K' T' a' p size /\
         maps m m' (mmu_map vs) (next_start vs k) size p).
Proof.
  intros Hvs HK Hs Hk Hend. destruct (top_spec vs Hvs) as (Ht & _).
  assert (0 < size <= 2 ^ 21 /\ (4096 | size)) as [Hb Hd].
  { destruct Hs as [-> | ->]; (split; [done|]); [by exists 1|by exists 512]. }
  destruct (next_start_spec vs k Hvs ltac:(lia) ltac:(lia)) as (Hn & _ & Hn4).
  destruct (allocate_spec K T a m vs size k VM_PROT_RW Hvs HK ltac:(lia) Hd ltac:(lia) ltac:(lia) ltac:(lia))
    as [?|(box & a1 & m1 & K1 & E & HK1 & Hkp1 & Htr1)]; [by left|right].
  set (r := new_region vs size k VM_PROT_RW box) in *. set (vs1 := with_regions vs _) in *.
  assert (region_ok r) as Hr by (apply new_region_ok; (done || lia)).
  assert (vm_ok vs1) as Hvs1 by (apply vm_ok_insert; [done|done|cbn; lia]).
  assert (find_region (next_start vs k) (vm_regions vs1) = Some r) as Hf by (apply (find_top vs r Hvs); cbn; lia).
  destruct (insert_region_ok r _ (vo_tree _ Hvs)) as [_ Hp]. change (insert_region r (vm_regions vs)) with (vm_regions vs1) in Hp.
  destruct (populate_spec K1 T a1 m1 vs1 r (next_start vs k) size Hf eq_refl Hs ltac:(lia) Hn4 ltac:(lia) HK1)
    as (res & vs' & T' & a' & m' & E' & HK' & Hkp' & Hout & Hres).
  assert (forall va, ~ next_start vs k <= va48 va < next_start vs k + size ->
    translate m' (mmu_map vs) va = translate m (mmu_map vs) va) as Hout'.
  { intros va Hva. rewrite <- Htr1. by apply Hout. }
  exists vs1, a1, m1, res, vs', K1, T', a', m'. split_and!; [done|done|done|by apply (keeps_trans sc kc Hkc K T a m K1 T a1 m1)|..].
  - destruct Hres as [[_ ->]|(page & -> & _)]; [done|]. destruct (set_page_perm vs1 _ (Some page) r _ (vo_tree _ Hvs1) Hf Hp) as [Ht' Hp'].
    by apply (vm_ok_same_ranges vs1 _ r (set_page (Some page) r) (regions (vm_regions vs))).
  - by destruct Hres as [[_ ->]|(page & -> & _)].
  - exact Hout'.
  - destruct Hres as [[-> ->]|(page & -> & Hfr & Hres)]; [exists box, None; split; [exact Hp|by left]|].
    exists box, (Some page). split; [apply (set_page_perm vs1 _ _ r _ (vo_tree _ Hvs1) Hf Hp)|].
    destruct Hres as [-> | [-> | [-> Hm]]]; [tauto|tauto|]. do 3 right. split; [done|]. exists page. split_and!; [done| |].
    + destruct Hfr as [Hfr1 Hfr]. split; [done|]. intros x Hx. destruct (Hfr x Hx) as [? Hc]. split; [done|]. intros Hc'. by apply Hc, (kp_client _ _ _ _ _ _ _ _ Hkp1).
    + intros va. rewrite <- Htr1. apply Hm.
Qed.

End Alloc.
