(* ===== verification/Kernel.v ===== *)
(** * The state of the kernel, and its access to the memory of a process

    The state that the system calls work on: the scheduler's queues with what
    belongs to each process, the page allocator, the memory, the console and the
    devices.  The memory of a process is reached through its page tables; the
    copies between kernel and process (kernel/user-copy.c and
    arch/x86_64/user-copy.S) rely on the page fault handler of
    arch/x86_64/exceptions.c, which continues at the fixup address of the current
    process if there is one. *)

From S2P Require Import Prelude Align Mem PageAlloc Kmem Mmu MmuProof Sched Vm.
#[local] Open Scope Z_scope.

(** ** State *)

(** What kernel/process.rs keeps of a process besides its scheduling:
    [device_space] lists the devices by descriptor, [event_queue] is the address
    of the ring buffer in the address space of the process. *)
Record ProcessData (R : Type) := MkData {
  vmspace : VMAddressSpace R;
  device_space : list Z;
  event_queue : Z
}.
Arguments MkData {R} vmspace device_space event_queue.
Arguments vmspace {R} _.
Arguments device_space {R} _.
Arguments event_queue {R} _.

(** The rest of the kernel: [console] is the output of the serial port, [namespace]
    the registered devices, [devices] their state. *)
Record World (A N D : Type) := MkWorld {
  pages : A;
  memory : mem;
  console : list Z;
  namespace : N;
  devices : D
}.
Arguments MkWorld {A N D} pages memory console namespace devices.
Arguments pages {A N D} _.
Arguments memory {A N D} _.
Arguments console {A N D} _.
Arguments namespace {A N D} _.
Arguments devices {A N D} _.

Definition set_memory {A N D} (m : mem) (w : World A N D) : World A N D :=
  MkWorld (pages w) m (console w) (namespace w) (devices w).

(** ** drivers/uart/8250.c: the console *)

Definition console_write_char (c : Z) (out : list Z) : list Z := out ++ [if c =? 13 then 10 else c].

Definition console_write (m : mem) (s : Z) (count : nat) (out : list Z) : list Z :=
  foldl (fun out c => console_write_char c out) out (load_bytes m s count).

(** ** Addresses *)

(** Where an address leads: to memory, to a page fault, or, outside of the 48-bit
    address space, to a general protection exception.  The kernel's own addresses
    are the indices of the memory.  Write protection is not in effect for the
    kernel: boot.S leaves the bit WP of CR0 clear. *)
Inductive access :=
  | At (p : Z)
  | PageFault
  | Protection.

Definition canonical (va : Z) : bool := (va <? 2 ^ 47) || (2 ^ 64 - 2 ^ 47 <=? va).

Definition resolve (m : mem) (cr3 va : Z) : access :=
  if KERNEL_VMA <=? va then At va
  else if negb (canonical va) then Protection
  else match translate m cr3 va with
       | Some pa => At (paddr_to_ptr pa)
       | None => PageFault
       end.

(** [rep movsb]: [n] bytes, or up to the first fault. *)
Fixpoint copy_bytes (n : nat) (cr3 dest src : Z) (m : mem) : access * mem :=
  match n with
  | O => (At dest, m)
  | S n =>
      match resolve m cr3 src with
      | At p =>
          match resolve m cr3 dest with
          | At q => copy_bytes n cr3 (u64 (dest + 1)) (u64 (src + 1)) (store8 m q (load8 m p))
          | fault => (fault, m)
          end
      | fault => (fault, m)
      end
  end.

(** The loop of [raw_strncpy_from_user]; it ends after [n] bytes. *)
Fixpoint copy_string (n : nat) (cr3 dest src : Z) (m : mem) : access * mem :=
  match n with
  | O => (match resolve m cr3 dest with
          | At q => (At dest, store8 m q 0)
          | fault => (fault, m)
          end)
  | S n =>
      match resolve m cr3 src with
      | At p =>
          let al := load8 m p in
          match resolve m cr3 dest with
          | At q =>
              if al =? 0 then (At dest, store8 m q 0)
              else copy_string n cr3 (u64 (dest + 1)) (u64 (src + 1)) (store8 m q al)
          | fault => (fault, m)
          end
      | fault => (fault, m)
      end
  end.

(** [rdx] counts down from [len - 1] to zero, and is compared with zero after each
    byte: from zero it takes the long way round. *)
Definition string_bytes (len : Z) : nat :=
  let rdx := u64 (len - 1) in
  Z.to_nat (if rdx =? 0 then 2 ^ 64 else rdx).

(** A store of the kernel through an address of the process: all bytes are mapped
    or nothing is written. *)
Fixpoint resolve_bytes (n : nat) (m : mem) (cr3 va : Z) : option (list Z) :=
  match n with
  | O => Some []
  | S n =>
      match resolve m cr3 va with
      | At p => (cons p) <$> resolve_bytes n m cr3 (u64 (va + 1))
      | _ => None
      end
  end.

Fixpoint store_each (m : mem) (l : list Z) (v : Z) : mem :=
  match l with
  | [] => m
  | p :: l => store_each (store8 m p v) l (Z.shiftr v 8)
  end.

Definition store64_user (m : mem) (cr3 va v : Z) : outcome mem :=
  match resolve_bytes 8 m cr3 va with
  | Some l => Ok (store_each m l v)
  | None => Fault Panic
  end.

(** ** Copies *)

Section Copy.
Context {A R N D : Type}.
Context (memcpy_user_fixup : Z).

Notation kernel := (sched (ProcessData R) (World A N D)).

Definition put_memory (m : mem) (s : kernel) : kernel :=
  MkSched (CURRENT s) (RUNQUEUE s) (WAITQUEUE s) (procs s) (set_memory m (world s)).

(** The translation tables in use: those of the current process. *)
Definition current_map (s : kernel) : outcome Z :=
  current ← get_current s;
  proc ← deref s current;
  Ok (mmu_map (vmspace (rest proc))).

(** [do_x86_page_fault_exception] with the fixup address in place continues at
    [__memcpy_user_fixup]; without one, and for all other exceptions, the kernel
    halts. *)
Definition user_fault (f : access) (s : kernel) : outcome (Z * kernel) :=
  match f with
  | PageFault =>
      fixup ← page_fault_get_fixup s;
      if fixup =? 0 then Fault Panic
      else
        s ← page_fault_set_fixup 0 s;
        Ok (- EFAULT, s)
  | _ => Fault Panic
  end.

(** The two copies of user-copy.S around their loop. *)
Definition with_fixup (copy : Z -> mem -> access * mem) (s : kernel) : outcome (Z * kernel) :=
  s ← page_fault_set_fixup memcpy_user_fixup s;
  cr3 ← current_map s;
  let '(r, m) := copy cr3 (memory (world s)) in
  let s := put_memory m s in
  match r with
  | At _ =>
      s ← page_fault_set_fixup 0 s;
      Ok (0, s)
  | fault => user_fault fault s
  end.

Definition memcpy_user_safe (dest src len : Z) (s : kernel) : outcome (Z * kernel) :=
  with_fixup (fun cr3 => copy_bytes (Z.to_nat len) cr3 dest src) s.

Definition raw_strncpy_from_user (dest src len : Z) (s : kernel) : outcome (Z * kernel) :=
  with_fixup (fun cr3 => copy_string (string_bytes len) cr3 dest src) s.

Definition memcpy_to_user (dest src len : Z) (s : kernel) : outcome (Z * kernel) :=
  if KERNEL_VMA <=? dest then Ok (- EFAULT, s) else memcpy_user_safe dest src len s.

Definition memcpy_from_user (dest src len : Z) (s : kernel) : outcome (Z * kernel) :=
  if KERNEL_VMA <=? src then Ok (- EFAULT, s) else memcpy_user_safe dest src len s.

Definition strncpy_from_user (dest src len : Z) (s : kernel) : outcome (Z * kernel) :=
  if KERNEL_VMA <=? src then Ok (- EFAULT, s) else raw_strncpy_from_user dest src len s.

End Copy.
