(* ===== verification/Process.v ===== *)
(** * Processes and devices

    kernel/device.rs, kernel/event.rs, kernel/process.rs, the operations of
    kernel/sched.rs that the system calls use, and the task states of
    arch/x86_64/thread.c.  A device driver is the class [DeviceOps], the trait of
    that name; the tree of the registered devices is the class [Namespace].  The
    ELF reader is the crate xmas_elf: what it returns for an image is an argument
    of [process_spawn].  The heap memory of the vectors is not modelled. *)

From S2P Require Import Prelude Align Mem RingBuffer PageAlloc Printf LibcString Kmem Mmu MmuProof Sched Vm Kernel.
#[local] Open Scope Z_scope.

(** ** kernel/device.rs *)

Definition CONFIG_ETHERNET_MAC_ADDRESS : Z := 0.
Definition CONFIG_IO_QUEUE : Z := 1.

(** [DeviceDesc::to_idx]. *)
Definition to_idx (desc : Z) : option nat := if 0 <=? desc then Some (Z.to_nat desc) else None.

(** The trait: [get_config] returns a vector as its address, length and capacity,
    and [process_io] is called under the translation map of a process. *)
Class DeviceOps (A R D : Type) := {
  dev_acquire : Z -> Z -> VMAddressSpace R -> A -> mem -> D -> outcome (Result unit * VMAddressSpace R * A * mem * D);
  dev_subscribe : Z -> Z -> mem -> D -> outcome D;
  dev_get_config : Z -> Z -> A -> mem -> D -> outcome (option (Z * Z * Z) * A * mem * D);
  dev_process_io : Z -> Z -> A -> mem -> D -> outcome (A * mem * D)
}.

(** The tree of the devices, ordered by name. *)
Class Namespace (N : Type) := {
  ns_add : list Z -> Z -> N -> N;
  ns_find : list Z -> N -> option Z;
  ns_devices : N -> list Z
}.

Definition attach (device : Z) (desc_table : list Z) : Z * list Z :=
  let idx := Z.of_nat (length desc_table) in
  (s32 idx, desc_table ++ [device]).

(** [DeviceSpace::lookup]; an index that is out of bounds panics. *)
Definition lookup_desc (desc : Z) (desc_table : list Z) : outcome (option Z) :=
  match to_idx desc with
  | Some idx =>
      if (length desc_table <? idx)%nat then Ok None
      else match desc_table !! idx with
           | Some device => Ok (Some device)
           | None => Fault Panic
           end
  | None => Ok None
  end.

Section Devices.
Context {A R N D : Type} `{PageAllocator A} `{RegionTree R} `{Namespace N} `{DeviceOps A R D}.
Context (kmem_slab_cache kmalloc_caches : Z).
Context (memcpy_user_fixup idle_task : Z).

Notation world := (World A N D).
Notation kernel := (sched (ProcessData R) (World A N D)).

Definition register_device (name : list Z) (device : Z) (w : world) : world :=
  MkWorld (pages w) (memory w) (console w) (ns_add name device (namespace w)) (devices w).

(** [process_io] of device.rs. *)
Fixpoint process_io_loop (cr3 : Z) (l : list Z) (w : world) : outcome world :=
  match l with
  | [] => Ok w
  | dev :: l =>
      '(a, m, d) ← dev_process_io dev cr3 (pages w) (memory w) (devices w);
      process_io_loop cr3 l (MkWorld a m (console w) (namespace w) d)
  end.

Definition device_process_io (cr3 : Z) (w : world) : outcome world := process_io_loop cr3 (ns_devices (namespace w)) w.

(** ** kernel/event.rs *)

Definition EVENT_PACKET_RX : Z := 1.
Definition sizeof_RawEvent : Z := 24.

(** The ring buffer is one page at an address of the process. *)
Definition EventQueue_new (m : mem) (cr3 buf size : Z) : outcome (Z * mem) :=
  match resolve m cr3 buf with
  | At q =>
      '(_, m) ← atomic_ring_buffer_new m q size sizeof_RawEvent;
      Ok (buf, m)
  | _ => Fault Panic
  end.

(** [emplace] of the event [PacketIO]; [frame] is the address of [raw_event]. *)
Definition EventQueue_emplace (m : mem) (cr3 frame ring_buffer addr len : Z) : outcome mem :=
  let m := store64 (store64 (store64 m frame EVENT_PACKET_RX) (frame + 8) addr) (frame + 16) len in
  match resolve m cr3 ring_buffer with
  | At q => Ok (snd (atomic_ring_buffer_emplace m q frame))
  | _ => Fault Panic
  end.

(** ** Operations on the current process *)

(** The current process, its record and the rest of the kernel. *)
Definition current_process (s : kernel) : outcome (Z * Process (ProcessData R)) :=
  current ← get_current s;
  proc ← deref s current;
  Ok (current, proc).

Definition put_data (s : kernel) (p : Z) (proc : Process (ProcessData R)) (data : ProcessData R) (w : world) : kernel :=
  MkSched (CURRENT s) (RUNQUEUE s) (WAITQUEUE s)
    (<[p := MkProcess (state proc) (task_state proc) (page_fault_fixup proc) data]> (procs s)) w.

Definition with_vmspace (vs : VMAddressSpace R) (data : ProcessData R) : ProcessData R :=
  MkData vs (device_space data) (event_queue data).

Definition with_pages (a : A) (m : mem) (w : world) : world :=
  MkWorld a m (console w) (namespace w) (devices w).

(** [process_acquire]; the name is a C string.  [Process::acquire] attaches the
    device, then the driver is asked. *)
Definition process_acquire (name : Z) (s : kernel) : outcome (Z * kernel) :=
  '(current, proc) ← current_process s;
  let w := Sched.world s in
  len ← Libc.strlen (memory w) name;
  match ns_find (load_bytes (memory w) name (Z.to_nat len)) (namespace w) with
  | Some device =>
      let '(desc, table) := attach device (device_space (rest proc)) in
      let data := MkData (vmspace (rest proc)) table (event_queue (rest proc)) in
      '(r, vs, a, m, d) ← dev_acquire device current (vmspace data) (pages w) (memory w) (devices w);
      let s := put_data s current proc (with_vmspace vs data) (MkWorld a m (console w) (namespace w) d) in
      match r with
      | Err e => Ok (errno e, s)
      | Success _ => Ok (desc, s)
      end
  | None => Ok (errno EINVAL, s)
  end.

Definition process_subscribe (raw_desc events : Z) (s : kernel) : outcome (Z * kernel) :=
  '(current, proc) ← current_process s;
  let w := Sched.world s in
  device ← lookup_desc raw_desc (device_space (rest proc));
  match device with
  | Some device =>
      d ← dev_subscribe device events (memory w) (devices w);
      Ok (- EINVAL, put_data s current proc (rest proc) (MkWorld (pages w) (memory w) (console w) (namespace w) d))
  | None => Ok (- EINVAL, s)
  end.

(** The result of [memcpy_to_user] is not looked at; the vector is freed at the end. *)
Definition process_get_config (raw_desc opt buf len : Z) (s : kernel) : outcome (Z * kernel) :=
  '(current, proc) ← current_process s;
  let w := Sched.world s in
  device ← lookup_desc raw_desc (device_space (rest proc));
  match device with
  | Some device =>
      '(value, a, m, d) ← dev_get_config device opt (pages w) (memory w) (devices w);
      let s := put_data s current proc (rest proc) (MkWorld a m (console w) (namespace w) d) in
      match value with
      | Some (ptr, n, cap) =>
          let to_copy := Z.min len n in
          '(_, s) ← memcpy_to_user memcpy_user_fixup buf ptr to_copy s;
          '(a, m) ← (if cap =? 0 then Ok (pages (Sched.world s), memory (Sched.world s))
                     else kmem_free kmalloc_caches ptr cap (pages (Sched.world s)) (memory (Sched.world s)));
          Ok (0, MkSched (CURRENT s) (RUNQUEUE s) (WAITQUEUE s) (procs s) (with_pages a m (Sched.world s)))
      | None => Ok (- EINVAL, s)
      end
  | None => Ok (- EINVAL, s)
  end.

Definition process_getevents (s : kernel) : outcome Z :=
  '(_, proc) ← current_process s;
  Ok (event_queue (rest proc)).

Definition process_vmspace_alloc (size align vmr_start : Z) (s : kernel) : outcome (Z * kernel) :=
  '(current, proc) ← current_process s;
  let w := Sched.world s in
  '(r, vs, a, m) ← allocate kmem_slab_cache kmalloc_caches size align VM_PROT_RW (vmspace (rest proc)) (pages w) (memory w);
  match r with
  | Err e => Ok (errno e, put_data s current proc (with_vmspace vs (rest proc)) (with_pages a m w))
  | Success (start, last) =>
      '(r, vs, a, m) ← populate start last vs a m;
      match r with
      | Err e => Ok (errno e, put_data s current proc (with_vmspace vs (rest proc)) (with_pages a m w))
      | Success _ =>
          Ok (0, put_data s current proc (with_vmspace vs (rest proc)) (with_pages a (store64 m vmr_start start) w))
      end
  end.

(** [process_wait] with the devices. *)
Definition process_wait_devices (s : kernel) : outcome (kernel * list action) :=
  process_wait (fun data => mmu_map (vmspace data)) device_process_io idle_task s.

(** ** arch/x86_64/thread.c *)

Definition TIF_NEW : Z := 1.
Definition sizeof_task_state : Z := 24.

Definition task_state_new (rip rsp : Z) (a : A) (m : mem) : outcome (Z * A * mem) :=
  '(ret, a, m) ← kmem_alloc kmem_slab_cache kmalloc_caches sizeof_task_state a m;
  if negb (ret =? 0) then
    let m := store32 m (ret + 16) TIF_NEW in
    let m := store64 m (ret + 8) rip in
    let m := store64 m ret rsp in
    Ok (ret, a, m)
  else Ok (ret, a, m).

Definition task_state_delete (ts : Z) (a : A) (m : mem) : outcome (A * mem) :=
  kmem_free kmalloc_caches ts sizeof_task_state a m.

Definition task_state_stack_top (m : mem) (ts : Z) : Z := load64 m ts.
Definition task_state_entry_point (m : mem) (ts : Z) : Z := load64 m (ts + 8).

(** ** kernel/process.rs: new processes *)

(** What the ELF reader says of an image: the segments with the flags for read,
    write and execute, the section .bss, and the entry point. *)
Record segment := Seg {
  ph_load : bool;
  ph_read : bool;
  ph_write : bool;
  ph_exec : bool;
  ph_vaddr : Z;
  ph_memsz : Z;
  ph_offset : Z;
  ph_filesz : Z
}.

Record elf_file := Elf {
  elf_segments : list segment;
  elf_bss : option (Z * Z);
  elf_entry : Z
}.

Definition elf_phdr_flags_to_prot (ph : segment) : Z :=
  let prot := 0 in
  let prot := if ph_read ph then Z.lor prot VM_PROT_READ else prot in
  let prot := if ph_write ph then Z.lor prot VM_PROT_WRITE else prot in
  let prot := if ph_exec ph then Z.lor prot VM_PROT_EXEC else prot in
  prot.

Definition load_segment (image_start : Z) (ph : segment) (vs : VMAddressSpace R) (a : A) (m : mem)
  : outcome (VMAddressSpace R * A * mem) :=
  if ph_load ph then
    let prot := elf_phdr_flags_to_prot ph in
    let start := ph_vaddr ph in
    let size := ph_memsz ph in
    let last := align_up (u64 (start + size)) PAGE_SIZE_SMALL in
    '(r, vs, a, m) ← allocate_fixed kmem_slab_cache kmalloc_caches start last prot vs a m;
    match r with
    | Err _ => Fault Panic
    | Success _ =>
        let src_start := u64 (image_start + ph_offset ph) in
        let src_end := u64 (src_start + ph_filesz ph) in
        '(r, vs, a, m) ← populate_from start last src_start src_end vs a m;
        match r with
        | Err _ => Fault Panic
        | Success _ => Ok (vs, a, m)
        end
    end
  else Ok (vs, a, m).

Fixpoint load_segments (image_start : Z) (l : list segment) (vs : VMAddressSpace R) (a : A) (m : mem)
  : outcome (VMAddressSpace R * A * mem) :=
  match l with
  | [] => Ok (vs, a, m)
  | ph :: l =>
      '(vs, a, m) ← load_segment image_start ph vs a m;
      load_segments image_start l vs a m
  end.

(** [memset] through the addresses of the process. *)
Fixpoint clear_user (n : nat) (cr3 va : Z) (m : mem) : outcome mem :=
  match n with
  | O => Ok m
  | S n =>
      match resolve m cr3 va with
      | At q => clear_user n cr3 (u64 (va + 1)) (store8 m q 0)
      | _ => Fault Panic
      end
  end.

Definition parse_elf_image (image_start : Z) (elf : option elf_file) (vs : VMAddressSpace R) (a : A) (m : mem)
  : outcome (Z * VMAddressSpace R * A * mem) :=
  match elf with
  | None => Fault Panic
  | Some elf =>
      '(vs, a, m) ← load_segments image_start (elf_segments elf) vs a m;
      m ← match elf_bss elf with
          | Some (addr, size) => clear_user (Z.to_nat size) (mmu_map vs) addr m
          | None => Ok m
          end;
      Ok (elf_entry elf, vs, a, m)
  end.

(** One of the two fixed areas of a process. *)
Definition fixed_area (start last : Z) (vs : VMAddressSpace R) (a : A) (m : mem)
  : outcome (Result unit * VMAddressSpace R * A * mem) :=
  '(r, vs, a, m) ← allocate_fixed kmem_slab_cache kmalloc_caches start last VM_PROT_RW vs a m;
  match r with
  | Err e => Ok (Err e, vs, a, m)
  | Success _ => populate start last vs a m
  end.

(** On an error the address space is dropped. *)
Definition spawn_failed (e : Z) (vs : VMAddressSpace R) (a : A) (m : mem) (s : kernel) : outcome (Z * kernel) :=
  '(_, a, m) ← vmspace_delete kmalloc_caches vs a m;
  Ok (errno e, MkSched (CURRENT s) (RUNQUEUE s) (WAITQUEUE s) (procs s) (with_pages a m (Sched.world s))).

(** [mmu_map] is the map in use, [elf] what the ELF reader returns for the image,
    [sizeof_Process] the size of a process with its reference counts. *)
Definition process_spawn (sizeof_Process map image_start : Z) (elf : option elf_file) (s : kernel)
  : outcome (Z * kernel) :=
  let w := Sched.world s in
  '(entry_point, vs, a, m) ← parse_elf_image image_start elf (VMAddressSpace_new map) (pages w) (memory w);
  let stack_top := 0x40000000 in
  let stack_start := stack_top - PAGE_SIZE_LARGE in
  '(r, vs, a, m) ← fixed_area stack_start stack_top vs a m;
  match r with
  | Err e => spawn_failed e vs a m s
  | Success _ =>
      let event_buf_start := 0x80000000 in
      let event_buf_size := 4096 in
      '(r, vs, a, m) ← fixed_area event_buf_start (event_buf_start + event_buf_size) vs a m;
      match r with
      | Err e => spawn_failed e vs a m s
      | Success _ =>
          '(queue, m) ← EventQueue_new m map event_buf_start event_buf_size;
          '(ts, a, m) ← task_state_new entry_point stack_top a m;
          '(p, a, m) ← box_new kmem_slab_cache kmalloc_caches sizeof_Process a m;
          let s := MkSched (CURRENT s) (RUNQUEUE s) (WAITQUEUE s) (procs s) (with_pages a m w) in
          s ← spawn p (Process_new ts (MkData vs [] queue)) s;
          Ok (0, s)
      end
  end.

End Devices.
