(* ===== verification/Syscall.v ===== *)
(** * System calls

    kernel/syscall.c, the entry of arch/x86_64/entry.S and the stubs of
    usr/libmanticore/src/syscall.c.  A system call runs on behalf of the current
    process; [frame] is the address of the local variables on the kernel's stack.
    A call that leads to a context switch also returns the actions of the
    scheduler. *)

From S2P Require Import Prelude Align Mem PageAlloc Kmem Mmu MmuProof Sched Vm Kernel Process.
#[local] Open Scope Z_scope.

Definition SYS_exit : Z := 1.
Definition SYS_wait : Z := 2.
Definition SYS_console_print : Z := 3.
Definition SYS_subscribe : Z := 4.
Definition SYS_getevents : Z := 5.
Definition SYS_get_config : Z := 7.
Definition SYS_acquire : Z := 8.
Definition SYS_vmspace_alloc : Z := 9.

(** [struct vmspace_region]. *)
Definition vmr_size (p : Z) : Z := p.
Definition vmr_align (p : Z) : Z := p + 8.
Definition vmr_start (p : Z) : Z := p + 16.
Definition sizeof_vmspace_region : Z := 24.

Section Syscall.
Context {A R N D : Type} `{PageAllocator A} `{RegionTree R} `{Namespace N} `{DeviceOps A R D}.
Context (kmem_slab_cache kmalloc_caches : Z).
Context (memcpy_user_fixup idle_task frame stale_rsi : Z).

Notation kernel := (sched (ProcessData R) (World A N D)).

(** [panic] does not return. *)
Definition sys_exit (status : Z) (s : kernel) : outcome (Z * kernel) := Fault Panic.

Definition sys_wait (s : kernel) : outcome (Z * kernel * list action) :=
  '(s, acts) ← process_wait_devices idle_task s;
  Ok (0, s, acts).

Definition EVENT_SIZE : Z := 32.

(** [process_subscribe] takes two arguments and is called with one: the address of
    the name becomes the descriptor, and the name is what the register [rsi]
    happens to hold. *)
Definition sys_subscribe (uevent : Z) (s : kernel) : outcome (Z * kernel) :=
  '(err, s) ← strncpy_from_user memcpy_user_fixup frame uevent EVENT_SIZE s;
  if err <? 0 then Ok (err, s) else process_subscribe (s32 frame) stale_rsi s.

Definition sys_getevents (events : Z) (s : kernel) : outcome (Z * kernel) :=
  queue ← process_getevents s;
  cr3 ← current_map s;
  m ← store64_user (memory (world s)) cr3 events queue;
  Ok (0, put_memory m s).

Definition sys_get_config (desc opt buf len : Z) (s : kernel) : outcome (Z * kernel) :=
  process_get_config kmalloc_caches memcpy_user_fixup desc opt buf len s.

Definition MAX_NAME_LEN : Z := 32.

Definition sys_acquire (uname flags : Z) (s : kernel) : outcome (Z * kernel) :=
  '(err, s) ← strncpy_from_user memcpy_user_fixup frame uname MAX_NAME_LEN s;
  if err <? 0 then Ok (err, s) else process_acquire frame s.

Definition BUF_SIZE : Z := 64.

Definition put_console (out : list Z) (s : kernel) : kernel :=
  let w := world s in
  MkSched (CURRENT s) (RUNQUEUE s) (WAITQUEUE s) (procs s)
    (MkWorld (pages w) (memory w) out (namespace w) (devices w)).

(** Each round but the last takes [BUF_SIZE] bytes, so that [count] rounds are
    enough. *)
Fixpoint console_print_loop (fuel : nat) (ubuf count off : Z) (s : kernel) : outcome (Z * kernel) :=
  if count =? 0 then Ok (off, s)
  else
    match fuel with
    | O => Fault OutOfFuel
    | S fuel =>
        let nr := if BUF_SIZE <? count then BUF_SIZE else count in
        '(err, s) ← memcpy_from_user memcpy_user_fixup frame (u64 (ubuf + off)) nr s;
        if err <? 0 then Ok (err, s)
        else
          let s := put_console (console_write (memory (world s)) frame (Z.to_nat nr) (console (world s))) s in
          console_print_loop fuel ubuf (count - nr) (s64 (off + nr)) s
    end.

Definition sys_console_print (ubuf count : Z) (s : kernel) : outcome (Z * kernel) :=
  console_print_loop (Z.to_nat count) ubuf count 0 s.

(** The structure [vmr] is at [frame], the variable [start] behind it. *)
Definition sys_vmspace_alloc (uvmr size : Z) (s : kernel) : outcome (Z * kernel) :=
  let vmr := frame in
  let start := frame + sizeof_vmspace_region in
  if negb (size =? sizeof_vmspace_region) then Ok (- EINVAL, s)
  else
    '(err, s) ← memcpy_from_user memcpy_user_fixup vmr uvmr sizeof_vmspace_region s;
    if negb (err =? 0) then Ok (err, s)
    else
      let m := memory (world s) in
      let m := if load64 m (vmr_align vmr) =? 0 then store64 m (vmr_align vmr) PAGE_SIZE_SMALL else m in
      let m := store64 m start 0 in
      '(err, s) ← process_vmspace_alloc kmem_slab_cache kmalloc_caches
                    (load64 m (vmr_size vmr)) (load64 m (vmr_align vmr)) start (put_memory m s);
      if negb (err =? 0) then Ok (err, s)
      else
        let m := memory (world s) in
        let m := store64 m (vmr_start vmr) (load64 m start) in
        memcpy_to_user memcpy_user_fixup uvmr vmr sizeof_vmspace_region (put_memory m s).

Definition no_switch (o : outcome (Z * kernel)) : outcome (Z * kernel * list action) :=
  '(r, s) ← o;
  Ok (r, s, []).

(** The arguments are the registers that the entry passes. *)
Definition syscall (nr arg0 arg1 arg2 arg3 : Z) (s : kernel) : outcome (Z * kernel * list action) :=
  if nr =? SYS_exit then no_switch (sys_exit (s32 arg0) s)
  else if nr =? SYS_wait then sys_wait s
  else if nr =? SYS_console_print then no_switch (sys_console_print arg0 arg1 s)
  else if nr =? SYS_subscribe then no_switch (sys_subscribe arg0 s)
  else if nr =? SYS_getevents then no_switch (sys_getevents arg0 s)
  else if nr =? SYS_get_config then no_switch (sys_get_config (s32 arg0) (s32 arg1) arg2 arg3 s)
  else if nr =? SYS_acquire then no_switch (sys_acquire arg0 (s32 arg1) s)
  else if nr =? SYS_vmspace_alloc then no_switch (sys_vmspace_alloc arg0 arg1 s)
  else Ok (- ENOSYS, s, []).

(** ** The way into the kernel *)

Record regs := Regs {
  rax : Z;
  rdi : Z;
  rsi : Z;
  rdx : Z;
  rcx : Z;
  rip : Z   (* the instruction after [syscall] *)
}.

(** The processor saves the return address in [rcx]. *)
Definition syscall_instruction (r : regs) : regs :=
  Regs (rax r) (rdi r) (rsi r) (rdx r) (rip r) (rip r).

Definition syscall_entry (r : regs) (s : kernel) : outcome (Z * kernel * list action) :=
  syscall (s32 (rax r)) (rdi r) (rsi r) (rdx r) (rcx r) s.

(** The stubs of the user library; [r] has the other registers. *)
Definition syscall0 (number : Z) (r : regs) (s : kernel) : outcome (Z * kernel * list action) :=
  syscall_entry (syscall_instruction (Regs number (rdi r) (rsi r) (rdx r) (rcx r) (rip r))) s.

Definition syscall1 (number arg0 : Z) (r : regs) (s : kernel) : outcome (Z * kernel * list action) :=
  syscall_entry (syscall_instruction (Regs number arg0 (rsi r) (rdx r) (rcx r) (rip r))) s.

Definition syscall2 (number arg0 arg1 : Z) (r : regs) (s : kernel) : outcome (Z * kernel * list action) :=
  syscall_entry (syscall_instruction (Regs number arg0 arg1 (rdx r) (rcx r) (rip r))) s.

Definition syscall4 (number arg0 arg1 arg2 arg3 : Z) (r : regs) (s : kernel) : outcome (Z * kernel * list action) :=
  syscall_entry (syscall_instruction (Regs number arg0 arg1 arg2 arg3 (rip r))) s.

End Syscall.
