(* ===== verification/UserCopy.v ===== *)
(** * Copies between the kernel and a process

    The copies of kernel/user-copy.c move exactly the bytes behind the addresses of
    the process, stop at the first address that is not mapped, and leave nothing
    behind in the fixup address; [sys_console_print] prints the buffer of the
    process piece by piece. *)

From S2P Require Import Prelude Align Mem PageAlloc PageAllocProof Kmem Mmu MmuProof Sched.
From S2P Require Import Vm VmProof Kernel Process Syscall.
#[local] Open Scope Z_scope.

(** The addresses from [va] on lead to the bytes at [ps]. *)
Definition resolves (m : mem) (cr3 va : Z) (ps : list Z) : Prop :=
  forall i p, ps !! i = Some p -> resolve m cr3 (u64 (va + Z.of_nat i)) = At p.

Definition is_fault (f : access) : Prop :=
  match f with
  | At _ => False
  | _ => True
  end.

Section Addresses.
Context {A : Type} `{PageAllocatorLaws A}.

(** Where addresses lead depends on the page tables only. *)
Lemma resolve_same T cr3 (a : A) m m' va :
  pt_inv T cr3 a m -> (forall x, table_byte T x -> load8 m' x = load8 m x) ->
  resolve m' cr3 va = resolve m cr3 va.
Proof. intros HT Hm. unfold resolve. by rewrite (translate_same T cr3 a m m'). Qed.

Lemma resolve_kernel m cr3 va : KERNEL_VMA <= va -> resolve m cr3 va = At va.
Proof. intros Hv. unfold resolve. by destruct (Z.leb_spec KERNEL_VMA va); [|lia]. Qed.

Lemma resolves_cons m cr3 va p ps :
  0 <= va < 2 ^ 64 -> resolves m cr3 va (p :: ps) <-> resolve m cr3 va = At p /\ resolves m cr3 (u64 (va + 1)) ps.
Proof.
  intros Hva. assert (forall i, u64 (u64 (va + 1) + Z.of_nat i) = u64 (va + Z.of_nat (S i))) as Hs.
  { intros i. unfold u64. rewrite Zplus_mod_idemp_l. f_equal. lia. }
  split.
  - intros Hr. split.
    + specialize (Hr 0%nat p eq_refl). by rewrite Z.add_0_r, u64_small in Hr.
    + intros i q Hi. rewrite Hs. by apply (Hr (S i)).
  - intros [H1 H2] [|i] q Hi; [simplify_eq/=; by rewrite Z.add_0_r, u64_small|]. rewrite <- Hs. by apply H2.
Qed.

(** Bytes at a list of addresses. *)
Fixpoint store_list (m : mem) (ps bs : list Z) : mem :=
  match ps, bs with
  | p :: ps, b :: bs => store_list (store8 m p b) ps bs
  | _, _ => m
  end.

Lemma store_list_changes (Q : Z -> Prop) m ps bs : Forall Q ps -> changes Q m (store_list m ps bs).
Proof.
  intros HQ. revert m bs. induction HQ as [|p ps Hp _ IH]; intros m [|b bs] x Hx; cbn [store_list]; try done.
  rewrite IH by done. apply load8_store8_ne. by intros ->.
Qed.

Lemma store_list_range m dest bs : store_list m (seqZ dest (Z.of_nat (length bs))) bs = store_bytes m dest bs.
Proof.
  revert m dest. induction bs as [|b bs IH]; intros m dest; [done|]. cbn [length].
  rewrite seqZ_cons by lia. cbn [store_list store_bytes]. rewrite <- IH. do 2 f_equal; lia.
Qed.

Lemma u64_shift va n : u64 (u64 (va + 1) + Z.of_nat n) = u64 (va + Z.of_nat (S n)).
Proof. unfold u64. rewrite Zplus_mod_idemp_l. f_equal. lia. Qed.

(** The copy from bytes that it does not write to bytes that are not in page
    tables; [k] bytes are left. *)
Lemma copy_bytes_run T cr3 (a : A) m0 (Q : Z -> Prop) :
  pt_inv T cr3 a m0 -> (forall x, Q x -> ~ table_byte T x) ->
  forall ps qs m k dest src, changes Q m0 m -> length qs = length ps ->
    resolves m0 cr3 src ps -> resolves m0 cr3 dest qs -> Forall Q qs -> Forall (fun p => ~ Q p) ps ->
    0 <= dest < 2 ^ 64 -> 0 <= src < 2 ^ 64 ->
    copy_bytes (length ps + k) cr3 dest src m =
      copy_bytes k cr3 (u64 (dest + Z.of_nat (length ps))) (u64 (src + Z.of_nat (length ps)))
        (store_list m qs (load8 m0 <$> ps)).
Proof.
  intros HT HQ. induction ps as [|p ps IH]; intros [|q qs] m k dest src Hm Hl Hs Hd Hqs Hps Hdest Hsrc; try done.
  { cbn [length Nat.add fmap list_fmap store_list]. by rewrite !Z.add_0_r, !u64_small. }
  assert (forall va, resolve m cr3 va = resolve m0 cr3 va) as Hres.
  { intros va. apply (resolve_same T cr3 a m0 m); [done|]. intros x Hx. apply Hm. intros Hx'. by apply (HQ x). }
  apply resolves_cons in Hs as [Hs Hs']; [|done]. apply resolves_cons in Hd as [Hd Hd']; [|done].
  apply Forall_cons in Hqs as [Hq Hqs]. apply Forall_cons in Hps as [Hp Hps].
  cbn [length Nat.add copy_bytes fmap list_fmap store_list]. rewrite !Hres, Hs, Hd, <- !u64_shift.
  rewrite (Hm p Hp). apply IH; try done; [|by injection Hl|apply u64_range..].
  intros x Hx. rewrite load8_store8_ne by (by intros ->). by apply Hm.
Qed.

Lemma copy_bytes_fault n cr3 dest src m f :
  resolve m cr3 src = f -> is_fault f -> copy_bytes (S n) cr3 dest src m = (f, m).
Proof. intros Hr Hf. cbn [copy_bytes]. rewrite Hr. by destruct f. Qed.

(** Into a buffer of the kernel. *)
Lemma resolves_kernel m cr3 dest n :
  KERNEL_VMA <= dest -> dest + n <= 2 ^ 64 -> resolves m cr3 dest (seqZ dest n).
Proof.
  intros Hd He i p Hi. apply lookup_seqZ in Hi as [-> Hi]. unfold KERNEL_VMA in Hd.
  rewrite u64_small by lia. apply resolve_kernel. unfold KERNEL_VMA. lia.
Qed.

Definition in_buffer (dest n x : Z) : Prop := dest <= x < dest + n.

Lemma copy_from_run T cr3 (a : A) m0 dest size :
  pt_inv T cr3 a m0 -> KERNEL_VMA <= dest -> dest + size < 2 ^ 64 -> 0 <= size ->
  (forall x, in_buffer dest size x -> ~ table_byte T x) ->
  forall ps m k src, changes (in_buffer dest size) m0 m -> Z.of_nat (length ps) <= size ->
    resolves m0 cr3 src ps -> Forall (fun p => ~ in_buffer dest size p) ps -> 0 <= src < 2 ^ 64 ->
    copy_bytes (length ps + k) cr3 dest src m =
      copy_bytes k cr3 (u64 (dest + Z.of_nat (length ps))) (u64 (src + Z.of_nat (length ps)))
        (store_bytes m dest (load8 m0 <$> ps)).
Proof.
  intros HT Hd He Hz HQ ps m k src Hm Hl Hs Hps Hsrc.
  rewrite (copy_bytes_run T cr3 a m0 (in_buffer dest size) HT HQ ps (seqZ dest (Z.of_nat (length ps)))); try done.
  - do 2 f_equal. rewrite <- (length_fmap (load8 m0) ps). apply store_list_range.
  - rewrite length_seqZ. lia.
  - apply resolves_kernel; lia.
  - apply Forall_forall. intros x Hx. apply elem_of_seqZ in Hx. unfold in_buffer. lia.
  - unfold KERNEL_VMA in Hd. lia.
Qed.

End Addresses.

(** ** The fixup address *)

Section Kernel.
Context {A R N D : Type} `{PageAllocatorLaws A} `{RegionTree R}.
Context (fixup : Z) (Hfixup : fixup <> 0).

Notation kernel := (sched (ProcessData R) (World A N D)).

(** A process is in the kernel: no copy is under way. *)
Record in_kernel (s : kernel) (c : Z) (proc : Process (ProcessData R)) : Prop := {
  ik_current : CURRENT s = Some c;
  ik_proc : procs s !! c = Some proc;
  ik_fixup : page_fault_fixup proc = 0
}.

Lemma in_kernel_memory s c proc m : in_kernel s c proc -> in_kernel (put_memory m s) c proc.
Proof. intros [Hc Hp Hf]. by split. Qed.

(** The fixup address is set and cleared again, whatever the copy does. *)
Lemma with_fixup_spec copy s c proc r m :
  in_kernel s c proc -> copy (mmu_map (vmspace (rest proc))) (memory (world s)) = (r, m) ->
  with_fixup fixup copy s =
    match r with
    | At _ => Ok (0, put_memory m s)
    | PageFault => Ok (- EFAULT, put_memory m s)
    | Protection => Fault Panic
    end.
Proof using Hfixup.
  intros [Hc Hp Hf] Hcopy. destruct s as [cur rq wq ps w]. cbn [CURRENT procs world] in *. subst cur.
  unfold with_fixup, page_fault_set_fixup. cbn [CURRENT]. rewrite (deref_some _ c proc), !Ok_bind by done.
  unfold current_map, get_current. cbn [CURRENT update]. rewrite Ok_bind.
  rewrite (deref_some _ c (MkProcess (state proc) (task_state proc) fixup (rest proc))), !Ok_bind
    by (cbn [procs update]; apply lookup_insert_eq).
  cbn [rest world update]. rewrite Hcopy.
  assert (<[c := MkProcess (state proc) (task_state proc) 0 (rest proc)]>
    (<[c := MkProcess (state proc) (task_state proc) fixup (rest proc)]> ps) = ps) as Hback.
  { rewrite insert_insert_eq. apply insert_id. rewrite Hp. rewrite <- Hf. by destruct proc. }
  assert (deref (put_memory m (update (MkSched (Some c) rq wq ps w) c (MkProcess (state proc) (task_state proc) fixup (rest proc)))) c
    = Ok (MkProcess (state proc) (task_state proc) fixup (rest proc))) as Hd.
  { apply deref_some. cbn. apply lookup_insert_eq. }
  destruct r as [q| |]; [| |done].
  - cbn [CURRENT put_memory update]. cbn [put_memory update] in Hd. rewrite Hd, !Ok_bind. cbn [update procs state task_state rest].
    unfold update, put_memory. cbn. by rewrite Hback.
  - unfold user_fault, page_fault_get_fixup, page_fault_set_fixup. cbn [CURRENT put_memory update].
    cbn [put_memory update] in Hd. rewrite Hd, !Ok_bind. cbn [page_fault_fixup].
    destruct (Z.eqb_spec fixup 0) as [?|_]; [done|]. rewrite ?Hd, ?Ok_bind.
    unfold update, put_memory. cbn. by rewrite Hback.
Qed.

(** ** A structure of the process, in one piece of memory *)

Record user_range (m : mem) (cr3 uva p n : Z) : Prop := {
  ur_va : 0 <= uva /\ uva + n <= KERNEL_VMA;
  ur_n : 0 < n;
  ur_maps i : 0 <= i < n -> resolve m cr3 (uva + i) = At (p + i)
}.

Lemma user_range_resolves m cr3 uva p n : user_range m cr3 uva p n -> resolves m cr3 uva (seqZ p n).
Proof using.
  intros [[V1 V2] Hn Hm] i q Hi. apply lookup_seqZ in Hi as [-> Hi]. unfold KERNEL_VMA in V2.
  rewrite u64_small by lia. apply Hm. lia.
Qed.

Lemma user_range_same T cr3 (a : A) m m' uva p n :
  pt_inv T cr3 a m -> (forall x, table_byte T x -> load8 m' x = load8 m x) ->
  user_range m cr3 uva p n -> user_range m' cr3 uva p n.
Proof using.
  intros HT Hm [Hv Hn Hu]. split; [done|done|]. intros i Hi. rewrite (resolve_same T cr3 a m m') by done. auto.
Qed.

Lemma copy_in T (a : A) (s : kernel) c proc dest uva p (n : nat) :
  let cr3 := mmu_map (vmspace (rest proc)) in
  let m := memory (world s) in
  in_kernel s c proc -> pt_inv T cr3 a m -> KERNEL_VMA <= dest -> dest + Z.of_nat n < 2 ^ 64 ->
  (forall x, in_buffer dest (Z.of_nat n) x -> ~ table_byte T x /\ ~ in_buffer p (Z.of_nat n) x) ->
  user_range m cr3 uva p (Z.of_nat n) ->
  memcpy_from_user fixup dest uva (Z.of_nat n) s = Ok (0, put_memory (store_bytes m dest (load_bytes m p n)) s).
Proof using Hfixup.
  intros cr3 m Hs HT Hd He Hb Hu. pose proof Hu as [[U1 U2] U3 _]. unfold memcpy_from_user, KERNEL_VMA in *.
  destruct (Z.leb_spec 0xffffffff80000000 uva); [lia|]. unfold memcpy_user_safe.
  assert (Forall (fun q => ~ in_buffer dest (Z.of_nat n) q) (seqZ p (Z.of_nat n))) as Hps.
  { apply Forall_forall. intros x Hx Hx'. apply elem_of_seqZ in Hx. apply (proj2 (Hb x Hx')). unfold in_buffer. lia. }
  pose proof (copy_from_run T cr3 a m dest (Z.of_nat n) HT Hd He ltac:(lia) (fun x Hx => proj1 (Hb x Hx)) (seqZ p (Z.of_nat n)) m 0 uva
    (changes_refl _ _) ltac:(rewrite length_seqZ; lia) (user_range_resolves _ _ _ _ _ Hu) Hps ltac:(lia)) as Hcopy.
  rewrite load8_seqZ, length_seqZ, Nat.add_0_r in Hcopy. by rewrite (with_fixup_spec _ s c proc _ _ Hs Hcopy).
Qed.

Lemma copy_out T (a : A) (s : kernel) c proc src uva p (n : nat) :
  let cr3 := mmu_map (vmspace (rest proc)) in
  let m := memory (world s) in
  in_kernel s c proc -> pt_inv T cr3 a m -> KERNEL_VMA <= src -> src + Z.of_nat n < 2 ^ 64 ->
  (forall x, in_buffer p (Z.of_nat n) x -> ~ table_byte T x /\ ~ in_buffer src (Z.of_nat n) x) ->
  user_range m cr3 uva p (Z.of_nat n) ->
  memcpy_to_user fixup uva src (Z.of_nat n) s = Ok (0, put_memory (store_bytes m p (load_bytes m src n)) s).
Proof using Hfixup.
  intros cr3 m Hs HT Hd He Hb Hu. pose proof Hu as [[U1 U2] U3 _]. unfold memcpy_to_user, KERNEL_VMA in *.
  destruct (Z.leb_spec 0xffffffff80000000 uva); [lia|]. unfold memcpy_user_safe.
  assert (Forall (fun q => ~ in_buffer p (Z.of_nat n) q) (seqZ src (Z.of_nat n))) as Hps.
  { apply Forall_forall. intros x Hx Hx'. apply elem_of_seqZ in Hx. apply (proj2 (Hb x Hx')). unfold in_buffer. lia. }
  assert (Forall (in_buffer p (Z.of_nat n)) (seqZ p (Z.of_nat n))) as Hqs.
  { apply Forall_forall. intros x Hx. apply elem_of_seqZ in Hx. unfold in_buffer. lia. }
  pose proof (copy_bytes_run T cr3 a m (in_buffer p (Z.of_nat n)) HT (fun x Hx => proj1 (Hb x Hx)) (seqZ src (Z.of_nat n))
    (seqZ p (Z.of_nat n)) m 0 uva src (changes_refl _ _) ltac:(by rewrite !length_seqZ)
    (resolves_kernel m cr3 src (Z.of_nat n) Hd ltac:(lia)) (user_range_resolves _ _ _ _ _ Hu) Hqs Hps ltac:(lia) ltac:(lia)) as Hcopy.
  pose proof (store_list_range m p (load_bytes m src n)) as Hst. rewrite length_load_bytes in Hst.
  rewrite load8_seqZ, length_seqZ, Nat.add_0_r, Hst in Hcopy. by rewrite (with_fixup_spec _ s c proc _ _ Hs Hcopy).
Qed.

(** ** Printing *)

(** What the serial port sends for a byte. *)
Definition uart (c : Z) : Z := if c =? 13 then 10 else c.

Lemma console_write_uart m p n out : console_write m p n out = out ++ (uart <$> load_bytes m p n).
Proof.
  unfold console_write. generalize (load_bytes m p n). intros l. revert out.
  induction l as [|c l IH]; intros out; cbn [foldl fmap list_fmap]; [by rewrite app_nil_r|].
  rewrite IH. unfold console_write_char. by rewrite <- app_assoc.
Qed.

(** Of a buffer that is mapped up to a point the full pieces are printed. *)
Definition printed (count : Z) (bs : list Z) : list Z :=
  if count =? Z.of_nat (length bs) then bs else take (length bs / 64 * 64) bs.

Lemma printed_step count bs n :
  (n <= length bs)%nat -> Z.of_nat n <= count -> n = 64%nat \/ Z.of_nat n = count -> Z.of_nat (length bs) <= count ->
  printed count bs = take n bs ++ printed (count - Z.of_nat n) (drop n bs).
Proof.
  intros Hn Hc Hcase Hl. unfold printed. rewrite length_drop.
  destruct (Z.eqb_spec count (Z.of_nat (length bs))), (Z.eqb_spec (count - Z.of_nat n) (Z.of_nat (length bs - n))); try lia.
  - by rewrite take_drop.
  - assert (n = 64%nat) as -> by lia. rewrite take_take_drop. f_equal.
    replace (length bs) with (length bs - 64 + 1 * 64)%nat at 1 by lia. rewrite Nat.div_add by lia. lia.
Qed.

Section Print.
Context (frame : Z) (Hf1 : KERNEL_VMA <= frame) (Hf2 : frame + 64 < 2 ^ 64).
Context (T : gmap Z role) (a : A) (s : kernel) (c : Z) (proc : Process (ProcessData R)).
Context (Hs : in_kernel s c proc) (HT : pt_inv T (mmu_map (vmspace (rest proc))) a (memory (world s))).
Context (Hft : forall x, in_buffer frame 64 x -> ~ table_byte T x).
#[local] Set Default Proof Using "All".

Notation cr3 := (mmu_map (vmspace (rest proc))).
Notation m0 := (memory (world s)).

(** The state after some rounds. *)
Definition print_state (m : mem) (out : list Z) : kernel := put_console out (put_memory m s).

(** A buffer of [count] bytes of which those at [ps] are mapped. *)
Record user_buffer (ubuf count : Z) (ps : list Z) : Prop := {
  ub_range : 0 <= ubuf /\ ubuf + count <= KERNEL_VMA /\ 0 <= count;
  ub_mapped : resolves m0 cr3 ubuf ps;
  ub_apart : Forall (fun p => ~ in_buffer frame 64 p) ps;
  ub_rest : Z.of_nat (length ps) <= count /\
    (Z.of_nat (length ps) < count -> resolve m0 cr3 (ubuf + Z.of_nat (length ps)) = PageFault)
}.

Lemma user_buffer_drop ubuf count ps n :
  user_buffer ubuf count ps -> (n <= length ps)%nat -> user_buffer (ubuf + Z.of_nat n) (count - Z.of_nat n) (drop n ps).
Proof.
  intros [(B1 & B2 & B3) Hm Ha [B4 B5]] Hn. split.
  - lia.
  - intros i p Hi. rewrite lookup_drop in Hi. rewrite <- (Hm (n + i)%nat p Hi). do 2 f_equal. lia.
  - by apply Forall_drop.
  - rewrite length_drop. split; [lia|]. intros Hlt. rewrite <- B5 by lia. f_equal. lia.
Qed.

(** One round: a piece of [nr] bytes, or the fault. *)
Lemma print_round ubuf count ps m out nr :
  user_buffer ubuf count ps -> changes (in_buffer frame 64) m0 m -> 0 < nr <= 64 -> nr <= count ->
  exists m', changes (in_buffer frame 64) m0 m' /\
    memcpy_from_user fixup frame ubuf nr (print_state m out) =
      (if nr <=? Z.of_nat (length ps) then Ok (0, print_state m' out) else Ok (- EFAULT, print_state m' out)) /\
    (nr <= Z.of_nat (length ps) -> load_bytes m' frame (Z.to_nat nr) = load8 m0 <$> take (Z.to_nat nr) ps).
Proof.
  intros [(B1 & B2 & B3) Hm Ha [B4 B5]] Hch Hnr Hc. unfold KERNEL_VMA in B2.
  assert (in_kernel (print_state m out) c proc) as Hs' by (by destruct Hs; split).
  unfold memcpy_from_user. destruct (Z.leb_spec KERNEL_VMA ubuf) as [Hv|_]; [unfold KERNEL_VMA in Hv; lia|].
  set (k := Nat.min (Z.to_nat nr) (length ps)).
  assert (resolves m0 cr3 ubuf (take k ps)) as Hmk.
  { intros i p Hi. apply lookup_take_Some in Hi as [Hi _]. by apply Hm. }
  pose proof (copy_from_run T cr3 a m0 frame 64 HT Hf1 Hf2 ltac:(lia) Hft (take k ps) m (Z.to_nat nr - k) ubuf
    Hch ltac:(rewrite length_take; lia) Hmk ltac:(by apply Forall_take) ltac:(lia)) as Hcopy.
  rewrite length_take in Hcopy. replace (Nat.min k (length ps) + (Z.to_nat nr - k))%nat with (Z.to_nat nr) in Hcopy by lia.
  set (m' := store_bytes m frame (load8 m0 <$> take k ps)) in *.
  assert (length (load8 m0 <$> take k ps) = k) as Hlen by (rewrite length_fmap, length_take; lia).
  assert (changes (in_buffer frame 64) m0 m') as Hch'.
  { apply (changes_trans _ _ m); [done|]. intros x Hx. apply load8_store_bytes_out. unfold in_buffer in Hx. lia. }
  exists m'. split; [done|].
  assert (forall x, table_byte T x -> load8 m' x = load8 m0 x) as Htab by (intros x Hx; apply Hch'; intros Hx'; by apply (Hft x)).
  split.
  - unfold memcpy_user_safe. destruct (Z.leb_spec nr (Z.of_nat (length ps))).
    + replace (Z.to_nat nr - k)%nat with 0%nat in Hcopy by lia. by rewrite (with_fixup_spec _ _ c proc _ _ Hs' Hcopy).
    + replace (Z.to_nat nr - k)%nat with (S (Z.to_nat nr - k - 1)) in Hcopy by lia.
      replace (Nat.min k (length ps)) with (length ps) in Hcopy by lia.
      rewrite u64_small in Hcopy by (unfold KERNEL_VMA in *; lia). rewrite (u64_small (ubuf + _)) in Hcopy by lia.
      rewrite (copy_bytes_fault _ _ _ _ _ PageFault) in Hcopy; [| |done].
      * by rewrite (with_fixup_spec _ _ c proc _ _ Hs' Hcopy).
      * rewrite (resolve_same T cr3 a m0 m') by done. apply B5. lia.
  - intros Hle. replace (Z.to_nat nr) with (length (load8 m0 <$> take k ps)) at 1 by lia.
    replace (take (Z.to_nat nr) ps) with (take k ps) by (f_equal; lia). apply load_bytes_store_bytes.
    apply Forall_fmap, Forall_forall. intros x _. apply load8_range.
Qed.

Lemma print_loop fuel : forall ubuf off count ps m out,
  user_buffer (ubuf + off) count ps -> 0 <= off -> 0 <= ubuf -> off + count < 2 ^ 63 -> count <= Z.of_nat fuel ->
  changes (in_buffer frame 64) m0 m ->
  exists m', changes (in_buffer frame 64) m0 m' /\
    console_print_loop fixup frame fuel ubuf count off (print_state m out) =
      Ok (if count =? Z.of_nat (length ps) then off + count else - EFAULT,
          print_state m' (out ++ (uart <$> printed count (load8 m0 <$> ps)))).
Proof.
  induction fuel as [|fuel IH]; intros ubuf off count ps m out Hb Ho Hu Hc Hf Hm; pose proof Hb as [(B1 & B2 & B3) _ _ [B4 _]];
    unfold KERNEL_VMA in B2; cbn [console_print_loop]; destruct (Z.eqb_spec count 0) as [->|Hne]; try lia.
  1,2: assert (ps = []) as -> by (apply length_zero_iff_nil; lia); exists m; split; [done|];
    cbn; by rewrite app_nil_r, Z.add_0_r.
  set (nr := if BUF_SIZE <? count then BUF_SIZE else count).
  assert (0 < nr <= 64 /\ nr <= count /\ (nr = 64 \/ nr = count)) as (Hn1 & Hn2 & Hn3).
  { unfold nr, BUF_SIZE. destruct (Z.ltb_spec 64 count); lia. }
  rewrite u64_small by lia.
  destruct (print_round (ubuf + off) count ps m out nr Hb Hm Hn1 Hn2) as (m1 & Hm1 & -> & Hbytes).
  destruct (Z.leb_spec nr (Z.of_nat (length ps))) as [Hle|Hgt]; rewrite Ok_bind.
  - cbn [Z.ltb Z.compare]. rewrite console_write_uart. cbn [print_state put_console put_memory world memory console set_memory].
    rewrite (Hbytes Hle). unfold s64. rewrite u64_small by lia. destruct (Z.ltb_spec (off + nr) (2 ^ 63)); [|lia].
    assert (user_buffer (ubuf + (off + nr)) (count - nr) (drop (Z.to_nat nr) ps)) as Hb'.
    { replace (ubuf + (off + nr)) with (ubuf + off + Z.of_nat (Z.to_nat nr)) by lia.
      replace (count - nr) with (count - Z.of_nat (Z.to_nat nr)) by lia. apply user_buffer_drop; [done|lia]. }
    destruct (IH ubuf (off + nr) (count - nr) (drop (Z.to_nat nr) ps) m1
      (out ++ (uart <$> (load8 m0 <$> take (Z.to_nat nr) ps))) Hb' ltac:(lia) Hu ltac:(lia) ltac:(lia) Hm1) as (m' & Hm' & E).
    exists m'. split; [done|]. etransitivity; [exact E|]. rewrite length_drop. f_equal. f_equal.
    + destruct (Z.eqb_spec (count - nr) (Z.of_nat (length ps - Z.to_nat nr))), (Z.eqb_spec count (Z.of_nat (length ps))); lia.
    + f_equal. rewrite <- app_assoc, <- fmap_app. do 2 f_equal.
      rewrite (printed_step count (load8 m0 <$> ps) (Z.to_nat nr)), fmap_take, fmap_drop; rewrite ?length_fmap; [|lia..].
      do 2 f_equal. lia.
  - cbn [Z.ltb Z.compare Z.opp EFAULT]. exists m1. split; [done|].
    destruct (Z.eqb_spec count (Z.of_nat (length ps))); [lia|]. unfold printed. rewrite length_fmap.
    destruct (Z.eqb_spec count (Z.of_nat (length ps))); [lia|]. rewrite Nat.div_small by lia. cbn. by rewrite app_nil_r.
Qed.

(** C10: [sys_console_print] prints the buffer of the process: the bytes behind its
    addresses in order, with carriage returns as newlines, and returns their
    number.  If an address of the buffer is not mapped the call returns -EFAULT
    and the pieces of 64 bytes before the one with that address are printed.  The
    copy through the kernel's stack changes nothing but its buffer there, and the
    fixup address is cleared again. *)
Theorem console_print_prints ubuf count ps :
  user_buffer ubuf count ps -> count < 2 ^ 63 ->
  exists m', changes (in_buffer frame 64) m0 m' /\
    sys_console_print fixup frame ubuf count s =
      Ok (if count =? Z.of_nat (length ps) then count else - EFAULT,
          put_console (console (world s) ++ (uart <$> printed count (load8 m0 <$> ps))) (put_memory m' s)).
Proof.
  intros Hb Hc. pose proof Hb as [(B1 & B2 & B3) _ _ _].
  destruct (print_loop (Z.to_nat count) ubuf 0 count ps m0 (console (world s))) as (m' & Hm' & E); try lia; try done.
  { by rewrite Z.add_0_r. }
  assert (forall s0 : kernel, put_console (console (world s0)) (put_memory (memory (world s0)) s0) = s0) as Hid
    by (by intros [? ? ? ? []]).
  exists m'. split; [done|]. unfold print_state in E. rewrite Hid in E. exact E.
Qed.

End Print.

End Kernel.
