(* ===== verification/SyscallTheorems.v ===== *)
(** * The system call for memory, end to end

    [sys_vmspace_alloc] from the structure in the memory of the process to the
    mapped page and back, over the copies of UserCopy, the address spaces of Vm,
    the slab and page allocators and the page tables. *)

From Stdlib Require Import Sorting.Sorted.
From S2P Require Import Prelude Align Mem Printf PageAlloc PageAllocProof LibcString Kmem KmemProof KmemAlloc KmemInit.
From S2P Require Import KmemTheorems Mmu MmuProof MmuMap MmuTheorems Sched Vm VmProof VmTheorems Kernel Process Syscall.
From S2P Require Import UserCopy.
#[local] Open Scope Z_scope.

(** A field of a structure that was copied. *)
Lemma load_bytes_move m m' x y n :
  (forall i, 0 <= i < Z.of_nat n -> load8 m' (x + i) = load8 m (y + i)) -> load_bytes m' x n = load_bytes m y n.
Proof.
  revert x y. induction n as [|n IH]; intros x y Hi; [done|]. cbn [load_bytes]. f_equal.
  - specialize (Hi 0 ltac:(lia)). by rewrite !Z.add_0_r in Hi.
  - apply IH. intros i Hi'. rewrite <- !Z.add_assoc. apply Hi. lia.
Qed.

Lemma load_copied k m x y n off :
  0 <= off -> off + Z.of_nat k <= Z.of_nat n ->
  load k (store_bytes m x (load_bytes m y n)) (x + off) = load k m (y + off).
Proof.
  intros H0 Hn. rewrite !load_join. f_equal. apply load_bytes_move. intros i Hi.
  replace (x + off + i) with (x + Z.of_nat (Z.to_nat (off + i))) by lia.
  replace (y + off + i) with (y + Z.of_nat (Z.to_nat (off + i))) by lia.
  rewrite (load8_store_bytes_in _ _ _ _ (load8 m (y + Z.of_nat (Z.to_nat (off + i))))).
  - apply u8_small, load8_range.
  - apply load_bytes_lookup. lia.
Qed.

Section Alloc.
Context {A : Type} `{PageAllocatorLaws A} {R : Type} `{RegionTreeLaws R} {N D : Type} `{Namespace N} `{DeviceOps A R D}.
Context (sc kc : Z) (Hkc : 0 < kc) (fixup : Z) (Hfixup : fixup <> 0).
#[local] Set Default Proof Using "All".

Notation kernel := (sched (ProcessData R) (World A N D)).

Lemma process_vmspace_alloc_spec K T (s : kernel) c proc size k vmr :
  let w := world s in
  in_kernel s c proc -> vm_ok (vmspace (rest proc)) ->
  kernel_inv sc kc K T (mmu_map (vmspace (rest proc))) (pages w) (memory w) ->
  is_page_size size -> 0 <= k < 47 -> top (vmspace (rest proc)) + 2 ^ k + size <= 2 ^ 47 ->
  (forall x, vmr <= x < vmr + 8 -> others K T (pages w) x) ->
  (process_vmspace_alloc sc kc size (2 ^ k) vmr s = Fault Panic /\
   exists a' m', kmem_alloc sc kc sizeof_VMRegion (pages w) (memory w) = Ok (0, a', m')) \/
  exists ret K' T' a' m' vs',
    process_vmspace_alloc sc kc size (2 ^ k) vmr s =
      Ok (ret, put_data s c proc (with_vmspace vs' (rest proc)) (with_pages a' m' w)) /\
    vmspace_alloc_post sc kc K T (pages w) (memory w) (vmspace (rest proc)) size k vmr ret K' T' a' m' vs'.
Proof.
  intros w [Hc Hp _] Hvm HK Hs Hk Hend Hvmr. unfold process_vmspace_alloc, current_process, get_current.
  rewrite Hc, Ok_bind. rewrite (deref_some s c proc Hp), !Ok_bind.
  fold w. set (a := pages w) in *. set (m := memory w) in *. set (vs := vmspace (rest proc)) in *.
  destruct (alloc_populate_spec sc kc Hkc K T a m vs size k Hvm HK Hs Hk Hend)
    as [[-> ?]|(vs1 & a1 & m1 & res & vs' & K' & T' & a' & m' & -> & E & HK' & Hkp & Hvs' & Hmap & Hout & box & page & Hreg & Hres)];
    [left; by rewrite Fault_bind|right].
  rewrite Ok_bind, E, Ok_bind. destruct Hkp as [_ Ho Hm].
  assert (forall e, e <> 0 -> e = - ENOMEM \/ e = ENOMEM \/ e = EINVAL ->
    vmspace_alloc_post sc kc K T a m vs size k vmr e K' T' a' m' vs') as Herr.
  { intros e He He'. split; [done|done|tauto| |done|].
    - exists box, page. split; [done|]. by intros ->.
    - intros x Hx. split; auto. }
  destruct Hres as [-> | [-> | [-> | (-> & p & -> & Hfr & Hm')]]]; [exists (- ENOMEM)|exists ENOMEM|exists EINVAL|exists 0].
  1-3: exists K', T', a', m', vs'; split; [done|apply Herr; [done|tauto]].
  assert (forall x, ~ vmr <= x < vmr + 8 -> load8 (store64 m' vmr (next_start vs k)) x = load8 m' x) as Hst.
  { intros x Hx. apply load8_store_out. simpl. lia. }
  destruct (store_others_kernel sc kc Hkc K' T' (mmu_map vs) a' m' (store64 m' vmr (next_start vs k)) HK') as [HK2 Htr].
  { intros x Hx. apply Hst. intros Hx'. by apply Hx, Ho, Hvmr. }
  exists K', T', a', (store64 m' vmr (next_start vs k)), vs'. split; [done|]. split; [done|done|tauto| | |].
  - exists box, (Some p). split; [done|]. intros _. exists p. split_and!; [done| |done|intros va; rewrite Htr; apply Hm'].
    assert (0 < size) by (by destruct Hs as [-> | ->]). destruct (top_spec _ Hvm) as (? & _).
    destruct (next_start_spec vs k Hvm ltac:(lia) ltac:(lia)) as (Hn & _).
    rewrite load64_store64_eq. apply u64_small. lia.
  - intros va Hva. rewrite Htr. by apply Hout.
  - intros x Hx. split; [by apply Ho|]. intros Hx'. rewrite Hst by tauto. by apply Hm.
Qed.

(** ** The system call *)

Context (frame : Z) (Hf1 : KERNEL_VMA <= frame) (Hf2 : frame + 32 < 2 ^ 64).

(** The structure of the process is at [p] in memory, in a region of the process,
    apart from the kernel's stack; it asks for [size] bytes, and for the alignment
    [2 ^ k] or none. *)
Record request (K : kstate) (T : gmap Z role) (s : kernel) (proc : Process (ProcessData R)) (uvmr p size k : Z) : Prop := {
  rq_range : user_range (memory (world s)) (mmu_map (vmspace (rest proc))) uvmr p 24;
  rq_below : uvmr + 24 <= top (vmspace (rest proc));
  rq_others x : in_buffer p 24 x \/ in_buffer frame 32 x -> others K T (pages (world s)) x;
  rq_apart : p + 24 <= frame \/ frame + 32 <= p;
  rq_size : load64 (memory (world s)) (vmr_size p) = size;
  rq_align : load64 (memory (world s)) (vmr_align p) = 2 ^ k \/ load64 (memory (world s)) (vmr_align p) = 0 /\ k = 12
}.

(** The copy of the structure on the kernel's stack, with the defaults filled in. *)
Definition local_copy (m : mem) (p : Z) : mem :=
  let m := store_bytes m frame (load_bytes m p 24) in
  let m := if load64 m (vmr_align frame) =? 0 then store64 m (vmr_align frame) PAGE_SIZE_SMALL else m in
  store64 m (frame + sizeof_vmspace_region) 0.

Lemma local_copy_spec m p size k :
  0 <= k < 64 -> load64 m (vmr_size p) = size ->
  load64 m (vmr_align p) = 2 ^ k \/ load64 m (vmr_align p) = 0 /\ k = 12 ->
  changes (in_buffer frame 32) m (local_copy m p) /\
  load64 (local_copy m p) (vmr_size frame) = size /\ load64 (local_copy m p) (vmr_align frame) = 2 ^ k.
Proof.
  intros Hk Hs Ha. unfold local_copy, vmr_size, vmr_align, sizeof_vmspace_region in *.
  set (m1 := store_bytes m frame (load_bytes m p 24)).
  assert (load64 m1 (frame + 8) = load64 m (p + 8)) as E8 by (apply (load_copied 8); simpl; lia).
  assert (load64 m1 frame = size) as E0.
  { rewrite <- (Z.add_0_r frame). unfold m1. etransitivity; [apply (load_copied 8); simpl; lia|]. by rewrite Z.add_0_r. }
  assert (changes (in_buffer frame 32) m m1) as Hc1.
  { intros x Hx. apply load8_store_bytes_out. rewrite length_load_bytes. unfold in_buffer in Hx. simpl. lia. }
  assert (forall m2 y v, changes (in_buffer frame 32) m m2 -> frame <= y -> y + 8 <= frame + 32 ->
    changes (in_buffer frame 32) m (store64 m2 y v)) as Hst.
  { intros m2 y v Hm2 Hy1 Hy2. apply (changes_trans _ _ m2); [done|]. intros x Hx. apply load8_store_out.
    unfold in_buffer in Hx. simpl. lia. }
  rewrite !E8. assert (0 < 2 ^ k) by (apply pow2_pos; lia).
  destruct Ha as [Ha | [Ha ->]]; rewrite Ha; [destruct (Z.eqb_spec (2 ^ k) 0); [lia|]|rewrite Z.eqb_refl].
  - split_and!; [by apply Hst; [|lia..]|by rewrite load64_store64_ne by lia|]. rewrite load64_store64_ne by lia. by rewrite E8.
  - split_and!; [by repeat (apply Hst; [|lia..])| |]; rewrite !load64_store64_ne by lia; [done|].
    by rewrite load64_store64_eq.
Qed.

(** What the process gets: [ret] and the memory [m'] after the call. *)
Record answer (K : kstate) (T : gmap Z role) (s : kernel) (proc : Process (ProcessData R)) (p size k ret : Z)
  (K' : kstate) (T' : gmap Z role) (a' : A) (m' : mem) (vs' : VMAddressSpace R) : Prop := {
  an_inv : kernel_inv sc kc K' T' (mmu_map (vmspace (rest proc))) a' m';
  an_vm : vm_ok vs' /\ mmu_map vs' = mmu_map (vmspace (rest proc));
  an_ret : ret = 0 \/ ret = - ENOMEM \/ ret = ENOMEM \/ ret = EINVAL;
  an_region : exists box page, regions (vm_regions vs') ≡ₚ
    set_page page (new_region (vmspace (rest proc)) size k VM_PROT_RW box) :: regions (vm_regions (vmspace (rest proc))) /\
    (ret = 0 -> exists q, page = Some q /\
       load64 m' (vmr_start p) = next_start (vmspace (rest proc)) k /\
       load64 m' (vmr_size p) = size /\ load64 m' (vmr_align p) = 2 ^ k /\
       fresh_page K (pages (world s)) K' T' a' q size /\
       maps (memory (world s)) m' (mmu_map (vmspace (rest proc))) (next_start (vmspace (rest proc)) k) size q);
  an_maps : maps_outside (memory (world s)) m' (mmu_map (vmspace (rest proc))) (next_start (vmspace (rest proc)) k) size;
  an_others x : others K T (pages (world s)) x ->
    others K' T' a' x /\ (~ in_buffer frame 32 x -> ~ in_buffer p 24 x -> load8 m' x = load8 (memory (world s)) x)
}.

(** The state before the allocation. *)
Lemma local_copy_kernel K T (s : kernel) proc uvmr p size k :
  let m := memory (world s) in
  let cr3 := mmu_map (vmspace (rest proc)) in
  kernel_inv sc kc K T cr3 (pages (world s)) m -> request K T s proc uvmr p size k ->
  changes (in_buffer frame 32) m (local_copy m p) ->
  kernel_inv sc kc K T cr3 (pages (world s)) (local_copy m p) /\
  forall va, translate (local_copy m p) cr3 va = translate m cr3 va.
Proof.
  intros m cr3 HK Hrq Hc. apply (store_others_kernel sc kc Hkc K T); [done|]. intros x Hx. apply Hc.
  intros Hx'. apply Hx, (rq_others _ _ _ _ _ _ _ _ Hrq). by right.
Qed.

(** A failure: the structure of the process is as before. *)
Lemma answer_failure K T (s : kernel) proc uvmr p size k ret K' T' a' m3 vs' :
  let m := memory (world s) in
  let vs := vmspace (rest proc) in
  request K T s proc uvmr p size k -> ret <> 0 ->
  changes (in_buffer frame 32) m (local_copy m p) ->
  (forall va, translate (local_copy m p) (mmu_map vs) va = translate m (mmu_map vs) va) ->
  vmspace_alloc_post sc kc K T (pages (world s)) (local_copy m p) vs size k (frame + 24) ret K' T' a' m3 vs' ->
  answer K T s proc p size k ret K' T' a' m3 vs'.
Proof.
  intros m vs Hrq Hr Hc Htr [P1 P2 P3 (box & page & P4 & _) P5 P6]. split; [done|done|done| | |].
  - exists box, page. split; [done|]. by intros ->.
  - intros va Hva. rewrite P5 by done. apply Htr.
  - intros x Hx. destruct (P6 x Hx) as [Ho Hm]. split; [done|]. intros H1' H2'. rewrite Hm by tauto. by apply Hc.
Qed.

(** Success: the start address is copied to the structure of the process. *)
Lemma answer_success K T (s : kernel) proc uvmr p size k K' T' a' m3 vs' :
  let m := memory (world s) in
  let vs := vmspace (rest proc) in
  let m4 := store64 m3 (vmr_start frame) (load64 m3 (frame + 24)) in
  let m5 := store_bytes m4 p (load_bytes m4 frame 24) in
  request K T s proc uvmr p size k ->
  changes (in_buffer frame 32) m (local_copy m p) ->
  load64 (local_copy m p) (vmr_size frame) = size -> load64 (local_copy m p) (vmr_align frame) = 2 ^ k ->
  (forall va, translate (local_copy m p) (mmu_map vs) va = translate m (mmu_map vs) va) ->
  vmspace_alloc_post sc kc K T (pages (world s)) (local_copy m p) vs size k (frame + 24) 0 K' T' a' m3 vs' ->
  answer K T s proc p size k 0 K' T' a' m5 vs'.
Proof.
  intros m vs m4 m5 Hrq Hc Es Ea Htr [P1 P2 P3 (box & page & P4 & P4') P5 P6]. pose proof Hrq as [_ _ Ho Hap _ _].
  assert (forall x, ~ in_buffer frame 32 x -> load8 m4 x = load8 m3 x) as Hm4.
  { intros x Hx. apply load8_store_out. unfold in_buffer, vmr_start in *. simpl. lia. }
  assert (forall x, ~ in_buffer p 24 x -> load8 m5 x = load8 m4 x) as Hm5.
  { intros x Hx. apply load8_store_bytes_out. rewrite length_load_bytes. unfold in_buffer in Hx. simpl. lia. }
  destruct (store_others_kernel sc kc Hkc K' T' (mmu_map vs) a' m3 m5 P1) as [HK5 Htr5].
  { intros x Hx. assert (~ in_buffer p 24 x /\ ~ in_buffer frame 32 x) as [X1 X2]
      by (split; intros Hx'; apply Hx, P6, Ho; tauto). by rewrite Hm5, Hm4. }
  destruct (P4' eq_refl) as (q & -> & Estart & Hfr & Hmp).
  assert (forall off, 0 <= off -> off + 8 <= 24 -> load64 m5 (p + off) = load64 m4 (frame + off)) as Hfield
    by (intros off F1 F2; apply (load_copied 8); simpl; lia).
  assert (forall off, 0 <= off -> off + 8 <= 16 -> load64 m4 (frame + off) = load64 (local_copy m p) (frame + off)) as Hold.
  { intros off F1 F2. unfold m4, vmr_start. rewrite load64_store64_ne by lia. apply load_ext. intros x Hx.
    simpl in Hx. apply P6; [apply Ho; right; unfold in_buffer; lia|lia]. }
  split; [done|done|tauto| | |].
  - exists box, (Some q). split; [done|]. intros _. exists q. unfold vmr_start, vmr_size, vmr_align in *. split_and!; [done| | | |done|].
    + rewrite Hfield by lia. unfold m4, vmr_start. rewrite load64_store64_eq, u64_small by apply load64_range. exact Estart.
    + rewrite <- (Z.add_0_r p), Hfield, Hold by lia. by rewrite Z.add_0_r.
    + by rewrite Hfield, Hold by lia.
    + intros va. rewrite Htr5, Hmp. fold vs m. destruct (decide _); [done|apply Htr].
  - intros va Hva. rewrite Htr5, P5 by done. apply Htr.
  - intros x Hx. destruct (P6 x Hx) as [Ho' Hm]. split; [done|]. intros F1 F2. rewrite Hm5, Hm4, Hm by (unfold in_buffer in *; tauto || lia).
    by apply Hc.
Qed.

(** The structure of the process stays where it is. *)
Lemma request_still_mapped K T (s : kernel) proc uvmr p size k m4 :
  let m := memory (world s) in
  let vs := vmspace (rest proc) in
  vm_ok vs -> 0 <= k < 47 -> top vs + 2 ^ k + size <= 2 ^ 47 -> 0 < size -> request K T s proc uvmr p size k ->
  maps_outside m m4 (mmu_map vs) (next_start vs k) size -> user_range m4 (mmu_map vs) uvmr p 24.
Proof.
  intros m vs Hvm Hk Hend Hs [[[U1 U2] U3 Um] Hbel _ _ _ _] Hout. destruct (top_spec _ Hvm) as (Ht & _).
  destruct (next_start_spec vs k Hvm ltac:(lia) ltac:(lia)) as (Hn & _).
  split; [done|done|]. intros i Hi. rewrite <- Um by done. unfold resolve. fold vs m. rewrite Hout; [done|].
  change (va48 (uvmr + i)) with ((uvmr + i) mod 2 ^ 48). fold vs in Hbel. rewrite Z.mod_small by lia. lia.
Qed.

(** C3: end to end, a process that asks for a page of memory gets it.  The call
    reads the request from the memory of the process, reserves the next aligned
    addresses behind all of its regions and maps a page there that nobody used
    before; on 0 exactly these addresses are newly mapped, and the structure of the
    process holds their start.  The slab allocator, the page allocator and the
    page tables stay well formed together, other addresses translate as before,
    and memory of others keeps its contents.  The kernel panics when there is no
    memory for the region.  On failure the region stays reserved, and an error of
    the page tables is returned with a positive sign. *)
Theorem sys_vmspace_alloc_maps K T (s : kernel) c proc uvmr p size k :
  in_kernel s c proc -> vm_ok (vmspace (rest proc)) ->
  kernel_inv sc kc K T (mmu_map (vmspace (rest proc))) (pages (world s)) (memory (world s)) ->
  request K T s proc uvmr p size k ->
  is_page_size size -> 0 <= k < 47 -> top (vmspace (rest proc)) + 2 ^ k + size <= 2 ^ 47 ->
  (sys_vmspace_alloc sc kc fixup frame uvmr 24 s = Fault Panic /\
   exists a' m', kmem_alloc sc kc sizeof_VMRegion (pages (world s)) (local_copy (memory (world s)) p) = Ok (0, a', m')) \/
  exists ret K' T' a' m' vs',
    sys_vmspace_alloc sc kc fixup frame uvmr 24 s =
      Ok (ret, put_data s c proc (with_vmspace vs' (rest proc)) (with_pages a' m' (world s))) /\
    answer K T s proc p size k ret K' T' a' m' vs'.
Proof.
  intros Hs Hvm HK Hrq Hsz Hk Hend. pose proof Hrq as [Hu Hbel Hoth Hap Hsize Halign].
  set (vs := vmspace (rest proc)) in *. set (m := memory (world s)) in *. set (a := pages (world s)) in *.
  pose proof (ke_pt _ _ _ _ _ _ _ HK) as HT.
  assert (forall x, in_buffer p 24 x \/ in_buffer frame 32 x -> ~ table_byte T x) as Hnt by (intros x Hx; apply (Hoth x Hx)).
  pose proof (copy_in fixup Hfixup T a s c proc frame uvmr p 24 Hs HT Hf1 ltac:(simpl; lia)) as Hin.
  change (Z.of_nat 24) with 24 in Hin. fold m in Hin. unfold sys_vmspace_alloc.
  change (negb (24 =? sizeof_vmspace_region)) with false. change sizeof_vmspace_region with 24. cbv iota zeta.
  rewrite Hin; [|intros x Hx; split; [apply Hnt; right|]; unfold in_buffer in *; lia|exact Hu]. rewrite Ok_bind. clear Hin.
  change (negb (0 =? 0)) with false. cbv iota. cbn [world put_memory memory set_memory].
  destruct (local_copy_spec m p size k ltac:(lia) Hsize Halign) as (Hc & Es & Ea).
  destruct (local_copy_kernel K T s proc uvmr p size k HK Hrq Hc) as [HK2 Htr].
  change (store64 _ (frame + 24) 0) with (local_copy m p). rewrite Es, Ea.
  destruct (process_vmspace_alloc_spec K T (put_memory (local_copy m p) s) c proc size k (frame + 24)
    (in_kernel_memory _ _ _ _ Hs) Hvm HK2 Hsz Hk Hend) as [[E Hno]|(ret & K' & T' & a' & m3 & vs' & E & HP)].
  { intros x Hx. apply Hoth. right. unfold in_buffer. lia. }
  { left. change (put_memory (local_copy m p) (put_memory _ s)) with (put_memory (local_copy m p) s). by rewrite E. }
  change (put_memory (local_copy m p) (put_memory _ s)) with (put_memory (local_copy m p) s). rewrite E, Ok_bind. right.
  cbn [world put_memory pages memory set_memory] in HP. destruct (Z.eqb_spec ret 0) as [->|Hr]; cbn [negb].
  2: { exists ret, K', T', a', m3, vs'. split; [done|]. by apply (answer_failure K T s proc uvmr). }
  pose proof (answer_success K T s proc uvmr p size k K' T' a' m3 vs' Hrq Hc Es Ea Htr HP) as Hans. cbn [world put_data with_pages memory].
  set (m4 := store64 m3 (vmr_start frame) (load64 m3 (frame + 24))) in *. destruct HP as [P1 [_ P2] _ _ P5 P6].
  set (proc' := MkProcess (state proc) (task_state proc) (page_fault_fixup proc) (with_vmspace vs' (rest proc))).
  set (s4 := put_memory m4 _).
  assert (in_kernel s4 c proc') as Hs4 by (destruct Hs as [S1 S2 S3]; split; [done|apply lookup_insert_eq|done]).
  destruct (store_others_kernel sc kc Hkc K' T' (mmu_map vs) a' m3 m4 P1) as [HK4 Htr4].
  { intros x Hx. apply load8_store_out. assert (~ in_buffer frame 32 x) by (intros Hx'; apply Hx, P6, Hoth; by right).
    unfold in_buffer, vmr_start in *. simpl. lia. }
  assert (user_range m4 (mmu_map vs) uvmr p 24) as Hu4.
  { apply (request_still_mapped K T s proc uvmr p size k); try done; [by destruct Hsz as [-> | ->]|].
    intros va Hva. rewrite Htr4, P5 by done. apply Htr. }
  pose proof (copy_out fixup Hfixup T' a' s4 c proc' frame uvmr p 24 Hs4) as Hcp.
  change (mmu_map (vmspace (rest proc'))) with (mmu_map vs') in Hcp. rewrite P2 in Hcp.
  change (memory (world s4)) with m4 in Hcp. change (Z.of_nat 24) with 24 in Hcp. rewrite Hcp; clear Hcp; [| |done|lia| |done].
  - exists 0, K', T', a', (store_bytes m4 p (load_bytes m4 frame 24)), vs'. by split.
  - apply (ke_pt _ _ _ _ _ _ _ HK4).
  - intros x Hx. split; [apply (P6 x), Hoth; by left|]. unfold in_buffer in *. lia.
Qed.

End Alloc.

(** ** The kernel on a concrete machine

    The machine of KmemTheorems with an empty page table, one process and no
    devices: the invariant of the kernel from the start, the theorems on the system
    calls applied to it, and what the system calls do not check. *)

(** ** The invariant from the start *)

(** A zeroed page of the allocator as the root of the page tables. *)
Lemma kernel_inv_root {A : Type} `{PageAllocatorLaws A} sc kc K (a : A) m :
  0 < kc -> kmem_ready sc kc K a m -> (forall x, ~ client K a x -> KERNEL_VMA <= x) ->
  ~ pa_empty a ->
  exists p a' m', page_alloc_small a m = Ok (p, a', m') /\
    kernel_inv sc kc K {[p - KERNEL_VMA := (4%nat, 0)]} (p - KERNEL_VMA) a' (memset m' p 0 (Z.to_nat 4096)) /\
    (forall x, client K a x -> others K {[p - KERNEL_VMA := (4%nat, 0)]} a' x).
Proof.
  intros Hkc Hk Hv He. pose proof (kr_inv _ _ _ _ _ Hk) as HK.
  destruct (kinv_page_alloc K a m HK) as [[? _]|(p & a' & m' & E & HK' & Hp & Hd & Hpe & Hpg & Hcl & Hm)]; [done|].
  rewrite page_small_val in *. unfold in_page in *. rewrite page_small_val in *.
  exists p, a', m'. split; [done|].
  assert (forall x, in_table (p - KERNEL_VMA) x <-> p <= x < p + 4096) as Hin by (intros x; unfold in_table; lia).
  assert (KERNEL_VMA <= p) as Hvp by (apply Hv, Hpg; lia).
  assert (kinv K a' (memset m' p 0 (Z.to_nat 4096))) as HK2.
  { apply (kinv_client_store K a' m'); [done|]. intros x Hx. apply memset_same_outside.
    destruct (decide (p <= x < p + 4096)); [|lia]. destruct Hx. apply Hcl. by right. }
  assert (forall x, pa_own a' x -> ~ client K a' x) as Hown by (intros x Hx Hx'; by apply (client_not_pa K a' m' x HK')).
  split; [split|].
  - destruct Hk as [_ H1 H2]. by split.
  - split; [apply HK2| |apply lookup_singleton_eq| |].
    + intros x Hx. apply Hv. intros Hc. apply (Hown x Hx), Hcl. by left.
    + intros t l q Ht. apply lookup_singleton_Some in Ht as [<- _]. by left.
    + intros t l q Ht. apply lookup_singleton_Some in Ht as [<- [= <- <-]].
      split; [lia|unfold KERNEL_VMA in *; lia| | |].
      * apply Z.divide_sub_r; [done|]. by exists (KERNEL_VMA / 4096).
      * intros x Hx Ho. apply Hin in Hx. by destruct (Hpg x Hx) as (_ & ? & _).
      * intros i _ Hi. left. unfold entry. replace (p - KERNEL_VMA + KERNEL_VMA + 8 * i) with (p + 8 * i) by lia.
        apply load_memset_0; simpl; lia.
  - intros x Hx. apply Hv. intros Hc. apply Hx, Hcl. by left.
  - intros t l q x Ht Hx. apply lookup_singleton_Some in Ht as [<- _]. apply Hin in Hx. apply Hcl. by right.
  - intros x Hx. split; [apply Hcl; by left|]. intros (t & l & q & Ht & Hx'). apply lookup_singleton_Some in Ht as [<- _].
    apply Hin in Hx'. by destruct (Hpg x Hx') as (_ & _ & ?).
Qed.

(** ** One process, no devices *)

#[global] Instance no_driver : DeviceOps (arenas list_tree) region_list unit := {
  dev_acquire _ _ vs a m d := Ok (Err EINVAL, vs, a, m, d);
  dev_subscribe _ _ _ d := Ok d;
  dev_get_config _ _ a m d := Ok (None, a, m, d);
  dev_process_io _ _ a m d := Ok (a, m, d)
}.

#[global] Instance name_list : Namespace (list (list Z * Z)) := {
  ns_add name device l := l ++ [(name, device)];
  ns_find name l := snd <$> List.find (fun e => bool_decide (fst e = name)) l;
  ns_devices l := snd <$> l
}.

Definition ex_world : Type := World (arenas list_tree) (list (list Z * Z)) unit.
Definition ex_kernel_state : Type := sched (ProcessData region_list) ex_world.

Definition one_process (cr3 : Z) (a : arenas list_tree) (m : mem) : ex_kernel_state :=
  MkSched (Some 1) [] [] {[1 := MkProcess RUNNING 101 0 (MkData (VMAddressSpace_new cr3) [] 0x80000000)]}
    (MkWorld a m [] [] tt).

Lemma empty_space_ok cr3 : vm_ok (VMAddressSpace_new cr3 : VMAddressSpace region_list).
Proof. split; cbn; constructor. Qed.

(** The kernel's stack and the fixup address. *)
Definition ex_stack : Z := KERNEL_VMA + 16384.
Definition ex_fixup : Z := KERNEL_VMA + 4096.

Definition ex_kernel : outcome ex_kernel_state :=
  '(_, a, m) ← ex_init;
  '(p, a, m) ← page_alloc_small a m;
  Ok (one_process (p - KERNEL_VMA) a (memset m p 0 (Z.to_nat 4096))).

Definition ex_alloc (size : Z) (s : ex_kernel_state) : outcome (Z * ex_kernel_state) :=
  process_vmspace_alloc ex_sc ex_kc size 4096 ex_stack s.

Definition returns (o : outcome (Z * ex_kernel_state)) : option Z :=
  match o with
  | Ok (r, _) => Some r
  | Fault _ => None
  end.

Lemma ex_pages : match ex_init with Ok (_, a, _) => segments (small_arena a) <> [] | Fault _ => True end.
Proof. vm_compute. discriminate. Qed.

Lemma ex_alloc_returns : returns (s ← ex_kernel; ex_alloc 4096 s) = Some 0.
Proof. vm_compute. reflexivity. Qed.

#[local] Opaque ex_init.

(** The machine after the first call: the page [q] is mapped at address zero. *)
Record ex_state (K : kstate) (T : gmap Z role) (s : ex_kernel_state) (proc : Process (ProcessData region_list)) (q : Z) : Prop := {
  ex_in : in_kernel s 1 proc;
  ex_vm : vm_ok (vmspace (rest proc));
  ex_top : top (vmspace (rest proc)) = 4096;
  ex_inv : kernel_inv ex_sc ex_kc K T (mmu_map (vmspace (rest proc))) (pages (world s)) (memory (world s));
  ex_page x : q <= x < q + 4096 -> others K T (pages (world s)) x /\ KERNEL_VMA <= x;
  ex_stack_free x : ex_stack <= x < ex_stack + 4096 -> others K T (pages (world s)) x /\ ~ q <= x < q + 4096;
  ex_maps va : 0 <= va < 4096 -> resolve (memory (world s)) (mmu_map (vmspace (rest proc))) va = At (q + va)
}.

Lemma ex_first :
  exists K T s proc, in_kernel s 1 proc /\ vm_ok (vmspace (rest proc)) /\ top (vmspace (rest proc)) = 0 /\
    regions (vm_regions (vmspace (rest proc))) = [] /\
    kernel_inv ex_sc ex_kc K T (mmu_map (vmspace (rest proc))) (pages (world s)) (memory (world s)) /\
    (forall x, ex_stack <= x < ex_stack + 4096 -> others K T (pages (world s)) x) /\
    ex_kernel = Ok s.
Proof.
  destruct ex_ready as (K & a & m & E & HR & _ & Hcl). pose proof ex_pages as Hpg. rewrite E in Hpg.
  destruct (kernel_inv_root ex_sc ex_kc K a m eq_refl HR) as (p & a' & m' & Ep & HK & Ho).
  - intros x Hx. destruct (decide (KERNEL_VMA <= x)); [done|]. destruct Hx. apply Hcl. left. unfold KERNEL_VMA, ex_base in *. lia.
  - exact Hpg.
  - exists K, {[p - KERNEL_VMA := (4%nat, 0)]}, (one_process (p - KERNEL_VMA) a' (memset m' p 0 (Z.to_nat 4096))),
      (MkProcess RUNNING 101 0 (MkData (VMAddressSpace_new (p - KERNEL_VMA)) [] 0x80000000)).
    split_and!; [by split|apply empty_space_ok|done|done|exact HK| |].
    + intros x Hx. apply Ho, Hcl. right. unfold ex_stack, KERNEL_VMA, ex_base in *. lia.
    + unfold ex_kernel. by rewrite E, Ok_bind, Ep, Ok_bind.
Qed.

Lemma ex_second : exists K T s proc q, ex_state K T s proc q.
Proof.
  destruct ex_first as (K & T & s & proc & Hin & Hvm & Htop & Hreg & HK & Hst & Es).
  pose proof ex_alloc_returns as Hret. rewrite Es, Ok_bind in Hret.
  assert (forall x, ex_stack <= x < ex_stack + 8 -> others K T (pages (world s)) x) as Hv by (intros x Hx; apply Hst; lia).
  destruct (process_vmspace_alloc_spec ex_sc ex_kc eq_refl ex_fixup ltac:(done) K T s 1 proc 4096 12 ex_stack
    Hin Hvm HK (or_introl eq_refl) ltac:(lia) ltac:(rewrite Htop; done) Hv)
    as [[E _]|(ret & K' & T' & a' & m' & vs' & E & [P1 P2 P3 (box & page & P4 & P4') P5 P6])];
    change (2 ^ 12) with 4096 in E; unfold ex_alloc in Hret; rewrite E in Hret; [done|].
  injection Hret as ->. destruct (P4' eq_refl) as (q & -> & _ & [Hq64 Hfr] & Hmap). rewrite Hreg in P4.
  apply Permutation_singleton_r in P4. assert (next_start (vmspace (rest proc)) 12 = 0) as Hn
    by (unfold next_start; by rewrite Htop).
  exists K', T', (put_data s 1 proc (with_vmspace vs' (rest proc)) (with_pages a' m' (world s))),
    (MkProcess (state proc) (task_state proc) (page_fault_fixup proc) (with_vmspace vs' (rest proc))), q.
  destruct P2 as [P2 P2']. rewrite Hn in *. unfold maps in Hmap.
  assert (forall x, q <= x < q + 4096 -> KERNEL_VMA <= x) as Hq.
  { intros x Hx. apply (ke_kernel _ _ _ _ _ _ _ HK), (Hfr x Hx). }
  split; cbn [rest vmspace with_vmspace world put_data with_pages pages memory].
  - destruct Hin as [I1 I2 I3]. split; [done|apply lookup_insert_eq|done].
  - done.
  - unfold top. rewrite last_region_ok by apply P2. change (regions (vm_regions vs')) with (vm_regions vs') in P4 |- *.
    rewrite P4. cbn. lia.
  - by rewrite P2'.
  - intros x Hx. split; [by apply Hfr|auto].
  - intros x Hx. split; [apply P6; auto|]. intros Hx'. by apply (Hfr x Hx'), Hst.
  - intros va Hva. unfold resolve. destruct (Z.leb_spec KERNEL_VMA va) as [Hk|_]; [unfold KERNEL_VMA in Hk; lia|].
    replace (canonical va) with true by (unfold canonical; destruct (Z.ltb_spec va (2 ^ 47)); [done|lia]). cbn [negb].
    rewrite P2', Hmap. change (va48 va) with (va mod 2 ^ 48). rewrite Z.mod_small by lia.
    rewrite decide_True by lia. f_equal. unfold paddr_to_ptr.
    replace (q - KERNEL_VMA + (va - 0) + KERNEL_VMA) with (q + va) by lia. apply u64_small.
    pose proof (Hq (q + va) ltac:(lia)). unfold KERNEL_VMA in *. lia.
Qed.

(** The process has written its request at address 64. *)
Definition ex_write (q : Z) (s : ex_kernel_state) : ex_kernel_state :=
  put_memory (store64 (store64 (memory (world s)) (q + 64) 4096) (q + 72) 0) s.

Lemma ex_write_request K T s proc q :
  ex_state K T s proc q -> ex_state K T (ex_write q s) proc q /\
  request ex_stack K T (ex_write q s) proc 64 (q + 64) 4096 12.
Proof.
  intros [E1 E2 E3 E4 E5 E6 E7]. set (m' := memory (world (ex_write q s))).
  assert (forall x, ~ q + 64 <= x < q + 80 -> load8 m' x = load8 (memory (world s)) x) as Hm.
  { intros x Hx. unfold m', ex_write. cbn [put_memory world memory set_memory].
    rewrite !(load8_store_out 8) by (simpl; lia). done. }
  destruct (store_others_kernel ex_sc ex_kc eq_refl K T (mmu_map (vmspace (rest proc))) (pages (world s)) (memory (world s)) m' E4) as [HK Htr].
  { intros x Hx. apply Hm. intros Hx'. apply Hx, E5. lia. }
  assert (forall va, resolve m' (mmu_map (vmspace (rest proc))) va = resolve (memory (world s)) (mmu_map (vmspace (rest proc))) va) as Hres
    by (intros va; unfold resolve; by rewrite Htr).
  split; [split; try done; [by apply in_kernel_memory|intros va Hva; rewrite <- E7 by done; apply Hres]|].
  assert (ex_stack <= ex_stack < ex_stack + 4096) as Hst by lia. pose proof (E6 _ Hst) as [_ Hq1].
  assert (ex_stack <= ex_stack + 31 < ex_stack + 4096) as Hst' by lia. pose proof (E6 _ Hst') as [_ Hq2].
  split.
  - split; [unfold KERNEL_VMA; lia|lia|]. intros i Hi. etransitivity; [apply Hres|]. rewrite E7 by lia. f_equal. lia.
  - rewrite E3. lia.
  - unfold in_buffer. intros x [Hx|Hx]; [apply E5; lia|apply E6; lia].
  - lia.
  - cbn. unfold vmr_size. rewrite load64_store64_ne by lia. apply load64_store64_eq.
  - right. split; [|done]. cbn. unfold vmr_align. rewrite <- Z.add_assoc. apply load64_store64_eq.
Qed.

Lemma sys_vmspace_alloc_maps_witness :
  exists (s : ex_kernel_state) p,
    (sys_vmspace_alloc ex_sc ex_kc ex_fixup ex_stack 64 24 s = Fault Panic /\
     exists a' m', kmem_alloc ex_sc ex_kc sizeof_VMRegion (pages (world s)) (local_copy ex_stack (memory (world s)) p) = Ok (0, a', m')) \/
    exists ret s', sys_vmspace_alloc ex_sc ex_kc ex_fixup ex_stack 64 24 s = Ok (ret, s').
Proof.
  destruct ex_second as (K & T & s & proc & q & Hs). destruct (ex_write_request K T s proc q Hs) as [[E1 E2 E3 E4 E5 E6 E7] Hrq].
  exists (ex_write q s), (q + 64).
  destruct (sys_vmspace_alloc_maps ex_sc ex_kc eq_refl ex_fixup ltac:(discriminate) ex_stack ltac:(discriminate) ltac:(reflexivity)
    K T (ex_write q s) 1 proc 64 (q + 64) 4096 12 E1 E2 E4 Hrq) as [E|(ret & K' & T' & a' & m' & vs' & E & _)].
  - by left.
  - lia.
  - rewrite E3. done.
  - left. exact E.
  - right. eexists _, _. exact E.
Defined.

Lemma console_print_prints_witness :
  exists (s s' : ex_kernel_state), sys_console_print ex_fixup ex_stack 0 100 s = Ok (100, s').
Proof.
  destruct ex_second as (K & T & s & proc & q & [E1 E2 E3 E4 E5 E6 E7]).
  exists s. destruct (console_print_prints ex_fixup ltac:(discriminate) ex_stack ltac:(discriminate) ltac:(reflexivity)
    T (pages (world s)) s 1 proc E1 (ke_pt _ _ _ _ _ _ _ E4)) with (ubuf := 0) (count := 100) (ps := seqZ q 100) as (m' & _ & E).
  - intros x Hx. apply E6. unfold in_buffer in Hx. lia.
  - split.
    + unfold KERNEL_VMA. lia.
    + intros i p Hi. apply lookup_seqZ in Hi as [-> Hi]. rewrite u64_small by lia. apply E7. lia.
    + apply Forall_forall. intros x Hx Hx'. apply elem_of_seqZ in Hx. unfold in_buffer in Hx'. apply (E6 x); lia.
    + rewrite length_seqZ. lia.
  - lia.
  - eexists. exact E.
Defined.

(** ** What is not checked *)

#[local] Transparent ex_init.

Definition stored_start (s : ex_kernel_state) : Z := load64 (memory (world s)) ex_stack.

(** Where the address [va] of the process leads. *)
Definition leads_to (s : ex_kernel_state) (va : Z) : option Z :=
  match procs s !! 1 with
  | Some proc => translate (memory (world s)) (mmu_map (vmspace (rest proc))) va
  | None => None
  end.

Definition alloc_twice (size1 size2 : Z) : outcome (Z * Z * Z * option Z) :=
  s ← ex_kernel;
  '(r1, s) ← ex_alloc size1 s;
  '(r2, s) ← ex_alloc size2 s;
  Ok (r1, r2, stored_start s, leads_to s (stored_start s)).

Definition space_ops {B : Type} (f : VMAddressSpace region_list -> arenas list_tree -> mem -> outcome B) : outcome B :=
  s ← ex_kernel;
  match procs s !! 1 with
  | Some proc => f (vmspace (rest proc)) (pages (world s)) (memory (world s))
  | None => Fault NullDeref
  end.

Definition fixed_overlap : outcome (Result unit * Result unit) :=
  space_ops (fun vs a m =>
    '(r1, vs, a, m) ← allocate_fixed ex_sc ex_kc 0x1000 0x3000 VM_PROT_RW vs a m;
    '(r2, vs, a, m) ← allocate_fixed ex_sc ex_kc 0x2000 0x4000 VM_PROT_RW vs a m;
    Ok (r1, r2)).

(** The translation of the address after [deallocate], and the next page that the
    page allocator hands out. *)
Definition use_after_free : outcome (Result unit * option Z * Z) :=
  space_ops (fun vs a m =>
    '(_, vs, a, m) ← allocate_fixed ex_sc ex_kc 0x1000 0x2000 VM_PROT_RW vs a m;
    '(_, vs, a, m) ← populate 0x1000 0x2000 vs a m;
    '(r, vs, a, m) ← deallocate ex_kc 0x1000 0x2000 vs a m;
    '(p, a, m) ← page_alloc_small a m;
    Ok (r, translate m (mmu_map vs) 0x1000, virt_to_phys p)).

(** All free pages but [n] are taken. *)
Fixpoint drain (fuel : nat) (n : Z) (a : arenas list_tree) (m : mem) : outcome (arenas list_tree * mem) :=
  match fuel with
  | O => Ok (a, m)
  | S fuel =>
      match segments (small_arena a) with
      | [s] => if seg_size s <=? n * PAGE_SIZE_SMALL then Ok (a, m)
               else '(_, a, m) ← page_alloc_small a m; drain fuel n a m
      | _ => '(_, a, m) ← page_alloc_small a m; drain fuel n a m
      end
  end.

Definition out_of_tables : outcome Z :=
  s ← ex_kernel;
  '(a, m) ← drain 64 2 (pages (world s)) (memory (world s));
  '(r, _) ← ex_alloc 4096 (MkSched (CURRENT s) (RUNQUEUE s) (WAITQUEUE s) (procs s) (with_pages a m (world s)));
  Ok r.


Definition ex_syscall (nr arg0 arg1 arg2 arg3 : Z) (s : ex_kernel_state) : outcome (Z * ex_kernel_state * list action) :=
  syscall ex_sc ex_kc ex_fixup 100 ex_stack 0 nr arg0 arg1 arg2 arg3 s.

(** The result of one system call, and the word at [x] afterwards. *)
Definition one_call (nr arg0 arg1 arg2 arg3 x : Z) : outcome (Z * Z) :=
  s ← ex_kernel;
  '(r, s, _) ← ex_syscall nr arg0 arg1 arg2 arg3 s;
  Ok (r, load64 (memory (world s)) x).

