(* ===== verification/Exceptions.v ===== *)
(** * arch/x86_64/exceptions.c, arch/x86_64/entry.S and kernel/panic.c

    The interrupt descriptor table, the entry stubs that save the registers, the
    handlers, and the message of a panic.  What the processor does is modelled
    next to the code: it finds the gate of a vector in the table, pushes the
    interrupted state and continues at the stub; [iretq] takes the state back.

    A handler either returns to the stub or panics; what it prints before is the
    list of its calls of [printf]. *)

From Stdlib Require Import Ascii Strings.String.
From S2P Require Import Prelude Mem Printf PrintfProof FormatType LibcString.
#[local] Open Scope Z_scope.

(** ** The descriptor table *)

Definition X86_KERNEL_CS : Z := 0x08.
Definition NR_INTERRUPT_VECTORS : Z := 256.
Definition NR_EXCEPTIONS : Z := 32.
Definition NR_INTERRUPTS : Z := NR_INTERRUPT_VECTORS - NR_EXCEPTIONS.
Definition X86_INTERRUPT_GATE : Z := 14.
Definition X86_TRAP_GATE : Z := 15.

(** The fields of [struct idt_entry]; the five bit fields share two bytes. *)
Definition id_offset_1 (id : Z) : Z := id.
Definition id_selector (id : Z) : Z := id + 2.
Definition id_bits (id : Z) : Z := id + 4.
Definition id_offset_2 (id : Z) : Z := id + 6.
Definition id_offset_3 (id : Z) : Z := id + 8.
Definition id_reserved (id : Z) : Z := id + 12.
Definition sizeof_idt_entry : Z := 16.

Definition idt_bits (ist zero type dpl p : Z) : Z :=
  ist mod 2 ^ 3 + zero mod 2 ^ 5 * 2 ^ 3 + type mod 2 ^ 5 * 2 ^ 8 + dpl mod 2 ^ 2 * 2 ^ 13 + p mod 2 * 2 ^ 15.

Definition init_idt_entry (m : mem) (id type ist offset : Z) : mem :=
  let m := store16 m (id_offset_1 id) (Z.land offset 0xffff) in
  let m := store16 m (id_offset_2 id) (Z.land (Z.shiftr offset 16) 0xffff) in
  let m := store32 m (id_offset_3 id) (Z.shiftr offset 32) in
  let m := store16 m (id_selector id) X86_KERNEL_CS in
  let m := store16 m (id_bits id) (idt_bits ist 0 type 0 1) in
  store32 m (id_reserved id) 0.

(** The entry points of entry.S that exceptions.c declares. *)
Inductive exception :=
  | x86_divide_error_exception
  | x86_debug_exception
  | x86_nmi_interrupt
  | x86_breakpoint_exception
  | x86_overflow_exception
  | x86_bound_range_exceeded_exception
  | x86_invalid_opcode_exception
  | x86_device_not_available_exception
  | x86_double_fault_exception
  | x86_invalid_tss_exception
  | x86_segment_not_present
  | x86_stack_fault_exception
  | x86_general_protection_exception
  | x86_page_fault_exception
  | x86_x87_fpu_floating_point_error
  | x86_alignment_check_exception
  | x86_machine_check_exception
  | x86_simd_floating_point_exception
  | x86_virtualization_exception.

#[global] Instance exception_eq_dec : EqDecision exception.
Proof. solve_decision. Defined.

(** The calls of [init_idt_entry] in [init_idt]: vector, type of the gate, index
    of the stack, and entry point. *)
Definition exception_gates : list (Z * (Z * Z * exception)) :=
  [(0, (X86_TRAP_GATE, 0, x86_divide_error_exception));
   (1, (X86_TRAP_GATE, 1, x86_debug_exception));
   (2, (X86_INTERRUPT_GATE, 1, x86_nmi_interrupt));
   (3, (X86_TRAP_GATE, 0, x86_breakpoint_exception));
   (4, (X86_TRAP_GATE, 0, x86_overflow_exception));
   (5, (X86_TRAP_GATE, 0, x86_bound_range_exceeded_exception));
   (6, (X86_TRAP_GATE, 0, x86_invalid_opcode_exception));
   (7, (X86_TRAP_GATE, 0, x86_device_not_available_exception));
   (8, (X86_TRAP_GATE, 1, x86_double_fault_exception));
   (10, (X86_TRAP_GATE, 0, x86_invalid_tss_exception));
   (11, (X86_TRAP_GATE, 0, x86_segment_not_present));
   (12, (X86_TRAP_GATE, 0, x86_stack_fault_exception));
   (13, (X86_TRAP_GATE, 0, x86_general_protection_exception));
   (14, (X86_TRAP_GATE, 0, x86_page_fault_exception));
   (16, (X86_TRAP_GATE, 0, x86_x87_fpu_floating_point_error));
   (17, (X86_TRAP_GATE, 0, x86_alignment_check_exception));
   (18, (X86_TRAP_GATE, 1, x86_machine_check_exception));
   (19, (X86_TRAP_GATE, 0, x86_simd_floating_point_exception));
   (20, (X86_TRAP_GATE, 0, x86_virtualization_exception))].

(** The register that [lidt] loads. *)
Record idt_ptr := MkIdtPtr { idtr_limit : Z; idtr_base : Z }.

Section Idt.
(** The table, the address of each entry point, and the array of the entry points
    of interrupts. *)
Context (idt : Z) (entry : exception -> Z) (interrupt_entries : Z).

Fixpoint init_exceptions (l : list (Z * (Z * Z * exception))) (m : mem) : mem :=
  match l with
  | [] => m
  | (vector, (type, ist, e)) :: l =>
      init_exceptions l (init_idt_entry m (idt + vector * sizeof_idt_entry) type ist (entry e))
  end.

(** [n] interrupts are left, the next one is [idx]. *)
Fixpoint init_interrupts (n : nat) (idx : Z) (m : mem) : mem :=
  match n with
  | O => m
  | S n =>
      let vector := NR_EXCEPTIONS + idx in
      let handler := u64 (interrupt_entries + idx * 16) in
      init_interrupts n (idx + 1)
        (init_idt_entry m (idt + vector * sizeof_idt_entry) X86_INTERRUPT_GATE 1 handler)
  end.

Definition init_idt (m : mem) : mem * idt_ptr :=
  let m := memset m idt 0 (Z.to_nat (sizeof_idt_entry * 256)) in
  let m := init_exceptions exception_gates m in
  let m := init_interrupts (Z.to_nat NR_INTERRUPTS) 0 m in
  (m, MkIdtPtr (sizeof_idt_entry * NR_INTERRUPT_VECTORS - 1) idt).
End Idt.

(** What the processor reads from the table. *)
Record gate := MkGate { g_offset : Z; g_selector : Z; g_ist : Z; g_type : Z; g_dpl : Z; g_present : bool }.

Definition read_gate (m : mem) (id : Z) : gate :=
  let bits := load16 m (id_bits id) in
  MkGate (load16 m (id_offset_1 id) + load16 m (id_offset_2 id) * 2 ^ 16 + load32 m (id_offset_3 id) * 2 ^ 32)
    (load16 m (id_selector id)) (bits mod 2 ^ 3) (bits / 2 ^ 8 mod 2 ^ 5) (bits / 2 ^ 13 mod 2 ^ 2)
    (Z.testbit bits 15).

Definition find_gate (m : mem) (idtr : idt_ptr) (vector : Z) : option gate :=
  if vector * sizeof_idt_entry + 15 <=? idtr_limit idtr
  then Some (read_gate m (idtr_base idtr + vector * sizeof_idt_entry))
  else None.

(** ** The handlers *)

(** [struct exception_frame] *)
Definition ef_regs (ef i : Z) : Z := ef + 8 * i.
Definition ef_error_code (ef : Z) : Z := ef + 120.
Definition ef_rip (ef : Z) : Z := ef + 128.
Definition ef_cs (ef : Z) : Z := ef + 136.
Definition ef_rflags (ef : Z) : Z := ef + 144.
Definition ef_rsp (ef : Z) : Z := ef + 152.
Definition ef_ss (ef : Z) : Z := ef + 160.

Definition REG_RAX : Z := 0.
Definition REG_RBX : Z := 1.
Definition REG_RCX : Z := 2.
Definition REG_RDX : Z := 3.
Definition REG_RBP : Z := 4.
Definition REG_RSI : Z := 5.
Definition REG_RDI : Z := 6.
Definition REG_R8 : Z := 7.
Definition REG_R9 : Z := 8.
Definition REG_R10 : Z := 9.
Definition REG_R11 : Z := 10.
Definition REG_R12 : Z := 11.
Definition REG_R13 : Z := 12.
Definition REG_R14 : Z := 13.
Definition REG_R15 : Z := 14.

Definition dump_exception_frame (m : mem) (ef : Z) : list printf_call :=
  let reg i := VInt (load64 m (ef_regs ef i)) in
  [(line_format "Registers:", []);
   (line_format "  RIP=%016lx CS=%016lx RFLAGS=%016lx RSP=%016lx SS=%016lx",
    [VInt (load64 m (ef_rip ef)); VInt (load64 m (ef_cs ef)); VInt (load64 m (ef_rflags ef));
     VInt (load64 m (ef_rsp ef)); VInt (load64 m (ef_ss ef))]);
   (line_format "  RAX=%016lx RBX=%016lx RCX=%016lx RDX=%016lx RBP=%016lx",
    [reg REG_RAX; reg REG_RBX; reg REG_RCX; reg REG_RDX; reg REG_RBP]);
   (line_format "  RSI=%016lx RDI=%016lx R8=%016lx  R9=%016lx  R10=%016lx",
    [reg REG_RSI; reg REG_RDI; reg REG_R8; reg REG_R9; reg REG_R10]);
   (line_format "  R11=%016lx R12=%016lx R13=%016lx R14=%016lx R15=%016lx",
    [reg REG_R11; reg REG_R12; reg REG_R13; reg REG_R14; reg REG_R15])].

(** The handler returns with this memory, or prints and calls [panic]. *)
Inductive handled :=
  | Returned (m : mem)
  | Panicked (calls : list printf_call) (fmt : list Z).

Definition report (title : printf_call) (m : mem) (ef : Z) : handled :=
  Panicked (title :: dump_exception_frame m ef) (cstr "Halted").

(** The first line of each handler. *)
Definition title (e : exception) (cr2 : Z) : printf_call :=
  match e with
  | x86_divide_error_exception => (line_format "Divide error exception", [])
  | x86_debug_exception => (line_format "Debug exception", [])
  | x86_nmi_interrupt => (line_format "NMI interrupt", [])
  | x86_breakpoint_exception => (line_format "Breakpoint exception", [])
  | x86_overflow_exception => (line_format "Overflow exception", [])
  | x86_bound_range_exceeded_exception => (line_format "BOUND range exceeded exception", [])
  | x86_invalid_opcode_exception => (line_format "Invalid opcode exception", [])
  | x86_device_not_available_exception => (line_format "Device not available exception", [])
  | x86_double_fault_exception => (line_format "Double fault exception", [])
  | x86_invalid_tss_exception => (line_format "Invalid TSS exception", [])
  | x86_segment_not_present => (line_format "Segment not present", [])
  | x86_stack_fault_exception => (line_format "Stack fault exception", [])
  | x86_general_protection_exception => (line_format "General protection exception", [])
  | x86_page_fault_exception => (line_format "Page fault at address %016lx", [VInt cr2])
  | x86_x87_fpu_floating_point_error => (line_format "x87 FPU floating-point error", [])
  | x86_alignment_check_exception => (line_format "Alignment check exception", [])
  | x86_machine_check_exception => (line_format "Machine-check exception", [])
  | x86_simd_floating_point_exception => (line_format "SIMD floating-point exception", [])
  | x86_virtualization_exception => (line_format "Virtualization exception", [])
  end.

(** [fixup] is what [page_fault_get_fixup] returns, [cr2] the faulting address. *)
Definition do_x86_page_fault_exception (fixup cr2 : Z) (m : mem) (ef : Z) : handled :=
  if negb (fixup =? 0) then Returned (store64 m (ef_rip ef) fixup)
  else report (title x86_page_fault_exception cr2) m ef.

(** The other handlers of exceptions.c differ in their title only. *)
Definition do_exception (e : exception) (fixup cr2 : Z) (m : mem) (ef : Z) : handled :=
  match e with
  | x86_page_fault_exception => do_x86_page_fault_exception fixup cr2 m ef
  | _ => report (title e cr2) m ef
  end.

(** ** The stubs of entry.S *)

(** The general registers in the order of the frame, RAX first, and the registers
    that the processor saves itself. *)
Record cpu := MkCpu { gprs : list Z; rip : Z; cs : Z; rflags : Z; rsp : Z; ss : Z }.

Definition push (v : Z) (s : mem * Z) : mem * Z := let '(m, sp) := s in (store64 m (sp - 8) v, sp - 8).
Definition pop (s : mem * Z) : Z * (mem * Z) := let '(m, sp) := s in (load64 m sp, (m, sp + 8)).

Definition pushes (l : list Z) (s : mem * Z) : mem * Z := fold_left (fun s v => push v s) l s.

Fixpoint pops (n : nat) (s : mem * Z) : list Z * (mem * Z) :=
  match n with
  | O => ([], s)
  | S n => let '(v, s) := pop s in let '(l, s) := pops n s in (v :: l, s)
  end.

(** The processor pushes the interrupted state on a stack. *)
Definition deliver (c : cpu) (error_code : option Z) (s : mem * Z) : mem * Z :=
  pushes ([ss c; rsp c; rflags c; cs c; rip c] ++ option_list error_code) s.

(** The exceptions for which the processor pushes an error code, as the macros of
    entry.S have them. *)
Definition has_error_code (e : exception) : bool :=
  match e with
  | x86_double_fault_exception | x86_invalid_tss_exception | x86_segment_not_present
  | x86_stack_fault_exception | x86_general_protection_exception | x86_page_fault_exception
  | x86_alignment_check_exception => true
  | _ => false
  end.

(** [EXCEPTION_ENTRY] up to the call: [gprs] are pushed with R15 first. *)
Definition exception_entry (has_error_code : bool) (regs : list Z) (s : mem * Z) : mem * Z :=
  let s := if has_error_code then s else push 0 s in
  pushes (rev regs) s.

(** [EXCEPTION_ENTRY] after the call, with the [iretq]. *)
Definition exception_exit (s : mem * Z) : cpu :=
  let '(regs, (m, sp)) := pops 15 s in
  let sp := sp + 8 in
  MkCpu regs (load64 m sp) (load64 m (sp + 8)) (load64 m (sp + 16)) (load64 m (sp + 24)) (load64 m (sp + 32)).

Inductive resumed :=
  | Continues (m : mem) (c : cpu)
  | Halts (calls : list printf_call) (fmt : list Z).

(** An exception from the interrupted state to its end; [stack] is the stack that
    the processor chose. *)
Definition take_exception (e : exception) (error_code fixup cr2 stack : Z) (c : cpu) (m : mem) : resumed :=
  let s := deliver c (if has_error_code e then Some error_code else None) (m, stack) in
  let '(m, ef) := exception_entry (has_error_code e) (gprs c) s in
  match do_exception e fixup cr2 m ef with
  | Returned m => Continues m (exception_exit (m, ef))
  | Panicked calls fmt => Halts calls fmt
  end.

(** ** kernel/panic.c *)

Section Panic.
Context {C : Type} (console_write_char : Z -> C -> C).

(** [console_write_str] on a string in memory. *)
Fixpoint write_string (fuel : nat) (m : mem) (s : Z) (con : C) : outcome C :=
  if load8 m s =? 0 then Ok con
  else
    match fuel with
    | O => Fault OutOfFuel
    | S fuel => write_string fuel m (s + 1) (console_write_char (load8 m s) con)
    end.

(** Until the loop that halts the processor. *)
Definition do_panic (m : mem) (msg : Z) (con : C) : outcome C :=
  con ← console_write_str console_write_char (cstr "Kernel panic: ") con;
  con ← write_string (S (size m)) m msg con;
  console_write_str console_write_char [10; 0] con.

(** [msg] is the address of the buffer of 64 bytes. *)
Definition panic (msg : Z) (fmt : list Z) (ap : list va_arg) (m : mem) (con : C) : outcome (C * mem) :=
  '(_, m) ← vsnprintf m msg 64 fmt ap;
  con ← do_panic m msg con;
  Ok (con, m).

Definition __assert_fail (msg : Z) (assertion file : list Z) (line : Z) (function : list Z) (m : mem) (con : C)
  : outcome (C * mem) :=
  '(_, m) ← sprintf m msg (cstr "%s:%d: %s: Assertion %s failed")
              [VStr (Some file); VInt line; VStr (Some function); VStr (Some assertion)];
  con ← do_panic m msg con;
  Ok (con, m).
End Panic.
