(* ===== verification/ExceptionsProof.v ===== *)
(** * Exceptions reach their handlers and come back

    The gates of [init_idt] lead every vector to its entry point; the stubs of
    entry.S give the handler the registers of the interrupted code and give them
    back; a handler that does not return prints the registers and stops the
    kernel with a message. *)

From Stdlib Require Import Ascii Strings.String.
From S2P Require Import Prelude Mem Printf PrintfProof FormatType LibcString Exceptions.
#[local] Open Scope Z_scope.

(** ** Gates *)

Definition gate_bytes (idt vector x : Z) : Prop :=
  idt + vector * sizeof_idt_entry <= x < idt + vector * sizeof_idt_entry + sizeof_idt_entry.

Lemma bits_fields ist type :
  0 <= ist < 2 ^ 3 -> 0 <= type < 2 ^ 5 ->
  let bits := u16 (idt_bits ist 0 type 0 1) in
  bits mod 2 ^ 3 = ist /\ bits / 2 ^ 8 mod 2 ^ 5 = type /\ bits / 2 ^ 13 mod 2 ^ 2 = 0 /\ Z.testbit bits 15 = true.
Proof.
  intros Hi Ht. unfold idt_bits, u16. cbv zeta.
  rewrite (Z.mod_small ist), (Z.mod_small type), (Z.mod_small 0), (Z.mod_small 1), (Z.mod_small 0) by lia.
  rewrite (Z.mod_small (_ + _) (2 ^ 16)) by lia.
  split_and!; [Z.to_euclidean_division_equations; lia .. |].
  rewrite Z.testbit_true by lia. Z.to_euclidean_division_equations; lia.
Qed.

Lemma init_idt_entry_gate m id type ist offset :
  0 <= ist < 2 ^ 3 -> 0 <= type < 2 ^ 5 -> 0 <= offset < 2 ^ 64 ->
  read_gate (init_idt_entry m id type ist offset) id = MkGate offset X86_KERNEL_CS ist type 0 true.
Proof.
  intros Hi Ht Ho. unfold read_gate, init_idt_entry, id_bits, id_offset_1, id_offset_2, id_offset_3, id_selector, id_reserved.
  mem_simpl. change (2 ^ (8 * Z.of_nat 2)) with (2 ^ 16). change (2 ^ (8 * Z.of_nat 4)) with (2 ^ 32).
  destruct (bits_fields ist type Hi Ht) as (E1 & E2 & E3 & E4). unfold u16 in *.
  rewrite E1, E2, E3, E4. change 0xffff with (Z.ones 16). rewrite !Z.land_ones, !Z.shiftr_div_pow2 by lia.
  f_equal. Z.to_euclidean_division_equations; lia.
Qed.

Lemma init_idt_entry_changes m id type ist offset :
  changes (fun x => id <= x < id + sizeof_idt_entry) m (init_idt_entry m id type ist offset).
Proof.
  unfold init_idt_entry, id_bits, id_offset_1, id_offset_2, id_offset_3, id_selector, id_reserved, sizeof_idt_entry.
  repeat (eapply changes_trans; [| apply changes_store; simpl; lia]). apply changes_refl.
Qed.

Lemma read_gate_changes P m m' id :
  changes P m m' -> (forall x, id <= x < id + sizeof_idt_entry -> ~ P x) -> read_gate m' id = read_gate m id.
Proof.
  intros Hc HP. unfold read_gate, load16, load32, id_bits, id_offset_1, id_offset_2, id_offset_3, id_selector in *.
  unfold sizeof_idt_entry in HP.
  rewrite !(load_changes _ P m m') by (try exact Hc; intros x Hx; apply HP; simpl in Hx; lia). done.
Qed.

Lemma other_gate idt v v' x : v <> v' -> gate_bytes idt v x -> ~ gate_bytes idt v' x.
Proof. unfold gate_bytes, sizeof_idt_entry. lia. Qed.

Lemma memset_gate m idt v :
  0 <= v < 256 -> g_present (read_gate (memset m idt 0 (Z.to_nat (sizeof_idt_entry * 256))) (idt + v * sizeof_idt_entry)) = false.
Proof.
  intros Hv. cbn [g_present read_gate]. unfold load16, id_bits, sizeof_idt_entry in *.
  rewrite load_memset_0 by (simpl; lia). done.
Qed.

Section Idt.
Context (idt : Z) (entry : exception -> Z) (interrupt_entries : Z).
Context (Hentry : forall e, 0 <= entry e < 2 ^ 64).

Lemma init_exceptions_gates l m :
  NoDup (l.*1) -> Forall (fun g => 0 <= g.2.1.1 < 2 ^ 5 /\ 0 <= g.2.1.2 < 2 ^ 3) l ->
  (forall v type ist e, (v, (type, ist, e)) ∈ l ->
     read_gate (init_exceptions idt entry l m) (idt + v * sizeof_idt_entry)
     = MkGate (entry e) X86_KERNEL_CS ist type 0 true) /\
  changes (fun x => exists v, v ∈ l.*1 /\ gate_bytes idt v x) m (init_exceptions idt entry l m).
Proof.
  revert m; induction l as [|[v [[type ist] e]] l IH]; intros m Hn Hl.
  { split; [intros ? ? ? ? Hin; by apply elem_of_nil in Hin | apply changes_refl]. }
  cbn [fmap list_fmap init_exceptions fst] in *. apply NoDup_cons in Hn as [Hv Hn].
  apply Forall_cons in Hl as [[Ht Hi] Hl]. cbn [fst snd] in Ht, Hi.
  set (m1 := init_idt_entry m (idt + v * sizeof_idt_entry) type ist (entry e)).
  destruct (IH m1 Hn Hl) as [IHg IHc]. split.
  - intros v' type' ist' e' [[= -> -> -> ->] | Hin]%elem_of_cons; [| by apply IHg].
    rewrite (read_gate_changes _ _ _ _ IHc).
    + by apply init_idt_entry_gate.
    + intros x Hx (v' & Hv' & Hx'). eapply (other_gate idt v v'); [by intros -> | exact Hx | done].
  - eapply changes_trans.
    + eapply changes_mono; [| apply init_idt_entry_changes]. intros x Hx. exists v. split; [by left | exact Hx].
    + eapply changes_mono; [| exact IHc]. intros x (v' & Hv' & Hx). exists v'. split; [by right | done].
Qed.

Lemma init_interrupts_gates n idx m :
  (forall v, NR_EXCEPTIONS + idx <= v < NR_EXCEPTIONS + idx + Z.of_nat n ->
     read_gate (init_interrupts idt interrupt_entries n idx m) (idt + v * sizeof_idt_entry)
     = MkGate (u64 (interrupt_entries + (v - NR_EXCEPTIONS) * 16)) X86_KERNEL_CS 1 X86_INTERRUPT_GATE 0 true) /\
  changes (fun x => exists v, NR_EXCEPTIONS + idx <= v < NR_EXCEPTIONS + idx + Z.of_nat n /\ gate_bytes idt v x) m
    (init_interrupts idt interrupt_entries n idx m).
Proof.
  revert idx m; induction n as [|n IH]; intros idx m; [split; [lia | apply changes_refl] |].
  cbn [init_interrupts]. set (m1 := init_idt_entry m _ _ _ _). destruct (IH (idx + 1) m1) as [IHg IHc]. split.
  - intros v Hv. destruct (decide (v = NR_EXCEPTIONS + idx)) as [-> |]; [| apply IHg; lia].
    rewrite (read_gate_changes _ _ _ _ IHc).
    + replace (NR_EXCEPTIONS + idx - NR_EXCEPTIONS) with idx by lia.
      apply init_idt_entry_gate; [lia | by vm_compute | auto with word].
    + intros x Hx (v' & Hv' & Hx'). eapply (other_gate idt (NR_EXCEPTIONS + idx) v'); [lia | exact Hx | done].
  - eapply changes_trans.
    + eapply changes_mono; [| apply init_idt_entry_changes]. intros x Hx. exists (NR_EXCEPTIONS + idx).
      split; [lia | exact Hx].
    + eapply changes_mono; [| exact IHc]. intros x (v' & Hv' & Hx). exists v'. split; [lia | done].
Qed.

(** C11: after [init_idt] the processor finds at each vector what the source
    declares: the entry points of the nineteen exceptions with their stacks and
    types of gates, the stub number [v - 32] for each vector from 32 on, and no
    present gate for the other exceptions.  The table ends after 256 vectors, no
    gate can be called from user mode, and memory outside of the table is as
    before. *)
Theorem init_idt_dispatches m :
  let '(m', idtr) := init_idt idt entry interrupt_entries m in
  (forall v type ist e, (v, (type, ist, e)) ∈ exception_gates ->
     find_gate m' idtr v = Some (MkGate (entry e) X86_KERNEL_CS ist type 0 true)) /\
  (forall v, NR_EXCEPTIONS <= v < NR_INTERRUPT_VECTORS ->
     find_gate m' idtr v = Some (MkGate (u64 (interrupt_entries + (v - NR_EXCEPTIONS) * 16)) X86_KERNEL_CS
                                   1 X86_INTERRUPT_GATE 0 true)) /\
  (forall v, 0 <= v < NR_EXCEPTIONS -> v ∉ exception_gates.*1 ->
     exists g, find_gate m' idtr v = Some g /\ g_present g = false) /\
  (forall v, NR_INTERRUPT_VECTORS <= v -> find_gate m' idtr v = None) /\
  changes (fun x => idt <= x < idt + 4096) m m'.
Proof.
  unfold init_idt. set (m0 := memset m idt 0 _).
  destruct (init_exceptions_gates exception_gates m0) as [Hg Hc];
    [apply (bool_decide_unpack _); by vm_compute | apply (bool_decide_unpack _); by vm_compute |].
  set (m1 := init_exceptions idt entry exception_gates m0) in *.
  destruct (init_interrupts_gates (Z.to_nat NR_INTERRUPTS) 0 m1) as [Hg' Hc'].
  set (m2 := init_interrupts _ _ _ _ m1) in *. rewrite Z2Nat.id in Hg', Hc' by done.
  assert (forall v, v ∈ exception_gates.*1 -> 0 <= v < NR_EXCEPTIONS) as Hr.
  { intros v Hv. assert (Forall (fun v => 0 <= v < NR_EXCEPTIONS) (exception_gates.*1)) as Hall
      by (apply (bool_decide_unpack _); by vm_compute). by eapply Forall_forall in Hall. }
  assert (forall v, 0 <= v < NR_EXCEPTIONS ->
    read_gate m2 (idt + v * sizeof_idt_entry) = read_gate m1 (idt + v * sizeof_idt_entry)) as Hlow.
  { intros v Hv. apply (read_gate_changes _ _ _ _ Hc'). intros x Hx (v' & Hv' & Hx').
    eapply (other_gate idt v v'); [lia | exact Hx | done]. }
  assert (forall v, v < NR_INTERRUPT_VECTORS ->
    find_gate m2 (MkIdtPtr (sizeof_idt_entry * NR_INTERRUPT_VECTORS - 1) idt) v
    = Some (read_gate m2 (idt + v * sizeof_idt_entry))) as Hf.
  { intros v Hv. unfold find_gate. cbn [idtr_limit idtr_base]. rewrite (proj2 (Z.leb_le _ _)); [done |].
    unfold NR_INTERRUPT_VECTORS, sizeof_idt_entry in *. lia. }
  assert (NR_EXCEPTIONS < NR_INTERRUPT_VECTORS) as Hlt by done.
  split_and!.
  - intros v type ist e Hin. assert (v ∈ exception_gates.*1) as Hv%Hr by (apply list_elem_of_fmap; by exists (v, (type, ist, e))).
    rewrite Hf, Hlow by lia. by rewrite (Hg v type ist e).
  - intros v Hv. rewrite Hf by lia. by rewrite Hg' by (unfold NR_INTERRUPTS, NR_EXCEPTIONS, NR_INTERRUPT_VECTORS in *; lia).
  - intros v Hv Hnot. eexists. split; [apply Hf; lia |]. rewrite Hlow by done.
    rewrite (read_gate_changes _ _ _ _ Hc).
    + apply (memset_gate m idt v). unfold NR_EXCEPTIONS in Hv. lia.
    + intros x Hx (v' & Hv' & Hx'). eapply (other_gate idt v v'); [by intros -> | exact Hx | done].
  - intros v Hv. unfold find_gate. cbn [idtr_limit idtr_base]. rewrite (proj2 (Z.leb_gt _ _)); [done |].
    unfold NR_INTERRUPT_VECTORS, sizeof_idt_entry in *. lia.
  - assert (forall v x, 0 <= v < NR_INTERRUPT_VECTORS -> gate_bytes idt v x -> idt <= x < idt + 4096) as Hin.
    { unfold gate_bytes, NR_INTERRUPT_VECTORS, sizeof_idt_entry. lia. }
    eapply changes_trans; [| eapply changes_mono; [| exact Hc']].
    + eapply changes_trans; [| eapply changes_mono; [| exact Hc]].
      * intros x Hx. apply memset_same_outside. change (Z.of_nat (Z.to_nat (sizeof_idt_entry * 256))) with 4096. lia.
      * intros x (v & Hv & Hx). apply (Hin v); [apply Hr in Hv; lia | done].
    + intros x (v & Hv & Hx). apply (Hin v); [unfold NR_INTERRUPTS, NR_EXCEPTIONS, NR_INTERRUPT_VECTORS in *; lia | done].
Qed.
End Idt.

Definition ex_entry (e : exception) : Z := 0xffffffff80100000 + (if has_error_code e then 64 else 0).

Lemma init_idt_dispatches_witness :
  let '(m', idtr) := init_idt 0xffffffff80300000 ex_entry 0xffffffff80101000 ∅ in
  find_gate m' idtr 14 = Some (MkGate 0xffffffff80100040 X86_KERNEL_CS 0 X86_TRAP_GATE 0 true) /\
  find_gate m' idtr 33 = Some (MkGate 0xffffffff80101010 X86_KERNEL_CS 1 X86_INTERRUPT_GATE 0 true).
Proof.
  assert (forall e, 0 <= ex_entry e < 2 ^ 64) as He by (intros e; unfold ex_entry; destruct (has_error_code e); lia).
  pose proof (init_idt_dispatches 0xffffffff80300000 ex_entry 0xffffffff80101000 He ∅) as H.
  destruct (init_idt _ _ _ ∅) as [m' idtr]. destruct H as (H1 & H2 & _). split.
  - rewrite (H1 14 X86_TRAP_GATE 0 x86_page_fault_exception); [done |].
    apply (bool_decide_unpack _). by vm_compute.
  - rewrite (H2 33); [done |]. split; by vm_compute.
Defined.

(** ** Stacks *)

Lemma pushes_spec l m sp :
  let '(m', sp') := pushes l (m, sp) in
  sp' = sp - 8 * Z.of_nat (length l) /\
  (forall i v, l !! i = Some v -> load64 m' (sp - 8 * (Z.of_nat i + 1)) = u64 v) /\
  changes (fun x => sp' <= x < sp) m m'.
Proof.
  revert m sp; induction l as [|v l IH]; intros m sp.
  { cbn. split_and!; [lia | done | apply changes_refl]. }
  unfold pushes. cbn [fold_left push]. fold (pushes l (store64 m (sp - 8) v, sp - 8)).
  specialize (IH (store64 m (sp - 8) v) (sp - 8)). destruct (pushes l _) as [m' sp'].
  destruct IH as (-> & Hl & Hc). cbn [length]. split_and!; [lia | |].
  - intros [|i] w Hi; cbn [lookup list_lookup] in Hi.
    + injection Hi as [= <-]. unfold load64. rewrite (load_changes 8 _ _ _ _ Hc) by (simpl; lia).
      replace (sp - 8 * (Z.of_nat 0 + 1)) with (sp - 8) by lia. apply load64_store64_eq.
    + rewrite <- (Hl i w Hi). f_equal. lia.
  - apply (changes_trans _ _ (store64 m (sp - 8) v)); [apply changes_store; change (Z.of_nat 8) with 8; cbv beta; lia |]. eapply changes_mono; [| exact Hc]. intros x Hx. cbv beta in *. lia.
Qed.

Lemma pops_spec n m sp : pops n (m, sp) = (map (fun i => load64 m (sp + 8 * Z.of_nat i)) (seq 0 n), (m, sp + 8 * Z.of_nat n)).
Proof.
  revert sp; induction n as [|n IH]; intros sp; cbn [pops pop]; [do 2 f_equal; lia |].
  rewrite IH. cbn [seq map]. rewrite <- seq_shift, map_map. f_equal; [f_equal; [f_equal; lia |] | f_equal; lia].
  apply map_ext. intros i. f_equal. lia.
Qed.

(** What the stub leaves on the stack, from its top. *)
Definition frame_words (e : exception) (error_code : Z) (c : cpu) : list Z :=
  [ss c; rsp c; rflags c; cs c; rip c; if has_error_code e then error_code else 0] ++ rev (gprs c).

Lemma entry_frame e error_code c s :
  exception_entry (has_error_code e) (gprs c) (deliver c (if has_error_code e then Some error_code else None) s)
  = pushes (frame_words e error_code c) s.
Proof.
  unfold exception_entry, deliver, frame_words, pushes. rewrite (fold_left_app _ (_ :: _)).
  destruct (has_error_code e); by destruct s.
Qed.

Definition cpu_ok (c : cpu) : Prop :=
  length (gprs c) = 15%nat /\ Forall is_u64 (gprs c) /\
  is_u64 (rip c) /\ is_u64 (cs c) /\ is_u64 (rflags c) /\ is_u64 (rsp c) /\ is_u64 (ss c).

(** The frame at [ef] holds the registers of [c]. *)
Definition frame_of (m : mem) (ef : Z) (c : cpu) : Prop :=
  (forall i v, gprs c !! i = Some v -> load64 m (ef_regs ef (Z.of_nat i)) = v) /\
  load64 m (ef_rip ef) = rip c /\ load64 m (ef_cs ef) = cs c /\ load64 m (ef_rflags ef) = rflags c /\
  load64 m (ef_rsp ef) = rsp c /\ load64 m (ef_ss ef) = ss c.

Lemma entry_spec e error_code c m stack :
  cpu_ok c ->
  let '(m', ef) := exception_entry (has_error_code e) (gprs c)
                     (deliver c (if has_error_code e then Some error_code else None) (m, stack)) in
  ef = stack - 168 /\ frame_of m' ef c /\ changes (fun x => stack - 168 <= x < stack) m m'.
Proof.
  intros (Hlen & Hg & Hr1 & Hr2 & Hr3 & Hr4 & Hr5). rewrite entry_frame.
  pose proof (pushes_spec (frame_words e error_code c) m stack) as H.
  destruct (pushes _ _) as [m' ef]. destruct H as (-> & Hl & Hc).
  assert (length (frame_words e error_code c) = 21%nat) as Hfl.
  { unfold frame_words. rewrite length_app, length_rev, Hlen. done. }
  rewrite Hfl in *. change (8 * Z.of_nat 21) with 168 in *.
  split_and!; [done | | done]. unfold frame_of, ef_regs, ef_rip, ef_cs, ef_rflags, ef_rsp, ef_ss.
  split_and!.
  - intros i v Hi. pose proof (lookup_lt_Some _ _ _ Hi) as Hi'.
    rewrite <- (u64_small v) by (by eapply Forall_lookup_1 in Hg). rewrite <- (Hl (20 - i)%nat v).
    + f_equal. lia.
    + unfold frame_words. rewrite lookup_app_r by (simpl; lia). cbn [length].
      rewrite rev_alt. change (rev_append (gprs c) []) with (reverse (gprs c)).
      rewrite reverse_lookup by lia. rewrite <- Hi. f_equal. lia.
  - rewrite <- (u64_small (rip c)) by done. rewrite <- (Hl 4%nat (rip c) eq_refl). f_equal. lia.
  - rewrite <- (u64_small (cs c)) by done. rewrite <- (Hl 3%nat (cs c) eq_refl). f_equal. lia.
  - rewrite <- (u64_small (rflags c)) by done. rewrite <- (Hl 2%nat (rflags c) eq_refl). f_equal. lia.
  - rewrite <- (u64_small (rsp c)) by done. rewrite <- (Hl 1%nat (rsp c) eq_refl). f_equal. lia.
  - rewrite <- (u64_small (ss c)) by done. rewrite <- (Hl 0%nat (ss c) eq_refl). f_equal. lia.
Qed.

Lemma exit_spec m ef c : length (gprs c) = 15%nat -> frame_of m ef c -> exception_exit (m, ef) = c.
Proof.
  intros Hlen (Hg & E1 & E2 & E3 & E4 & E5). unfold exception_exit. rewrite pops_spec.
  change (8 * Z.of_nat 15) with 120. unfold ef_rip, ef_cs, ef_rflags, ef_rsp, ef_ss in *.
  replace (ef + 120 + 8) with (ef + 128) by lia. replace (ef + 128 + 8) with (ef + 136) by lia.
  replace (ef + 128 + 16) with (ef + 144) by lia. replace (ef + 128 + 24) with (ef + 152) by lia.
  replace (ef + 128 + 32) with (ef + 160) by lia. rewrite E1, E2, E3, E4, E5. destruct c as [regs r1 r2 r3 r4 r5]; cbn [gprs rip cs rflags rsp ss] in *. f_equal.
  apply list_eq_same_length with (n := 15%nat); [done | by rewrite length_map, length_seq |].
  intros i x y Hi Hx Hy. rewrite <- (Hg i y Hy). apply list_lookup_fmap_Some in Hx as (j & Ej & Hj).
  apply lookup_seq in Hj as [-> _]. done.
Qed.

(** ** Handlers *)

Definition with_rip (v : Z) (c : cpu) : cpu := MkCpu (gprs c) v (cs c) (rflags c) (rsp c) (ss c).

(** The lines with the registers of the interrupted code. *)
Definition register_lines (c : cpu) : list printf_call :=
  let reg i := VInt (nth (Z.to_nat i) (gprs c) 0) in
  [(line_format "Registers:", []);
   (line_format "  RIP=%016lx CS=%016lx RFLAGS=%016lx RSP=%016lx SS=%016lx",
    [VInt (rip c); VInt (cs c); VInt (rflags c); VInt (rsp c); VInt (ss c)]);
   (line_format "  RAX=%016lx RBX=%016lx RCX=%016lx RDX=%016lx RBP=%016lx",
    [reg REG_RAX; reg REG_RBX; reg REG_RCX; reg REG_RDX; reg REG_RBP]);
   (line_format "  RSI=%016lx RDI=%016lx R8=%016lx  R9=%016lx  R10=%016lx",
    [reg REG_RSI; reg REG_RDI; reg REG_R8; reg REG_R9; reg REG_R10]);
   (line_format "  R11=%016lx R12=%016lx R13=%016lx R14=%016lx R15=%016lx",
    [reg REG_R11; reg REG_R12; reg REG_R13; reg REG_R14; reg REG_R15])].

Lemma dump_registers m ef c :
  length (gprs c) = 15%nat -> frame_of m ef c -> dump_exception_frame m ef = register_lines c.
Proof.
  intros Hlen (Hg & E1 & E2 & E3 & E4 & E5). unfold dump_exception_frame, register_lines.
  assert (forall i, 0 <= i < 15 -> load64 m (ef_regs ef i) = nth (Z.to_nat i) (gprs c) 0) as Hr.
  { intros i Hi. destruct (lookup_lt_is_Some_2 (gprs c) (Z.to_nat i)) as [v Hv]; [lia |].
    rewrite (nth_lookup_Some _ _ 0 v Hv), <- (Hg _ _ Hv). do 2 f_equal. lia. }
  rewrite !Hr by (vm_compute; split; congruence). by rewrite E1, E2, E3, E4, E5.
Qed.

Lemma lines_typed e cr2 c : calls_typed (title e cr2 :: register_lines c).
Proof.
  unfold calls_typed, register_lines. apply Forall_cons. split; [destruct e; by vm_compute |].
  repeat (apply Forall_cons; split; [by vm_compute |]). by apply Forall_nil.
Qed.

(** C12: what becomes of an exception.  A page fault while a fixup address is set
    continues there with all other registers, the flags and the stack as they
    were, and only the stack of the exception is written.  Every other exception,
    and a page fault without a fixup address, prints its name and the registers
    of the interrupted code, by calls of [printf] that have the types of their
    formats, and halts the kernel: also when a process caused it. *)
Theorem exceptions_resume_or_report e error_code fixup cr2 stack c m
    (Hc : cpu_ok c) (Hfix : 0 <= fixup < 2 ^ 64) :
  (e = x86_page_fault_exception -> fixup <> 0 ->
     exists m', take_exception e error_code fixup cr2 stack c m = Continues m' (with_rip fixup c) /\
       changes (fun x => stack - 168 <= x < stack) m m') /\
  (e <> x86_page_fault_exception \/ fixup = 0 ->
     take_exception e error_code fixup cr2 stack c m
       = Halts (title e cr2 :: register_lines c) (cstr "Halted") /\
     calls_typed (title e cr2 :: register_lines c)).
Proof.
  pose proof (entry_spec e error_code c m stack Hc) as H. pose proof (proj1 Hc) as Hlen. unfold take_exception.
  destruct (exception_entry _ _ _) as [m1 ef]. destruct H as (-> & Hf & Hch). split.
  - intros -> Hne. cbn [do_exception]. unfold do_x86_page_fault_exception.
    destruct (Z.eqb_spec fixup 0); [done |]. cbn [negb]. eexists. split.
    + f_equal. apply exit_spec; [done |]. destruct Hf as (Hg & E1 & E2 & E3 & E4 & E5).
      unfold frame_of, with_rip, ef_regs, ef_rip, ef_cs, ef_rflags, ef_rsp, ef_ss in *. cbn [gprs rip cs rflags rsp ss].
      rewrite load64_store64_eq, u64_small by done. rewrite !load64_store64_ne by lia.
      split_and!; auto. intros i v Hi. pose proof (lookup_lt_Some _ _ _ Hi). rewrite load64_store64_ne by lia. auto.
    + eapply changes_trans; [exact Hch |]. apply changes_store. unfold ef_rip. change (Z.of_nat 8) with 8. cbv beta. lia.
  - intros Hcase. split; [| apply lines_typed].
    assert (do_exception e fixup cr2 m1 (stack - 168) = report (title e cr2) m1 (stack - 168)) as ->.
    { destruct e; try done. destruct Hcase as [? | ->]; done. }
    unfold report. by rewrite (dump_registers _ _ c).
Qed.

Definition ex_cpu : cpu := MkCpu (seqZ 100 15) 0x1000 0x23 0x202 0x40000000 0x1b.

Lemma exceptions_resume_or_report_witness :
  (exists m', take_exception x86_page_fault_exception 2 0xffffffff80100000 0x5000 0xffffffff80200000 ex_cpu ∅
              = Continues m' (with_rip 0xffffffff80100000 ex_cpu)) /\
  take_exception x86_divide_error_exception 0 0 0 0xffffffff80200000 ex_cpu ∅
  = Halts (title x86_divide_error_exception 0 :: register_lines ex_cpu) (cstr "Halted").
Proof.
  assert (cpu_ok ex_cpu) as Hc by (split_and!; [done | apply (bool_decide_unpack _); by vm_compute | vm_compute; split; congruence ..]).
  split.
  - destruct (proj1 (exceptions_resume_or_report x86_page_fault_exception 2 0xffffffff80100000 0x5000 0xffffffff80200000
      ex_cpu ∅ Hc ltac:(lia)) eq_refl ltac:(lia)) as (m' & E & _). by exists m'.
  - destruct (exceptions_resume_or_report x86_divide_error_exception 0 0 0 0xffffffff80200000 ex_cpu ∅ Hc ltac:(lia)) as [_ H].
    destruct H as [H _]; [by left |]. rewrite H. reflexivity.
Defined.

(** ** Panics *)

Lemma write_string_spec {C} (cw : Z -> C -> C) fuel m s bs con :
  string_at m s bs -> (length bs <= fuel)%nat -> write_string cw fuel m s con = Ok (emit cw bs con).
Proof.
  revert s bs con. induction fuel as [|fuel IH]; intros s bs con Hs Hf; destruct bs as [|b bs]; cbn [length write_string] in *; try lia.
  - apply string_at_nil in Hs. by rewrite Hs.
  - apply string_at_nil in Hs. by rewrite Hs.
  - apply string_at_cons in Hs as (-> & Hb & Hs). destruct (Z.eqb_spec b 0); [done |]. apply (IH (s + 1) bs); [done | lia].
Qed.

Lemma console_string {C} (cw : Z -> C -> C) bs con :
  Forall (fun b => b <> 0) bs -> console_write_str cw (bs ++ [0]) con = Ok (emit cw bs con).
Proof.
  intros Hb. revert con. induction Hb as [|b bs Hb _ IH]; intros con; [done |].
  cbn [app console_write_str]. destruct (Z.eqb_spec b 0); [done |]. apply IH.
Qed.

Lemma string_here m s bs :
  Forall (fun b => b <> 0) bs -> load_bytes m s (length bs + 1) = bs ++ [0] -> string_at m s bs.
Proof.
  intros Hn Hl. rewrite Nat.add_1_r, load_bytes_snoc in Hl. apply app_inj_2 in Hl as [Hl [= He]]; [| done]. by split.
Qed.

(** The characters of a message that fit, and the bytes that it takes: a message
    of exactly 64 characters is written with its terminator behind the buffer. *)
Definition shown (out : list Z) : list Z := take (if decide (length out = 64%nat) then 64 else 63) out.
Definition message_bytes (out : list Z) : Z := if decide (length out = 64%nat) then 65 else 64.

Lemma message_stored m msg fmt ap out :
  output true fmt ap = Ok out -> Z.of_nat (length out) < 2 ^ 31 -> Forall (fun c => u8 c <> 0) out ->
  exists r m', vsnprintf m msg 64 fmt ap = Ok (r, m') /\ string_at m' msg (map u8 (shown out)) /\
    changes (fun x => msg <= x < msg + message_bytes out) m m'.
Proof.
  intros Ho Hl Hn.
  destruct (vsnprintf_gen_buffer true m msg 64 fmt ap out Ho ltac:(lia) Hl) as (m' & E & H1 & H2 & H3).
  exists (Z.of_nat (length out)), m'. split; [exact E |]. unfold shown, message_bytes.
  assert (forall k, Forall (fun b => b <> 0) (map u8 (take k out))) as Hnz.
  { intros k. apply Forall_map, Forall_take, Hn. }
  assert (forall hi, same_outside msg hi m m' -> changes (fun x => msg <= x < hi) m m') as Hso.
  { intros hi Hs x Hx. apply Hs. lia. }
  destruct (decide (length out = 64%nat)) as [E64 | N64].
  - destruct H3 as (H3 & H4 & H5); [lia |]. split; [| apply Hso; by rewrite <- Z.add_assoc in H5].
    apply string_here; [done |]. rewrite length_map, length_take, E64. change (64 `min` 64 + 1)%nat with 65%nat.
    rewrite load_bytes_snoc, take_ge by lia. change (Z.of_nat 64) with 64. rewrite H4.
    change (Z.to_nat 64) with 64%nat in H3. by rewrite H3.
  - destruct (decide (length out < 64)%nat).
    + destruct H1 as (H1 & H5); [lia |]. split; [| by apply Hso]. rewrite take_ge by lia.
      apply string_here; [by rewrite <- (take_ge out 63) by lia |]. by rewrite length_map.
    + destruct H2 as (H2 & H5); [lia |]. split; [| by apply Hso].
      apply string_here; [done |]. rewrite length_map, length_take. replace (63 `min` length out + 1)%nat with 64%nat by lia. done.
Qed.

(** A panic reports its message.  When the arguments have the type of the
    format, [panic] prints the formatted message between its fixed words on the
    console before it halts: the first 63 characters, or all of them if they are
    64.  It writes the buffer of the message, and one byte behind it in that case. *)
Theorem panic_prints {C} (cw : Z -> C -> C) msg fmt ap m con
    (Hfmt : cstring fmt) (Hty : well_typed true fmt ap = true) :
  exists out, output true fmt ap = Ok out /\
    (Z.of_nat (length out) < 2 ^ 31 -> Forall (fun c => u8 c <> 0) out ->
     exists m', panic cw msg fmt ap m con
                = Ok (emit cw (bytes_of "Kernel panic: " ++ map u8 (shown out) ++ [10]) con, m') /\
       changes (fun x => msg <= x < msg + message_bytes out) m m').
Proof.
  pose proof (output_types true fmt ap Hfmt) as Ht. rewrite Hty in Ht. destruct Ht as (out & Ho).
  exists out. split; [done |]. intros Hl Hn.
  destruct (message_stored m msg fmt ap out Ho Hl Hn) as (r & m' & E & Hs & Hc).
  exists m'. split; [| done]. unfold panic, do_panic. rewrite E, Ok_bind.
  unfold cstr. rewrite console_string, Ok_bind by (repeat constructor; vm_compute; discriminate).
  destruct (string_exists m' msg) as (bs & Hs' & Hb). rewrite <- (string_at_unique _ _ _ _ Hs Hs') in Hb.
  rewrite (write_string_spec cw _ _ _ _ _ Hs), Ok_bind by lia.
  change [10; 0] with ([10] ++ [0]). rewrite console_string, Ok_bind by (repeat constructor; lia). by rewrite !emit_app.
Qed.

Lemma panic_prints_witness :
  exists m', panic (fun c con => con ++ [c]) 4096 (cstr "Process terminated with exit status %d.") [VInt 3] ∅ []
             = Ok (bytes_of "Kernel panic: Process terminated with exit status 3." ++ [10], m').
Proof.
  destruct (panic_prints (fun c con => con ++ [c]) 4096 (cstr "Process terminated with exit status %d.") [VInt 3] ∅ [])
    as (out & Ho & Hp).
  - exists (bytes_of "Process terminated with exit status %d."). split; [done |]. repeat constructor; vm_compute; discriminate.
  - by vm_compute.
  - vm_compute in Ho. injection Ho as <-. destruct Hp as (m' & E & _).
    + by vm_compute.
    + apply (bool_decide_unpack _). by vm_compute.
    + exists m'. rewrite E. by vm_compute.
Defined.
