(* ===== verification/Irq.v ===== *)
(** * arch/x86_64: irq.c, apic.c, i8259.c, setup.c, task.c and syscall.c

    Interrupt vectors and their handlers, the interrupt controllers, and the
    segments with the task state segment.  What the code does to the processor
    and to devices is a list of operations; what it reads from them is an
    argument. *)

From Stdlib Require Import Ascii Strings.String.
From S2P Require Import Prelude Mem Printf PrintfProof FormatType Kmem Exceptions ExceptionsProof.
#[local] Open Scope Z_scope.

Inductive operation :=
  | Wrmsr (register value : Z)
  | Out8 (value port : Z)
  | Invoke (handler arg : Z)
  | Prints (call : printf_call).

(** ** irq.c *)

Record irq_state := MkIrq {
  next_vector : Z;
  (** The handler and its argument; an index outside of the array is a fault. *)
  irq_services : list (Z * Z)
}.

Definition irq_init : irq_state := MkIrq NR_EXCEPTIONS (replicate (Z.to_nat NR_INTERRUPTS) (0, 0)).

Definition request_irq (handler arg : Z) (s : irq_state) : outcome (Z * irq_state) :=
  let vector := s32 (next_vector s) in
  let s := MkIrq (u32 (next_vector s + 1)) (irq_services s) in
  if (vector <? NR_EXCEPTIONS) || (NR_INTERRUPT_VECTORS <? vector) then Ok (- EINVAL, s)
  else
    let idx := Z.to_nat (vector - NR_EXCEPTIONS) in
    match irq_services s !! idx with
    | None => Fault OutOfBounds
    | Some (h, _) =>
        if negb (h =? 0) then Ok (- EINVAL, s)
        else Ok (vector, MkIrq (next_vector s) (<[idx := (handler, arg)]> (irq_services s)))
    end.

Definition interrupt_service (vector : Z) (s : irq_state) : outcome (list operation) :=
  if (vector <? NR_EXCEPTIONS) || (NR_INTERRUPT_VECTORS <? vector) then Ok []
  else
    match irq_services s !! Z.to_nat (vector - NR_EXCEPTIONS) with
    | None => Fault OutOfBounds
    | Some (handler, arg) =>
        if negb (handler =? 0) then Ok [Invoke handler arg]
        else Ok [Prints (line_format "warning: unhandled interrupt %d", [VInt vector])]
    end.

(** ** apic.c *)

Definition APIC_EOI : Z := 0x80b.
Definition APIC_SPIV : Z := 0x80f.
Definition APIC_LVT_TIMER : Z := 0x832.
Definition ACPI_LVT_LINT0 : Z := 0x835.
Definition APIC_TIMER_IC : Z := 0x838.
Definition APIC_TIMER_DC : Z := 0x83e.
Definition APIC_LVT_TIMER_PERIODIC : Z := Z.shiftl 1 17.
Definition MSI_DELIVERY_FIXED : Z := Z.shiftl 0 8.
Definition MSI_TRIGGER_EDGE : Z := Z.shiftl 1 15.
Definition X86_IA32_APIC_BASE : Z := 0x1b.
Definition X86_IA32_APIC_BASE_BSP : Z := Z.shiftl 1 8.
Definition X86_IA32_APIC_BASE_EXTD : Z := Z.shiftl 1 10.
Definition X86_IA32_APIC_BASE_EN : Z := Z.shiftl 1 11.
Definition X86_CPUID_FEATURE_ECX_X2APIC : Z := Z.shiftl 1 21.

(** The address and the data of the message. *)
Definition apic_compose_msi_msg (apic_base vector dest_id : Z) : Z * Z :=
  (Z.lor (Z.land apic_base 0xfff00000) (Z.shiftl dest_id 12),
   Z.lor (Z.lor MSI_TRIGGER_EDGE MSI_DELIVERY_FIXED) vector).

Definition apic_write (addr val : Z) : operation := Wrmsr addr val.
Definition apic_eoi : list operation := [apic_write APIC_EOI 0].
Definition end_of_interrupt : list operation := apic_eoi.

Definition handle_interrupt (vector : Z) (s : irq_state) : outcome (list operation) :=
  service ← interrupt_service vector s;
  Ok (end_of_interrupt ++ service).

(** [apic_timer_intr] is the address of the handler, which does nothing. *)
Definition apic_timer_init (apic_timer_intr : Z) (s : irq_state) : outcome (list operation * irq_state) :=
  '(vector, s) ← request_irq apic_timer_intr 0 s;
  if vector <? 0 then Fault Panic
  else Ok ([apic_write APIC_LVT_TIMER (Z.lor vector APIC_LVT_TIMER_PERIODIC);
            apic_write APIC_TIMER_DC 0x3; apic_write APIC_TIMER_IC 100000000], s).

Definition probe_x2apic (cpuid_ecx : Z) : bool := negb (Z.land cpuid_ecx X86_CPUID_FEATURE_ECX_X2APIC =? 0).

Definition apic_is_bsp (base_msr : Z) : bool :=
  Z.land base_msr X86_IA32_APIC_BASE_BSP =? X86_IA32_APIC_BASE_BSP.

(** The operations, the value of [_apic_base], and the vectors. *)
Definition init_apic (cpuid_ecx base_msr apic_timer_intr apic_base : Z) (s : irq_state)
  : outcome (list operation * Z * irq_state) :=
  if negb (probe_x2apic cpuid_ecx) then Ok ([Prints (line_format "No x2APIC found", [])], apic_base, s)
  else
    let apic_base := base_msr in
    let ops := [Wrmsr X86_IA32_APIC_BASE (Z.lor (Z.lor apic_base X86_IA32_APIC_BASE_EXTD) X86_IA32_APIC_BASE_EN)] in
    let apic_base := Z.ldiff apic_base X86_IA32_APIC_BASE_BSP in
    let ops := ops ++ [Prints (line_format "Found x2APIC at %lx", [VInt apic_base]);
                       apic_write ACPI_LVT_LINT0 0; apic_write APIC_SPIV 0x1ff] in
    '(timer, s) ← apic_timer_init apic_timer_intr s;
    Ok (ops ++ timer, apic_base, s).

(** ** i8259.c *)

Definition PIC1_CMD : Z := 0x20.
Definition PIC1_DATA : Z := 0x21.
Definition PIC2_CMD : Z := 0xA0.
Definition PIC2_DATA : Z := 0xA1.
Definition ICW1_IC4 : Z := Z.shiftl 1 0.
Definition ICW4_8086_MODE : Z := Z.shiftl 1 0.

(** [pic1_mask] and [pic2_mask] are what the data ports return. *)
Definition i8259_remap (pic1_mask pic2_mask : Z) : list operation :=
  [Out8 (Z.lor 0x10 ICW1_IC4) PIC1_CMD;
   Out8 (Z.lor 0x10 ICW1_IC4) PIC2_CMD;
   Out8 0x20 PIC1_DATA;
   Out8 0x28 PIC2_DATA;
   Out8 4 PIC1_DATA;
   Out8 2 PIC2_DATA;
   Out8 ICW4_8086_MODE PIC1_DATA;
   Out8 ICW4_8086_MODE PIC2_DATA;
   Out8 pic1_mask PIC1_DATA;
   Out8 pic2_mask PIC2_DATA].

(** ** The interrupt stubs of entry.S *)

(** [do_interrupt] of exceptions.c *)
Definition do_interrupt (m : mem) (ef : Z) (s : irq_state) : outcome (list operation) :=
  handle_interrupt (s32 (load64 m (ef_error_code ef))) s.

(** The stub at [interrupt_entries + 16 * idx] pushes its vector and goes on like
    an exception with an error code. *)
Definition interrupt_entry (idx : Z) (regs : list Z) (s : mem * Z) : mem * Z :=
  exception_entry true regs (push (NR_EXCEPTIONS + idx) s).

(** An interrupt from the interrupted state back to it. *)
Definition take_interrupt (idx stack : Z) (c : cpu) (s : irq_state) (m : mem) : outcome (list operation * cpu * mem) :=
  let '(m, ef) := interrupt_entry idx (gprs c) (deliver c None (m, stack)) in
  ops ← do_interrupt m ef s;
  Ok (ops, exception_exit (m, ef), m).

(** ** Segments: setup.c, task.c, syscall.c *)

Definition X86_KERNEL_DS : Z := 0x10.
Definition X86_USER_CS : Z := 0x23.
Definition X86_USER_DS : Z := 0x1b.
Definition X86_GDT_TSS_IDX : Z := 5.

Definition X86_GDT_TYPE_DATA : Z := Z.shiftl 2 (32 + 8).
Definition X86_GDT_TYPE_CODE : Z := Z.shiftl 8 (32 + 8).
Definition X86_GDT_S : Z := Z.shiftl 1 (32 + 12).
Definition X86_GDT_DPL (level : Z) : Z := Z.shiftl level (32 + 13).
Definition X86_GDT_P : Z := Z.shiftl 1 (32 + 15).
Definition X86_GDT_L : Z := Z.shiftl 1 (32 + 21).
Definition X86_GDT_DB : Z := Z.shiftl 1 (32 + 22).

Definition X86_GDT_ENTRY (flags base limit : Z) : Z :=
  Z.lor (Z.lor (Z.lor (Z.lor (u64 (Z.shiftl (Z.land base 0xff000000) 32)) flags)
    (u64 (Z.shiftl (Z.land limit 0xf0000) 32))) (u64 (Z.shiftl (Z.land base 0x00ffffff) 16))) (Z.land limit 0x0ffff).

Definition segment_flags (l : list Z) : Z := fold_left Z.lor l 0.

Definition gdt : list Z :=
  [0;
   X86_GDT_ENTRY (segment_flags [X86_GDT_TYPE_CODE; X86_GDT_P; X86_GDT_S; X86_GDT_DPL 0; X86_GDT_L]) 0 0xfffff;
   X86_GDT_ENTRY (segment_flags [X86_GDT_TYPE_DATA; X86_GDT_P; X86_GDT_S; X86_GDT_DPL 0; X86_GDT_DB]) 0 0xfffff;
   X86_GDT_ENTRY (segment_flags [X86_GDT_TYPE_DATA; X86_GDT_P; X86_GDT_S; X86_GDT_DPL 3; X86_GDT_DB]) 0 0xfffff;
   X86_GDT_ENTRY (segment_flags [X86_GDT_TYPE_CODE; X86_GDT_P; X86_GDT_S; X86_GDT_DPL 3; X86_GDT_L]) 0 0xfffff;
   0;
   0].

(** [struct tss], packed *)
Definition tss_rsp (tss i : Z) : Z := tss + 4 + 8 * i.
Definition tss_reserved_1 (tss : Z) : Z := tss + 28.
Definition tss_ist (tss i : Z) : Z := tss + 36 + 8 * i.
Definition tss_reserved_2 (tss : Z) : Z := tss + 92.
Definition tss_reserved_3 (tss : Z) : Z := tss + 100.
Definition tss_io_map_base (tss : Z) : Z := tss + 102.
Definition sizeof_tss : Z := 104.

Definition init_tss (m : mem) (tss rsp ist : Z) : mem :=
  let m := store32 m tss 0 in
  let m := store64 m (tss_rsp tss 0) rsp in
  let m := store64 m (tss_rsp tss 1) 0 in
  let m := store64 m (tss_rsp tss 2) 0 in
  let m := store64 m (tss_reserved_1 tss) 0 in
  let m := store64 m (tss_ist tss 0) ist in
  let m := store64 m (tss_ist tss 1) 0 in
  let m := store64 m (tss_ist tss 2) 0 in
  let m := store64 m (tss_ist tss 3) 0 in
  let m := store64 m (tss_ist tss 4) 0 in
  let m := store64 m (tss_ist tss 5) 0 in
  let m := store64 m (tss_ist tss 6) 0 in
  let m := store64 m (tss_reserved_2 tss) 0 in
  let m := store16 m (tss_reserved_3 tss) 0 in
  store16 m (tss_io_map_base tss) 0.

(** [struct tss_desc]; the bit fields fill the bytes 5 and 6. *)
Definition init_tss_desc (m : mem) (desc base limit : Z) : mem :=
  let segment_limit_2 := Z.shiftr (Z.land limit 0xf00000) 16 mod 2 ^ 4 in
  let m := store16 m desc (Z.land limit 0x0ffff) in
  let m := store16 m (desc + 2) (Z.land base 0xffff) in
  let m := store8 m (desc + 4) (Z.shiftr (Z.land base 0xff0000) 16) in
  let m := store8 m (desc + 7) (Z.shiftr (Z.land base 0xff000000) 24) in
  let m := store32 m (desc + 8) (Z.shiftr (Z.land base 0xffffffff00000000) 32) in
  (* type = 9, system = 0, dpl = 0, present = 1 *)
  let m := store8 m (desc + 5) (9 + 0 * 2 ^ 4 + 0 * 2 ^ 5 + 1 * 2 ^ 7) in
  (* avl = 0, reserved_0 = 0, gran = 0 *)
  let m := store8 m (desc + 6) (segment_limit_2 + 0 * 2 ^ 4 + 0 * 2 ^ 5 + 0 * 2 ^ 7) in
  store32 m (desc + 12) 0.

(** [gdt_addr] is the address of the table, the stacks those of task.c. *)
Definition init_task (m : mem) (gdt_addr tss kernel_stack exception_stack : Z) : mem :=
  let m := init_tss m tss (u64 (kernel_stack + 4096)) (u64 (exception_stack + 4096)) in
  init_tss_desc m (gdt_addr + X86_GDT_TSS_IDX * 8) tss sizeof_tss.

Definition X86_IA32_EFER : Z := 0xc0000080.
Definition X86_IA32_EFER_SCE : Z := Z.shiftl 1 0.
Definition X86_IA32_EFER_NXE : Z := Z.shiftl 1 11.
Definition X86_IA32_STAR : Z := 0xc0000081.
Definition X86_IA32_LSTAR : Z := 0xc0000082.
Definition X86_IA32_FMASK : Z := 0xc0000084.

Definition init_syscall (syscall_entry efer : Z) : list operation :=
  let star := Z.lor (Z.shiftl X86_KERNEL_DS 48) (Z.shiftl X86_KERNEL_CS 32) in
  [Wrmsr X86_IA32_STAR star; Wrmsr X86_IA32_LSTAR syscall_entry; Wrmsr X86_IA32_FMASK 0;
   Wrmsr X86_IA32_EFER (Z.lor efer X86_IA32_EFER_SCE)].

Definition setup_nxe (efer : Z) : list operation := [Wrmsr X86_IA32_EFER (Z.lor efer X86_IA32_EFER_NXE)].
