(* ===== verification/IrqTheorems.v ===== *)
(** * Interrupts are served, and what the segments protect *)

From Stdlib Require Import Ascii Strings.String.
From S2P Require Import Prelude Mem Printf PrintfProof FormatType Kmem Exceptions ExceptionsProof Irq.
#[local] Open Scope Z_scope.

(** ** Vectors *)

Fixpoint request_all (l : list (Z * Z)) (s : irq_state) : outcome (list Z * irq_state) :=
  match l with
  | [] => Ok ([], s)
  | (h, arg) :: l =>
      '(vector, s) ← request_irq h arg s;
      '(vectors, s) ← request_all l s;
      Ok (vector :: vectors, s)
  end.

(** After the requests: the first services are theirs, the others free. *)
Definition served (requests : list (Z * Z)) (s : irq_state) : Prop :=
  (length requests <= 224)%nat /\ next_vector s = NR_EXCEPTIONS + Z.of_nat (length requests) /\
  irq_services s = requests ++ replicate (224 - length requests) (0, 0).

Lemma served_init : served [] irq_init.
Proof. split_and!; [simpl; lia | done | done]. Qed.

Lemma request_served requests h arg s :
  served requests s -> (length requests < 224)%nat ->
  exists s', request_irq h arg s = Ok (NR_EXCEPTIONS + Z.of_nat (length requests), s') /\ served (requests ++ [(h, arg)]) s'.
Proof.
  intros (_ & Hn & Hs) Hl. unfold request_irq. rewrite Hn, Hs. cbn [irq_services next_vector].
  set (n := length requests) in *.
  assert (s32 (NR_EXCEPTIONS + Z.of_nat n) = NR_EXCEPTIONS + Z.of_nat n) as ->.
  { unfold s32, NR_EXCEPTIONS. rewrite u32_small by lia. destruct (Z.ltb_spec (32 + Z.of_nat n) (2 ^ 31)); lia. }
  rewrite (proj2 (Z.ltb_ge _ _)) by lia. rewrite (proj2 (Z.ltb_ge _ _)) by (unfold NR_INTERRUPT_VECTORS, NR_EXCEPTIONS; lia).
  cbn [orb]. replace (Z.to_nat (NR_EXCEPTIONS + Z.of_nat n - NR_EXCEPTIONS)) with n by lia.
  rewrite lookup_app_r by lia. replace (n - length requests)%nat with O by lia.
  destruct (224 - n)%nat as [|k] eqn:Ek; [lia |]. cbn [replicate lookup list_lookup negb Z.eqb].
  eexists. split; [done |]. split_and!.
  - rewrite length_app. simpl. lia.
  - cbn [next_vector]. rewrite length_app, u32_small by (unfold NR_EXCEPTIONS; lia). cbn [length]. lia.
  - cbn [irq_services]. rewrite insert_app_r_alt by lia. replace (n - length requests)%nat with O by lia.
    cbn [insert list_insert]. rewrite <- app_assoc, length_app. cbn [length app]. do 3 f_equal. lia.
Qed.

Lemma request_all_served l : forall requests s,
  served requests s -> (length requests + length l <= 224)%nat ->
  exists s', request_all l s
             = Ok (map (fun i => NR_EXCEPTIONS + Z.of_nat i) (seq (length requests) (length l)), s') /\
    served (requests ++ l) s'.
Proof.
  induction l as [|[h arg] l IH]; intros requests s Hs Hl; cbn [request_all length seq map] in *.
  { exists s. by rewrite app_nil_r. }
  destruct (request_served requests h arg s Hs) as (s1 & -> & Hs1); [lia |]. rewrite Ok_bind.
  destruct (IH _ _ Hs1) as (s2 & -> & Hs2); [rewrite length_app; simpl; lia |]. rewrite Ok_bind.
  exists s2. rewrite <- app_assoc in Hs2. split; [| done].
  rewrite length_app. cbn [length]. by rewrite Nat.add_1_r.
Qed.

(** ** From the stub to the handler and back *)

Lemma interrupt_frame idx c m stack :
  cpu_ok c -> 0 <= idx < NR_INTERRUPTS ->
  let '(m', ef) := interrupt_entry idx (gprs c) (deliver c None (m, stack)) in
  s32 (load64 m' (ef_error_code ef)) = NR_EXCEPTIONS + idx /\
  frame_of m' ef c /\ changes (fun x => stack - 168 <= x < stack) m m'.
Proof.
  intros Hc Hi.
  (* The frame is that of a page fault with the vector as its error code. *)
  change (interrupt_entry idx (gprs c) (deliver c None (m, stack)))
    with (exception_entry (has_error_code x86_page_fault_exception) (gprs c)
            (deliver c (if has_error_code x86_page_fault_exception then Some (NR_EXCEPTIONS + idx) else None) (m, stack))).
  pose proof (entry_spec x86_page_fault_exception (NR_EXCEPTIONS + idx) c m stack Hc) as H.
  rewrite entry_frame in *. pose proof (pushes_spec (frame_words x86_page_fault_exception (NR_EXCEPTIONS + idx) c) m stack) as Hp.
  destruct (pushes _ _) as [m' ef]. destruct H as (-> & Hf & Hch). destruct Hp as (_ & Hl & _).
  split; [| done]. unfold ef_error_code. replace (stack - 168 + 120) with (stack - 8 * (Z.of_nat 5 + 1)) by lia.
  rewrite (Hl 5%nat (NR_EXCEPTIONS + idx)) by done. unfold NR_INTERRUPTS, NR_INTERRUPT_VECTORS, NR_EXCEPTIONS in *.
  rewrite u64_small by lia. unfold s32. rewrite u32_small by lia. destruct (Z.ltb_spec (32 + idx) (2 ^ 31)); lia.
Qed.

Lemma service_at requests s (i : nat) h arg :
  served requests s -> (requests ++ replicate (224 - length requests) (0, 0)) !! i = Some (h, arg) ->
  handle_interrupt (NR_EXCEPTIONS + Z.of_nat i) s
  = Ok (Wrmsr APIC_EOI 0 :: if h =? 0 then [Prints (line_format "warning: unhandled interrupt %d", [VInt (NR_EXCEPTIONS + Z.of_nat i)])]
                            else [Invoke h arg]).
Proof.
  intros (Hl & _ & Hs) Hi. pose proof (lookup_lt_Some _ _ _ Hi) as Hlt. rewrite length_app, length_replicate in Hlt.
  unfold handle_interrupt, interrupt_service. rewrite Hs.
  rewrite (proj2 (Z.ltb_ge _ _)) by lia. rewrite (proj2 (Z.ltb_ge _ _)) by (unfold NR_INTERRUPT_VECTORS, NR_EXCEPTIONS; lia).
  cbn [orb]. replace (Z.to_nat (NR_EXCEPTIONS + Z.of_nat i - NR_EXCEPTIONS)) with i by lia. rewrite Hi.
  by destruct (h =? 0).
Qed.

(** C13: an interrupt reaches the handler that asked for its vector.  Up to 224
    requests get the vectors from 32 on, each its own.  When the processor later
    takes the interrupt of a vector through its stub, the controller is told, the
    handler that was registered with it runs once with its argument, and the
    interrupted code continues with all its registers; only the stack of the
    interrupt is written.  A vector without a handler prints a warning, by a call
    that has the type of its format.  One more request is accepted by the check of
    its vector and writes behind the array of the handlers. *)
Theorem interrupts_served requests
    (Hh : Forall (fun r => fst r <> 0) requests) (Hl : (length requests <= 224)%nat) :
  exists s,
    request_all requests irq_init
      = Ok (map (fun i => NR_EXCEPTIONS + Z.of_nat i) (seq 0 (length requests)), s) /\
    (forall i c stack m, (i < 224)%nat -> cpu_ok c ->
       exists m' op, take_interrupt (Z.of_nat i) stack c s m = Ok ([Wrmsr APIC_EOI 0; op], c, m') /\
         changes (fun x => stack - 168 <= x < stack) m m' /\
         match requests !! i with
         | Some (h, arg) => op = Invoke h arg
         | None => exists call, op = Prints call /\ calls_typed [call]
         end) /\
    (length requests = 224%nat -> forall h arg, request_irq h arg s = Fault OutOfBounds).
Proof.
  destruct (request_all_served requests [] irq_init served_init Hl) as (s & E & Hs). exists s.
  split; [done |]. cbn [app] in Hs. split.
  - intros i c stack m Hi Hc. unfold take_interrupt.
    pose proof (interrupt_frame (Z.of_nat i) c m stack Hc ltac:(unfold NR_INTERRUPTS, NR_INTERRUPT_VECTORS, NR_EXCEPTIONS; lia)) as H.
    destruct (interrupt_entry _ _ _) as [m' ef]. destruct H as (Ev & Hf & Hch). unfold do_interrupt. rewrite Ev.
    destruct (lookup_lt_is_Some_2 (requests ++ replicate (224 - length requests) (0, 0)) i) as [[h arg] Hr].
    { rewrite length_app, length_replicate. lia. }
    rewrite (service_at requests s i h arg Hs Hr), Ok_bind.
    rewrite (exit_spec _ _ c (proj1 Hc) Hf).
    destruct (requests !! i) as [[h' arg']|] eqn:Eq.
    + rewrite (lookup_app_l_Some _ _ _ _ Eq) in Hr. injection Hr as -> ->.
      pose proof (Forall_lookup_1 _ _ _ _ Hh Eq) as Hne. cbn [fst] in Hne. destruct (Z.eqb_spec h 0); [done |].
      by exists m', (Invoke h arg).
    + rewrite lookup_app_r in Hr by (by apply lookup_ge_None). apply lookup_replicate in Hr as [[= -> ->] _].
      exists m'. eexists. split; [reflexivity |]. split; [done |]. eexists. split; [done |].
      apply Forall_cons. split; [by vm_compute | by apply Forall_nil].
  - intros H224 h arg. destruct Hs as (_ & Hn & Hs). unfold request_irq. rewrite Hn, Hs, H224. cbn [irq_services next_vector].
    rewrite app_nil_r. change (s32 (NR_EXCEPTIONS + Z.of_nat 224)) with 256. cbn [orb].
    rewrite (proj2 (lookup_ge_None _ _)); [done |]. rewrite H224. by vm_compute.
Qed.

Lemma interrupts_served_witness :
  exists s m' op,
    request_all [(0x1000, 7); (0x2000, 8)] irq_init = Ok ([32; 33], s) /\
    take_interrupt 1 0xffffffff80200000 ex_cpu s ∅ = Ok ([Wrmsr APIC_EOI 0; op], ex_cpu, m') /\ op = Invoke 0x2000 8.
Proof.
  destruct (interrupts_served [(0x1000, 7); (0x2000, 8)]) as (s & E & Ht & _).
  - repeat constructor; simpl; lia.
  - simpl; lia.
  - destruct (Ht 1%nat ex_cpu 0xffffffff80200000 ∅) as (m' & op & E' & _ & Hop).
    + lia.
    + split_and!; [done | apply (bool_decide_unpack _); by vm_compute | vm_compute; split; congruence ..].
    + exists s, m', op. by split_and!.
Defined.

(** ** Segments *)

(** The fields of a descriptor that the processor checks. *)
Definition descriptor_dpl (d : Z) : Z := d / 2 ^ 45 mod 4.
Definition descriptor_present (d : Z) : bool := Z.testbit d 47.
Definition descriptor_code (d : Z) : bool := Z.testbit d 43.
Definition descriptor_long (d : Z) : bool := Z.testbit d 53.

(** The descriptor that a selector selects, for the privilege level in it. *)
Definition selects (selector : Z) (code : bool) : bool :=
  match gdt !! Z.to_nat (selector / 8) with
  | Some d => descriptor_present d && eqb (descriptor_code d) code && eqb (descriptor_long d) code
              && (descriptor_dpl d =? selector mod 4)
  | None => false
  end.

(** What [syscall] and [sysret] load from the register STAR. *)
Definition syscall_cs (star : Z) : Z := star / 2 ^ 32 mod 2 ^ 16.
Definition syscall_ss (star : Z) : Z := star / 2 ^ 32 mod 2 ^ 16 + 8.
Definition sysret_cs (star : Z) : Z := Z.lor (star / 2 ^ 48 + 16) 3.
Definition sysret_ss (star : Z) : Z := Z.lor (star / 2 ^ 48 + 8) 3.

(** The base and the limit of the task state segment, from its descriptor. *)
Definition tss_base (m : mem) (desc : Z) : Z :=
  load16 m (desc + 2) + load8 m (desc + 4) * 2 ^ 16 + load8 m (desc + 7) * 2 ^ 24 + load32 m (desc + 8) * 2 ^ 32.
Definition tss_limit (m : mem) (desc : Z) : Z := load16 m desc + load8 m (desc + 6) mod 16 * 2 ^ 16.

(** Whether code in user mode may access a port: its bit in the map that starts
    at the offset in the segment is clear, and the two bytes that the processor
    reads are within the limit. *)
Definition port_open (m : mem) (desc port : Z) : bool :=
  let tss := tss_base m desc in
  let p := load16 m (tss_io_map_base tss) + port / 8 in
  (p + 1 <=? tss_limit m desc) && negb (Z.testbit (load8 m (tss + p)) (port mod 8)).

Lemma store8_store m a v : store8 m a v = store 1 m a v.
Proof.
  rewrite store_split. cbn [le_split store_bytes]. unfold store8. f_equal. by rewrite (u8_small (u8 v)) by apply u8_range.
Qed.

Lemma load8_load m a : load8 m a = load 1 m a.
Proof. rewrite load_join. cbn [load_bytes le_join]. lia. Qed.

Lemma land_bits a i w : 0 <= i -> 0 <= w -> Z.shiftr (Z.land a (Z.shiftl (Z.ones w) i)) i = a / 2 ^ i mod 2 ^ w.
Proof.
  intros Hi Hw. rewrite Z.shiftr_land, Z.shiftr_shiftl_l by done. rewrite Z.sub_diag, Z.shiftl_0_r.
  by rewrite Z.land_ones, Z.shiftr_div_pow2.
Qed.

Lemma tss_desc_fields m desc base limit :
  0 <= base < 2 ^ 64 ->
  let m' := init_tss_desc m desc base limit in
  tss_base m' desc = base /\ tss_limit m' desc = limit mod 2 ^ 16 /\
  changes (fun x => desc <= x < desc + 16) m m'.
Proof.
  intros Hb. cbv zeta. unfold init_tss_desc, tss_base, tss_limit. rewrite !store8_store, !load8_load.
  assert (Z.shiftr (Z.land limit 0xf00000) 16 mod 2 ^ 4 = 0) as ->.
  { change 0xf00000 with (Z.shiftl (Z.shiftl (Z.ones 4) 4) 16).
    rewrite Z.shiftr_land, Z.shiftr_shiftl_l, Z.sub_diag, Z.shiftl_0_r by lia. rewrite <- Z.land_ones, <- Z.land_assoc by lia.
    change (Z.land (Z.shiftl (Z.ones 4) 4) (Z.ones 4)) with 0. apply Z.land_0_r. }
  split_and!.
  - mem_simpl. change 0xff0000 with (Z.shiftl (Z.ones 8) 16). change 0xff000000 with (Z.shiftl (Z.ones 8) 24).
    change 0xffffffff00000000 with (Z.shiftl (Z.ones 32) 32). change 0xffff with (Z.ones 16).
    rewrite !land_bits, Z.land_ones by lia. change (2 ^ (8 * Z.of_nat 2)) with (2 ^ 16).
    change (2 ^ (8 * Z.of_nat 1)) with (2 ^ 8). change (2 ^ (8 * Z.of_nat 4)) with (2 ^ 32).
    rewrite !Zmod_mod. Z.to_euclidean_division_equations; lia.
  - mem_simpl. change 0xffff with (Z.ones 16). rewrite Z.land_ones by lia. change (2 ^ (8 * Z.of_nat 2)) with (2 ^ 16).
    rewrite Zmod_mod. change ((0 + 0 * 2 ^ 4 + 0 * 2 ^ 5 + 0 * 2 ^ 7) mod 2 ^ (8 * Z.of_nat 1) mod 16 * 2 ^ 16) with 0. lia.
  - repeat (eapply changes_trans; [| apply changes_store; simpl; lia]). apply changes_refl.
Qed.

(** The bytes of the task state segment that [init_tss] clears. *)
Definition tss_clear (i : Z) : Prop := 0 <= i < 4 \/ 12 <= i < 36 \/ 44 <= i < 104.

Lemma store_zero n m a x : a <= x < a + Z.of_nat n -> load8 (store n m a 0) x = 0.
Proof.
  intros Hx. rewrite store_split. replace (le_split n 0) with (replicate n 0).
  - replace x with (a + Z.of_nat (Z.to_nat (x - a))) by lia.
    rewrite (load8_store_bytes_in _ _ _ _ 0); [done |]. apply lookup_replicate. split; [done | lia].
  - clear. induction n as [|n IH]; [done |]. cbn [replicate le_split]. by rewrite IH.
Qed.

Ltac clear_byte :=
  repeat first [rewrite store_zero by (simpl; lia) | rewrite load8_store_out by (simpl; lia)].

Lemma init_tss_clear m tss rsp0 ist0 i : tss_clear i -> load8 (init_tss m tss rsp0 ist0) (tss + i) = 0.
Proof.
  intros Hi. unfold init_tss, tss_rsp, tss_reserved_1, tss_ist, tss_reserved_2, tss_reserved_3, tss_io_map_base.
  unfold store16, store32, store64, tss_clear in *.
  destruct (decide (102 <= i)); [by clear_byte |]. destruct (decide (100 <= i)); [by clear_byte |].
  destruct (decide (92 <= i)); [by clear_byte |]. destruct (decide (84 <= i)); [by clear_byte |].
  destruct (decide (76 <= i)); [by clear_byte |]. destruct (decide (68 <= i)); [by clear_byte |].
  destruct (decide (60 <= i)); [by clear_byte |]. destruct (decide (52 <= i)); [by clear_byte |].
  destruct (decide (44 <= i)); [by clear_byte |]. destruct (decide (28 <= i)); [by clear_byte |].
  destruct (decide (20 <= i)); [by clear_byte |]. destruct (decide (12 <= i)); [by clear_byte |]. by clear_byte.
Qed.

Lemma init_tss_fields m tss rsp0 ist0 :
  0 <= rsp0 < 2 ^ 64 -> 0 <= ist0 < 2 ^ 64 ->
  let m' := init_tss m tss rsp0 ist0 in
  load64 m' (tss_rsp tss 0) = rsp0 /\ load64 m' (tss_ist tss 0) = ist0 /\ load16 m' (tss_io_map_base tss) = 0 /\
  changes (fun x => tss <= x < tss + sizeof_tss) m m'.
Proof.
  intros Hr Hi. cbv zeta.
  unfold init_tss, tss_rsp, tss_reserved_1, tss_ist, tss_reserved_2, tss_reserved_3, tss_io_map_base, sizeof_tss.
  split_and!; [mem_simpl; by apply Z.mod_small | mem_simpl; by apply Z.mod_small | by mem_simpl |].
  repeat (eapply changes_trans; [| apply changes_store; simpl; lia]). apply changes_refl.
Qed.

(** C14: what separates user mode from the kernel.  The four selectors of the source
    select present descriptors of their privilege level and kind, and the
    instructions [syscall] and [sysret] load exactly these from the register that
    [init_syscall] writes.  After [init_task] the task register finds the segment
    with the two stacks.  But the offset of the port permissions in it is 0, so
    that the stack pointers and the zeros of the segment are taken for them: a
    process may access all ports below 32, from 96 to 287 (the second interrupt
    controller, the keyboard controller and the clock among them) and from 352 to
    831; the ports behind the segment stay closed. *)
Theorem user_mode_access m gdt_addr tss kernel_stack exception_stack
    (Htss : 0 <= tss < 2 ^ 64)
    (Hapart : gdt_addr + 56 <= tss \/ tss + sizeof_tss <= gdt_addr) :
  (selects X86_KERNEL_CS true = true /\ selects X86_KERNEL_DS false = true /\
   selects X86_USER_CS true = true /\ selects X86_USER_DS false = true /\
   forall entry efer, exists star rest, init_syscall entry efer = Wrmsr X86_IA32_STAR star :: rest /\
     syscall_cs star = X86_KERNEL_CS /\ syscall_ss star = X86_KERNEL_DS /\
     sysret_cs star = X86_USER_CS /\ sysret_ss star = X86_USER_DS) /\
  (let m' := init_task m gdt_addr tss kernel_stack exception_stack in
   let desc := gdt_addr + X86_GDT_TSS_IDX * 8 in
   tss_base m' desc = tss /\ tss_limit m' desc = sizeof_tss /\
   load64 m' (tss_rsp tss 0) = u64 (kernel_stack + 4096) /\ load64 m' (tss_ist tss 0) = u64 (exception_stack + 4096) /\
   (forall port, 0 <= port < 32 \/ 96 <= port < 288 \/ 352 <= port < 832 -> port_open m' desc port = true) /\
   (forall port, 832 <= port -> port_open m' desc port = false)).
Proof.
  split.
  { split_and!; try done. intros entry efer. do 2 eexists. by split. }
  cbv zeta. unfold init_task. set (m1 := init_tss m tss _ _). set (desc := gdt_addr + X86_GDT_TSS_IDX * 8).
  destruct (init_tss_fields m tss (u64 (kernel_stack + 4096)) (u64 (exception_stack + 4096)) ltac:(auto with word) ltac:(auto with word))
    as (Hr & Hi & Hio & _). fold m1 in Hr, Hi, Hio.
  destruct (tss_desc_fields m1 desc tss sizeof_tss Htss) as (Hb & Hlim & Hc). set (m2 := init_tss_desc m1 desc tss sizeof_tss) in *.
  change (sizeof_tss mod 2 ^ 16) with sizeof_tss in Hlim.
  assert (forall x, tss <= x < tss + sizeof_tss -> ~ (desc <= x < desc + 16)) as Hd.
  { subst desc. unfold sizeof_tss, X86_GDT_TSS_IDX in *. lia. }
  assert (forall n a, tss <= a -> a + Z.of_nat n <= tss + sizeof_tss -> load n m2 a = load n m1 a) as Hl.
  { intros n a H1 H2. apply (load_changes _ _ _ _ _ Hc). intros x Hx. apply Hd. lia. }
  unfold load64, load16, tss_rsp, tss_ist, tss_io_map_base, sizeof_tss in *.
  rewrite !Hl by (simpl; lia). split_and!; [done .. | |].
  - intros port Hp. unfold port_open, tss_io_map_base, load16. rewrite Hb, Hlim, Hl by (simpl; lia). rewrite Hio, Z.add_0_l.
    rewrite (proj2 (Z.leb_le _ _)) by (Z.to_euclidean_division_equations; lia). cbn [andb].
    assert (load8 m2 (tss + port / 8) = 0) as ->; [| by rewrite Z.bits_0].
    rewrite Hc by (apply Hd; Z.to_euclidean_division_equations; lia). apply init_tss_clear. unfold tss_clear.
    Z.to_euclidean_division_equations; lia.
  - intros port Hp. unfold port_open, tss_io_map_base, load16. rewrite Hb, Hlim, Hl by (simpl; lia). rewrite Hio, Z.add_0_l.
    by rewrite (proj2 (Z.leb_gt _ _)) by (Z.to_euclidean_division_equations; lia).
Qed.

Lemma user_mode_access_witness :
  let m' := init_task ∅ 0xffffffff80300000 0xffffffff80301000 0xffffffff80302000 0xffffffff80303000 in
  port_open m' (0xffffffff80300000 + X86_GDT_TSS_IDX * 8) PIC2_DATA = true /\
  port_open m' (0xffffffff80300000 + X86_GDT_TSS_IDX * 8) 0x3f8 = false.
Proof.
  destruct (user_mode_access ∅ 0xffffffff80300000 0xffffffff80301000 0xffffffff80302000 0xffffffff80303000)
    as (_ & _ & _ & _ & _ & Ho & Hc); [lia | unfold sizeof_tss; lia |].
  split; [apply Ho; unfold PIC2_DATA; lia | apply Hc; lia].
Defined.

(** ** The legacy interrupt controllers *)

(** An 8259 controller: the initialization command on the first port, then three
    words and the mask on the second. *)
Record pic := MkPic { pic_step : Z; pic_base : Z; pic_cascade : Z; pic_mode : Z; pic_mask : Z }.

Definition pic_write (cmd : Z) (p : pic) (op : operation) : pic :=
  match op with
  | Out8 v port =>
      if port =? cmd then if Z.testbit v 4 then MkPic 2 0 0 0 0 else p
      else if port =? cmd + 1 then
        if pic_step p =? 2 then MkPic 3 v (pic_cascade p) (pic_mode p) (pic_mask p)
        else if pic_step p =? 3 then MkPic 4 (pic_base p) v (pic_mode p) (pic_mask p)
        else if pic_step p =? 4 then MkPic 0 (pic_base p) (pic_cascade p) v (pic_mask p)
        else MkPic 0 (pic_base p) (pic_cascade p) (pic_mode p) v
      else p
  | _ => p
  end.

(** The sequence sets both controllers up with vectors that are no exceptions and
    restores their masks. *)
Lemma i8259_remapped p1 p2 mask1 mask2 :
  fold_left (pic_write PIC1_CMD) (i8259_remap mask1 mask2) p1 = MkPic 0 NR_EXCEPTIONS 4 ICW4_8086_MODE mask1 /\
  fold_left (pic_write PIC2_CMD) (i8259_remap mask1 mask2) p2 = MkPic 0 (NR_EXCEPTIONS + 8) 2 ICW4_8086_MODE mask2.
Proof. split; reflexivity. Qed.
