(* ===== verification/Switch.v ===== *)
(** * Context switches

    [switch_to] and [switch_to_first] of arch/x86_64/thread.c and
    [ret_to_userspace] of arch/x86_64/entry.S as instructions on the registers
    and the memory, and what they give to the scheduler: a task that is switched
    away comes back as it was.  [process_spawn] puts every process on the
    translation map of the kernel, so that all tasks are in one address space.
    That their stacks do not overlap is an assumption ([layout]): [process_spawn]
    itself gives every process a stack that ends at 0x40000000, so that it holds
    for the idle task and one process that was made by it. *)

From S2P Require Import Prelude Mem Exceptions ExceptionsProof Irq Sched SchedProof.
#[local] Open Scope Z_scope.

(** ** The code *)

(** [struct task_state] *)
Definition ts_rsp (ts : Z) : Z := ts.
Definition ts_rip (ts : Z) : Z := ts + 8.
Definition ts_flags (ts : Z) : Z := ts + 16.
Definition __TIF_NEW : Z := 0.

Definition task_state_init (m : mem) (ts rip rsp : Z) : mem :=
  store64 (store64 m (ts_rsp ts) rsp) (ts_rip ts) rip.

Definition X86_RFLAGS_CF : Z := 0.
Definition X86_RFLAGS_IF : Z := 2 ^ 9.

Record machine := MkMachine { regs : cpu; ds : Z; es : Z; cr3 : Z; memory : mem }.

Definition reg (i : Z) (k : machine) : Z := nth (Z.to_nat i) (gprs (regs k)) 0.

(** *** Instructions *)

Definition set_reg (i v : Z) (k : machine) : machine :=
  let c := regs k in
  MkMachine (MkCpu (<[Z.to_nat i := v]> (gprs c)) (rip c) (cs c) (rflags c) (rsp c) (ss c)) (ds k) (es k) (cr3 k) (memory k).
Definition set_rsp (v : Z) (k : machine) : machine :=
  let c := regs k in
  MkMachine (MkCpu (gprs c) (rip c) (cs c) (rflags c) v (ss c)) (ds k) (es k) (cr3 k) (memory k).
Definition set_memory (m : mem) (k : machine) : machine := MkMachine (regs k) (ds k) (es k) (cr3 k) m.
Definition jmp (v : Z) (k : machine) : machine :=
  let c := regs k in
  MkMachine (MkCpu (gprs c) v (cs c) (rflags c) (rsp c) (ss c)) (ds k) (es k) (cr3 k) (memory k).
Definition set_cf (b : bool) (k : machine) : machine :=
  let c := regs k in
  let flags := if b then Z.setbit (rflags c) X86_RFLAGS_CF else Z.clearbit (rflags c) X86_RFLAGS_CF in
  MkMachine (MkCpu (gprs c) (rip c) (cs c) flags (rsp c) (ss c)) (ds k) (es k) (cr3 k) (memory k).
Definition set_ds_es (v : Z) (k : machine) : machine := MkMachine (regs k) v v (cr3 k) (memory k).

Definition pushq (v : Z) (k : machine) : machine :=
  let '(m, sp) := push v (memory k, rsp (regs k)) in
  set_rsp sp (set_memory m k).
Definition popq (i : Z) (k : machine) : machine :=
  let '(v, (m, sp)) := pop (memory k, rsp (regs k)) in
  set_rsp sp (set_reg i v k).

(** Bit test and reset: the bit goes to the carry flag. *)
Definition btrl (bit addr : Z) (k : machine) : machine :=
  let word := load32 (memory k) addr in
  set_cf (Z.testbit word bit) (set_memory (store32 (memory k) addr (Z.clearbit word bit)) k).

Definition iretq (k : machine) : machine :=
  let m := memory k in
  let sp := rsp (regs k) in
  MkMachine (MkCpu (gprs (regs k)) (load64 m sp) (load64 m (sp + 8)) (load64 m (sp + 16)) (load64 m (sp + 24)) (load64 m (sp + 32)))
    (ds k) (es k) (cr3 k) m.

(** *** entry.S *)

Definition ret_to_userspace (k : machine) : machine :=
  let k := set_reg REG_RAX X86_USER_DS k in
  let k := set_ds_es (u16 (reg REG_RAX k)) k in
  let k := pushq (reg REG_RAX k) k in
  let k := pushq (reg REG_RSI k) k in
  let k := pushq (rflags (regs k)) k in
  let k := set_memory (store64 (memory k) (rsp (regs k)) (Z.lor (load64 (memory k) (rsp (regs k))) X86_RFLAGS_IF)) k in
  let k := pushq X86_USER_CS k in
  let k := pushq (reg REG_RDI k) k in
  iretq k.

(** *** thread.c *)

Section Switch.
(** The address of the label 0 of [switch_to]. *)
Context (resume : Z).

(** From the test of the flag on: into the task [new]. *)
Definition enter (new : Z) (k : machine) : machine :=
  let k := btrl __TIF_NEW (ts_flags new) k in
  let k := set_reg REG_RDI (load64 (memory k) (ts_rip new)) k in
  let k := set_reg REG_RSI (load64 (memory k) (ts_rsp new)) k in
  if Z.testbit (rflags (regs k)) X86_RFLAGS_CF then ret_to_userspace k
  else
    let k := set_rsp (reg REG_RSI k) k in
    jmp (reg REG_RDI k) k.

Definition switch_to_first (new : Z) (k : machine) : machine :=
  let k := pushq (reg REG_RBP k) k in
  enter new k.

(** The address of the label is an immediate of 32 bits, extended by its sign. *)
Definition switch_to (old new : Z) (k : machine) : machine :=
  let k := pushq (reg REG_RBP k) k in
  let k := set_memory (store64 (memory k) (ts_rip old) (s32 resume)) k in
  let k := set_memory (store64 (memory k) (ts_rsp old) (rsp (regs k))) k in
  enter new k.

(** The code behind the label, to the end of [switch_to]. *)
Definition resumed_at_label (k : machine) : machine := popq REG_RBP k.

Definition perform_one (a : action) (k : machine) : machine :=
  match a with
  | LoadMap map => MkMachine (regs k) (ds k) (es k) map (memory k)
  | SwitchTo old new => switch_to old new k
  | SwitchToFirst ts => switch_to_first ts k
  end.
Definition perform (acts : list action) (k : machine) : machine := fold_left (fun k a => perform_one a k) acts k.

(** ** How a task goes on *)

(** A process that has not run, a task of the kernel that begins, and a task in
    [switch_to], which was called with the given stack and frame pointers. *)
Inductive status :=
  | NewUser (entry sp : Z)
  | NewKernel (entry sp : Z)
  | Suspended (sp bp : Z).

(** The task state of a task with the status, and the word on its stack. *)
Definition suspended (m : mem) (t : Z) (st : status) : Prop :=
  match st with
  | NewUser entry sp => Z.testbit (load32 m (ts_flags t)) __TIF_NEW = true /\ load64 m (ts_rip t) = entry /\ load64 m (ts_rsp t) = sp
  | NewKernel entry sp => Z.testbit (load32 m (ts_flags t)) __TIF_NEW = false /\ load64 m (ts_rip t) = entry /\ load64 m (ts_rsp t) = sp
  | Suspended sp bp =>
      Z.testbit (load32 m (ts_flags t)) __TIF_NEW = false /\ load64 m (ts_rip t) = resume /\ load64 m (ts_rsp t) = sp - 8 /\ load64 m (sp - 8) = bp
  end.

(** The machine [k'] that goes on with the status, from [k]: in user mode with
    interrupts enabled, at the first instruction of a task, or after the return
    from [switch_to]. *)
Definition goes_on (st : status) (k k' : machine) : Prop :=
  match st with
  | NewUser entry sp =>
      rip (regs k') = entry /\ rsp (regs k') = sp /\ cs (regs k') = X86_USER_CS /\ ss (regs k') = X86_USER_DS /\
      ds k' = X86_USER_DS /\ es k' = X86_USER_DS /\ Z.testbit (rflags (regs k')) 9 = true
  | NewKernel entry sp => rip (regs k') = entry /\ rsp (regs k') = sp /\ cs (regs k') = cs (regs k) /\ ss (regs k') = ss (regs k)
  | Suspended sp bp =>
      let k'' := resumed_at_label k' in
      rip (regs k') = resume /\ rsp (regs k'') = sp /\ reg REG_RBP k'' = bp /\ cs (regs k') = cs (regs k) /\ ss (regs k') = ss (regs k)
  end.

(** ** One switch *)

Definition wf (k : machine) : Prop := length (gprs (regs k)) = 15%nat.

Lemma reg_set_eq i v k : wf k -> 0 <= i < 15 -> reg i (set_reg i v k) = v.
Proof.
  intros Hk Hi. unfold reg, set_reg. cbn [regs gprs]. rewrite (nth_lookup_Some _ _ _ v); [done|].
  apply list_lookup_insert_eq. rewrite Hk. lia.
Qed.

Lemma reg_set_ne i j v k : 0 <= i -> 0 <= j -> i <> j -> reg i (set_reg j v k) = reg i k.
Proof. intros Hi Hj Hij. unfold reg, set_reg. cbn [regs gprs]. rewrite !nth_lookup, list_lookup_insert_ne by lia. done. Qed.

Lemma wf_set_reg i v k : wf k -> wf (set_reg i v k).
Proof. unfold wf, set_reg. cbn [regs gprs]. by rewrite length_insert. Qed.

(** The instructions on a machine that is given by its parts. *)
Section Parts.
Context (g : list Z) (ip c fl sp s d e cr : Z) (m : mem).
Notation mk g fl sp d e m := (MkMachine (MkCpu g ip c fl sp s) d e cr m).
Lemma pushq_parts v : pushq v (mk g fl sp d e m) = mk g fl (sp - 8) d e (store64 m (sp - 8) v).
Proof. reflexivity. Qed.
Lemma set_reg_parts i v : set_reg i v (mk g fl sp d e m) = mk (<[Z.to_nat i := v]> g) fl sp d e m.
Proof. reflexivity. Qed.
Lemma set_rsp_parts v : set_rsp v (mk g fl sp d e m) = mk g fl v d e m.
Proof. reflexivity. Qed.
Lemma set_memory_parts m' : set_memory m' (mk g fl sp d e m) = mk g fl sp d e m'.
Proof. reflexivity. Qed.
Lemma set_ds_es_parts v : set_ds_es v (mk g fl sp d e m) = mk g fl sp v v m.
Proof. reflexivity. Qed.
Lemma btrl_parts bit a : btrl bit a (mk g fl sp d e m) =
  mk g (if Z.testbit (load32 m a) bit then Z.setbit fl X86_RFLAGS_CF else Z.clearbit fl X86_RFLAGS_CF) sp d e
    (store32 m a (Z.clearbit (load32 m a) bit)).
Proof. reflexivity. Qed.
Lemma reg_parts i : reg i (mk g fl sp d e m) = nth (Z.to_nat i) g 0.
Proof. reflexivity. Qed.
Lemma iretq_parts : iretq (mk g fl sp d e m) =
  MkMachine (MkCpu g (load64 m sp) (load64 m (sp + 8)) (load64 m (sp + 16)) (load64 m (sp + 24)) (load64 m (sp + 32))) d e cr m.
Proof. reflexivity. Qed.
End Parts.

Lemma ret_to_userspace_spec k : wf k ->
  let k' := ret_to_userspace k in
  let sp := rsp (regs k) in
  wf k' /\ rip (regs k') = u64 (reg REG_RDI k) /\ rsp (regs k') = u64 (reg REG_RSI k) /\ cs (regs k') = X86_USER_CS /\
  ss (regs k') = X86_USER_DS /\ ds k' = X86_USER_DS /\ es k' = X86_USER_DS /\ Z.testbit (rflags (regs k')) 9 = true /\
  changes (fun x => sp - 40 <= x < sp) (memory k) (memory k').
Proof.
  destruct k as [[g ip c fl sp s] d e cr m]. unfold wf. cbn [regs gprs rsp]. intros Hk. unfold ret_to_userspace. cbv zeta.
  rewrite !set_reg_parts, !reg_parts, !set_ds_es_parts, !pushq_parts. cbn [regs rflags]. rewrite ?reg_parts, ?pushq_parts.
  set (g' := <[Z.to_nat REG_RAX := X86_USER_DS]> g). cbn [memory regs rsp]. rewrite ?set_memory_parts, ?pushq_parts, ?reg_parts, ?pushq_parts, iretq_parts.
  assert (nth (Z.to_nat REG_RAX) g' 0 = X86_USER_DS) as Ex.
  { unfold g'. rewrite nth_lookup, list_lookup_insert_eq; [done|]. rewrite Hk. change (Z.to_nat REG_RAX) with 0%nat. lia. }
  assert (forall i, (0 < i)%nat -> nth i g' 0 = nth i g 0) as Eg.
  { intros i Hi. unfold g'. rewrite !nth_lookup, list_lookup_insert_ne; [done|]. change (Z.to_nat REG_RAX) with 0%nat. lia. }
  rewrite Ex, !Eg by (vm_compute; lia). cbn [regs gprs rip cs rflags rsp ss ds es memory].
  assert (forall v, v mod 2 ^ (8 * Z.of_nat 8) = u64 v) as H64 by reflexivity.
  split_and!.
  - unfold g'. by rewrite length_insert.
  - mem_simpl. apply H64.
  - replace (sp - 8 - 8 - 8 - 8 - 8 + 24) with (sp - 8 - 8) by lia. mem_simpl. apply H64.
  - replace (sp - 8 - 8 - 8 - 8 - 8 + 8) with (sp - 8 - 8 - 8 - 8) by lia. mem_simpl. reflexivity.
  - replace (sp - 8 - 8 - 8 - 8 - 8 + 32) with (sp - 8) by lia. mem_simpl. reflexivity.
  - reflexivity.
  - reflexivity.
  - replace (sp - 8 - 8 - 8 - 8 - 8 + 16) with (sp - 8 - 8 - 8) by lia. mem_simpl. rewrite !H64. unfold u64.
    rewrite Z.mod_pow2_bits_low, Z.lor_spec by lia. apply orb_true_r.
  - unfold store64. repeat (eapply changes_trans; [|apply changes_store; intros; simpl in *; lia]). apply changes_refl.
Qed.

Lemma enter_spec new st k : wf k -> suspended (memory k) new st ->
  (forall x, rsp (regs k) - 40 <= x < rsp (regs k) -> ~ (new <= x < new + 24)) ->
  match st with Suspended sp _ => forall x, sp - 8 <= x < sp -> ~ (new <= x < new + 24) | _ => True end ->
  let k' := enter new k in
  wf k' /\ goes_on st k k' /\ Z.testbit (load32 (memory k') (ts_flags new)) __TIF_NEW = false /\
  changes (fun x => new + 16 <= x < new + 20 \/ rsp (regs k) - 40 <= x < rsp (regs k)) (memory k) (memory k').
Proof.
  intros Hk Hst Hroom Hword. destruct k as [[g ip c fl sp s] d e cr m]. unfold wf in Hk. cbn [regs gprs rsp memory] in *.
  unfold enter. cbv zeta. rewrite btrl_parts. cbn [memory]. rewrite !set_reg_parts. cbn [memory regs rflags].
  set (flag := Z.testbit (load32 m (ts_flags new)) __TIF_NEW) in *.
  set (m1 := store32 m (ts_flags new) _). set (fl1 := if flag then _ else _).
  assert (Z.testbit fl1 X86_RFLAGS_CF = flag) as ->.
  { unfold fl1. destruct flag; [by apply Z.setbit_eq|by apply Z.clearbit_eq]. }
  assert (forall n a, a + Z.of_nat n <= ts_flags new \/ ts_flags new + 4 <= a -> load n m1 a = load n m a) as Hm1.
  { intros n a Ha. unfold m1, store32. by rewrite load_store_ne by (simpl; lia). }
  assert (Z.testbit (load32 m1 (ts_flags new)) __TIF_NEW = false) as Hflag.
  { unfold m1. rewrite load32_store32_eq. unfold u32. rewrite Z.mod_pow2_bits_low by (by vm_compute). by apply Z.clearbit_eq. }
  assert (changes (fun x => new + 16 <= x < new + 20) m m1) as Hc1.
  { unfold m1, store32, ts_flags. apply changes_store. intros; simpl in *; lia. }
  unfold load64 in *. rewrite !Hm1 by (unfold ts_rip, ts_rsp, ts_flags; simpl; lia). fold (load64 m) in *.
  set (g2 := <[Z.to_nat REG_RSI := _]> _). rewrite !set_rsp_parts. rewrite ?reg_parts.
  assert (nth (Z.to_nat REG_RDI) g2 0 = load64 m (ts_rip new) /\ nth (Z.to_nat REG_RSI) g2 0 = load64 m (ts_rsp new)) as [Edi Esi].
  { unfold g2. change (Z.to_nat REG_RDI) with 6%nat. change (Z.to_nat REG_RSI) with 5%nat. rewrite !nth_lookup. split.
    - rewrite list_lookup_insert_ne, list_lookup_insert_eq by (rewrite ?Hk; lia). done.
    - rewrite list_lookup_insert_eq by (rewrite length_insert, Hk; lia). done. }
  assert (length g2 = 15%nat) as Hg2 by (unfold g2; by rewrite !length_insert).
  assert (forall x, 0 <= x < 2 ^ 64 -> u64 x = x) as Hu by (intros x Hx; by apply Z.mod_small).
  pose proof (load64_range m (ts_rip new)) as Rip. pose proof (load64_range m (ts_rsp new)) as Rsp.
  assert (flag = match st with NewUser _ _ => true | _ => false end) as Hf by (by destruct st; destruct Hst).
  destruct flag.
  - destruct st as [entry sp'|entry sp'|sp' bp]; [|done..]. destruct Hst as (_ & Hrip & Hrsp).
    pose proof (ret_to_userspace_spec (MkMachine (MkCpu g2 ip c fl1 sp s) d e cr m1) Hg2) as Hret. cbv zeta in Hret.
    rewrite !reg_parts, Edi, Esi, !Hu in Hret by done. cbn [regs rsp memory] in Hret.
    destruct Hret as (Hw & H1 & H2 & H3 & H4 & H5 & H6 & H7 & Hc2). split_and!; [done|cbn [goes_on]; split_and!; congruence| |].
    + rewrite <- Hflag. f_equal. unfold load32. apply (load_changes 4 _ _ _ _ Hc2). intros x Hx Hx'. apply (Hroom x Hx').
      unfold ts_flags in Hx. simpl in Hx. lia.
    + eapply changes_trans; (eapply changes_mono; [|eassumption]); simpl; lia.
  - rewrite Edi, Esi. unfold jmp. cbn [regs ds es cr3 memory gprs rip cs rflags rsp ss].
    split_and!; [done| |done|eapply changes_mono, Hc1; simpl; lia].
    destruct st as [entry sp'|entry sp'|sp' bp]; [done| |].
    + destruct Hst as (_ & <- & <-). done.
    + destruct Hst as (_ & <- & Hrsp & <-). cbn [goes_on]. unfold resumed_at_label, popq, pop. cbn [memory regs rsp cs ss rip].
      split_and!; [done| | |done|done].
      * cbn [regs rsp set_rsp]. rewrite Hrsp. lia.
      * unfold set_rsp, reg, set_reg. cbn [regs gprs]. change (Z.to_nat REG_RBP) with 4%nat.
        rewrite nth_lookup, list_lookup_insert_eq by (rewrite Hg2; lia). cbn [default]. rewrite Hrsp.
        unfold load64. apply Hm1. change (Z.of_nat 8) with 8. unfold ts_flags.
        pose proof (Hword (sp' - 8) ltac:(lia)). pose proof (Hword (sp' - 1) ltac:(lia)). pose proof (Hword (new + 16)). pose proof (Hword (new + 19)). lia.
Qed.
End Switch.

(** ** The scheduler on the machine *)

Section System.
Context {V W : Type} (mmu_map : V -> Z) (process_io : Z -> W -> outcome W) (idle_task : Z) `{!DeviceIO process_io}.

(** The task that runs: that of the current process, or the idle task. *)
Definition running (s : sched V W) : Z :=
  match CURRENT s with
  | Some p => match procs s !! p with Some P => task_state P | None => idle_task end
  | None => idle_task
  end.

(** The switch out of the task that runs. *)
Definition switch_from (s : sched V W) (new : Z) : action :=
  match CURRENT s with
  | Some _ => SwitchTo (running s) new
  | None => SwitchToFirst new
  end.

Lemma schedule_actions s s' acts :
  schedule mmu_map idle_task s = Ok (s', acts) ->
  (CURRENT s' = None /\ acts = [switch_from s idle_task]) \/
  (exists n P, CURRENT s' = Some n /\ procs s' !! n = Some P /\
    ((exists map, acts = [LoadMap map; switch_from s (task_state P)]) \/ (CURRENT s <> None /\ running s = task_state P))).
Proof.
  unfold schedule, take_current. intros Hs. apply bind_Ok in Hs as (s1 & E1 & Hs).
  assert (procs s1 = procs s /\ CURRENT s1 = None) as [Hp1 Hc1].
  { destruct (CURRENT s) as [p|]; [|by injection E1 as <-]. apply bind_Ok in E1 as (P & _ & E1). destruct (state P).
    - by apply bind_Ok in E1 as (? & _ & ?).
    - by apply bind_Ok in E1 as (? & _ & ?).
    - unfold push_wait in E1. destruct (linked _ _); [done|]. by injection E1 as <-. }
  assert (forall p, CURRENT s = Some p -> forall (s2 : sched V W) P, deref s2 p = Ok P ->
    task_state <$> procs s2 !! p = task_state <$> procs s !! p -> task_state P = running s) as Hrun.
  { intros p Hp s2 P HP Ht. unfold running. rewrite Hp. unfold deref in HP. destruct (procs s2 !! p); [|done]. injection HP as ->.
    cbn in Ht. destruct (procs s !! p); [|done]. by injection Ht. }
  unfold dequeue in Hs. destruct (RUNQUEUE s1) as [|n r].
  - left. unfold switch_from. destruct (CURRENT s) as [p|] eqn:Hc.
    + apply bind_Ok in Hs as (P & HP & Hs). injection Hs as <- <-. split; [done|]. f_equal. f_equal.
      apply (Hrun p eq_refl s1 P HP). by rewrite Hp1.
    + by injection Hs as <- <-.
  - right. apply bind_Ok in Hs as (N & HN & Hs). unfold deref in HN. cbn [procs set_current] in HN. rewrite Hp1 in HN.
    destruct (procs s !! n) as [N'|] eqn:Hn; [|done]. injection HN as ->. exists n, (set_state RUNNING N). unfold switch_from.
    destruct (CURRENT s) as [p|] eqn:Hc.
    + apply bind_Ok in Hs as (P & HP & Hs). apply Hrun in HP; [|done|].
      2: { cbn [procs update set_current]. rewrite Hp1. destruct (decide (n = p)) as [<-|Hne]; [by rewrite lookup_insert_eq, Hn|by rewrite lookup_insert_ne]. }
      destruct (Z.eqb_spec (task_state P) (task_state N)) as [He|He]; cbn [negb] in Hs; injection Hs as <- <-;
        (split_and!; [done|cbn [procs update set_current]; by rewrite lookup_insert_eq|]); [right; split; [done|cbn [task_state set_state]; congruence]|left].
      eexists. by rewrite HP.
    + injection Hs as <- <-. split_and!; [done|cbn [procs update set_current]; by rewrite lookup_insert_eq|]. left. by eexists.
Qed.

Lemma kernel_step_actions s s' acts :
  sched_inv s -> kernel_step mmu_map process_io idle_task s = Ok (s', acts) ->
  (CURRENT s' = None /\ acts = [switch_from s idle_task]) \/
  (exists n P, CURRENT s' = Some n /\ procs s' !! n = Some P /\
    ((exists map, acts = [LoadMap map; switch_from s (task_state P)]) \/ (CURRENT s <> None /\ running s = task_state P))).
Proof.
  intros Hinv. unfold kernel_step. destruct (CURRENT s) as [c|] eqn:Hc; intros Hs.
  - unfold process_wait in Hs. apply bind_Ok in Hs as (c' & Ec & Hs). unfold get_current in Ec. rewrite Hc in Ec. injection Ec as <-.
    apply bind_Ok in Hs as (P & HP & Hs). apply bind_Ok in Hs as (w & _ & Hs). apply schedule_actions in Hs.
    assert (forall w', running (MkSched (CURRENT s) (RUNQUEUE s) (WAITQUEUE s) (<[c := set_state WAITING P]> (procs s)) w') = running s) as Hr.
    { intros w'. unfold running. cbn [CURRENT procs]. rewrite Hc, lookup_insert_eq. unfold deref in HP. destruct (procs s !! c); [|done]. by injection HP as ->. }
    unfold switch_from in *. cbn [CURRENT update RUNQUEUE WAITQUEUE procs world] in Hs. rewrite Hr, Hc in Hs. by rewrite Hc.
  - unfold idle_round in Hs. apply bind_Ok in Hs as (s1 & E1 & Hs). apply schedule_actions in Hs.
    destruct (wake_up_spec mmu_map process_io idle_task s Hinv) as (s2 & E2 & _ & Ha & _). rewrite E1 in E2. injection E2 as <-.
    injection Ha as Hc1 _ _. unfold switch_from in *. rewrite Hc1 in Hs. rewrite Hc in *. destruct Hs as [Hs|(n & P & ? & ? & [?|[? _]])]; [by left| |done].
    right. exists n, P. auto.
Qed.

(** *** Memory of the tasks *)

(** The task states in use, and the bounds of the stack of each task. *)
Context (resume : Z) (tasks : list Z) (stack : Z -> Z * Z).

Definition in_state (t x : Z) : Prop := t <= x < t + 24.
Definition in_stack (t x : Z) : Prop := fst (stack t) <= x < snd (stack t).
Definition owns (t x : Z) : Prop := in_state t x \/ in_stack t x.

Record layout : Prop := {
  lay_label : u64 (s32 resume) = resume;
  lay_idle : idle_task ∈ tasks;
  lay_apart : forall t u x, t ∈ tasks -> u ∈ tasks -> owns t x -> owns u x -> t = u;
  lay_own : forall t x, t ∈ tasks -> in_state t x -> ~ in_stack t x
}.

(** What a task may write: neither a task state nor the stack of another task. *)
Definition may_write (t x : Z) : Prop := forall u, u ∈ tasks -> owns u x -> u = t /\ in_stack u x.

(** The word of a suspended task is on its stack. *)
Definition on_stack (t : Z) (st : status) : Prop :=
  match st with
  | Suspended sp _ => forall x, sp - 8 <= x < sp -> in_stack t x
  | _ => True
  end.

(** The scheduler, the machine, and the status in which every task was left. *)
Record system := MkSystem { sys_sched : sched V W; sys_machine : machine; sys_status : gmap Z status }.

Record sys_inv (y : system) : Prop := {
  inv_sched : sched_inv (sys_sched y);
  inv_world : world_ok (world (sys_sched y));
  inv_wf : wf (sys_machine y);
  inv_tasks : forall p P, procs (sys_sched y) !! p = Some P -> task_state P ∈ tasks /\ task_state P <> idle_task;
  inv_inj : forall p q P Q, procs (sys_sched y) !! p = Some P -> procs (sys_sched y) !! q = Some Q -> task_state P = task_state Q -> p = q;
  inv_idle : exists e sp, sys_status y !! idle_task = Some (NewKernel e sp) /\ suspended resume (memory (sys_machine y)) idle_task (NewKernel e sp);
  inv_running : forall p P, CURRENT (sys_sched y) = Some p -> procs (sys_sched y) !! p = Some P ->
    Z.testbit (load32 (memory (sys_machine y)) (ts_flags (task_state P))) __TIF_NEW = false;
  inv_status : forall p P, CURRENT (sys_sched y) <> Some p -> procs (sys_sched y) !! p = Some P ->
    exists st, sys_status y !! task_state P = Some st /\ suspended resume (memory (sys_machine y)) (task_state P) st /\ on_stack (task_state P) st
}.

(** The stack of the task that calls the scheduler has room for the switch. *)
Definition room (s : sched V W) (k : machine) : Prop :=
  let sp := rsp (regs k) in
  8 <= sp < 2 ^ 64 /\ (forall x, sp - 48 <= x < sp -> may_write (running s) x) /\
  (CURRENT s <> None -> forall x, sp - 8 <= x < sp -> in_stack (running s) x).

(** The status in which the task that runs is left: the idle task is not saved. *)
Definition leave (s : sched V W) (k : machine) (st : gmap Z status) : gmap Z status :=
  match CURRENT s with
  | Some _ => <[running s := Suspended (rsp (regs k)) (u64 (reg REG_RBP k))]> st
  | None => st
  end.

(** A task runs, in user mode or in the kernel; the current process waits or the
    idle task makes a round; a process is added. *)
Inductive sys_step : system -> system -> Prop :=
  | step_work s k st k' :
      wf k' -> changes (may_write (running s)) (memory k) (memory k') ->
      sys_step (MkSystem s k st) (MkSystem s k' st)
  | step_switch s k st s' acts :
      room s k -> kernel_step mmu_map process_io idle_task s = Ok (s', acts) ->
      sys_step (MkSystem s k st) (MkSystem s' (perform resume acts k) (leave s k st))
  | step_spawn s k st p t v s' k' entry sp :
      procs s !! p = None -> t ∈ tasks -> t <> idle_task -> (forall q Q, procs s !! q = Some Q -> task_state Q <> t) ->
      wf k' -> changes (owns t) (memory k) (memory k') -> suspended resume (memory k') t (NewUser entry sp) ->
      spawn p (Process_new t v) s = Ok s' ->
      sys_step (MkSystem s k st) (MkSystem s' k' (<[t := NewUser entry sp]> st)).

Context (Hlay : layout).

(** A task state and the word on the stack of a task are kept by what is written
    elsewhere. *)
Lemma suspended_ext m m' t st :
  (forall x, in_state t x -> load8 m' x = load8 m x) ->
  match st with Suspended sp _ => forall x, sp - 8 <= x < sp -> load8 m' x = load8 m x | _ => True end ->
  suspended resume m t st -> suspended resume m' t st.
Proof.
  intros Hs Hw. unfold suspended, ts_flags, ts_rip, ts_rsp, load64, load32, in_state in *.
  destruct st; rewrite !(load_ext _ m m') by (intros x Hx; simpl in Hx; (apply Hs; lia) || (apply Hw; lia)); done.
Qed.

Lemma suspended_frame m m' t u st :
  t ∈ tasks -> u ∈ tasks -> u <> t -> on_stack u st -> changes (fun x => may_write t x \/ in_state t x) m m' ->
  suspended resume m u st -> suspended resume m' u st.
Proof using Hlay.
  intros Ht Hu Hne Hon Hc. assert (forall x, owns u x -> load8 m' x = load8 m x) as Hk.
  { intros x Hx. apply Hc. intros [Hw|Hw]; [by destruct (Hw u Hu Hx)|]. apply Hne. eapply (lay_apart Hlay); [done|done|done|by left]. }
  apply suspended_ext; [intros x Hx; apply Hk; by left|]. destruct st; [done|done|]. intros x Hx. apply Hk. right. by apply Hon.
Qed.

(** Nobody writes a task state. *)
Lemma may_write_state t u x : u ∈ tasks -> may_write t x -> ~ in_state u x.
Proof using Hlay. intros Hu Hw Hx. destruct (Hw u Hu ltac:(by left)) as [-> Hs]. by eapply (lay_own Hlay). Qed.

(** What the last part of a switch, into the task [n] and with [lo .. hi) of the
    stack of [t], leaves of a task. *)
Lemma enter_keeps t n m m' lo hi u st :
  n ∈ tasks -> u ∈ tasks -> changes (fun x => n + 16 <= x < n + 20 \/ lo <= x < hi) m m' ->
  (forall x, lo <= x < hi -> may_write t x) -> Z.testbit (load32 m' (ts_flags n)) __TIF_NEW = false ->
  (u = n -> exists e sp, st = NewKernel e sp) -> on_stack u st ->
  match st with Suspended sp _ => u = t -> hi <= sp - 8 | _ => True end ->
  suspended resume m u st -> suspended resume m' u st.
Proof using Hlay.
  intros Hn Hu Hc Hw Hflag Hnew Hon Hword Hs. destruct (decide (u = n)) as [->|Hne].
  - destruct (Hnew eq_refl) as (e & sp & ->). destruct Hs as (_ & <- & <-). split; [done|].
    assert (forall x, n <= x < n + 16 -> load8 m' x = load8 m x) as Hk.
    { intros x Hx. apply Hc. intros [?|Hx']; [lia|]. apply (may_write_state t n x Hn (Hw x Hx')). unfold in_state. lia. }
    unfold load64, ts_rip, ts_rsp. split; apply load_ext; intros x Hx; apply Hk; simpl in Hx; lia.
  - assert (forall x, owns u x -> (u = t -> ~ (lo <= x < hi)) -> load8 m' x = load8 m x) as Hk.
    { intros x Hx Hx'. apply Hc. intros [Hx''|Hx''].
      - apply Hne. eapply (lay_apart Hlay); [done|done|done|]. left. unfold in_state. lia.
      - destruct (Hw x Hx'' u Hu Hx) as [-> _]. by apply Hx'. }
    revert Hs. apply suspended_ext.
    + intros x Hx. apply Hk; [by left|]. intros -> Hx'. by apply (may_write_state t t x Hu (Hw x Hx')).
    + destruct st as [| |sp bp]; [done|done|]. intros x Hx. apply Hk; [right; by apply Hon|]. intros He. specialize (Hword He). lia.
Qed.

(** What is saved before. *)
Definition saved (s : sched V W) (k : machine) : machine :=
  let k := pushq (reg REG_RBP k) k in
  match CURRENT s with
  | Some _ =>
      let k := set_memory (store64 (memory k) (ts_rip (running s)) (s32 resume)) k in
      set_memory (store64 (memory k) (ts_rsp (running s)) (rsp (regs k))) k
  | None => k
  end.

Lemma perform_saved s n k : perform_one resume (switch_from s n) k = enter n (saved s k).
Proof. unfold switch_from, saved. by destruct (CURRENT s). Qed.

Lemma saved_spec s k : wf k -> room s k -> running s ∈ tasks ->
  (CURRENT s <> None -> Z.testbit (load32 (memory k) (ts_flags (running s))) __TIF_NEW = false) ->
  let k' := saved s k in
  wf k' /\ rsp (regs k') = rsp (regs k) - 8 /\ cs (regs k') = cs (regs k) /\ ss (regs k') = ss (regs k) /\
  changes (fun x => may_write (running s) x \/ (CURRENT s <> None /\ in_state (running s) x)) (memory k) (memory k') /\
  (CURRENT s <> None -> suspended resume (memory k') (running s) (Suspended (rsp (regs k)) (u64 (reg REG_RBP k)))).
Proof using Hlay.
  intros Hk (Hsp & Hroom & Hown) Ht Hflag. destruct k as [[g ip c fl sp ss0] d e cr m]. cbn [regs rsp memory cs ss] in *.
  unfold saved. cbv zeta. rewrite pushq_parts. set (bp := reg REG_RBP _).
  assert (changes (may_write (running s)) m (store64 m (sp - 8) bp)) as C1.
  { unfold store64. apply changes_store. intros x Hx. simpl in Hx. apply Hroom. lia. }
  destruct (CURRENT s) as [p|] eqn:Hc; cbn [regs rsp memory cs ss].
  2: { split_and!; [done|done|done|done| |done]. eapply changes_mono, C1. auto. }
  cbn [memory regs rsp set_memory cs ss]. split_and!; [done|done|done|done| |].
  - eapply changes_trans; [eapply changes_mono, C1; auto|]. unfold store64.
    eapply changes_trans; (apply changes_store; intros x Hx; right; split; [done|]; unfold in_state, ts_rip, ts_rsp in *; simpl in Hx; lia).
  - intros _. specialize (Hown ltac:(done)). specialize (Hflag ltac:(done)).
    assert (sp <= running s \/ running s + 24 <= sp - 8) as Hd.
    { assert (forall x, sp - 8 <= x < sp -> ~ in_state (running s) x) as Hx by (intros x Hx Hs; by apply (lay_own Hlay _ _ Ht Hs), Hown).
      pose proof (Hx (sp - 8) ltac:(lia)). pose proof (Hx (sp - 1) ltac:(lia)). pose proof (Hx (running s)).
      unfold in_state in *. lia. }
    unfold suspended, ts_flags, ts_rip, ts_rsp in *. split_and!.
    + mem_simpl. done.
    + mem_simpl. apply (lay_label Hlay).
    + mem_simpl. apply Z.mod_small. simpl. lia.
    + mem_simpl. reflexivity.
Qed.

(** A status of a task that has never left its task state. *)
Definition fresh_kernel (st : status) : Prop := exists e sp, st = NewKernel e sp.

Lemma suspended_saved s k u st : wf k -> room s k -> running s ∈ tasks -> u ∈ tasks ->
  (CURRENT s <> None -> Z.testbit (load32 (memory k) (ts_flags (running s))) __TIF_NEW = false) ->
  (u = running s -> CURRENT s = None /\ fresh_kernel st) -> on_stack u st ->
  suspended resume (memory k) u st -> suspended resume (memory (saved s k)) u st.
Proof using Hlay.
  intros Hk Hroom Ht Hu Hflag Hown Hon Hs. destruct (saved_spec s k Hk Hroom Ht Hflag) as (_ & _ & _ & _ & Hc & _).
  destruct (decide (u = running s)) as [->|Hne].
  - destruct (Hown eq_refl) as [Hcur (e & sp & ->)]. revert Hs. apply suspended_ext; [|done]. intros x Hx. apply Hc. intros [Hw|[? _]]; [|done].
    by apply (may_write_state _ _ _ Ht Hw).
  - apply (suspended_frame (memory k) _ (running s)); try done. eapply changes_mono, Hc. intros x [?|[_ ?]]; auto.
Qed.

Lemma switch_spec s n st k : wf k -> room s k -> running s ∈ tasks -> n ∈ tasks ->
  (CURRENT s <> None -> Z.testbit (load32 (memory k) (ts_flags (running s))) __TIF_NEW = false) ->
  (n = running s -> CURRENT s = None /\ fresh_kernel st) -> on_stack n st -> suspended resume (memory k) n st ->
  let k' := perform_one resume (switch_from s n) k in
  wf k' /\ goes_on resume st k k' /\ Z.testbit (load32 (memory k') (ts_flags n)) __TIF_NEW = false /\
  (forall u st', u ∈ tasks -> (u = running s -> CURRENT s = None /\ fresh_kernel st') -> (u = n -> fresh_kernel st') -> on_stack u st' ->
     suspended resume (memory k) u st' -> suspended resume (memory k') u st') /\
  (CURRENT s <> None -> suspended resume (memory k') (running s) (Suspended (rsp (regs k)) (u64 (reg REG_RBP k)))).
Proof using Hlay.
  intros Hk Hroom Ht Hn Hflag Hne Hon Hs k'. subst k'. rewrite perform_saved.
  pose proof (suspended_saved s k n st Hk Hroom Ht Hn Hflag Hne Hon Hs) as Hs1.
  destruct (saved_spec s k Hk Hroom Ht Hflag) as (Hk1 & Hsp & Hcs & Hss & _ & Hsave). pose proof Hroom as (_ & Hroom1 & Hroom2).
  destruct (enter_spec resume n st (saved s k) Hk1 Hs1) as (Hk2 & Hgo & Hf2 & Hc2).
  - rewrite Hsp. intros x Hx Hx'. apply (may_write_state (running s) n x Hn); [apply Hroom1; lia|done].
  - destruct st as [| |sp bp]; [done|done|]. intros x Hx Hx'. by apply (lay_own Hlay n x Hn Hx'), Hon.
  - rewrite Hsp in Hc2. split_and!; [done| |done| |].
    + unfold goes_on in *. destruct st; rewrite ?Hcs, ?Hss in Hgo; done.
    + intros u st' Hu Hut Hun Hon' Hs'. eapply (enter_keeps (running s) n); [done|done|exact Hc2|intros x Hx; apply Hroom1; lia|done|done|done| |].
      * destruct st' as [| |sp bp]; [done|done|]. intros He. by destruct (Hut He) as [_ (? & ? & ?)].
      * by apply suspended_saved.
    + intros Hcur. eapply (enter_keeps (running s) n); [done|done|exact Hc2|intros x Hx; apply Hroom1; lia|done| | | |by apply Hsave].
      * intros He. by destruct (Hne (eq_sym He)) as [? _].
      * intros x Hx. by apply Hroom2.
      * intros _. lia.
Qed.

(** *** The invariant *)

Lemma same_task (s s' : sched V W) p P' : same_tasks s s' -> procs s' !! p = Some P' ->
  exists P, procs s !! p = Some P /\ task_state P = task_state P'.
Proof.
  intros Hs Hp. specialize (Hs p). rewrite Hp in Hs. cbn in Hs. destruct (procs s !! p) as [P|]; [|done]. exists P. split; [done|]. by injection Hs.
Qed.

(** The process that is chosen was not the current one. *)
Lemma chosen_other (s s' : sched V W) n : sched_inv s -> abstract s' = q_step (abstract s) -> CURRENT s' = Some n -> CURRENT s <> Some n.
Proof.
  intros Hinv Ha Hn Hc. assert (CURRENT s' = cur (q_step (abstract s))) as Hcur by (by rewrite <- Ha). rewrite Hn in Hcur. pose proof (si_nodup s Hinv) as Hnd. unfold known in Hnd.
  unfold q_step, abstract in Hcur. cbn [cur] in Hcur. rewrite Hc in Hcur, Hnd. cbn [current_list app] in Hnd. apply NoDup_cons in Hnd as [Hnd _].
  unfold q_wait in Hcur. cbn [ready waiting cur] in Hcur. destruct (RUNQUEUE s) as [|r q]; [done|]. injection Hcur as ->. apply Hnd. by left.
Qed.

Lemma current_known (s : sched V W) c : sched_inv s -> CURRENT s = Some c -> is_Some (procs s !! c).
Proof. intros Hinv Hc. apply (si_procs _ Hinv). unfold known. rewrite Hc. by left. Qed.

Section Kept.
Context (s : sched V W) (k : machine) (st : gmap Z status).
Context (Hinv : sys_inv (MkSystem s k st)).

Lemma running_task : running s ∈ tasks /\ (CURRENT s <> None -> running s <> idle_task) /\
  (CURRENT s <> None -> Z.testbit (load32 (memory k) (ts_flags (running s))) __TIF_NEW = false) /\
  (forall p P, procs s !! p = Some P -> task_state P = running s -> CURRENT s = Some p).
Proof using Hinv Hlay.
  unfold running. destruct (CURRENT s) as [c|] eqn:Hc.
  - destruct (current_known s c (inv_sched _ Hinv) Hc) as [P HP]. rewrite HP.
    destruct (inv_tasks _ Hinv c P HP) as [Hin Hne]. split_and!; [done|done| |].
    + intros _. exact (inv_running _ Hinv c P Hc HP).
    + intros p Q HQ He. f_equal. exact (inv_inj _ Hinv c p P Q HP HQ (eq_sym He)).
  - split_and!; [exact (lay_idle Hlay)|done|done|]. intros p P HP He. by destruct (inv_tasks _ Hinv p P HP).
Qed.

(** The invariant after a switch to the task [n] with the status [stn]. *)
Lemma switch_keeps s' n stn map : room s k -> sched_inv s' -> world_ok (world s') -> same_tasks s s' -> n = running s' -> n ∈ tasks ->
  (CURRENT s' = None -> fresh_kernel stn) -> (forall c, CURRENT s' = Some c -> CURRENT s <> Some c) -> on_stack n stn ->
  st !! n = Some stn -> suspended resume (memory k) n stn ->
  let k1 := MkMachine (regs k) (ds k) (es k) map (memory k) in
  let k' := perform_one resume (switch_from s n) k1 in
  leave s k st !! n = Some stn /\ goes_on resume stn k k' /\ sys_inv (MkSystem s' k' (leave s k st)).
Proof using Hinv Hlay.
  intros Hroom Hs' Hw' Hsame Hn Hnin Hfresh Hother Hon Hst Hsus k1 k'.
  destruct running_task as (Ht & Hidle & Hflag & Honly).
  assert (forall c C, CURRENT s' = Some c -> procs s' !! c = Some C -> n = task_state C) as Hcur.
  { intros c C Hc HC. rewrite Hn. unfold running. by rewrite Hc, HC. }
  assert (CURRENT s' <> None -> exists c P, CURRENT s' = Some c /\ procs s !! c = Some P /\ task_state P = n) as Hnext.
  { destruct (CURRENT s') as [c|] eqn:Hc; [|done]. intros _.
    destruct (current_known s' c Hs' Hc) as [C HC].
    destruct (same_task s s' c C Hsame HC) as (P & HP & HPC). exists c, P. rewrite (Hcur c C eq_refl HC). done. }
  assert (n = running s -> CURRENT s = None /\ fresh_kernel stn) as Hnt.
  { intros He. destruct (CURRENT s') as [c|] eqn:Hc.
    - destruct (Hnext ltac:(done)) as (c' & P & Hc' & HP & HPn). injection Hc' as <-.
      destruct (Hother c eq_refl). apply (Honly c P HP). congruence.
    - split; [|by apply Hfresh]. destruct (CURRENT s) as [p|]; [|done]. destruct (Hidle ltac:(done)). rewrite <- He, Hn. unfold running. by rewrite Hc. }
  destruct (switch_spec s n stn k1 (inv_wf _ Hinv) Hroom Ht Hnin Hflag Hnt Hon Hsus) as (Hk' & Hgo & Hfl & Hkeep & Hsave). fold k' in Hk', Hgo, Hfl, Hkeep, Hsave.
  assert (forall u, u <> running s \/ CURRENT s = None -> leave s k st !! u = st !! u) as Hleave.
  { intros u Hu. unfold leave. destruct (CURRENT s); [|done]. destruct Hu as [Hu|?]; [|done]. by rewrite lookup_insert_ne. }
  split_and!; [| |split; cbn [sys_sched sys_machine sys_status]].
  - rewrite Hleave; [done|]. destruct (decide (n = running s)) as [He|He]; [right; by apply Hnt|by left].
  - done.
  - done.
  - done.
  - done.
  - intros p P HP. destruct (same_task s s' p P Hsame HP) as (P0 & HP0 & <-). by apply (inv_tasks _ Hinv p).
  - intros p q P Q HP HQ He. destruct (same_task s s' p P Hsame HP) as (P0 & HP0 & E1). destruct (same_task s s' q Q Hsame HQ) as (Q0 & HQ0 & E2).
    apply (inv_inj _ Hinv p q P0 Q0 HP0 HQ0). congruence.
  - destruct (inv_idle _ Hinv) as (e & sp & Hi & His). exists e, sp. cbn [sys_status sys_machine] in *.
    assert (idle_task = running s -> CURRENT s = None) as Hr by (intros He; destruct (CURRENT s); [by destruct (Hidle ltac:(done))|done]).
    split; [rewrite Hleave; [done|]; destruct (decide (idle_task = running s)); auto|].
    apply (Hkeep idle_task); [exact (lay_idle Hlay)|intros He; split; [auto|by exists e, sp]|by exists e, sp|done|done].
  - intros p P Hc HP. by rewrite <- (Hcur p P Hc HP).
  - intros p P Hc HP. destruct (same_task s s' p P Hsame HP) as (P0 & HP0 & <-). destruct (decide (CURRENT s = Some p)) as [Hp|Hp].
    + assert (running s = task_state P0) as Hr by (unfold running; by rewrite Hp, HP0). rewrite <- Hr. eexists. split_and!; [|apply Hsave; congruence|].
      * unfold leave. rewrite Hp. apply lookup_insert_eq.
      * exact (proj2 (proj2 Hroom) ltac:(congruence)).
    + destruct (inv_status _ Hinv p P0 Hp HP0) as (stp & Hsp & Hsusp & Honp). cbn [sys_status sys_machine] in *. exists stp.
      assert (task_state P0 <> running s) as Hne by (intros He; by apply Hp, (Honly p P0)).
      assert (task_state P0 <> n) as Hnn.
      { intros He. destruct (CURRENT s') as [c|] eqn:Hcs; [|].
        - destruct (Hnext ltac:(done)) as (c' & C & Hc' & HC & HCn). injection Hc' as <-. apply Hc. f_equal. apply (inv_inj _ Hinv c p C P0 HC HP0). congruence.
        - destruct (inv_tasks _ Hinv p P0 HP0) as [_ Hni]. apply Hni. rewrite He, Hn. unfold running. by rewrite Hcs. }
      split_and!; [rewrite Hleave; auto| |done]. apply (Hkeep (task_state P0)); try done. by destruct (inv_tasks _ Hinv p P0 HP0).
Qed.
End Kept.

(** A switch always succeeds, keeps the invariant, and goes on with the chosen task
    as it was left. *)
Lemma sys_switch s k st : sys_inv (MkSystem s k st) -> room s k ->
  exists s' acts stn, kernel_step mmu_map process_io idle_task s = Ok (s', acts) /\
    leave s k st !! running s' = Some stn /\ goes_on resume stn k (perform resume acts k) /\
    sys_inv (MkSystem s' (perform resume acts k) (leave s k st)).
Proof using Hlay.
  intros Hinv Hroom. destruct (kernel_step_spec mmu_map process_io idle_task s (inv_sched _ Hinv) (inv_world _ Hinv))
    as (s' & acts & Hs & Hs' & Hw' & Hsame & Ha). exists s', acts.
  destruct (kernel_step_actions s s' acts (inv_sched _ Hinv) Hs) as [[Hc ->]|(n & N & Hc & HN & Hacts)].
  - destruct (inv_idle _ Hinv) as (e & sp & Hi & His). exists (NewKernel e sp). split; [done|].
    assert (running s' = idle_task) as Hr by (unfold running; by rewrite Hc). rewrite Hr.
    destruct k as [r d e' cr m]. apply (switch_keeps s (MkMachine r d e' cr m) st Hinv s' idle_task (NewKernel e sp) cr); try done.
    + exact (lay_idle Hlay).
    + intros _. by exists e, sp.
    + by rewrite Hc.
  - assert (running s' = task_state N) as Hr by (unfold running; by rewrite Hc, HN).
    destruct (same_task s s' n N Hsame HN) as (P & HP & HPN). pose proof (chosen_other s s' n (inv_sched _ Hinv) Ha Hc) as Hne.
    destruct (inv_status _ Hinv n P Hne HP) as (stn & Hst & Hsus & Hon). exists stn. split; [done|].
    destruct (inv_tasks _ Hinv n P HP) as [Hin _]. rewrite HPN, <- Hr in Hst, Hsus, Hon, Hin.
    destruct Hacts as [[map ->]|[_ He]].
    + rewrite <- Hr. apply (switch_keeps s k st Hinv s' (running s') stn map); try done.
      * by rewrite Hc.
      * intros c Hc'. by rewrite Hc in Hc'; injection Hc' as <-.
    + destruct Hne. destruct (running_task s k st Hinv) as (_ & _ & _ & Honly). apply (Honly n P HP). congruence.
Qed.

Lemma work_keeps s k st k' : sys_inv (MkSystem s k st) -> wf k' -> changes (may_write (running s)) (memory k) (memory k') ->
  sys_inv (MkSystem s k' st).
Proof using Hlay.
  intros Hinv Hk' Hc. destruct (running_task s k st Hinv) as (Ht & Hidle & Hflag & Honly).
  assert (forall u x, u ∈ tasks -> in_state u x -> load8 (memory k') x = load8 (memory k) x) as Hstate.
  { intros u x Hu Hx. apply Hc. intros Hw. by apply (may_write_state _ _ _ Hu Hw). }
  pose proof Hinv as [Hs Hw _ Htasks Hinj (e & sp & Hi & His) Hrun Hst]. cbn [sys_sched sys_machine sys_status] in *.
  split; cbn [sys_sched sys_machine sys_status]; try done.
  - exists e, sp. split; [done|]. revert His. apply suspended_ext; [|done]. intros x. apply (Hstate idle_task x (lay_idle Hlay)).
  - intros p P Hp HP. rewrite <- (Hrun p P Hp HP). f_equal. apply load_ext. intros x Hx. apply (Hstate (task_state P)); [by apply (Htasks p P)|].
    unfold ts_flags, in_state in *. simpl in Hx. lia.
  - intros p P Hp HP. destruct (Hst p P Hp HP) as (stp & Hsp & Hsus & Hon). exists stp. split_and!; [done| |done].
    apply (suspended_frame (memory k) _ (running s)); [done|by apply (Htasks p P)| |done| |done].
    + intros He. by apply Hp, (Honly p P).
    + eapply changes_mono, Hc. auto.
Qed.

Lemma spawn_keeps s k st p t v s' k' entry sp : sys_inv (MkSystem s k st) ->
  procs s !! p = None -> t ∈ tasks -> t <> idle_task -> (forall q Q, procs s !! q = Some Q -> task_state Q <> t) ->
  wf k' -> changes (owns t) (memory k) (memory k') -> suspended resume (memory k') t (NewUser entry sp) ->
  spawn p (Process_new t v) s = Ok s' -> sys_inv (MkSystem s' k' (<[t := NewUser entry sp]> st)).
Proof using Hlay mmu_map.
  intros Hinv Hp Ht Hti Hfree Hk' Hc Hnew Hs. pose proof Hinv as [Hsi Hw _ Htasks Hinj (e & sp0 & Hi & His) Hrun Hst].
  cbn [sys_sched sys_machine sys_status] in *.
  destruct (spawn_spec mmu_map process_io idle_task s p t v Hsi Hp) as (s2 & E2 & Hinv2 & Ha). rewrite Hs in E2. injection E2 as <-.
  assert (CURRENT s' = CURRENT s) as Hcur by (by injection Ha).
  assert (procs s' = <[p := Process_new t v]> (procs s) /\ world s' = world s) as [Hps Hws].
  { unfold spawn, enqueue in Hs. rewrite (deref_some _ p (Process_new t v)), Ok_bind in Hs by apply lookup_insert_eq.
    unfold push_run in Hs. destruct (linked _ _); [done|]. injection Hs as <-. cbn [procs update world]. by rewrite insert_insert_eq. }
  assert (forall u stu, u ∈ tasks -> u <> t -> on_stack u stu -> suspended resume (memory k) u stu -> suspended resume (memory k') u stu) as Hkeep.
  { intros u stu Hu Hut Hon. assert (forall x, owns u x -> load8 (memory k') x = load8 (memory k) x) as Hx.
    { intros x Hx. apply Hc. intros Hx'. by apply Hut, (lay_apart Hlay u t x). }
    apply suspended_ext; [intros x ?; apply Hx; by left|]. destruct stu; [done|done|]. intros x ?. apply Hx. right. by apply Hon. }
  assert (forall q Q, procs s' !! q = Some Q -> (q = p /\ task_state Q = t) \/ (q <> p /\ procs s !! q = Some Q)) as Hq.
  { intros q Q. rewrite Hps. destruct (decide (p = q)) as [<-|Hne]; [rewrite lookup_insert_eq; intros [= <-]; by left|rewrite lookup_insert_ne by done; auto]. }
  split; cbn [sys_sched sys_machine sys_status]; [done|by rewrite Hws|done| | | | |].
  - intros q Q HQ. destruct (Hq q Q HQ) as [[-> ->]|[_ HQ']]; [done|by apply (Htasks q)].
  - intros q1 q2 Q1 Q2 H1 H2 He. destruct (Hq q1 Q1 H1) as [[-> E1]|[_ H1']], (Hq q2 Q2 H2) as [[-> E2]|[_ H2']]; [done| | |by apply (Hinj q1 q2 Q1 Q2)].
    + by destruct (Hfree q2 Q2 H2'); congruence.
    + by destruct (Hfree q1 Q1 H1'); congruence.
  - exists e, sp0. rewrite lookup_insert_ne by done. split; [done|]. apply (Hkeep idle_task); [exact (lay_idle Hlay)|done|done|done].
  - intros q Q Hc' HQ. rewrite Hcur in Hc'. destruct (Hq q Q HQ) as [[-> _]|[_ HQ']].
    + destruct (current_known s p Hsi Hc') as [? Hx]. congruence.
    + rewrite <- (Hrun q Q Hc' HQ'). f_equal. apply load_ext. intros x Hx. apply Hc. intros Hx'. apply (Hfree q Q HQ').
      apply (lay_apart Hlay _ _ x); [by apply (Htasks q Q)|done| |done]. left. unfold ts_flags, in_state in *. simpl in Hx. lia.
  - intros q Q Hc' HQ. rewrite Hcur in Hc'. destruct (Hq q Q HQ) as [[-> ->]|[_ HQ']].
    + exists (NewUser entry sp). rewrite lookup_insert_eq. done.
    + destruct (Hst q Q Hc' HQ') as (stq & H1 & H2 & H3). exists stq. pose proof (Hfree q Q HQ'). rewrite lookup_insert_ne by done.
      split_and!; [done| |done]. apply Hkeep; try done. by apply (Htasks q Q).
Qed.

Lemma sys_step_keeps y y' : sys_step y y' -> sys_inv y -> sys_inv y'.
Proof using Hlay.
  intros [s k st k' Hk' Hc|s k st s' acts Hroom Hs|s k st p t v s' k' entry sp Hp Ht Hti Hfree Hk' Hc Hnew Hs] Hinv.
  - by apply (work_keeps s k).
  - destruct (sys_switch s k st Hinv Hroom) as (s2 & acts2 & stn & E & _ & _ & Hinv'). rewrite Hs in E. by injection E as <- <-.
  - by apply (spawn_keeps s k st p t v).
Qed.

End System.


(** ** Two processes and the idle task *)

Module SwitchExamples.
Definition ex_resume : Z := 0x8000.
Definition ex_tasks : list Z := [0x1000; 0x2000; 0x3000].
Definition ex_stack (t : Z) : Z * Z :=
  if t =? 0x1000 then (0x10000, 0x11000) else if t =? 0x2000 then (0x11000, 0x12000) else (0x13000, 0x14000).

(** The first process runs, the second is new. *)
Definition ex_procs : gmap Z (Process Z) := {[1 := MkProcess RUNNING 0x1000 0 7; 2 := MkProcess RUNNABLE 0x2000 0 7]}.
Definition ex_sched0 : sched Z unit := MkSched (Some 1) [2] [] ex_procs tt.
Definition ex_memory : mem :=
  let m := store64 (store64 ∅ (ts_rsp 0x2000) 0x12000) (ts_rip 0x2000) 0x400000 in
  let m := store32 m (ts_flags 0x2000) 1 in
  store64 (store64 m (ts_rsp 0x3000) 0x14000) (ts_rip 0x3000) 0x5000.
Definition ex_machine0 : machine :=
  MkMachine (MkCpu [0; 0; 0; 0; 0x10f00; 0; 0; 0; 0; 0; 0; 0; 0; 0; 0] 0 0x08 0 0x10e00 0x10) 0 0 0 ex_memory.
Definition ex_status0 : gmap Z status := {[0x2000 := NewUser 0x400000 0x12000; 0x3000 := NewKernel 0x5000 0x14000]}.

(** A call of the scheduler. *)
Definition ex_step (s : sched Z unit) : sched Z unit * list action :=
  match kernel_step (fun map => map) no_devices 0x3000 s with
  | Ok r => r
  | Fault _ => (s, [])
  end.

(** The first process waits; the second one enters the kernel and waits. *)
Definition ex_sched1 : sched Z unit := fst (ex_step ex_sched0).
Definition ex_entered : machine := perform ex_resume (snd (ex_step ex_sched0)) ex_machine0.
Definition ex_machine1 : machine := set_rsp 0x11f00 ex_entered.
Definition ex_status1 : gmap Z status := leave 0x3000 ex_sched0 ex_machine0 ex_status0.
Definition ex_sched2 : sched Z unit := fst (ex_step ex_sched1).
Definition ex_machine2 : machine := perform ex_resume (snd (ex_step ex_sched1)) ex_machine1.
Definition ex_status2 : gmap Z status := leave 0x3000 ex_sched1 ex_machine1 ex_status1.

Lemma ex_layout : layout 0x3000 ex_resume ex_tasks ex_stack.
Proof.
  split.
  - vm_compute. reflexivity.
  - unfold ex_tasks. rewrite !elem_of_cons. auto.
  - unfold ex_tasks, owns, in_state, in_stack. intros t u x. rewrite !elem_of_cons, !elem_of_nil.
    intros [->|[->|[->|[]]]] [->|[->|[->|[]]]]; cbn; lia.
  - unfold ex_tasks, in_state, in_stack. intros t x. rewrite !elem_of_cons, !elem_of_nil. intros [->|[->|[->|[]]]]; cbn; lia.
Qed.

Lemma ex_procs_known p P : ex_procs !! p = Some P -> (p = 1 /\ task_state P = 0x1000) \/ (p = 2 /\ task_state P = 0x2000).
Proof.
  unfold ex_procs. intros [[<- <-]|[_ [<- <-]%lookup_singleton_Some]]%lookup_insert_Some; auto.
Qed.

Lemma ex_inv : sys_inv no_devices 0x3000 ex_resume ex_tasks ex_stack (MkSystem ex_sched0 ex_machine0 ex_status0).
Proof.
  split; cbn [sys_sched sys_machine sys_status].
  - split.
    + apply (bool_decide_unpack _). reflexivity.
    + intros p. unfold known, ex_sched0, ex_procs. cbn [CURRENT RUNQUEUE WAITQUEUE procs current_list app].
      rewrite lookup_insert_is_Some, lookup_singleton_is_Some, !elem_of_cons, elem_of_nil. destruct (decide (1 = p)); intuition congruence.
    + apply Forall_singleton. eexists. split; reflexivity.
    + apply Forall_singleton. eexists. split; reflexivity.
    + apply Forall_nil. done.
  - exact I.
  - reflexivity.
  - intros p P HP. unfold ex_tasks. rewrite !elem_of_cons. destruct (ex_procs_known p P HP) as [[_ ->]|[_ ->]]; split; (auto || done).
  - intros p q P Q HP HQ He. destruct (ex_procs_known p P HP) as [[-> E1]|[-> E1]], (ex_procs_known q Q HQ) as [[-> E2]|[-> E2]]; congruence.
  - exists 0x5000, 0x14000. split; [reflexivity|]. split_and!; vm_compute; reflexivity.
  - intros p P Hp HP. destruct (ex_procs_known p P HP) as [[_ ->]|[-> _]]; [vm_compute; reflexivity|discriminate].
  - intros p P Hp HP. destruct (ex_procs_known p P HP) as [[-> _]|[_ ->]]; [by destruct Hp|].
    exists (NewUser 0x400000 0x12000). split; [reflexivity|]. split; [split_and!; vm_compute; reflexivity|exact I].
Qed.

Lemma ex_room (s : sched Z unit) k t : running 0x3000 s = t -> t ∈ ex_tasks ->
  fst (ex_stack t) + 48 <= rsp (regs k) <= snd (ex_stack t) -> room 0x3000 ex_tasks ex_stack s k.
Proof.
  intros Hr Ht Hsp. unfold room. rewrite Hr. split; [|split; [|intros _ x Hx; unfold in_stack; lia]].
  - unfold ex_tasks in Ht. rewrite !elem_of_cons, !elem_of_nil in Ht. destruct Ht as [->|[->|[->|[]]]]; cbn in Hsp; lia.
  - intros x Hx u Hu Ho. assert (in_stack ex_stack t x) as Hx' by (unfold in_stack; lia).
    assert (u = t) as -> by (apply (lay_apart 0x3000 ex_resume ex_tasks ex_stack ex_layout u t x); [done|done|done|by right]). done.
Qed.

(** A call of the scheduler that succeeds is a step. *)
Lemma ex_switch (s : sched Z unit) k st t :
  match kernel_step (fun map => map) no_devices 0x3000 s with Ok _ => true | Fault _ => false end = true ->
  running 0x3000 s = t -> t ∈ ex_tasks -> fst (ex_stack t) + 48 <= rsp (regs k) <= snd (ex_stack t) ->
  sys_step (fun map => map) no_devices 0x3000 ex_resume ex_tasks ex_stack (MkSystem s k st)
    (MkSystem (fst (ex_step s)) (perform ex_resume (snd (ex_step s)) k) (leave 0x3000 s k st)).
Proof.
  intros Hs Hr Ht Hsp. apply step_switch; [by apply (ex_room _ _ t)|]. unfold ex_step.
  by destruct (kernel_step _ _ _ s) as [[s' acts]|].
Qed.

(** The task that runs takes from its stack. *)
Lemma ex_work (s : sched Z unit) k st v : wf k ->
  sys_step (fun map => map) no_devices 0x3000 ex_resume ex_tasks ex_stack (MkSystem s k st) (MkSystem s (set_rsp v k) st).
Proof. intros Hk. apply step_work; [done|]. unfold set_rsp. cbn [memory]. apply changes_refl. Qed.

Lemma ex_reaches : rtc (sys_step (fun map => map) no_devices 0x3000 ex_resume ex_tasks ex_stack)
  (MkSystem ex_sched0 ex_machine0 ex_status0) (MkSystem ex_sched2 ex_machine2 ex_status2).
Proof.
  apply (rtc_l _ _ (MkSystem ex_sched1 ex_entered ex_status1)).
  { apply (ex_switch ex_sched0 ex_machine0 ex_status0 0x1000); [vm_compute; reflexivity|vm_compute; reflexivity| |vm_compute; split; discriminate].
    unfold ex_tasks. rewrite !elem_of_cons. auto. }
  apply (rtc_l _ _ (MkSystem ex_sched1 ex_machine1 ex_status1)).
  { apply (ex_work ex_sched1 ex_entered ex_status1 0x11f00). vm_compute. reflexivity. }
  apply rtc_once, (ex_switch ex_sched1 ex_machine1 ex_status1 0x2000); [vm_compute; reflexivity|vm_compute; reflexivity| |vm_compute; split; discriminate].
  unfold ex_tasks. rewrite !elem_of_cons. auto.
Qed.

End SwitchExamples.
