(* ===== verification/Boot.v ===== *)
(** * arch/x86_64/platform.c, arch/x86_64/acpi.c and init_mmu_map of setup.c

    The start of the kernel on x86: the information of the boot loader is read tag
    by tag, the memory that it lists goes to the page allocator, and a page table
    with all of it replaces that of the boot code.  The tables of ACPI are only
    counted. *)

From Stdlib Require Import Ascii Strings.String.
From S2P Require Import Prelude Align Mem Printf PageAlloc Kmem Mmu.
#[local] Open Scope Z_scope.

(** ** Data *)

Definition BOOT_LOADER_NAME_TAG : Z := 2.
Definition MODULES_TAG : Z := 3.
Definition MEMORY_MAP_TAG : Z := 6.
Definition ACPI_V1_RSDP_TAG : Z := 14.

(** [struct header], [struct tag], [struct module], [struct memory_map_entry] *)
Definition header_total_size (h : Z) : Z := h.
Definition sizeof_header : Z := 8.
Definition tag_tag (t : Z) : Z := t.
Definition tag_size (t : Z) : Z := t + 4.
Definition sizeof_tag : Z := 8.
Definition mod_start (md : Z) : Z := md.
Definition mod_end (md : Z) : Z := md + 4.
Definition mod_string (md : Z) : Z := md + 8.
Definition sizeof_memory_map : Z := 8.
Definition entry_base_addr (e : Z) : Z := e.
Definition entry_length (e : Z) : Z := e + 8.
Definition entry_type (e : Z) : Z := e + 16.
Definition sizeof_memory_map_entry : Z := 24.

Definition MEMORY_TYPE_AVAILABLE : Z := 1.

(** [memory_types]: nothing is at the index 0. *)
Definition memory_types : list (option (list Z)) :=
  [None; Some (cstr "available"); Some (cstr "reserved"); Some (cstr "ACPI reclaimable"); Some (cstr "NVS");
   Some (cstr "bad RAM")].

Definition MAX_MEM_REGIONS : Z := 8.

(** The page allocator, the memory, the variables that are set, and what is
    printed. *)
Record boot_state (T : Type) := MkBoot {
  b_arenas : arenas T;
  b_mem : mem;
  kernel_vm_end : Z;
  mem_regions : list (Z * Z);
  initrd_start : Z;
  initrd_end : Z;
  printed : list printf_call
}.
Arguments MkBoot {T}.
Arguments b_arenas {T}.
Arguments b_mem {T}.
Arguments kernel_vm_end {T}.
Arguments mem_regions {T}.
Arguments initrd_start {T}.
Arguments initrd_end {T}.
Arguments printed {T}.

(** A string in memory as the argument of [printf]: as many bytes as reach a
    terminator. *)
Definition string_arg (m : mem) (s : Z) : va_arg := VStr (Some (load_bytes m s (S (size m)))).

(** ** acpi.c *)

Definition ACPI_RSDP_SIG : list Z := bytes_of "RSD PTR ".
Definition ACPI_PROCESSOR_LOCAL_APIC : Z := 0.
Definition ACPI_IO_APIC : Z := 1.
Definition ACPI_INT_SOURCE_OVERRIDE : Z := 2.
Definition ACPI_LOCAL_APIC_NMI : Z := 4.

Definition rsdt_address (rsdp : Z) : Z := rsdp + 16.
Definition sdt_length (h : Z) : Z := h + 4.
Definition sizeof_acpi_sdt_header : Z := 36.
Definition sizeof_acpi_madt_header : Z := 44.

Definition acpi_read_u8 (m : mem) (ptr : Z) : Z := load8 m ptr.
Definition acpi_read_u32 (m : mem) (ptr : Z) : Z := load32 m ptr.

(** [!memcmp(p, s, n)] *)
Definition same_bytes (m : mem) (p : Z) (s : list Z) : bool := bool_decide (load_bytes m p (length s) = s).

Fixpoint madt_loop (fuel : nat) (m : mem) (raw_madt madt_len off nr_cpus : Z) : outcome (list printf_call) :=
  if off <? madt_len then
    match fuel with
    | O => Fault OutOfFuel
    | S fuel =>
        let type := acpi_read_u8 m (raw_madt + off) in
        let len := acpi_read_u8 m (raw_madt + off + 1) in
        if type =? ACPI_PROCESSOR_LOCAL_APIC then madt_loop fuel m raw_madt madt_len (off + len) (nr_cpus + 1)
        else if (type =? ACPI_IO_APIC) || (type =? ACPI_INT_SOURCE_OVERRIDE) || (type =? ACPI_LOCAL_APIC_NMI)
        then madt_loop fuel m raw_madt madt_len (off + len) nr_cpus
        else Ok [(line_format "warning: unknown ACPI MADT entry: %d", [VInt type])]
    end
  else Ok [(line_format "Found %d CPUs via ACPI MADT", [VInt nr_cpus])].

(** [fuel] bounds the entries of the table. *)
Definition acpi_parse_madt (fuel : nat) (m : mem) (raw_madt : Z) : outcome (list printf_call) :=
  if negb (same_bytes m raw_madt (bytes_of "APIC")) then Ok [(line_format "ACPI MADT signature mismatch", [])]
  else madt_loop fuel m raw_madt (load32 m (sdt_length raw_madt)) sizeof_acpi_madt_header 0.

(** [n] bounds the tables, of four bytes each. *)
Fixpoint rsdt_loop (fuel n : nat) (m : mem) (rsdt_addr off : Z) : outcome (list printf_call) :=
  if off <? load32 m (sdt_length rsdt_addr) then
    match n with
    | O => Fault OutOfFuel
    | S n =>
        let sdt_header := acpi_read_u32 m (rsdt_addr + off) in
        out ← (if same_bytes m sdt_header (bytes_of "APIC") then acpi_parse_madt fuel m sdt_header else Ok []);
        rest ← rsdt_loop fuel n m rsdt_addr (off + 4);
        Ok (out ++ rest)
    end
  else Ok [].

Definition acpi_parse_config (fuel : nat) (m : mem) (rsdp : Z) : outcome (list printf_call) :=
  if negb (same_bytes m rsdp ACPI_RSDP_SIG) then Ok [(line_format "ACPI RSDP signature mismatch", [])]
  else
    let rsdt_addr := load32 m (rsdt_address rsdp) in
    if negb (same_bytes m rsdt_addr (bytes_of "RSDT")) then Ok [(line_format "ACPI RSDT signature mismatch", [])]
    else rsdt_loop fuel (Z.to_nat (load32 m (sdt_length rsdt_addr))) m rsdt_addr sizeof_acpi_sdt_header.

(** ** platform.c *)

Section Platform.
Context {T : Type} `{SegmentTree T}.
(** The address of the linker's symbol, and the bound for the tables of ACPI. *)
Context (kernel_end : Z) (acpi_fuel : nat).

Definition print (calls : list printf_call) (b : boot_state T) : boot_state T :=
  MkBoot (b_arenas b) (b_mem b) (kernel_vm_end b) (mem_regions b) (initrd_start b) (initrd_end b) (printed b ++ calls).

Definition parse_boot_loader_name (tag : Z) (b : boot_state T) : boot_state T :=
  print [(line_format "Boot loader: '%s'", [string_arg (b_mem b) (tag + sizeof_tag)])] b.

Definition parse_module (tag : Z) (b : boot_state T) : boot_state T :=
  let md := tag + sizeof_tag in
  let first := load32 (b_mem b) (mod_start md) in
  let last := load32 (b_mem b) (mod_end md) in
  let b := print [(line_format "Module: %08x-%08x %s", [VInt first; VInt last; string_arg (b_mem b) (mod_string md)])] b in
  MkBoot (b_arenas b) (b_mem b) (kernel_vm_end b) (mem_regions b) (paddr_to_ptr first) (paddr_to_ptr last) (printed b).

Definition add_span (base_addr length : Z) (b : boot_state T) : boot_state T :=
  let '(a, m) := memory_add_span base_addr length (b_arenas b) (b_mem b) in
  MkBoot a m (kernel_vm_end b) (mem_regions b) (initrd_start b) (initrd_end b) (printed b).

(** The part of an available area that becomes free memory. *)
Definition usable (base_addr length initrd_end : Z) : option (Z * Z) :=
  let base_addr := u64 (base_addr + KERNEL_VMA) in
  if u64 (base_addr + length) <? kernel_end then None
  else if u64 (base_addr + length) <? initrd_end then None
  else
    let '(base_addr, length) :=
      if base_addr <? kernel_end then (kernel_end, u64 (length - u64 (kernel_end - base_addr))) else (base_addr, length) in
    let '(base_addr, length) :=
      if base_addr <? initrd_end then (initrd_end, u64 (length - u64 (initrd_end - base_addr))) else (base_addr, length) in
    Some (align_up base_addr PAGE_SIZE_SMALL, align_down length PAGE_SIZE_SMALL).

(** One round of the loop of [parse_memory_map]. *)
Definition parse_entry (entry : Z) (b : boot_state T) : outcome (boot_state T) :=
  let m := b_mem b in
  let base_addr := load64 m (entry_base_addr entry) in
  let length := load64 m (entry_length entry) in
  let type := load32 m (entry_type entry) in
  let vaddr := align_up (u64 (base_addr + KERNEL_VMA)) PAGE_SIZE_SMALL in
  let vm_end := if kernel_vm_end b <? vaddr then vaddr else kernel_vm_end b in
  let memory_type := match memory_types !! Z.to_nat type with
                     | Some s => VStr s
                     | None => VStr (Some (cstr "unknown"))
                     end in
  let call :=
    if length <? 1024 * 1024
    then (line_format "  %016lx-%016lx %4ld KiB [%s]",
          [VInt base_addr; VInt (u64 (base_addr + length)); VInt (length / 1024); memory_type])
    else (line_format "  %016lx-%016lx %4ld MiB [%s]",
          [VInt base_addr; VInt (u64 (base_addr + length)); VInt (length / 1024 / 1024); memory_type]) in
  let b := MkBoot (b_arenas b) m vm_end (mem_regions b) (initrd_start b) (initrd_end b) (printed b ++ [call]) in
  if negb (type =? MEMORY_TYPE_AVAILABLE) then Ok b
  else if MAX_MEM_REGIONS <=? Z.of_nat (List.length (mem_regions b)) then Fault OutOfBounds
  else
    let b := MkBoot (b_arenas b) m (kernel_vm_end b) (mem_regions b ++ [(base_addr, align_down length PAGE_SIZE_SMALL)])
               (initrd_start b) (initrd_end b) (printed b) in
    match usable base_addr length (initrd_end b) with
    | None => Ok b
    | Some (base_addr, length) => Ok (add_span base_addr length b)
    end.

(** Every round advances by the size of an entry. *)
Fixpoint memory_map_loop (fuel : nat) (tag offset : Z) (b : boot_state T) : outcome (boot_state T) :=
  if offset <? load32 (b_mem b) (tag_size tag) then
    match fuel with
    | O => Fault OutOfFuel
    | S fuel =>
        b ← parse_entry (tag + offset) b;
        memory_map_loop fuel tag (offset + sizeof_memory_map_entry) b
    end
  else Ok b.

Definition parse_memory_map (fuel : nat) (tag : Z) (b : boot_state T) : outcome (boot_state T) :=
  memory_map_loop fuel tag (sizeof_tag + sizeof_memory_map) (print [(line_format "Memory map:", [])] b).

Definition parse_acpi_v1_rsdp (tag : Z) (b : boot_state T) : outcome (boot_state T) :=
  out ← acpi_parse_config acpi_fuel (b_mem b) (tag + sizeof_tag);
  Ok (print out b).

Definition parse_tag (fuel : nat) (tag : Z) (b : boot_state T) : outcome (boot_state T) :=
  let kind := load32 (b_mem b) (tag_tag tag) in
  if kind =? BOOT_LOADER_NAME_TAG then Ok (parse_boot_loader_name tag b)
  else if kind =? MODULES_TAG then Ok (parse_module tag b)
  else if kind =? MEMORY_MAP_TAG then parse_memory_map fuel tag b
  else if kind =? ACPI_V1_RSDP_TAG then parse_acpi_v1_rsdp tag b
  else Ok b.

Fixpoint tags_loop (fuel : nat) (data offset : Z) (b : boot_state T) : outcome (boot_state T) :=
  if offset <? load32 (b_mem b) (header_total_size data) then
    match fuel with
    | O => Fault OutOfFuel
    | S fuel' =>
        let tag := data + offset in
        if (tag =? 0) || (load32 (b_mem b) (tag_size tag) =? 0) then Ok b
        else
          b ← parse_tag fuel tag b;
          let offset := align_up (offset + load32 (b_mem b) (tag_size tag)) 8 in
          tags_loop fuel' data offset b
    end
  else Ok b.

(** Sizes are 32-bit numbers, which bounds the loops; [fuel] is a bound for the
    size of the information. *)
Definition parse_platform_config (fuel : nat) (boot_data : Z) (b : boot_state T) : outcome (boot_state T) :=
  tags_loop fuel boot_data sizeof_header b.

End Platform.

(** ** setup.c *)

Section Mmu.
Context {A : Type} `{PageAllocator A}.

Fixpoint map_regions (cr3 : Z) (l : list (Z * Z)) (a : A) (m : mem) : outcome (A * mem) :=
  match l with
  | [] => Ok (a, m)
  | (base, len) :: l =>
      '(err, a, m) ← mmu_map_range cr3 (u64 (base + KERNEL_VMA)) base len
                       (Z.lor (Z.lor MMU_PROT_READ MMU_PROT_WRITE) MMU_PROT_EXEC) 0 a m;
      if negb (err =? 0) then Fault Panic else map_regions cr3 l a m
  end.

(** The map that is loaded. *)
Definition init_mmu_map (regions : list (Z * Z)) (a : A) (m : mem) : outcome (Z * A * mem) :=
  '(page, a, m) ← page_alloc_small a m;
  if page =? 0 then Fault Panic
  else
    let m := memset m page 0 (Z.to_nat PAGE_SIZE_SMALL) in
    let cr3 := virt_to_phys page in
    '(a, m) ← map_regions cr3 regions a m;
    Ok (cr3, a, m).
End Mmu.
