(* ===== verification/BootProof.v ===== *)
(** * The memory that the boot loader lists becomes usable memory

    [parse_memory_map] gives the page allocator the available areas without the
    kernel and the initial ram disk, and [init_mmu_map] builds a page table in
    which all of this memory is at its place.  The second part of the file is about
    the tables of ACPI. *)

From Stdlib Require Import Ascii Strings.String.
From S2P Require Import Prelude Align Mem Printf FormatType PageAlloc PageAllocProof LibcString Kmem Mmu MmuProof MmuMap.
From S2P Require Import MmuTheorems Boot.
#[local] Open Scope Z_scope.

(** ** The memory map *)

Record area := Area { ar_base : Z; ar_len : Z; ar_type : Z }.

Definition available (e : area) : bool := ar_type e =? MEMORY_TYPE_AVAILABLE.

Fixpoint entries_at (m : mem) (p : Z) (l : list area) : Prop :=
  match l with
  | [] => True
  | e :: l =>
      load64 m (entry_base_addr p) = ar_base e /\ load64 m (entry_length p) = ar_len e /\
      load32 m (entry_type p) = ar_type e /\ entries_at m (p + sizeof_memory_map_entry) l
  end.

(** The tag of the memory map and the bytes that it takes. *)
Definition map_size (l : list area) : Z := 16 + 24 * Z.of_nat (length l).
Definition memory_map_at (m : mem) (tag : Z) (l : list area) : Prop :=
  load32 m (tag_size tag) = map_size l /\ entries_at m (tag + 16) l.

Lemma entries_at_frame m m' p l :
  (forall x, p <= x < p + 24 * Z.of_nat (length l) -> load8 m' x = load8 m x) -> entries_at m p l -> entries_at m' p l.
Proof.
  revert p. induction l as [|e l IH]; intros p Hm; [done |]. cbn [entries_at length] in *.
  intros (E1 & E2 & E3 & Hl). unfold load64, load32, entry_base_addr, entry_length, entry_type, sizeof_memory_map_entry in *.
  rewrite !(load_ext _ m m'); [| intros x Hx; apply Hm; simpl in Hx; lia ..].
  split_and!; [done .. |]. apply IH; [| done]. intros x Hx. apply Hm. lia.
Qed.

Lemma memory_map_frame m m' tag l :
  (forall x, tag <= x < tag + map_size l -> load8 m' x = load8 m x) -> memory_map_at m tag l -> memory_map_at m' tag l.
Proof.
  unfold memory_map_at, map_size. intros Hm [Hs He]. split.
  - rewrite <- Hs. unfold load32, tag_size. apply load_ext. intros x Hx. apply Hm. simpl in Hx. lia.
  - eapply entries_at_frame; [| done]. intros x Hx. apply Hm. lia.
Qed.

Section MemoryMap.
Context {T : Type} `{SegmentTree T} `{!SegmentTreeLaws T}.
Context (kernel_end initrd_end : Z).
Context (Hkernel : 0 < kernel_end <= 2 ^ 64 - 2 ^ 12) (Hinitrd : 0 <= initrd_end <= 2 ^ 64 - 2 ^ 12).

(** Where the free memory of an area starts and ends. *)
Definition area_start (e : area) : Z :=
  align_up (Z.max (Z.max (ar_base e + KERNEL_VMA) kernel_end) initrd_end) PAGE_SIZE_SMALL.
Definition area_end (e : area) : Z := ar_base e + ar_len e + KERNEL_VMA.

(** Available memory is made of whole pages below 2 GiB, less a large page.  What
    is left of it without the kernel has to reach a large page boundary. *)
Record area_ok (e : area) : Prop := {
  ao_base : 0 <= ar_base e /\ (PAGE_SIZE_SMALL | ar_base e);
  ao_len : 0 < ar_len e /\ (PAGE_SIZE_SMALL | ar_len e);
  ao_end : ar_base e + ar_len e + PAGE_SIZE_LARGE <= 2 ^ 31;
  ao_large : Z.max kernel_end initrd_end <= area_end e ->
             align_up (area_start e) PAGE_SIZE_LARGE <= align_down (area_end e) PAGE_SIZE_LARGE
}.

Lemma boot_area_bounds e : area_ok e -> 
  0 < ar_base e + KERNEL_VMA /\ ar_base e + KERNEL_VMA < area_end e /\ area_end e + PAGE_SIZE_LARGE <= 2 ^ 64.
Proof. intros [[Hb _] [Hl _] He _]. unfold area_end, KERNEL_VMA in *. lia. Qed.

Lemma area_end_page e : area_ok e -> (PAGE_SIZE_SMALL | area_end e).
Proof.
  intros [[_ Hb] [_ Hl] _ _]. unfold area_end. apply Z.divide_add_r; [by apply Z.divide_add_r |].
  by exists (KERNEL_VMA / 4096).
Qed.

Lemma usable_area e :
  area_ok e ->
  if decide (Z.max kernel_end initrd_end <= area_end e)
  then usable kernel_end (ar_base e) (ar_len e) initrd_end = Some (area_start e, area_end e - area_start e) /\
       (PAGE_SIZE_SMALL | area_start e) /\ 0 < area_start e <= area_end e /\
       Z.max (Z.max (ar_base e + KERNEL_VMA) kernel_end) initrd_end <= area_start e
  else usable kernel_end (ar_base e) (ar_len e) initrd_end = None.
Proof.
  intros Hok. destruct (boot_area_bounds e Hok) as (Hb & Hl & He). pose proof (area_end_page e Hok) as Hd.
  unfold usable. change PAGE_SIZE_LARGE with (2 ^ 21) in He.
  rewrite (u64_small (ar_base e + KERNEL_VMA)) by lia.
  assert (u64 (ar_base e + KERNEL_VMA + ar_len e) = area_end e) as ->.
  { rewrite u64_small; unfold area_end in *; lia. }
  set (B := ar_base e + KERNEL_VMA) in *. set (E := area_end e) in *.
  assert (ar_len e = E - B) as -> by (subst E B; unfold area_end; lia).
  destruct (decide _) as [Hk | Hk].
  2: { destruct (Z.ltb_spec E kernel_end); [done |]. destruct (Z.ltb_spec E initrd_end); [done | lia]. }
  rewrite (proj2 (Z.ltb_ge E kernel_end)) by lia. rewrite (proj2 (Z.ltb_ge E initrd_end)) by lia.
  assert ((if B <? kernel_end then (kernel_end, u64 (E - B - u64 (kernel_end - B))) else (B, E - B))
          = (Z.max B kernel_end, E - Z.max B kernel_end)) as ->.
  { destruct (Z.ltb_spec B kernel_end); [| f_equal; lia]. rewrite (u64_small (kernel_end - B)), u64_small by lia. f_equal; lia. }
  set (B1 := Z.max B kernel_end) in *.
  assert ((if B1 <? initrd_end then (initrd_end, u64 (E - B1 - u64 (initrd_end - B1))) else (B1, E - B1))
          = (Z.max B1 initrd_end, E - Z.max B1 initrd_end)) as ->.
  { destruct (Z.ltb_spec B1 initrd_end); [| f_equal; lia]. rewrite (u64_small (initrd_end - B1)), u64_small by lia. f_equal; lia. }
  change (align_up (Z.max B1 initrd_end) PAGE_SIZE_SMALL) with (area_start e).
  destruct (pages_between (Z.max B1 initrd_end) (E - Z.max B1 initrd_end)) as (P1 & P2 & P3 & P4 & P5); try lia.
  { change PAGE_SIZE_SMALL with (2 ^ 12). lia. }
  { by replace (Z.max B1 initrd_end + (E - Z.max B1 initrd_end)) with E by lia. }
  change (align_up (Z.max B1 initrd_end) PAGE_SIZE_SMALL) with (area_start e) in *.
  split_and!; [do 2 f_equal; lia | done | lia | lia | lia].
Qed.

(** The bytes that an area adds to the free memory. *)
Definition gives (e : area) (x : Z) : Prop := available e = true /\ area_start e <= x < area_end e.

Definition region_of (e : area) : list (Z * Z) := if available e then [(ar_base e, ar_len e)] else [].

(** What a step of the parser does to the state. *)
Record boot_step (b b' : boot_state T) (new : Z -> Prop) (regions : list (Z * Z)) : Prop := {
  bs_rep : arenas_rep (b_arenas b') (b_mem b');
  bs_own x : arenas_own (b_arenas b') x <-> arenas_own (b_arenas b) x \/ new x;
  bs_mem x : ~ arenas_own (b_arenas b') x -> load8 (b_mem b') x = load8 (b_mem b) x;
  bs_regions : mem_regions b' = mem_regions b ++ regions;
  bs_initrd : Boot.initrd_start b' = Boot.initrd_start b /\ Boot.initrd_end b' = Boot.initrd_end b;
  bs_printed : exists calls, printed b' = printed b ++ calls /\ calls_typed calls
}.

Lemma boot_step_trans b1 b2 b3 new new' r r' :
  boot_step b1 b2 new r -> boot_step b2 b3 new' r' -> boot_step b1 b3 (fun x => new x \/ new' x) (r ++ r').
Proof.
  intros [R1 O1 M1 G1 [I1 J1] (c1 & P1 & T1)] [R2 O2 M2 G2 [I2 J2] (c2 & P2 & T2)]. split; [done | | | | |].
  - intros x. rewrite O2, O1. tauto.
  - intros x Hx. rewrite M2 by done. apply M1. rewrite O2 in Hx. tauto.
  - by rewrite G2, G1, app_assoc.
  - split; congruence.
  - exists (c1 ++ c2). rewrite P2, P1, app_assoc. split; [done |]. by apply Forall_app.
Qed.

Lemma boot_step_iff b b' (new new' : Z -> Prop) r :
  (forall x, new x <-> new' x) -> boot_step b b' new r -> boot_step b b' new' r.
Proof. intros Hn [R O M G I P]. split; try done. intros x. by rewrite O, Hn. Qed.

Lemma entry_call_typed base last q (mt : option (list Z)) :
  match mt with Some s => bool_decide (0 ∈ s) | None => true end = true ->
  calls_typed [(line_format "  %016lx-%016lx %4ld KiB [%s]", [VInt base; VInt last; VInt q; VStr mt])] /\
  calls_typed [(line_format "  %016lx-%016lx %4ld MiB [%s]", [VInt base; VInt last; VInt q; VStr mt])].
Proof.
  intros Hm. split; (apply Forall_cons; split; [| by apply Forall_nil]); unfold well_typed;
    [change (format_type true _) with (Some [TInt; TInt; TInt; TStr]) | change (format_type true _) with (Some [TInt; TInt; TInt; TStr])];
    cbn [fst snd accepts has_type andb]; by destruct mt; rewrite ?Hm.
Qed.

Lemma memory_type_typed type : exists mt,
  match memory_types !! Z.to_nat type with Some s => VStr s | None => VStr (Some (cstr "unknown")) end = VStr mt /\
  match mt with Some s => bool_decide (0 ∈ s) | None => true end = true.
Proof.
  destruct (Z.to_nat type) as [|[|[|[|[|[|n]]]]]]; cbn [memory_types lookup list_lookup]; eexists; (split; [reflexivity |]);
    try done; by vm_compute.
Qed.

(** The state before the span is added. *)
Lemma parse_entry_unfold entry e b :
  load64 (b_mem b) (entry_base_addr entry) = ar_base e -> load64 (b_mem b) (entry_length entry) = ar_len e ->
  load32 (b_mem b) (entry_type entry) = ar_type e -> Boot.initrd_end b = initrd_end ->
  (available e = true -> area_ok e /\ (length (mem_regions b) < 8)%nat) ->
  exists vm_end call, calls_typed [call] /\
  let b1 := MkBoot (b_arenas b) (b_mem b) vm_end (mem_regions b ++ region_of e) (Boot.initrd_start b) (Boot.initrd_end b)
              (printed b ++ [call]) in
  parse_entry kernel_end entry b = Ok
    (if available e then
       match usable kernel_end (ar_base e) (ar_len e) initrd_end with
       | Some (s, n) => add_span s n b1
       | None => b1
       end
     else b1).
Proof.
  intros E1 E2 E3 Hi Hok. unfold parse_entry. rewrite E1, E2, E3. cbv zeta. cbn [Boot.initrd_end mem_regions]. rewrite Hi.
  destruct (memory_type_typed (ar_type e)) as (mt & -> & Hmt).
  eexists (if kernel_vm_end b <? _ then _ else _), _. split.
  2: { unfold region_of, available in *. destruct (Z.eqb_spec (ar_type e) MEMORY_TYPE_AVAILABLE) as [Ht | Ht]; cbn [negb].
       - destruct (Hok eq_refl) as [Ha Hn]. rewrite (proj2 (Z.leb_gt _ _)) by (unfold MAX_MEM_REGIONS; lia).
         replace (align_down (ar_len e) PAGE_SIZE_SMALL) with (ar_len e).
         + destruct (usable _ _ _ _) as [[s n]|]; reflexivity.
         + destruct Ha as [[? ?] [? Hd] ? ?]. change PAGE_SIZE_SMALL with (2 ^ 12) in *. change PAGE_SIZE_LARGE with (2 ^ 21) in *.
           rewrite align_down_pow2 by lia. apply Z.mod_divide in Hd; lia.
       - rewrite app_nil_r. reflexivity. }
  destruct (ar_len e <? 1024 * 1024); by apply entry_call_typed.
Qed.

Lemma parse_entry_spec entry e b :
  arenas_rep (b_arenas b) (b_mem b) ->
  load64 (b_mem b) (entry_base_addr entry) = ar_base e -> load64 (b_mem b) (entry_length entry) = ar_len e ->
  load32 (b_mem b) (entry_type entry) = ar_type e -> Boot.initrd_end b = initrd_end ->
  (available e = true -> area_ok e /\ (length (mem_regions b) < 8)%nat) ->
  (forall x, gives e x -> ~ arenas_own (b_arenas b) x) ->
  exists b', parse_entry kernel_end entry b = Ok b' /\ boot_step b b' (gives e) (region_of e).
Proof.
  intros Hr E1 E2 E3 Hi Hok Hfree.
  destruct (parse_entry_unfold entry e b E1 E2 E3 Hi Hok) as (vm_end & call & Hc & ->).
  set (b1 := MkBoot _ _ _ _ _ _ _).
  assert (forall P : Z -> Prop, (forall x, ~ P x) -> boot_step b b1 P (region_of e)) as Hb1.
  { intros P HP. split; try done; [| by exists [call]]. intros x. specialize (HP x). cbn. tauto. }
  unfold gives in *. destruct (available e) eqn:Ea.
  2: { exists b1. split; [done |]. apply Hb1. by intros x [? _]. }
  destruct (Hok eq_refl) as [Ha Hn]. pose proof (usable_area e Ha) as Hu. pose proof (boot_area_bounds e Ha) as (B1 & B2 & B3).
  destruct (decide _) as [Hk | Hk].
  - destruct Hu as (-> & Hd & Hs & Hge). unfold add_span. cbn [b_arenas b_mem b1].
    destruct (add_span_exact (area_start e) (area_end e - area_start e) (b_arenas b) (b_mem b)) as (a' & m' & -> & Hrep & Hown & Hm);
      rewrite ?Zplus_minus; try done; try lia.
    + apply Z.divide_sub_r; [by apply area_end_page | done].
    + change PAGE_SIZE_LARGE with (2 ^ 21) in *. lia.
    + by apply (ao_large e Ha).
    + intros x Hx. by apply Hfree.
    + eexists. split; [done |]. split; cbn [b_arenas b_mem mem_regions Boot.initrd_start Boot.initrd_end printed]; try done.
      * intros x. rewrite Hown, Zplus_minus. intuition.
      * by exists [call].
  - rewrite Hu. exists b1. split; [done |]. apply Hb1. intros x [_ Hx].
    assert (Z.max kernel_end initrd_end <= area_start e); [| lia].
    unfold area_start. set (K := Z.max (Z.max (ar_base e + KERNEL_VMA) kernel_end) initrd_end).
    change PAGE_SIZE_LARGE with (2 ^ 21) in B3. pose proof (align_up_bounds K 12 ltac:(lia) ltac:(lia) ltac:(lia)) as HK.
    change PAGE_SIZE_SMALL with (2 ^ 12). lia.
Qed.

Fixpoint apart_areas (l : list area) : Prop :=
  match l with
  | [] => True
  | e :: l =>
      Forall (fun e' => available e = true -> available e' = true ->
                ar_base e + ar_len e <= ar_base e' \/ ar_base e' + ar_len e' <= ar_base e) l /\ apart_areas l
  end.

Definition regions_of (l : list area) : list (Z * Z) := concat (map region_of l).

Lemma gives_within e x : area_ok e -> gives e x -> ar_base e + KERNEL_VMA <= x < ar_base e + KERNEL_VMA + ar_len e.
Proof.
  intros Ha [_ Hx]. pose proof (boot_area_bounds e Ha) as (B1 & B2 & B3). unfold area_end in *. split; [| lia].
  unfold area_start in Hx. change PAGE_SIZE_SMALL with (2 ^ 12) in Hx. change PAGE_SIZE_LARGE with (2 ^ 21) in B3.
  pose proof (align_up_bounds (Z.max (Z.max (ar_base e + KERNEL_VMA) kernel_end) initrd_end) 12 ltac:(lia) ltac:(lia) ltac:(lia)). lia.
Qed.

Lemma area_start_ge e : area_ok e -> kernel_end <= area_start e /\ initrd_end <= area_start e.
Proof.
  intros Ha. pose proof (boot_area_bounds e Ha) as (B1 & B2 & B3). unfold area_start.
  change PAGE_SIZE_SMALL with (2 ^ 12). change PAGE_SIZE_LARGE with (2 ^ 21) in B3.
  pose proof (align_up_bounds (Z.max (Z.max (ar_base e + KERNEL_VMA) kernel_end) initrd_end) 12 ltac:(lia) ltac:(lia) ltac:(lia)). lia.
Qed.

Lemma entries_at_app m p l1 l2 : entries_at m p (l1 ++ l2) -> entries_at m (p + 24 * Z.of_nat (length l1)) l2.
Proof.
  revert p. induction l1 as [|e l1 IH]; intros p Hl; cbn [app length] in *; [by rewrite Z.mul_0_r, Z.add_0_r |].
  destruct Hl as (_ & _ & _ & Hl). apply IH in Hl. unfold sizeof_memory_map_entry in Hl.
  replace (p + 24 * Z.of_nat (S (length l1))) with (p + 24 + 24 * Z.of_nat (length l1)) by lia. done.
Qed.

Lemma memory_map_loop_spec fuel tag todo : forall seen b,
  memory_map_at (b_mem b) tag (seen ++ todo) -> arenas_rep (b_arenas b) (b_mem b) -> Boot.initrd_end b = initrd_end ->
  Forall (fun e => available e = true -> area_ok e) todo -> apart_areas todo ->
  (length (mem_regions b) + length (regions_of todo) <= 8)%nat ->
  (forall e x, e ∈ todo -> gives e x -> ~ arenas_own (b_arenas b) x) ->
  (forall x, tag <= x < tag + map_size (seen ++ todo) ->
     ~ arenas_own (b_arenas b) x /\ forall e, e ∈ todo -> ~ gives e x) ->
  (length todo <= fuel)%nat ->
  exists b', memory_map_loop kernel_end fuel tag (16 + 24 * Z.of_nat (length seen)) b = Ok b' /\
    boot_step b b' (fun x => exists e, e ∈ todo /\ gives e x) (regions_of todo).
Proof.
  revert fuel. induction todo as [|e todo IH]; intros fuel seen b Hm Hr Hi Hok Hap Hn Hfree Htag Hf.
  { destruct Hm as [Hs _]. exists b. rewrite app_nil_r in Hs. split.
    - destruct fuel; cbn [memory_map_loop]; rewrite Hs; unfold map_size; by rewrite Z.ltb_irrefl.
    - split; try done; [| by rewrite app_nil_r | exists []; split; [by rewrite app_nil_r | by apply Forall_nil]].
      intros x. split; [by left |]. intros [? | (e & He & _)]; [done | by apply elem_of_nil in He]. }
  destruct fuel as [|fuel]; [cbn [length] in Hf; lia |]. cbn [memory_map_loop length] in *.
  pose proof Hm as [Hs He]. apply entries_at_app in He. destruct He as (E1 & E2 & E3 & _).
  rewrite <- Z.add_assoc in E1, E2, E3. rewrite Hs, (proj2 (Z.ltb_lt _ _)) by (unfold map_size; rewrite length_app; cbn [length]; lia).
  apply Forall_cons in Hok as [Hok1 Hok]. destruct Hap as [Hap1 Hap].
  unfold regions_of in Hn. cbn [map concat] in Hn. rewrite length_app in Hn.
  destruct (parse_entry_spec (tag + (16 + 24 * Z.of_nat (length seen))) e b Hr) as (b1 & E & Hst); try done.
  { intros Ha. split; [by apply Hok1 |]. unfold region_of in Hn. rewrite Ha in Hn. cbn [length] in Hn. lia. }
  { intros x. apply Hfree. by left. }
  rewrite E, Ok_bind. destruct Hst as [R1 O1 M1 G1 I1 P1].
  destruct (IH fuel (seen ++ [e]) b1) as (b' & E' & Hst'); rewrite <- ?app_assoc; cbn [app]; try done.
  - eapply memory_map_frame; [| exact Hm]. intros x Hx. apply M1. rewrite O1. destruct (Htag x Hx) as [H1 H2].
    intros [? | ?]; [done |]. eapply H2; [by left | done].
  - destruct I1 as [_ ->]. done.
  - rewrite G1, length_app. unfold regions_of. lia.
  - intros e' x He' Hg Ho. apply O1 in Ho as [Ho | Ho]; [by apply (Hfree e' x); [right | |] |].
    destruct (Ho) as [Ha _], (Hg) as [Ha' _]. rewrite Forall_forall in Hok, Hap1.
    specialize (Hap1 e' He' Ha Ha'). apply gives_within in Ho; [| by apply Hok1]. apply gives_within in Hg; [| by apply Hok]. lia.
  - intros x Hx. destruct (Htag x Hx) as [H1 H2]. split.
    + rewrite O1. intros [? | ?]; [done |]. eapply H2; [by left | done].
    + intros e' He'. apply H2. by right.
  - lia.
  - exists b'. split.
    + rewrite <- E'. f_equal. rewrite length_app. cbn [length]. unfold sizeof_memory_map_entry. lia.
    + eapply boot_step_iff; [| eapply boot_step_trans; [split; done | exact Hst']].
      intros x. cbv beta. split.
      * intros [? | (e' & ? & ?)]; [exists e; split; [by left | done] | exists e'; split; [by right | done]].
      * intros (e' & [-> | ?]%elem_of_cons & ?); [by left | right; by exists e'].
Qed.

Lemma parse_memory_map_spec fuel tag l b :
  memory_map_at (b_mem b) tag l -> arenas_rep (b_arenas b) (b_mem b) -> Boot.initrd_end b = initrd_end ->
  Forall (fun e => available e = true -> area_ok e) l -> apart_areas l ->
  (length (mem_regions b) + length (regions_of l) <= 8)%nat ->
  (forall e x, e ∈ l -> gives e x -> ~ arenas_own (b_arenas b) x) ->
  (forall x, tag <= x < tag + map_size l -> ~ arenas_own (b_arenas b) x /\ forall e, e ∈ l -> ~ gives e x) ->
  (length l <= fuel)%nat ->
  exists b', parse_memory_map kernel_end fuel tag b = Ok b' /\
    boot_step b b' (fun x => exists e, e ∈ l /\ gives e x) (regions_of l).
Proof.
  intros Hm Hr Hi Hok Hap Hn Hfree Htag Hf. unfold parse_memory_map. set (b1 := print _ b).
  destruct (memory_map_loop_spec fuel tag l [] b1 Hm Hr Hi Hok Hap Hn Hfree Htag Hf) as (b' & E & [R1 O1 M1 G1 I1 (c & P1 & T1)]).
  exists b'. split; [exact E |]. split; try done. exists ((line_format "Memory map:", []) :: c).
  rewrite P1. cbn [b1 print printed]. rewrite <- app_assoc. split; [done |]. apply Forall_cons. split; [by vm_compute | done].
Qed.

End MemoryMap.

(** ** The kernel's page table *)

(** The offset of the direct mapping in the 48-bit address space. *)
Definition direct_start : Z := va48 KERNEL_VMA.

Definition region_has (va : Z) (r : Z * Z) : bool :=
  (direct_start + fst r <=? va48 va) && (va48 va <? direct_start + fst r + snd r).

Record region_ok (r : Z * Z) : Prop := {
  rg_base : 0 <= fst r /\ (PAGE_SIZE_SMALL | fst r);
  rg_len : 0 < snd r /\ (PAGE_SIZE_SMALL | snd r);
  rg_end : fst r + snd r + PAGE_SIZE_LARGE <= 2 ^ 31
}.

Lemma region_range r : region_ok r -> u64 (fst r + KERNEL_VMA) = fst r + KERNEL_VMA /\
  va48 (fst r + KERNEL_VMA) = direct_start + fst r /\ page_bytes (snd r) = snd r /\
  range_ok (fst r + KERNEL_VMA) (fst r) (snd r).
Proof.
  intros [[Hb Db] [Hl Dl] He]. change PAGE_SIZE_LARGE with (2 ^ 21) in He. change PAGE_SIZE_SMALL with 4096 in *.
  assert (va48 (fst r + KERNEL_VMA) = direct_start + fst r) as Hv.
  { unfold direct_start. rewrite Z.add_comm. apply va48_add; [done |]. change (va48 KERNEL_VMA) with (2 ^ 48 - 2 ^ 31). lia. }
  assert (page_bytes (snd r) = snd r) as Hp.
  { destruct Dl as [k Hk]. rewrite Hk. unfold page_bytes. Z.to_euclidean_division_equations; lia. }
  split_and!; [apply u64_small; unfold KERNEL_VMA; lia | done | done |].
  split; rewrite ?Hp, ?Hv; change direct_start with (2 ^ 48 - 2 ^ 31); change PAGE_SIZE_LARGE with (2 ^ 21); try lia; try done.
  - unfold KERNEL_VMA. lia.
  - apply Z.divide_add_r; [done |]. by exists (KERNEL_VMA / 4096).
  - intros _. exists (- (KERNEL_VMA / 2 ^ 21)). replace (fst r - (fst r + KERNEL_VMA)) with (- KERNEL_VMA) by lia. by vm_compute.
Qed.

Section DirectMap.
Context {A : Type} `{PageAllocatorLaws A}.

Lemma map_regions_spec cr3 rs : forall T (a : A) m,
  pt_inv T cr3 a m -> Forall region_ok rs ->
  map_regions cr3 rs a m = Fault Panic \/
  exists T' a' m', map_regions cr3 rs a m = Ok (a', m') /\ pt_inv T' cr3 a' m' /\ pt_grows T a m T' a' m' /\
    forall va, translate m' cr3 va =
      if existsb (region_has va) rs then Some (va48 va - direct_start) else translate m cr3 va.
Proof.
  induction rs as [|r rs IH]; intros T a m HT Hok.
  { right. exists T, a, m. split_and!; [done | done | apply pt_grows_refl | done]. }
  apply Forall_cons in Hok as [Hr Hok]. destruct (region_range r Hr) as (Eu & Ev & Ep & HR).
  destruct r as [base len]. cbn [fst snd] in *. cbn [map_regions]. rewrite Eu.
  set (prot := Z.lor _ _).
  destruct (map_range_spec T cr3 a m (base + KERNEL_VMA) base len prot 0 HT HR) as (err & p' & T1 & a1 & m1 & -> & [I G B R]).
  rewrite Ok_bind. destruct (Z.eqb_spec err 0) as [-> | Hne]; cbn [negb]; [| by left].
  destruct R as [(_ & _ & R) | [R | R]]; [| discriminate R ..].
  destruct (IH T1 a1 m1 I Hok) as [-> | (T2 & a2 & m2 & -> & I2 & G2 & R2)]; [by left | right].
  exists T2, a2, m2. split_and!; [done | done | by eapply pt_grows_trans |].
  intros va. rewrite R2, R, Ev, Ep. cbn [existsb]. unfold region_has at 2. cbn [fst snd].
  destruct (existsb _ rs); [by rewrite orb_true_r |]. rewrite orb_false_r.
  destruct (decide _) as [Hd | Hd].
  - rewrite (proj2 (Z.leb_le _ _)), (proj2 (Z.ltb_lt _ _)) by lia. cbn [andb]. f_equal. lia.
  - destruct (Z.leb_spec (direct_start + base) (va48 va)); [| done].
    destruct (Z.ltb_spec (va48 va) (direct_start + base + len)); [lia | done].
Qed.

(** A cleared page of the allocator is an empty page table. *)
Lemma new_root (a : A) m p a1 m1 :
  (forall x, pa_own a x -> KERNEL_VMA <= x) ->
  page_alloc_small a m = Ok (p, a1, m1) -> p <> 0 -> pa_rep a m ->
  let m2 := memset m1 p 0 (Z.to_nat PAGE_SIZE_SMALL) in
  let cr3 := virt_to_phys p in
  pt_inv {[cr3 := (4%nat, 0)]} cr3 a1 m2 /\ (forall x, pt_mem {[cr3 := (4%nat, 0)]} a1 x -> pa_own a x) /\
  (forall x, ~ pa_own a x -> load8 m2 x = load8 m x) /\ forall va, translate m2 cr3 va = None.
Proof.
  intros Hk E Hp Hr. cbv zeta.
  destruct (pa_alloc_small a m Hr) as [[_ E'] | (p' & a' & m' & E' & P1 & P2 & P3 & P4 & P5 & P6 & P7)]; [congruence |].
  rewrite E in E'. injection E' as <- <- <-. change PAGE_SIZE_SMALL with 4096 in *.
  assert (KERNEL_VMA <= p) as HpK by (apply Hk, P4; lia).
  assert (virt_to_phys p + KERNEL_VMA = p) as Hcr3 by (unfold virt_to_phys; rewrite u64_small; unfold KERNEL_VMA in *; lia).
  set (cr3 := virt_to_phys p) in *. set (m2 := memset m1 p 0 (Z.to_nat 4096)).
  assert (forall x, ~ p <= x < p + 4096 -> load8 m2 x = load8 m1 x) as Hm2.
  { intros x Hx. apply memset_same_outside. change (Z.of_nat (Z.to_nat 4096)) with 4096. lia. }
  assert (forall i, 0 <= i < 512 -> entry m2 cr3 i = 0) as He.
  { intros i Hi. unfold entry, load64. apply load_memset_0; change (Z.of_nat (Z.to_nat 4096)) with 4096; simpl; lia. }
  split_and!.
  - split.
    + apply (pa_frame _ m1); [done |]. intros x Hx. apply Hm2. by apply P6 in Hx as [_ ?].
    + intros x Hx. apply Hk. by apply P6 in Hx as [? _].
    + apply lookup_singleton_eq.
    + intros t l q Ht. apply lookup_singleton_Some in Ht as [<- _]. by left.
    + intros t l q Ht. apply lookup_singleton_Some in Ht as [<- [= <- <-]]. split; [lia | unfold KERNEL_VMA in *; lia | | |].
      * destruct P2 as [k Hk2]. exists (k - KERNEL_VMA / 4096). replace cr3 with (p - KERNEL_VMA) by lia.
        change KERNEL_VMA with (KERNEL_VMA / 4096 * 4096) at 1. lia.
      * intros x Hx Ho. apply P6 in Ho as [_ Ho]. apply Ho. unfold in_table in Hx. lia.
      * intros i _ Hi. left. by apply He.
  - intros x [Hx | (t & l & q & Ht & Hx)]; [by apply P6 in Hx as [? _] |].
    apply lookup_singleton_Some in Ht as [<- _]. apply P4. unfold in_table in Hx. lia.
  - intros x Hx. rewrite Hm2; [by apply P7 |]. intros Hx'. by apply Hx, P4.
  - intros va. unfold translate. by rewrite (walk_empty m2 cr3 4 va He).
Qed.

Lemma init_mmu_map_spec rs (a : A) m :
  pa_rep a m -> (forall x, pa_own a x -> KERNEL_VMA <= x) -> Forall region_ok rs ->
  init_mmu_map rs a m = Fault Panic \/
  exists cr3 T' a' m', init_mmu_map rs a m = Ok (cr3, a', m') /\ pt_inv T' cr3 a' m' /\
    (forall x, pt_mem T' a' x -> pa_own a x) /\ (forall x, ~ pa_own a x -> load8 m' x = load8 m x) /\
    forall va, translate m' cr3 va = if existsb (region_has va) rs then Some (va48 va - direct_start) else None.
Proof.
  intros Hr Hk Hok. unfold init_mmu_map.
  destruct (pa_alloc_small a m Hr) as [[_ E] | (p & a1 & m1 & E & P1 & _)]; rewrite E, Ok_bind; [by left |].
  destruct (Z.eqb_spec p 0); [lia |]. destruct (new_root a m p a1 m1 Hk E ltac:(lia) Hr) as (HT & Hsub & Hm & Ht).
  set (m2 := memset _ _ _ _) in *. set (cr3 := virt_to_phys p) in *. cbv zeta.
  destruct (map_regions_spec cr3 rs _ a1 m2 HT Hok) as [-> | (T' & a' & m' & -> & I & [_ G2 G3] & R)]; [by left | right].
  exists cr3, T', a', m'. split_and!; [done | done | | |].
  - intros x Hx. by apply Hsub, G2.
  - intros x Hx. rewrite G3; [by apply Hm |]. intros Hx'. by apply Hx, Hsub.
  - intros va. by rewrite R, Ht.
Qed.

End DirectMap.

(** ** From the list of the boot loader to mapped memory *)

Record boot_ready `{SegmentTreeLaws T} (kernel_end tag : Z) (l : list area) (b : boot_state T) : Prop := {
  br_kernel : 0 < kernel_end <= 2 ^ 64 - 2 ^ 12;
  br_initrd : 0 <= initrd_end b <= 2 ^ 64 - 2 ^ 12;
  br_map : memory_map_at (b_mem b) tag l;
  br_rep : arenas_rep (b_arenas b) (b_mem b);
  br_empty x : ~ arenas_own (b_arenas b) x;
  br_regions : mem_regions b = [] /\ (length (regions_of l) <= 8)%nat;
  br_areas : Forall (fun e => available e = true -> area_ok kernel_end (initrd_end b) e) l;
  br_apart : apart_areas l;
  br_tag e x : e ∈ l -> tag <= x < tag + map_size l -> ~ gives kernel_end (initrd_end b) e x
}.

Lemma region_of_area kernel_end iend l r :
  Forall (fun e => available e = true -> area_ok kernel_end iend e) l -> r ∈ regions_of l ->
  exists e, e ∈ l /\ available e = true /\ r = (ar_base e, ar_len e) /\ area_ok kernel_end iend e.
Proof.
  rewrite Forall_forall. intros Hok Hr. unfold regions_of in Hr. apply list_elem_of_In, in_concat in Hr as (rs & Hrs & Hr).
  apply in_map_iff in Hrs as (e & <- & He). unfold region_of in Hr. destruct (available e) eqn:Ea; [| done].
  destruct Hr as [<- | []]. exists e. apply list_elem_of_In in He. split_and!; auto.
Qed.

Lemma area_region e l : e ∈ l -> available e = true -> (ar_base e, ar_len e) ∈ regions_of l.
Proof.
  intros He Ha. apply list_elem_of_In, in_concat. exists (region_of e). split.
  - apply in_map, list_elem_of_In, He.
  - unfold region_of. rewrite Ha. by left.
Qed.

Lemma region_has_direct e x :
  0 <= x < 2 ^ 31 -> region_has (x + KERNEL_VMA) (ar_base e, ar_len e) = true <-> ar_base e <= x < ar_base e + ar_len e.
Proof.
  intros Hx. unfold region_has. cbn [fst snd]. rewrite (Z.add_comm x). unfold direct_start.
  rewrite va48_add by (try lia; change (va48 KERNEL_VMA) with (2 ^ 48 - 2 ^ 31); lia).
  rewrite andb_true_iff, Z.leb_le, Z.ltb_lt. lia.
Qed.

Lemma regions_exist l x :
  0 <= x < 2 ^ 31 ->
  existsb (region_has (x + KERNEL_VMA)) (regions_of l)
  = existsb (fun e => available e && (ar_base e <=? x) && (x <? ar_base e + ar_len e)) l.
Proof.
  intros Hx. induction l as [|e l IH]; [done |]. unfold regions_of in *. cbn [map concat existsb].
  rewrite existsb_app, IH. f_equal. unfold region_of. destruct (available e); [| done]. cbn [existsb andb].
  rewrite orb_false_r. apply eq_bool_prop_intro. rewrite !Is_true_true, region_has_direct by done.
  rewrite andb_true_iff, Z.leb_le, Z.ltb_lt. done.
Qed.

Lemma direct_address x : 0 <= x < 2 ^ 31 -> va48 (x + KERNEL_VMA) - direct_start = x.
Proof.
  intros Hx. rewrite Z.add_comm. unfold direct_start.
  rewrite va48_add by (try lia; change (va48 KERNEL_VMA) with (2 ^ 48 - 2 ^ 31); lia). lia.
Qed.


(** ** The processors in the tables of ACPI *)

(** The entries of the table of interrupt controllers: type and length. *)
Fixpoint madt_entries (m : mem) (p : Z) (l : list (Z * Z)) : Prop :=
  match l with
  | [] => True
  | (type, len) :: l => load8 m p = type /\ load8 m (p + 1) = len /\ madt_entries m (p + len) l
  end.

Definition madt_size (l : list (Z * Z)) : Z := fold_right Z.add 0 (map snd l).

Definition madt_at (m : mem) (raw : Z) (l : list (Z * Z)) : Prop :=
  load32 m (sdt_length raw) = sizeof_acpi_madt_header + madt_size l /\
  madt_entries m (raw + sizeof_acpi_madt_header) l.

Definition known_entry (type : Z) : bool := (type =? 0) || (type =? 1) || (type =? 2) || (type =? 4).

Fixpoint madt_report (l : list (Z * Z)) (nr_cpus : Z) : list printf_call :=
  match l with
  | [] => [(line_format "Found %d CPUs via ACPI MADT", [VInt nr_cpus])]
  | (type, _) :: l =>
      if known_entry type then madt_report l (if type =? ACPI_PROCESSOR_LOCAL_APIC then nr_cpus + 1 else nr_cpus)
      else [(line_format "warning: unknown ACPI MADT entry: %d", [VInt type])]
  end.

Lemma madt_size_nonneg l : Forall (fun e => 0 <= snd e) l -> 0 <= madt_size l.
Proof. induction 1 as [|e l He _ IH]; unfold madt_size in *; cbn [map fold_right]; lia. Qed.

Lemma madt_step m raw len off type n l fuel nr_cpus :
  off < len -> madt_entries m (raw + off) ((type, n) :: l) ->
  madt_loop (S fuel) m raw len off nr_cpus
  = if known_entry type
    then madt_loop fuel m raw len (off + n) (if type =? ACPI_PROCESSOR_LOCAL_APIC then nr_cpus + 1 else nr_cpus)
    else Ok [(line_format "warning: unknown ACPI MADT entry: %d", [VInt type])].
Proof.
  intros Hlt (E1 & E2 & _). cbn [madt_loop]. rewrite (proj2 (Z.ltb_lt _ _)) by done.
  unfold acpi_read_u8. rewrite E1, E2. unfold known_entry, ACPI_PROCESSOR_LOCAL_APIC, ACPI_IO_APIC, ACPI_INT_SOURCE_OVERRIDE, ACPI_LOCAL_APIC_NMI.
  destruct (type =? 0), (type =? 1), (type =? 2), (type =? 4); reflexivity.
Qed.

Lemma madt_loop_spec m raw len l : forall off nr_cpus fuel,
  madt_entries m (raw + off) l -> len = off + madt_size l -> Forall (fun e => 0 < snd e) l -> (length l <= fuel)%nat ->
  madt_loop fuel m raw len off nr_cpus = Ok (madt_report l nr_cpus).
Proof.
  induction l as [|[type n] l IH]; intros off nr_cpus fuel He -> Hpos Hf; unfold madt_size in *; cbn [map fold_right snd length] in *.
  { rewrite Z.add_0_r. destruct fuel; cbn [madt_loop]; by rewrite Z.ltb_irrefl. }
  apply Forall_cons in Hpos as [Hn Hpos]. cbn [snd] in Hn. destruct fuel as [|fuel]; [lia |].
  assert (0 <= fold_right Z.add 0 (map snd l)) as Hs.
  { apply madt_size_nonneg. eapply Forall_impl; [exact Hpos |]. cbv beta. intros e ?. lia. }
  rewrite (madt_step m raw _ off type n l) by (done || lia).
  cbn [madt_report]. destruct (known_entry type); [| done]. apply IH; [| lia | done | lia].
  destruct He as (_ & _ & He). by rewrite Z.add_assoc.
Qed.

Lemma madt_loop_stuck m raw len type l fuel : forall off nr_cpus,
  off < len -> madt_entries m (raw + off) ((type, 0) :: l) -> known_entry type = true ->
  madt_loop fuel m raw len off nr_cpus = Fault OutOfFuel.
Proof.
  induction fuel as [|fuel IH]; intros off nr_cpus Hlt He Hk.
  { cbn [madt_loop]. by rewrite (proj2 (Z.ltb_lt _ _)). }
  rewrite (madt_step m raw len off type 0 l) by done. rewrite Hk, Z.add_0_r. by apply IH.
Qed.

Lemma madt_loop_reaches m raw len type l1 : forall off nr_cpus fuel,
  madt_entries m (raw + off) (l1 ++ [(type, 0)]) -> off + madt_size l1 < len ->
  Forall (fun e => 0 < snd e /\ known_entry (fst e) = true) l1 -> known_entry type = true ->
  madt_loop fuel m raw len off nr_cpus = Fault OutOfFuel.
Proof.
  induction l1 as [|[t n] l1 IH]; intros off nr_cpus fuel He Hlt Hok Hk; unfold madt_size in *; cbn [app map fold_right snd] in *.
  { eapply (madt_loop_stuck m raw len type []); [lia | done | done]. }
  apply Forall_cons in Hok as [[Hn Ht] Hok]. cbn [fst snd] in *.
  assert (0 <= fold_right Z.add 0 (map snd l1)) as Hs.
  { apply madt_size_nonneg. eapply Forall_impl; [exact Hok |]. cbv beta. intros e ?. lia. }
  destruct fuel as [|fuel]; [cbn [madt_loop]; by rewrite (proj2 (Z.ltb_lt _ _)) by lia |].
  rewrite (madt_step m raw len off t n (l1 ++ [(type, 0)])) by (done || lia). rewrite Ht. apply IH; [| lia | done | done].
  destruct He as (_ & _ & He). by rewrite Z.add_assoc.
Qed.

Lemma madt_report_typed l nr_cpus : calls_typed (madt_report l nr_cpus).
Proof.
  revert nr_cpus. induction l as [|[type n] l IH]; intros nr_cpus; cbn [madt_report].
  - apply Forall_cons. split; [by vm_compute | by apply Forall_nil].
  - destruct (known_entry type); [apply IH |]. apply Forall_cons. split; [by vm_compute | by apply Forall_nil].
Qed.

(** The table of interrupt controllers is read to its end.  With entries that
    have a length, [acpi_parse_madt] prints the number of local controllers, or the
    first type that it does not know.  An entry without a length, of a type that it
    knows and behind such ones, is read again and again: the call never ends. *)
Theorem acpi_parse_madt_counts m raw (Hsig : load_bytes m raw 4 = bytes_of "APIC") :
  (forall l, madt_at m raw l -> Forall (fun e => 0 < snd e) l ->
     acpi_parse_madt (length l) m raw = Ok (madt_report l 0) /\ calls_typed (madt_report l 0)) /\
  (forall l type fuel, madt_entries m (raw + sizeof_acpi_madt_header) (l ++ [(type, 0)]) ->
     sizeof_acpi_madt_header + madt_size l < load32 m (sdt_length raw) ->
     Forall (fun e => 0 < snd e /\ known_entry (fst e) = true) l -> known_entry type = true ->
     acpi_parse_madt fuel m raw = Fault OutOfFuel).
Proof.
  unfold acpi_parse_madt, same_bytes.
  change (length (bytes_of "APIC")) with 4%nat. rewrite Hsig, bool_decide_true by done. cbn [negb]. split.
  - intros l [Hlen He] Hpos. rewrite Hlen. split; [by apply madt_loop_spec | apply madt_report_typed].
  - intros l type fuel He Hlen Hok Hk. by eapply (madt_loop_reaches m raw _ type l).
Qed.

Definition ex_madt (l : list (Z * Z)) : mem :=
  store_bytes ∅ 4096 (bytes_of "APIC" ++ le_split 4 (44 + madt_size l) ++ replicate 36 0 ++
    concat (map (fun e => fst e :: snd e :: replicate (Z.to_nat (snd e) - 2) 0) l)).

Lemma acpi_parse_madt_counts_witness :
  acpi_parse_madt 3 (ex_madt [(0, 8); (0, 8); (1, 12)]) 4096
    = Ok [(line_format "Found %d CPUs via ACPI MADT", [VInt 2])] /\
  acpi_parse_madt 1000 (ex_madt [(0, 8); (1, 0); (0, 8)]) 4096 = Fault OutOfFuel.
Proof.
  split.
  - refine (proj1 (proj1 (acpi_parse_madt_counts (ex_madt [(0, 8); (0, 8); (1, 12)]) 4096 _) [(0, 8); (0, 8); (1, 12)] _ _)).
    + by vm_compute.
    + split_and!; by vm_compute.
    + repeat constructor; simpl; lia.
  - refine (proj2 (acpi_parse_madt_counts (ex_madt [(0, 8); (1, 0); (0, 8)]) 4096 _) [(0, 8)] 1 1000%nat _ _ _ eq_refl).
    + by vm_compute.
    + split_and!; by vm_compute.
    + by vm_compute.
    + repeat constructor; simpl; lia.
Defined.

(** ** Booting from example memory maps *)

(** The information of the boot loader: tags of a kind with their contents, padded
    to multiples of eight bytes. *)
Definition tag_bytes (t : Z * list Z) : list Z :=
  let size := 8 + Z.of_nat (length (snd t)) in
  le_split 4 (fst t) ++ le_split 4 size ++ snd t ++ replicate (Z.to_nat ((- size) mod 8)) 0.

Definition boot_data (tags : list (Z * list Z)) : list Z :=
  let body := concat (map tag_bytes tags) in
  le_split 4 (8 + Z.of_nat (length body)) ++ le_split 4 0 ++ body.

Definition map_bytes (l : list area) : list Z :=
  le_split 4 24 ++ le_split 4 0 ++
  concat (map (fun e => le_split 8 (ar_base e) ++ le_split 8 (ar_len e) ++ le_split 4 (ar_type e) ++ le_split 4 0) l).

Definition ex_data : Z := KERNEL_VMA + 0x1000.
Definition ex_kernel_end : Z := KERNEL_VMA + 0x180123.

Definition ex_boot (tags : list (Z * list Z)) (initrd_end : Z) : boot_state list_tree :=
  MkBoot empty_arenas (store_bytes ∅ ex_data (boot_data tags)) 0 [] 0 initrd_end [].

(** Both phases. *)
Definition boot_run (tags : list (Z * list Z)) : outcome (boot_state list_tree * (Z * arenas list_tree * mem)) :=
  b ← parse_platform_config ex_kernel_end 100 1000 ex_data (ex_boot tags 0);
  r ← init_mmu_map (mem_regions b) (b_arenas b) (b_mem b);
  Ok (b, r).

(** ** A machine with eight megabytes *)

Definition ex_areas : list area :=
  [Area 0 0x9f000 1; Area 0x9f000 0x1000 2; Area 0x100000 0x700000 1; Area 0xfffc0000 0x40000 2].

Definition ex_state : boot_state list_tree := ex_boot [(MEMORY_MAP_TAG, map_bytes ex_areas)] (KERNEL_VMA + 0x1a0800).

Lemma ex_boot_ready : boot_ready ex_kernel_end (ex_data + 8) ex_areas ex_state.
Proof.
  split.
  - vm_compute. split; congruence.
  - vm_compute. split; congruence.
  - by vm_compute.
  - apply (arenas_rep_new (T := list_tree)).
  - intros x. apply empty_arenas_own.
  - split; [done | vm_compute; lia].
  - assert (forall e, ar_base e = 0 /\ ar_len e = 0x9f000 \/ ar_base e = 0x100000 /\ ar_len e = 0x700000 ->
      area_ok ex_kernel_end (initrd_end ex_state) e) as Hok.
    { intros [base len type]. cbn [ar_base ar_len].
      intros [[-> ->] | [-> ->]]; (split; [split; [by vm_compute | by apply Z.mod_divide] |
        split; [by vm_compute | by apply Z.mod_divide] | by vm_compute |
        intros Hk; first [by vm_compute | exfalso; by vm_compute in Hk]]). }
    apply Forall_forall. intros e He Ha. unfold ex_areas in He.
    repeat (apply elem_of_cons in He as [-> | He]; [try discriminate Ha; apply Hok; cbn [ar_base ar_len]; tauto |]).
    by apply elem_of_nil in He.
  - cbn [apart_areas ex_areas]. split_and!; try done; repeat (apply Forall_cons; split); try (by apply Forall_nil);
      intros Ha Hb; try discriminate Ha; try discriminate Hb; cbn; lia.
  - intros e x He Hx [Ha Hx']. assert (ex_data + 200 <= area_start ex_kernel_end (initrd_end ex_state) e \/
      area_end e <= KERNEL_VMA) as Hd.
    { unfold ex_areas in He. repeat (apply elem_of_cons in He as [-> | He]; [try discriminate Ha; by left; vm_compute |]). by apply elem_of_nil in He. }
    unfold map_size in Hx. cbn [ex_areas length] in Hx. unfold ex_data in *. lia.
Qed.

(** The whole start succeeds here, so that the page table is not missing for lack
    of memory. *)
Lemma ex_boots :
  match parse_memory_map ex_kernel_end 4 (ex_data + 8) ex_state with
  | Ok b => match init_mmu_map (mem_regions b) (b_arenas b) (b_mem b) with Ok _ => true | Fault _ => false end
  | Fault _ => false
  end = true.
Proof. by vm_compute. Qed.


(** ** Maps for which the start goes wrong *)

Definition in_free (x : Z) (t : list_tree) : bool :=
  existsb (fun s => (seg_base s <=? x) && (x <? seg_end s)) (segments t).

(** Whether a byte is free memory, where the new page table maps it, and the end of
    the kernel's virtual memory that [ioremap] continues from. *)
Definition byte_at (x : Z) (tags : list (Z * list Z)) : outcome (bool * option Z * Z) :=
  '(b, (cr3, _, m)) ← boot_run tags;
  Ok (in_free x (small_arena (b_arenas b)) || in_free x (large_arena (b_arenas b)), translate m cr3 x, kernel_vm_end b).

Definition ex_module : Z * list Z := (MODULES_TAG, le_split 4 0x300000 ++ le_split 4 0x345678 ++ [0]).

