(* ===== verification/Ioport.v ===== *)
(** * Device registers

    arch/x86_64/ioport.c, mmio.c and pci.c, and kernel/ioport.rs.  The devices are
    the class [Hardware]: they answer reads and writes of their registers, in the
    port space and on the memory bus, and see the main memory when they do.  The
    code of the drivers runs in the state monad [io] over the devices and the part
    of the kernel that the drivers use. *)

From S2P Require Import Prelude Align Mem PageAlloc Mmu MmuProof Exceptions Irq.
#[local] Open Scope Z_scope.

(** ** The devices *)

(** The first argument is the number of bytes; memory is given by physical
    addresses. *)
Class Hardware (B : Type) := {
  port_in : nat -> Z -> B -> Z * B;
  port_out : nat -> Z -> Z -> mem -> B -> B;
  bus_in : nat -> Z -> B -> Z * B;
  bus_out : nat -> Z -> Z -> mem -> B -> B
}.

(** The state of the driver side: [d_vm_end] is [kernel_vm_end] of ioremap.c,
    [d_apic_base] the variable [_apic_base], [d_drivers] are the objects of the
    device drivers, by the order of their creation, and [d_registered] the devices
    that have been registered with their names. *)
Record Devices (B Dev : Type) := MkDevices {
  d_hw : B;
  d_vm_end : Z;
  d_irqs : irq_state;
  d_apic_base : Z;
  d_drivers : list Dev;
  d_registered : list (list Z * Z)
}.
Arguments MkDevices {B Dev} d_hw d_vm_end d_irqs d_apic_base d_drivers d_registered.
Arguments d_hw {B Dev} _.
Arguments d_vm_end {B Dev} _.
Arguments d_irqs {B Dev} _.
Arguments d_apic_base {B Dev} _.
Arguments d_drivers {B Dev} _.
Arguments d_registered {B Dev} _.

(** [mc_cr3] is the translation table in use. *)
Record machine (A B Dev : Type) := MkMachine {
  mc_pages : A;
  mc_mem : mem;
  mc_cr3 : Z;
  mc_dev : Devices B Dev
}.
Arguments MkMachine {A B Dev} mc_pages mc_mem mc_cr3 mc_dev.
Arguments mc_pages {A B Dev} _.
Arguments mc_mem {A B Dev} _.
Arguments mc_cr3 {A B Dev} _.
Arguments mc_dev {A B Dev} _.

(** ** The monad *)

Definition io (A B Dev X : Type) : Type := machine A B Dev -> outcome (X * machine A B Dev).

#[global] Instance io_ret A B Dev : MRet (io A B Dev) := fun X x s => Ok (x, s).
#[global] Instance io_bind A B Dev : MBind (io A B Dev) := fun X Y f c s => '(x, s) ← c s; f x s.

Section Operations.
Context {A B Dev : Type} `{PageAllocator A} `{Hardware B}.
Notation machine := (machine A B Dev).
Notation io := (io A B Dev).

Definition fail {X} (f : fault) : io X := fun s => Fault f.

(** A loop over a list that passes a value on. *)
Fixpoint for_each {X Y} (l : list Y) (f : Y -> X -> io X) (x : X) : io X :=
  match l with
  | [] => mret x
  | y :: l => x ← f y x; for_each l f x
  end.

Definition set_hw (b : B) (d : Devices B Dev) : Devices B Dev :=
  MkDevices b (d_vm_end d) (d_irqs d) (d_apic_base d) (d_drivers d) (d_registered d).
Definition set_irqs (i : irq_state) (d : Devices B Dev) : Devices B Dev :=
  MkDevices (d_hw d) (d_vm_end d) i (d_apic_base d) (d_drivers d) (d_registered d).
Definition set_vm_end (e : Z) (d : Devices B Dev) : Devices B Dev :=
  MkDevices (d_hw d) e (d_irqs d) (d_apic_base d) (d_drivers d) (d_registered d).
Definition set_drivers (l : list Dev) (d : Devices B Dev) : Devices B Dev :=
  MkDevices (d_hw d) (d_vm_end d) (d_irqs d) (d_apic_base d) l (d_registered d).
Definition set_registered (l : list (list Z * Z)) (d : Devices B Dev) : Devices B Dev :=
  MkDevices (d_hw d) (d_vm_end d) (d_irqs d) (d_apic_base d) (d_drivers d) l.

Definition put_dev (d : Devices B Dev) (s : machine) : machine := MkMachine (mc_pages s) (mc_mem s) (mc_cr3 s) d.
Definition put_mem (m : mem) (s : machine) : machine := MkMachine (mc_pages s) m (mc_cr3 s) (mc_dev s).

(** What a function on the page allocator and the memory does. *)
Definition with_mem {X} (f : A -> mem -> outcome (X * A * mem)) : io X := fun s =>
  '(x, a, m) ← f (mc_pages s) (mc_mem s);
  Ok (x, MkMachine a m (mc_cr3 s) (mc_dev s)).

Definition modify_mem (f : mem -> mem) : io unit := fun s => Ok (tt, put_mem (f (mc_mem s)) s).

(** ** ioport.c *)

Definition pio_read (n : nat) (port : Z) : io Z := fun s =>
  let '(v, b) := port_in n port (d_hw (mc_dev s)) in
  Ok (v mod 2 ^ (8 * Z.of_nat n), put_dev (set_hw b (mc_dev s)) s).

Definition pio_write (n : nat) (v port : Z) : io unit := fun s =>
  Ok (tt, put_dev (set_hw (port_out n v port (mc_mem s) (d_hw (mc_dev s))) (mc_dev s)) s).

Definition pio_read8 (port : Z) : io Z := pio_read 1 port.
Definition pio_read16 (port : Z) : io Z := pio_read 2 port.
Definition pio_read32 (port : Z) : io Z := pio_read 4 port.
Definition pio_write8 (v port : Z) : io unit := pio_write 1 v port.
Definition pio_write16 (v port : Z) : io unit := pio_write 2 v port.
Definition pio_write32 (v port : Z) : io unit := pio_write 4 v port.

(** ** mmio.c *)

(** The address is translated; without a translation the access is a page fault
    of the kernel. *)
Definition mmio_read (n : nat) (addr : Z) : io Z := fun s =>
  match translate (mc_mem s) (mc_cr3 s) addr with
  | Some pa =>
      let '(v, b) := bus_in n pa (d_hw (mc_dev s)) in
      Ok (v mod 2 ^ (8 * Z.of_nat n), put_dev (set_hw b (mc_dev s)) s)
  | None => Fault Panic
  end.

Definition mmio_write (n : nat) (v addr : Z) : io unit := fun s =>
  match translate (mc_mem s) (mc_cr3 s) addr with
  | Some pa => Ok (tt, put_dev (set_hw (bus_out n v pa (mc_mem s) (d_hw (mc_dev s))) (mc_dev s)) s)
  | None => Fault Panic
  end.

Definition mmio_read8 (addr : Z) : io Z := mmio_read 1 addr.
Definition mmio_read16 (addr : Z) : io Z := mmio_read 2 addr.
Definition mmio_read32 (addr : Z) : io Z := mmio_read 4 addr.
Definition mmio_read64 (addr : Z) : io Z := mmio_read 8 addr.
Definition mmio_write8 (v addr : Z) : io unit := mmio_write 1 v addr.
Definition mmio_write16 (v addr : Z) : io unit := mmio_write 2 v addr.
Definition mmio_write32 (v addr : Z) : io unit := mmio_write 4 v addr.
Definition mmio_write64 (v addr : Z) : io unit := mmio_write 8 v addr.

(** ** kernel/ioport.rs *)

Inductive IOPort :=
  | PortMemory (base_addr size : Z)
  | PortIO (iobase size : Z).

Definition remap (p : IOPort) (offset new_size : Z) : option IOPort :=
  match p with
  | PortMemory base_addr size =>
      if u64 (base_addr + size) <? offset then None
      else Some (PortMemory (u64 (base_addr + offset)) new_size)
  | PortIO iobase size =>
      if u32 (iobase + size) <? offset then None
      else Some (PortIO (u16 (iobase + u16 offset)) new_size)
  end.

Definition read8 (p : IOPort) (offset : Z) : io Z :=
  match p with
  | PortMemory base_addr _ => mmio_read8 (u64 (base_addr + offset))
  | PortIO iobase _ => pio_read8 (u16 (iobase + u16 offset))
  end.

Definition write8 (p : IOPort) (value offset : Z) : io unit :=
  match p with
  | PortMemory base_addr _ => mmio_write8 value (u64 (base_addr + offset))
  | PortIO iobase _ => pio_write8 value (u16 (iobase + u16 offset))
  end.

Definition read16 (p : IOPort) (offset : Z) : io Z :=
  match p with
  | PortMemory base_addr _ => mmio_read16 (u64 (base_addr + offset))
  | PortIO iobase _ => pio_read16 (u16 (iobase + u16 offset))
  end.

Definition write16 (p : IOPort) (value offset : Z) : io unit :=
  match p with
  | PortMemory base_addr _ => mmio_write16 value (u64 (base_addr + offset))
  | PortIO iobase _ => pio_write16 value (u16 (iobase + u16 offset))
  end.

Definition read32 (p : IOPort) (offset : Z) : io Z :=
  match p with
  | PortMemory base_addr _ => mmio_read32 (u64 (base_addr + offset))
  | PortIO iobase _ => pio_read32 (u16 (iobase + u16 offset))
  end.

Definition write32 (p : IOPort) (value offset : Z) : io unit :=
  match p with
  | PortMemory base_addr _ => mmio_write32 value (u64 (base_addr + offset))
  | PortIO iobase _ => pio_write32 value (u16 (iobase + u16 offset))
  end.

(** The 64-bit accesses of a port are [unimplemented!]. *)
Definition read64 (p : IOPort) (offset : Z) : io Z :=
  match p with
  | PortMemory base_addr _ => mmio_read64 (u64 (base_addr + offset))
  | PortIO _ _ => fail Panic
  end.

Definition write64 (p : IOPort) (value offset : Z) : io unit :=
  match p with
  | PortMemory base_addr _ => mmio_write64 value (u64 (base_addr + offset))
  | PortIO _ _ => fail Panic
  end.

(** ** arch/x86_64/pci.c *)

Definition PCI_CONFIG_ADDRESS : Z := 0xcf8.
Definition PCI_CONFIG_DATA : Z := 0xcfc.
Definition PCI_CONFIG_ADDRESS_ENABLE : Z := 0x80000000.

Definition pci_config_addr (bus slot func offset : Z) : Z :=
  let addr := PCI_CONFIG_ADDRESS_ENABLE in
  let addr := Z.lor addr (Z.shiftl bus 16) in
  let addr := Z.lor addr (Z.shiftl slot 11) in
  let addr := Z.lor addr (Z.shiftl func 8) in
  Z.lor addr (Z.land offset 0xfc).

Definition pci_config_read_u8 (bus slot func offset : Z) : io Z :=
  pio_write32 (u32 (pci_config_addr bus slot func offset)) PCI_CONFIG_ADDRESS ;;
  pio_read8 (PCI_CONFIG_DATA + Z.land offset 3).

Definition pci_config_read_u16 (bus slot func offset : Z) : io Z :=
  pio_write32 (u32 (pci_config_addr bus slot func offset)) PCI_CONFIG_ADDRESS ;;
  pio_read16 (PCI_CONFIG_DATA + Z.land offset 2).

Definition pci_config_read_u32 (bus slot func offset : Z) : io Z :=
  pio_write32 (u32 (pci_config_addr bus slot func offset)) PCI_CONFIG_ADDRESS ;;
  pio_read32 PCI_CONFIG_DATA.

Definition pci_config_write_u16 (bus slot func offset value : Z) : io unit :=
  pio_write32 (u32 (pci_config_addr bus slot func offset)) PCI_CONFIG_ADDRESS ;;
  pio_write16 value (PCI_CONFIG_DATA + Z.land offset 2).

Definition pci_config_write_u32 (bus slot func offset value : Z) : io unit :=
  pio_write32 (u32 (pci_config_addr bus slot func offset)) PCI_CONFIG_ADDRESS ;;
  pio_write32 value PCI_CONFIG_DATA.

End Operations.
