(* ===== verification/Pci.v ===== *)
(** * The PCI bus

    drivers/pci/lib.rs: the configuration space, the base address registers, the
    capabilities, interrupts by messages (MSI-X) and the search for devices.  The
    lines that are printed are left out.  Rust integers wrap around: the kernel is
    built in release mode.  Indices of arrays are checked by the language, and an
    index that is out of bounds panics. *)

From S2P Require Import Prelude Align Mem PageAlloc Mmu Exceptions Irq Ioport.
#[local] Open Scope Z_scope.

Definition MSIX_ENTRY_SIZE : Z := 16.
Definition MSIX_ENTRY_ADDR : Z := 0.
Definition MSIX_ENTRY_DATA : Z := 8.
Definition MSIX_ENTRY_CONTROL : Z := 12.

Definition PCI_VENDOR_ID_REDHAT : Z := 0x1af4.

Definition PCI_CFG_VENDOR_ID : Z := 0x00.
Definition PCI_CFG_DEVICE_ID : Z := 0x02.
Definition PCI_CFG_COMMAND : Z := 0x04.
Definition PCI_CFG_STATUS : Z := 0x06.
Definition PCI_CFG_CLASS_REVISION : Z := 0x08.
Definition PCI_CFG_REVISION_ID : Z := 0x08.
Definition PCI_CFG_CLASS_CODE : Z := 0x08.
Definition PCI_CFG_SUBCLASS : Z := 0x08.
Definition PCI_CFG_PROG_IF : Z := 0x08.
Definition PCI_CFG_HEADER_TYPE : Z := 0x0e.
Definition PCI_CFG_BARS : Z := 0x10.
Definition PCI_CFG_SECONDARY_BUS : Z := 0x19.
Definition PCI_CFG_CAPABILITIES_PTR : Z := 0x34.

Definition PCI_HEADER_TYPE_MASK : Z := 0x03.
Definition PCI_HEADER_TYPE_DEVICE : Z := 0x00.
Definition PCI_HEADER_TYPE_BRIDGE : Z := 0x01.
Definition PCI_HEADER_TYPE_PCCARD : Z := 0x02.

Definition PCI_CMD_BUS_MASTER : Z := Z.shiftl 1 2.
Definition PCI_CMD_INTX_DISABLE : Z := Z.shiftl 1 10.
Definition PCI_CMD_BAR_MEM_ENABLE : Z := Z.shiftl 1 1.
Definition PCI_CMD_BAR_IO_ENABLE : Z := Z.shiftl 1 0.

Definition PCI_STATUS_CAPABILITIES_LIST : Z := Z.shiftl 1 4.
Definition PCI_CAP_ID_OFFSET : Z := 0x00.
Definition PCI_CAP_NEXT_OFFSET : Z := 0x01.
Definition PCI_CAPABILITY_VENDOR : Z := 0x09.
Definition PCI_CAPABILITY_MSIX : Z := 0x11.

Definition PCI_MSIX_MSG_CTRL : Z := 0x02.
Definition PCI_MSIX_MSG_CTRL_MSIX_ENABLE : Z := Z.shiftl 1 15.
Definition PCI_MSIX_MSG_CTRL_FUNCTION_MASK : Z := Z.shiftl 1 14.
Definition PCI_MSIX_MSG_CTRL_TABLE_SIZE : Z := Z.shiftl 1 11 - 1.
Definition PCI_MSIX_TABLE_OFFSET : Z := 0x04.
Definition PCI_MSIX_TABLE_OFFSET_MASK : Z := 0x7ffffff8.
Definition PCI_MSIX_TABLE_BIR_MASK : Z := 0x00000007.
Definition PCI_MSIX_ENTRY_VECTOR_CTRL_MASK_BIT : Z := Z.shiftl 1 0.

(** ** Data *)

Record DeviceID := MkDeviceID {
  vendor_id : Z;
  device_id : Z;
  revision_id : Z;
  header_type : Z;
  class_code : Z;
  subclass : Z;
  prog_if : Z
}.

Definition DeviceID_new (vendor_id device_id : Z) : DeviceID := MkDeviceID vendor_id device_id 0 0 0 0 0.

Inductive Locatable := Bits32 | Bits64.

Inductive BAR :=
  | BARMemory (base_addr size : Z) (prefetchable : bool) (locatable : Locatable)
  | BARIO (iobase size : Z).

Record PCIFunction := MkFunction { bus_id : Z; slot_id : Z; func_id : Z }.

Record MSIX := MkMSIX { msix_offset : Z; table_bar : Z; table_offset : Z }.

Record PCIDevice := MkPCIDevice {
  func : PCIFunction;
  dev_id : DeviceID;
  bars : list (option IOPort);
  msix : option MSIX
}.

Section Pci.
Context {A B Dev : Type} `{PageAllocator A} `{Hardware B}.
Notation io := (io A B Dev).

(** ** Configuration space *)

Definition read_config_u8 (f : PCIFunction) (offset : Z) : io Z :=
  pci_config_read_u8 (bus_id f) (slot_id f) (func_id f) offset.
Definition read_config_u16 (f : PCIFunction) (offset : Z) : io Z :=
  pci_config_read_u16 (bus_id f) (slot_id f) (func_id f) offset.
Definition read_config_u32 (f : PCIFunction) (offset : Z) : io Z :=
  pci_config_read_u32 (bus_id f) (slot_id f) (func_id f) offset.
Definition write_config_u16 (f : PCIFunction) (offset value : Z) : io unit :=
  pci_config_write_u16 (bus_id f) (slot_id f) (func_id f) offset value.
Definition write_config_u32 (f : PCIFunction) (offset value : Z) : io unit :=
  pci_config_write_u32 (bus_id f) (slot_id f) (func_id f) offset value.

(** The loop of both searches.  An offset is a byte: a list that ends does so
    within 256 steps. *)
Fixpoint capability_loop (fuel : nat) (f : PCIFunction) (cap_id offset : Z) : io (option Z) :=
  match fuel with
  | O => fail OutOfFuel
  | S fuel =>
      if offset =? 0 then mret None
      else
        id ← read_config_u8 f (u8 (offset + PCI_CAP_ID_OFFSET));
        if id =? cap_id then mret (Some offset)
        else
          offset ← read_config_u8 f (u8 (offset + PCI_CAP_NEXT_OFFSET));
          capability_loop fuel f cap_id offset
  end.

Definition find_capability (f : PCIFunction) (cap_id : Z) : io (option Z) :=
  status ← read_config_u8 f PCI_CFG_STATUS;
  if Z.land status PCI_STATUS_CAPABILITIES_LIST =? 0 then mret None
  else
    offset ← read_config_u8 f PCI_CFG_CAPABILITIES_PTR;
    capability_loop 256 f cap_id offset.

Definition find_next_capability (f : PCIFunction) (cap_id pos : Z) : io (option Z) :=
  offset ← read_config_u8 f (u8 (pos + PCI_CAP_NEXT_OFFSET));
  capability_loop 256 f cap_id offset.

(** ** Base address registers *)

(** The size: all ones are written, and the register is restored. *)
Definition bar_size (f : PCIFunction) (offset raw_bar : Z) : io Z :=
  write_config_u32 f offset 0xffffffff ;;
  v ← read_config_u32 f offset;
  write_config_u32 f offset raw_bar ;;
  mret (u32 (u32 (Z.lnot v) + 1)).

Definition decode (f : PCIFunction) (bar_idx : Z) : io (option BAR * Z) :=
  let offset := u8 (PCI_CFG_BARS + u8 (Z.shiftl bar_idx 2)) in
  raw_bar ← read_config_u32 f offset;
  if raw_bar =? 0 then mret (None, bar_idx + 1)
  else if Z.land raw_bar 0x01 =? 0 then
    let bar_type := Z.shiftr (Z.land raw_bar 6) 1 in
    let prefetchable := negb (Z.land raw_bar 8 =? 0) in
    if bar_type =? 0 then
      let base_addr := Z.land raw_bar (Z.lnot 0xf) in
      size ← bar_size f offset raw_bar;
      mret (Some (BARMemory base_addr size prefetchable Bits32), bar_idx + 1)
    else if bar_type =? 2 then
      let next_offset := u8 (PCI_CFG_BARS + u8 (Z.shiftl (bar_idx + 1) 2)) in
      next_bar ← read_config_u32 f next_offset;
      let base_addr := Z.lor (Z.land raw_bar (Z.lnot 0xf)) (Z.shiftl next_bar 32) in
      size ← bar_size f offset raw_bar;
      mret (Some (BARMemory base_addr size prefetchable Bits64), bar_idx + 2)
    else mret (None, bar_idx + 1)
  else
    size ← bar_size f offset raw_bar;
    mret (Some (BARIO (u16 (Z.land raw_bar (Z.lnot 0x03))) size), bar_idx + 1).

(** [BAR::remap]: memory is mapped into the kernel's address space; a failure of
    [ioremap] is the address 0. *)
Definition bar_remap (b : BAR) : io IOPort :=
  match b with
  | BARMemory base_addr size _ _ => fun s =>
      '(addr, vm_end, a, m) ← ioremap (mc_cr3 s) (d_vm_end (mc_dev s)) base_addr size (mc_pages s) (mc_mem s);
      Ok (PortMemory addr size, MkMachine a m (mc_cr3 s) (set_vm_end vm_end (mc_dev s)))
  | BARIO iobase size => mret (PortIO iobase size)
  end.

(** The loop over the registers of [probe]; [fuel] bounds their number. *)
Fixpoint bars_loop (fuel : nat) (f : PCIFunction) (max_bars bar_idx : Z) (l : list (option IOPort))
  : io (list (option IOPort)) :=
  match fuel with
  | O => mret l
  | S fuel =>
      if bar_idx <? max_bars then
        '(bar, next_idx) ← decode f bar_idx;
        port ← match bar with
               | Some bar => p ← bar_remap bar; mret (Some p)
               | None => mret None
               end;
        bars_loop fuel f max_bars next_idx (<[Z.to_nat bar_idx := port]> l)
      else mret l
  end.

(** ** Interrupts by messages *)

(** [register_device]. *)
Definition register_named (name : list Z) (handle : Z) : io unit := fun s =>
  Ok (tt, put_dev (set_registered (d_registered (mc_dev s) ++ [(name, handle)]) (mc_dev s)) s).

Definition find_msix (f : PCIFunction) : io (option MSIX) :=
  off ← find_capability f PCI_CAPABILITY_MSIX;
  match off with
  | Some off =>
      msix_table ← read_config_u32 f (u8 (off + PCI_MSIX_TABLE_OFFSET));
      mret (Some (MkMSIX off (Z.land msix_table PCI_MSIX_TABLE_BIR_MASK) (Z.land msix_table PCI_MSIX_TABLE_OFFSET_MASK)))
  | None => mret None
  end.

Definition get_entry_addr (id : Z) : Z := id * MSIX_ENTRY_SIZE.

Definition get_msix_table (dev : PCIDevice) : io (option IOPort) :=
  match msix dev with
  | Some x =>
      match bars dev !! Z.to_nat (table_bar x) with
      | Some port => mret port
      | None => fail Panic
      end
  | None => mret None
  end.

Definition write_msix_entry (dev : PCIDevice) (id addr data : Z) : io unit :=
  table ← get_msix_table dev;
  match table with
  | Some ioport =>
      let entry_addr := get_entry_addr id in
      write64 ioport addr (entry_addr + MSIX_ENTRY_ADDR) ;;
      write32 ioport data (entry_addr + MSIX_ENTRY_DATA)
  | None => mret tt
  end.

Definition read_msix_entry_ctrl (dev : PCIDevice) (id : Z) : io Z :=
  table ← get_msix_table dev;
  match table with
  | Some ioport => read32 ioport (get_entry_addr id + MSIX_ENTRY_CONTROL)
  | None => mret 0
  end.

Definition write_msix_entry_ctrl (dev : PCIDevice) (id ctrl_data : Z) : io unit :=
  table ← get_msix_table dev;
  match table with
  | Some ioport => write32 ioport ctrl_data (get_entry_addr id + MSIX_ENTRY_CONTROL)
  | None => mret tt
  end.

Definition mask_msix_entry (dev : PCIDevice) (id : Z) : io unit :=
  ctrl_data ← read_msix_entry_ctrl dev id;
  write_msix_entry_ctrl dev id (Z.lor ctrl_data PCI_MSIX_ENTRY_VECTOR_CTRL_MASK_BIT).

Definition unmask_msix_entry (dev : PCIDevice) (id : Z) : io unit :=
  ctrl_data ← read_msix_entry_ctrl dev id;
  write_msix_entry_ctrl dev id (Z.land ctrl_data (u32 (Z.lnot PCI_MSIX_ENTRY_VECTOR_CTRL_MASK_BIT))).

Definition disable_intx (dev : PCIDevice) : io unit :=
  cmd ← read_config_u16 (func dev) PCI_CFG_COMMAND;
  write_config_u16 (func dev) PCI_CFG_COMMAND (Z.lor cmd PCI_CMD_INTX_DISABLE).

Definition set_bus_master (dev : PCIDevice) (master : bool) : io unit :=
  cmd ← read_config_u16 (func dev) PCI_CFG_COMMAND;
  let cmd := if master then Z.lor cmd PCI_CMD_BUS_MASTER else Z.land cmd (u16 (Z.lnot PCI_CMD_BUS_MASTER)) in
  write_config_u16 (func dev) PCI_CFG_COMMAND cmd.

(** [&] binds weaker than [+]. *)
Definition enable_msix (dev : PCIDevice) : io unit :=
  match msix dev with
  | Some x =>
      disable_intx dev ;;
      control ← read_config_u16 (func dev) (u8 (msix_offset x + PCI_MSIX_MSG_CTRL));
      let control := Z.lor control PCI_MSIX_MSG_CTRL_MSIX_ENABLE in
      let control := Z.lor control PCI_MSIX_MSG_CTRL_FUNCTION_MASK in
      write_config_u16 (func dev) (u8 (msix_offset x + PCI_MSIX_MSG_CTRL)) control ;;
      let table_size := Z.land control (PCI_MSIX_MSG_CTRL_TABLE_SIZE + 1) in
      for_each (seqZ 0 table_size) (fun id _ => mask_msix_entry dev id) tt ;;
      control ← read_config_u16 (func dev) (u8 (msix_offset x + PCI_MSIX_MSG_CTRL));
      write_config_u16 (func dev) (u8 (msix_offset x + PCI_MSIX_MSG_CTRL))
        (Z.land control (u16 (Z.lnot PCI_MSIX_MSG_CTRL_FUNCTION_MASK)))
  | None => mret tt
  end.

(** [MSIMessage::compose]. *)
Definition compose (vector : Z) : io (Z * Z) := fun s =>
  Ok (apic_compose_msi_msg (d_apic_base (mc_dev s)) vector 0, s).

Definition request_irq_io (handler arg : Z) : io Z := fun s =>
  '(vector, irqs) ← request_irq handler arg (d_irqs (mc_dev s));
  Ok (vector, put_dev (set_irqs irqs (mc_dev s)) s).

Definition register_irq (dev : PCIDevice) (entry handler arg : Z) : io Z :=
  vector ← request_irq_io handler arg;
  if vector <? 0 then mret vector
  else
    '(msg_addr, msg_data) ← compose (u8 vector);
    write_msix_entry dev entry msg_addr msg_data ;;
    mret vector.

Definition enable_irq (dev : PCIDevice) (entry : Z) : io unit := unmask_msix_entry dev entry.

(** ** The search for devices *)

(** A driver: its [probe] returns the name and the handle of the new device. *)
Record PCIDriver := MkDriver {
  driver_id : DeviceID;
  driver_probe : PCIDevice -> io (option (list Z * Z))
}.

Context (PCI_DRIVER_LIST : list PCIDriver).

Definition probe (f : PCIFunction) (header_type : Z) : io PCIDevice :=
  vendor ← read_config_u16 f PCI_CFG_VENDOR_ID;
  device ← read_config_u16 f PCI_CFG_DEVICE_ID;
  revision ← read_config_u8 f PCI_CFG_REVISION_ID;
  class ← read_config_u8 f PCI_CFG_CLASS_CODE;
  sub ← read_config_u8 f PCI_CFG_SUBCLASS;
  prog ← read_config_u8 f PCI_CFG_PROG_IF;
  let ty := Z.land header_type PCI_HEADER_TYPE_MASK in
  let max_bars := if ty =? PCI_HEADER_TYPE_DEVICE then 6 else if ty =? PCI_HEADER_TYPE_PCCARD then 2 else 0 in
  ports ← bars_loop 6 f max_bars 0 (replicate 6 None);
  x ← find_msix f;
  cmd ← read_config_u16 f PCI_CFG_COMMAND;
  let cmd := Z.lor cmd PCI_CMD_BAR_MEM_ENABLE in
  let cmd := Z.lor cmd PCI_CMD_BAR_IO_ENABLE in
  write_config_u16 f PCI_CFG_COMMAND cmd ;;
  let dev := MkPCIDevice f (MkDeviceID vendor device revision header_type class sub prog) ports x in
  for_each PCI_DRIVER_LIST (fun d _ =>
    if negb (vendor_id (driver_id d) =? vendor_id (dev_id dev)) then mret tt
    else if negb (device_id (driver_id d) =? device_id (dev_id dev)) then mret tt
    else
      r ← driver_probe d dev;
      match r with
      | Some (name, handle) => register_named name handle
      | None => mret tt
      end) tt ;;
  mret dev.

Definition pci_probe_slot (probe_bus : Z -> io bool) (bus slot : Z) : io bool :=
  for_each (seqZ 0 8) (fun id result =>
    let f := MkFunction bus slot id in
    class_revision ← read_config_u32 f PCI_CFG_CLASS_REVISION;
    if class_revision =? 0xffffffff then mret result
    else
      header_type ← read_config_u8 f PCI_CFG_HEADER_TYPE;
      if Z.land header_type PCI_HEADER_TYPE_MASK =? PCI_HEADER_TYPE_BRIDGE then
        secondary_bus ← read_config_u8 f PCI_CFG_SECONDARY_BUS;
        probe_bus secondary_bus ;;
        mret result
      else
        probe f header_type ;;
        mret true) false.

(** A bridge leads to the next bus; [fuel] bounds the depth. *)
Fixpoint pci_probe_bus (fuel : nat) (bus : Z) : io bool :=
  match fuel with
  | O => fail OutOfFuel
  | S fuel =>
      for_each (seqZ 0 32) (fun slot result =>
        vendor_id ← pci_config_read_u16 bus slot 0 PCI_CFG_VENDOR_ID;
        if vendor_id =? 0xffff then mret result
        else
          r ← pci_probe_slot (pci_probe_bus fuel) bus slot;
          mret (result || r)) false
  end.

(** The first bus without a device ends the search. *)
Definition pci_probe (fuel : nat) : io unit :=
  for_each (seqZ 0 256) (fun bus (more : bool) =>
    if more then pci_probe_bus fuel bus else mret false) true ;;
  mret tt.

End Pci.
