(* ===== verification/Virtqueue.v ===== *)
(** * Virtqueues

    drivers/virtio/virtqueue.rs.  The descriptor table, the available ring and the
    used ring are in memory that the device shares.  An index of one of the rings
    or of the table is checked against [queue_size].  The second part of the file
    is about what the device reads from them. *)

From S2P Require Import Prelude Align Mem PageAlloc PageAllocProof Kmem KmemProof KmemAlloc KmemTheorems.
#[local] Open Scope Z_scope.

(** ** Layout *)

Definition sizeof_VirtqDesc : Z := 16.
Definition desc_addr (d : Z) : Z := d.
Definition desc_len (d : Z) : Z := d + 8.
Definition desc_flags (d : Z) : Z := d + 12.
Definition desc_next (d : Z) : Z := d + 14.

Definition VIRTQ_DESC_F_WRITE : Z := 2.

Definition avail_idx (r : Z) : Z := r + 2.
Definition avail_ring (r i : Z) : Z := r + 4 + 2 * i.
Definition used_idx (r : Z) : Z := r + 2.
Definition used_ring (r i : Z) : Z := r + 4 + 8 * i.
Definition used_id (e : Z) : Z := e.
Definition used_len (e : Z) : Z := e + 4.

Record Virtqueue := MkVirtqueue {
  queue_idx : Z;
  queue_size : Z;
  notify_off : Z;
  last_seen_used : Z;
  raw_descriptor_table_ptr : Z;
  raw_available_ring_ptr : Z;
  raw_used_ring_ptr : Z
}.

(** ** Operations *)

Section Alloc.
Context {A : Type} `{PageAllocator A}.
Context (kmem_slab_cache kmalloc_caches : Z).

Definition zalloc_or_panic (size : Z) (a : A) (m : mem) : outcome (Z * A * mem) :=
  '(p, a, m) ← kmem_zalloc kmem_slab_cache kmalloc_caches size a m;
  if p =? 0 then Fault Panic else Ok (p, a, m).

Definition Virtqueue_new (queue_idx queue_size notify_off : Z) (a : A) (m : mem) : outcome (Virtqueue * A * mem) :=
  '(desc, a, m) ← zalloc_or_panic (queue_size * 16) a m;
  '(avail, a, m) ← zalloc_or_panic (queue_size * 2 + 6) a m;
  '(used, a, m) ← zalloc_or_panic (queue_size * 4 + 6) a m;
  Ok (MkVirtqueue queue_idx queue_size notify_off 0 desc avail used, a, m).

Definition Virtqueue_free (vq : Virtqueue) (a : A) (m : mem) : outcome (A * mem) :=
  '(a, m) ← kmem_free kmalloc_caches (raw_descriptor_table_ptr vq) (queue_size vq * 16) a m;
  '(a, m) ← kmem_free kmalloc_caches (raw_available_ring_ptr vq) (queue_size vq * 2 + 6) a m;
  kmem_free kmalloc_caches (raw_used_ring_ptr vq) (queue_size vq * 4 + 6) a m.

End Alloc.

Definition advance_last_seen_used (vq : Virtqueue) : Virtqueue :=
  MkVirtqueue (queue_idx vq) (queue_size vq) (notify_off vq) (u16 (last_seen_used vq + 1))
    (raw_descriptor_table_ptr vq) (raw_available_ring_ptr vq) (raw_used_ring_ptr vq).

Definition last_used_idx (m : mem) (vq : Virtqueue) : Z := load16 m (used_idx (raw_used_ring_ptr vq)).

(** The remainder by [queue_size as u16] panics for 0. *)
Definition ring_index (vq : Virtqueue) (idx : Z) : outcome Z :=
  if u16 (queue_size vq) =? 0 then Fault DivByZero else Ok (idx mod u16 (queue_size vq)).

Definition add_buf_idx (m : mem) (vq : Virtqueue) (idx : Z) : outcome mem :=
  let avail := raw_available_ring_ptr vq in
  i ← ring_index vq (load16 m (avail_idx avail));
  if queue_size vq <=? i then Fault Panic
  else
    let m := store16 m (avail_ring avail i) idx in
    Ok (store16 m (avail_idx avail) (u16 (load16 m (avail_idx avail) + 1))).

Definition store_desc (m : mem) (d addr len flags next : Z) : mem :=
  let m := store64 m (desc_addr d) addr in
  let m := store32 m (desc_len d) (u32 len) in
  let m := store16 m (desc_flags d) flags in
  store16 m (desc_next d) next.

(** The only descriptor that is used is the first. *)
Definition add_buf (m : mem) (vq : Virtqueue) (addr len flags : Z) : outcome mem :=
  let idx := 0 in
  if queue_size vq <=? idx then Fault Panic
  else
    let m := store_desc m (raw_descriptor_table_ptr vq + sizeof_VirtqDesc * idx) addr len flags 0 in
    add_buf_idx m vq idx.

Definition add_inbuf (m : mem) (vq : Virtqueue) (addr len : Z) : outcome mem := add_buf m vq addr len VIRTQ_DESC_F_WRITE.
Definition add_outbuf (m : mem) (vq : Virtqueue) (addr len : Z) : outcome mem := add_buf m vq addr len 0.

Definition get_buf (m : mem) (vq : Virtqueue) (idx : Z) : outcome Z :=
  if queue_size vq <=? idx then Fault Panic
  else Ok (load64 m (desc_addr (raw_descriptor_table_ptr vq + sizeof_VirtqDesc * idx))).

Definition get_used_buf (m : mem) (vq : Virtqueue) (idx : Z) : outcome (Z * Z) :=
  if queue_size vq <=? idx then Fault Panic
  else
    let used := used_ring (raw_used_ring_ptr vq) idx in
    addr ← get_buf m vq (u16 (load32 m (used_id used)));
    Ok (addr, load32 m (used_len used)).

(** ** Virtqueues: what the device sees

    The device reads the available ring from the index where it stopped, and
    follows each entry to its descriptor.  Adding a buffer gives it one more
    entry.  With memory from the slab allocator the queue is in fresh memory. *)

(** ** The side of the device *)

(** A buffer: its address, its length and its flags. *)
Definition descriptor (m : mem) (table i : Z) : Z * Z * Z :=
  let d := table + sizeof_VirtqDesc * i in
  (load64 m (desc_addr d), load32 m (desc_len d), load16 m (desc_flags d)).

Definition avail_buffer (m : mem) (table avail size k : Z) : Z * Z * Z :=
  descriptor m table (load16 m (avail_ring avail (k mod size))).

(** The buffers from index [from] up to the index of the ring. *)
Definition available (m : mem) (table avail size from : Z) : list (Z * Z * Z) :=
  (fun k => avail_buffer m table avail size (u16 k)) <$> seqZ from (u16 (load16 m (avail_idx avail) - from)).

Definition vq_available (m : mem) (vq : Virtqueue) (from : Z) : list (Z * Z * Z) :=
  available m (raw_descriptor_table_ptr vq) (raw_available_ring_ptr vq) (queue_size vq) from.

Definition vq_index (m : mem) (vq : Virtqueue) : Z := load16 m (avail_idx (raw_available_ring_ptr vq)).

(** ** Adding a buffer *)

(** The size is a power of two; the table and the ring are apart. *)
Record vq_ok (vq : Virtqueue) : Prop := {
  vq_size : 0 < queue_size vq < 2 ^ 16;
  vq_divides : (queue_size vq | 2 ^ 16);
  vq_apart : raw_descriptor_table_ptr vq + 16 * queue_size vq <= raw_available_ring_ptr vq \/
    raw_available_ring_ptr vq + 2 * queue_size vq + 6 <= raw_descriptor_table_ptr vq
}.

(** What the driver writes of a queue. *)
Definition vq_byte (vq : Virtqueue) (x : Z) : Prop :=
  raw_descriptor_table_ptr vq <= x < raw_descriptor_table_ptr vq + 16 * queue_size vq \/
  raw_available_ring_ptr vq <= x < raw_available_ring_ptr vq + 2 * queue_size vq + 6.

Lemma vq_index_range m vq : 0 <= vq_index m vq < 2 ^ 16.
Proof. apply load16_range. Qed.

Lemma vq_index_changes P m m' vq :
  0 < queue_size vq -> changes P m m' -> (forall x, vq_byte vq x -> ~ P x) -> vq_index m' vq = vq_index m vq.
Proof.
  intros Hs Hc HP. apply (load_changes 2 P); [done|]. intros x Hx. apply HP. right. unfold avail_idx in Hx. lia.
Qed.

Lemma available_none m vq : vq_available m vq (vq_index m vq) = [].
Proof. unfold vq_available, available. fold (vq_index m vq). by rewrite Z.sub_diag. Qed.

Lemma available_one m vq from :
  0 <= from < 2 ^ 16 -> vq_index m vq = u16 (from + 1) ->
  vq_available m vq from = [avail_buffer m (raw_descriptor_table_ptr vq) (raw_available_ring_ptr vq) (queue_size vq) from].
Proof.
  intros Hf Hi. unfold vq_available, available. fold (vq_index m vq). rewrite Hi.
  replace (u16 (u16 (from + 1) - from)) with 1.
  - rewrite seqZ_cons, seqZ_nil by lia. cbn. by rewrite u16_small.
  - unfold u16. rewrite Zminus_mod_idemp_l. by replace (from + 1 - from) with 1 by lia.
Qed.

Lemma store_desc_read m d addr len flags next :
  let m' := store_desc m d addr len flags next in
  (load64 m' (desc_addr d), load32 m' (desc_len d), load16 m' (desc_flags d)) = (u64 addr, u32 len, u16 flags) /\
  changes (fun x => d <= x < d + 16) m m'.
Proof.
  unfold store_desc, desc_addr, desc_len, desc_flags, desc_next. cbv zeta. split.
  - mem_simpl. change (8 * Z.of_nat 4) with 32. unfold u32. by rewrite Z.mod_mod by lia.
  - repeat (eapply changes_trans; [|apply changes_store; simpl; lia]). apply changes_refl.
Qed.

(** The device finds the new buffer, and nothing else, behind what it saw before. *)
Lemma add_buf_spec m vq addr len flags :
  vq_ok vq ->
  exists m', add_buf m vq addr len flags = Ok m' /\
    vq_index m' vq = u16 (vq_index m vq + 1) /\
    vq_available m' vq (vq_index m vq) = [(u64 addr, u32 len, u16 flags)] /\
    changes (vq_byte vq) m m'.
Proof.
  intros Hok. destruct Hok as [Hs Hd Ha]. unfold add_buf, add_buf_idx, ring_index.
  rewrite (u16_small (queue_size vq)) by lia.
  destruct (Z.leb_spec (queue_size vq) 0); [lia|]. destruct (Z.eqb_spec (queue_size vq) 0); [lia|].
  set (d := raw_descriptor_table_ptr vq + sizeof_VirtqDesc * 0).
  destruct (store_desc_read m d addr len flags 0) as [Hrd Hch].
  set (m1 := store_desc m d addr len flags 0) in *.
  assert (load16 m1 (avail_idx (raw_available_ring_ptr vq)) = vq_index m vq) as Hi.
  { apply (load_changes 2 _ m m1 _ Hch). intros x Hx. unfold avail_idx, d, sizeof_VirtqDesc in *. lia. }
  rewrite Hi, Ok_bind. pose proof (vq_index_range m vq) as Hr. set (k := vq_index m vq) in *.
  pose proof (Z.mod_pos_bound k (queue_size vq) ltac:(lia)) as Hk.
  destruct (Z.leb_spec (queue_size vq) (k mod queue_size vq)); [lia|].
  set (i := avail_ring (raw_available_ring_ptr vq) (k mod queue_size vq)).
  set (m2 := store16 m1 i 0). set (w := u16 (load16 m2 (avail_idx (raw_available_ring_ptr vq)) + 1)).
  set (m3 := store16 m2 (avail_idx (raw_available_ring_ptr vq)) w).
  assert (w = u16 (k + 1)) as Hw.
  { unfold w, m2, i, avail_idx, avail_ring in *. unfold load16, store16. rewrite load_store_ne by (simpl; lia).
    by rewrite <- Hi. }
  exists m3. assert (vq_index m3 vq = u16 (k + 1)) as Hidx.
  { unfold vq_index, m3. rewrite load16_store16_eq, Hw. apply u16_small, u16_range. }
  split_and!; [done|done| |].
  - rewrite (available_one m3 vq k) by done. f_equal. unfold avail_buffer. fold i.
    assert (load16 m3 i = 0) as ->.
    { unfold m3, m2, i, avail_idx, avail_ring, load16, store16. rewrite load_store_ne by (simpl; lia). by rewrite load_store_eq. }
    rewrite <- Hrd. unfold descriptor. fold d. unfold m3, m2, i, avail_idx, avail_ring, load64, load32, load16, store16.
    by rewrite !load_store_ne by (unfold desc_addr, desc_len, desc_flags, d, sizeof_VirtqDesc; simpl; lia).
  - intros x Hx. assert (~ (d <= x < d + 16)) as Hx1 by (intros ?; apply Hx; left; unfold d, sizeof_VirtqDesc in *; lia).
    rewrite <- (Hch x Hx1). unfold m3, m2, store16.
    unfold vq_byte in Hx. rewrite !load8_store_out; [done| |]; unfold i, avail_idx, avail_ring; simpl; lia.
Qed.
