(* ===== verification/VirtioNet.v ===== *)
(** * The virtio network card

    drivers/virtio/net.rs, kernel/ioqueue.rs and the notifiers of kernel/event.rs.
    The driver keeps one page for the packets that it receives, which it maps into
    the process that acquires the device, and one page from which it sends.  The
    process puts its commands into a ring buffer in its own memory; the kernel
    reads it under the translation map of the process.  The objects of the driver
    are numbered; their heap memory is not modelled. *)

From Stdlib Require Import Ascii Strings.String.
From S2P Require Import Prelude Align Mem RingBuffer PageAlloc Kmem Mmu MmuProof Sched Vm Kernel Process.
From S2P Require Import Printf Exceptions Irq Ioport Pci Virtqueue.
#[local] Open Scope Z_scope.

(** ** kernel/ioqueue.rs *)

Inductive Opcode := Submit | Complete.

Record IOCmd := MkIOCmd { opcode : Opcode; cmd_addr : Z; cmd_len : Z }.

Definition RAW_IO_OPCODE_SUBMIT : Z := 1.
Definition RAW_IO_OPCODE_COMPLETE : Z := 2.
Definition sizeof_RawIOCmd : Z := 24.

(** A read of the kernel through an address of the process: without a mapping it
    is a page fault that nobody repairs. *)
Definition load_user (n : nat) (m : mem) (cr3 va : Z) : outcome Z :=
  match resolve_bytes n m cr3 va with
  | Some l => Ok (le_join (load8 m <$> l))
  | None => Fault Panic
  end.

(** The ring buffer is one page at an address of the process. *)
Definition IOQueue_new (m : mem) (cr3 buf size : Z) : outcome (Z * mem) :=
  match resolve m cr3 buf with
  | At q =>
      '(_, m) ← atomic_ring_buffer_new m q size sizeof_RawIOCmd;
      Ok (buf, m)
  | _ => Fault Panic
  end.

Definition opcode_of (raw : Z) : option Opcode :=
  if raw =? RAW_IO_OPCODE_SUBMIT then Some Submit
  else if raw =? RAW_IO_OPCODE_COMPLETE then Some Complete
  else None.

(** [tail] is read from the memory of the process: the element can be anywhere. *)
Definition IOQueue_pop (m : mem) (cr3 ring_buffer : Z) : outcome (option IOCmd * mem) :=
  match resolve m cr3 ring_buffer with
  | At q =>
      let head := load64 m (rb_head q) in
      let tail := load64 m (rb_tail q) in
      let raw_elem := if head =? tail then 0 else u64 (rb_data ring_buffer + tail) in
      if raw_elem =? 0 then Ok (None, m)
      else
        raw ← load_user 4 m cr3 raw_elem;
        addr ← load_user 8 m cr3 (u64 (raw_elem + 8));
        len ← load_user 8 m cr3 (u64 (raw_elem + 16));
        let m := atomic_ring_buffer_pop m q in
        Ok ((fun op => MkIOCmd op addr len) <$> opcode_of raw, m)
  | _ => Fault Panic
  end.

(** ** Constants of net.rs *)

Definition PCI_DEVICE_ID_VIRTIO_NET : Z := 0x1041.
Definition DEVICE_FEATURE : Z := 0x04.
Definition DRIVER_FEATURE : Z := 0x0c.
Definition NUM_QUEUES : Z := 0x12.
Definition DEVICE_STATUS : Z := 0x14.
Definition QUEUE_SELECT : Z := 0x16.
Definition QUEUE_SIZE : Z := 0x18.
Definition QUEUE_MSIX_VECTOR : Z := 0x1a.
Definition QUEUE_ENABLE : Z := 0x1c.
Definition QUEUE_NOTIFY_OFF : Z := 0x1e.
Definition QUEUE_DESC : Z := 0x20.
Definition QUEUE_AVAIL : Z := 0x28.
Definition QUEUE_USED : Z := 0x30.
Definition VIRTIO_ACKNOWLEDGE : Z := 1.
Definition VIRTIO_DRIVER : Z := 2.
Definition VIRTIO_FEATURES_OK : Z := 8.
Definition VIRTIO_DRIVER_OK : Z := 4.
Definition VIRTIO_NET_F_MAC : Z := Z.shiftl 1 5.
Definition VIRTIO_PCI_CAP_COMMON_CFG : Z := 1.
Definition VIRTIO_PCI_CAP_NOTIFY_CFG : Z := 2.
Definition VIRTIO_PCI_CAP_DEVICE_CFG : Z := 4.
Definition VIRTIO_PCI_CAP_CFG_TYPE : Z := 3.
Definition VIRTIO_PCI_CAP_BAR : Z := 4.
Definition VIRTIO_PCI_CAP_OFFSET : Z := 8.
Definition VIRTIO_PCI_CAP_LENGTH : Z := 12.
Definition VIRTIO_NOTIFY_OFF_MULTIPLIER : Z := 16.
Definition VIRTIO_RX_QUEUE_IDX : Z := 0.
Definition VIRTIO_TX_QUEUE_IDX : Z := 1.
Definition sizeof_VirtioNetHdr : Z := 10.
Definition VIRTIO_DEV_NAME : list Z := bytes_of "/dev/eth".

(** [notifier] is the list of its listeners, [io_queue] the address of the ring
    buffer. *)
Record VirtioNetDevice := MkNetDevice {
  pci_dev : PCIDevice;
  notify_cfg_ioport : IOPort;
  notify_off_multiplier : Z;
  vqs : list Virtqueue;
  notifier : list Z;
  rx_page : Z;
  rx_page_size : Z;
  tx_page : Z;
  tx_page_size : Z;
  mac_addr : option (list Z);
  rx_buffer_addr : option Z;
  io_queue : option Z
}.

Definition set_vqs (l : list Virtqueue) (d : VirtioNetDevice) : VirtioNetDevice :=
  MkNetDevice (pci_dev d) (notify_cfg_ioport d) (notify_off_multiplier d) l (notifier d) (rx_page d) (rx_page_size d)
    (tx_page d) (tx_page_size d) (mac_addr d) (rx_buffer_addr d) (io_queue d).
Definition set_notifier (l : list Z) (d : VirtioNetDevice) : VirtioNetDevice :=
  MkNetDevice (pci_dev d) (notify_cfg_ioport d) (notify_off_multiplier d) (vqs d) l (rx_page d) (rx_page_size d)
    (tx_page d) (tx_page_size d) (mac_addr d) (rx_buffer_addr d) (io_queue d).
Definition set_mac_addr (mac : list Z) (d : VirtioNetDevice) : VirtioNetDevice :=
  MkNetDevice (pci_dev d) (notify_cfg_ioport d) (notify_off_multiplier d) (vqs d) (notifier d) (rx_page d) (rx_page_size d)
    (tx_page d) (tx_page_size d) (Some mac) (rx_buffer_addr d) (io_queue d).
Definition set_rx_buffer_addr (addr : Z) (d : VirtioNetDevice) : VirtioNetDevice :=
  MkNetDevice (pci_dev d) (notify_cfg_ioport d) (notify_off_multiplier d) (vqs d) (notifier d) (rx_page d) (rx_page_size d)
    (tx_page d) (tx_page_size d) (mac_addr d) (Some addr) (io_queue d).
Definition set_io_queue (q : Z) (d : VirtioNetDevice) : VirtioNetDevice :=
  MkNetDevice (pci_dev d) (notify_cfg_ioport d) (notify_off_multiplier d) (vqs d) (notifier d) (rx_page d) (rx_page_size d)
    (tx_page d) (tx_page_size d) (mac_addr d) (rx_buffer_addr d) (Some q).

(** [VirtioPCICap]: offset and index of the base address register. *)
Record VirtioPCICap := MkCap { cap_offset : Z; bar_idx : Z }.

Section Net.
Context {A B : Type} `{PageAllocator A} `{Hardware B}.
Context (kmem_slab_cache kmalloc_caches : Z).
(** The addresses of [VirtioNetDevice::interrupt] and of the local [raw_event]. *)
Context (interrupt_entry event_frame : Z).
Notation io := (io A B VirtioNetDevice).

(** ** The start of the device *)

Definition cap_map (c : VirtioPCICap) (dev : PCIDevice) : io (option IOPort) :=
  offset ← read_config_u32 (func dev) (u8 (cap_offset c + VIRTIO_PCI_CAP_OFFSET));
  length ← read_config_u32 (func dev) (u8 (cap_offset c + VIRTIO_PCI_CAP_LENGTH));
  match bars dev !! Z.to_nat (bar_idx c) with
  | Some (Some bar) => mret (remap bar offset length)
  | Some None => mret None
  | None => fail Panic
  end.

Fixpoint virtio_capability_loop (fuel : nat) (dev : PCIDevice) (cfg_type : Z) (capability : option Z)
  : io (option VirtioPCICap) :=
  match capability with
  | None => mret None
  | Some offset =>
      match fuel with
      | O => fail OutOfFuel
      | S fuel =>
          ty ← read_config_u8 (func dev) (u8 (offset + VIRTIO_PCI_CAP_CFG_TYPE));
          bar_idx ← read_config_u8 (func dev) (u8 (offset + VIRTIO_PCI_CAP_BAR));
          if (ty =? cfg_type) && (bar_idx <? 0x05) then mret (Some (MkCap offset bar_idx))
          else
            capability ← find_next_capability (func dev) PCI_CAPABILITY_VENDOR offset;
            virtio_capability_loop fuel dev cfg_type capability
      end
  end.

Definition virtio_find_capability (dev : PCIDevice) (cfg_type : Z) : io (option VirtioPCICap) :=
  capability ← find_capability (func dev) PCI_CAPABILITY_VENDOR;
  virtio_capability_loop 256 dev cfg_type capability.

(** [VirtioNetDevice::new]; the results of the page allocator are not checked. *)
Definition net_device_new (dev : PCIDevice) (port : IOPort) (multiplier : Z) : io VirtioNetDevice :=
  rx ← with_mem page_alloc_small;
  tx ← with_mem page_alloc_small;
  mret (MkNetDevice dev port multiplier [] [] rx PAGE_SIZE_SMALL tx PAGE_SIZE_SMALL None None None).

(** [Rc::new]: the new object is the last one. *)
Definition rc_new (d : VirtioNetDevice) : io Z := fun s =>
  let l := d_drivers (mc_dev s) in
  Ok (Z.of_nat (length l), put_dev (set_drivers (l ++ [d]) (mc_dev s)) s).

Definition get_device (handle : Z) : io VirtioNetDevice := fun s =>
  match d_drivers (mc_dev s) !! Z.to_nat handle with
  | Some d => Ok (d, s)
  | None => Fault NullDeref
  end.

Definition modify_device (handle : Z) (f : VirtioNetDevice -> VirtioNetDevice) : io unit := fun s =>
  Ok (tt, put_dev (set_drivers (alter f (Z.to_nat handle) (d_drivers (mc_dev s))) (mc_dev s)) s).

Definition with_queue (f : mem -> outcome mem) : io unit := fun s =>
  m ← f (mc_mem s);
  Ok (tt, put_mem m s).

(** One round of the loop over the queues of [probe]. *)
Definition setup_queue (handle : Z) (ioport : IOPort) (queue : Z) (l : list Virtqueue) : io (list Virtqueue) :=
  write16 ioport queue QUEUE_SELECT ;;
  size ← read16 ioport QUEUE_SIZE;
  notify_off ← read16 ioport QUEUE_NOTIFY_OFF;
  vq ← with_mem (Virtqueue_new kmem_slab_cache kmalloc_caches queue size notify_off);
  write64 ioport (virt_to_phys (raw_descriptor_table_ptr vq)) QUEUE_DESC ;;
  write64 ioport (virt_to_phys (raw_available_ring_ptr vq)) QUEUE_AVAIL ;;
  write64 ioport (virt_to_phys (raw_used_ring_ptr vq)) QUEUE_USED ;;
  (if queue =? VIRTIO_RX_QUEUE_IDX then
     dev ← get_device handle;
     with_queue (fun m => add_inbuf m vq (virt_to_phys (rx_page dev)) (rx_page_size dev)) ;;
     vector ← register_irq (pci_dev dev) queue interrupt_entry handle;
     if vector <? 0 then fail Panic
     else
       enable_irq (pci_dev dev) queue ;;
       write16 ioport queue QUEUE_MSIX_VECTOR
   else mret tt) ;;
  write16 ioport 1 QUEUE_ENABLE ;;
  mret (l ++ [vq]).

Definition read_mac (port : IOPort) : io (list Z) :=
  for_each (seqZ 0 6) (fun i mac => v ← read8 port i; mret (mac ++ [v])) [].

Definition setup_device (handle : Z) (ioport : IOPort) : io unit :=
  let status := 0 in
  write8 ioport status DEVICE_STATUS ;;
  let status := Z.lor status VIRTIO_ACKNOWLEDGE in
  write8 ioport status DEVICE_STATUS ;;
  let status := Z.lor status VIRTIO_DRIVER in
  write8 ioport status DEVICE_STATUS ;;
  write32 ioport VIRTIO_NET_F_MAC DRIVER_FEATURE ;;
  let status := Z.lor status VIRTIO_FEATURES_OK in
  write8 ioport status DEVICE_STATUS ;;
  st ← read8 ioport DEVICE_STATUS;
  if negb (Z.land st VIRTIO_FEATURES_OK =? VIRTIO_FEATURES_OK) then fail Panic
  else
    num_queues ← read16 ioport NUM_QUEUES;
    l ← for_each (seqZ 0 num_queues) (setup_queue handle ioport) [];
    modify_device handle (set_vqs l) ;;
    let status := Z.lor status VIRTIO_DRIVER_OK in
    write8 ioport status DEVICE_STATUS.

Definition setup_mac (handle : Z) (dev : PCIDevice) (ioport : IOPort) : io unit :=
  dev_features ← read32 ioport DEVICE_FEATURE;
  if negb (Z.land dev_features VIRTIO_NET_F_MAC =? 0) then
    cap ← virtio_find_capability dev VIRTIO_PCI_CAP_DEVICE_CFG;
    match cap with
    | Some cap =>
        port ← cap_map cap dev;
        match port with
        | Some port => mac ← read_mac port; modify_device handle (set_mac_addr mac)
        | None => fail Panic
        end
    | None => mret tt
    end
  else mret tt.

Definition virtio_probe (dev : PCIDevice) : io (option (list Z * Z)) :=
  set_bus_master dev true ;;
  enable_msix dev ;;
  notify_cfg_cap ← virtio_find_capability dev VIRTIO_PCI_CAP_NOTIFY_CFG;
  match notify_cfg_cap with
  | None => mret None
  | Some notify_cfg_cap =>
      multiplier ← read_config_u32 (func dev) (u8 (cap_offset notify_cfg_cap + VIRTIO_NOTIFY_OFF_MULTIPLIER));
      port ← cap_map notify_cfg_cap dev;
      match port with
      | None => mret None
      | Some port =>
          d ← net_device_new dev port multiplier;
          handle ← rc_new d;
          common_cfg_cap ← virtio_find_capability dev VIRTIO_PCI_CAP_COMMON_CFG;
          match common_cfg_cap with
          | None => mret None
          | Some common_cfg_cap =>
              ioport ← cap_map common_cfg_cap dev;
              match ioport with
              | None => mret None
              | Some ioport =>
                  setup_device handle ioport ;;
                  setup_mac handle dev ioport ;;
                  mret (Some (VIRTIO_DEV_NAME, handle))
              end
          end
      end
  end.

Definition VIRTIO_NET_DRIVER : PCIDriver :=
  MkDriver (DeviceID_new PCI_VENDOR_ID_REDHAT PCI_DEVICE_ID_VIRTIO_NET) virtio_probe.

(** ** Sending *)

Definition get_queue (d : VirtioNetDevice) (idx : Z) : io Virtqueue :=
  match vqs d !! Z.to_nat idx with
  | Some vq => mret vq
  | None => fail Panic
  end.

Definition notify (d : VirtioNetDevice) (queue : Virtqueue) : io unit :=
  let notify_off := u32 (notify_off_multiplier d * notify_off queue) in
  write16 (notify_cfg_ioport d) (queue_idx queue) notify_off.

(** The copy of [rlibc], under the translation map in use. *)
Definition copy_from_user (dest src len : Z) : io unit := fun s =>
  match copy_bytes (Z.to_nat len) (mc_cr3 s) dest src (mc_mem s) with
  | (At _, m) => Ok (tt, put_mem m s)
  | _ => Fault Panic
  end.

Definition process_io_one (d : VirtioNetDevice) (cmd : IOCmd) : io unit :=
  match opcode cmd with
  | Submit =>
      modify_mem (fun m => memset m (tx_page d) 0 (Z.to_nat sizeof_VirtioNetHdr)) ;;
      copy_from_user (tx_page d + sizeof_VirtioNetHdr) (cmd_addr cmd) (cmd_len cmd) ;;
      vq ← get_queue d VIRTIO_TX_QUEUE_IDX;
      if negb (cmd_len cmd <=? tx_page_size d) then fail Panic
      else
        with_queue (fun m => add_outbuf m vq (virt_to_phys (tx_page d)) (u64 (sizeof_VirtioNetHdr + cmd_len cmd))) ;;
        notify d vq
  | Complete =>
      vq ← get_queue d VIRTIO_RX_QUEUE_IDX;
      with_queue (fun m => add_inbuf m vq (virt_to_phys (rx_page d)) (rx_page_size d)) ;;
      notify d vq
  end.

Definition queue_pop (ring_buffer : Z) : io (option IOCmd) := fun s =>
  '(cmd, m) ← IOQueue_pop (mc_mem s) (mc_cr3 s) ring_buffer;
  Ok (cmd, put_mem m s).

(** The loop ends with the first pop that gives no command. *)
Fixpoint net_process_io_loop (fuel : nat) (d : VirtioNetDevice) (ring_buffer : Z) : io unit :=
  match fuel with
  | O => fail OutOfFuel
  | S fuel =>
      cmd ← queue_pop ring_buffer;
      match cmd with
      | Some cmd => process_io_one d cmd ;; net_process_io_loop fuel d ring_buffer
      | None => mret tt
      end
  end.

(** A page holds less than 256 commands. *)
Definition net_process_io (handle : Z) : io unit :=
  d ← get_device handle;
  match io_queue d with
  | Some ring_buffer => net_process_io_loop 256 d ring_buffer
  | None => mret tt
  end.

(** ** The process's side *)

Section Acquire.
Context {R : Type} `{RegionTree R}.

Definition in_space {X} (f : VMAddressSpace R -> A -> mem -> outcome (Result X * VMAddressSpace R * A * mem))
    (vs : VMAddressSpace R) : io (Result X * VMAddressSpace R) :=
  with_mem (fun a m => '(r, vs, a, m) ← f vs a m; Ok ((r, vs), a, m)).

Definition io_queue_new (buf size : Z) : io Z := fun s =>
  '(q, m) ← IOQueue_new (mc_mem s) (mc_cr3 s) buf size;
  Ok (q, put_mem m s).

(** The operator [?] returns the first error. *)
Definition net_acquire (handle listener : Z) (vs : VMAddressSpace R) : io (Result unit * VMAddressSpace R) :=
  d ← get_device handle;
  modify_device handle (set_notifier (notifier d ++ [listener])) ;;
  '(r, vs) ← in_space (allocate kmem_slab_cache kmalloc_caches (rx_page_size d) PAGE_SIZE_SMALL VM_PROT_READ) vs;
  match r with
  | Err e => mret (Err e, vs)
  | Success (rx_buf_start, rx_buf_end) =>
      '(r, vs) ← in_space (map_region rx_buf_start rx_buf_end (rx_page d)) vs;
      match r with
      | Err e => mret (Err e, vs)
      | Success _ =>
          modify_device handle (set_rx_buffer_addr rx_buf_start) ;;
          let io_buf_size := 4096 in
          '(r, vs) ← in_space (allocate kmem_slab_cache kmalloc_caches io_buf_size PAGE_SIZE_SMALL VM_PROT_RW) vs;
          match r with
          | Err e => mret (Err e, vs)
          | Success (io_buf_start, io_buf_end) =>
              '(r, vs) ← in_space (populate io_buf_start io_buf_end) vs;
              match r with
              | Err e => mret (Err e, vs)
              | Success _ =>
                  q ← io_queue_new io_buf_start io_buf_size;
                  modify_device handle (set_io_queue q) ;;
                  mret (Success tt, vs)
              end
          end
      end
  end.

(** [to_vec]: a vector on the heap, as address, length and capacity. *)
Definition to_vec (l : list Z) : io (Z * Z * Z) :=
  let n := Z.of_nat (length l) in
  p ← with_mem (box_new kmem_slab_cache kmalloc_caches n);
  modify_mem (fun m => store_bytes m p l) ;;
  mret (p, n, n).

Definition net_get_config (handle opt : Z) : io (option (Z * Z * Z)) :=
  d ← get_device handle;
  if opt =? CONFIG_ETHERNET_MAC_ADDRESS then
    match mac_addr d with
    | Some mac => v ← to_vec mac; mret (Some v)
    | None => mret None
    end
  else if opt =? CONFIG_IO_QUEUE then
    match io_queue d with
    | Some q => v ← to_vec (le_split 8 q); mret (Some v)
    | None => mret None
    end
  else mret None.

(** ** The trait [DeviceOps] *)

Definition run {X} (c : io X) (cr3 : Z) (a : A) (m : mem) (d : Devices B VirtioNetDevice)
  : outcome (X * A * mem * Devices B VirtioNetDevice) :=
  '(x, s) ← c (MkMachine a m cr3 d);
  Ok (x, mc_pages s, mc_mem s, mc_dev s).

(** [get_config] does not look at the memory of the process. *)
#[export] Instance virtio_ops : DeviceOps A R (Devices B VirtioNetDevice) := {
  dev_acquire handle listener vs a m d :=
    '(r, a, m, d) ← run (net_acquire handle listener vs) (mmu_map vs) a m d;
    Ok (fst r, snd r, a, m, d);
  dev_subscribe handle events m d := Ok d;
  dev_get_config handle opt a m d := run (net_get_config handle opt) 0 a m d;
  dev_process_io handle cr3 a m d :=
    '(_, a, m, d) ← run (net_process_io handle) cr3 a m d;
    Ok (a, m, d)
}.

(** ** Receiving *)

Context {N : Type}.
Notation kernel := (sched (ProcessData R) (World A N (Devices B VirtioNetDevice))).

(** [on_event] of the notifier: the event goes into the queue of every listener.
    [cr3] is the translation map in use when the interrupt came. *)
Fixpoint on_event (cr3 addr len : Z) (listeners : list Z) (s : kernel) : outcome kernel :=
  match listeners with
  | [] => Ok s
  | p :: listeners =>
      proc ← deref s p;
      m ← EventQueue_emplace (memory (world s)) cr3 event_frame (event_queue (rest proc)) addr len;
      on_event cr3 addr len listeners (put_memory m s)
  end.

Definition put_device (handle : Z) (d : VirtioNetDevice) (s : kernel) : kernel :=
  let w := world s in
  MkSched (CURRENT s) (RUNQUEUE s) (WAITQUEUE s) (procs s)
    (MkWorld (pages w) (memory w) (console w) (namespace w)
       (set_drivers (<[Z.to_nat handle := d]> (d_drivers (devices w))) (devices w))).

(** The loop of [recv]; indices are 16 bits wide. *)
Fixpoint recv_loop (fuel : nat) (cr3 handle : Z) (d : VirtioNetDevice) (vq : Virtqueue) (idx last_used : Z) (s : kernel)
  : outcome (Virtqueue * kernel) :=
  if idx =? last_used then Ok (vq, s)
  else
    match fuel with
    | O => Fault OutOfFuel
    | S fuel =>
        i ← ring_index vq idx;
        '(_, buf_len) ← get_used_buf (memory (world s)) vq i;
        s ← match rx_buffer_addr d with
            | Some rx_buffer_addr =>
                let packet_len := u64 (buf_len - sizeof_VirtioNetHdr) in
                on_event cr3 (u64 (rx_buffer_addr + sizeof_VirtioNetHdr)) packet_len (notifier d) s
            | None => Ok s
            end;
        recv_loop fuel cr3 handle d (advance_last_seen_used vq) (u16 (idx + 1)) last_used s
    end.

Definition recv (cr3 handle : Z) (s : kernel) : outcome kernel :=
  match d_drivers (devices (world s)) !! Z.to_nat handle with
  | None => Fault NullDeref
  | Some d =>
      match vqs d !! Z.to_nat VIRTIO_RX_QUEUE_IDX with
      | None => Fault Panic
      | Some vq =>
          '(vq, s) ← recv_loop (Z.to_nat (2 ^ 16)) cr3 handle d vq (last_seen_used vq)
                       (last_used_idx (memory (world s)) vq) s;
          Ok (put_device handle (set_vqs (<[Z.to_nat VIRTIO_RX_QUEUE_IDX := vq]> (vqs d)) d) s)
      end
  end.

(** The handler of the interrupt: its argument is the device. *)
Definition interrupt (cr3 arg : Z) (s : kernel) : outcome kernel := recv cr3 arg s.

End Acquire.
End Net.
