(* ===== verification/VirtioNetProof.v ===== *)
(** * The virtio network card: sending and receiving

    A process hands packets over through the ring buffer of its I/O queue.  A card
    that reads its queue when it is notified puts exactly these packets on the
    wire, in their order.  The second part of the file is about the interrupt that
    delivers received packets. *)

From S2P Require Import Prelude Align Mem RingBuffer PageAlloc PageAllocProof Kmem Mmu MmuProof Sched Vm VmProof Kernel.
From S2P Require Import Process UserCopy Irq Ioport Pci Virtqueue VirtioNet.
#[local] Open Scope Z_scope.

(** ** The monad *)

Lemma io_bind_Ok {A B Dev X Y} (c : io A B Dev X) (f : X -> io A B Dev Y) s x s' :
  c s = Ok (x, s') -> (c ≫= f) s = f x s'.
Proof. intros E. unfold mbind, io_bind. by rewrite E. Qed.

(** ** A card *)

(** What the card has sent and the receive buffers that it has been given, up to
    where it has read the two available rings, and whether it has been told where
    the two queues are. *)
Class NetCard (B : Type) := {
  sent : B -> list (list Z);
  posted : B -> list (Z * Z * Z);
  tx_seen : B -> Z;
  rx_seen : B -> Z;
  knows : Virtqueue -> Virtqueue -> B -> Prop
}.

Definition buffer_bytes (m : mem) (b : Z * Z * Z) : list Z :=
  let '(addr, len, _) := b in load_bytes m (phys_to_virt addr) (Z.to_nat len).

(** The card reads a queue when the number of the queue is written to its
    notification register: the behaviour that the virtio standard allows and that
    the driver relies on. *)
Record reads_when_notified {B} `{Hardware B, NetCard B} (txq rxq : Virtqueue) (tx_reg rx_reg : Z) : Prop := {
  rn_tx m (b : B) : knows txq rxq b -> let b' := bus_out 2 (queue_idx txq) tx_reg m b in
    knows txq rxq b' /\ sent b' = sent b ++ (buffer_bytes m <$> vq_available m txq (tx_seen b)) /\ tx_seen b' = vq_index m txq /\
    posted b' = posted b /\ rx_seen b' = rx_seen b;
  rn_rx m (b : B) : knows txq rxq b -> let b' := bus_out 2 (queue_idx rxq) rx_reg m b in
    knows txq rxq b' /\ posted b' = posted b ++ vq_available m rxq (rx_seen b) /\ rx_seen b' = vq_index m rxq /\
    sent b' = sent b /\ tx_seen b' = tx_seen b
}.

(** ** Reads through the address space of the process *)

Lemma resolve_bytes_range m cr3 n va p :
  0 <= va -> va + Z.of_nat n <= 2 ^ 64 ->
  (forall i, 0 <= i < Z.of_nat n -> resolve m cr3 (va + i) = At (p + i)) ->
  resolve_bytes n m cr3 va = Some (seqZ p (Z.of_nat n)).
Proof.
  revert va p. induction n as [|n IH]; intros va p Hv He Hr; [done|]. cbn [resolve_bytes].
  pose proof (Hr 0 ltac:(lia)) as H0. rewrite !Z.add_0_r in H0. rewrite H0.
  destruct n as [|n']; [done|].
  rewrite u64_small by lia. rewrite (IH (va + 1) (p + 1)); [|lia|lia|].
  - cbn [fmap option_fmap option_map]. rewrite (seqZ_cons p) by lia.
    replace (Z.pred (Z.of_nat (S (S n')))) with (Z.of_nat (S n')) by lia. done.
  - intros i Hi. replace (va + 1 + i) with (va + (i + 1)) by lia. rewrite Hr by lia. f_equal. lia.
Qed.

Lemma load_user_range m cr3 n va p :
  0 <= va -> va + Z.of_nat n <= 2 ^ 64 ->
  (forall i, 0 <= i < Z.of_nat n -> resolve m cr3 (va + i) = At (p + i)) ->
  load_user n m cr3 va = Ok (load n m p).
Proof.
  intros Hv He Hr. unfold load_user. rewrite (resolve_bytes_range m cr3 n va p) by done.
  by rewrite load8_seqZ, <- load_join.
Qed.

Lemma load_bytes_memset m p v k : load_bytes (memset m p v k) p k = replicate k (u8 v).
Proof.
  apply list_eq. intros i. destruct (decide (i < k)%nat) as [Hi|Hi].
  - rewrite load_bytes_lookup, lookup_replicate_2 by done. f_equal. rewrite load8_memset.
    destruct (Z.leb_spec p (p + Z.of_nat i)); [|lia]. destruct (Z.ltb_spec (p + Z.of_nat i) (p + Z.of_nat k)); [done|lia].
  - rewrite !lookup_ge_None_2; [done|rewrite length_replicate; lia|rewrite length_load_bytes; lia].
Qed.

(** ** The driver at work *)

Section Send.
Context {A B : Type} `{PageAllocatorLaws A} `{Hardware B} `{NetCard B}.
Notation machine := (machine A B VirtioNetDevice).
Context (d : VirtioNetDevice) (rxq txq : Virtqueue) (cr3 ring_buffer q n : Z).
Context (T : gmap Z role) (port psize tx_reg rx_reg : Z) (a0 : A) (m0 : mem).

(** The memory that the driver works on, apart from each other: its page, the
    parts of the queues that it writes, and the page of the ring buffer. *)
Definition net_objects : list (Z * Z) :=
  [(tx_page d, 4096);
   (raw_descriptor_table_ptr txq, 16 * queue_size txq); (raw_available_ring_ptr txq, 2 * queue_size txq + 6);
   (raw_descriptor_table_ptr rxq, 16 * queue_size rxq); (raw_available_ring_ptr rxq, 2 * queue_size rxq + 6);
   (q, 4096)].

(** What it writes. *)
Definition driver_byte (x : Z) : Prop :=
  in_buffer (tx_page d) 4096 x \/ vq_byte txq x \/ vq_byte rxq x \/ rb_tail q <= x < rb_tail q + 8.

Definition notify_register (vq : Virtqueue) : Z := u64 (port + u32 (notify_off_multiplier d * notify_off vq)).

Record net_setup : Prop := {
  ns_rxq : vqs d !! 0%nat = Some rxq;
  ns_txq : vqs d !! 1%nat = Some txq;
  ns_rx_ok : vq_ok rxq;
  ns_tx_ok : vq_ok txq;
  ns_tx_page : KERNEL_VMA <= tx_page d /\ tx_page d + 4096 < 2 ^ 64;
  ns_sizes : tx_page_size d = 4096 /\ rx_page_size d = 4096;
  ns_separate : separate net_objects = true;
  ns_pt : pt_inv T cr3 a0 m0;
  ns_tables x : driver_byte x -> ~ table_byte T x;
  ns_port : notify_cfg_ioport d = PortMemory port psize;
  ns_tx_reg : translate m0 cr3 (notify_register txq) = Some tx_reg;
  ns_rx_reg : translate m0 cr3 (notify_register rxq) = Some rx_reg;
  ns_ring_va : 0 < ring_buffer /\ ring_buffer + 4096 <= 2 ^ 64;
  ns_ring_page i : 0 <= i < 4096 -> resolve m0 cr3 (ring_buffer + i) = At (q + i);
  ns_ring : 0 < q /\ q + 4096 <= 2 ^ 64 /\ 0 < n /\ 192 + 24 * n <= 4096
}.

Context (Hset : net_setup) (Hcard : reads_when_notified (B := B) txq rxq tx_reg rx_reg).
#[local] Set Default Proof Using "All".

Lemma translate_kept m va : changes driver_byte m0 m -> translate m cr3 va = translate m0 cr3 va.
Proof.
  intros Hm. apply (translate_same T cr3 a0); [apply Hset|]. intros x Hx. apply Hm. intros Hd.
  by apply (ns_tables Hset x).
Qed.

Lemma resolve_kept m va : changes driver_byte m0 m -> resolve m cr3 va = resolve m0 cr3 va.
Proof. intros Hm. unfold resolve. by rewrite translate_kept. Qed.

(** ** The I/O queue *)

(** The three fields of a command. *)
Definition raw_fields (x : list Z) : Z * Z * Z :=
  (le_join (take 4 x), le_join (take 8 (drop 8 x)), le_join (take 8 (drop 16 x))).

Lemma load_part m p k (i l : nat) : (i + l <= k)%nat -> load l m (p + Z.of_nat i) = le_join (take l (drop i (load_bytes m p k))).
Proof.
  intros Hl. rewrite load_join. f_equal. replace k with (i + (l + (k - i - l)))%nat by lia.
  rewrite !load_bytes_app, drop_app_length', take_app_length' by (by rewrite length_load_bytes). done.
Qed.

Lemma pop_empty m t h :
  changes driver_byte m0 m -> ring q 24 n m t h [] -> IOQueue_pop m cr3 ring_buffer = Ok (None, m).
Proof.
  intros Hm R. unfold IOQueue_pop. rewrite resolve_kept by done.
  pose proof (ns_ring_page Hset 0 ltac:(lia)) as Hp. rewrite !Z.add_0_r in Hp. rewrite Hp.
  destruct (ns_ring Hset) as (Hq & Hq' & Hn & Hfit).
  pose proof (proj1 (ring_nil_iff q 24 n ltac:(lia) Hn Hq ltac:(unfold rb_data, ATOMIC_RING_BUFFER_ALIGN; lia) m t h [] R) eq_refl) as ->.
  rewrite (ring_head _ _ _ _ _ _ _ R), (ring_tail _ _ _ _ _ _ _ R), Z.eqb_refl. done.
Qed.

Lemma pop_command m t h x xs raw addr len :
  changes driver_byte m0 m -> ring q 24 n m t h (x :: xs) -> raw_fields x = (raw, addr, len) ->
  exists m' t', IOQueue_pop m cr3 ring_buffer = Ok ((fun op => MkIOCmd op addr len) <$> opcode_of raw, m') /\
    ring q 24 n m' t' h xs /\ changes (fun y => rb_tail q <= y < rb_tail q + 8) m m'.
Proof.
  intros Hm R Hf. destruct (ns_ring Hset) as (Hq & Hq' & Hn & Hfit).
  assert (rb_data q + 24 * n <= 2 ^ 64) as Hd by (unfold rb_data, ATOMIC_RING_BUFFER_ALIGN; lia).
  exists (atomic_ring_buffer_pop m q), ((t + 1) mod n). split_and!.
  - pose proof (ns_ring_page Hset 0 ltac:(lia)) as Hp. rewrite !Z.add_0_r in Hp.
    unfold IOQueue_pop. rewrite resolve_kept, Hp by done.
    rewrite (ring_head _ _ _ _ _ _ _ R), (ring_tail _ _ _ _ _ _ _ R).
    pose proof (ring_t _ _ _ _ _ _ _ R). pose proof (ns_ring_va Hset).
    destruct (Z.eqb_spec (24 * h) (24 * t)) as [He|_].
    { assert (h = t) as He' by lia. apply (ring_nil_iff q 24 n ltac:(lia) Hn Hq Hd m t h _ R) in He'. done. }
    rewrite (u64_small (rb_data ring_buffer + 24 * t)) by (unfold rb_data, ATOMIC_RING_BUFFER_ALIGN; lia).
    destruct (Z.eqb_spec (rb_data ring_buffer + 24 * t) 0); [unfold rb_data, ATOMIC_RING_BUFFER_ALIGN in *; lia|].
    assert (load_bytes m (rb_data q + 24 * t) 24 = x) as Hx.
    { rewrite <- (ring_slots _ _ _ _ _ _ _ R 0%nat x) by done. unfold read_slot, slot. by rewrite Z.add_0_r, Z.mod_small. }
    assert (forall (i l : nat), (i + l <= 24)%nat ->
      load_user l m cr3 (rb_data ring_buffer + 24 * t + Z.of_nat i) = Ok (le_join (take l (drop i x)))) as Hl.
    { intros i l Hil. rewrite (load_user_range m cr3 l _ (rb_data q + 24 * t + Z.of_nat i)).
      - by rewrite (load_part m _ 24 i l), Hx.
      - unfold rb_data, ATOMIC_RING_BUFFER_ALIGN. lia.
      - unfold rb_data, ATOMIC_RING_BUFFER_ALIGN. lia.
      - intros j Hj. rewrite resolve_kept by done. unfold rb_data, ATOMIC_RING_BUFFER_ALIGN.
        replace (ring_buffer + 3 * 64 + 24 * t + Z.of_nat i + j) with (ring_buffer + (192 + 24 * t + Z.of_nat i + j)) by lia.
        rewrite (ns_ring_page Hset) by lia. f_equal. lia. }
    pose proof (Hl 0%nat 4%nat ltac:(lia)) as Hl4. rewrite Z.add_0_r in Hl4. rewrite Hl4, Ok_bind.
    rewrite !u64_small by (unfold rb_data, ATOMIC_RING_BUFFER_ALIGN; lia).
    pose proof (Hl 8%nat 8%nat ltac:(lia)) as Hl8. pose proof (Hl 16%nat 8%nat ltac:(lia)) as Hl16.
    change (Z.of_nat 8) with 8 in Hl8. change (Z.of_nat 16) with 16 in Hl16. rewrite Hl8, Ok_bind, Hl16, Ok_bind.
    unfold raw_fields in Hf. injection Hf as <- <- <-. done.
  - by apply (pop_spec q 24 n ltac:(lia) Hn Hq Hd m t h x xs).
  - unfold atomic_ring_buffer_pop. apply changes_store. done.
Qed.

(** ** One command *)

(** A step of the driver: it changes its memory and the card. *)
Definition at_work (s : machine) (m : mem) (b : B) : machine :=
  MkMachine (mc_pages s) m (mc_cr3 s) (set_hw b (mc_dev s)).

Lemma notify_spec vq reg s m b :
  changes driver_byte m0 m -> mc_cr3 s = cr3 -> translate m0 cr3 (notify_register vq) = Some reg ->
  notify d vq (at_work s m b) = Ok (tt, at_work s m (bus_out 2 (queue_idx vq) reg m b)).
Proof.
  intros Hm Hc Hr. unfold notify, write16. rewrite (ns_port Hset). unfold mmio_write16, mmio_write, at_work.
  cbn [mc_mem mc_cr3 mc_pages mc_dev]. rewrite Hc, translate_kept by done. unfold notify_register in Hr. rewrite Hr. done.
Qed.

Ltac apart_lia := unfold driver_byte, vq_byte, in_buffer, rb_tail, rb_data, ATOMIC_RING_BUFFER_ALIGN in *; lia.

Lemma ring_kept (P : Z -> Prop) m m' t h xs :
  ring q 24 n m t h xs -> changes P m m' -> (forall x, q <= x < q + 4096 -> ~ P x) -> ring q 24 n m' t h xs.
Proof.
  intros R Hc HP. destruct (ns_ring Hset) as (Hq & Hq' & Hn & Hfit).
  assert (rb_data q + 24 * n <= 2 ^ 64) as Hd by (unfold rb_data, ATOMIC_RING_BUFFER_ALIGN; lia).
  apply (ring_frame q 24 n ltac:(lia) Hn Hq Hd m); [done| |].
  - intros x Hx. apply Hc, HP. unfold rb_data, ATOMIC_RING_BUFFER_ALIGN in Hx. lia.
  - intros i x Hi Hx. apply Hc, HP. unfold slot, rb_data, ATOMIC_RING_BUFFER_ALIGN in Hx.
    pose proof (Z.mod_pos_bound (t + Z.of_nat i) n Hn). lia.
Qed.

(** What is given back to the card to receive into. *)
Definition rx_buffer : Z * Z * Z := (u64 (virt_to_phys (rx_page d)), 4096, 2).

Lemma complete_spec s m b t h xs :
  changes driver_byte m0 m -> mc_cr3 s = cr3 -> ring q 24 n m t h xs -> knows txq rxq b -> rx_seen b = vq_index m rxq ->
  forall addr len, exists m' b', process_io_one d (MkIOCmd Complete addr len) (at_work s m b) = Ok (tt, at_work s m' b') /\
    changes driver_byte m0 m' /\ ring q 24 n m' t h xs /\ knows txq rxq b' /\ rx_seen b' = vq_index m' rxq /\
    posted b' = posted b ++ [rx_buffer] /\ sent b' = sent b /\ tx_seen b' = tx_seen b /\ vq_index m' txq = vq_index m txq.
Proof.
  intros Hm Hc R Hkn Hs addr len. destruct (add_buf_spec m rxq (virt_to_phys (rx_page d)) (rx_page_size d) VIRTQ_DESC_F_WRITE (ns_rx_ok Hset))
    as (m' & Ea & Hi & Hav & Hch).
  pose proof (ns_separate Hset) as Hsep. unfold net_objects in Hsep.
  apart Hsep 1%nat 3%nat. apart Hsep 1%nat 4%nat. apart Hsep 2%nat 3%nat. apart Hsep 2%nat 4%nat.
  apart Hsep 3%nat 5%nat. apart Hsep 4%nat 5%nat.
  pose proof (vq_size _ (ns_rx_ok Hset)). pose proof (vq_size _ (ns_tx_ok Hset)).
  assert (changes driver_byte m0 m') as Hm'.
  { eapply changes_trans; [done|]. eapply changes_mono; [|done]. intros x Hx. right. right. by left. }
  destruct (rn_rx _ _ _ _ Hcard m' b Hkn) as (Hkn' & Hp & Hrs & Hse & Hts).
  exists m', (bus_out 2 (queue_idx rxq) rx_reg m' b). split_and!; try done.
  - unfold process_io_one. cbn [opcode]. rewrite (io_bind_Ok _ _ _ rxq (at_work s m b)).
    2: { unfold get_queue. change (Z.to_nat VIRTIO_RX_QUEUE_IDX) with 0%nat. by rewrite (ns_rxq Hset). }
    rewrite (io_bind_Ok _ _ _ tt (at_work s m' b)).
    2: { unfold with_queue, at_work. cbn [mc_mem]. unfold add_inbuf. by rewrite Ea. }
    by apply notify_spec; [..|apply (ns_rx_reg Hset)].
  - apply (ring_kept _ m m' t h xs R Hch). intros x Hx. apart_lia.
  - rewrite Hp, Hs, Hav. unfold rx_buffer. by rewrite (proj2 (ns_sizes Hset)).
  - apply (vq_index_changes _ m m' txq ltac:(lia) Hch). intros x Hx. apart_lia.
Qed.

(** The frame that a packet becomes: an empty header and the packet. *)
Definition frame_of (ps : list Z) : list Z := replicate 10 0 ++ (load8 m0 <$> ps).

(** The page after the copy of the packet. *)
Lemma packet_copied s m b addr ps :
  changes driver_byte m0 m -> mc_cr3 s = cr3 -> 0 <= addr < 2 ^ 64 ->
  resolves m0 cr3 addr ps -> Forall (fun p => ~ driver_byte p) ps -> (length ps <= 4086)%nat ->
  let m1 := store_bytes (memset m (tx_page d) 0 10) (tx_page d + 10) (load8 m0 <$> ps) in
  copy_from_user (tx_page d + sizeof_VirtioNetHdr) addr (Z.of_nat (length ps))
    (at_work s (memset m (tx_page d) 0 10) b) = Ok (tt, at_work s m1 b) /\
  changes (in_buffer (tx_page d) 4096) m m1 /\ load_bytes m1 (tx_page d) (10 + length ps) = frame_of ps.
Proof.
  intros Hm Hc Ha Hr Hps Hl. destruct (ns_tx_page Hset) as [Hk Hk']. cbv zeta.
  set (m1 := memset m (tx_page d) 0 10).
  assert (changes (in_buffer (tx_page d) 4096) m m1) as Hch.
  { intros x Hx. apply memset_same_outside. unfold in_buffer in Hx. lia. }
  assert (changes driver_byte m0 m1) as Hm1.
  { eapply changes_trans; [done|]. eapply changes_mono; [|done]. intros x Hx. by left. }
  split_and!.
  - unfold copy_from_user, at_work. cbn [mc_cr3 mc_mem]. rewrite Hc, Nat2Z.id, <- (Nat.add_0_r (length ps)).
    rewrite (copy_bytes_run T cr3 a0 m0 driver_byte (ns_pt Hset) (ns_tables Hset) ps
               (seqZ (tx_page d + 10) (Z.of_nat (length (load8 m0 <$> ps)))) m1 0); try done.
    + cbn [copy_bytes]. by rewrite store_list_range.
    + rewrite length_seqZ, length_fmap. lia.
    + rewrite length_fmap. apply resolves_kernel; lia.
    + apply Forall_forall. intros x Hx. apply elem_of_seqZ in Hx. rewrite length_fmap in Hx. left. unfold in_buffer. lia.
    + unfold KERNEL_VMA, sizeof_VirtioNetHdr in *. lia.
  - eapply changes_trans; [done|]. apply changes_store_bytes. rewrite length_fmap. unfold in_buffer. lia.
  - rewrite load_bytes_app. unfold frame_of. f_equal.
    + rewrite load_bytes_store_bytes_disjoint by lia. apply load_bytes_memset.
    + rewrite <- (length_fmap (load8 m0) ps). apply load_bytes_store_bytes.
      apply Forall_fmap, Forall_true. intros x. apply load8_range.
Qed.

Lemma tx_address : phys_to_virt (u64 (virt_to_phys (tx_page d))) = tx_page d.
Proof.
  destruct (ns_tx_page Hset) as [Hk Hk']. unfold phys_to_virt, virt_to_phys, KERNEL_VMA in *.
  rewrite (u64_small (u64 _)) by apply u64_range. rewrite (u64_small (tx_page d - _)) by lia.
  rewrite u64_small; lia.
Qed.

Lemma submit_spec s m b t h xs addr ps :
  changes driver_byte m0 m -> mc_cr3 s = cr3 -> ring q 24 n m t h xs -> knows txq rxq b -> tx_seen b = vq_index m txq ->
  0 <= addr < 2 ^ 64 -> resolves m0 cr3 addr ps -> Forall (fun p => ~ driver_byte p) ps -> (length ps <= 4086)%nat ->
  exists m' b',
    process_io_one d (MkIOCmd Submit addr (Z.of_nat (length ps))) (at_work s m b) = Ok (tt, at_work s m' b') /\
    changes driver_byte m0 m' /\ ring q 24 n m' t h xs /\ knows txq rxq b' /\ tx_seen b' = vq_index m' txq /\
    sent b' = sent b ++ [frame_of ps] /\ posted b' = posted b /\ rx_seen b' = rx_seen b /\
    vq_index m' rxq = vq_index m rxq.
Proof.
  intros Hm Hc R Hkn Hs Ha Hr Hps Hl.
  destruct (packet_copied s m b addr ps Hm Hc Ha Hr Hps Hl) as (Ec & Hch1 & Hfr).
  set (m1 := store_bytes _ _ _) in *.
  destruct (add_buf_spec m1 txq (virt_to_phys (tx_page d)) (u64 (sizeof_VirtioNetHdr + Z.of_nat (length ps))) 0 (ns_tx_ok Hset))
    as (m' & Ea & Hi & Hav & Hch).
  pose proof (ns_separate Hset) as Hsep. unfold net_objects in Hsep.
  apart Hsep 0%nat 1%nat. apart Hsep 0%nat 2%nat. apart Hsep 0%nat 3%nat. apart Hsep 0%nat 4%nat. apart Hsep 0%nat 5%nat.
  apart Hsep 1%nat 3%nat. apart Hsep 1%nat 4%nat. apart Hsep 2%nat 3%nat. apart Hsep 2%nat 4%nat.
  apart Hsep 1%nat 5%nat. apart Hsep 2%nat 5%nat.
  pose proof (vq_size _ (ns_rx_ok Hset)). pose proof (vq_size _ (ns_tx_ok Hset)).
  assert (changes (fun x => in_buffer (tx_page d) 4096 x \/ vq_byte txq x) m m') as Hboth.
  { intros x Hx. rewrite (Hch x), (Hch1 x) by tauto. done. }
  assert (changes driver_byte m0 m') as Hm'.
  { intros x Hx. rewrite (Hboth x), (Hm x); [done|done|]. unfold driver_byte in Hx. tauto. }
  assert (vq_index m1 txq = vq_index m txq) as Hi1.
  { apply (vq_index_changes _ m m1 txq ltac:(lia) Hch1). intros x Hx. apart_lia. }
  destruct (rn_tx _ _ _ _ Hcard m' b Hkn) as (Hkn' & Hse & Hts & Hp & Hrs).
  exists m', (bus_out 2 (queue_idx txq) tx_reg m' b). split_and!; try done.
  - unfold process_io_one. cbn [opcode cmd_addr cmd_len].
    rewrite (io_bind_Ok _ _ _ tt (at_work s (memset m (tx_page d) 0 10) b)) by done.
    rewrite (io_bind_Ok _ _ _ tt (at_work s m1 b)) by exact Ec.
    rewrite (io_bind_Ok _ _ _ txq (at_work s m1 b)).
    2: { unfold get_queue. change (Z.to_nat VIRTIO_TX_QUEUE_IDX) with 1%nat. by rewrite (ns_txq Hset). }
    rewrite (proj1 (ns_sizes Hset)). destruct (Z.leb_spec (Z.of_nat (length ps)) 4096); [|lia]. cbn [negb].
    rewrite (io_bind_Ok _ _ _ tt (at_work s m' b)).
    2: { unfold with_queue, at_work. cbn [mc_mem]. unfold add_outbuf. by rewrite Ea. }
    by apply notify_spec; [..|apply (ns_tx_reg Hset)].
  - apply (ring_kept _ m m' t h xs R Hboth). intros x Hx. apart_lia.
  - rewrite Hse, Hs, <- Hi1, Hav. cbn [fmap list_fmap buffer_bytes]. do 2 f_equal. rewrite tx_address.
    rewrite (u64_small (_ + _)), u32_small by (unfold sizeof_VirtioNetHdr; lia). rewrite <- Hfr.
    replace (Z.to_nat (sizeof_VirtioNetHdr + Z.of_nat (length ps))) with (10 + length ps)%nat by (unfold sizeof_VirtioNetHdr; lia).
    apply (load_bytes_changes _ _ m1 m' _ Hch). intros x Hx. apart_lia.
  - apply (vq_index_changes _ m m' rxq ltac:(lia) Hboth). intros x Hx. apart_lia.
Qed.

(** ** All commands *)

(** A command of the process: a packet, whose bytes are at the addresses [ps], or
    the return of the receive buffer. *)
Inductive request (x : list Z) : option (list Z) -> Prop :=
  | request_submit addr ps :
      raw_fields x = (RAW_IO_OPCODE_SUBMIT, addr, Z.of_nat (length ps)) -> 0 <= addr < 2 ^ 64 ->
      resolves m0 cr3 addr ps -> Forall (fun p => ~ driver_byte p) ps -> (length ps <= 4086)%nat ->
      request x (Some ps)
  | request_complete addr len : raw_fields x = (RAW_IO_OPCODE_COMPLETE, addr, len) -> request x None.

Definition packets (rs : list (option (list Z))) : list (list Z) := frame_of <$> omap id rs.
Definition returns (rs : list (option (list Z))) : list (Z * Z * Z) :=
  omap (fun r => match r with None => Some rx_buffer | Some _ => None end) rs.

(** Between two commands: the card has read what it was told about. *)
Record between (m : mem) (b : B) (h : Z) (xs : list (list Z)) : Prop := {
  bt_mem : changes driver_byte m0 m;
  bt_ring : exists t, ring q 24 n m t h xs;
  bt_knows : knows txq rxq b;
  bt_tx : tx_seen b = vq_index m txq;
  bt_rx : rx_seen b = vq_index m rxq
}.

Lemma popped m b h x xs raw addr len :
  between m b h (x :: xs) -> raw_fields x = (raw, addr, len) ->
  exists m', IOQueue_pop m cr3 ring_buffer = Ok ((fun op => MkIOCmd op addr len) <$> opcode_of raw, m') /\
    between m' b h xs.
Proof.
  intros [Hm [t R] Hkn Ht Hr] Hf. destruct (pop_command m t h x xs raw addr len Hm R Hf) as (m' & t' & E & R' & Hch).
  pose proof (ns_separate Hset) as Hsep. unfold net_objects in Hsep.
  apart Hsep 1%nat 5%nat. apart Hsep 2%nat 5%nat. apart Hsep 3%nat 5%nat. apart Hsep 4%nat 5%nat.
  pose proof (vq_size _ (ns_rx_ok Hset)). pose proof (vq_size _ (ns_tx_ok Hset)).
  exists m'. split; [done|]. split; [|by exists t'|done| |].
  - apply (changes_trans _ m0 m m'); [done|]. eapply changes_mono; [|done]. intros y Hy. by do 3 right.
  - rewrite Ht. symmetry. apply (vq_index_changes _ m m' txq ltac:(lia) Hch). intros y Hy. apart_lia.
  - rewrite Hr. symmetry. apply (vq_index_changes _ m m' rxq ltac:(lia) Hch). intros y Hy. apart_lia.
Qed.

Lemma one_request s m b h x xs r :
  mc_cr3 s = cr3 -> between m b h (x :: xs) -> request x r ->
  exists cmd m1 m' b', IOQueue_pop m cr3 ring_buffer = Ok (Some cmd, m1) /\
    process_io_one d cmd (at_work s m1 b) = Ok (tt, at_work s m' b') /\ between m' b' h xs /\
    sent b' = sent b ++ packets [r] /\ posted b' = posted b ++ returns [r].
Proof.
  intros Hc Hb [addr ps Hf Ha Hr Hps Hl|addr len Hf].
  - destruct (popped m b h x xs _ _ _ Hb Hf) as (m1 & E & [Hm [t R] Hkn Ht Hx]).
    destruct (submit_spec s m1 b t h xs addr ps Hm Hc R Hkn Ht Ha Hr Hps Hl) as (m' & b' & Ep & ? & ? & ? & ? & ? & ? & Hx' & Hi).
    exists (MkIOCmd Submit addr (Z.of_nat (length ps))), m1, m', b'. split_and!; [done|done| |done|].
    + split; [done|by exists t|done|done|]. by rewrite Hx', Hi.
    + by rewrite app_nil_r.
  - destruct (popped m b h x xs _ _ _ Hb Hf) as (m1 & E & [Hm [t R] Hkn Ht Hx]).
    destruct (complete_spec s m1 b t h xs Hm Hc R Hkn Hx addr len) as (m' & b' & Ep & ? & ? & ? & ? & ? & ? & Ht' & Hi).
    exists (MkIOCmd Complete addr len), m1, m', b'. split_and!; [done|done| |by rewrite app_nil_r|done].
    split; [done|by exists t|done| |done]. by rewrite Ht', Hi.
Qed.

Lemma process_io_loop_spec s h xs rs :
  mc_cr3 s = cr3 -> Forall2 request xs rs ->
  forall fuel m b, (length xs < fuel)%nat -> between m b h xs ->
  exists m' b', net_process_io_loop fuel d ring_buffer (at_work s m b) = Ok (tt, at_work s m' b') /\
    between m' b' h [] /\ sent b' = sent b ++ packets rs /\ posted b' = posted b ++ returns rs.
Proof.
  intros Hc. induction 1 as [|x r xs rs Hr _ IH]; intros [|fuel] m b Hf Hb; try (cbn [length] in Hf; lia).
  - destruct Hb as [Hm [t R] Hkn Ht Hx]. exists m, b. cbn [net_process_io_loop].
    rewrite (io_bind_Ok _ _ _ None (at_work s m b)).
    2: { unfold queue_pop, at_work. cbn [mc_mem mc_cr3]. rewrite Hc, (pop_empty m t h Hm R). done. }
    split_and!; [done| |by rewrite app_nil_r..]. by split; [|exists t|..].
  - destruct (one_request s m b h x xs r Hc Hb Hr) as (cmd & m1 & m2 & b2 & Ep & Eo & Hb2 & Hs2 & Hp2).
    destruct (IH fuel m2 b2) as (m' & b' & El & Hb' & Hs' & Hp'); [cbn [length] in Hf; lia|done|].
    exists m', b'. cbn [net_process_io_loop].
    rewrite (io_bind_Ok _ _ _ (Some cmd) (at_work s m1 b)).
    2: { unfold queue_pop, at_work. cbn [mc_mem mc_cr3]. by rewrite Hc, Ep. }
    rewrite (io_bind_Ok _ _ _ tt (at_work s m2 b2)) by done. split_and!; [done|done| |].
    + rewrite Hs', Hs2, <- app_assoc. f_equal. unfold packets. by rewrite <- fmap_app, <- omap_app.
    + rewrite Hp', Hp2, <- app_assoc. f_equal. unfold returns. by rewrite <- omap_app.
Qed.

End Send.


(** ** The virtio network card: receiving

    The interrupt of the card puts one event for each received packet into the
    event queue of the process, at an address of the process: under the
    translation map that is in use when the interrupt comes. *)

(** ** Events *)

(** A [RawEvent] of the type [PacketIO]. *)
Definition event_bytes (addr len : Z) : list Z := le_split 8 EVENT_PACKET_RX ++ le_split 8 addr ++ le_split 8 len.

(** A queue with room for [bound] elements drops what does not fit. *)
Definition deliver (bound : nat) (evs xs : list (list Z)) : list (list Z) :=
  fold_left (fun xs e => snd (FifoSpec.emplace bound e xs)) evs xs.

Lemma deliver_fits bound evs xs : (length xs + length evs <= bound)%nat -> deliver bound evs xs = xs ++ evs.
Proof.
  unfold deliver. revert xs. induction evs as [|e evs IH]; intros xs Hl; cbn [fold_left]; [by rewrite app_nil_r|].
  cbn [length] in Hl. unfold FifoSpec.emplace at 2. rewrite decide_True by lia. cbn [snd].
  rewrite IH by (rewrite length_app; cbn [length]; lia). by rewrite <- app_assoc.
Qed.

Section Recv.
Context {A B R N : Type} `{PageAllocatorLaws A} `{Hardware B} `{RegionTree R}.
Context (event_frame cr3 : Z) (T : gmap Z role) (a0 : A) (m0 : mem).
Context (queue q n : Z).
Notation kernel := (sched (ProcessData R) (World A N (Devices B VirtioNetDevice))).

(** What the interrupt writes: its local variable, and the ring buffer. *)
Definition event_byte (x : Z) : Prop := in_buffer event_frame 24 x \/ q <= x < rb_data q + 24 * n.

(** The address of the queue leads to the ring buffer, and neither is part of the
    page tables in use. *)
Record event_setup : Prop := {
  es_pt : pt_inv T cr3 a0 m0;
  es_tables x : event_byte x -> ~ table_byte T x;
  es_queue : resolve m0 cr3 queue = At q;
  es_ring : 0 < q /\ 0 < n /\ rb_data q + 24 * n <= 2 ^ 64;
  es_frame : event_frame + 24 <= q \/ rb_data q + 24 * n <= event_frame
}.

Context (Hset : event_setup).
#[local] Set Default Proof Using "All".

Lemma event_emplaced m t h xs addr len :
  changes event_byte m0 m -> ring q 24 n m t h xs ->
  exists m' h', EventQueue_emplace m cr3 event_frame queue addr len = Ok m' /\ changes event_byte m0 m' /\
    ring q 24 n m' t h' (snd (FifoSpec.emplace (Z.to_nat (n - 1)) (event_bytes addr len) xs)).
Proof.
  intros Hm R1. destruct (es_ring Hset) as (Hq & Hn & Hfit). pose proof (es_frame Hset) as Hf.
  unfold EventQueue_emplace. set (m1 := store64 _ _ len).
  assert (changes (in_buffer event_frame 24) m m1) as Hch1.
  { unfold m1. repeat (eapply changes_trans; [|apply changes_store; unfold in_buffer; simpl; lia]). apply changes_refl. }
  assert (changes event_byte m0 m1) as Hm1.
  { intros x Hx. rewrite (Hch1 x), (Hm x); [done|done|]. unfold event_byte in Hx. tauto. }
  assert (ring q 24 n m1 t h xs) as R2.
  { apply (ring_frame q 24 n ltac:(lia) Hn Hq Hfit m); [done| |].
    - intros x Hx. apply Hch1. unfold in_buffer, rb_data, ATOMIC_RING_BUFFER_ALIGN in *. lia.
    - intros i x Hi Hx. apply Hch1. pose proof (Z.mod_pos_bound (t + Z.of_nat i) n Hn).
      unfold slot, in_buffer, rb_data, ATOMIC_RING_BUFFER_ALIGN in *. lia. }
  assert (load_bytes m1 event_frame 24 = event_bytes addr len) as Hb.
  { replace m1 with (store_bytes m event_frame (event_bytes addr len)).
    - change 24%nat with (length (event_bytes addr len)). apply load_bytes_store_bytes.
      unfold event_bytes. rewrite !Forall_app. auto using le_split_bytes.
    - unfold event_bytes. rewrite !store_bytes_app, !length_le_split, <- Z.add_assoc. unfold m1, store64. by rewrite !store_split. }
  rewrite (resolve_same T cr3 a0 m0 m1), (es_queue Hset).
  2: apply Hset. 2: { intros x Hx. apply Hm1. intros Hx'. by apply (es_tables Hset x). }
  pose proof (emplace_spec q 24 n ltac:(lia) Hn Hq Hfit m1 t h xs event_frame R2 Hf) as He.
  pose proof (emplace_changes q 24 n m1 t h xs event_frame ltac:(lia) Hn R2) as Hch2.
  cbv zeta in He. change (Z.to_nat 24) with 24%nat in He. rewrite Hb in He.
  destruct (atomic_ring_buffer_emplace m1 q event_frame) as [ok m2]. destruct He as (_ & h' & R3).
  exists m2, h'. split_and!; [done| |done]. intros x Hx. cbn [snd] in Hch2.
  rewrite (Hch2 x), (Hm1 x); [done|done|]. unfold event_byte in Hx. tauto.
Qed.

(** ** The interrupt *)

Context (handle p : Z) (proc : Process (ProcessData R)) (d : VirtioNetDevice) (vq : Virtqueue) (rx : Z).
Context (Hproc : event_queue (rest proc) = queue).
Context (Hrx : rx_buffer_addr d = Some rx) (Hlisten : notifier d = [p]).
Context (Hsize : 0 < queue_size vq < 2 ^ 16).

(** The lengths that the card reports for [k] packets from index [from] on. *)
Definition used_at (from : Z) (i : nat) : Z := used_ring (raw_used_ring_ptr vq) (u16 (from + Z.of_nat i) mod queue_size vq).
Definition used_lengths (from : Z) (k : nat) : list Z := (fun i => load32 m0 (used_len (used_at from i))) <$> seq 0 k.

(** The entries are not written by the interrupt, and name descriptors of the table. *)
Definition used_ok (from : Z) (k : nat) : Prop :=
  forall i, (i < k)%nat -> u16 (load32 m0 (used_id (used_at from i))) < queue_size vq /\
    forall x, used_at from i <= x < used_at from i + 8 -> ~ event_byte x.

Definition events (lens : list Z) : list (list Z) :=
  (fun len => event_bytes (u64 (rx + sizeof_VirtioNetHdr)) (u64 (len - sizeof_VirtioNetHdr))) <$> lens.

Definition seen (k : Z) : Virtqueue :=
  MkVirtqueue (queue_idx vq) (queue_size vq) (notify_off vq) k (raw_descriptor_table_ptr vq)
    (raw_available_ring_ptr vq) (raw_used_ring_ptr vq).

Lemma used_entry m from k :
  changes event_byte m0 m -> used_ok from (S k) ->
  exists addr, get_used_buf m (seen (u16 from)) (u16 from mod queue_size vq)
    = Ok (addr, load32 m0 (used_len (used_at from 0))).
Proof.
  intros Hm Hu. destruct (Hu 0%nat ltac:(lia)) as [Hid Hx]. unfold used_at in Hid, Hx. rewrite Z.add_0_r in Hid, Hx.
  set (e := used_ring (raw_used_ring_ptr vq) (u16 from mod queue_size vq)) in *.
  assert (forall n' y, e <= y -> y + Z.of_nat n' <= e + 8 -> load n' m y = load n' m0 y) as Hl.
  { intros n' y H1' H2'. apply (load_changes n' event_byte); [done|]. intros x Hx'. apply Hx. lia. }
  pose proof (Z.mod_pos_bound (u16 from) (queue_size vq) ltac:(lia)).
  unfold get_used_buf, get_buf, seen. cbn [queue_size raw_used_ring_ptr]. fold e.
  destruct (Z.leb_spec (queue_size vq) (u16 from mod queue_size vq)); [lia|].
  change (load32 m (used_id e)) with (load 4 m (used_id e)). change (load32 m (used_len e)) with (load 4 m (used_len e)).
  rewrite !Hl by (unfold used_id, used_len; simpl; lia).
  destruct (Z.leb_spec (queue_size vq) (u16 (load 4 m0 (used_id e)))) as [Hge|_]; [unfold load32 in Hid; lia|].
  rewrite Ok_bind. eexists. unfold used_at. rewrite Z.add_0_r. done.
Qed.

Lemma seen_next from : advance_last_seen_used (seen (u16 from)) = seen (u16 (from + 1)).
Proof. unfold advance_last_seen_used, seen. cbn. f_equal. unfold u16. by rewrite Zplus_mod_idemp_l. Qed.

Lemma used_at_next from i : used_at from (S i) = used_at (from + 1) i.
Proof. unfold used_at. do 3 f_equal. lia. Qed.

Lemma used_lengths_next from k :
  used_lengths from (S k) = load32 m0 (used_len (used_at from 0)) :: used_lengths (from + 1) k.
Proof.
  unfold used_lengths. cbn [seq fmap list_fmap]. f_equal. rewrite <- fmap_S_seq, <- list_fmap_compose.
  apply list_fmap_ext. intros i j _. cbn. by rewrite used_at_next.
Qed.

Lemma recv_loop_spec (k : nat) from (s : kernel) m t h xs (fuel : nat) :
  procs s !! p = Some proc -> changes event_byte m0 m -> ring q 24 n m t h xs -> used_ok from k ->
  Z.of_nat k < 2 ^ 16 -> (k <= fuel)%nat ->
  exists m' h', recv_loop event_frame fuel cr3 handle d (seen (u16 from)) (u16 from) (u16 (from + Z.of_nat k)) (put_memory m s)
      = Ok (seen (u16 (from + Z.of_nat k)), put_memory m' s) /\
    changes event_byte m0 m' /\ ring q 24 n m' t h' (deliver (Z.to_nat (n - 1)) (events (used_lengths from k)) xs).
Proof.
  revert from m h xs fuel. induction k as [|k IH]; intros from m h xs fuel Hp Hm R1 Hu Hk Hf.
  - exists m, h. destruct fuel; cbn [recv_loop]; rewrite Z.add_0_r, Z.eqb_refl; done.
  - destruct fuel as [|fuel]; [lia|]. cbn [recv_loop].
    destruct (Z.eqb_spec (u16 from) (u16 (from + Z.of_nat (S k)))) as [He|_].
    { assert ((from + Z.of_nat (S k) - from) mod 2 ^ 16 = 0) as Hz.
      { rewrite Zminus_mod. unfold u16 in He. by rewrite <- He, Z.sub_diag. }
      replace (from + Z.of_nat (S k) - from) with (Z.of_nat (S k)) in Hz by lia. rewrite Z.mod_small in Hz; lia. }
    unfold ring_index. cbn [queue_size seen]. rewrite (u16_small (queue_size vq)) by lia.
    destruct (Z.eqb_spec (queue_size vq) 0); [lia|]. rewrite Ok_bind.
    destruct (used_entry m from k Hm Hu) as (addr & Eu). cbn [put_memory world memory set_memory].
    change (seen (u16 from)) with (seen (u16 from)) in Eu. rewrite Eu, Ok_bind, Hrx, Hlisten. cbn [on_event].
    unfold deref at 1. cbn [put_memory procs]. rewrite Hp, Ok_bind, Hproc.
    destruct (event_emplaced m t h xs (u64 (rx + sizeof_VirtioNetHdr))
                (u64 (load32 m0 (used_len (used_at from 0)) - sizeof_VirtioNetHdr)) Hm R1) as (m1 & h1 & Ee & Hm1 & R2).
    change (memory (world (put_memory m s))) with m. rewrite Ee, !Ok_bind, seen_next.
    replace (u16 (u16 from + 1)) with (u16 (from + 1)) by (unfold u16; by rewrite Zplus_mod_idemp_l).
    destruct (IH (from + 1) m1 h1 _ fuel Hp Hm1 R2) as (m' & h' & El & Hm' & R3); [|lia|lia|].
    { intros i Hi. rewrite <- used_at_next. apply Hu. lia. }
    exists m', h'. replace (from + 1 + Z.of_nat k) with (from + Z.of_nat (S k)) in El by lia. split_and!; [exact El|done|].
    by rewrite used_lengths_next.
Qed.
End Recv.

(** C16: what the card receives reaches the process.  When the card has used [k]
    receive buffers since the last interrupt, the interrupt puts [k] events into
    the event queue, in order and each with the address of the packet in the
    process, behind the header, and its length; if the queue gets full, the rest is
    dropped.  The driver has then seen all of them, and only the event queue is
    written.  The queue is the one that the address leads to in the translation map
    [cr3] that is in use when the interrupt comes, whichever process that map
    belongs to. *)
Theorem virtio_net_receives {A B R N : Type} `{PageAllocatorLaws A} `{Hardware B} `{RegionTree R}
    event_frame cr3 T (a : A) q n handle p proc d vq rx (k : nat) xs t h
    (s : sched (ProcessData R) (World A N (Devices B VirtioNetDevice)))
    (Hset : event_setup event_frame cr3 T a (memory (world s)) (event_queue (rest proc)) q n)
    (Hdev : d_drivers (devices (world s)) !! Z.to_nat handle = Some d) (Hvq : vqs d !! 0%nat = Some vq)
    (Hproc : procs s !! p = Some proc) (Hrx : rx_buffer_addr d = Some rx) (Hlisten : notifier d = [p])
    (Hsize : 0 < queue_size vq < 2 ^ 16) (Hseen : 0 <= last_seen_used vq < 2 ^ 16)
    (Hk : Z.of_nat k < 2 ^ 16)
    (Hused : last_used_idx (memory (world s)) vq = u16 (last_seen_used vq + Z.of_nat k))
    (Hentries : used_ok event_frame (memory (world s)) q n vq (last_seen_used vq) k)
    (Hring : ring q sizeof_RawEvent n (memory (world s)) t h xs) :
  let new := events rx (used_lengths (memory (world s)) vq (last_seen_used vq) k) in
  exists m' h',
    interrupt event_frame cr3 handle s =
      Ok (put_device handle (set_vqs (<[0%nat := seen vq (last_used_idx (memory (world s)) vq)]> (vqs d)) d) (put_memory m' s)) /\
    ring q sizeof_RawEvent n m' t h' (deliver (Z.to_nat (n - 1)) new xs) /\
    (Z.of_nat (length xs + k) <= n - 1 -> deliver (Z.to_nat (n - 1)) new xs = xs ++ new) /\
    changes (event_byte event_frame q n) (memory (world s)) m'.
Proof.
  intros new. unfold interrupt, recv. rewrite Hdev. change (Z.to_nat VIRTIO_RX_QUEUE_IDX) with 0%nat. rewrite Hvq.
  destruct (recv_loop_spec event_frame cr3 T a (memory (world s)) (event_queue (rest proc)) q n Hset handle p proc d vq rx
              eq_refl Hrx Hlisten Hsize k (last_seen_used vq) s (memory (world s)) t h xs (Z.to_nat (2 ^ 16)))
    as (m' & h' & E & Hm & R1); try done; [lia|].
  rewrite <- Hused, (u16_small (last_seen_used vq)) in E by done.
  replace (seen vq (last_seen_used vq)) with vq in E by (by destruct vq).
  replace (put_memory (memory (world s)) s) with s in E by (by destruct s as [? ? ? ? []]).
  exists m', h'. rewrite E, Ok_bind. split_and!; [done|done| |done].
  intros Hl. apply deliver_fits. unfold new, events, used_lengths. rewrite !length_fmap, length_seq. lia.
Qed.
