(* ===== verification/PciProof.v ===== *)
(** * The PCI bus: what the driver finds in configuration space

    The configuration space is reached through two ports: the address of a
    register is written to one, and the other then reads and writes that register
    ([ConfigSpaceLaws], the first configuration mechanism of the PCI
    specification). *)

From S2P Require Import Prelude Align Mem PageAlloc Mmu Irq Ioport Pci Virtqueue VirtioNet VirtioNetProof.
#[local] Open Scope Z_scope.

(** ** Configuration space *)

(** The registers, by the address that is written to select them. *)
Class ConfigSpace (B : Type) := {
  selected : B -> Z;
  config : B -> Z -> Z;
  config_write : Z -> Z -> B -> B
}.

(** A register of 32 bits is written as the device likes. *)
Class ConfigSpaceLaws (B : Type) `{Hardware B} `{ConfigSpace B} := {
  select_selected v m (b : B) : selected (port_out 4 v PCI_CONFIG_ADDRESS m b) = v;
  select_config v m (b : B) r : config (port_out 4 v PCI_CONFIG_ADDRESS m b) r = config b r;
  read_register (b : B) : port_in 4 PCI_CONFIG_DATA b = (config b (selected b), b);
  read_byte (b : B) k : 0 <= k < 4 -> port_in 1 (PCI_CONFIG_DATA + k) b = (config b (selected b) / 2 ^ (8 * k), b);
  write_register v m (b : B) : port_out 4 v PCI_CONFIG_DATA m b = config_write (selected b) v b;
  write_selected r v (b : B) : selected (config_write r v b) = selected b;
  write_config r v (b : B) r' : r' <> r -> config (config_write r v b) r' = config b r'
}.

Section Config.
Context {A B : Type} `{PageAllocator A} `{ConfigSpaceLaws B}.
Notation machine := (machine A B VirtioNetDevice).
Notation io := (io A B VirtioNetDevice).
#[local] Set Default Proof Using "All".

Definition register (f : PCIFunction) (offset : Z) : Z := u32 (pci_config_addr (bus_id f) (slot_id f) (func_id f) offset).

(** A byte and a double word of the configuration space of a function. *)
Definition cfg32 (b : B) (f : PCIFunction) (offset : Z) : Z := u32 (config b (register f offset)).
Definition cfg8 (b : B) (f : PCIFunction) (offset : Z) : Z :=
  u8 (config b (register f offset) / 2 ^ (8 * Z.land offset 3)).

(** The same state up to the registers that a function selects. *)
Definition with_hw (s : machine) (b : B) : machine := put_dev (set_hw b (mc_dev s)) s.
Definition same_config (b b' : B) : Prop := forall r, config b' r = config b r.

(** A read returns a value and changes nothing but the selection. *)
Definition reads {X} (c : io X) (v : B -> X) : Prop :=
  forall s b, exists b', c (with_hw s b) = Ok (v b, with_hw s b') /\ same_config b b'.

Lemma land3_range x : 0 <= Z.land x 3 < 4.
Proof. change 3 with (Z.ones 2). rewrite Z.land_ones by lia. apply Z.mod_pos_bound. lia. Qed.

Lemma read_config_u8_reads f offset : reads (read_config_u8 f offset) (fun b => cfg8 b f offset).
Proof.
  intros s b. unfold read_config_u8, pci_config_read_u8. set (v := u32 _).
  exists (port_out 4 v PCI_CONFIG_ADDRESS (mc_mem s) b). split; [|intros r; apply select_config].
  erewrite io_bind_Ok by done. unfold pio_read8, pio_read. cbn [mc_dev put_dev with_hw d_hw set_hw].
  rewrite read_byte by apply land3_range. rewrite select_selected, select_config. done.
Qed.

Lemma read_config_u32_reads f offset : reads (read_config_u32 f offset) (fun b => cfg32 b f offset).
Proof.
  intros s b. unfold read_config_u32, pci_config_read_u32. set (v := u32 _).
  exists (port_out 4 v PCI_CONFIG_ADDRESS (mc_mem s) b). split; [|intros r; apply select_config].
  erewrite io_bind_Ok by done. unfold pio_read32, pio_read. cbn [mc_dev put_dev with_hw d_hw set_hw].
  rewrite read_register, select_selected, select_config. done.
Qed.

Lemma cfg8_same b b' f offset : same_config b b' -> cfg8 b' f offset = cfg8 b f offset.
Proof. intros Hs. unfold cfg8. by rewrite Hs. Qed.

Lemma same_config_trans b1 b2 b3 : same_config b1 b2 -> same_config b2 b3 -> same_config b1 b3.
Proof. intros H12 H23 r. by rewrite H23. Qed.

(** ** Capabilities *)

(** The list that starts at [offset]: offsets and identifiers. *)
Fixpoint capabilities (b : B) (f : PCIFunction) (offset : Z) (l : list (Z * Z)) : Prop :=
  match l with
  | [] => offset = 0
  | (o, id) :: l => o = offset /\ offset <> 0 /\ cfg8 b f (u8 (offset + PCI_CAP_ID_OFFSET)) = id /\
      capabilities b f (cfg8 b f (u8 (offset + PCI_CAP_NEXT_OFFSET))) l
  end.

Definition has_id (cap_id : Z) (c : Z * Z) : bool := snd c =? cap_id.

Lemma capability_loop_finds f cap_id l : forall fuel s b b0 offset,
  same_config b0 b -> capabilities b0 f offset l -> (length l < fuel)%nat ->
  exists b', capability_loop fuel f cap_id offset (with_hw s b)
      = Ok (fst <$> List.find (has_id cap_id) l, with_hw s b') /\ same_config b0 b'.
Proof.
  induction l as [|[o id] l IH]; intros [|fuel] s b b0 offset Hs Hc Hf; cbn [length] in Hf; try lia.
  - cbn in Hc. subst offset. by exists b.
  - destruct Hc as (-> & Hne & <- & Hc). cbn [capability_loop]. destruct (Z.eqb_spec offset 0); [done|].
    destruct (read_config_u8_reads f (u8 (offset + PCI_CAP_ID_OFFSET)) s b) as (b1 & E1 & Hs1).
    rewrite (io_bind_Ok _ _ _ _ _ E1), (cfg8_same b0 b) by done. cbn [List.find]. unfold has_id at 1. cbn [snd].
    destruct (_ =? cap_id); [by exists b1; split; [|eapply same_config_trans]|].
    destruct (read_config_u8_reads f (u8 (offset + PCI_CAP_NEXT_OFFSET)) s b1) as (b2 & E2 & Hs2).
    rewrite (io_bind_Ok _ _ _ _ _ E2), (cfg8_same b0 b1) by (by eapply same_config_trans).
    apply IH; [|done|lia]. eapply same_config_trans; [done|]. by eapply same_config_trans.
Qed.

(** A capability that leads back to itself. *)
Lemma capability_loop_stuck f cap_id fuel : forall s b b0 offset,
  same_config b0 b -> offset <> 0 -> cfg8 b0 f (u8 (offset + PCI_CAP_ID_OFFSET)) <> cap_id ->
  cfg8 b0 f (u8 (offset + PCI_CAP_NEXT_OFFSET)) = offset ->
  capability_loop fuel f cap_id offset (with_hw s b) = Fault OutOfFuel.
Proof.
  induction fuel as [|fuel IH]; intros s b b0 offset Hs Hne Hid Hnx; [done|]. cbn [capability_loop].
  destruct (Z.eqb_spec offset 0); [done|].
  destruct (read_config_u8_reads f (u8 (offset + PCI_CAP_ID_OFFSET)) s b) as (b1 & E1 & Hs1).
  rewrite (io_bind_Ok _ _ _ _ _ E1), (cfg8_same b0 b) by done. destruct (Z.eqb_spec (cfg8 b0 f (u8 (offset + PCI_CAP_ID_OFFSET))) cap_id); [done|].
  destruct (read_config_u8_reads f (u8 (offset + PCI_CAP_NEXT_OFFSET)) s b1) as (b2 & E2 & Hs2).
  rewrite (io_bind_Ok _ _ _ _ _ E2), (cfg8_same b0 b1), Hnx by (by eapply same_config_trans).
  apply (IH s b2 b0); [|done..]. eapply same_config_trans; [done|]. by eapply same_config_trans.
Qed.

(** A list that ends does not come back to an offset. *)
Lemma capabilities_det b f offset l l' : capabilities b f offset l -> capabilities b f offset l' -> l = l'.
Proof.
  revert offset l'. induction l as [|[o id] l IH]; intros offset [|[o' id'] l']; cbn [capabilities].
  - done.
  - by intros -> (-> & ? & _).
  - by intros (-> & ? & _) ->.
  - intros (-> & _ & <- & H1') (-> & _ & <- & H2'). by rewrite (IH _ _ H1' H2').
Qed.

Lemma capabilities_suffix b f offset l1 o id l2 :
  capabilities b f offset (l1 ++ (o, id) :: l2) -> capabilities b f o ((o, id) :: l2).
Proof.
  revert offset. induction l1 as [|[o1 id1] l1 IH]; intros offset; cbn [app capabilities].
  - intros (-> & Hr). done.
  - intros (_ & _ & _ & Hr). by apply (IH _ Hr).
Qed.

Lemma capabilities_NoDup b f offset l : capabilities b f offset l -> NoDup l.*1.
Proof.
  revert offset. induction l as [|[o id] l IH]; intros offset Hc; [apply NoDup_nil_2|].
  rewrite fmap_cons. apply NoDup_cons. split.
  - intros Hin. apply list_elem_of_fmap in Hin as ([o' id'] & Ho & Hin). cbn [fst] in Ho. subst o'.
    apply list_elem_of_split in Hin as (l1 & l2 & ->).
    pose proof (capabilities_suffix b f offset ((o, id) :: l1) o id' l2 Hc) as H1'.
    assert (offset = o) as -> by (destruct Hc; done).
    pose proof (f_equal length (capabilities_det _ _ _ _ _ Hc H1')) as Hl. cbn [length] in Hl.
    rewrite length_app in Hl. cbn [length] in Hl. lia.
  - destruct Hc as (_ & _ & _ & Hc). by apply (IH _ Hc).
Qed.

Lemma capabilities_bytes b f offset l : 0 <= offset < 256 -> capabilities b f offset l -> Forall (fun o => o ∈ seqZ 1 255) l.*1.
Proof.
  revert offset. induction l as [|[o id] l IH]; intros offset Ho Hc; [apply Forall_nil_2|].
  destruct Hc as (-> & Hne & _ & Hc). rewrite fmap_cons. apply Forall_cons. split; [apply elem_of_seqZ; cbn; lia|].
  apply (IH _ ltac:(apply u8_range) Hc).
Qed.

Lemma capabilities_length b f offset l : 0 <= offset < 256 -> capabilities b f offset l -> (length l < 256)%nat.
Proof.
  intros Ho Hc. pose proof (capabilities_NoDup b f offset l Hc) as Hnd.
  pose proof (capabilities_bytes b f offset l Ho Hc) as Hb. rewrite Forall_forall in Hb.
  apply (NoDup_submseteq _ _ Hnd) in Hb. apply submseteq_length in Hb. rewrite length_fmap, length_seqZ in Hb. lia.
Qed.

(** The search of the driver: vendor capabilities of a type, in one of the first
    five registers. *)
Definition virtio_cap (b : B) (f : PCIFunction) (cfg_type : Z) (c : Z * Z) : bool :=
  has_id PCI_CAPABILITY_VENDOR c &&
  ((cfg8 b f (u8 (fst c + VIRTIO_PCI_CAP_CFG_TYPE)) =? cfg_type) && (cfg8 b f (u8 (fst c + VIRTIO_PCI_CAP_BAR)) <? 5)).

Definition found (b : B) (f : PCIFunction) (c : Z * Z) : VirtioPCICap :=
  MkCap (fst c) (cfg8 b f (u8 (fst c + VIRTIO_PCI_CAP_BAR))).

Lemma find_split {X} (p : X -> bool) l :
  match List.find p l with
  | Some x => exists l1 l2, l = l1 ++ x :: l2 /\ Forall (fun y => p y = false) l1 /\ p x = true
  | None => Forall (fun y => p y = false) l
  end.
Proof.
  induction l as [|x l IH]; cbn [List.find]; [apply Forall_nil_2|]. destruct (p x) eqn:E.
  - exists [], l. by split_and!; [|apply Forall_nil_2|].
  - destruct (List.find p l) as [y|]; [|by apply Forall_cons].
    destruct IH as (l1 & l2 & -> & Hl & Hy). exists (x :: l1), l2. by split_and!; [|apply Forall_cons|].
Qed.

Lemma find_skip {X} (p : X -> bool) l1 l2 : Forall (fun y => p y = false) l1 -> List.find p (l1 ++ l2) = List.find p l2.
Proof. induction 1 as [|x l1 Hx _ IH]; [done|]. cbn [app List.find]. by rewrite Hx. Qed.

Lemma no_virtio b f cfg_type l :
  Forall (fun c => has_id PCI_CAPABILITY_VENDOR c = false) l -> Forall (fun c => virtio_cap b f cfg_type c = false) l.
Proof. intros Hl. eapply Forall_impl; [exact Hl|]. intros c Hc. unfold virtio_cap. by rewrite Hc. Qed.

Lemma virtio_loop_finds dev cfg_type : forall fuel l s b b0 offset,
  same_config b0 b -> 0 <= offset < 256 -> capabilities b0 (func dev) offset l -> (length l <= fuel)%nat ->
  exists b', virtio_capability_loop fuel dev cfg_type (fst <$> List.find (has_id PCI_CAPABILITY_VENDOR) l) (with_hw s b)
      = Ok (found b0 (func dev) <$> List.find (virtio_cap b0 (func dev) cfg_type) l, with_hw s b') /\ same_config b0 b'.
Proof.
  induction fuel as [|fuel IH]; intros l s b b0 offset Hs Ho Hc Hl; pose proof (find_split (has_id PCI_CAPABILITY_VENDOR) l) as Hfs;
    destruct (List.find (has_id PCI_CAPABILITY_VENDOR) l) as [[o id]|] eqn:Ef.
  1: { destruct Hfs as (l1 & l2 & -> & _). rewrite length_app in Hl. cbn [length] in Hl. lia. }
  1,3: exists b; pose proof (no_virtio b0 (func dev) cfg_type l Hfs) as Hn; apply (find_skip _ l []) in Hn;
    rewrite app_nil_r in Hn; by rewrite Hn.
  destruct Hfs as (l1 & l2 & -> & Hn & Hid).
  rewrite (find_skip _ l1 _ (no_virtio b0 (func dev) cfg_type l1 Hn)). cbn [List.find fmap option_fmap option_map fst virtio_capability_loop].
  destruct (read_config_u8_reads (func dev) (u8 (o + VIRTIO_PCI_CAP_CFG_TYPE)) s b) as (b1 & E1 & Hs1).
  rewrite (io_bind_Ok _ _ _ _ _ E1), (cfg8_same b0 b) by done.
  destruct (read_config_u8_reads (func dev) (u8 (o + VIRTIO_PCI_CAP_BAR)) s b1) as (b2 & E2 & Hs2).
  rewrite (io_bind_Ok _ _ _ _ _ E2), (cfg8_same b0 b1) by (by eapply same_config_trans).
  assert (same_config b0 b2) as Hs02 by (do 2 (eapply same_config_trans; [done|]); intros r; done).
  unfold virtio_cap at 1. rewrite Hid. cbn [andb fst].
  destruct ((_ =? cfg_type) && _); [by exists b2|].
  pose proof (capabilities_length b0 _ _ _ Ho Hc) as Hlen. rewrite length_app in Hl, Hlen. cbn [length] in Hl, Hlen.
  apply capabilities_suffix in Hc as (_ & _ & _ & Hc). unfold find_next_capability.
  destruct (read_config_u8_reads (func dev) (u8 (o + PCI_CAP_NEXT_OFFSET)) s b2) as (b3 & E3 & Hs3).
  assert (same_config b0 b3) as Hs03 by (by eapply same_config_trans).
  destruct (capability_loop_finds (func dev) PCI_CAPABILITY_VENDOR l2 256 s b3 b0 _ Hs03 Hc ltac:(lia)) as (b4 & E4 & Hs4).
  rewrite (io_bind_Ok _ _ _ (fst <$> List.find (has_id PCI_CAPABILITY_VENDOR) l2) (with_hw s b4)).
  - apply (IH l2 s b4 b0 _ Hs4 ltac:(apply u8_range) Hc). lia.
  - rewrite (io_bind_Ok _ _ _ _ _ E3), (cfg8_same b0 b2) by done. exact E4.
Qed.

Lemma first_capability f cap_id s b :
  if Z.land (cfg8 b f PCI_CFG_STATUS) PCI_STATUS_CAPABILITIES_LIST =? 0
  then exists b', find_capability f cap_id (with_hw s b) = Ok (None, with_hw s b') /\ same_config b b'
  else forall l, capabilities b f (cfg8 b f PCI_CFG_CAPABILITIES_PTR) l ->
    exists b', find_capability f cap_id (with_hw s b) = Ok (fst <$> List.find (has_id cap_id) l, with_hw s b') /\
      same_config b b'.
Proof.
  destruct (read_config_u8_reads f PCI_CFG_STATUS s b) as (b1 & E1 & Hs1). unfold find_capability.
  destruct (Z.land _ _ =? 0) eqn:Ez.
  - exists b1. by rewrite (io_bind_Ok _ _ _ _ _ E1), Ez.
  - intros l Hc. rewrite (io_bind_Ok _ _ _ _ _ E1), Ez.
    destruct (read_config_u8_reads f PCI_CFG_CAPABILITIES_PTR s b1) as (b2 & E2 & Hs2).
    rewrite (io_bind_Ok _ _ _ _ _ E2), (cfg8_same b b1) by done.
    apply capability_loop_finds; [by eapply same_config_trans|done|].
    apply (capabilities_length b f _ l ltac:(apply u8_range) Hc).
Qed.
End Config.

(** C36: the capabilities of a device are found.  If the device has a list of
    capabilities that ends, [find_capability] returns the first one with the
    identifier, and the search of the virtio driver the first vendor capability of
    the type that it looks for in one of the first five base address registers; the
    bounds of the loops are never reached, and no register is changed.  Without a
    list nothing is found.  A capability that leads back to itself keeps the search
    for another one from ending. *)
Theorem pci_capabilities_found {A B : Type} `{PageAllocator A} `{ConfigSpaceLaws B}
    (dev : PCIDevice) (s : machine A B VirtioNetDevice) b cap_id cfg_type :
  let f := func dev in
  let listed := negb (Z.land (cfg8 b f PCI_CFG_STATUS) PCI_STATUS_CAPABILITIES_LIST =? 0) in
  (forall l, capabilities b f (cfg8 b f PCI_CFG_CAPABILITIES_PTR) l ->
     (exists b', find_capability f cap_id (with_hw s b)
        = Ok (if listed then fst <$> List.find (has_id cap_id) l else None, with_hw s b') /\ same_config b b') /\
     (exists b', virtio_find_capability dev cfg_type (with_hw s b)
        = Ok (if listed then found b f <$> List.find (virtio_cap b f cfg_type) l else None, with_hw s b') /\ same_config b b')) /\
  (forall offset fuel, offset <> 0 -> cfg8 b f (u8 (offset + PCI_CAP_ID_OFFSET)) <> cap_id ->
     cfg8 b f (u8 (offset + PCI_CAP_NEXT_OFFSET)) = offset ->
     capability_loop fuel f cap_id offset (with_hw s b) = Fault OutOfFuel).
Proof.
  intros f listed. split.
  2: { intros offset fuel. by apply (capability_loop_stuck f cap_id fuel s b b offset). }
  intros l Hl. pose proof (first_capability f cap_id s b) as H1'. pose proof (first_capability f PCI_CAPABILITY_VENDOR s b) as H2'.
  unfold listed, virtio_find_capability. destruct (Z.land _ _ =? 0); cbn [negb].
  - split; [exact H1'|]. destruct H2' as (b' & E & Hs). exists b'. fold f. split; [|exact Hs].
    rewrite (io_bind_Ok _ _ _ _ _ E). reflexivity.
  - split; [exact (H1' l Hl)|]. destruct (H2' l Hl) as (b' & E & Hs). fold f. rewrite (io_bind_Ok _ _ _ _ _ E).
    apply (virtio_loop_finds dev cfg_type 256 l s b' b _ Hs ltac:(apply u8_range) Hl).
    pose proof (capabilities_length b f _ l ltac:(apply u8_range) Hl). lia.
Qed.
