(* ===== verification/VirtioCard.v ===== *)
(** * An emulated network card

    A machine with one virtio network card behind the PCI bus, as registers that
    can be run: the laws that the drivers are proved against hold of it, the search
    for devices finds it, and runs of the driver on it show what goes wrong. *)

From Stdlib Require Import Ascii Strings.String.
From S2P Require Import Prelude Align Mem RingBuffer Printf PageAlloc PageAllocProof Kmem KmemTheorems Mmu MmuProof MmuMap.
From S2P Require Import MmuTheorems Sched Vm VmProof Kernel Process UserCopy Irq Ioport Pci Virtqueue VirtioNet VirtioNetProof.
From S2P Require Import VirtioNetProof PciProof.
#[local] Open Scope Z_scope.

(** ** The card *)

(** [c_eager] tells whether it reads a queue when it is notified, [c_queues] has
    the addresses of the queues by number and register, [c_log] the writes to its
    registers, the last one first. *)
Record card := MkCard {
  c_selected : Z;
  c_config : gmap Z Z;
  c_eager : bool;
  c_status : Z;
  c_queue : Z;
  c_queues : gmap (Z * Z) Z;
  c_log : list (Z * Z);
  c_sent : list (list Z);
  c_posted : list (Z * Z * Z);
  c_tx_seen : Z;
  c_rx_seen : Z
}.

Definition card_bar : Z := 0xfe000000.
Definition card_table : Z := 0xfe010000.
Definition card_queue_size : Z := 256.

(** Device 3 of bus 0; other devices do not answer. *)
Definition card_function : PCIFunction := MkFunction 0 3 0.
Definition card_register (offset : Z) : Z := 0x80001800 + offset.
Definition card_config (c : card) (r : Z) : Z :=
  if Z.land r 0xffffff00 =? card_register 0 then default 0 (c_config c !! r) else 0xffffffff.

(** The bits of a register that can be written. *)
Definition card_writable (r : Z) : Z :=
  if r =? card_register 0x10 then 0xffffc000
  else if r =? card_register 0x14 then 0xfffff000
  else if r =? card_register 0x04 then 0xffff
  else if r =? card_register 0x40 then 0xc0000000
  else 0.

Definition set_config (r v : Z) (c : card) : card :=
  MkCard (c_selected c) (<[r := Z.lor (Z.land v (card_writable r)) (Z.land (card_config c r) (Z.lnot (card_writable r)))]> (c_config c))
    (c_eager c) (c_status c) (c_queue c) (c_queues c) (c_log c) (c_sent c) (c_posted c) (c_tx_seen c) (c_rx_seen c).

Definition card_port_in (n : nat) (port : Z) (c : card) : Z * card :=
  (card_config c (c_selected c) / 2 ^ (8 * (port - PCI_CONFIG_DATA)), c).

Definition card_port_out (n : nat) (v port : Z) (m : mem) (c : card) : card :=
  if port =? PCI_CONFIG_ADDRESS then
    MkCard v (c_config c) (c_eager c) (c_status c) (c_queue c) (c_queues c) (c_log c) (c_sent c) (c_posted c)
      (c_tx_seen c) (c_rx_seen c)
  else if (n =? 4)%nat then set_config (c_selected c) v c
  else
    let shift := 8 * (port - PCI_CONFIG_DATA) in
    let old := card_config c (c_selected c) in
    set_config (c_selected c) (old - old / 2 ^ shift mod 2 ^ 16 * 2 ^ shift + v * 2 ^ shift) c.

Definition card_mac : list Z := [0x52; 0x54; 0; 0x12; 0x34; 0x56].

Definition card_bus_in (n : nat) (pa : Z) (c : card) : Z * card :=
  let r := pa - card_bar in
  (if r =? NUM_QUEUES then 2
   else if r =? DEVICE_STATUS then c_status c
   else if r =? QUEUE_SIZE then card_queue_size
   else if r =? QUEUE_NOTIFY_OFF then c_queue c
   else if r =? DEVICE_FEATURE then VIRTIO_NET_F_MAC
   else if (0x2000 <=? r) && (r <? 0x2006) then default 0 (card_mac !! Z.to_nat (r - 0x2000))
   else 0, c).

Definition queue_register (c : card) (queue r : Z) : Z := default 0 (c_queues c !! (queue, r)).

Definition card_available (m : mem) (c : card) (queue from : Z) : list (Z * Z * Z) :=
  available m (phys_to_virt (queue_register c queue QUEUE_DESC)) (phys_to_virt (queue_register c queue QUEUE_AVAIL))
    card_queue_size from.
Definition card_index (m : mem) (c : card) (queue : Z) : Z :=
  load16 m (avail_idx (phys_to_virt (queue_register c queue QUEUE_AVAIL))).

(** What the card does when it reads its queues. *)
Definition read_tx (m : mem) (c : card) : card :=
  MkCard (c_selected c) (c_config c) (c_eager c) (c_status c) (c_queue c) (c_queues c) (c_log c)
    (c_sent c ++ (buffer_bytes m <$> card_available m c VIRTIO_TX_QUEUE_IDX (c_tx_seen c))) (c_posted c)
    (card_index m c VIRTIO_TX_QUEUE_IDX) (c_rx_seen c).
Definition read_rx (m : mem) (c : card) : card :=
  MkCard (c_selected c) (c_config c) (c_eager c) (c_status c) (c_queue c) (c_queues c) (c_log c)
    (c_sent c) (c_posted c ++ card_available m c VIRTIO_RX_QUEUE_IDX (c_rx_seen c))
    (c_tx_seen c) (card_index m c VIRTIO_RX_QUEUE_IDX).

Definition write_log (c : card) (status queue : Z) (queues : gmap (Z * Z) Z) (r v : Z) : card :=
  MkCard (c_selected c) (c_config c) (c_eager c) status queue queues ((r, v) :: c_log c) (c_sent c) (c_posted c)
    (c_tx_seen c) (c_rx_seen c).

Definition card_bus_out (n : nat) (v pa : Z) (m : mem) (c : card) : card :=
  let r := pa - card_bar in
  if r =? 0x1000 then (if c_eager c then read_rx m c else c)
  else if r =? 0x1004 then (if c_eager c then read_tx m c else c)
  else if r =? DEVICE_STATUS then write_log c v (c_queue c) (c_queues c) r v
  else if r =? QUEUE_SELECT then write_log c (c_status c) v (c_queues c) r v
  else if (r =? QUEUE_DESC) || (r =? QUEUE_AVAIL) || (r =? QUEUE_USED) then
    write_log c (c_status c) (c_queue c) (<[(c_queue c, r) := v]> (c_queues c)) r v
  else write_log c (c_status c) (c_queue c) (c_queues c) r v.

#[global] Instance card_hardware : Hardware card := {
  port_in := card_port_in;
  port_out := card_port_out;
  bus_in := card_bus_in;
  bus_out := card_bus_out
}.

(** ** The laws *)

#[global] Instance card_config_space : ConfigSpace card := {
  selected := c_selected;
  config := card_config;
  config_write := set_config
}.

#[global] Instance card_config_laws : ConfigSpaceLaws card.
Proof.
  split; try done.
  - intros c. cbn. unfold card_port_in. change (8 * _) with 0. by rewrite Z.div_1_r.
  - intros c k Hk. cbn. unfold card_port_in. do 3 f_equal. lia.
  - intros r v c r' Hne. cbn. unfold card_config, set_config. cbn [c_config]. by rewrite lookup_insert_ne.
Qed.

#[global] Instance card_net : NetCard card := {
  sent := c_sent;
  posted := c_posted;
  tx_seen := c_tx_seen;
  rx_seen := c_rx_seen;
  knows txq rxq c := c_eager c = true /\
    forall vq, vq = txq \/ vq = rxq ->
      phys_to_virt (queue_register c (queue_idx vq) QUEUE_DESC) = raw_descriptor_table_ptr vq /\
      phys_to_virt (queue_register c (queue_idx vq) QUEUE_AVAIL) = raw_available_ring_ptr vq /\ queue_size vq = card_queue_size
}.

Lemma card_reads txq rxq :
  queue_idx txq = VIRTIO_TX_QUEUE_IDX -> queue_idx rxq = VIRTIO_RX_QUEUE_IDX ->
  reads_when_notified (B := card) txq rxq (card_bar + 0x1004) (card_bar + 0x1000).
Proof.
  intros Ht Hr. split; intros m c [He Hq]; cbn; unfold card_bus_out.
  - change (card_bar + 0x1004 - card_bar) with 0x1004. cbn [Z.eqb Pos.eqb]. rewrite He.
    destruct (Hq txq ltac:(by left)) as (H1 & H2 & H3). rewrite Ht in H1, H2.
    unfold vq_available, vq_index, read_tx, card_available, card_index. cbn. rewrite H1, H2, H3. done.
  - change (card_bar + 0x1000 - card_bar) with 0x1000. cbn [Z.eqb Pos.eqb]. rewrite He.
    destruct (Hq rxq ltac:(by right)) as (H1 & H2 & H3). rewrite Hr in H1, H2.
    unfold vq_available, vq_index, read_rx, card_available, card_index. cbn. rewrite H1, H2, H3. done.
Qed.

(** ** The search for devices *)

(** A list of capabilities with MSI-X and three of virtio: the common
    configuration, the notifications and the configuration of the device. *)
Definition card_space : gmap Z Z := list_to_map ((fun '(o, v) => (card_register o, v)) <$>
  [(0x00, 0x10411af4); (0x04, 0x00100000); (0x08, 0x02000001); (0x10, card_bar); (0x14, card_table); (0x34, 0x40);
   (0x40, 0x00025011); (0x44, 0x1);
   (0x50, 0x01106409); (0x58, 0x0); (0x5c, 0x1000);
   (0x64, 0x02147809); (0x6c, 0x1000); (0x70, 0x1000); (0x74, 4);
   (0x78, 0x04100009); (0x80, 0x2000); (0x84, 0x1000)]).

Definition new_card (eager : bool) : card := MkCard 0 card_space eager 0 0 ∅ [] [] [] 0 0.

(** The machine of KmemTheorems with an empty page table. *)
Definition card_machine (eager : bool) : outcome (machine (arenas list_tree) card VirtioNetDevice) :=
  '(_, a, m) ← ex_init;
  '(p, a, m) ← page_alloc_small a m;
  Ok (MkMachine a (memset m p 0 (Z.to_nat 4096)) (virt_to_phys p)
        (MkDevices (new_card eager) (KERNEL_VMA + 0x800000) irq_init 0xfee00000 [] [])).

Definition card_interrupt : Z := 0x1234.

Definition run_probe (eager : bool) : outcome (machine (arenas list_tree) card VirtioNetDevice) :=
  s ← card_machine eager;
  '(_, s) ← pci_probe [VIRTIO_NET_DRIVER ex_sc ex_kc card_interrupt] 4 s;
  Ok s.

(** What the search leaves: the writes to the registers of the card in order, the
    addresses of the queues, the hardware address, and the registered names. *)
Definition probed (s : machine (arenas list_tree) card VirtioNetDevice)
  : list (Z * Z) * list (option (list Z)) * list (list Z * Z) :=
  (rev (c_log (d_hw (mc_dev s))), mac_addr <$> d_drivers (mc_dev s), d_registered (mc_dev s)).

(** ** A process at work *)

(** A process without regions acquires the card, and gets a page for its packets. *)
Definition ring_va : Z := 0x1000.
Definition packet_va : Z := 0x2000.

Definition acquire_from (s : machine (arenas list_tree) card VirtioNetDevice)
  : outcome (machine (arenas list_tree) card VirtioNetDevice) :=
  '((_, vs), s) ← net_acquire ex_sc ex_kc 0 1 (VMAddressSpace_new (mc_cr3 s) : VMAddressSpace region_list) s;
  '((_, vs), s) ← in_space (allocate ex_sc ex_kc 4096 4096 VM_PROT_RW) vs s;
  '(_, s) ← in_space (populate packet_va (packet_va + 4096)) vs s;
  Ok s.

Definition run_acquire (eager : bool) : outcome (machine (arenas list_tree) card VirtioNetDevice) :=
  s ← run_probe eager;
  acquire_from s.

(** The address of the kernel for one of the process. *)
Definition user_ptr (s : machine (arenas list_tree) card VirtioNetDevice) (va : Z) : Z :=
  match resolve (mc_mem s) (mc_cr3 s) va with At p => p | _ => 0 end.

Definition user_frame : Z := KERNEL_VMA + 16384.

Definition user_store (va : Z) (bs : list Z) (s : machine (arenas list_tree) card VirtioNetDevice) :=
  put_mem (store_bytes (mc_mem s) (user_ptr s va) bs) s.
Definition user_command (opcode addr len : Z) (s : machine (arenas list_tree) card VirtioNetDevice) :=
  put_mem (snd (io_queue_append (mc_mem s) user_frame (user_ptr s ring_va) opcode addr len)) s.

(** The kernel takes the commands, then the card reads its transmit queue. *)
Definition commands_done (s : machine (arenas list_tree) card VirtioNetDevice) : outcome (list (list Z) * Z) :=
  '(_, s) ← net_process_io 0 s;
  let c := d_hw (mc_dev s) in
  let c := if c_eager c then c else read_tx (mc_mem s) c in
  Ok (drop 10 <$> c_sent c, load64 (mc_mem s) (rb_tail (user_ptr s ring_va))).

Definition two_packets (s : machine (arenas list_tree) card VirtioNetDevice) :=
  user_command IO_OPCODE_SUBMIT (packet_va + 3) 3 (user_command IO_OPCODE_SUBMIT packet_va 3
    (user_store packet_va [1; 2; 3; 4; 5; 6] s)).


(** ** What goes wrong *)

(** The bytes of a queue that the card writes last, and the start of the next used
    ring. *)
Definition used_rings (s : machine (arenas list_tree) card VirtioNetDevice) : list (Z * Z) :=
  (fun vq => (raw_used_ring_ptr vq, used_ring (raw_used_ring_ptr vq) (queue_size vq))) <$> mjoin (vqs <$> d_drivers (mc_dev s)).

(** The eight bytes behind the page that the driver sends from. *)
Definition behind_tx_page (s : machine (arenas list_tree) card VirtioNetDevice) : option Z :=
  (fun d => load64 (mc_mem s) (tx_page d + 4096)) <$> head (d_drivers (mc_dev s)).

Definition set_eager (eager : bool) (s : machine (arenas list_tree) card VirtioNetDevice) :=
  let c := d_hw (mc_dev s) in
  put_dev (set_hw (MkCard (c_selected c) (c_config c) eager (c_status c) (c_queue c) (c_queues c) (c_log c) (c_sent c)
    (c_posted c) (c_tx_seen c) (c_rx_seen c)) (mc_dev s)) s.

Definition copied (len : Z) (s : machine (arenas list_tree) card VirtioNetDevice) : outcome (option Z) :=
  match head (d_drivers (mc_dev s)) with
  | Some d => '(_, s) ← copy_from_user (tx_page d + sizeof_VirtioNetHdr) packet_va len
                (user_store (packet_va + 4080) (replicate 16 0xff) s);
              Ok (behind_tx_page s)
  | None => Fault NullDeref
  end.

(** The entries of the MSI-X table that are written when the table has three. *)
Definition masked (s : machine (arenas list_tree) card VirtioNetDevice) : outcome (list (Z * Z)) :=
  match head (d_drivers (mc_dev s)) with
  | Some d => '(_, s') ← enable_msix (pci_dev d) s;
              Ok (take (length (c_log (d_hw (mc_dev s'))) - length (c_log (d_hw (mc_dev s)))) (c_log (d_hw (mc_dev s'))))
  | None => Fault NullDeref
  end.

(** At most [fuel] rounds of the loop over the commands. *)
Definition rounds (fuel : nat) (s : machine (arenas list_tree) card VirtioNetDevice) : outcome unit :=
  match head (d_drivers (mc_dev s)) with
  | Some d => '(_, _) ← net_process_io_loop fuel d ring_va s; Ok tt
  | None => Fault NullDeref
  end.

(** The class and the revision that the bus reports of its devices. *)
Definition classes (s : machine (arenas list_tree) card VirtioNetDevice) : list (Z * Z) :=
  (fun d => (class_code (dev_id (pci_dev d)), revision_id (dev_id (pci_dev d)))) <$> d_drivers (mc_dev s).


(** ** The network driver on a concrete machine

    The machine of MmuTheorems with two ring buffers, two queues and the registers
    of the emulated card mapped into one address space: the theorems on sending,
    receiving and capabilities applied to it. *)

(** ** The memory *)

Definition nx_io : Z := KERNEL_VMA + 0x200000.
Definition nx_packet : Z := KERNEL_VMA + 0x201000.
Definition nx_events : Z := KERNEL_VMA + 0x202000.
Definition nx_frame : Z := KERNEL_VMA + 0x320000.
Definition nx_rxq : Virtqueue :=
  MkVirtqueue 0 256 0 0 (KERNEL_VMA + 0x304000) (KERNEL_VMA + 0x306000) (KERNEL_VMA + 0x308000).
Definition nx_txq : Virtqueue :=
  MkVirtqueue 1 256 1 0 (KERNEL_VMA + 0x300000) (KERNEL_VMA + 0x302000) (KERNEL_VMA + 0x30c000).

(** The process has submitted a packet of six bytes, and the card has received two
    packets. *)
Definition nx_m : mem :=
  let m := store_bytes pt_m nx_packet [1; 2; 3; 4; 5; 6] in
  let m := store64 (store64 m (rb_element_size nx_io) 24) (rb_capacity nx_io) 3888 in
  let m := store64 (store_io_cmd m (rb_data nx_io) IO_OPCODE_SUBMIT 0x401000 6) (rb_head nx_io) 24 in
  let m := store64 (store64 m (rb_element_size nx_events) 24) (rb_capacity nx_events) 3888 in
  let m := store32 m (used_len (used_ring (raw_used_ring_ptr nx_rxq) 0)) 70 in
  let m := store32 m (used_len (used_ring (raw_used_ring_ptr nx_rxq) 1)) 110 in
  store16 m (used_idx (raw_used_ring_ptr nx_rxq)) 2.

(** The page tables and the free pages are below all of this. *)
Lemma nx_m_same x : x < KERNEL_VMA + 0x200000 -> load8 nx_m x = load8 pt_m x.
Proof.
  intros Hx. unfold nx_m, store_io_cmd, store64, store32, store16, rb_element_size, rb_capacity, rb_head, rb_data,
    used_len, used_ring, used_idx, nx_rxq, nx_io, nx_events, nx_packet, ATOMIC_RING_BUFFER_ALIGN.
  cbn [raw_used_ring_ptr]. unfold KERNEL_VMA in *. rewrite !load8_store_out by (simpl; lia).
  apply load8_store_bytes_out. simpl. lia.
Qed.

Lemma pt_T_byte x : table_byte pt_T x -> KERNEL_VMA + 0x1000 <= x < KERNEL_VMA + 0x2000.
Proof.
  intros (t & l & p & Ht & Hx). unfold pt_T in Ht. apply lookup_singleton_Some in Ht as [<- _].
  unfold in_table, pt_cr3 in Hx. lia.
Qed.

Lemma pt_mem_low x : pt_mem pt_T pt_a x -> x < KERNEL_VMA + 0x200000.
Proof. intros [Hx|Hx]; [apply pt_example_rep in Hx; lia|apply pt_T_byte in Hx; lia]. Qed.

Lemma nx_inv : pt_inv pt_T pt_cr3 pt_a nx_m.
Proof.
  pose proof pt_example_inv as HT. destruct pt_example_rep as [Hr Ho].
  apply (pt_inv_frame pt_T pt_cr3 pt_a pt_a pt_m nx_m HT).
  - apply (pa_frame pt_a pt_m); [done|]. intros x Hx. apply nx_m_same. apply Ho in Hx. lia.
  - intros x Hx. apply Ho in Hx. split; [lia|]. intros Hx'. apply pt_T_byte in Hx'. lia.
  - intros x Hx. apply nx_m_same. apply pt_T_byte in Hx. lia.
Qed.

(** ** The address space *)

Definition nx_map1 := mmu_map_range pt_cr3 0x400000 0x200000 0x3000 3 1 pt_a nx_m.
Definition nx_map2 := '(_, a, m) ← nx_map1; mmu_map_range pt_cr3 0x500000 0xfe001000 0x1000 3 1 a m.

Lemma nx_maps_ok :
  (match nx_map1 with Ok (r, _, _) => r | Fault _ => 1 end, match nx_map2 with Ok (r, _, _) => r | Fault _ => 1 end) = (0, 0).
Proof. vm_compute. reflexivity. Qed.

Lemma range_ok_small vaddr paddr size :
  0 <= size < 0x100000 -> 0x400000 <= vaddr < 0x501000 -> 0 <= paddr < 2 ^ 40 ->
  (4096 | vaddr) -> (4096 | paddr) -> align_down (vaddr + size) PAGE_SIZE_LARGE <= align_up vaddr PAGE_SIZE_LARGE ->
  range_ok vaddr paddr size.
Proof.
  intros Hs Hv Hp Dv Dp Hl. pose proof (page_bytes_bounds size ltac:(lia)). split; try done; try lia.
  - change PAGE_SIZE_LARGE with (2 ^ 21). lia.
  - unfold va48. rewrite Z.mod_small by lia. lia.
Qed.

(** Where the addresses lead, and that nothing else has changed. *)
Record nx_space (T : gmap Z role) (a : arenas list_tree) (m : mem) : Prop := {
  nx_pt : pt_inv T pt_cr3 a m;
  nx_low x : table_byte T x -> x < KERNEL_VMA + 0x200000;
  nx_same x : KERNEL_VMA + 0x200000 <= x -> load8 m x = load8 nx_m x;
  nx_user va : 0x400000 <= va < 0x403000 -> translate m pt_cr3 va = Some (va - 0x200000);
  nx_card va : 0x500000 <= va < 0x501000 -> translate m pt_cr3 va = Some (va - 0x500000 + 0xfe001000)
}.

Lemma nx_exists : exists T a m, nx_space T a m.
Proof.
  destruct (map_range_spec pt_T pt_cr3 pt_a nx_m 0x400000 0x200000 0x3000 3 1 nx_inv)
    as (r1 & p1 & T1 & a1 & m1 & E1 & [I1 G1 _ R1]).
  { apply range_ok_small; [lia..|by exists 1024|by exists 512|by vm_compute]. }
  destruct (map_range_spec T1 pt_cr3 a1 m1 0x500000 0xfe001000 0x1000 3 1 I1)
    as (r2 & p2 & T2 & a2 & m2 & E2 & [I2 G2 _ R2]).
  { apply range_ok_small; [lia..|by exists 1280|by exists 1040385|by vm_compute]. }
  pose proof nx_maps_ok as Hok. unfold nx_map2, nx_map1 in Hok. rewrite E1, Ok_bind, E2 in Hok. injection Hok as -> ->.
  destruct R1 as [(_ & _ & R1)|[?|?]]; [|discriminate..]. destruct R2 as [(_ & _ & R2)|[?|?]]; [|discriminate..].
  exists T2, a2, m2. split; [done| | | |].
  - intros x Hx. apply pt_mem_low, G1, G2. by right.
  - intros x Hx. rewrite (pg_frame _ _ _ _ _ _ G2), (pg_frame _ _ _ _ _ _ G1); [done| |].
    + intros Hp. apply pt_mem_low in Hp. lia.
    + intros Hp. apply G1, pt_mem_low in Hp. lia.
  - intros va Hva. rewrite R2, decide_False, R1, decide_True.
    + f_equal. unfold va48. rewrite (Z.mod_small va) by lia. rewrite Z.mod_small by lia. lia.
    + unfold va48. rewrite (Z.mod_small va) by lia. change (page_bytes 0x3000) with 0x3000. rewrite Z.mod_small by lia. lia.
    + unfold va48. rewrite (Z.mod_small va) by lia. rewrite Z.mod_small by lia. lia.
  - intros va Hva. rewrite R2, decide_True.
    + f_equal. unfold va48. rewrite (Z.mod_small va) by lia. rewrite Z.mod_small by lia. lia.
    + unfold va48. rewrite (Z.mod_small va) by lia. change (page_bytes 0x1000) with 0x1000. rewrite Z.mod_small by lia. lia.
Qed.

(** Memory above the tables, one address at a time. *)
Lemma nx_load T a m n x : nx_space T a m -> KERNEL_VMA + 0x200000 <= x -> load n m x = load n nx_m x.
Proof. intros Hs Hx. apply load_ext. intros y Hy. apply (nx_same _ _ _ Hs). lia. Qed.

Lemma nx_ring T a m q h xs :
  nx_space T a m -> KERNEL_VMA + 0x200000 <= q -> q + 4096 <= 2 ^ 64 ->
  ring q 24 162 nx_m 0 h xs -> ring q 24 162 m 0 h xs.
Proof.
  intros Hs Hq Hq' R. unfold KERNEL_VMA in *.
  apply (ring_frame q 24 162 ltac:(lia) ltac:(lia) ltac:(lia)
    ltac:(unfold rb_data, ATOMIC_RING_BUFFER_ALIGN; lia) nx_m m 0 h xs R).
  - intros x Hx. apply (nx_same _ _ _ Hs). unfold KERNEL_VMA. lia.
  - intros i x Hi Hx. apply (nx_same _ _ _ Hs). pose proof (Z.mod_pos_bound (0 + Z.of_nat i) 162 ltac:(lia)).
    unfold KERNEL_VMA, slot, rb_data, ATOMIC_RING_BUFFER_ALIGN in *. lia.
Qed.

Lemma nx_resolve T a m va :
  nx_space T a m -> 0x400000 <= va < 0x403000 -> resolve m pt_cr3 va = At (va - 0x400000 + nx_io).
Proof.
  intros Hs Hva. unfold resolve, canonical. destruct (Z.leb_spec KERNEL_VMA va); [unfold KERNEL_VMA in *; lia|].
  destruct (Z.ltb_spec va (2 ^ 47)); [|lia]. cbn [orb negb]. rewrite (nx_user _ _ _ Hs) by done.
  f_equal. unfold paddr_to_ptr, nx_io, KERNEL_VMA. rewrite u64_small; lia.
Qed.

(** ** Sending *)

Definition nx_dev : VirtioNetDevice :=
  MkNetDevice (MkPCIDevice card_function (DeviceID_new 0 0) [] None) (PortMemory 0x500000 4096) 4 [nx_rxq; nx_txq] [1]
    (KERNEL_VMA + 0x330000) 4096 (KERNEL_VMA + 0x310000) 4096 None (Some 0x403000) (Some 0x400000).

Definition nx_hw : card :=
  MkCard 0 card_space true 15 0
    (list_to_map [((1, QUEUE_DESC), 0x300000); ((1, QUEUE_AVAIL), 0x302000); ((0, QUEUE_DESC), 0x304000); ((0, QUEUE_AVAIL), 0x306000)])
    [] [] [] 0 0.

Definition nx_devices : Devices card VirtioNetDevice := MkDevices nx_hw 0 irq_init 0 [nx_dev] [].
Definition nx_command : list Z := load_bytes nx_m (rb_data nx_io) 24.

Lemma nx_vq_ok vq : vq = nx_rxq \/ vq = nx_txq -> vq_ok vq.
Proof. intros [-> | ->]; (split; [cbn; lia|by exists 256|cbn; unfold KERNEL_VMA; lia]). Qed.

Lemma nx_io_ring : ring nx_io 24 162 nx_m 0 1 [nx_command].
Proof.
  split; [lia|lia|by vm_compute..|]. intros [|i] x Hx; [|by destruct i]. injection Hx as <-.
  unfold nx_command. generalize nx_m. reflexivity.
Qed.

Lemma nx_driver_byte x : driver_byte nx_dev nx_rxq nx_txq nx_io x ->
  KERNEL_VMA + 0x300000 <= x \/ rb_tail nx_io <= x < rb_tail nx_io + 8.
Proof.
  unfold driver_byte, vq_byte, in_buffer, nx_txq, nx_rxq, nx_dev.
  cbn [tx_page raw_descriptor_table_ptr raw_available_ring_ptr queue_size]. lia.
Qed.

Lemma nx_setup T a m : nx_space T a m ->
  net_setup nx_dev nx_rxq nx_txq pt_cr3 0x400000 nx_io 162 T 0x500000 4096 (card_bar + 0x1004) (card_bar + 0x1000) a m.
Proof.
  intros Hs. split.
  - reflexivity.
  - reflexivity.
  - by apply nx_vq_ok; left.
  - by apply nx_vq_ok; right.
  - by vm_compute.
  - by vm_compute.
  - by vm_compute.
  - apply (nx_pt _ _ _ Hs).
  - intros x Hx Ht. apply (nx_low _ _ _ Hs) in Ht. apply nx_driver_byte in Hx.
    unfold rb_tail, nx_io, KERNEL_VMA, ATOMIC_RING_BUFFER_ALIGN in *. lia.
  - reflexivity.
  - change (notify_register nx_dev 0x500000 nx_txq) with 0x500004. rewrite (nx_card _ _ _ Hs) by lia. reflexivity.
  - change (notify_register nx_dev 0x500000 nx_rxq) with 0x500000. rewrite (nx_card _ _ _ Hs) by lia. reflexivity.
  - lia.
  - intros i Hi. rewrite (nx_resolve T a m) by (exact Hs || lia). f_equal. lia.
  - unfold nx_io, KERNEL_VMA. lia.
Qed.

Lemma nx_request T a m : nx_space T a m ->
  request nx_dev nx_rxq nx_txq pt_cr3 nx_io m nx_command (Some (seqZ nx_packet 6)).
Proof.
  intros Hs. apply (request_submit _ _ _ _ _ _ _ 0x401000).
  - by vm_compute.
  - lia.
  - intros i p Hi. apply lookup_seqZ in Hi as [-> Hi]. rewrite u64_small by lia. rewrite (nx_resolve T a m) by (done || lia).
    f_equal. unfold nx_io, nx_packet, KERNEL_VMA. lia.
  - apply Forall_forall. intros x Hx Hd. apply elem_of_seqZ in Hx. apply nx_driver_byte in Hd.
    unfold rb_tail, nx_io, nx_packet, KERNEL_VMA, ATOMIC_RING_BUFFER_ALIGN in *. lia.
  - rewrite length_seqZ. lia.
Qed.


(** ** Receiving *)

Definition nx_process : Process (ProcessData region_list) :=
  MkProcess RUNNING 101 0 (MkData (VMAddressSpace_new pt_cr3) [] 0x402000).

Definition nx_kernel (a : arenas list_tree) (m : mem)
  : sched (ProcessData region_list) (World (arenas list_tree) unit (Devices card VirtioNetDevice)) :=
  MkSched (Some 1) [] [] {[1 := nx_process]} (MkWorld a m [] tt nx_devices).

Lemma nx_event_ring : ring nx_events 24 162 nx_m 0 0 [].
Proof. split; [lia|lia|by vm_compute..|]. intros i x Hx. by destruct i. Qed.

Lemma virtio_net_receives_witness :
  exists (a : arenas list_tree) m m' h d',
    interrupt nx_frame pt_cr3 0 (nx_kernel a m) = Ok (put_device 0 d' (put_memory m' (nx_kernel a m))) /\
    ring nx_events sizeof_RawEvent 162 m' 0 h [event_bytes 0x40300a 60; event_bytes 0x40300a 100].
Proof.
  destruct nx_exists as (T & a & m & Hs). exists a, m.
  destruct (virtio_net_receives nx_frame pt_cr3 T a nx_events 162 0 1 nx_process nx_dev nx_rxq 0x403000 2 [] 0 0 (nx_kernel a m))
    as (m' & h' & E & R & Hd & _); try done.
  - split.
    + apply Hs.
    + intros x Hx Ht. apply (nx_low _ _ _ Hs) in Ht. unfold event_byte, in_buffer, nx_frame, nx_events in Hx. lia.
    + cbn [event_queue rest nx_process]. rewrite (nx_resolve T a m) by (done || lia). by vm_compute.
    + split_and!; by vm_compute.
    + right. by vm_compute.
  - cbn [nx_kernel world memory]. unfold last_used_idx, load16. rewrite (nx_load T a m); [by vm_compute|done|by vm_compute].
  - intros i Hi. cbn [nx_kernel world memory].
    assert (used_at nx_rxq (last_seen_used nx_rxq) i = KERNEL_VMA + 0x308004 + 8 * Z.of_nat i) as Hu.
    { destruct i as [|[|i]]; [by vm_compute|by vm_compute|lia]. }
    rewrite Hu. split.
    + unfold load32, used_id. rewrite (nx_load T a m) by (done || lia).
      destruct i as [|[|i]]; [by vm_compute|by vm_compute|lia].
    + intros x Hx. unfold event_byte, in_buffer, nx_frame, nx_events, rb_data, ATOMIC_RING_BUFFER_ALIGN. lia.
  - apply (nx_ring T a); [done|by vm_compute|by vm_compute|apply nx_event_ring].
  - exists m', h'. eexists. split; [exact E|]. rewrite Hd in R by (cbn [length]; lia).
    replace (events 0x403000 (used_lengths (memory (world (nx_kernel a m))) nx_rxq (last_seen_used nx_rxq) 2))
      with [event_bytes 0x40300a 60; event_bytes 0x40300a 100] in R; [exact R|].
    cbn [nx_kernel world memory]. unfold used_lengths. cbn [seq fmap list_fmap]. unfold load32.
    rewrite !(nx_load T a m); [by vm_compute|done|by vm_compute|done|by vm_compute].
Defined.

(** ** Capabilities *)

Definition nx_machine : machine (arenas list_tree) card VirtioNetDevice := MkMachine empty_arenas ∅ 0 nx_devices.

Lemma nx_capabilities :
  capabilities nx_hw card_function 0x40 [(0x40, 0x11); (0x50, 0x09); (0x64, 0x09); (0x78, 0x09)].
Proof. cbn [capabilities]. split_and!; by vm_compute. Qed.

Lemma pci_capabilities_found_witness :
  exists b', virtio_find_capability (pci_dev nx_dev) VIRTIO_PCI_CAP_NOTIFY_CFG (with_hw nx_machine nx_hw)
    = Ok (Some (MkCap 0x64 0), with_hw nx_machine b').
Proof.
  destruct (pci_capabilities_found (pci_dev nx_dev) nx_machine nx_hw PCI_CAPABILITY_MSIX VIRTIO_PCI_CAP_NOTIFY_CFG) as [H _].
  destruct (H [(0x40, 0x11); (0x50, 0x09); (0x64, 0x09); (0x78, 0x09)]) as [_ (b' & E & _)].
  - apply nx_capabilities.
  - exists b'. rewrite E. f_equal.
Defined.
